(* ===== verification/_CoqProject ===== *)
-Q . S2P
Prelude.v
CString.v
Packet.v
Fec.v
SelectiveRepeat.v
Receiver.v
BufferPool.v
ProtocolSelector.v
TopicTable.v
MqttClient.v
MqttPipeline.v
MqttPublish.v
CloudReassembly.v
CloudArq.v
CloudSave.v
CloudEngine.v
MqttAdmin.v
RouteTable.v
TransferState.v
TransferArq.v
TransferHandlers.v
TransferEngine.v
TransferDemo.v
TransferRoles.v
TransferElection.v
TransferCloud.v
TransferDelivery.v
TransferLiveness.v
TransferTelemetry.v
TransferWorld.v
MeshLink.v
MeshManager.v
MeshSafety.v
MeshDemo.v
MeshForward.v
MeshDrain.v
EspNow.v
EspNowSlots.v
Reception.v
Uart.v
UartFrames.v
UartIngest.v
UartAbort.v
SdCard.v
SdCache.v
Lora.v
LoraTasks.v
LoraRx.v
Display.v
DisplayFlush.v
DisplayScreen.v
MeshDisplay.v
NodeQuery.v
CloudTelemetry.v
FlpClient.v
FlpClientRun.v
NodeMain.v
