(* ===== verification/Prelude.v ===== *)
(** * Forest Link Protocol firmware: verification library

    The Forest Link Protocol moves files from battery nodes in a forest to the
    cloud. A node splits a file into fragments, elects up to four neighbours
    that have internet (the exits), and sends them the fragments over a
    multi-hop ESP-NOW / LoRa mesh under selective-repeat ARQ with one XOR
    parity fragment per seven data fragments. The exits republish what they
    receive over MQTT and relay the cloud's ACKs and NACKs back. A source that
    has internet itself publishes directly (the local exit). This library
    models the C++ of [src/flp-node/components] (paths below are relative to
    it) and the transfer side of the Go server [src/cloud-admin], and proves
    the properties its parts promise each other.

    ** The program and the files

    - [Prelude]: machine integers as [Z] with their wrap-arounds, record
      update, list lemmas, the tactics. [CString]: C strings as byte lists,
      [snprintf] of numbers, [strncpy], topic parsing.
    - [Packet] (protocol/include/packet.hpp, itransport.hpp): the packed
      header and payload structs with their byte layout, the congestion bit.
    - [Fec] (protocol/include/fec_codec.hpp): the XOR encoder and the
      two-group decoder.
    - [SelectiveRepeat] (protocol/selective_repeat.cpp, the sender half): the
      window of [FragmentSlot]s, retransmission, the RTT estimator. The
      abstract specification is a finite map from sequence number to pending
      bytes ([pending]).
    - [Receiver] (the receiver half): the bitmap, reassembly, FEC recovery,
      the in-order cursor and the gap NACKs.
    - [BufferPool] (protocol/buffer_pool.cpp): the lock-free slab pool, as
      atomic steps of interleaved tasks and as the sequential functions the
      steps compute alone; what callers rely on is stated of the slabs
      ([acquired], [released]).
    - [ProtocolSelector] (protocol/protocol_selector.cpp): ESP-NOW or LoRa, in
      binary32 arithmetic.
    - [TopicTable] (mqtt_client/include/topic_table.hpp).
    - [MqttClient] (mqtt_client/mqtt_client.cpp, mqtt_client.hpp): the state,
      the queues and bitmaps, publishing as steps of the MQTT task, and the
      handlers of the broker's events. [MqttPipeline], [MqttPublish],
      [MqttAdmin]: its theorems.
    - [RouteTable] (mesh/include/route_table.hpp): neighbours, ETX, the choice
      of next hops, freshness of internet routes, serialisation, and the Go
      parser that reads it.
    - [TransferState], [TransferArq], [TransferHandlers], [TransferEngine]
      (mesh/transfer_engine.hpp, transfer_engine.cpp, transfer_engine_arq.cpp,
      transfer_engine_handlers.cpp): the engine that ties the parts together,
      one definition per method. [TransferState] holds the constants, the
      state record [Engine], the callbacks and resets; [TransferArq] the
      local-exit window, the choice of exits, resends, redistribution and
      feeding; [TransferHandlers] the packet handlers; [TransferEngine] the
      start of a transfer, the election, the announcement and the tick.
      [TransferDemo] is a concrete host for the witnesses; [TransferRoles],
      [TransferElection], [TransferCloud], [TransferDelivery] hold the
      safety theorems, [TransferLiveness] when a transfer and an exit role
      end, [TransferWorld] what the engine's calls leave alone in the world
      they act on. [TransferTelemetry]: the CSV file of the engine's counters,
      over the same [Engine].
    - [MeshLink], [MeshManager] (mesh/mesh_manager.cpp,
      mesh_manager_packets.cpp, mesh_manager_bridge.cpp): the world of a node
      (transports, route table, MQTT client, duplicate cache) with the wiring
      of [MeshManager::init], so that [mesh_host] instantiates the engine's
      parameter; reception, forwarding, discovery, bridging and the main loop.
      [MeshSafety], [MeshForward], [MeshDrain]: the theorems; [MeshDemo]: a
      concrete platform.
    - [EspNow] (espnow/espnow_transport.cpp): peers and transmission slots.
      [EspNowSlots]: the sending task and the driver's completions
      interleaved.
    - [Reception] (on_recv of espnow_transport.cpp, the receive task of
      lora/lora_transport.cpp, the queues of mesh_manager.cpp): from the radio
      to the mesh task through slabs. A receiver's call and a release are one
      step each there; their interleaving is [BufferPool]'s.
    - [Lora] (lora/lora_transport.cpp): the driver of the SX1280, each
      operation a program (a tree of calls and answers). [LoraTasks]: the mesh
      and receive tasks interleaved call by call; [LoraRx]: the receive task
      on the node's pool and queues.
    - [Uart] (uart_api/uart_ingest.cpp): the serial line, over a store of
      blocks and files. [UartFrames], [UartIngest], [UartAbort]: its theorems.
    - [SdCard] (sdcard/sdcard.cpp): the card's files and the read cache.
      [SdCache]: its theorems.
    - [Display] (display/oled_display.cpp): the screens, the texts, the state
      machine of [update] and the flush, as traces of LVGL and driver calls.
      [DisplayFlush], [DisplayScreen]: its theorems. [MeshDisplay]
      (mesh_manager.cpp): the snapshot [run] takes for the display, and
      [init]'s list of blocked peers. [NodeQuery] (uart_ingest.cpp,
      diagnostics/heap_monitor.cpp): the answer to STATUS and the heap report.
    - [FlpClient] (main/flp_client.cpp): the demo client over the serial API
      and the read cache. [FlpClientRun]: its theorems.
    - [NodeMain] (main/main.cpp): the start-up as a trace of calls under every
      build configuration, and the WiFi event handler.
    - The cloud server (cloud-admin/internal/transfer, internal/mqtt), in Go:
      [CloudReassembly] (reassembler.go) the FEC decoder and the file buffer,
      [CloudArq] (protocol.go) what is asked for again, [CloudSave]
      (reassembler.go) the call of [Save] against the answers of the file
      system, its search for a name included, [CloudEngine] (engine.go,
      client.go) the queue of transfers and the goroutine that serves metas,
      chunks and ticks and calls [Save], with the slice whose backing array
      its staging shares. A step is [None] where the code panics or [Save]
      never returns.
      [CloudTelemetry] (telemetry.go, topology.go, store.go, client.go): the
      nodes' reports through the channels to the topology, its graph and the
      rows handed to the database.

    ** How the model reads

    State is a record per class, an operation is a function from state to
    state (and result), in the order of the source's statements. Everything
    outside the repository is a parameter: the radios' drivers, the broker,
    the clock, the random numbers, the heap's answers, the card and the event
    group act on an abstract world ([Host] in [TransferState], [SendCallback]
    in [SelectiveRepeat], [Platform] in [MeshLink], [EspNowHost], [UartHost],
    [Card], [Chip], [CsvEnv], [ClientHost], [BootEnv], [Disk]); a theorem that relies on a behaviour of theirs states it as a
    hypothesis or a record of laws and has a witness that instantiates it. C++
    integers are [Z] with an explicit wrap wherever the source converts;
    [float] is binary32 through [SpecFloat]; [size_t] has 32 bits (ESP32).
    Logging has no effect and is left out.

    Tasks that run concurrently on shared state are steps of an interleaving:
    the pool's atomics ([BufferPool]), the mesh, MQTT and event tasks over the
    fragment queue ([MqttPipeline]), the sender and the WiFi task over the
    transmission slots ([EspNowSlots]), the mesh and receive tasks over the
    radio ([LoraTasks]). Atomics are sequentially consistent.
    The other components run under the mesh task's mutexes and are modelled as
    the sequence of their calls.

    ** What the theorems show

    - Data: a completed transfer is the file, byte for byte
      ([Receiver.transfer_integrity]); one loss per group is recovered
      ([Fec.fec_single_loss]); from its start and through every event a source
      sends only genuine fragments ([TransferDelivery.mesh_sends_genuine]).
    - ARQ: every sender operation refines its effect on the pending map
      ([SelectiveRepeat.send_fragment_refines], [ack_nack_refine],
      [tick_budget]) under an invariant of all reachable states
      ([sender_invariant]).
    - Engine: what a local-exit tick publishes and when it completes
      ([TransferCloud.local_exit_tick]); whom the election elects and what it
      installs ([TransferElection]); when a transfer ends, when the exit role
      is taken ([TransferRoles]).
    - MQTT: in a session that starts while the MQTT task is between two
      publications, accepted fragments are never lost in any interleaving
      ([MqttPipeline.fragment_pipeline_sound]; a start during a publication
      breaks it, [stale_publication_poisons_new_session]); the publishing loop equals a
      reference loop in order ([MqttPublish]); the server's requests reach the
      engine's queues ([MqttAdmin]).
    - Mesh: every frame a node sends is its own or the copy of one it heard,
      with one life less, one hop more and, the congestion flag of an answer
      apart, nothing else changed ([MeshSafety.node_air_discipline]); in a
      network of such nodes every frame goes back to one its source sent,
      over eight relays at most ([MeshForward.flooding_bounded]); duplicate
      suppression is exact ([MeshForward.dedup_exact]); the drain loops end ([MeshDrain]).
    - Routing: the next hop is the least-cost usable neighbour, internet
      routes converge to the freshest advertisement, switches need
      three confirmations, the table keeps its invariant ([RouteTable]).
    - Memory and radios: the pool's atomic steps, run alone, never hand out a
      slab in use and lose none ([BufferPool.pool_steps_refine]), nor do
      concurrent acquires ([concurrent_acquires_distinct]); with a concurrent release
      the ABA schedule of [aba_double_acquire] breaks this. Reception
      implements two bounded queues of frames ([Reception]); no transmission
      slot is lost ([EspNowSlots]); a LoRa transmission is atomic on the bus
      ([LoraTasks.transmission_atomic]) and the receive task delivers what the
      radio holds and clears its flags ([LoraRx.rx_turn_delivers]).
    - Files: the serial framing round-trips ([UartFrames]), an ingest delivers
      the bytes sent ([UartIngest]), the read cache serves the file and
      nothing else whatever fails ([SdCache]).
    - Ends: a transfer no exit answers ends, and an abandoned exit gives its
      role up ([TransferLiveness]); a source whose last completion message is
      lost does not end ([lost_done_strands_source]).
    - The node around the protocol: start-up makes every call after those it
      relies on ([NodeMain.boot_order]) and the WiFi handler tracks the link
      ([wifi_handler_tracks]); the display's flush is an exact change of pixel
      layout ([DisplayFlush.flush_exact]), its calls are well typed and its
      lines fit ([DisplayScreen]), and what it shows and what a STATUS command
      answers is the node's state in every reachable state ([MeshDisplay],
      [NodeQuery]); the demo client always has a payload and delivers it
      ([FlpClientRun]); the telemetry file always parses as its header and
      whole rows ([TransferTelemetry]).
    - The server: from the fragments the exits publish (the same parities and
      payloads as [Fec] and [MqttClient] build), among ticks and other
      transfers, it saves the source's file if nothing gives the session up
      and the file system takes the file ([CloudEngine.published_file_saved]);
      it neither panics nor loops while the names it is given leave room for a
      number, and every file it saves is one that a source sent
      ([CloudEngine.server_saves_genuine]); a file
      is complete exactly when each fragment came or can be recovered
      ([CloudReassembly]); its requests are exactly the first missing fragments
      that are not in their cooldown ([CloudArq]). Its picture of the nodes is
      what they reported, and the graph it draws of it has each node and each
      link once ([CloudTelemetry]). The search for the name of a saved file
      ends, if the name leaves room for a number, and overwrites none
      ([CloudSave]).
    - Faults: theorems that exhibit where the code does not do what it means
      to ([aba_double_acquire], [broadcast_uptime_blind],
      [stale_publication_poisons_new_session], [relay_drops_telemetry],
      [answer_aliased], [abort_loses_running_source], [small_files_refused],
      [configure_interrupts_reception], [done_mark_sticks],
      [refused_start_hangs_client], [recovered_chunk_hides_losses], and as
      lemmas [failed_save_announced], [completed_chunks_survive],
      [early_chunk_is_lost],
      [stall_cooldown_vanishes], [legacy_chunk_misread],
      [chunk_beyond_file_panics], [long_name_search_never_ends],
      [graph_hops_of_best_neighbor],
      [blocked_peers_cut],
      [flap_announces_offline], [credential_cut], [comma_breaks_row],
      [full_buffer_loses_summary], [gap_cursor_blind],
      [etx_wraps], [long_topic_duplicates], [free_count_truncated],
      [pending_exit_clobbers_transfer], [refused_transfer_misreports],
      [stray_data_redirects], [local_exit_size_wraps]).

    ** Bounds and fuel

    Loops over arrays are structural. The remaining loops carry fuel that the
    source's bound justifies: the window for the cursor and the insertion
    sort, 65536 for a 16-bit sequence number ([advance_base]), the queue
    capacities for the queue drains (a drain removes one element per turn,
    [MeshDrain]), the length asked for in the page loop of the read cache
    (every turn that stays copies a byte), six for its halving allocation;
    the demo client's waits have fuel for the sleeps and are [None] without;
    where it matters a lemma shows that the fuel suffices. The server's
    recursion (a completed transfer opens the next one, whose replay may
    complete it) has the length of its queue as fuel, [Save]'s search one try
    more than the directory has names: one that has not ended by then never
    does ([Save_diverges]).

    ** What is not modelled

    The log output, including the periodic report of the heap monitor and the
    engine's diagnostic line; the configuration of pins, of the serial port
    and of the broker's connection, beyond the order in which start-up does
    it; LVGL's rendering, of which the model has the calls and the bitmap it
    delivers. Of the cloud administration server the HTTP interface, the SQL
    of the metrics store, the decoding of JSON metas and the progress display.
    The content of the directory that [Save] writes to is what the file system
    answers to each call, any set of names. The server's clock is read once per event, in
    milliseconds; the source compares seconds in [float64], which can differ
    where a time difference equals its threshold exactly.
    The mesh manager's theorems take a transmission over either radio as a
    parameter of the platform; [EspNow], [Lora] and [Reception] model what
    lies behind it on their own. *)

From Stdlib Require Import ZArith Lia.
From stdpp Require Import base list numbers option sets.

#[global] Ltac Zify.zify_post_hook ::= Z.to_euclidean_division_equations.

Declare Scope flp_scope.
Delimit Scope flp_scope with flp.
Open Scope Z_scope.
Open Scope flp_scope.

Create HintDb flp.
Create Rewrite HintDb flp.

(** ** Machine integers

    A C++ integer is its value in [Z]; every conversion the source performs is
    one of these wrap-arounds. [size_t] is 32 bits wide on the target. *)

Definition u8 (z : Z) : Z := z mod 256.
Definition u16 (z : Z) : Z := z mod 65536.
Definition u32 (z : Z) : Z := z mod 4294967296.
Definition i8 (z : Z) : Z := (z + 128) mod 256 - 128.
Definition i16 (z : Z) : Z := (z + 32768) mod 65536 - 32768.
Definition i32 (z : Z) : Z := (z + 2147483648) mod 4294967296 - 2147483648.

#[global] Arguments Z.gtb : simpl never.
#[global] Arguments Z.geb : simpl never.
#[global] Arguments Z.ltb : simpl never.
#[global] Arguments Z.leb : simpl never.
#[global] Arguments Z.eqb : simpl never.
#[global] Arguments Z.max : simpl never.
#[global] Arguments Z.min : simpl never.
#[global] Arguments Z.mul : simpl never.
#[global] Arguments Z.add : simpl never.
#[global] Arguments Z.sub : simpl never.
#[global] Arguments Z.opp : simpl never.
#[global] Arguments Z.div : simpl never.
#[global] Arguments Z.modulo : simpl never.
#[global] Arguments Z.lxor : simpl never.
#[global] Arguments Z.land : simpl never.
#[global] Arguments Z.lor : simpl never.
#[global] Arguments Z.shiftl : simpl never.
#[global] Arguments Z.shiftr : simpl never.
#[global] Arguments Z.of_nat : simpl never.
#[global] Arguments Z.to_nat : simpl never.

Definition UINT16_MAX : Z := 65535.
Definition UINT32_MAX : Z := 4294967295.

Definition is_u8 (z : Z) : Prop := 0 <= z < 256.
Definition is_u16 (z : Z) : Prop := 0 <= z < 65536.
Definition is_u32 (z : Z) : Prop := 0 <= z < 4294967296.
Definition is_i8 (z : Z) : Prop := -128 <= z < 128.

Ltac unfold_ints :=
  unfold u8, u16, u32, i8, i16, i32, is_u8, is_u16, is_u32, is_i8,
    UINT16_MAX, UINT32_MAX in *.
Tactic Notation "int_lia" := unfold_ints; lia.

Lemma u8_small z : is_u8 z → u8 z = z.
Proof. int_lia. Qed.
Lemma u16_small z : is_u16 z → u16 z = z.
Proof. int_lia. Qed.
Lemma u32_small z : is_u32 z → u32 z = z.
Proof. int_lia. Qed.
Lemma i8_small z : is_i8 z → i8 z = z.
Proof. int_lia. Qed.
Lemma u8_range z : is_u8 (u8 z).
Proof. int_lia. Qed.
Lemma u16_range z : is_u16 (u16 z).
Proof. int_lia. Qed.
Lemma u32_range z : is_u32 (u32 z).
Proof. int_lia. Qed.
Lemma i8_u8 z : is_i8 z → i8 (u8 z) = z.
Proof. int_lia. Qed.
#[export] Hint Resolve u8_range u16_range u32_range : flp.
#[export] Hint Rewrite u8_small u16_small u32_small using (int_lia) : flp.

(** Bit tests and masks that the byte-packed headers use. *)

Lemma land_low z n : 0 <= n → Z.land z (Z.ones n) = z mod 2 ^ n.
Proof. intros. by apply Z.land_ones. Qed.

Lemma lor_shift_add a b n :
  0 <= n → 0 <= b < 2 ^ n → Z.lor (Z.shiftl a n) b = a * 2 ^ n + b.
Proof.
  intros Hn Hb. rewrite <- Z.shiftl_mul_pow2 by lia.
  symmetry. rewrite <- Z.lxor_lor, Z.add_nocarry_lxor; auto.
  all: apply Z.bits_inj'; intros i Hi; rewrite Z.land_spec, Z.bits_0.
  all: destruct (Z.lt_ge_cases i n);
    [ rewrite Z.shiftl_spec_low by lia; done
    | replace (Z.testbit b i) with false; [ by rewrite andb_false_r | ] ].
  all: symmetry; rewrite <- (Z.mod_small b (2 ^ n)) by lia;
    by rewrite Z.mod_pow2_bits_high by lia.
Qed.

Lemma flag_testbit z n : 0 <= n → negb (Z.land z (2 ^ n) =? 0) = Z.testbit z n.
Proof.
  intros Hn. destruct (Z.testbit z n) eqn:E; destruct (Z.eqb_spec (Z.land z (2 ^ n)) 0) as [H|H]; try done.
  - apply (f_equal (fun y => Z.testbit y n)) in H.
    by rewrite Z.land_spec, E, Z.pow2_bits_true, Z.bits_0 in H.
  - exfalso. apply H, Z.bits_inj_0. intros m. rewrite Z.land_spec.
    destruct (decide (m = n)) as [-> |]; [ by rewrite E | ].
    rewrite Z.pow2_bits_false by lia. apply andb_false_r.
Qed.

(** A bit of a byte after the low eight bits are kept. *)
Lemma testbit_u8 z n : 0 <= n < 8 → Z.testbit (u8 z) n = Z.testbit z n.
Proof. intros. unfold u8. change 256 with (2 ^ 8). by rewrite Z.mod_pow2_bits_low by lia. Qed.

(** ** Record update

    [r <| f := v |>] sets field [f] of [r]. A record declares its
    eta-expansion once, as an instance of [Eta]; the updater of a projection
    is computed from it. *)

Class Eta (R : Type) := eta_of : R → R.
Class Updater {R T : Type} (proj : R → T) := update_field : (T → T) → R → R.

Ltac derive_updater :=
  lazymatch goal with
  | |- @Updater ?R ?T ?proj =>
      let e := constr:(@eta_of R _) in
      let e := (eval hnf in e) in
      lazymatch (eval pattern proj in e) with
      | ?F _ =>
          let u := constr:(fun (g : T → T) (r : R) => F (fun r' => g (proj r')) r) in
          let u := (eval cbv beta in u) in
          exact u
      end
  end.
#[global] Hint Extern 1 (Updater _) => derive_updater : typeclass_instances.

Notation "r <| f ::= g |>" := (update_field (proj:=f) g r)
  (at level 12, left associativity, f constr at next level) : flp_scope.
Notation "r <| f := v |>" := (update_field (proj:=f) (fun _ => v) r)
  (at level 12, left associativity, f constr at next level) : flp_scope.

Ltac red_upd := unfold update_field in *; cbn beta in *.

(** ** Arrays

    A C array or a heap block is a list; an index is a [Z]. Every use in the
    models is within bounds, which the components' invariants prove; out of
    range [aget] returns a default and [aset] changes nothing. *)

Definition aget {A} `{!Inhabited A} (l : list A) (i : Z) : A := l !!! Z.to_nat i.
Definition aset {A} (l : list A) (i : Z) (x : A) : list A := <[Z.to_nat i := x]> l.

(** [memcpy(dst + off, src, length src)] *)
Definition memcpy {A} (dst : list A) (off : nat) (src : list A) : list A :=
  take off dst ++ src ++ drop (off + length src) dst.

(** In-place update of the first element that satisfies [p], the shape of
    [for (...) if (p(x)) { x = f(x); break; }]. *)
Fixpoint update_first {A} (p : A → bool) (f : A → A) (l : list A) : list A :=
  match l with
  | [] => []
  | x :: l' => if p x then f x :: l' else x :: update_first p f l'
  end.

(** The first element that satisfies [p]. *)
Fixpoint find_first {A} (p : A → bool) (l : list A) : option A :=
  match l with
  | [] => None
  | x :: l' => if p x then Some x else find_first p l'
  end.

Lemma lookup_map {A B} (f : A → B) (l : list A) k : map f l !! k = f <$> l !! k.
Proof. exact (list_lookup_fmap f l k). Qed.

Section arrays.
Context {A : Type} `{!Inhabited A}.
Implicit Types (l : list A) (x : A).

Lemma length_aset l i x : length (aset l i x) = length l.
Proof. apply length_insert. Qed.

Lemma aget_aset_eq l i x :
  0 <= i < Z.of_nat (length l) → aget (aset l i x) i = x.
Proof. intros. unfold aget, aset. apply list_lookup_total_insert_eq. lia. Qed.

Lemma aget_aset_ne l i j x :
  0 <= i → 0 <= j → i ≠ j → aget (aset l i x) j = aget l j.
Proof. intros. unfold aget, aset. apply list_lookup_total_insert_ne. lia. Qed.

Lemma aget_lookup l i :
  0 <= i < Z.of_nat (length l) → l !! Z.to_nat i = Some (aget l i).
Proof. intros. apply list_lookup_lookup_total_lt. lia. Qed.

Lemma aget_of_lookup l (i : nat) x : l !! i = Some x → aget l (Z.of_nat i) = x.
Proof.
  intros H. unfold aget. rewrite Nat2Z.id. by apply list_lookup_total_correct.
Qed.

Lemma length_memcpy l off src :
  (off + length src <= length l)%nat → length (memcpy l off src) = length l.
Proof.
  intros. unfold memcpy. rewrite !length_app, length_take, length_drop. lia.
Qed.

Lemma lookup_memcpy_in l off src i :
  (off + length src <= length l)%nat → (off <= i < off + length src)%nat →
  memcpy l off src !! i = src !! (i - off)%nat.
Proof.
  intros. unfold memcpy.
  rewrite lookup_app_r; rewrite length_take; [ | lia ].
  rewrite lookup_app_l by lia. f_equal. lia.
Qed.

Lemma lookup_memcpy_out l off src i :
  (off + length src <= length l)%nat → (i < off ∨ off + length src <= i)%nat →
  memcpy l off src !! i = l !! i.
Proof.
  intros Hle [Hi | Hi]; unfold memcpy.
  - rewrite lookup_app_l by (rewrite length_take; lia).
    by rewrite lookup_take_lt by lia.
  - rewrite lookup_app_r; rewrite length_take; [ | lia ].
    rewrite lookup_app_r by lia. rewrite lookup_drop. f_equal. lia.
Qed.

Lemma take_memcpy_0 l src :
  (length src <= length l)%nat → take (length src) (memcpy l 0 src) = src.
Proof.
  intros. unfold memcpy. rewrite take_0. cbn. by rewrite take_app_length.
Qed.

Lemma memcpy_nil l off : memcpy l off [] = l.
Proof. unfold memcpy. cbn. by rewrite Nat.add_0_r, take_drop. Qed.

Lemma length_update_first p f l : length (update_first p f l) = length l.
Proof. induction l as [ | y l IH ]; cbn; [done | ]. destruct (p y); cbn; congruence. Qed.

Lemma update_first_none p f l :
  (∀ x, x ∈ l → p x = false) → update_first p f l = l.
Proof.
  induction l as [ | y l IH ]; intros H; cbn; [done | ].
  rewrite H by set_solver. f_equal. apply IH. set_solver.
Qed.

Lemma map_update_first {B} (g : A → B) p f l :
  (∀ x, p x = true → g (f x) = g x) → map g (update_first p f l) = map g l.
Proof.
  intros H. induction l as [ | y l IH ]; cbn; [done | ].
  destruct (p y) eqn:E; cbn; [ by rewrite H | by rewrite IH ].
Qed.

Lemma elem_of_update_first p f l x :
  x ∈ update_first p f l → x ∈ l ∨ ∃ y, y ∈ l ∧ p y = true ∧ x = f y.
Proof.
  induction l as [ | y l IH ]; cbn; [set_solver | ].
  destruct (p y) eqn:E; rewrite !elem_of_cons; intros [-> | H].
  - right. exists y. set_solver.
  - set_solver.
  - set_solver.
  - destruct (IH H) as [? | (z & ? & ? & ?)]; [set_solver | ].
    right. exists z. set_solver.
Qed.

Lemma find_first_Some p l x : find_first p l = Some x → x ∈ l ∧ p x = true.
Proof.
  induction l as [ | y l IH ]; cbn; [done | ].
  destruct (p y) eqn:E; intros H; simplify_eq; [set_solver | ].
  destruct (IH H). set_solver.
Qed.

Lemma find_first_None p l :
  find_first p l = None ↔ ∀ x, x ∈ l → p x = false.
Proof.
  induction l as [ | y l IH ]; cbn; [ split; [ set_solver | done ] | ].
  destruct (p y) eqn:E; split; intros H.
  - done.
  - specialize (H y). rewrite H in E by set_solver. done.
  - intros x [-> | Hx]%elem_of_cons; [done | ]. by apply IH.
  - apply IH. set_solver.
Qed.

Lemma find_first_ext p q l :
  (∀ x, x ∈ l → p x = q x) → find_first p l = find_first q l.
Proof.
  induction l as [ | y l IH ]; intros H; cbn; [done | ].
  rewrite H by set_solver. destruct (q y); [done | ]. apply IH. set_solver.
Qed.

Lemma find_first_update_first p f l :
  (∀ x, p x = true → p (f x) = true) →
  find_first p (update_first p f l) = f <$> find_first p l.
Proof.
  intros H. induction l as [ | y l IH ]; cbn; [done | ].
  destruct (p y) eqn:E; cbn; [ by rewrite H | by rewrite E ].
Qed.
End arrays.

(** Counting the elements that satisfy a test, and how one update moves it. *)
Definition count_if {A} (p : A → bool) (l : list A) : Z :=
  Z.of_nat (length (List.filter p l)).

Section counting.
Context {A : Type} (p : A → bool).
Implicit Types (l : list A).

Lemma count_if_nil : count_if p [] = 0.
Proof. done. Qed.
Lemma count_if_cons x l : count_if p (x :: l) = Z.b2z (p x) + count_if p l.
Proof. unfold count_if. cbn. destruct (p x); cbn; lia. Qed.
Lemma count_if_app l l' : count_if p (l ++ l') = count_if p l + count_if p l'.
Proof. unfold count_if. rewrite List.filter_app, length_app. lia. Qed.
Lemma count_if_range l : 0 <= count_if p l <= Z.of_nat (length l).
Proof.
  induction l as [ | x l IH ]; [ done | ]. rewrite count_if_cons. cbn.
  destruct (p x); cbn; lia.
Qed.
Lemma count_if_none l : (∀ x, x ∈ l → p x = false) → count_if p l = 0.
Proof.
  induction l as [ | x l IH ]; intros H; [ done | ].
  rewrite count_if_cons, (H x), IH; [ done | | ]; set_solver.
Qed.
Lemma count_if_zero_inv l x : count_if p l = 0 → x ∈ l → p x = false.
Proof.
  induction l as [ | y l IH ]; [ set_solver | ]. rewrite count_if_cons.
  pose proof (count_if_range l). intros Hc [-> | Hx]%elem_of_cons.
  - destruct (p y); cbn in *; lia.
  - apply IH; [ | done ]. destruct (p y); cbn in *; lia.
Qed.
Lemma count_if_insert l k x y :
  l !! k = Some x → count_if p (<[k := y]> l) = count_if p l - Z.b2z (p x) + Z.b2z (p y).
Proof.
  intros Hk. rewrite <- (take_drop_middle l k x Hk) at 2.
  rewrite insert_take_drop by (by eapply lookup_lt_Some).
  rewrite !count_if_app, !count_if_cons. lia.
Qed.
Lemma count_if_replicate n x : p x = false → count_if p (replicate n x) = 0.
Proof. intros. apply count_if_none. intros y Hy. by apply elem_of_replicate in Hy as [-> _]. Qed.
End counting.

#[export] Hint Rewrite @length_aset @length_update_first : flp.

(** ** Little-endian byte strings, the layout of the packed structs *)

Fixpoint le_bytes (n : nat) (z : Z) : list Z :=
  match n with
  | O => []
  | S n' => z mod 256 :: le_bytes n' (z / 256)
  end.

Fixpoint le_value (bs : list Z) : Z :=
  match bs with
  | [] => 0
  | b :: bs' => b + 256 * le_value bs'
  end.

Lemma length_le_bytes n z : length (le_bytes n z) = n.
Proof. revert z. induction n; cbn; auto. Qed.

Lemma le_value_bytes n z : 0 <= z < 256 ^ Z.of_nat n → le_value (le_bytes n z) = z.
Proof.
  revert z. induction n as [ | n IH ]; intros z Hz.
  - cbn in *. lia.
  - cbn [le_bytes le_value]. rewrite IH; [ lia | ].
    rewrite Nat2Z.inj_succ, Z.pow_succ_r in Hz by lia.
    set (P := 256 ^ Z.of_nat n) in *. clearbody P. lia.
Qed.

Lemma le_bytes_value bs : Forall is_u8 bs → le_bytes (length bs) (le_value bs) = bs.
Proof.
  induction 1 as [ | b bs Hb _ IH ]; cbn [length le_bytes le_value]; [done | ].
  unfold is_u8 in Hb. set (v := le_value bs) in *. clearbody v.
  replace ((b + 256 * v) mod 256) with b by lia.
  replace ((b + 256 * v) / 256) with v by lia. by rewrite IH.
Qed.

Lemma le_bytes_u8 n z : Forall is_u8 (le_bytes n z).
Proof. revert z. induction n; intros; cbn; constructor; auto. int_lia. Qed.

(** ** Byte-wise XOR into a buffer: [for i < len: dst[i] ^= src[i]] *)

Fixpoint xor_into (dst src : list Z) : list Z :=
  match dst, src with
  | d :: dst', s :: src' => Z.lxor d s :: xor_into dst' src'
  | _, _ => dst
  end.

Lemma length_xor_into dst src : length (xor_into dst src) = length dst.
Proof. revert src. induction dst; destruct src; cbn; auto. Qed.

(** A byte string read past its end gives zero, which is what the zeroed
    buffers make of a short fragment. *)
Definition byte_at (bs : list Z) (i : nat) : Z := default 0 (bs !! i).

Lemma byte_at_xor_into dst src i :
  (length src <= length dst)%nat →
  byte_at (xor_into dst src) i = Z.lxor (byte_at dst i) (byte_at src i).
Proof.
  unfold byte_at. revert src i. induction dst as [ | d dst IH ]; intros src i Hle.
  - destruct src; [ | cbn in Hle; lia ]. by destruct i.
  - destruct src as [ | s src ]; cbn.
    + by rewrite Z.lxor_0_r.
    + destruct i; cbn; [done | ]. apply IH. cbn in Hle. lia.
Qed.

Lemma byte_at_replicate n i : byte_at (replicate n 0) i = 0.
Proof.
  unfold byte_at. destruct (replicate n 0 !! i) eqn:E; [ | done ].
  by apply lookup_replicate in E as [-> _].
Qed.

Lemma byte_at_take bs n i :
  byte_at (take n bs) i = if (i <? n)%nat then byte_at bs i else 0.
Proof.
  unfold byte_at. destruct (Nat.ltb_spec i n).
  - by rewrite lookup_take_lt.
  - by rewrite lookup_take_ge.
Qed.

Lemma byte_at_resize bs n i :
  byte_at (resize n 0 bs) i = if (i <? n)%nat then byte_at bs i else 0.
Proof.
  unfold byte_at. destruct (Nat.ltb_spec i n).
  - destruct (decide (i < length bs)%nat).
    + by rewrite lookup_resize.
    + by rewrite lookup_resize_new, lookup_ge_None_2 by lia.
  - by rewrite lookup_resize_old.
Qed.

Lemma byte_at_ge bs i : (length bs <= i)%nat → byte_at bs i = 0.
Proof. intros. unfold byte_at. by rewrite lookup_ge_None_2. Qed.

Lemma bytes_ext bs bs' :
  length bs = length bs' → (∀ i, byte_at bs i = byte_at bs' i) → bs = bs'.
Proof.
  intros Hl H. apply list_eq_same_length with (length bs); [done | done | ].
  intros i x y Hi Hx Hy. specialize (H i). unfold byte_at in H.
  by rewrite Hx, Hy in H.
Qed.

(** ** Calls whose failure stops the program

    Each call stands beside whether [ESP_ERROR_CHECK] or [assert] guards it;
    [ok] is the answer of whoever is called. The calls made, up to the first
    guarded one that fails, and whether the program got through. *)

Fixpoint run_checked {A} (ok : A → bool) (ops : list (A * bool)) : list A * bool :=
  match ops with
  | [] => ([], true)
  | (op, checked) :: ops' =>
      if checked && negb (ok op) then ([op], false)
      else let '(done, alive) := run_checked ok ops' in (op :: done, alive)
  end.

Lemma run_checked_prefix {A} (ok : A → bool) ops : (run_checked ok ops).1 `prefix_of` map fst ops.
Proof.
  induction ops as [ | [op c] ops IH ]; cbn [run_checked map fst]; [ done | ].
  destruct (c && negb (ok op)); [ by apply (prefix_cons op), prefix_nil | ].
  destruct (run_checked ok ops) as [d a]. by apply prefix_cons.
Qed.

Lemma run_checked_alive {A} (ok : A → bool) ops :
  (run_checked ok ops).2 = true → (run_checked ok ops).1 = map fst ops.
Proof.
  induction ops as [ | [op c] ops IH ]; intros H; [ done | ]. cbn [run_checked map fst] in *.
  destruct (c && negb (ok op)); [ done | ]. destruct (run_checked ok ops) as [d a].
  cbn [fst snd] in *. by rewrite IH.
Qed.
