(* ===== verification/CString.v ===== *)
(** * C strings and the library routines the clients use

    A C string is the list of its bytes before the terminator. [snprintf]'s
    [%u], [%04x] and [%04X], [strtol] in base 10 (a 32-bit [long] on the
    target), [strstr] and [strncmp] on prefixes. *)

From Stdlib Require Import ZArith Lia Ascii String.
From stdpp Require Import base list numbers option sets.
From S2P Require Import Prelude.
Open Scope Z_scope.
Open Scope flp_scope.

(** A string literal's bytes. *)
Definition str (s : string) : list Z :=
  map (fun c => Z.of_nat (nat_of_ascii c)) (list_ascii_of_string s).

(** ** Formatting *)

(** The decimal digits of [z], most significant first; ten suffice for 32 bits. *)
Fixpoint dec_digits (fuel : nat) (z : Z) (acc : list Z) : list Z :=
  match fuel with
  | O => acc
  | S fuel' =>
      let acc := (48 + z mod 10) :: acc in
      if z / 10 =? 0 then acc else dec_digits fuel' (z / 10) acc
  end.
Definition dec (z : Z) : list Z := dec_digits 10 z [].

Definition hex_digit (upper : bool) (d : Z) : Z :=
  if d <? 10 then 48 + d else if upper then 55 + d else 87 + d.
(** [%04x], [%04X] of a 16-bit value. *)
Definition hex4 (upper : bool) (z : Z) : list Z :=
  map (fun k => hex_digit upper (z / 16 ^ k mod 16)) [3; 2; 1; 0].

(** ** Parsing *)

Definition is_digit (c : Z) : bool := (48 <=? c) && (c <=? 57).
(** [isspace] in the C locale. *)
Definition is_space (c : Z) : bool := (c =? 32) || ((9 <=? c) && (c <=? 13)).

Definition LONG_MAX : Z := 2147483647.
Definition LONG_MIN : Z := -2147483648.

Fixpoint span_digits (s : list Z) (acc : Z) : Z * list Z :=
  match s with
  | c :: s' => if is_digit c then span_digits s' (acc * 10 + (c - 48)) else (acc, s)
  | [] => (acc, [])
  end.

Fixpoint skip_spaces (s : list Z) : list Z :=
  match s with
  | c :: s' => if is_space c then skip_spaces s' else s
  | [] => []
  end.

Definition clamp_long (z : Z) : Z :=
  if z >? LONG_MAX then LONG_MAX else if z <? LONG_MIN then LONG_MIN else z.

(** [strtol(s, &end, 10)]: the value and what [end] points to; [None] when no
    digit was found ([end == s]). *)
Definition strtol10 (s : list Z) : option (Z * list Z) :=
  let s := skip_spaces s in
  let '(neg, s) := match s with
                   | 45 :: s' => (true, s')
                   | 43 :: s' => (false, s')
                   | _ => (false, s)
                   end in
  match s with
  | c :: _ =>
      if is_digit c then
        let '(v, rest) := span_digits s 0 in
        Some (clamp_long (if neg then - v else v), rest)
      else None
  | [] => None
  end.

Fixpoint prefix_of (p s : list Z) : bool :=
  match p, s with
  | [], _ => true
  | x :: p', y :: s' => (x =? y) && prefix_of p' s'
  | _ :: _, [] => false
  end.

(** [strstr(hay, needle)]: the rest of [hay] from the first match on. *)
Fixpoint strstr (hay needle : list Z) : option (list Z) :=
  if prefix_of needle hay then Some hay
  else match hay with
       | [] => None
       | _ :: hay' => strstr hay' needle
       end.

(** Null-terminating [len] bytes at [data] in a buffer of [cap] bytes, and
    reading them as a string. *)
Fixpoint until_nul (bs : list Z) : list Z :=
  match bs with
  | [] => []
  | b :: bs' => if b =? 0 then [] else b :: until_nul bs'
  end.
Definition buffered (cap : Z) (data : list Z) : list Z :=
  until_nul (take (Z.to_nat (cap - 1)) data).

(** ** Facts *)

Lemma prefix_of_spec p s : prefix_of p s = true ↔ ∃ k, s = p ++ k.
Proof.
  revert s. induction p as [ | x p IH ]; intros s; cbn [prefix_of].
  { split; [ by exists s | done ]. }
  destruct s as [ | y s ]; [ split; [ done | by intros [k ?] ] | ].
  rewrite andb_true_iff, IH, Z.eqb_eq. split.
  - intros [-> [k ->]]. by exists k.
  - intros [k [= -> ->]]. eauto.
Qed.

Lemma strstr_first hay needle : prefix_of needle hay = true → strstr hay needle = Some hay.
Proof. intros H. destruct hay; cbn [strstr]; by rewrite H. Qed.

Lemma strstr_skip c hay needle :
  prefix_of needle (c :: hay) = false → strstr (c :: hay) needle = strstr hay needle.
Proof. intros H. cbn [strstr]. by rewrite H. Qed.

Lemma until_nul_id bs : Forall (fun b => b ≠ 0) bs → until_nul bs = bs.
Proof.
  induction 1 as [ | b bs Hb _ IH ]; cbn [until_nul]; [ done | ].
  destruct (Z.eqb_spec b 0); [ done | by rewrite IH ].
Qed.

Lemma is_digit_char d : 0 <= d < 10 → is_digit (48 + d) = true.
Proof. intros. unfold is_digit. lia. Qed.

Lemma dec_digits_app fuel z acc : dec_digits fuel z acc = dec_digits fuel z [] ++ acc.
Proof.
  revert z acc. induction fuel as [ | fuel IH ]; intros z acc; cbn [dec_digits]; [ done | ].
  destruct (z / 10 =? 0); [ done | ]. rewrite IH, (IH _ [48 + z mod 10]).
  by rewrite <- app_assoc.
Qed.

Lemma span_digits_dec fuel z rest acc :
  0 <= z < 10 ^ Z.of_nat fuel → (0 < fuel)%nat →
  (∀ c, head rest = Some c → is_digit c = false) →
  span_digits (dec_digits fuel z [] ++ rest) acc =
    (acc * 10 ^ Z.of_nat (length (dec_digits fuel z [])) + z, rest).
Proof.
  intros Hz Hf Hrest. revert z acc rest Hz Hf Hrest.
  assert (Hstop : ∀ rest acc, (∀ c, head rest = Some c → is_digit c = false) →
    span_digits rest acc = (acc, rest)).
  { intros [ | c rest ] acc H; [ done | ]. cbn [span_digits]. by rewrite (H c eq_refl). }
  induction fuel as [ | fuel IH ]; intros z acc rest Hz Hf Hrest; [ lia | ].
  cbn [dec_digits]. destruct (Z.eqb_spec (z / 10) 0) as [E | E].
  - cbn [app span_digits length]. rewrite is_digit_char by lia. rewrite Hstop by done.
    f_equal. change (Z.of_nat 1) with 1. lia.
  - assert (Hfuel : (0 < fuel)%nat).
    { destruct fuel; [ | lia ]. change (10 ^ Z.of_nat 1) with 10 in Hz. lia. }
    rewrite dec_digits_app, <- app_assoc. cbn [app].
    assert (Hz' : 0 <= z / 10 < 10 ^ Z.of_nat fuel).
    { rewrite Nat2Z.inj_succ, Z.pow_succ_r in Hz by lia. lia. }
    assert (Hspan : ∀ l acc r, Forall (fun c => is_digit c = true) l →
      span_digits (l ++ r) acc = span_digits r (span_digits l acc).1).
    { induction l as [ | c l IHl ]; intros a r Hl; cbn [app span_digits]; [ done | ].
      apply Forall_cons_1 in Hl as [-> Hl]. by apply IHl. }
    assert (Hd : Forall (fun c => is_digit c = true) (dec_digits fuel (z / 10) [])).
    { clear. generalize (z / 10). intros y.
      assert (H : ∀ n y a, Forall (fun c => is_digit c = true) a →
        Forall (fun c => is_digit c = true) (dec_digits n y a)).
      { induction n as [ | n IHn ]; intros y' a Ha; cbn [dec_digits]; [ done | ].
        assert (Forall (fun c => is_digit c = true) ((48 + y' mod 10) :: a))
          by (constructor; [ apply is_digit_char; lia | done ]).
        destruct (_ =? 0); [ done | by apply IHn ]. }
      by apply H. }
    pose proof (IH (z / 10) acc [] Hz' Hfuel ltac:(done)) as Hi. rewrite app_nil_r in Hi.
    rewrite Hspan, Hi by done. cbn [fst span_digits].
    rewrite is_digit_char by lia. rewrite Hstop by done. f_equal.
    rewrite length_app. cbn [length]. rewrite Nat2Z.inj_add, Z.pow_add_r by lia.
    change (10 ^ Z.of_nat 1) with 10. lia.
Qed.

Lemma dec_head fuel z acc :
  (0 < fuel)%nat → ∃ c l, dec_digits fuel z acc = c :: l ∧ is_digit c = true.
Proof.
  revert z acc. induction fuel as [ | fuel IH ]; intros z acc Hf; [ lia | ]. cbn [dec_digits].
  destruct (_ =? 0).
  - eexists _, _. split; [ reflexivity | apply is_digit_char; lia ].
  - destruct fuel as [ | fuel ]; [ | apply IH; lia ].
    eexists _, _. split; [ reflexivity | apply is_digit_char; lia ].
Qed.

(** [strtol] inverts [%u] on what a [long] holds. *)
Lemma strtol_dec z rest :
  0 <= z <= LONG_MAX → (∀ c, head rest = Some c → is_digit c = false) →
  strtol10 (dec z ++ rest) = Some (z, rest).
Proof.
  intros Hz Hrest. unfold strtol10, dec.
  destruct (dec_head 10 z [] ltac:(lia)) as (c & l & E & Hc).
  pose proof (span_digits_dec 10 z rest 0 ltac:(unfold LONG_MAX in *; lia) ltac:(lia) Hrest) as Hs.
  rewrite E in *. cbn [app] in *. unfold is_digit in Hc.
  assert (Hsp : is_space c = false) by (unfold is_space; lia). cbn [skip_spaces]. rewrite Hsp.
  assert (Hm : match c :: l ++ rest with
               | 45 :: s' => (true, s') | 43 :: s' => (false, s') | _ => (false, c :: l ++ rest)
               end = (false, c :: l ++ rest)).
  { destruct (decide (c = 45)) as [-> | ]; [ done | ]. destruct (decide (c = 43)) as [-> | ]; [ done | ].
    destruct c as [ | p | p ]; [ done | | done ].
    repeat (destruct p as [p | p | ]; try done; try lia). }
  rewrite Hm. unfold is_digit. rewrite Hc, Hs. unfold clamp_long.
  replace (_ >? LONG_MAX) with false by lia. unfold LONG_MIN. replace (_ <? -2147483648) with false by lia.
  repeat f_equal; lia.
Qed.

Lemma dec_no_nul z : Forall (fun b => 48 <= b <= 57) (dec z).
Proof.
  unfold dec. assert (H : ∀ n y a, Forall (fun b => 48 <= b <= 57) a →
    Forall (fun b => 48 <= b <= 57) (dec_digits n y a)).
  { induction n as [ | n IHn ]; intros y a Ha; cbn [dec_digits]; [ done | ].
    assert (Forall (fun b => 48 <= b <= 57) ((48 + y mod 10) :: a)) by (constructor; [ lia | done ]).
    destruct (_ =? 0); [ done | by apply IHn ]. }
  by apply H.
Qed.

Lemma length_dec_digits fuel z acc : (length (dec_digits fuel z acc) <= fuel + length acc)%nat.
Proof.
  revert z acc. induction fuel as [ | fuel IH ]; intros z acc; cbn [dec_digits]; [ lia | ].
  destruct (_ =? 0); cbn [length]; [ lia | ]. etransitivity; [ apply IH | cbn [length]; lia ].
Qed.

Lemma length_dec_digits_bound fuel k z :
  0 <= z < 10 ^ Z.of_nat k → (0 < k)%nat → (length (dec_digits fuel z []) <= k)%nat.
Proof.
  revert k z. induction fuel as [ | fuel IH ]; intros k z Hz Hk; cbn [dec_digits length]; [ lia | ].
  destruct (Z.eqb_spec (z / 10) 0) as [E | E]; [ cbn [length]; lia | ].
  rewrite dec_digits_app, length_app. cbn [length].
  destruct k as [ | k ]; [ lia | ].
  rewrite Nat2Z.inj_succ, Z.pow_succ_r in Hz by lia.
  destruct k as [ | k ]; [ change (10 ^ Z.of_nat 0) with 1 in Hz; lia | ].
  specialize (IH (S k) (z / 10) ltac:(lia) ltac:(lia)). lia.
Qed.

(** A number below [10 ^ k] prints in at most [k] digits. *)
Lemma length_dec_bound k z : 0 <= z < 10 ^ Z.of_nat k → (0 < k)%nat → (length (dec z) <= k)%nat.
Proof. apply length_dec_digits_bound. Qed.

Lemma length_hex4 upper z : length (hex4 upper z) = 4%nat.
Proof. done. Qed.
