(* ===== verification/Packet.v ===== *)
(** * Wire format (components/protocol/include/packet.hpp)

    Protocol constants, the packed 8-byte [PacketHeader] with its accessors and
    mutators, the packed payload structs as byte strings, and the congestion
    bit carried in the sequence number of ACK and NACK packets. *)

From Stdlib Require Import ZArith Lia.
From stdpp Require Import base list numbers option sets.
From S2P Require Import Prelude.
Open Scope Z_scope.
Open Scope flp_scope.

(** ** Constants *)

Definition BROADCAST_ADDR : Z := 65535.
Definition EXIT_ANY_ADDR : Z := 65534.
Definition PROTOCOL_VERSION : Z := 1.
Definition DEFAULT_TTL : Z := 8.
Definition MAX_MTU : Z := 1470.
Definition ARQ_WINDOW : Z := 64.
Definition MAX_RETRIES : Z := 12.
Definition MAX_NEIGHBORS : Z := 16.
Definition MAX_EXIT_NODES : Z := 4.
Definition FEC_GROUP_SIZE : Z := 7.
Definition PACKET_HEADER_SIZE : Z := 8.
Definition LORA_MAX_PAYLOAD : Z := 255 - PACKET_HEADER_SIZE.
Definition ESPNOW_MAX_PAYLOAD : Z := MAX_MTU - PACKET_HEADER_SIZE.
Definition TRANSFER_FRAGMENT_ALIGN : Z := 8.
Definition DEFAULT_TRANSFER_FRAGMENT_SIZE : Z :=
  ESPNOW_MAX_PAYLOAD / TRANSFER_FRAGMENT_ALIGN * TRANSFER_FRAGMENT_ALIGN.
Definition CONGESTION_FLAG : Z := 32768.

(** Return codes of a transport's [send] (itransport.hpp). *)
Definition TRANSPORT_SEND_OK : Z := 0.
Definition TRANSPORT_SEND_FAILED : Z := -1.
Definition TRANSPORT_SEND_BACKPRESSURE : Z := -2.

(** ** Packet types

    The enum has underlying type [uint8_t]; [type()] casts six received bits
    to it, so a value may have no enumerator. *)
Inductive PacketType :=
  | DATA | ACK | NACK | PARITY | DISCOVERY | ROUTE_REPLY | ROUTE_ERROR
  | TRANSFER_AD | TRANSFER_ACK | EXIT_OFFLINE | TRANSFER_DONE
  | MESH_PUB | MESH_CMD
  | UNNAMED_TYPE (raw : Z).

#[export] Instance PacketType_eq_dec : EqDecision PacketType.
Proof. solve_decision. Defined.

Definition type_code (t : PacketType) : Z :=
  match t with
  | DATA => 1 | ACK => 2 | NACK => 3 | PARITY => 6
  | DISCOVERY => 16 | ROUTE_REPLY => 18 | ROUTE_ERROR => 19
  | TRANSFER_AD => 32 | TRANSFER_ACK => 33 | EXIT_OFFLINE => 34
  | TRANSFER_DONE => 35 | MESH_PUB => 48 | MESH_CMD => 49
  | UNNAMED_TYPE raw => raw
  end.

Definition type_of_code (c : Z) : PacketType :=
  match c with
  | 1 => DATA | 2 => ACK | 3 => NACK | 6 => PARITY
  | 16 => DISCOVERY | 18 => ROUTE_REPLY | 19 => ROUTE_ERROR
  | 32 => TRANSFER_AD | 33 => TRANSFER_ACK | 34 => EXIT_OFFLINE
  | 35 => TRANSFER_DONE | 48 => MESH_PUB | 49 => MESH_CMD
  | _ => UNNAMED_TYPE c
  end.

(** ** The header *)

Record PacketHeader := mk_header {
  ver_type : Z;
  src_addr : Z;
  dst_addr : Z;
  ttl_hops : Z;
  seq_num : Z
}.

#[export] Instance eta_PacketHeader : Eta PacketHeader := fun h =>
  mk_header (ver_type h) (src_addr h) (dst_addr h) (ttl_hops h) (seq_num h).

#[export] Instance PacketHeader_eq_dec : EqDecision PacketHeader.
Proof. solve_decision. Defined.

Definition header_wf (h : PacketHeader) : Prop :=
  is_u8 (ver_type h) ∧ is_u16 (src_addr h) ∧ is_u16 (dst_addr h) ∧
  is_u8 (ttl_hops h) ∧ is_u16 (seq_num h).

Definition version (h : PacketHeader) : Z := Z.shiftr (ver_type h) 6.
Definition hdr_type (h : PacketHeader) : PacketType :=
  type_of_code (Z.land (ver_type h) 63).
Definition ttl (h : PacketHeader) : Z := Z.shiftr (ttl_hops h) 4.
Definition hop_count (h : PacketHeader) : Z := Z.land (ttl_hops h) 15.

Definition set_ver_type (ver : Z) (t : PacketType) (h : PacketHeader) : PacketHeader :=
  h <| ver_type := u8 (Z.lor (Z.shiftl ver 6) (Z.land (u8 (type_code t)) 63)) |>.
Definition set_ttl_hops (ttl hops : Z) (h : PacketHeader) : PacketHeader :=
  h <| ttl_hops := u8 (Z.lor (Z.shiftl ttl 4) (Z.land hops 15)) |>.

(** ** Packed structs as byte strings

    [pack] lays out little-endian fields of the given widths; [unpack] reads
    them back, and past the end of the input it reads the zeros of the
    zero-initialised struct that a partial [memcpy] leaves. *)

Fixpoint pack (fs : list (nat * Z)) : list Z :=
  match fs with
  | [] => []
  | (w, v) :: fs' => le_bytes w v ++ pack fs'
  end.

Fixpoint unpack (ws : list nat) (bs : list Z) : list Z :=
  match ws with
  | [] => []
  | w :: ws' => le_value (take w bs) :: unpack ws' (drop w bs)
  end.

Lemma length_pack fs : length (pack fs) = sum_list (map fst fs).
Proof.
  induction fs as [ | [w v] fs IH ]; cbn; [done | ].
  rewrite length_app, length_le_bytes. lia.
Qed.

Lemma unpack_pack fs rest :
  Forall (fun f => 0 <= f.2 < 256 ^ Z.of_nat f.1) fs →
  unpack (map fst fs) (pack fs ++ rest) = map snd fs.
Proof.
  induction 1 as [ | [w v] fs Hv _ IH ]; cbn; [done | ].
  rewrite <- app_assoc, take_app_length' by (by rewrite length_le_bytes).
  rewrite drop_app_length' by (by rewrite length_le_bytes).
  by rewrite le_value_bytes, IH.
Qed.

Definition header_fields (h : PacketHeader) : list (nat * Z) :=
  [(1%nat, ver_type h); (2%nat, src_addr h); (2%nat, dst_addr h);
   (1%nat, ttl_hops h); (2%nat, seq_num h)].
Definition encode_header (h : PacketHeader) : list Z := pack (header_fields h).
Definition decode_header (bs : list Z) : PacketHeader :=
  match unpack [1; 2; 2; 1; 2]%nat bs with
  | [a; b; c; d; e] => mk_header a b c d e
  | _ => mk_header 0 0 0 0 0
  end.

Record DiscoveryPayload := mk_disc {
  disc_flags : Z;
  disc_hops_to_internet : Z;
  disc_rssi : Z;
  disc_inet_seq : Z;
  disc_inet_origin : Z;
  disc_queue_load : Z
}.
Definition sizeof_DiscoveryPayload : Z := 8.
Definition encode_discovery (d : DiscoveryPayload) : list Z :=
  pack [(1%nat, disc_flags d); (1%nat, disc_hops_to_internet d);
        (1%nat, u8 (disc_rssi d)); (2%nat, disc_inet_seq d);
        (2%nat, disc_inet_origin d); (1%nat, disc_queue_load d)].
Definition decode_discovery (bs : list Z) : DiscoveryPayload :=
  match unpack [1; 1; 1; 2; 2; 1]%nat bs with
  | [a; b; c; d; e; f] => mk_disc a b (i8 c) d e f
  | _ => mk_disc 0 0 0 0 0 0
  end.

Definition kDiscoveryInternetFlag : Z := 1.
Definition kDiscoveryChShift : Z := 1.
Definition kDiscoveryChMask : Z := 15.
Definition kDiscoverySfShift : Z := 5.
Definition kDiscoverySfMask : Z := 7.

Record RouteErrorPayload := mk_rerr {
  rerr_dead_addr : Z;
  rerr_inet_origin : Z;
  rerr_last_known_seq : Z
}.
Definition sizeof_RouteErrorPayload : Z := 6.
Definition encode_route_error (r : RouteErrorPayload) : list Z :=
  pack [(2%nat, rerr_dead_addr r); (2%nat, rerr_inet_origin r);
        (2%nat, rerr_last_known_seq r)].
Definition decode_route_error (bs : list Z) : RouteErrorPayload :=
  match unpack [2; 2; 2]%nat bs with
  | [a; b; c] => mk_rerr a b c
  | _ => mk_rerr 0 0 0
  end.

Record TransferAdPayload := mk_ad {
  ad_session_id : Z;
  ad_file_size : Z;
  ad_fragment_size_d8 : Z;
  ad_crc32 : Z;
  ad_fragment_count : Z;
  ad_filename_len : Z;
  ad_filename : list Z      (* exactly 32 bytes *)
}.
Definition sizeof_TransferAdPayload : Z := 46.
Definition MIN_TRANSFER_AD_LEN : Z := sizeof_TransferAdPayload - 32 - 1.
Definition encode_transfer_ad (a : TransferAdPayload) : list Z :=
  pack [(2%nat, ad_session_id a); (4%nat, ad_file_size a);
        (1%nat, ad_fragment_size_d8 a); (4%nat, ad_crc32 a);
        (2%nat, ad_fragment_count a); (1%nat, ad_filename_len a)]
  ++ ad_filename a.
Definition decode_transfer_ad (bs : list Z) : TransferAdPayload :=
  match unpack [2; 4; 1; 4; 2; 1]%nat bs with
  | [a; b; c; d; e; f] => mk_ad a b c d e f (resize 32 0 (drop 14 bs))
  | _ => mk_ad 0 0 0 0 0 0 []
  end.

Record TransferAckPayload := mk_tack {
  tack_session_id : Z;
  tack_exit_node_addr : Z;
  tack_rssi_to_gw : Z;
  tack_hops_to_gw : Z;
  tack_active_transfers : Z
}.
Definition sizeof_TransferAckPayload : Z := 7.
Definition encode_transfer_ack (a : TransferAckPayload) : list Z :=
  pack [(2%nat, tack_session_id a); (2%nat, tack_exit_node_addr a);
        (1%nat, u8 (tack_rssi_to_gw a)); (1%nat, tack_hops_to_gw a);
        (1%nat, tack_active_transfers a)].
Definition decode_transfer_ack (bs : list Z) : TransferAckPayload :=
  match unpack [2; 2; 1; 1; 1]%nat bs with
  | [a; b; c; d; e] => mk_tack a b (i8 c) d e
  | _ => mk_tack 0 0 0 0 0
  end.

Record ExitOfflinePayload := mk_eop {
  eop_session_id : Z;
  eop_exit_node_addr : Z
}.
Definition sizeof_ExitOfflinePayload : Z := 4.
Definition encode_exit_offline (p : ExitOfflinePayload) : list Z :=
  pack [(2%nat, eop_session_id p); (2%nat, eop_exit_node_addr p)].
Definition decode_exit_offline (bs : list Z) : ExitOfflinePayload :=
  match unpack [2; 2]%nat bs with
  | [a; b] => mk_eop a b
  | _ => mk_eop 0 0
  end.

Record TransferDonePayload := mk_done {
  done_session_id : Z;
  done_exit_node_addr : Z
}.
Definition sizeof_TransferDonePayload : Z := 4.
Definition encode_transfer_done (p : TransferDonePayload) : list Z :=
  pack [(2%nat, done_session_id p); (2%nat, done_exit_node_addr p)].
Definition decode_transfer_done (bs : list Z) : TransferDonePayload :=
  match unpack [2; 2]%nat bs with
  | [a; b] => mk_done a b
  | _ => mk_done 0 0
  end.

(** ** The congestion bit *)

Definition seq_with_congestion (seq : Z) (congested : bool) : Z :=
  if congested then u16 (Z.lor seq CONGESTION_FLAG) else seq.
Definition seq_has_congestion (raw : Z) : bool :=
  negb (Z.land raw CONGESTION_FLAG =? 0).
Definition seq_strip_congestion (raw : Z) : Z :=
  u16 (Z.land raw (Z.lnot CONGESTION_FLAG)).

Inductive RxTransport := RX_ESPNOW | RX_LORA.
#[export] Instance RxTransport_eq_dec : EqDecision RxTransport.
Proof. solve_decision. Defined.

(** ** Lemmas *)

Lemma land_63 z : Z.land z 63 = z mod 64.
Proof. apply (Z.land_ones z 6). lia. Qed.
Lemma land_15 z : Z.land z 15 = z mod 16.
Proof. apply (Z.land_ones z 4). lia. Qed.
Lemma lor_shiftl6 a b : 0 <= b < 64 → Z.lor (Z.shiftl a 6) b = a * 64 + b.
Proof. apply (lor_shift_add a b 6). lia. Qed.
Lemma lor_shiftl4 a b : 0 <= b < 16 → Z.lor (Z.shiftl a 4) b = a * 16 + b.
Proof. apply (lor_shift_add a b 4). lia. Qed.
Lemma shiftr6 z : Z.shiftr z 6 = z / 64.
Proof. apply (Z.shiftr_div_pow2 z 6). lia. Qed.
Lemma shiftr4 z : Z.shiftr z 4 = z / 16.
Proof. apply (Z.shiftr_div_pow2 z 4). lia. Qed.

Lemma type_of_code_type_code t :
  (∀ raw, t ≠ UNNAMED_TYPE raw) → type_of_code (type_code t) = t.
Proof. intros H. destruct t; try done. by destruct (H raw). Qed.

Lemma type_code_named_range t :
  (∀ raw, t ≠ UNNAMED_TYPE raw) → 0 <= type_code t < 64.
Proof. intros H. destruct t; cbn; try lia. by destruct (H raw). Qed.

Lemma length_encode_header h : length (encode_header h) = 8%nat.
Proof. done. Qed.

Lemma decode_encode_header h rest :
  header_wf h → decode_header (encode_header h ++ rest) = h.
Proof.
  intros (? & ? & ? & ? & ?). unfold decode_header, encode_header.
  change [1; 2; 2; 1; 2]%nat with (map fst (header_fields h)).
  rewrite unpack_pack; [ by destruct h | ].
  unfold_ints. repeat constructor; cbn; lia.
Qed.

Lemma hop_count_range h : 0 <= hop_count h < 16.
Proof. unfold hop_count. rewrite land_15. lia. Qed.
Lemma ttl_range h : is_u8 (ttl_hops h) → 0 <= ttl h < 16.
Proof. unfold ttl. rewrite shiftr4. int_lia. Qed.

Lemma ttl_set_ttl_hops t n h : 0 <= t < 16 → ttl (set_ttl_hops t n h) = t.
Proof.
  intros. unfold ttl, set_ttl_hops. red_upd. cbn.
  rewrite land_15, lor_shiftl4, shiftr4 by lia. int_lia.
Qed.
Lemma hop_count_set_ttl_hops t n h :
  0 <= t < 16 → 0 <= n < 16 → hop_count (set_ttl_hops t n h) = n.
Proof.
  intros. unfold hop_count, set_ttl_hops. red_upd. cbn.
  rewrite !land_15, lor_shiftl4 by lia. int_lia.
Qed.
Lemma hdr_type_set_ver_type v t h :
  (∀ raw, t ≠ UNNAMED_TYPE raw) → hdr_type (set_ver_type v t h) = t.
Proof.
  intros Ht. pose proof (type_code_named_range t Ht).
  unfold hdr_type, set_ver_type. red_upd. cbn.
  rewrite !land_63, lor_shiftl6 by lia.
  replace (u8 _ mod 64) with (type_code t) by int_lia.
  by apply type_of_code_type_code.
Qed.
Lemma version_set_ver_type v t h :
  0 <= v < 4 → version (set_ver_type v t h) = v.
Proof.
  intros. unfold version, set_ver_type. red_upd. cbn.
  rewrite land_63, lor_shiftl6, shiftr6 by lia. int_lia.
Qed.
#[export] Hint Rewrite ttl_set_ttl_hops hop_count_set_ttl_hops version_set_ver_type
  using lia : flp.

(** ** Properties *)

(** The packed 8-byte header round-trips through the wire in both
    directions, whatever follows it in the packet: decoding an encoded header
    gives the header, and any eight received bytes are the encoding of the
    (well-formed) header they decode to. *)
Theorem header_codec_roundtrip (h : PacketHeader) (rest bs : list Z)
    (Hh : header_wf h) (Hlen : length bs = 8%nat) (Hbs : Forall is_u8 bs) :
  decode_header (encode_header h ++ rest) = h ∧
  header_wf (decode_header bs) ∧ encode_header (decode_header bs) = bs.
Proof.
  split; [ by apply decode_encode_header | ].
  do 8 (destruct bs as [ | ? bs ]; [ done | ]). destruct bs; [ | done ].
  rewrite !Forall_cons in Hbs. destruct_and!. unfold_ints.
  unfold decode_header, encode_header, header_wf, header_fields.
  cbn [unpack take drop le_value pack ver_type src_addr dst_addr ttl_hops seq_num
       le_bytes app].
  unfold_ints. split_and!; try lia.
  repeat (f_equal; [ lia | ]). f_equal; lia.
Qed.

Lemma header_codec_roundtrip_witness :
  decode_header (encode_header (mk_header 65 4660 65535 128 7) ++ [9]) =
    mk_header 65 4660 65535 128 7 ∧
  header_wf (decode_header [1; 2; 3; 4; 5; 6; 7; 8]) ∧
  encode_header (decode_header [1; 2; 3; 4; 5; 6; 7; 8]) = [1; 2; 3; 4; 5; 6; 7; 8].
Proof.
  apply (header_codec_roundtrip (mk_header 65 4660 65535 128 7) [9]
           [1; 2; 3; 4; 5; 6; 7; 8]).
  - unfold header_wf, is_u8, is_u16. cbn. lia.
  - reflexivity.
  - repeat constructor; unfold is_u8; lia.
Defined.

(** The accessors read back what the mutators packed, and nothing else in
    the header moves. Every named packet type survives its six bits, a
    version its two, a TTL and a hop count their four; values that do not fit
    are reduced modulo their width. *)
Theorem header_accessors (h : PacketHeader) (ver t_ttl hops : Z) (t : PacketType)
    (Hnamed : ∀ raw, t ≠ UNNAMED_TYPE raw) :
  version (set_ver_type ver t h) = ver mod 4 ∧
  hdr_type (set_ver_type ver t h) = t ∧
  ttl (set_ttl_hops t_ttl hops h) = t_ttl mod 16 ∧
  hop_count (set_ttl_hops t_ttl hops h) = hops mod 16 ∧
  ttl_hops (set_ver_type ver t h) = ttl_hops h ∧
  ver_type (set_ttl_hops t_ttl hops h) = ver_type h ∧
  src_addr (set_ttl_hops t_ttl hops h) = src_addr h ∧
  dst_addr (set_ttl_hops t_ttl hops h) = dst_addr h ∧
  seq_num (set_ttl_hops t_ttl hops h) = seq_num h.
Proof.
  split_and!; try reflexivity.
  - unfold version, set_ver_type. red_upd. cbn.
    rewrite land_63, lor_shiftl6, shiftr6 by lia. int_lia.
  - by apply hdr_type_set_ver_type.
  - unfold ttl, set_ttl_hops. red_upd. cbn.
    rewrite land_15, lor_shiftl4, shiftr4 by lia. int_lia.
  - unfold hop_count, set_ttl_hops. red_upd. cbn.
    rewrite !land_15, lor_shiftl4 by lia. int_lia.
Qed.

Lemma header_accessors_witness :
  hdr_type (set_ver_type 5 TRANSFER_DONE (mk_header 0 1 2 3 4)) = TRANSFER_DONE ∧
  version (set_ver_type 5 TRANSFER_DONE (mk_header 0 1 2 3 4)) = 1.
Proof.
  assert (∀ raw, TRANSFER_DONE ≠ UNNAMED_TYPE raw) as H by done.
  destruct (header_accessors (mk_header 0 1 2 3 4) 5 8 1 TRANSFER_DONE H)
    as (Hv & Ht & _). split; [ exact Ht | exact Hv ].
Defined.

Lemma land_flag z : is_u16 z → Z.land z CONGESTION_FLAG = z / 32768 * 32768.
Proof.
  intros Hz. change CONGESTION_FLAG with (Z.shiftl 1 15).
  apply Z.bits_inj'. intros i Hi. rewrite Z.land_spec.
  change (z / 32768 * 32768) with (z / 2 ^ 15 * 2 ^ 15).
  rewrite <- Z.shiftr_div_pow2, <- Z.shiftl_mul_pow2 by lia.
  destruct (Z.lt_ge_cases i 15).
  - rewrite !Z.shiftl_spec_low by lia. by rewrite andb_false_r.
  - rewrite !Z.shiftl_spec_high, Z.shiftr_spec by lia.
    replace (i - 15 + 15) with i by lia.
    destruct (Z.eq_dec i 15) as [-> | ]; [ by rewrite andb_true_r | ].
    replace (Z.testbit z i) with false; [ done | ].
    rewrite <- (Z.mod_small z (2 ^ 16)) by (unfold_ints; lia).
    by rewrite Z.mod_pow2_bits_high by lia.
Qed.

Lemma seq_has_congestion_spec raw :
  is_u16 raw → seq_has_congestion raw = (32768 <=? raw).
Proof.
  intros H. unfold seq_has_congestion. rewrite land_flag by done. int_lia.
Qed.

Lemma seq_strip_congestion_spec raw :
  is_u16 raw → seq_strip_congestion raw = raw mod 32768.
Proof.
  intros H. unfold seq_strip_congestion.
  assert (Z.land raw (Z.lnot CONGESTION_FLAG) = raw - Z.land raw CONGESTION_FLAG) as ->.
  { rewrite <- Z.ldiff_land. rewrite <- (Z.lor_ldiff_and raw CONGESTION_FLAG) at 2.
    rewrite <- Z.lxor_lor, <- Z.add_nocarry_lxor; [ lia | | ].
    all: apply Z.bits_inj'; intros i Hi;
      rewrite !Z.land_spec, Z.ldiff_spec, Z.bits_0;
      by destruct (Z.testbit raw i), (Z.testbit CONGESTION_FLAG i). }
  rewrite land_flag by done. int_lia.
Qed.

Lemma seq_with_congestion_spec seq c :
  is_u16 seq →
  seq_with_congestion seq c = if c then seq mod 32768 + 32768 else seq.
Proof.
  intros H. destruct c; cbn; [ | done ].
  pose proof (Z.add_lor_land seq CONGESTION_FLAG) as E.
  rewrite land_flag in E by done.
  replace (Z.lor seq CONGESTION_FLAG) with (seq mod 32768 + 32768)
    by (unfold CONGESTION_FLAG in *; lia).
  int_lia.
Qed.
#[export] Hint Rewrite seq_has_congestion_spec seq_strip_congestion_spec
  seq_with_congestion_spec using (by int_lia) : flp.

(** What the congestion bit does to a sequence number. Marking then
    reading gives the mark and stripping gives the sequence number back exactly
    when the sequence number is below 2^15; a higher one always reads as
    congested and comes back reduced by 2^15. *)
Theorem congestion_bit_roundtrip (seq : Z) (c : bool) (Hseq : is_u16 seq) :
  (seq < 32768 ∧
     seq_has_congestion (seq_with_congestion seq c) = c ∧
     seq_strip_congestion (seq_with_congestion seq c) = seq) ∨
  (32768 <= seq ∧
     seq_has_congestion (seq_with_congestion seq c) = true ∧
     seq_strip_congestion (seq_with_congestion seq c) = seq - 32768).
Proof.
  assert (is_u16 (seq_with_congestion seq c)) by
    (rewrite seq_with_congestion_spec by done; destruct c; int_lia).
  rewrite seq_has_congestion_spec, seq_strip_congestion_spec by done.
  rewrite seq_with_congestion_spec by done.
  unfold is_u16 in Hseq.
  destruct (Z.lt_ge_cases seq 32768); [ left | right ]; destruct c; split_and!; lia.
Qed.

Lemma congestion_bit_roundtrip_witness :
  (8191 < 32768 ∧
     seq_has_congestion (seq_with_congestion 8191 true) = true ∧
     seq_strip_congestion (seq_with_congestion 8191 true) = 8191) ∨
  (32768 <= 8191 ∧
     seq_has_congestion (seq_with_congestion 8191 true) = true ∧
     seq_strip_congestion (seq_with_congestion 8191 true) = 8191 - 32768).
Proof. apply (congestion_bit_roundtrip 8191 true). unfold is_u16. lia. Defined.

Definition transfer_ad_wf (a : TransferAdPayload) : Prop :=
  is_u16 (ad_session_id a) ∧ is_u32 (ad_file_size a) ∧
  is_u8 (ad_fragment_size_d8 a) ∧ is_u32 (ad_crc32 a) ∧
  is_u16 (ad_fragment_count a) ∧ is_u8 (ad_filename_len a) ∧
  length (ad_filename a) = 32%nat.

Lemma length_encode_transfer_ad a :
  length (ad_filename a) = 32%nat → length (encode_transfer_ad a) = 46%nat.
Proof. intros H. unfold encode_transfer_ad. by rewrite length_app, length_pack, H. Qed.

Lemma decode_encode_transfer_ad a rest :
  transfer_ad_wf a → decode_transfer_ad (encode_transfer_ad a ++ rest) = a.
Proof.
  intros (? & ? & ? & ? & ? & ? & Hn). unfold decode_transfer_ad, encode_transfer_ad.
  rewrite <- app_assoc.
  match goal with |- context [pack ?fs ++ _] =>
    change [2; 4; 1; 4; 2; 1]%nat with (map fst fs) end.
  rewrite unpack_pack by (unfold_ints; repeat constructor; cbn; lia).
  cbn [map snd]. rewrite drop_app_length' by done.
  rewrite resize_le by (rewrite length_app; lia).
  rewrite take_app_length' by done. by destruct a.
Qed.

Lemma decode_encode_transfer_ack a rest :
  is_u16 (tack_session_id a) → is_u16 (tack_exit_node_addr a) →
  is_i8 (tack_rssi_to_gw a) → is_u8 (tack_hops_to_gw a) →
  is_u8 (tack_active_transfers a) →
  decode_transfer_ack (encode_transfer_ack a ++ rest) = a.
Proof.
  intros. unfold decode_transfer_ack, encode_transfer_ack.
  match goal with |- context [pack ?fs ++ _] =>
    change [2; 2; 1; 1; 1]%nat with (map fst fs) end.
  rewrite unpack_pack by (unfold_ints; repeat constructor; cbn; lia).
  cbn [map snd]. rewrite i8_u8 by done. by destruct a.
Qed.

Lemma decode_encode_discovery d rest :
  is_u8 (disc_flags d) → is_u8 (disc_hops_to_internet d) → is_i8 (disc_rssi d) →
  is_u16 (disc_inet_seq d) → is_u16 (disc_inet_origin d) →
  is_u8 (disc_queue_load d) →
  decode_discovery (encode_discovery d ++ rest) = d.
Proof.
  intros. unfold decode_discovery, encode_discovery.
  match goal with |- context [pack ?fs ++ _] =>
    change [1; 1; 1; 2; 2; 1]%nat with (map fst fs) end.
  rewrite unpack_pack by (unfold_ints; repeat constructor; cbn; lia).
  cbn [map snd]. rewrite i8_u8 by done. by destruct d.
Qed.

Lemma decode_encode_route_error r rest :
  is_u16 (rerr_dead_addr r) → is_u16 (rerr_inet_origin r) →
  is_u16 (rerr_last_known_seq r) →
  decode_route_error (encode_route_error r ++ rest) = r.
Proof.
  intros. unfold decode_route_error, encode_route_error.
  match goal with |- context [pack ?fs ++ _] =>
    change [2; 2; 2]%nat with (map fst fs) end.
  rewrite unpack_pack by (unfold_ints; repeat constructor; cbn; lia). by destruct r.
Qed.

Lemma decode_encode_exit_offline p rest :
  is_u16 (eop_session_id p) → is_u16 (eop_exit_node_addr p) →
  decode_exit_offline (encode_exit_offline p ++ rest) = p.
Proof.
  intros. unfold decode_exit_offline, encode_exit_offline.
  match goal with |- context [pack ?fs ++ _] =>
    change [2; 2]%nat with (map fst fs) end.
  rewrite unpack_pack by (unfold_ints; repeat constructor; cbn; lia). by destruct p.
Qed.

Lemma decode_encode_transfer_done p rest :
  is_u16 (done_session_id p) → is_u16 (done_exit_node_addr p) →
  decode_transfer_done (encode_transfer_done p ++ rest) = p.
Proof.
  intros. unfold decode_transfer_done, encode_transfer_done.
  match goal with |- context [pack ?fs ++ _] =>
    change [2; 2]%nat with (map fst fs) end.
  rewrite unpack_pack by (unfold_ints; repeat constructor; cbn; lia). by destruct p.
Qed.
