(* ===== verification/Fec.v ===== *)
(** * Forward error correction (components/protocol/include/fec_codec.hpp)

    [FecEncoder] accumulates the byte-wise XOR of up to seven data fragments;
    [FecDecoder] keeps the fragments of two groups of eight sequence numbers
    (seven data, one parity) and rebuilds the one missing fragment of a group
    as soon as seven of the eight have arrived. Buffers are lists of
    [MAX_MTU] bytes; an allocation that may fail is a boolean argument. *)

From Stdlib Require Import ZArith Lia.
From stdpp Require Import base list numbers option sets.
From S2P Require Import Prelude.
From S2P Require Import Packet.
Open Scope Z_scope.
Open Scope flp_scope.

Definition zero_buf : list Z := replicate (Z.to_nat MAX_MTU) 0.

(** ** Encoder *)

Record FecEncoder := mk_encoder {
  enc_parity : option (list Z);   (* parity_, null until allocated *)
  enc_parity_len : Z;
  enc_count : Z
}.
#[export] Instance eta_FecEncoder : Eta FecEncoder := fun e =>
  mk_encoder (enc_parity e) (enc_parity_len e) (enc_count e).

Definition encoder_new : FecEncoder := mk_encoder None 0 0.

(** [alloc] is whether [heap_caps_calloc] returns memory. *)
Definition enc_ensure_allocated (alloc : bool) (e : FecEncoder) : FecEncoder :=
  match enc_parity e with
  | Some _ => e
  | None => e <| enc_parity := if alloc then Some zero_buf else None |>
  end.

Definition enc_reset (alloc : bool) (e : FecEncoder) : FecEncoder :=
  let e := enc_ensure_allocated alloc (e <| enc_count := 0 |> <| enc_parity_len := 0 |>) in
  match enc_parity e with
  | Some _ => e <| enc_parity := Some zero_buf |>
  | None => e
  end.

Definition enc_ingest (alloc : bool) (frag : list Z) (e : FecEncoder) : FecEncoder :=
  let e := enc_ensure_allocated alloc e in
  match enc_parity e with
  | None => e
  | Some parity =>
      let len := Z.of_nat (length frag) in
      e <| enc_parity_len := if len >? enc_parity_len e then len else enc_parity_len e |>
        <| enc_parity := Some (xor_into parity frag) |>
        <| enc_count := u8 (enc_count e + 1) |>
  end.

Definition enc_group_complete (e : FecEncoder) : bool := enc_count e >=? FEC_GROUP_SIZE.

(** The bytes [parity_data()[0 .. parity_len())] handed to a sender. *)
Definition enc_parity_bytes (e : FecEncoder) : list Z :=
  match enc_parity e with
  | Some parity => take (Z.to_nat (enc_parity_len e)) parity
  | None => []
  end.

(** ** Decoder *)

Record Slot := mk_slot {
  slot_data : list Z;
  slot_len : Z;
  slot_received : bool;
  slot_is_parity : bool
}.
#[export] Instance eta_Slot : Eta Slot := fun s =>
  mk_slot (slot_data s) (slot_len s) (slot_received s) (slot_is_parity s).

Definition empty_slot : Slot := mk_slot zero_buf 0 false false.
#[export] Instance Slot_inhabited : Inhabited Slot := populate empty_slot.

Record GroupState := mk_group {
  g_slots : list Slot;          (* FEC_GROUP_SIZE + 1 of them *)
  g_slot_count : Z;
  g_current_group : Z;
  g_active : bool
}.
#[export] Instance eta_GroupState : Eta GroupState := fun g =>
  mk_group (g_slots g) (g_slot_count g) (g_current_group g) (g_active g).

Definition group_new : GroupState := mk_group (replicate 8 empty_slot) 0 0 false.
#[export] Instance GroupState_inhabited : Inhabited GroupState := populate group_new.

Definition group_reset (g : GroupState) : GroupState := group_new.

Record HeapState := mk_heap {
  h_groups : list GroupState;   (* two of them *)
  h_recovered_buf : list Z
}.
#[export] Instance eta_HeapState : Eta HeapState := fun h =>
  mk_heap (h_groups h) (h_recovered_buf h).

Record FecDecoder := mk_decoder {
  dec_heap : option HeapState;
  dec_last_used : Z;
  dec_missing_idx : Z;
  dec_recovered : bool;
  dec_recovered_len : Z;
  dec_recovered_group : Z
}.
#[export] Instance eta_FecDecoder : Eta FecDecoder := fun d =>
  mk_decoder (dec_heap d) (dec_last_used d) (dec_missing_idx d) (dec_recovered d)
    (dec_recovered_len d) (dec_recovered_group d).

Definition decoder_new : FecDecoder := mk_decoder None 0 (-1) false 0 0.

Definition dec_ensure_allocated (alloc : bool) (d : FecDecoder) : FecDecoder :=
  match dec_heap d with
  | Some _ => d
  | None =>
      d <| dec_heap := if alloc then Some (mk_heap [group_new; group_new] zero_buf)
                       else None |>
  end.

Definition dec_reset (alloc : bool) (d : FecDecoder) : FecDecoder :=
  let d := dec_ensure_allocated alloc d in
  match dec_heap d with
  | None => d
  | Some h =>
      d <| dec_heap := Some (h <| h_groups := map group_reset (h_groups h) |>) |>
        <| dec_missing_idx := -1 |> <| dec_recovered := false |>
        <| dec_recovered_len := 0 |> <| dec_last_used := 0 |>
  end.

Definition has_parity_check (g : GroupState) : bool :=
  existsb (fun s => slot_received s && slot_is_parity s) (g_slots g).

(** The scan for the missing slot: [None] when two are missing (the early
    return), otherwise the index found, or the initial [-1]. *)
Fixpoint find_missing (i missing : Z) (slots : list Slot) : option Z :=
  match slots with
  | [] => Some missing
  | s :: slots' =>
      if negb (slot_received s) then
        if missing >=? 0 then None else find_missing (i + 1) i slots'
      else find_missing (i + 1) missing slots'
  end.

(** The rebuild loop: XOR of every slot but the missing one, and the largest
    length among them. *)
Fixpoint recover_loop (i missing : Z) (slots : list Slot) (buf : list Z) (rlen : Z)
    : list Z * Z :=
  match slots with
  | [] => (buf, rlen)
  | s :: slots' =>
      if i =? missing then recover_loop (i + 1) missing slots' buf rlen
      else recover_loop (i + 1) missing slots'
             (xor_into buf (take (Z.to_nat (slot_len s)) (slot_data s)))
             (if slot_len s >? rlen then slot_len s else rlen)
  end.

Definition try_recover (g : GroupState) (h : HeapState) (d : FecDecoder)
    : bool * FecDecoder :=
  match find_missing 0 (-1) (g_slots g) with
  | None => (false, d)
  | Some missing =>
      if missing <? 0 then (false, d)
      else if (u8 missing =? FEC_GROUP_SIZE) && negb (has_parity_check g) then (false, d)
      else
        let '(buf, rlen) := recover_loop 0 missing (g_slots g) zero_buf 0 in
        (true, d <| dec_missing_idx := missing |>
                 <| dec_recovered_group := g_current_group g |>
                 <| dec_heap := Some (h <| h_recovered_buf := buf |>) |>
                 <| dec_recovered_len := rlen |>
                 <| dec_recovered := true |>)
  end.

Definition group_matches (h : HeapState) (group i : Z) : bool :=
  let g := aget (h_groups h) i in
  g_active g && (g_current_group g =? group).

Definition find_group (h : HeapState) (group : Z) : Z :=
  if group_matches h group 0 then 0
  else if group_matches h group 1 then 1
  else -1.

(** Storing into slot [idx] of a group, unless it already holds a fragment. *)
Definition store_slot (idx : Z) (data : list Z) (is_parity : bool) (g : GroupState)
    : GroupState :=
  let s := aget (g_slots g) idx in
  if slot_received s then g
  else
    g <| g_slots := aset (g_slots g) idx
           (mk_slot (memcpy (slot_data s) 0 data) (Z.of_nat (length data)) true is_parity) |>
      <| g_slot_count := u8 (g_slot_count g + 1) |>.

(** The cache entry a fragment of [group] goes to: the one that holds the
    group, or else the entry not used last, emptied for the new group. *)
Definition dec_select (group : Z) (h : HeapState) (d : FecDecoder) : Z * GroupState :=
  let gi := find_group h group in
  if gi <? 0 then
    let gi := if dec_last_used d =? 0 then 1 else 0 in
    (gi, group_reset (aget (h_groups h) gi)
           <| g_current_group := group |> <| g_active := true |>)
  else (gi, aget (h_groups h) gi).

Definition dec_ingest (seq : Z) (data : list Z) (is_parity : bool) (d : FecDecoder)
    : bool * FecDecoder :=
  match dec_heap d with
  | None => (false, d)
  | Some h =>
      if Z.of_nat (length data) >? MAX_MTU then (false, d)
      else
        let group := seq / (FEC_GROUP_SIZE + 1) in
        let idx := u8 (seq mod (FEC_GROUP_SIZE + 1)) in
        if idx >? FEC_GROUP_SIZE then (false, d)
        else
          let '(gi, g0) := dec_select group h d in
          let g := store_slot idx data is_parity g0 in
          let h' := h <| h_groups := aset (h_groups h) gi g |> in
          let d' := d <| dec_last_used := u8 gi |> <| dec_heap := Some h' |> in
          if g_slot_count g =? FEC_GROUP_SIZE then try_recover g h' d' else (false, d')
  end.

Definition dec_recovered_seq (d : FecDecoder) : Z :=
  u16 (dec_recovered_group d * (FEC_GROUP_SIZE + 1) + u16 (dec_missing_idx d)).
Definition dec_recovered_data (d : FecDecoder) : option (list Z) :=
  h_recovered_buf <$> dec_heap d.
(** The bytes [recovered_data()[0 .. recovered_len())]. *)
Definition dec_recovered_bytes (d : FecDecoder) : list Z :=
  match dec_heap d with
  | Some h => take (Z.to_nat (dec_recovered_len d)) (h_recovered_buf h)
  | None => []
  end.

(** ** XOR of a family of byte strings *)

Definition xor_at (ds : list (list Z)) (i : nat) : Z :=
  foldr (fun d acc => Z.lxor (byte_at d i) acc) 0 ds.
Definition max_len (ds : list (list Z)) : Z :=
  foldr (fun d acc => Z.max (Z.of_nat (length d)) acc) 0 ds.

Arguments xor_at : simpl never.
Arguments max_len : simpl never.

Lemma xor_at_cons d ds i : xor_at (d :: ds) i = Z.lxor (byte_at d i) (xor_at ds i).
Proof. done. Qed.

Lemma xor_at_app ds ds' i : xor_at (ds ++ ds') i = Z.lxor (xor_at ds i) (xor_at ds' i).
Proof.
  induction ds as [ | d ds IH ].
  - unfold xor_at at 2. cbn. by rewrite Z.lxor_0_l.
  - cbn [app]. by rewrite !xor_at_cons, IH, Z.lxor_assoc.
Qed.

(** In a family that XORs to zero, each member is the XOR of the others. *)
Lemma xor_at_solve l1 d l2 i :
  xor_at (l1 ++ d :: l2) i = 0 → xor_at (l1 ++ l2) i = byte_at d i.
Proof.
  rewrite !xor_at_app, xor_at_cons. intros H.
  apply Z.lxor_eq. rewrite <- H.
  by rewrite (Z.lxor_comm (byte_at d i) (xor_at l2 i)), Z.lxor_assoc.
Qed.

Lemma max_len_cons d ds : max_len (d :: ds) = Z.max (Z.of_nat (length d)) (max_len ds).
Proof. done. Qed.
Lemma max_len_nonneg ds : 0 <= max_len ds.
Proof. induction ds; [ done | ]. rewrite max_len_cons. lia. Qed.
Lemma max_len_elem d ds : d ∈ ds → Z.of_nat (length d) <= max_len ds.
Proof.
  induction ds as [ | d' ds IH ]; [ set_solver | ].
  rewrite max_len_cons. intros [-> | H]%elem_of_cons; [ | specialize (IH H) ]; lia.
Qed.
Lemma max_len_bound ds n :
  0 <= n → Forall (fun d => Z.of_nat (length d) <= n) ds → max_len ds <= n.
Proof. intros Hn. induction 1; [ done | ]. rewrite max_len_cons. lia. Qed.
Lemma max_len_app ds ds' : max_len (ds ++ ds') = Z.max (max_len ds) (max_len ds').
Proof.
  induction ds as [ | d ds IH ]; cbn [app].
  - pose proof (max_len_nonneg ds'). unfold max_len at 2. cbn. lia.
  - rewrite !max_len_cons, IH. lia.
Qed.

Definition fits (d : list Z) : Prop := Z.of_nat (length d) <= MAX_MTU.

Lemma length_zero_buf : length zero_buf = Z.to_nat MAX_MTU.
Proof. apply length_replicate. Qed.

(** ** Encoder lemmas *)

Definition enc_ingest_all (ds : list (list Z)) (e : FecEncoder) : FecEncoder :=
  fold_left (fun e d => enc_ingest true d e) ds e.

Lemma enc_ingest_alloc d e p :
  enc_parity e = Some p →
  enc_ingest true d e =
    mk_encoder (Some (xor_into p d))
      (Z.max (enc_parity_len e) (Z.of_nat (length d))) (u8 (enc_count e + 1)).
Proof.
  intros Hp. unfold enc_ingest, enc_ensure_allocated. rewrite Hp, Hp. red_upd. cbn.
  f_equal. destruct (Z.gtb_spec (Z.of_nat (length d)) (enc_parity_len e)); lia.
Qed.

Lemma enc_ingest_all_parity ds e p :
  enc_parity e = Some p → length p = Z.to_nat MAX_MTU → 0 <= enc_parity_len e →
  Forall fits ds →
  ∃ p', enc_parity (enc_ingest_all ds e) = Some p' ∧
    length p' = Z.to_nat MAX_MTU ∧
    (∀ i, byte_at p' i = Z.lxor (byte_at p i) (xor_at ds i)) ∧
    enc_parity_len (enc_ingest_all ds e) = Z.max (enc_parity_len e) (max_len ds).
Proof.
  intros Hp Hl Hn Hd. revert e p Hp Hl Hn.
  induction Hd as [ | d ds Hd _ IH ]; intros e p Hp Hl Hn.
  - exists p. unfold enc_ingest_all, xor_at, max_len. cbn.
    split_and!; auto; [ intros; by rewrite Z.lxor_0_r | lia ].
  - unfold enc_ingest_all. cbn [fold_left]. fold (enc_ingest_all ds (enc_ingest true d e)).
    rewrite (enc_ingest_alloc d e p Hp).
    destruct (IH (mk_encoder (Some (xor_into p d))
      (Z.max (enc_parity_len e) (Z.of_nat (length d))) (u8 (enc_count e + 1)))
      (xor_into p d)) as (p' & ? & ? & Hx & Hm); cbn in *.
    + done.
    + by rewrite length_xor_into.
    + lia.
    + exists p'. split_and!; auto.
      * intros i. rewrite Hx, byte_at_xor_into, xor_at_cons, Z.lxor_assoc; [ done | ].
        unfold fits in Hd. rewrite Hl. lia.
      * rewrite Hm, max_len_cons. lia.
Qed.

(** The parity of a group as the sender computes it: reset, then one [ingest]
    per data fragment. *)
Definition parity_of (ds : list (list Z)) : list Z :=
  enc_parity_bytes (enc_ingest_all ds (enc_reset true encoder_new)).

Lemma parity_of_spec ds :
  Forall fits ds →
  Z.of_nat (length (parity_of ds)) = max_len ds ∧
  ∀ i, byte_at (parity_of ds) i = xor_at ds i.
Proof.
  intros Hd. unfold parity_of, enc_parity_bytes.
  destruct (enc_ingest_all_parity ds (enc_reset true encoder_new) zero_buf)
    as (p & Hp & Hl & Hx & Hm); [ done.. | ].
  rewrite Hp, Hm. cbn [enc_parity_len enc_reset].
  assert (max_len ds <= MAX_MTU) by (apply max_len_bound; [ done | done ]).
  pose proof (max_len_nonneg ds).
  replace (enc_parity_len (enc_reset true encoder_new)) with 0 by done.
  rewrite Z.max_r by done. split.
  - rewrite length_take, Hl. lia.
  - intros i. rewrite byte_at_take, Hx.
    unfold zero_buf at 1. rewrite byte_at_replicate, Z.lxor_0_l.
    destruct (Nat.ltb_spec i (Z.to_nat (max_len ds))); [ done | ].
    symmetry. clear -H1. revert H1. induction ds as [ | d ds IH ]; [ done | ].
    rewrite max_len_cons, xor_at_cons. intros.
    rewrite IH, byte_at_ge by lia. done.
Qed.

Lemma parity_of_codeword ds j :
  Forall fits ds → xor_at (ds ++ [parity_of ds]) j = 0.
Proof.
  intros Hd. rewrite xor_at_app, xor_at_cons.
  rewrite (proj2 (parity_of_spec ds Hd)).
  unfold xor_at at 3. cbn. by rewrite Z.lxor_0_r, Z.lxor_nilpotent.
Qed.

(** ** Decoder lemmas *)

Definition slot_bytes (s : Slot) : list Z := take (Z.to_nat (slot_len s)) (slot_data s).

Lemma find_missing_received i m slots :
  Forall (fun s => slot_received s = true) slots → find_missing i m slots = Some m.
Proof.
  intros H. revert i. induction H as [ | s slots Hs _ IH ]; intros i; cbn; [ done | ].
  rewrite Hs. apply IH.
Qed.

Lemma find_missing_one i l1 s l2 :
  0 <= i →
  Forall (fun s => slot_received s = true) (l1 ++ l2) → slot_received s = false →
  find_missing i (-1) (l1 ++ s :: l2) = Some (i + Z.of_nat (length l1)).
Proof.
  intros Hi [H1 H2]%Forall_app Hs. revert i Hi.
  induction H1 as [ | s1 l1 Hs1 _ IH ]; intros i Hi; cbn.
  - rewrite Hs. cbn. rewrite find_missing_received by done. f_equal. lia.
  - rewrite Hs1. cbn. rewrite IH by lia. f_equal. lia.
Qed.

Lemma find_missing_found i m slots r :
  0 <= m → find_missing i m slots = Some r →
  r = m ∧ Forall (fun s => slot_received s = true) slots.
Proof.
  intros Hm. revert i. induction slots as [ | s slots IH ]; intros i; cbn.
  - intros [= <-]. by constructor.
  - destruct (slot_received s) eqn:E; cbn; intros H.
    + destruct (IH _ H) as [-> ?]. by constructor; [ | constructor ].
    + destruct (Z.geb_spec m 0); [ done | lia ].
Qed.

Lemma find_missing_inv i slots r :
  0 <= i → find_missing i (-1) slots = Some r → 0 <= r →
  ∃ l1 s l2, slots = l1 ++ s :: l2 ∧ r = i + Z.of_nat (length l1) ∧
    slot_received s = false ∧ Forall (fun s => slot_received s = true) (l1 ++ l2).
Proof.
  revert i. induction slots as [ | s slots IH ]; intros i Hi; cbn.
  - intros [= <-]. lia.
  - destruct (slot_received s) eqn:E; cbn; intros H Hr.
    + destruct (IH (i + 1)) as (l1 & s' & l2 & -> & -> & ? & ?); [ lia | done | done | ].
      exists (s :: l1), s', l2. split_and!; auto; [ cbn; lia | by constructor ].
    + apply find_missing_found in H as [-> ?]; [ | done ].
      exists [], s, slots. split_and!; auto. cbn. lia.
Qed.

Lemma recover_loop_app i m l1 l2 buf rlen :
  recover_loop i m (l1 ++ l2) buf rlen =
    let '(b, r) := recover_loop i m l1 buf rlen in
    recover_loop (i + Z.of_nat (length l1)) m l2 b r.
Proof.
  revert i buf rlen. induction l1 as [ | s l1 IH ]; intros i buf rlen; cbn.
  - by rewrite Z.add_0_r.
  - destruct (i =? m); rewrite IH; (destruct (recover_loop _ _ l1 _ _); f_equal; lia).
Qed.

Lemma recover_loop_spec i m l buf rlen :
  (m < i ∨ i + Z.of_nat (length l) <= m) →
  length buf = Z.to_nat MAX_MTU → 0 <= rlen →
  Forall (fun s => fits (slot_bytes s) ∧ slot_len s = Z.of_nat (length (slot_bytes s))) l →
  ∃ buf', recover_loop i m l buf rlen = (buf', Z.max rlen (max_len (map slot_bytes l))) ∧
    length buf' = length buf ∧
    ∀ j, byte_at buf' j = Z.lxor (byte_at buf j) (xor_at (map slot_bytes l) j).
Proof.
  intros Hm Hb Hr Hl. revert i buf rlen Hm Hb Hr.
  induction Hl as [ | s l [Hf Hs] _ IH ]; intros i buf rlen Hm Hb Hr.
  - exists buf. cbn. unfold xor_at, max_len. cbn.
    split_and!; auto; [ f_equal; lia | intros; by rewrite Z.lxor_0_r ].
  - cbn [recover_loop map length] in *. rewrite (proj2 (Z.eqb_neq i m)) by lia.
    fold (slot_bytes s).
    destruct (IH (i + 1) (xor_into buf (slot_bytes s))
      (if slot_len s >? rlen then slot_len s else rlen)) as (b & Hrun & Hlen & Hx).
    + lia.
    + by rewrite length_xor_into.
    + destruct (slot_len s >? rlen); lia.
    + exists b. rewrite Hrun, Hlen, length_xor_into. split_and!; auto.
      * f_equal. rewrite max_len_cons.
        destruct (Z.gtb_spec (slot_len s) rlen); lia.
      * intros j. rewrite Hx, byte_at_xor_into, xor_at_cons, Z.lxor_assoc; [ done | ].
        unfold fits in Hf. lia.
Qed.

(** *** The decoder's invariant

    [pay q] is the payload the sender gives to sequence number [q]; the
    invariant says that every stored fragment is the sender's. *)

Definition received_count (l : list Slot) : Z := count_if slot_received l.

Section decoder_invariant.
Context (pay : Z → option (list Z)).

Definition slot_ok (q : Z) (s : Slot) : Prop :=
  length (slot_data s) = Z.to_nat MAX_MTU ∧
  (slot_received s = true →
   ∃ d, pay q = Some d ∧ fits d ∧ slot_bytes s = d ∧
     slot_len s = Z.of_nat (length d) ∧ slot_is_parity s = (q mod 8 =? 7)).

Definition group_ok (g : GroupState) : Prop :=
  length (g_slots g) = 8%nat ∧ 0 <= g_current_group g ∧
  (∀ k s, g_slots g !! k = Some s → slot_ok (8 * g_current_group g + Z.of_nat k) s) ∧
  g_slot_count g = received_count (g_slots g).

Definition decoder_ok (d : FecDecoder) : Prop :=
  ∀ h, dec_heap d = Some h → length (h_groups h) = 2%nat ∧ Forall group_ok (h_groups h).

(** Every parity payload is the encoder's parity of its seven data payloads. *)
Definition fec_coherent : Prop :=
  ∀ G p, 0 <= G → pay (8 * G + 7) = Some p →
    ∃ ds, length ds = 7%nat ∧ Forall fits ds ∧ p = parity_of ds ∧
      ∀ k d, ds !! k = Some d → pay (8 * G + Z.of_nat k) = Some d.

Lemma group_new_ok G a : 0 <= G → group_ok (mk_group (replicate 8 empty_slot) 0 G a).
Proof.
  intros HG. split_and!; cbn [g_slots g_current_group g_slot_count]; auto.
  intros k s Hk. apply lookup_replicate in Hk as [-> _].
  split; [ apply length_zero_buf | done ].
Qed.

Lemma slot_bytes_stored s data par :
  length (slot_data s) = Z.to_nat MAX_MTU → fits data →
  slot_bytes (mk_slot (memcpy (slot_data s) 0 data) (Z.of_nat (length data)) true par)
    = data.
Proof.
  intros Hl Hf. unfold slot_bytes, fits in *. cbn. rewrite Nat2Z.id.
  apply take_memcpy_0. lia.
Qed.

Lemma store_slot_ok g idx data :
  group_ok g → 0 <= idx < 8 → fits data →
  pay (8 * g_current_group g + idx) = Some data →
  group_ok (store_slot idx data (idx =? 7) g).
Proof.
  intros (Hl & HG & Hs & Hc) Hi Hf Hp. unfold store_slot.
  pose proof (aget_lookup (g_slots g) idx ltac:(lia)) as Hk.
  set (s := aget (g_slots g) idx) in *.
  destruct (slot_received s) eqn:Er; [ done | ].
  pose proof (Hs _ _ Hk) as [Hd _].
  pose proof (count_if_range slot_received (g_slots g)) as Hle.
  red_upd. split_and!; cbn [g_slots g_current_group g_slot_count]; auto.
  - by rewrite length_aset.
  - intros k x. unfold aset. rewrite list_lookup_insert_Some.
    intros [(<- & <- & _) | (_ & Hx)]; [ | by apply Hs ].
    split; cbn [slot_data slot_received slot_len slot_is_parity].
    + rewrite length_memcpy; [ done | ]. unfold fits in Hf. cbn. lia.
    + intros _. exists data. rewrite Z2Nat.id by lia. split_and!; auto.
      * by apply slot_bytes_stored.
      * f_equal. lia.
  - unfold aset, received_count. rewrite (count_if_insert _ _ _ _ _ Hk), Er. cbn.
    rewrite Hc. unfold received_count in *.
    pose proof (count_if_range slot_received (take (Z.to_nat idx) (g_slots g))).
    pose proof (count_if_range slot_received (drop (S (Z.to_nat idx)) (g_slots g))).
    rewrite <- (take_drop_middle _ _ _ Hk), count_if_app, count_if_cons, Er in Hle |- *.
    rewrite length_take in *. rewrite length_drop in *. cbn. int_lia.
Qed.

(** What a successful recovery establishes. *)
Definition recovery_ok (d : FecDecoder) : Prop :=
  ∃ q orig par, dec_recovered_seq d = u16 q ∧ 0 <= q ∧ q mod 8 < 7 ∧
    pay q = Some orig ∧ pay (q / 8 * 8 + 7) = Some par ∧
    (length orig <= length par)%nat ∧
    dec_recovered_len d = Z.of_nat (length par) ∧
    dec_recovered_bytes d = resize (length par) 0 orig.

Lemma payloads_of_slots G l1 s l2 ds :
  length (l1 ++ s :: l2) = 8%nat → (length l1 < 7)%nat →
  (∀ k x, (l1 ++ s :: l2) !! k = Some x → slot_ok (8 * G + Z.of_nat k) x) →
  Forall (fun s => slot_received s = true) (l1 ++ l2) →
  length ds = 7%nat → pay (8 * G + 7) = Some (parity_of ds) →
  (∀ k d, ds !! k = Some d → pay (8 * G + Z.of_nat k) = Some d) →
  ∃ d, ds !! length l1 = Some d ∧
    ds ++ [parity_of ds] = map slot_bytes l1 ++ d :: map slot_bytes l2.
Proof.
  intros Hl Hl1 Hok Hrec Hds Hp Hpay.
  destruct (lookup_lt_is_Some_2 ds (length l1)) as [d Hd]; [ lia | ].
  exists d. split; [ done | ].
  rewrite length_app in Hl. cbn in Hl.
  assert (Hcw : ∀ k x, (ds ++ [parity_of ds]) !! k = Some x →
    pay (8 * G + Z.of_nat k) = Some x).
  { intros k x [Hk | [Hk Hx]]%lookup_app_Some; [ by apply Hpay | ].
    destruct (k - length ds)%nat eqn:E; [ | by destruct n ].
    cbn in Hx. simplify_eq. by replace (Z.of_nat k) with 7 by lia. }
  assert (Hsb : ∀ k x y, (l1 ++ s :: l2) !! k = Some x → slot_received x = true →
    (ds ++ [parity_of ds]) !! k = Some y → slot_bytes x = y).
  { intros k x y Hx Hr Hy. destruct (Hok _ _ Hx) as [_ Hrx].
    destruct (Hrx Hr) as (d' & Hd' & _ & -> & _).
    apply Hcw in Hy. congruence. }
  rewrite Forall_app, !Forall_lookup in Hrec. destruct Hrec as [Hr1 Hr2].
  apply list_eq_same_length with 8%nat.
  { rewrite length_app, length_map. cbn. rewrite length_map. lia. }
  { rewrite length_app. cbn. lia. }
  intros k x y Hk Hx Hy.
  destruct (lt_eq_lt_dec k (length l1)) as [[Hlt | ->] | Hgt].
  - rewrite lookup_app_l in Hy by (rewrite length_map; lia).
    rewrite lookup_map in Hy.
    destruct (l1 !! k) as [z | ] eqn:Ez; cbn in Hy; simplify_eq.
    symmetry. eapply Hsb; [ | by eapply Hr1 | exact Hx ].
    by rewrite lookup_app_l.
  - rewrite lookup_app_l in Hx by lia.
    rewrite lookup_app_r in Hy by (rewrite length_map; lia).
    rewrite length_map, Nat.sub_diag in Hy. cbn in Hy. congruence.
  - rewrite lookup_app_r in Hy by (rewrite length_map; lia).
    rewrite length_map in Hy.
    destruct (k - length l1)%nat as [ | n ] eqn:En; [ lia | ]. simpl in Hy.
    rewrite lookup_map in Hy.
    destruct (l2 !! n) as [z | ] eqn:Ez; cbn in Hy; simplify_eq.
    symmetry. eapply Hsb; [ | by eapply Hr2 | exact Hx ].
    rewrite lookup_app_r, En by lia. done.
Qed.

Lemma has_parity_check_false g l1 s l2 :
  g_slots g = l1 ++ s :: l2 → length (g_slots g) = 8%nat → length l1 = 7%nat →
  group_ok g → slot_received s = false → has_parity_check g = false.
Proof.
  intros Hg H8 H7 (_ & _ & Hok & _) Hs. unfold has_parity_check.
  apply not_true_is_false. rewrite existsb_exists. intros (x & Hx & Hb).
  apply andb_true_iff in Hb as [Hr Hpar].
  apply list_elem_of_In, list_elem_of_lookup in Hx as [k Hk].
  destruct (Hok _ _ Hk) as [_ Hrx]. destruct (Hrx Hr) as (d & _ & _ & _ & _ & Hp).
  rewrite Hpar in Hp. symmetry in Hp. apply Z.eqb_eq in Hp.
  assert (k < 8)%nat by (rewrite <- H8; by eapply lookup_lt_Some).
  assert (k = length l1) as -> by lia.
  rewrite Hg, lookup_app_r, Nat.sub_diag in Hk by lia. cbn in Hk. congruence.
Qed.

Lemma slots_fit g l :
  group_ok g → Forall (fun s => slot_received s = true) l → (∀ s, s ∈ l → s ∈ g_slots g) →
  Forall (fun s => fits (slot_bytes s) ∧ slot_len s = Z.of_nat (length (slot_bytes s))) l.
Proof.
  intros (_ & _ & Hok & _) Hr Hin. rewrite Forall_forall in *. intros s Hs.
  destruct (list_elem_of_lookup_1 _ _ (Hin s Hs)) as [k Hk].
  destruct (Hok _ _ Hk) as [_ Hrx]. destruct (Hrx (Hr s Hs)) as (d & _ & Hf & Hb & Hl & _).
  by rewrite Hb.
Qed.

(** What a successful recovery found: one data slot missing, all others there. *)
Lemma try_recover_split g h d d' :
  group_ok g → try_recover g h d = (true, d') →
  ∃ l1 s l2, g_slots g = l1 ++ s :: l2 ∧ (length l1 < 7)%nat ∧
    find_missing 0 (-1) (g_slots g) = Some (Z.of_nat (length l1)) ∧
    Forall (fun s => slot_received s = true) (l1 ++ l2).
Proof.
  intros Hg Htry. pose proof Hg as (H8 & _). unfold try_recover in Htry.
  destruct (find_missing 0 (-1) (g_slots g)) as [m | ] eqn:Efm; [ | done ].
  destruct (m <? 0) eqn:Em; [ done | ].
  destruct (find_missing_inv 0 _ m ltac:(lia) Efm ltac:(lia)) as (l1 & s & l2 & Hgs & Hm & Hs & Hrec).
  assert (Hlen : (length l1 + S (length l2) = 8)%nat) by (rewrite Hgs, length_app in H8; exact H8).
  exists l1, s, l2. split_and!; [ done | | f_equal; lia | done ].
  destruct (decide (length l1 = 7%nat)) as [E | ]; [ | lia ].
  rewrite (has_parity_check_false g l1 s l2) in Htry by done.
  replace (u8 m =? FEC_GROUP_SIZE) with true in Htry; [ done | ].
  symmetry. apply Z.eqb_eq. unfold FEC_GROUP_SIZE. int_lia.
Qed.

Lemma parity_received g l1 s l2 :
  group_ok g → g_slots g = l1 ++ s :: l2 → (length l1 < 7)%nat →
  Forall (fun s => slot_received s = true) (l1 ++ l2) → is_Some (pay (8 * g_current_group g + 7)).
Proof.
  intros (H8 & _ & Hok & _) Hgs Hl1 Hrec.
  destruct (lookup_lt_is_Some_2 (g_slots g) 7) as [sp Hsp]; [ lia | ].
  destruct (Hok _ _ Hsp) as [_ Hrx]. destruct Hrx as (p & Hp & _); [ | by exists p ].
  rewrite Hgs, lookup_app_r in Hsp by lia.
  destruct (7 - length l1)%nat as [ | n ] eqn:E; [ lia | ]. simpl in Hsp.
  rewrite Forall_app, !Forall_lookup in Hrec. by eapply Hrec.
Qed.

(** The others are as long as the longest: the parity is among them. *)
Lemma codeword_max_len ds orig bs1 bs2 :
  ds ++ [parity_of ds] = bs1 ++ orig :: bs2 → length ds = 7%nat → (length bs1 < 7)%nat →
  Forall fits ds → orig ∈ ds → max_len (bs1 ++ bs2) = max_len ds.
Proof.
  intros Hcw H7 Hl1 Hf Ho. destruct (parity_of_spec ds Hf) as [Hplen _].
  pose proof (f_equal max_len Hcw) as Hc. rewrite !max_len_app, !max_len_cons in Hc. rewrite max_len_app.
  pose proof (max_len_elem orig ds Ho). replace (max_len []) with 0 in Hc by done.
  pose proof (max_len_nonneg bs1).
  assert (Hin : parity_of ds ∈ bs2).
  { pose proof (f_equal (fun l => l !! 7%nat) Hcw) as Hp. cbv beta in Hp.
    rewrite lookup_app_r, H7, Nat.sub_diag, lookup_app_r in Hp by lia.
    destruct (7 - length bs1)%nat as [ | n ] eqn:E; [ lia | ]. simpl in Hp.
    symmetry in Hp. by apply list_elem_of_lookup_2 in Hp. }
  apply max_len_elem in Hin. lia.
Qed.

(** The loop over all slots but [s]. *)
Lemma recover_loop_but l1 s l2 :
  Forall (fun s => fits (slot_bytes s) ∧ slot_len s = Z.of_nat (length (slot_bytes s))) (l1 ++ l2) →
  ∃ buf, recover_loop 0 (Z.of_nat (length l1)) (l1 ++ s :: l2) zero_buf 0 =
      (buf, max_len (map slot_bytes l1 ++ map slot_bytes l2)) ∧
    length buf = Z.to_nat MAX_MTU ∧
    ∀ j, byte_at buf j = xor_at (map slot_bytes l1 ++ map slot_bytes l2) j.
Proof.
  intros [Hfit1 Hfit2]%Forall_app. rewrite recover_loop_app. cbn [recover_loop].
  destruct (recover_loop_spec 0 (Z.of_nat (length l1)) l1 zero_buf 0) as (b1 & -> & Hb1 & Hx1);
    [ lia | apply length_zero_buf | lia | done | ].
  rewrite (proj2 (Z.eqb_eq (0 + _) _)) by lia.
  destruct (recover_loop_spec (0 + Z.of_nat (length l1) + 1) (Z.of_nat (length l1)) l2 b1
    (Z.max 0 (max_len (map slot_bytes l1)))) as (b2 & -> & Hb2 & Hx2);
    [ lia | by rewrite Hb1, length_zero_buf | lia | done | ].
  exists b2. rewrite max_len_app. split_and!.
  - f_equal. pose proof (max_len_nonneg (map slot_bytes l1)). lia.
  - by rewrite Hb2, Hb1, length_zero_buf.
  - intros j. rewrite Hx2, Hx1. unfold zero_buf. by rewrite byte_at_replicate, Z.lxor_0_l, <- xor_at_app.
Qed.

Lemma try_recover_ok g h d d' :
  fec_coherent → group_ok g → g_current_group g < 8192 →
  try_recover g h d = (true, d') → recovery_ok d'.
Proof.
  intros Hco Hg HG8 Htry. pose proof Hg as (H8 & HG & Hok & _).
  destruct (try_recover_split g h d d' Hg Htry) as (l1 & s & l2 & Hgs & Hl1 & Efm & Hrec).
  destruct (parity_received g l1 s l2 Hg Hgs Hl1 Hrec) as [par Hpar].
  destruct (Hco _ _ HG Hpar) as (ds & Hds7 & Hdsf & -> & Hdsp).
  pose proof (slots_fit g (l1 ++ l2) Hg Hrec) as Hfit. rewrite Hgs in Hfit, Hok, H8.
  destruct (payloads_of_slots _ l1 s l2 ds H8 Hl1 Hok Hrec Hds7 Hpar Hdsp) as (orig & Horig & Hcw).
  destruct (recover_loop_but l1 s l2 (Hfit ltac:(set_solver))) as (buf & Hloop & Hblen & Hx).
  pose proof (list_elem_of_lookup_2 _ _ _ Horig) as Hin.
  rewrite (codeword_max_len ds orig) in Hloop by (rewrite ?length_map; done).
  unfold try_recover in Htry. rewrite Efm, Hgs in Htry.
  replace (_ <? 0) with false in Htry by lia.
  replace (u8 _ =? FEC_GROUP_SIZE) with false in Htry
    by (symmetry; apply Z.eqb_neq; unfold FEC_GROUP_SIZE; int_lia).
  cbn [andb] in Htry. rewrite Hloop in Htry. injection Htry as <-.
  destruct (parity_of_spec ds Hdsf) as [Hplen _].
  pose proof (max_len_elem orig ds Hin). assert (max_len ds <= MAX_MTU) by (by apply max_len_bound).
  exists (8 * g_current_group g + Z.of_nat (length l1)), orig, (parity_of ds).
  unfold dec_recovered_seq, dec_recovered_bytes. red_upd.
  cbn [dec_recovered_group dec_missing_idx dec_recovered_len dec_heap h_recovered_buf].
  unfold FEC_GROUP_SIZE. split_and!; try lia.
  - unfold_ints. lia.
  - by apply Hdsp.
  - rewrite <- Hpar. f_equal. lia.
  - apply bytes_ext; [ rewrite length_take, length_resize, Hblen; lia | ].
    intros j. rewrite byte_at_take, byte_at_resize, Hx.
    replace (Z.to_nat (max_len ds)) with (length (parity_of ds)) by lia.
    destruct (j <? length (parity_of ds))%nat; [ | done ].
    apply xor_at_solve. rewrite <- Hcw. by apply parity_of_codeword.
Qed.
End decoder_invariant.

Section decoder_operations.
Context (pay : Z → option (list Z)).

Lemma decoder_new_ok : decoder_ok pay decoder_new.
Proof. intros h. done. Qed.

Lemma dec_reset_ok alloc d : decoder_ok pay d → decoder_ok pay (dec_reset alloc d).
Proof.
  intros Hd h. unfold dec_reset, dec_ensure_allocated.
  destruct (dec_heap d) as [h0 | ] eqn:E; red_upd.
  - rewrite E. cbn. intros [= <-]. cbn. destruct (Hd h0 E) as [H2 _].
    rewrite length_map. split; [ done | ]. apply Forall_forall. intros g Hg.
    apply list_elem_of_In, in_map_iff in Hg as (? & <- & _).
    by apply group_new_ok.
  - destruct alloc; cbn; [ | done ]. intros [= <-]. cbn.
    split; [ done | ].
    by repeat (apply Forall_cons_2; [ by apply group_new_ok | ]).
Qed.

Lemma find_group_cases h group :
  (find_group h group = -1) ∨
  ((find_group h group = 0 ∨ find_group h group = 1) ∧
   g_current_group (aget (h_groups h) (find_group h group)) = group).
Proof.
  unfold find_group, group_matches.
  destruct (g_active (aget (h_groups h) 0) && _) eqn:E0.
  - apply andb_true_iff in E0. right. split; [ auto | lia ].
  - destruct (g_active (aget (h_groups h) 1) && _) eqn:E1; [ | auto ].
    apply andb_true_iff in E1. right. split; [ auto | lia ].
Qed.

Lemma dec_select_ok group h d gi g :
  length (h_groups h) = 2%nat → Forall (group_ok pay) (h_groups h) → 0 <= group →
  dec_select group h d = (gi, g) →
  (gi = 0 ∨ gi = 1) ∧ group_ok pay g ∧ g_current_group g = group.
Proof.
  intros H2 Hgs Hgr. unfold dec_select.
  destruct (find_group_cases h group) as [-> | [Hc Hcg]].
  - change (-1 <? 0) with true. intros [= <- <-]. red_upd.
    split_and!; [ destruct (dec_last_used d =? 0); auto | | done ].
    by apply group_new_ok.
  - set (f := find_group h group) in *. clearbody f.
    replace (f <? 0) with false by lia. intros [= <- <-].
    split_and!; auto. rewrite Forall_lookup in Hgs. eapply Hgs, aget_lookup. lia.
Qed.

Lemma store_slot_fields idx data par g :
  g_current_group (store_slot idx data par g) = g_current_group g ∧
  g_active (store_slot idx data par g) = g_active g.
Proof. unfold store_slot. red_upd. by case_match. Qed.

Lemma try_recover_heap g h d b d' :
  try_recover g h d = (b, d') → dec_heap d = Some h →
  ∃ buf, dec_heap d' = Some (mk_heap (h_groups h) buf).
Proof.
  intros Htry Hh. revert Htry. unfold try_recover. destruct h as [gs buf].
  repeat case_match; intros; simplify_eq; red_upd; cbn; eauto.
Qed.

(** One delivery keeps every stored fragment genuine, and a delivery that
    reports a recovery has rebuilt a fragment the sender really sent. *)
Lemma dec_ingest_ok seq data d b d' :
  fec_coherent pay → decoder_ok pay d → is_u16 seq → fits data → pay seq = Some data →
  dec_ingest seq data (seq mod 8 =? 7) d = (b, d') →
  decoder_ok pay d' ∧ (b = true → recovery_ok pay d').
Proof.
  intros Hco Hd Hseq Hf Hp. unfold dec_ingest.
  destruct (dec_heap d) as [h | ] eqn:Eh; [ | intros [= <- <-]; by split ].
  destruct (Hd h Eh) as [H2 Hgs]. unfold fits in Hf.
  replace (Z.of_nat (length data) >? MAX_MTU) with false by lia.
  change (FEC_GROUP_SIZE + 1) with 8.
  rewrite (u8_small (seq mod 8)) by int_lia.
  replace (seq mod 8 >? FEC_GROUP_SIZE) with false by (unfold FEC_GROUP_SIZE; lia).
  destruct (dec_select (seq / 8) h d) as [gi g1] eqn:Esel.
  destruct (dec_select_ok (seq / 8) h d gi g1 H2 Hgs ltac:(int_lia) Esel) as (Hgi & Hg1 & Hcur).
  destruct (store_slot_fields (seq mod 8) data (seq mod 8 =? 7) g1) as [Hcur' _].
  assert (group_ok pay (store_slot (seq mod 8) data (seq mod 8 =? 7) g1)) as Hg.
  { apply store_slot_ok; auto; [ lia | ]. rewrite <- Hp. f_equal. lia. }
  set (g := store_slot _ _ _ _) in *. clearbody g. red_upd.
  set (h' := mk_heap (aset (h_groups h) gi g) (h_recovered_buf h)).
  assert (Hok : ∀ buf, length (h_groups h') = 2%nat ∧
    Forall (group_ok pay) (h_groups (mk_heap (h_groups h') buf))).
  { intros buf. cbn. rewrite length_aset. split; [ done | by apply Forall_insert ]. }
  destruct (g_slot_count g =? FEC_GROUP_SIZE).
  - destruct (try_recover _ _ _) as [b0 d0] eqn:Etry. intros [= <- <-]. split.
    + destruct (try_recover_heap _ _ _ _ _ Etry eq_refl) as [buf Eb].
      intros h0 Hh0. rewrite Eb in Hh0. simplify_eq. apply (Hok buf).
    + intros ->. eapply try_recover_ok; [ done | exact Hg | | exact Etry ].
      rewrite Hcur', Hcur. int_lia.
  - intros [= <- <-]. split; [ | done ]. intros h0 [= <-]. apply (Hok (h_recovered_buf h)).
Qed.
End decoder_operations.

(** ** Delivering seven of the eight fragments of a group, in any order *)

Fixpoint ingest_run (G : Z) (cw : list (list Z)) (order : list nat) (d : FecDecoder)
    : list bool * FecDecoder :=
  match order with
  | [] => ([], d)
  | k :: order' =>
      let '(b, d1) := dec_ingest (8 * G + Z.of_nat k) (cw !!! k) (Z.of_nat k =? 7) d in
      let '(bs, d2) := ingest_run G cw order' d1 in
      (b :: bs, d2)
  end.

(** Exactly the slots [ks] are received, and only slot 7 holds parity. *)
Definition flags (sl : list Slot) (ks : list nat) : Prop :=
  ∀ k s, sl !! k = Some s →
    slot_received s = bool_decide (k ∈ ks) ∧
    (slot_received s = true → slot_is_parity s = (Z.of_nat k =? 7)).

(** The group [G] is held in slot [gi] and has received exactly [ks]. *)
Definition tracks (d : FecDecoder) (G : Z) (ks : list nat) : Prop :=
  ∃ h, dec_heap d = Some h ∧ length (h_groups h) = 2%nat ∧
    (find_group h G = 0 ∨ find_group h G = 1) ∧
    let g := aget (h_groups h) (find_group h G) in
    length (g_slots g) = 8%nat ∧ g_slot_count g = Z.of_nat (length ks) ∧
    flags (g_slots g) ks.

Definition fresh_for (d : FecDecoder) (G : Z) : Prop :=
  ∃ h, dec_heap d = Some h ∧ length (h_groups h) = 2%nat ∧ find_group h G = -1.

Lemma dec_reset_fresh d G :
  (∀ h, dec_heap d = Some h → length (h_groups h) = 2%nat) → fresh_for (dec_reset true d) G.
Proof.
  intros Hd. unfold dec_reset, dec_ensure_allocated, fresh_for. red_upd.
  destruct (dec_heap d) as [h | ] eqn:E.
  - rewrite E. eexists. split; [ reflexivity | ]. cbn. rewrite length_map.
    split; [ by apply Hd | ]. specialize (Hd h eq_refl). destruct (h_groups h) as [ | ? [ | ? [ | ] ] ]; done.
  - eexists. split; [ reflexivity | done ].
Qed.

Lemma find_group_after_store h G gi g :
  length (h_groups h) = 2%nat → (gi = 0 ∨ gi = 1) →
  (gi = 1 → group_matches h G 0 = false) →
  g_active g = true → g_current_group g = G →
  find_group (mk_heap (aset (h_groups h) gi g) (h_recovered_buf h)) G = gi.
Proof.
  intros H2 Hgi H0 Ha Hc. unfold find_group, group_matches in *. cbn [h_groups].
  destruct Hgi as [-> | ->].
  - rewrite aget_aset_eq by lia. by rewrite Ha, Hc, Z.eqb_refl.
  - rewrite aget_aset_ne by lia. rewrite H0 by done. cbn.
    rewrite aget_aset_eq by lia. by rewrite Ha, Hc, Z.eqb_refl.
Qed.

Lemma store_slot_fresh idx data par g :
  slot_received (aget (g_slots g) idx) = false →
  ∃ s', slot_received s' = true ∧ slot_is_parity s' = par ∧
    g_slots (store_slot idx data par g) = aset (g_slots g) idx s' ∧
    g_slot_count (store_slot idx data par g) = u8 (g_slot_count g + 1) ∧
    g_current_group (store_slot idx data par g) = g_current_group g ∧
    g_active (store_slot idx data par g) = g_active g.
Proof. intros H. unfold store_slot. rewrite H. red_upd.
  by exists (mk_slot (memcpy (slot_data (aget (g_slots g) idx)) 0 data)
    (Z.of_nat (length data)) true par).
Qed.

Lemma flags_store ks (k : nat) (sl : list Slot) s' :
  flags sl ks → slot_received s' = true → slot_is_parity s' = (Z.of_nat k =? 7) →
  flags (aset sl (Z.of_nat k) s') (k :: ks).
Proof.
  intros Hf Hs' Hp j s. unfold aset. rewrite Nat2Z.id, list_lookup_insert_Some.
  intros [(<- & <- & _) | (Hne & Hk)].
  - split; [ | done ]. rewrite Hs'. symmetry. apply bool_decide_eq_true. set_solver.
  - destruct (Hf _ _ Hk) as [Hr ?]. split; [ | done ].
    rewrite Hr. apply bool_decide_ext. set_solver.
Qed.

Lemma dec_select_tracks d h G ks :
  dec_heap d = Some h → tracks d G ks ∨ (fresh_for d G ∧ ks = []) →
  ∃ gi g, dec_select G h d = (gi, g) ∧ length (h_groups h) = 2%nat ∧
    (gi = 0 ∨ gi = 1) ∧ (gi = 1 → group_matches h G 0 = false) ∧
    g_active g = true ∧ g_current_group g = G ∧ length (g_slots g) = 8%nat ∧
    g_slot_count g = Z.of_nat (length ks) ∧ flags (g_slots g) ks.
Proof.
  intros Eh Hst. unfold dec_select.
  destruct Hst as [(h' & Eh' & H2 & Hfg & H8 & Hcnt & Hfl) | [(h' & Eh' & H2 & Hfg) ->]];
    rewrite Eh in Eh'; simplify_eq.
  - assert (find_group h' G <? 0 = false) as -> by lia.
    do 2 eexists. split_and!; [ reflexivity | done | done | .. | exact H8 | exact Hcnt | exact Hfl ];
      unfold find_group in *;
      destruct (group_matches h' G 0) eqn:E0; try done;
      destruct (group_matches h' G 1) eqn:E1; try lia;
      unfold group_matches in E0, E1; try (apply andb_true_iff in E0);
      try (apply andb_true_iff in E1); first [ tauto | lia ].
  - rewrite Hfg. change (-1 <? 0) with true.
    do 2 eexists. split; [ reflexivity | ]. split_and!; try done.
    + destruct (dec_last_used d =? 0); auto.
    + intros _. unfold find_group in Hfg. by destruct (group_matches h' G 0).
    + intros j s Hj. apply lookup_replicate in Hj as [-> _]. done.
Qed.

(** One in-group delivery: the decoder either waits for more, or, at the
    seventh fragment, runs [try_recover] on a group with exactly [k :: ks]. *)
Lemma dec_ingest_step d G k data ks b d' :
  0 <= G < 8192 → (k < 8)%nat → k ∉ ks → fits data → (length ks < 7)%nat →
  (tracks d G ks ∨ (fresh_for d G ∧ ks = [])) →
  dec_ingest (8 * G + Z.of_nat k) data (Z.of_nat k =? 7) d = (b, d') →
  tracks d' G (k :: ks) ∧
  ((length ks < 6)%nat → b = false) ∧
  (length ks = 6%nat → ∃ g h d0, length (g_slots g) = 8%nat ∧ g_current_group g = G ∧
     flags (g_slots g) (k :: ks) ∧ try_recover g h d0 = (b, d')).
Proof.
  intros HG Hk Hnin Hf Hlen Hst. unfold dec_ingest.
  assert (∃ h, dec_heap d = Some h) as (h & Eh)
    by (destruct Hst as [(h & ? & _) | [(h & ? & _) _]]; eauto).
  rewrite Eh. unfold fits in Hf. replace (Z.of_nat (length data) >? MAX_MTU) with false by lia.
  change (FEC_GROUP_SIZE + 1) with 8.
  replace ((8 * G + Z.of_nat k) / 8) with G by lia.
  replace (u8 ((8 * G + Z.of_nat k) mod 8)) with (Z.of_nat k) by int_lia.
  replace (Z.of_nat k >? FEC_GROUP_SIZE) with false by (unfold FEC_GROUP_SIZE; lia).
  destruct (dec_select_tracks d h G ks Eh Hst)
    as (gi & g1 & -> & H2 & Hgi & Hg0 & Hact & Hcur & H8 & Hcnt & Hfl).
  assert (slot_received (aget (g_slots g1) (Z.of_nat k)) = false) as Hnr.
  { destruct (Hfl k (aget (g_slots g1) (Z.of_nat k))) as [-> _];
      [ | by apply bool_decide_eq_false ].
    rewrite <- (Nat2Z.id k) at 1. apply aget_lookup. lia. }
  destruct (store_slot_fresh (Z.of_nat k) data (Z.of_nat k =? 7) g1 Hnr)
    as (s' & Hs' & Hpar' & Hsl & Hsc & Hgc & Hga).
  set (g := store_slot _ _ _ _) in *. clearbody g.
  rewrite Hcur in Hgc. rewrite Hact in Hga. rewrite Hcnt, u8_small in Hsc by int_lia.
  assert (length (g_slots g) = 8%nat) as H8' by (by rewrite Hsl, length_aset).
  assert (flags (g_slots g) (k :: ks)) as Hfl' by (rewrite Hsl; by apply flags_store).
  assert (Htr : ∀ d' buf, dec_heap d' = Some (mk_heap (aset (h_groups h) gi g) buf) →
     tracks d' G (k :: ks)).
  { intros d0 buf Eb.
    pose proof (find_group_after_store (mk_heap (h_groups h) buf) G gi g H2 Hgi Hg0 Hga Hgc)
      as Hfg. cbn in Hfg.
    eexists. split; [ exact Eb | ]. cbn [h_groups]. rewrite length_aset, Hfg.
    rewrite aget_aset_eq by lia. split_and!; auto. cbn. lia. }
  red_upd. destruct (g_slot_count g =? FEC_GROUP_SIZE) eqn:E7; unfold FEC_GROUP_SIZE in E7.
  - intros Etry. destruct (try_recover_heap _ _ _ _ _ Etry eq_refl) as [buf Eb].
    split_and!; [ by eapply Htr | lia | ]. intros _. do 3 eexists.
    split_and!; [ exact H8' | exact Hgc | exact Hfl' | exact Etry ].
  - intros [= <- <-]. split_and!; [ by eapply Htr | done | lia ].
Qed.

(** A group with all but slot [m] received recovers exactly when [m] is not
    the parity slot. *)
Lemma try_recover_decides g h d ks m b d' :
  length (g_slots g) = 8%nat → flags (g_slots g) ks → (m < 8)%nat → m ∉ ks →
  (∀ j, (j < 8)%nat → j ≠ m → j ∈ ks) →
  try_recover g h d = (b, d') →
  b = (Z.of_nat m <? 7) ∧
  (b = true → dec_missing_idx d' = Z.of_nat m ∧ dec_recovered_group d' = g_current_group g).
Proof.
  intros H8 Hfl Hm Hnin Hall. unfold try_recover.
  assert (m = 7%nat → has_parity_check g = false) as Hpar.
  { intros ->. unfold has_parity_check. apply not_true_is_false. rewrite existsb_exists.
    intros (x & Hx & [Hr Hp]%andb_true_iff).
    apply list_elem_of_In, list_elem_of_lookup in Hx as [k Hk].
    assert (k < 8)%nat by (rewrite <- H8; by eapply lookup_lt_Some).
    destruct (Hfl _ _ Hk) as [Hb Hq]. rewrite (Hq Hr) in Hp.
    assert (k = 7%nat) as -> by lia. rewrite Hr in Hb.
    symmetry in Hb. by apply bool_decide_eq_true in Hb. }
  destruct (lookup_lt_is_Some_2 (g_slots g) m) as [s Hs]; [ lia | ].
  rewrite <- (take_drop_middle (g_slots g) m s Hs) at 1.
  rewrite find_missing_one; [ | lia | | ].
  - rewrite length_take, Nat.min_l by lia.
    replace (0 + Z.of_nat m <? 0) with false by lia.
    destruct (u8 (0 + Z.of_nat m) =? FEC_GROUP_SIZE) eqn:E7; unfold FEC_GROUP_SIZE in E7;
      cbn [andb].
    + assert (m = 7%nat) as -> by int_lia. rewrite Hpar by done. by intros [= <- <-].
    + destruct (recover_loop _ _ _ _ _). intros [= <- <-]. red_upd. cbn.
      split; [ symmetry; int_lia | done ].
  - apply Forall_lookup. intros j x Hj.
    assert (∃ j', g_slots g !! j' = Some x ∧ j' ≠ m) as (j' & Hj' & Hne).
    { apply lookup_app_Some in Hj as [Hj | [Hge Hj]].
      - apply lookup_take_Some in Hj as [Hj ?]. exists j. split; [ done | lia ].
      - rewrite lookup_drop in Hj. eexists. split; [ exact Hj | lia ]. }
    rewrite (proj1 (Hfl _ _ Hj')). apply bool_decide_eq_true, Hall; [ | done ].
    rewrite <- H8. by eapply lookup_lt_Some.
  - rewrite (proj1 (Hfl _ _ Hs)). by apply bool_decide_eq_false.
Qed.

Lemma ingest_run_tracks G cw m order ks d bs d' :
  0 <= G < 8192 → Forall fits cw → length cw = 8%nat →
  NoDup (m :: order ++ ks) → Forall (fun k => k < 8)%nat (m :: order ++ ks) →
  length (order ++ ks) = 7%nat → order ≠ [] →
  (tracks d G ks ∨ (fresh_for d G ∧ ks = [])) →
  ingest_run G cw order d = (bs, d') →
  bs = replicate (length order - 1) false ++ [Z.of_nat m <? 7] ∧
  ((m < 7)%nat → dec_missing_idx d' = Z.of_nat m ∧ dec_recovered_group d' = G).
Proof.
  intros HG Hcw Hcw8. revert ks d bs.
  induction order as [ | k order IH ]; intros ks d bs Hnd Hlt Hlen Hne Hst; [ done | ].
  cbn [ingest_run]. destruct (dec_ingest _ _ _ _) as [b d1] eqn:Ei.
  destruct (ingest_run G cw order d1) as [bs' d2] eqn:Er. intros [= <- <-].
  assert (k ∉ ks ∧ (k < 8)%nat ∧ NoDup (m :: order ++ k :: ks)
    ∧ Forall (fun k => k < 8)%nat (m :: order ++ k :: ks)) as (Hk & Hk8 & Hnd' & Hlt').
  { rewrite <- (Permutation_middle order ks k). split_and!; try done.
    - apply NoDup_cons in Hnd as [_ Hnd]. cbn in Hnd. apply NoDup_cons in Hnd as [Hn _].
      set_solver.
    - cbn in Hlt. by inversion_clear Hlt; inversion_clear H0. }
  assert (fits (cw !!! k)) as Hfk.
  { rewrite Forall_lookup in Hcw. eapply Hcw, list_lookup_lookup_total_lt. lia. }
  cbn in Hlen. rewrite length_app in Hlen.
  destruct (dec_ingest_step d G k (cw !!! k) ks b d1 HG Hk8 Hk Hfk ltac:(lia) Hst Ei)
    as (Htr & Hb & Hlast).
  destruct order as [ | k' order ].
  - cbn in Er. simplify_eq. cbn in *.
    destruct (Hlast ltac:(lia)) as (g & h & d0 & H8 & Hcur & Hfl & Htry).
    destruct (try_recover_decides g h d0 (k :: ks) m b d2 H8 Hfl) as [-> Hm]; auto.
    + by inversion Hlt'.
    + by apply NoDup_cons in Hnd' as [? _].
    + intros j Hj Hjm. destruct (decide (j ∈ k :: ks)) as [ | Hn ]; [ done | exfalso ].
      assert (NoDup (j :: m :: k :: ks)) as Hnd8.
      { apply NoDup_cons. split; [ | exact Hnd' ].
        by intros [-> | ?]%elem_of_cons. }
      assert (length (j :: m :: k :: ks) <= length (seq 0 8))%nat as Hle.
      { apply submseteq_length, NoDup_submseteq; [ done | ].
        intros x Hx. apply elem_of_seq. rewrite Forall_forall in Hlt'.
        apply elem_of_cons in Hx as [-> | Hx]; [ lia | ]. specialize (Hlt' x Hx). lia. }
      cbn in Hle. lia.
    + split; [ done | ]. rewrite Hcur in Hm. intros. apply Hm. lia.
  - rewrite Hb by (cbn in Hlen; lia).
    destruct (IH (k :: ks) d1 bs') as [-> Hm]; auto.
    + rewrite length_app in *. cbn in *. lia.
    + split; [ | done ]. cbn. by rewrite Nat.sub_0_r.
Qed.

(** ** Properties *)

Section erasure_payloads.
Context (ds : list (list Z)) (G : Z).

(** The payloads of group [G] as a partial function of the sequence number. *)
Definition group_payload (q : Z) : option (list Z) :=
  if q / 8 =? G then (ds ++ [parity_of ds]) !! Z.to_nat (q mod 8) else None.

Lemma group_payload_at (k : nat) :
  (k < 8)%nat → group_payload (8 * G + Z.of_nat k) = (ds ++ [parity_of ds]) !! k.
Proof.
  intros. unfold group_payload. replace ((8 * G + Z.of_nat k) / 8) with G by lia.
  rewrite Z.eqb_refl. f_equal. lia.
Qed.

Lemma group_payload_coherent :
  length ds = 7%nat → Forall fits ds → fec_coherent group_payload.
Proof.
  intros H7 Hf G' p HG' Hp. unfold group_payload in Hp.
  replace ((8 * G' + 7) / 8) with G' in Hp by lia.
  destruct (Z.eqb_spec G' G) as [-> | ]; [ | done ].
  replace (Z.to_nat ((8 * G + 7) mod 8)) with 7%nat in Hp by lia.
  rewrite lookup_app_r, H7 in Hp by lia. cbn in Hp. simplify_eq.
  exists ds. split_and!; auto. intros k d Hk.
  assert (k < 7)%nat by (rewrite <- H7; by eapply lookup_lt_Some).
  rewrite group_payload_at by lia. by rewrite lookup_app_l by lia.
Qed.

Lemma codeword_fits : Forall fits ds → Forall fits (ds ++ [parity_of ds]).
Proof.
  intros Hf. apply Forall_app. split; [ done | ]. apply Forall_singleton.
  unfold fits. rewrite (proj1 (parity_of_spec ds Hf)). by apply max_len_bound.
Qed.

Lemma ingest_run_ok order d bs d' :
  length ds = 7%nat → Forall fits ds → 0 <= G < 8192 →
  Forall (fun k => k < 8)%nat order → order ≠ [] → decoder_ok group_payload d →
  ingest_run G (ds ++ [parity_of ds]) order d = (bs, d') →
  last bs = Some true → recovery_ok group_payload d'.
Proof.
  intros H7 Hf HG Hlt. revert d bs.
  induction Hlt as [ | k order Hk _ IH ]; intros d bs Hne Hd; [ done | ].
  cbn [ingest_run]. destruct (dec_ingest _ _ _ _) as [b d1] eqn:Ei.
  destruct (ingest_run _ _ order d1) as [bs' d2] eqn:Er. intros [= <- <-].
  replace (Z.of_nat k =? 7) with ((8 * G + Z.of_nat k) mod 8 =? 7) in Ei
    by (f_equal; lia).
  assert (group_payload (8 * G + Z.of_nat k) = Some ((ds ++ [parity_of ds]) !!! k)) as Hp.
  { rewrite group_payload_at by done. apply list_lookup_lookup_total_lt.
    rewrite length_app. cbn. lia. }
  destruct (dec_ingest_ok group_payload (8 * G + Z.of_nat k) ((ds ++ [parity_of ds]) !!! k)
    d b d1) as [Hd1 Hrec]; auto.
  - by apply group_payload_coherent.
  - int_lia.
  - pose proof (codeword_fits Hf) as Hc. rewrite Forall_lookup in Hc.
    eapply Hc, list_lookup_lookup_total_lt. rewrite length_app. cbn. lia.
  - destruct order as [ | k' order ].
    + cbn in Er. simplify_eq. cbn. intros [= ->]. by apply Hrec.
    + intros Hl. apply (IH d1 bs'); auto. cbn [ingest_run] in Er.
      destruct (dec_ingest _ _ _ d1). destruct (ingest_run _ _ order _). simplify_eq.
      by rewrite last_cons_cons in Hl.
Qed.
End erasure_payloads.

(** C32: any single loss in a group is repaired. For every seven data fragments
    and the parity the encoder computes from them, drop any one of the eight
    and deliver the other seven to a freshly reset decoder in any order: the
    first six deliveries report nothing; the seventh reports a recovery exactly
    when the lost fragment was data, and then the decoder names the lost
    sequence number and holds its bytes, zero-padded to the longest fragment. *)
Theorem fec_single_loss (ds : list (list Z)) (G : Z) (m : nat) (order : list nat)
    (d : FecDecoder)
    (Hds : length ds = 7%nat) (Hfit : Forall fits ds) (HG : 0 <= G < 8192)
    (Hnd : NoDup (m :: order)) (Hlt : Forall (fun k => k < 8)%nat (m :: order))
    (Hlen : length order = 7%nat)
    (Hd : ∀ h, dec_heap d = Some h → length (h_groups h) = 2%nat) :
  let '(bs, d') := ingest_run G (ds ++ [parity_of ds]) order (dec_reset true d) in
  bs = replicate 6 false ++ [Z.of_nat m <? 7] ∧
  ((m < 7)%nat →
     dec_recovered_seq d' = 8 * G + Z.of_nat m ∧
     dec_recovered_bytes d' = resize (length (parity_of ds)) 0 (ds !!! m)).
Proof.
  destruct (ingest_run _ _ _ _) as [bs d'] eqn:Er.
  assert (order ≠ []) as Hne by (by destruct order).
  assert (decoder_ok (group_payload ds G) (dec_reset true d)) as Hok.
  { intros h. unfold dec_reset, dec_ensure_allocated. red_upd.
    destruct (dec_heap d) as [h0 | ] eqn:E.
    - rewrite E. cbn. intros [= <-]. cbn. rewrite length_map. split; [ by apply Hd | ].
      apply Forall_forall. intros g Hg. apply list_elem_of_In, in_map_iff in Hg as (? & <- & _).
      by apply group_new_ok.
    - cbn. intros [= <-]. cbn. split; [ done | ].
      by repeat (apply Forall_cons_2; [ by apply group_new_ok | ]). }
  destruct (ingest_run_tracks G (ds ++ [parity_of ds]) m order [] (dec_reset true d) bs d')
    as [-> Hm]; rewrite ?app_nil_r; auto.
  - by apply codeword_fits.
  - rewrite length_app. cbn. lia.
  - right. split; [ | done ]. by apply dec_reset_fresh.
  - rewrite Hlen. split; [ done | ]. intros Hm7. destruct (Hm Hm7) as [Hmi Hrg].
    assert (dec_recovered_seq d' = 8 * G + Z.of_nat m) as Hrs.
    { unfold dec_recovered_seq, FEC_GROUP_SIZE. rewrite Hmi, Hrg. int_lia. }
    split; [ done | ].
    destruct (ingest_run_ok ds G order (dec_reset true d) (replicate 6 false ++ [true]) d')
      as (q & orig & par & Hq & Hq0 & _ & Hpq & Hpp & _ & _ & Hb); auto.
    + by inversion Hlt.
    + rewrite Er, Hlen. replace (Z.of_nat m <? 7) with true by lia. done.
    + rewrite Hrs in Hq. unfold group_payload in Hpq.
      destruct (Z.eqb_spec (q / 8) G) as [HqG | ]; [ | done ].
      assert (q = 8 * G + Z.of_nat m) as -> by int_lia.
      replace ((8 * G + Z.of_nat m) / 8 * 8 + 7) with (8 * G + Z.of_nat 7) in Hpp by lia.
      rewrite group_payload_at, lookup_app_r, Hds in Hpp by lia. cbn in Hpp. simplify_eq.
      rewrite Hb. f_equal.
      replace (Z.to_nat _) with m in Hpq by lia. rewrite lookup_app_l in Hpq by lia.
      symmetry. by apply list_lookup_total_correct.
Qed.

Lemma fec_single_loss_witness :
  let ds := [[1; 2; 3]; [4; 5; 6]; [7; 8; 9]; [10; 11]; [12]; [13; 14; 15]; [16; 17]] in
  let '(bs, d') := ingest_run 5 (ds ++ [parity_of ds]) [7; 0; 6; 2; 1; 5; 4]%nat
                     (dec_reset true decoder_new) in
  bs = replicate 6 false ++ [Z.of_nat 3 <? 7] ∧
  ((3 < 7)%nat → dec_recovered_seq d' = 8 * 5 + Z.of_nat 3 ∧
     dec_recovered_bytes d' = resize (length (parity_of ds)) 0 (ds !!! 3%nat)).
Proof.
  apply (fec_single_loss
    [[1; 2; 3]; [4; 5; 6]; [7; 8; 9]; [10; 11]; [12]; [13; 14; 15]; [16; 17]] 5 3
    [7; 0; 6; 2; 1; 5; 4]%nat decoder_new).
  - reflexivity.
  - repeat constructor; unfold fits; cbn; vm_compute; discriminate.
  - lia.
  - apply (bool_decide_unpack _). vm_compute. exact I.
  - apply (bool_decide_unpack _). vm_compute. exact I.
  - reflexivity.
  - done.
Defined.
