(* ===== verification/SelectiveRepeat.v ===== *)
(** * Selective-repeat sender (components/protocol/selective_repeat.cpp)

    The sender half of class [SelectiveRepeat]: a window of fragment slots
    indexed by sequence number modulo the window size, retransmission on NACK
    and on an adaptive timeout, and the RFC 6298 estimator. The receiver half
    is in Receiver.v.

    [send_cb_] is code of the surrounding node: a function of an abstract
    world [W] it may change, returning the transport's return code. [now] is
    the millisecond clock, which each operation reads at most once. *)

From Stdlib Require Import ZArith Lia.
From stdpp Require Import base list numbers option sets gmap sorting.
From S2P Require Import Prelude.
From S2P Require Import Packet.
From S2P Require Import Fec.
Open Scope Z_scope.
Open Scope flp_scope.

Record FragmentSlot := mk_fslot {
  fs_data : list Z;
  fs_len : Z;
  fs_send_time_ms : Z;
  fs_seq_tag : Z;
  fs_acked : bool;
  fs_sent : bool;
  fs_retries : Z
}.
#[export] Instance eta_FragmentSlot : Eta FragmentSlot := fun s =>
  mk_fslot (fs_data s) (fs_len s) (fs_send_time_ms s) (fs_seq_tag s) (fs_acked s)
    (fs_sent s) (fs_retries s).

(** A slot as [reset_sender] leaves it: all zero but the tag. *)
Definition fresh_slot : FragmentSlot := mk_fslot zero_buf 0 0 UINT16_MAX false false 0.
#[export] Instance FragmentSlot_inhabited : Inhabited FragmentSlot := populate fresh_slot.

Record Sender := mk_sender {
  sr_window : option (list FragmentSlot);   (* window_, ARQ_WINDOW slots once allocated *)
  sr_window_size : Z;
  sr_timeout_ms : Z;
  sr_base_seq : Z;
  sr_next_seq : Z;
  sr_exit_stride : Z;
  sr_exit_offset : Z;
  sr_sender_failed : bool;
  sr_in_flight : Z;
  sr_srtt_ms : Z;
  sr_rttvar_ms : Z;
  sr_rto_ms : Z;
  sr_rtt_initialized : bool;
  sr_min_rto_floor_ms : Z;
  sr_peer_addr : Z
}.
#[export] Instance eta_Sender : Eta Sender := fun s =>
  mk_sender (sr_window s) (sr_window_size s) (sr_timeout_ms s) (sr_base_seq s)
    (sr_next_seq s) (sr_exit_stride s) (sr_exit_offset s) (sr_sender_failed s)
    (sr_in_flight s) (sr_srtt_ms s) (sr_rttvar_ms s) (sr_rto_ms s)
    (sr_rtt_initialized s) (sr_min_rto_floor_ms s) (sr_peer_addr s).

Definition RTO_MIN_MS : Z := 200.
Definition RTO_MAX_MS : Z := 5000.

Definition sender_new : Sender :=
  mk_sender None 0 0 0 0 1 0 false 0 0 0 0 false RTO_MIN_MS BROADCAST_ADDR.
#[export] Instance Sender_inhabited : Inhabited Sender := populate sender_new.

(** ** Window administration *)

Definition reset_sender (s : Sender) : Sender :=
  s <| sr_base_seq := 0 |> <| sr_next_seq := 0 |>
    <| sr_exit_stride := 1 |> <| sr_exit_offset := 0 |>
    <| sr_sender_failed := false |> <| sr_in_flight := 0 |>
    <| sr_srtt_ms := 0 |> <| sr_rttvar_ms := 0 |> <| sr_rto_ms := 0 |>
    <| sr_rtt_initialized := false |>
    <| sr_window ::= fmap (fun _ => replicate (Z.to_nat ARQ_WINDOW) fresh_slot) |>.

(** [alloc] is whether [heap_caps_calloc] returns memory. *)
Definition init (alloc : bool) (window_size timeout_ms : Z) (s : Sender) : bool * Sender :=
  let s := s <| sr_window_size := if window_size >? ARQ_WINDOW then ARQ_WINDOW
                                  else window_size |>
             <| sr_timeout_ms := timeout_ms |> in
  match sr_window s with
  | Some _ => (true, reset_sender s)
  | None =>
      if alloc then
        (true, reset_sender
                 (s <| sr_window := Some (replicate (Z.to_nat ARQ_WINDOW)
                         (mk_fslot zero_buf 0 0 0 false false 0)) |>))
      else (false, s)
  end.

Definition clear_slot (sl : FragmentSlot) : FragmentSlot :=
  sl <| fs_len := 0 |> <| fs_send_time_ms := 0 |> <| fs_seq_tag := UINT16_MAX |>
     <| fs_acked := false |> <| fs_sent := false |> <| fs_retries := 0 |>.

Definition set_timeout (t : Z) (s : Sender) : Sender := s <| sr_timeout_ms := t |>.
Definition set_min_rto_floor (t : Z) (s : Sender) : Sender := s <| sr_min_rto_floor_ms := t |>.
Definition set_peer_addr (a : Z) (s : Sender) : Sender := s <| sr_peer_addr := a |>.
Definition set_exit_stride (stride offset : Z) (s : Sender) : Sender :=
  s <| sr_exit_stride := stride |> <| sr_exit_offset := offset |>.
Definition has_pending (s : Sender) : bool := sr_in_flight s >? 0.
Definition is_sender_failed (s : Sender) : bool := sr_sender_failed s.

(** A slot that holds a fragment awaiting its ACK. *)
Definition pending_slot (sl : FragmentSlot) : bool :=
  negb (negb (fs_sent sl) || (fs_len sl =? 0) || (fs_seq_tag sl =? UINT16_MAX)).

Fixpoint lowest_pending (slots : list FragmentSlot) (any : bool) (lowest : Z) : bool * Z :=
  match slots with
  | [] => (any, lowest)
  | sl :: slots' =>
      if negb (pending_slot sl) then lowest_pending slots' any lowest
      else if negb any || (fs_seq_tag sl <? lowest)
           then lowest_pending slots' true (fs_seq_tag sl)
           else lowest_pending slots' any lowest
  end.

Definition live_slots (s : Sender) (slots : list FragmentSlot) : list FragmentSlot :=
  take (Z.to_nat (sr_window_size s)) slots.

Definition recompute_sender_bounds (s : Sender) : Sender :=
  match sr_window s with
  | None => s <| sr_base_seq := sr_next_seq s |>
  | Some slots =>
      let '(any, lowest) := lowest_pending (live_slots s slots) false UINT16_MAX in
      s <| sr_base_seq := if any then lowest else sr_next_seq s |>
  end.

Definition sender_window_full (s : Sender) : bool := sr_in_flight s >=? sr_window_size s.
Definition sender_window_used (s : Sender) : Z := sr_in_flight s.

Definition can_send_sequence (seq : Z) (s : Sender) : bool :=
  match sr_window s with
  | None => false
  | Some slots =>
      if sr_window_size s =? 0 then false
      else
        let sl := aget slots (seq mod sr_window_size s) in
        if fs_sent sl then fs_seq_tag sl =? seq
        else sr_in_flight s <? sr_window_size s
  end.

Definition contains_sequence (seq : Z) (s : Sender) : bool :=
  match sr_window s with
  | None => false
  | Some slots =>
      if sr_window_size s =? 0 then false
      else
        let sl := aget slots (seq mod sr_window_size s) in
        fs_sent sl && (fs_seq_tag sl =? seq) && (fs_len sl >? 0)
  end.

Definition get_send_time (seq : Z) (s : Sender) : Z :=
  match sr_window s with
  | None => 0
  | Some slots =>
      let sl := aget slots (u8 (seq mod sr_window_size s)) in
      if negb (fs_sent sl) || negb (fs_seq_tag sl =? seq) then 0 else fs_send_time_ms sl
  end.

(** *** Snapshot of the pending sequence numbers, insertion-sorted in place *)

Fixpoint collect_pending (slots : list FragmentSlot) (max count : nat) : list Z :=
  match slots with
  | [] => []
  | sl :: slots' =>
      if (max <=? count)%nat then []
      else if negb (pending_slot sl) then collect_pending slots' max count
      else fs_seq_tag sl :: collect_pending slots' max (S count)
  end.

(** The inner [while]: shift entries greater than [key] right, from [j] down. *)
Fixpoint shift_right (fuel : nat) (j : Z) (key : Z) (out : list Z) : list Z :=
  match fuel with
  | O => out
  | S fuel' =>
      if (j >=? 0) && (aget out j >? key)
      then shift_right fuel' (j - 1) key (aset out (j + 1) (aget out j))
      else aset out (j + 1) key
  end.

Fixpoint insertion_passes (n : nat) (i : Z) (out : list Z) : list Z :=
  match n with
  | O => out
  | S n' =>
      let key := aget out i in
      insertion_passes n' (i + 1)
        (shift_right (S (length out)) (i16 i - 1) key out)
  end.

Definition snapshot_pending_sequences (max : Z) (s : Sender) : list Z :=
  match sr_window s with
  | None => []
  | Some slots =>
      if max =? 0 then []
      else
        let out := collect_pending (live_slots s slots) (Z.to_nat max) 0 in
        insertion_passes (length out - 1) 1 out
  end.

(** ** The RTT estimator of [handle_ack] *)

Definition rtt_sample (rtt : Z) (s : Sender) : Sender :=
  let s :=
    if negb (sr_rtt_initialized s) then
      s <| sr_srtt_ms := rtt |> <| sr_rttvar_ms := rtt / 2 |>
        <| sr_rtt_initialized := true |>
    else
      let delta := i32 (i32 rtt - i32 (sr_srtt_ms s)) in
      let abs_delta := if delta <? 0 then u32 (- delta) else u32 delta in
      let rttvar := u32 (3 * sr_rttvar_ms s + abs_delta) / 4 in
      let srtt := u32 (7 * sr_srtt_ms s + rtt) / 8 in
      s <| sr_rttvar_ms := rttvar |> <| sr_srtt_ms := srtt |> in
  let rto := u32 (sr_srtt_ms s + u32 (4 * sr_rttvar_ms s)) in
  let rto := if rto <? RTO_MIN_MS then RTO_MIN_MS else rto in
  let rto := if rto <? sr_min_rto_floor_ms s then sr_min_rto_floor_ms s else rto in
  let rto := if rto >? RTO_MAX_MS then RTO_MAX_MS else rto in
  s <| sr_rto_ms := rto |>.

Definition put_slot (idx : Z) (sl : FragmentSlot) (s : Sender) : Sender :=
  s <| sr_window ::= fmap (fun slots => aset slots idx sl) |>.

Definition dec_in_flight (s : Sender) : Sender :=
  s <| sr_in_flight := if sr_in_flight s >? 0 then sr_in_flight s - 1 else sr_in_flight s |>.

Definition handle_ack (now seq : Z) (s : Sender) : Sender :=
  match sr_window s with
  | None => s
  | Some slots =>
      let idx := u8 (seq mod sr_window_size s) in
      let sl := aget slots idx in
      if negb (fs_sent sl) || negb (fs_seq_tag sl =? seq) || (fs_len sl =? 0) then s
      else
        let s := if fs_sent sl && negb (fs_acked sl) && (fs_retries sl =? 0)
                 then rtt_sample (u32 (now - fs_send_time_ms sl)) s else s in
        let s := if fs_sent sl && negb (fs_acked sl) then dec_in_flight s else s in
        recompute_sender_bounds (put_slot idx (clear_slot sl) s)
  end.

(** ** Operations that transmit *)

Definition SendCallback (W : Type) : Type :=
  W → Z → PacketType → Z → list Z → Z * W.

Section transmit.
Context {W : Type} (send_cb : option (SendCallback W)).

(** [if (send_cb_) rc = send_cb_(...)]; without a callback the code goes on
    as after a success. *)
Definition call_send (w : W) (dst : Z) (t : PacketType) (seq : Z) (data : list Z)
    : Z * W :=
  match send_cb with
  | Some f => f w dst t seq data
  | None => (TRANSPORT_SEND_OK, w)
  end.

(** A null [data] pointer is [None]. *)
Definition send_fragment (now seq : Z) (data : option (list Z)) (s : Sender) (w : W)
    : Z * Sender * W :=
  match sr_window s, data with
  | None, _ | _, None => (-1, s, w)
  | Some slots, Some data =>
      let len := Z.of_nat (length data) in
      if len =? 0 then (-1, s, w)
      else if len >? ESPNOW_MAX_PAYLOAD then (-1, s, w)
      else
        let idx := u8 (seq mod sr_window_size s) in
        let sl := aget slots idx in
        let prev_next_seq := sr_next_seq s in
        if fs_sent sl && (fs_seq_tag sl =? seq) then (0, s, w)
        else if fs_sent sl && negb (fs_seq_tag sl =? seq) then (-1, s, w)
        else if sender_window_full s then (-1, s, w)
        else
          let sl' := mk_fslot (memcpy (fs_data sl) 0 data) len now seq false true 0 in
          let s1 := put_slot idx sl' s <| sr_in_flight := u16 (sr_in_flight s + 1) |> in
          let s1 := s1 <| sr_next_seq := if seq >=? sr_next_seq s1 then u16 (seq + 1)
                                         else sr_next_seq s1 |> in
          let '(rc, w') := call_send w (sr_peer_addr s) DATA seq data in
          if rc <? 0 then
            let s2 := put_slot idx (clear_slot sl') s1 <| sr_next_seq := prev_next_seq |> in
            (-1, recompute_sender_bounds (dec_in_flight s2), w')
          else (0, recompute_sender_bounds s1, w')
  end.

Definition slot_payload (sl : FragmentSlot) : list Z :=
  take (Z.to_nat (fs_len sl)) (fs_data sl).

Definition handle_nack (now seq : Z) (s : Sender) (w : W) : Sender * W :=
  match sr_window s with
  | None => (s, w)
  | Some slots =>
      let idx := u8 (seq mod sr_window_size s) in
      let sl := aget slots idx in
      if negb (fs_sent sl) || negb (fs_seq_tag sl =? seq) || (fs_len sl =? 0) then (s, w)
      else if negb (fs_sent sl) || fs_acked sl || (fs_len sl =? 0) then (s, w)
      else
        let '(rc, w') := call_send w (sr_peer_addr s) DATA seq (slot_payload sl) in
        if rc =? TRANSPORT_SEND_BACKPRESSURE then
          (put_slot idx (sl <| fs_send_time_ms := now |>) s, w')
        else if rc <? 0 then (s, w')
        else
          let sl := sl <| fs_retries := u8 (fs_retries sl + 1) |> in
          if fs_retries sl >=? MAX_RETRIES then
            (put_slot idx sl s <| sr_sender_failed := true |>, w')
          else (put_slot idx (sl <| fs_send_time_ms := now |>) s, w')
  end.

(** The timeout of a slot: measured or configured base, floor, exponential
    backoff, cap. The C++ shift is undefined from 32 retries on, where this one
    gives 0; a slot is past its last retry from 12 on, and [tick] passes over
    it whatever its timeout ([tick_passes_exhausted]), so no result depends on
    the value. *)
Definition slot_backoff (s : Sender) (sl : FragmentSlot) : Z :=
  let base_rto := if sr_rtt_initialized s then sr_rto_ms s else sr_timeout_ms s in
  let base_rto := if base_rto <? sr_min_rto_floor_ms s then sr_min_rto_floor_ms s
                  else base_rto in
  let backoff := u32 (Z.shiftl base_rto (fs_retries sl)) in
  if backoff >? RTO_MAX_MS then RTO_MAX_MS else backoff.

(** The loop of [tick] over the live slots: [continue] keeps the slot and
    goes on, [break] returns the remaining slots as they are. *)
Fixpoint tick_loop (now max_sends : Z) (s : Sender) (slots : list FragmentSlot)
    (retx_count : Z) (w : W) : list FragmentSlot * Z * W :=
  match slots with
  | [] => ([], retx_count, w)
  | sl :: slots' =>
      let continue_with sl' retx_count w :=
        let '(rest, n, w') := tick_loop now max_sends s slots' retx_count w in
        (sl' :: rest, n, w') in
      if negb (fs_sent sl) || fs_acked sl || (fs_len sl =? 0)
         || (fs_seq_tag sl =? UINT16_MAX)
      then continue_with sl retx_count w
      else if u32 (now - fs_send_time_ms sl) >=? slot_backoff s sl then
        if fs_retries sl >=? MAX_RETRIES then continue_with sl retx_count w
        else if fs_len sl =? 0 then
          continue_with (sl <| fs_send_time_ms := now |>) retx_count w
        else if retx_count >=? max_sends then (sl :: slots', retx_count, w)
        else
          let '(rc, w') :=
            call_send w (sr_peer_addr s) DATA (fs_seq_tag sl) (slot_payload sl) in
          if rc =? TRANSPORT_SEND_BACKPRESSURE then
            ((sl <| fs_send_time_ms := now |>) :: slots', retx_count, w')
          else if rc <? 0 then (sl :: slots', retx_count, w')
          else
            continue_with
              (sl <| fs_retries := u8 (fs_retries sl + 1) |> <| fs_send_time_ms := now |>)
              (u8 (retx_count + 1)) w'
      else continue_with sl retx_count w
  end.

Definition tick (now max_sends : Z) (s : Sender) (w : W) : Z * Sender * W :=
  match sr_window s with
  | None => (0, s, w)
  | Some slots =>
      let '(live, n, w') := tick_loop now max_sends s (live_slots s slots) 0 w in
      (n, s <| sr_window := Some (live ++ drop (Z.to_nat (sr_window_size s)) slots) |>, w')
  end.

Lemma tick_passes_exhausted now max_sends s sl slots retx_count w :
  MAX_RETRIES <= fs_retries sl →
  tick_loop now max_sends s (sl :: slots) retx_count w =
  (let '(rest, n, w') := tick_loop now max_sends s slots retx_count w in (sl :: rest, n, w')).
Proof.
  intros Hr. cbn [tick_loop]. replace (fs_retries sl >=? MAX_RETRIES) with true by lia.
  by destruct (_ || _); [ | destruct (_ >=? _) ].
Qed.
End transmit.

#[local] Opaque zero_buf.

(** ** Abstract view: the fragments awaiting their ACK

    The window implements a finite map from sequence number to payload with
    at most one entry per residue modulo the window size. *)

Definition pending_entries (slots : list FragmentSlot) : list (Z * list Z) :=
  (λ sl, (fs_seq_tag sl, slot_payload sl)) <$> List.filter fs_sent slots.

Definition pending_map (slots : list FragmentSlot) : gmap Z (list Z) :=
  list_to_map (pending_entries slots).

Definition pending (s : Sender) : gmap Z (list Z) :=
  pending_map (default [] (sr_window s)).

(** What a slot at index [i] of a window of size [ws] may contain. *)
Definition slot_inv (ws i : Z) (sl : FragmentSlot) : Prop :=
  Z.of_nat (length (fs_data sl)) = MAX_MTU ∧ is_u8 (fs_retries sl) ∧
  (fs_sent sl = true →
     i < ws ∧ fs_acked sl = false ∧ 0 < fs_len sl <= ESPNOW_MAX_PAYLOAD ∧
     0 <= fs_seq_tag sl < UINT16_MAX ∧ fs_seq_tag sl mod ws = i).

Definition win_ok (ws : Z) (slots : list FragmentSlot) : Prop :=
  0 < ws <= ARQ_WINDOW ∧ Z.of_nat (length slots) = ARQ_WINDOW ∧
  ∀ i sl, slots !! i = Some sl → slot_inv ws (Z.of_nat i) sl.

(** [base] is the least pending sequence number, or [next] when there is none. *)
Definition base_spec (m : gmap Z (list Z)) (next base : Z) : Prop :=
  (∀ q, q ∈ dom m → base <= q) ∧ (base ∈ dom m ∨ m = ∅ ∧ base = next).

(** What holds of an initialised sender between two statements; [sender_state]
    adds that [base_seq_] is up to date, which [recompute_sender_bounds]
    establishes. *)
Record sender_core (slots : list FragmentSlot) (s : Sender) : Prop := {
  sc_window : sr_window s = Some slots;
  sc_win : win_ok (sr_window_size s) slots;
  sc_in_flight : sr_in_flight s = Z.of_nat (size (pending_map slots));
  sc_next : is_u16 (sr_next_seq s);
  sc_below : ∀ q, q ∈ dom (pending_map slots) → q < sr_next_seq s;
  sc_rto : sr_rtt_initialized s = true → RTO_MIN_MS <= sr_rto_ms s <= RTO_MAX_MS
}.
Definition sender_state (slots : list FragmentSlot) (s : Sender) : Prop :=
  sender_core slots s ∧ base_spec (pending_map slots) (sr_next_seq s) (sr_base_seq s).
Definition sender_inv (s : Sender) : Prop := ∃ slots, sender_state slots s.

(** *** The map read off the window *)

Definition pend (ws : Z) (slots : list FragmentSlot) (q : Z) : option (list Z) :=
  let sl := aget slots (q mod ws) in
  if fs_sent sl && (fs_seq_tag sl =? q) then Some (slot_payload sl) else None.

Lemma pending_entries_tags ws slots off :
  (∀ i sl, slots !! i = Some sl → slot_inv ws (off + Z.of_nat i) sl) →
  NoDup (pending_entries slots).*1 ∧
  ∀ q, q ∈ (pending_entries slots).*1 → off <= q mod ws.
Proof.
  revert off. induction slots as [ | sl slots IH ]; intros off H; cbn.
  { split; [ constructor | ]. intros q. by rewrite elem_of_nil. }
  destruct (IH (off + 1)) as [Hnd Hoff].
  { intros i x Hi. replace (off + 1 + Z.of_nat i) with (off + Z.of_nat (S i)) by lia.
    by apply H. }
  destruct (H O sl eq_refl) as (_ & _ & Hs).
  unfold pending_entries in *. cbn. destruct (fs_sent sl) eqn:E; cbn.
  - destruct (Hs eq_refl) as (_ & _ & _ & _ & Hm). split.
    + constructor; [ | done ]. intros Hin. specialize (Hoff _ Hin). lia.
    + intros q [-> | Hq]%elem_of_cons; [ lia | ]. specialize (Hoff _ Hq). lia.
  - split; [ done | ]. intros q Hq. specialize (Hoff _ Hq). lia.
Qed.

Lemma win_ok_NoDup ws slots : win_ok ws slots → NoDup (pending_entries slots).*1.
Proof.
  intros (_ & _ & H). apply (pending_entries_tags ws slots 0).
  intros i sl Hi. apply H. done.
Qed.

Lemma pending_map_lookup_Some ws slots q d :
  win_ok ws slots →
  pending_map slots !! q = Some d ↔
  ∃ i sl, slots !! i = Some sl ∧ fs_sent sl = true ∧ fs_seq_tag sl = q ∧ slot_payload sl = d.
Proof.
  intros Hw. unfold pending_map.
  rewrite <- elem_of_list_to_map by (by eapply win_ok_NoDup).
  unfold pending_entries. rewrite list_elem_of_fmap. setoid_rewrite list_elem_of_In.
  setoid_rewrite filter_In. setoid_rewrite <- list_elem_of_In. split.
  - intros (sl & Heq & Hin & Hs). simplify_eq.
    apply list_elem_of_lookup in Hin as [i Hi]. eauto 10.
  - intros (i & sl & Hi & Hs & <- & <-). exists sl. split; [ done | ].
    split; [ | done ]. by eapply list_elem_of_lookup_2.
Qed.

Lemma pending_map_lookup ws slots q :
  win_ok ws slots → pending_map slots !! q = pend ws slots q.
Proof.
  intros Hw. pose proof Hw as (Hws & Hlen & Hs). unfold pend. cbv zeta.
  assert (Hi : 0 <= q mod ws < Z.of_nat (length slots)) by (rewrite Hlen; lia).
  pose proof (aget_lookup slots _ Hi) as Hl.
  destruct (fs_sent _ && _) eqn:E.
  - apply andb_true_iff in E as [E1 E2]. apply Z.eqb_eq in E2.
    rewrite (pending_map_lookup_Some ws) by done. eauto 10.
  - apply eq_None_not_Some. intros [d Hd].
    apply (pending_map_lookup_Some ws) in Hd as (i & sl & Hsl & Hsent & Htag & _); [ | done ].
    destruct (Hs _ _ Hsl) as (_ & _ & H). destruct (H Hsent) as (_ & _ & _ & _ & Hm).
    rewrite Htag in Hm. rewrite Hm in Hl, E. rewrite Nat2Z.id, Hsl in Hl. simplify_eq.
    rewrite Hsent in E. cbn in E. by apply Z.eqb_neq in E.
Qed.

(** *** Effect of rewriting one slot *)

Section window_update.
Context (ws : Z) (slots : list FragmentSlot) (Hw : win_ok ws slots).

Lemma window_index q : 0 <= q mod ws < ws ∧ q mod ws < Z.of_nat (length slots).
Proof. destruct Hw as (? & -> & _). lia. Qed.

Lemma window_u8 q : u8 (q mod ws) = q mod ws.
Proof. destruct Hw as (? & _). unfold ARQ_WINDOW in *. int_lia. Qed.

Lemma window_slot q : slot_inv ws (q mod ws) (aget slots (q mod ws)).
Proof.
  destruct Hw as (_ & _ & H). pose proof (window_index q) as Hi.
  specialize (H (Z.to_nat (q mod ws)) (aget slots (q mod ws))).
  rewrite Z2Nat.id in H by lia. apply H. apply aget_lookup. lia.
Qed.

Lemma win_ok_aset q sl : slot_inv ws (q mod ws) sl → win_ok ws (aset slots (q mod ws) sl).
Proof.
  intros Hsl. pose proof (window_index q) as Hi. destruct Hw as (Hws & Hlen & H).
  split; [ done | ]. rewrite length_aset. split; [ done | ].
  intros i x. unfold aset. intros Hx.
  apply list_lookup_insert_Some in Hx as [(<- & <- & _) | (_ & Hx)]; [ | by apply H ].
  by rewrite Z2Nat.id by lia.
Qed.

Lemma pend_aset q sl x :
  pend ws (aset slots (q mod ws) sl) x =
  if x mod ws =? q mod ws
  then if fs_sent sl && (fs_seq_tag sl =? x) then Some (slot_payload sl) else None
  else pend ws slots x.
Proof.
  pose proof (window_index q). pose proof (window_index x). unfold pend. cbv zeta.
  destruct (x mod ws =? q mod ws) eqn:E; [ apply Z.eqb_eq in E | apply Z.eqb_neq in E ].
  - rewrite E, aget_aset_eq by lia. done.
  - rewrite aget_aset_ne by lia. done.
Qed.

(** Two pending numbers with the same residue are the same number. *)
Lemma pend_tag x : is_Some (pend ws slots x) → fs_seq_tag (aget slots (x mod ws)) = x.
Proof.
  unfold pend. cbv zeta. intros [d H]. case_match eqn:E; [ | done ].
  apply andb_true_iff in E as [_ E]. by apply Z.eqb_eq.
Qed.

Lemma pending_insert q sl :
  fs_sent (aget slots (q mod ws)) = false →
  fs_sent sl = true → fs_seq_tag sl = q → slot_inv ws (q mod ws) sl →
  pending_map (aset slots (q mod ws) sl) = <[q := slot_payload sl]> (pending_map slots)
  ∧ pending_map slots !! q = None.
Proof.
  intros Hold Hnew Htag Hsl. pose proof (win_ok_aset q sl Hsl) as Hw'. split.
  - apply map_eq. intros x.
    rewrite (pending_map_lookup ws _ _ Hw'), lookup_insert, (pending_map_lookup ws _ _ Hw).
    rewrite pend_aset, Hnew, Htag. cbn. case_decide as Hq.
    + subst x. by rewrite !Z.eqb_refl.
    + replace (q =? x) with false by lia. case_match eqn:E; [ | done ].
      apply Z.eqb_eq in E. unfold pend. rewrite E, Hold. done.
  - rewrite (pending_map_lookup ws _ _ Hw). unfold pend. by rewrite Hold.
Qed.

Lemma pending_delete q sl :
  fs_sent (aget slots (q mod ws)) = true → fs_seq_tag (aget slots (q mod ws)) = q →
  fs_sent sl = false → slot_inv ws (q mod ws) sl →
  pending_map (aset slots (q mod ws) sl) = delete q (pending_map slots)
  ∧ is_Some (pending_map slots !! q).
Proof.
  intros Hold Htag Hnew Hsl. pose proof (win_ok_aset q sl Hsl) as Hw'. split.
  - apply map_eq. intros x.
    rewrite (pending_map_lookup ws _ _ Hw'), lookup_delete, (pending_map_lookup ws _ _ Hw).
    rewrite pend_aset, Hnew. cbn. case_decide as Hq.
    + subst x. by rewrite Z.eqb_refl.
    + case_match eqn:E; [ | done ]. apply Z.eqb_eq in E. unfold pend. rewrite E, Htag.
      replace (q =? x) with false by lia. by rewrite andb_false_r.
  - rewrite (pending_map_lookup ws _ _ Hw). unfold pend.
    rewrite Hold, Htag, Z.eqb_refl. eauto.
Qed.

Lemma pending_same q sl :
  fs_sent sl = fs_sent (aget slots (q mod ws)) →
  fs_seq_tag sl = fs_seq_tag (aget slots (q mod ws)) →
  slot_payload sl = slot_payload (aget slots (q mod ws)) → slot_inv ws (q mod ws) sl →
  pending_map (aset slots (q mod ws) sl) = pending_map slots.
Proof.
  intros Es Et Ep Hsl. pose proof (win_ok_aset q sl Hsl) as Hw'. apply map_eq. intros x.
  rewrite (pending_map_lookup ws _ _ Hw'), (pending_map_lookup ws _ _ Hw), pend_aset.
  case_match eqn:E; [ | done ]. apply Z.eqb_eq in E. unfold pend. by rewrite E, Es, Et, Ep.
Qed.

Lemma sent_below i sl : slots !! i = Some sl → fs_sent sl = true → Z.of_nat i < ws.
Proof. intros Hi Hs. destruct Hw as (_ & _ & H). by destruct (H _ _ Hi) as (_ & _ & [? _]). Qed.

Lemma pending_slot_sent i sl : slots !! i = Some sl → pending_slot sl = fs_sent sl.
Proof.
  intros Hi. destruct Hw as (_ & _ & H). destruct (H _ _ Hi) as (_ & _ & Hs).
  unfold pending_slot. destruct (fs_sent sl) eqn:E; [ | done ].
  destruct (Hs eq_refl) as (_ & _ & ? & ? & _).
  replace (fs_len sl =? 0) with false by lia.
  replace (fs_seq_tag sl =? UINT16_MAX) with false by lia. done.
Qed.

Lemma pending_size : Z.of_nat (size (pending_map slots)) = count_if fs_sent slots
  ∧ count_if fs_sent slots <= ws.
Proof.
  split.
  - unfold pending_map. rewrite map_size_list_to_map by (by eapply win_ok_NoDup).
    unfold pending_entries, count_if. by rewrite length_fmap.
  - rewrite <- (take_drop (Z.to_nat ws) slots), count_if_app.
    rewrite (count_if_none fs_sent (drop _ _)).
    + pose proof (count_if_range fs_sent (take (Z.to_nat ws) slots)) as H.
      rewrite length_take in H. destruct Hw as (? & _). lia.
    + intros sl [i Hi]%list_elem_of_lookup. rewrite lookup_drop in Hi.
      destruct (fs_sent sl) eqn:E; [ | done ].
      pose proof (sent_below _ _ Hi E). lia.
Qed.
End window_update.

(** *** [recompute_sender_bounds] *)

Lemma lowest_pending_spec slots any lowest any' lowest' :
  lowest_pending slots any lowest = (any', lowest') →
  any' = any || existsb pending_slot slots ∧
  (any = true → lowest' <= lowest) ∧
  (∀ sl, sl ∈ slots → pending_slot sl = true → lowest' <= fs_seq_tag sl) ∧
  (lowest' = lowest ∨ ∃ sl, sl ∈ slots ∧ pending_slot sl = true ∧ fs_seq_tag sl = lowest') ∧
  (any = false → any' = true →
     ∃ sl, sl ∈ slots ∧ pending_slot sl = true ∧ fs_seq_tag sl = lowest').
Proof.
  revert any lowest. induction slots as [ | sl slots IH ]; intros any lowest; cbn.
  { intros [= <- <-]. rewrite orb_false_r. repeat split; [ lia | | by left | congruence ].
    intros sl Hsl. by apply elem_of_nil in Hsl. }
  destruct (pending_slot sl) eqn:E; cbn.
  - case_match eqn:Ec; intros H; apply IH in H as (-> & H1 & H2 & H3 & H4).
    + split; [ by rewrite orb_true_r | ]. split; [ intros ->; cbn in Ec; specialize (H1 eq_refl); lia | ].
      assert (Hex : ∃ x, x ∈ sl :: slots ∧ pending_slot x = true ∧ fs_seq_tag x = lowest').
      { destruct H3 as [-> | (x & ? & ? & ?)]; [ exists sl | exists x ]; rewrite elem_of_cons; auto. }
      repeat split; [ | by right | done ].
      intros x [-> | Hx]%elem_of_cons Hp; [ by apply H1 | by apply H2 ].
    + destruct any; [ | done ]. cbn in *. repeat split; [ exact H1 | | | done ].
      * intros x [-> | Hx]%elem_of_cons Hp; [ specialize (H1 eq_refl); lia | by apply H2 ].
      * destruct H3 as [? | (x & ? & ? & ?)]; [ by left | right; exists x ].
        rewrite elem_of_cons. auto.
  - intros H; apply IH in H as (-> & H1 & H2 & H3 & H4).
    repeat split; [ exact H1 | | | ].
    + intros x [-> | Hx]%elem_of_cons Hp; [ congruence | by apply H2 ].
    + destruct H3 as [? | (x & ? & ? & ?)]; [ by left | right; exists x ].
      rewrite elem_of_cons. auto.
    + intros Ha Hb. destruct (H4 Ha Hb) as (x & ? & ? & ?). exists x. rewrite elem_of_cons. auto.
Qed.

Lemma live_pending ws slots q :
  win_ok ws slots →
  q ∈ dom (pending_map slots) ↔
  ∃ sl, sl ∈ take (Z.to_nat ws) slots ∧ pending_slot sl = true ∧ fs_seq_tag sl = q.
Proof.
  intros Hw. rewrite elem_of_dom. split.
  - intros [d Hd]. apply (pending_map_lookup_Some ws) in Hd as (i & sl & Hi & Hs & Ht & _); [ | done ].
    exists sl. rewrite (pending_slot_sent ws slots Hw i sl Hi). repeat split; [ | done.. ].
    apply list_elem_of_lookup. exists i. rewrite lookup_take_lt; [ done | ].
    pose proof (sent_below ws slots Hw _ _ Hi Hs). lia.
  - intros (sl & [i Hi]%list_elem_of_lookup & Hp & Ht).
    apply lookup_take_Some in Hi as [Hi _]. exists (slot_payload sl).
    apply (pending_map_lookup_Some ws); [ done | ].
    rewrite (pending_slot_sent ws slots Hw i sl Hi) in Hp. eauto 10.
Qed.

Lemma recompute_base slots s :
  sr_window s = Some slots → win_ok (sr_window_size s) slots →
  ∃ b, recompute_sender_bounds s = s <| sr_base_seq := b |> ∧
       base_spec (pending_map slots) (sr_next_seq s) b.
Proof.
  intros Hwin Hw. unfold recompute_sender_bounds, live_slots. rewrite Hwin.
  destruct (lowest_pending _ _ _) as [any low] eqn:E. eexists. split; [ done | ].
  apply lowest_pending_spec in E as (Hany & _ & Hle & _ & Hex). cbn in Hany. split.
  - intros q (sl & Hin & Hp & <-)%(live_pending (sr_window_size s)); [ | done ].
    rewrite Hany. assert (existsb pending_slot (take (Z.to_nat (sr_window_size s)) slots) = true) as ->;
      [ | by apply Hle ].
    apply existsb_exists. exists sl. by rewrite <- list_elem_of_In.
  - destruct any.
    + left. apply (live_pending (sr_window_size s)); [ done | ]. by apply Hex.
    + right. split; [ | done ]. apply dom_empty_inv_L, elem_of_equiv_empty_L. intros q Hq.
      apply (live_pending (sr_window_size s)) in Hq as (sl & Hin & Hp & _); [ | done ].
      enough (existsb pending_slot (take (Z.to_nat (sr_window_size s)) slots) = true) by congruence.
      apply existsb_exists. exists sl. by rewrite <- list_elem_of_In.
Qed.

Lemma recompute_frame s : ∃ b, recompute_sender_bounds s = s <| sr_base_seq := b |>.
Proof.
  unfold recompute_sender_bounds. destruct (sr_window s); [ | by eexists ].
  destruct (lowest_pending _ _ _). by eexists.
Qed.

Lemma recompute_state slots s :
  sender_core slots s → sender_state slots (recompute_sender_bounds s).
Proof.
  intros []. destruct (recompute_base slots s) as (b & -> & Hb); [ done | done | ].
  split; [ split | ]; red_upd; cbn; done.
Qed.

Lemma sender_state_pending slots s : sender_state slots s → pending s = pending_map slots.
Proof. intros [[Hw] _]. unfold pending. by rewrite Hw. Qed.

Lemma window_payload sl d now seq :
  Z.of_nat (length (fs_data sl)) = MAX_MTU → Z.of_nat (length d) <= ESPNOW_MAX_PAYLOAD →
  slot_payload (mk_fslot (memcpy (fs_data sl) 0 d) (Z.of_nat (length d)) now seq false true 0) = d
  ∧ Z.of_nat (length (memcpy (fs_data sl) 0 d)) = MAX_MTU.
Proof.
  intros Hl Hd. unfold ESPNOW_MAX_PAYLOAD, PACKET_HEADER_SIZE in Hd.
  unfold slot_payload. cbn. rewrite Nat2Z.id. split.
  - apply take_memcpy_0. lia.
  - rewrite length_memcpy by lia. done.
Qed.

Lemma slot_inv_clear ws i sl : slot_inv ws i sl → slot_inv ws i (clear_slot sl).
Proof.
  intros (? & _ & _). unfold clear_slot, slot_inv. red_upd. cbn.
  split; [ done | ]. split; [ int_lia | done ].
Qed.

(** ** The abstract window: what each operation does to the map *)

Definition residue_taken (ws q : Z) (m : gmap Z (list Z)) : bool :=
  existsb (λ p, p.1 mod ws =? q mod ws) (map_to_list m).

(** [(attempted, rc, m')]: whether the transport was called, the code
    returned, and the map after it, when the transport would return [trc]. *)
Definition arq_send (ws trc q : Z) (d : list Z) (m : gmap Z (list Z))
    : bool * Z * gmap Z (list Z) :=
  if (Z.of_nat (length d) =? 0) || (Z.of_nat (length d) >? ESPNOW_MAX_PAYLOAD)
  then (false, -1, m)
  else match m !! q with
       | Some _ => (false, 0, m)
       | None => if residue_taken ws q m then (false, -1, m)
                 else if trc <? 0 then (true, -1, m) else (true, 0, <[q := d]> m)
       end.

Lemma residue_taken_window ws slots q :
  win_ok ws slots → residue_taken ws q (pending_map slots) = fs_sent (aget slots (q mod ws)).
Proof.
  intros Hw. pose proof (window_index ws slots Hw q) as Hi. unfold residue_taken.
  destruct (fs_sent (aget slots (q mod ws))) eqn:E.
  - apply existsb_exists.
    exists (fs_seq_tag (aget slots (q mod ws)), slot_payload (aget slots (q mod ws))).
    destruct (window_slot ws slots Hw q) as (_ & _ & Hs).
    destruct (Hs E) as (_ & _ & _ & _ & Hm). split; [ | cbn; lia ].
    apply list_elem_of_In, elem_of_map_to_list.
    rewrite (pending_map_lookup ws _ _ Hw). unfold pend. by rewrite Hm, E, Z.eqb_refl.
  - apply not_true_iff_false. intros H. apply existsb_exists in H as ((x & d) & Hin & Hx).
    apply list_elem_of_In, elem_of_map_to_list in Hin. cbn in Hx. apply Z.eqb_eq in Hx.
    rewrite (pending_map_lookup ws _ _ Hw) in Hin. unfold pend in Hin.
    by rewrite Hx, E in Hin.
Qed.

(** An occupied window has every residue taken: the [sender_window_full] test
    of [send_fragment] is implied by the slot test before it. *)
Lemma free_slot_not_full slots s q :
  sender_core slots s → fs_sent (aget slots (q mod sr_window_size s)) = false →
  sender_window_full s = false.
Proof.
  intros [Hwin Hw Hn _ _ _] Hfree. unfold sender_window_full. rewrite Hn.
  pose proof (window_index _ _ Hw q) as Hi.
  destruct (pending_size _ _ Hw) as [-> _].
  set (i := Z.to_nat (q mod sr_window_size s)).
  set (sl := aget slots (q mod sr_window_size s)) in *.
  assert (Hl : slots !! i = Some sl) by (apply aget_lookup; lia).
  assert (Hw' : win_ok (sr_window_size s) (aset slots (q mod sr_window_size s)
            (mk_fslot zero_buf 1 0 (q mod sr_window_size s) false true 0))).
  { apply win_ok_aset; [ done | ]. destruct Hw as (Hws & _ & _).
    unfold slot_inv, ARQ_WINDOW, ESPNOW_MAX_PAYLOAD, PACKET_HEADER_SIZE, MAX_MTU in *. cbn.
    rewrite Zmod_mod. repeat split; int_lia. }
  apply pending_size in Hw' as [_ Hle]. unfold aset in Hle.
  rewrite (count_if_insert _ _ _ sl) in Hle by done. rewrite Hfree in Hle. cbn in Hle.
  lia.
Qed.

(** ** Adding and removing one fragment *)

Lemma core_insert slots s q sl :
  sender_core slots s → fs_sent (aget slots (q mod sr_window_size s)) = false →
  fs_sent sl = true → fs_seq_tag sl = q → slot_inv (sr_window_size s) (q mod sr_window_size s) sl →
  0 <= q < UINT16_MAX →
  let s1 := put_slot (q mod sr_window_size s) sl s <| sr_in_flight := u16 (sr_in_flight s + 1) |> in
  sender_core (aset slots (q mod sr_window_size s) sl)
    (s1 <| sr_next_seq := if q >=? sr_next_seq s1 then u16 (q + 1) else sr_next_seq s1 |>).
Proof.
  intros Hc Hfree Hsent Htag Hsl Hq s1. destruct Hc as [Hwin Hw Hn Hnext Hbelow Hrto].
  destruct (pending_insert _ _ Hw q sl Hfree Hsent Htag Hsl) as [Hm Hnone].
  destruct (pending_size _ _ Hw) as [Hsz Hle]. rewrite Hsz in Hn.
  pose proof (count_if_range fs_sent slots). pose proof Hw as (Hws & _ & _).
  unfold s1, put_slot. split; red_upd; cbn.
  - by rewrite Hwin.
  - by apply win_ok_aset.
  - rewrite Hm, map_size_insert_None by done. unfold ARQ_WINDOW in *. int_lia.
  - case_match; int_lia.
  - rewrite Hm, dom_insert_L. intros x [->%elem_of_singleton | Hx]%elem_of_union.
    + case_match; int_lia.
    + specialize (Hbelow _ Hx). case_match; int_lia.
  - done.
Qed.

Lemma core_remove slots s q sl n :
  sender_core slots s → fs_sent (aget slots (q mod sr_window_size s)) = true →
  fs_seq_tag (aget slots (q mod sr_window_size s)) = q →
  fs_sent sl = false → slot_inv (sr_window_size s) (q mod sr_window_size s) sl →
  is_u16 n → (∀ x, x ∈ dom (delete q (pending_map slots)) → x < n) →
  sender_core (aset slots (q mod sr_window_size s) sl)
    (dec_in_flight (put_slot (q mod sr_window_size s) sl s <| sr_next_seq := n |>)).
Proof.
  intros Hc Hsent Htag Hclear Hsl Hn Hlt. destruct Hc as [Hwin Hw Hfl _ _ Hrto].
  destruct (pending_delete _ _ Hw q sl Hsent Htag Hclear Hsl) as [Hm Hsome].
  unfold dec_in_flight, put_slot. split; red_upd; cbn.
  - by rewrite Hwin.
  - by apply win_ok_aset.
  - rewrite Hm, map_size_delete_Some by done. rewrite Hfl.
    assert (size (pending_map slots) ≠ O).
    { intros H%map_size_empty_inv. rewrite H, lookup_empty in Hsome. by destruct Hsome. }
    case_match; lia.
  - done.
  - by rewrite Hm.
  - done.
Qed.

Lemma core_same slots s q sl :
  sender_state slots s →
  fs_sent sl = fs_sent (aget slots (q mod sr_window_size s)) →
  fs_seq_tag sl = fs_seq_tag (aget slots (q mod sr_window_size s)) →
  slot_payload sl = slot_payload (aget slots (q mod sr_window_size s)) →
  slot_inv (sr_window_size s) (q mod sr_window_size s) sl →
  sender_state (aset slots (q mod sr_window_size s) sl) (put_slot (q mod sr_window_size s) sl s)
  ∧ pending_map (aset slots (q mod sr_window_size s) sl) = pending_map slots.
Proof.
  intros [[Hwin Hw Hn Hnext Hbelow Hrto] Hbase] Es Et Ep Hsl.
  pose proof (pending_same _ _ Hw q sl Es Et Ep Hsl) as Hm.
  split; [ | done ]. unfold put_slot. split; [ split | ]; red_upd; cbn;
    rewrite ?Hm; try done; [ by rewrite Hwin | by apply win_ok_aset ].
Qed.

Lemma rtt_sample_rto rtt s :
  RTO_MIN_MS <= sr_rto_ms (rtt_sample rtt s) <= RTO_MAX_MS.
Proof.
  unfold rtt_sample, RTO_MIN_MS, RTO_MAX_MS. cbv zeta. red_upd. cbn [sr_rto_ms].
  set (r := u32 _). clearbody r. repeat case_match; lia.
Qed.

(** The estimator writes its own four fields only. *)
Lemma rtt_sample_frame rtt s : ∃ srtt rttvar rto,
  rtt_sample rtt s = s <| sr_srtt_ms := srtt |> <| sr_rttvar_ms := rttvar |>
                       <| sr_rtt_initialized := true |> <| sr_rto_ms := rto |>.
Proof.
  unfold rtt_sample. cbv zeta. set (rto := if _ >? RTO_MAX_MS then _ else _).
  destruct (sr_rtt_initialized s) eqn:E; cbn [negb] in *.
  - exists (u32 (7 * sr_srtt_ms s + rtt) / 8).
    eexists _, rto. clearbody rto. red_upd. cbn. rewrite E. reflexivity.
  - exists rtt, (rtt / 2), rto. reflexivity.
Qed.

Lemma rtt_sample_core slots rtt s : sender_core slots s → sender_core slots (rtt_sample rtt s).
Proof.
  pose proof (rtt_sample_rto rtt s) as Hr. revert Hr.
  destruct (rtt_sample_frame rtt s) as (srtt & rttvar & rto & ->). red_upd. cbn.
  intros Hr []. by split.
Qed.

(** ** The operations refine the abstract window *)

Section refinement.
Context {W : Type} (send_cb : option (SendCallback W)).

(** Where a slot free for [q] holds the new fragment, and the roll-back. *)
Lemma send_free now q d s w slots :
  sender_state slots s → fs_sent (aget slots (q mod sr_window_size s)) = false →
  0 <= q < UINT16_MAX → 0 < Z.of_nat (length d) <= ESPNOW_MAX_PAYLOAD →
  let call := call_send send_cb w (sr_peer_addr s) DATA q d in
  let '(rc, s', w') := send_fragment send_cb now q (Some d) s w in
  sender_inv s' ∧ rc = (if call.1 <? 0 then -1 else 0) ∧ w' = call.2 ∧
  pending s' = if call.1 <? 0 then pending s else <[q := d]> (pending s).
Proof.
  intros [Hc Hbase] Hfree Hq Hd call.
  pose proof Hc as [Hwin Hw _ Hnext Hbelow _].
  pose proof (window_slot _ _ Hw q) as Hslot. pose proof (window_index _ _ Hw q) as Hi.
  unfold send_fragment. rewrite Hwin. cbv zeta. rewrite (window_u8 _ _ Hw).
  replace (Z.of_nat (length d) =? 0) with false by lia.
  replace (Z.of_nat (length d) >? ESPNOW_MAX_PAYLOAD) with false by lia.
  rewrite Hfree, (free_slot_not_full slots s q Hc Hfree). cbn [andb].
  set (old := aget slots (q mod sr_window_size s)) in *.
  destruct (window_payload old d now q) as [Hpay Hlen]; [ by apply Hslot | lia | ].
  set (sl := mk_fslot _ _ now q false true 0) in *.
  assert (Hsl : slot_inv (sr_window_size s) (q mod sr_window_size s) sl).
  { split; [ done | ]. split; [ cbn; int_lia | ]. intros _. cbn.
    split; [ lia | ]. split; [ done | ]. split; [ done | ]. split; [ done | done ]. }
  pose proof (core_insert slots s q sl Hc Hfree eq_refl eq_refl Hsl Hq) as Hc1.
  destruct (pending_insert _ _ Hw q sl Hfree eq_refl eq_refl Hsl) as [Hm Hnone].
  rewrite Hpay in Hm. cbv zeta in Hc1. set (s1 := _ <| sr_next_seq := _ |>) in *.
  rewrite (surjective_pairing (call_send _ _ _ _ _ _)). fold call.
  unfold pending at 2 3. rewrite Hwin. cbn [default from_option id].
  destruct (call.1 <? 0) eqn:Erc.
  - pose proof (core_remove _ s1 q (clear_slot sl) (sr_next_seq s) Hc1) as Hr.
    assert (Ews : sr_window_size s1 = sr_window_size s) by done. rewrite Ews in Hr.
    set (slots1 := aset slots (q mod sr_window_size s) sl) in *.
    pose proof (win_ok_aset _ _ Hw q sl Hsl : win_ok _ slots1) as Hw1.
    assert (Hnew : aget slots1 (q mod sr_window_size s) = sl) by (apply aget_aset_eq; lia).
    rewrite Hnew in Hr.
    pose proof (slot_inv_clear _ _ _ Hsl) as Hcl.
    pose proof (pending_delete _ _ Hw1 q (clear_slot sl)) as Hdel. rewrite Hnew in Hdel.
    destruct (Hdel eq_refl eq_refl eq_refl Hcl) as [Hm2 _].
    rewrite Hm, delete_insert_id in Hm2 by done.
    rewrite Hm, delete_insert_id in Hr by done.
    specialize (Hr eq_refl eq_refl eq_refl Hcl Hnext Hbelow).
    apply recompute_state in Hr. split_and!; [ by eexists | done | done | ].
    rewrite (sender_state_pending _ _ Hr). done.
  - apply recompute_state in Hc1. split_and!; [ by eexists | done | done | ].
    by rewrite (sender_state_pending _ _ Hc1).
Qed.

Lemma handle_ack_state now q s slots :
  sender_state slots s →
  sender_inv (handle_ack now q s) ∧ pending (handle_ack now q s) = delete q (pending s).
Proof.
  intros Hs. rewrite (sender_state_pending _ _ Hs). pose proof Hs as [Hc Hbase].
  pose proof Hc as [Hwin Hw _ Hnext Hbelow _]. pose proof (window_slot _ _ Hw q) as Hslot.
  unfold handle_ack. rewrite Hwin. cbv zeta. rewrite (window_u8 _ _ Hw).
  set (sl := aget slots (q mod sr_window_size s)) in *.
  destruct (fs_sent sl) eqn:Es; cbn [negb orb].
  2: { split; [ by eexists | ]. rewrite (sender_state_pending _ _ Hs), delete_id; [ done | ].
       rewrite (pending_map_lookup _ _ _ Hw). unfold pend. fold sl. by rewrite Es. }
  destruct (fs_seq_tag sl =? q) eqn:Et; cbn [negb orb].
  2: { split; [ by eexists | ]. rewrite (sender_state_pending _ _ Hs), delete_id; [ done | ].
       rewrite (pending_map_lookup _ _ _ Hw). unfold pend. fold sl. by rewrite Es, Et. }
  apply Z.eqb_eq in Et. destruct Hslot as (Hd & Hr & Hsent).
  destruct (Hsent Es) as (_ & Ha & Hlen & _). rewrite Ha.
  replace (fs_len sl =? 0) with false by lia. cbn [negb andb].
  set (s1 := if _ =? 0 then _ else s).
  assert (Hc1 : sender_core slots s1) by (unfold s1; case_match; [ by apply rtt_sample_core | done ]).
  assert (E1 : sr_window_size s1 = sr_window_size s ∧ sr_next_seq s1 = sr_next_seq s).
  { unfold s1. case_match; [ | done ].
    by destruct (rtt_sample_frame (u32 (now - fs_send_time_ms sl)) s) as (? & ? & ? & ->). }
  destruct E1 as [Ews En].
  pose proof (slot_inv_clear _ _ _ (window_slot _ _ Hw q)) as Hcl. fold sl in Hcl.
  pose proof (core_remove slots s1 q (clear_slot sl) (sr_next_seq s1) Hc1) as Hrem.
  rewrite Ews, En in Hrem. fold sl in Hrem.
  destruct (pending_delete _ _ Hw q (clear_slot sl) Es Et eq_refl Hcl) as [Hm _].
  assert (Hc2 : sender_core (aset slots (q mod sr_window_size s) (clear_slot sl))
                  (put_slot (q mod sr_window_size s) (clear_slot sl) (dec_in_flight s1))).
  { replace (put_slot _ _ (dec_in_flight s1)) with
      (dec_in_flight (put_slot (q mod sr_window_size s) (clear_slot sl) s1
                        <| sr_next_seq := sr_next_seq s |>)).
    - apply Hrem; try done. intros x Hx. apply Hbelow. set_solver.
    - rewrite <- En. done. }
  apply recompute_state in Hc2. split; [ by eexists | ].
  by rewrite (sender_state_pending _ _ Hc2).
Qed.

Lemma slot_inv_touch ws i sl now r :
  slot_inv ws i sl → is_u8 r →
  slot_inv ws i (sl <| fs_retries := r |> <| fs_send_time_ms := now |>).
Proof. intros (? & ? & ?) Hr. red_upd. split; [ done | ]. split; [ done | done ]. Qed.

Lemma handle_nack_state now q s slots w :
  sender_state slots s →
  sender_inv (handle_nack send_cb now q s w).1 ∧
  pending (handle_nack send_cb now q s w).1 = pending s ∧
  (handle_nack send_cb now q s w).2 =
    match pending s !! q with
    | Some d => (call_send send_cb w (sr_peer_addr s) DATA q d).2
    | None => w
    end.
Proof.
  intros Hs. rewrite (sender_state_pending _ _ Hs). pose proof Hs as [Hc Hbase].
  pose proof Hc as [Hwin Hw _ Hnext Hbelow _]. pose proof (window_slot _ _ Hw q) as Hslot.
  rewrite (pending_map_lookup _ _ _ Hw). unfold pend.
  unfold handle_nack. rewrite Hwin. cbv zeta. rewrite (window_u8 _ _ Hw).
  set (sl := aget slots (q mod sr_window_size s)) in *.
  destruct (fs_sent sl) eqn:Es; cbn [negb orb andb];
    [ | split_and!; [ by eexists | by apply sender_state_pending | done ] ].
  destruct (fs_seq_tag sl =? q) eqn:Et; cbn [negb orb andb];
    [ | split_and!; [ by eexists | by apply sender_state_pending | done ] ].
  destruct (proj2 (proj2 Hslot) Es) as (_ & Ha & Hlen & _). rewrite Ha.
  replace (fs_len sl =? 0) with false by lia. cbn [orb].
  rewrite (surjective_pairing (call_send _ _ _ _ _ _)).
  set (call := call_send _ _ _ _ _ _).
  assert (Hput : ∀ r t f, is_u8 r →
    sender_inv (put_slot (q mod sr_window_size s) (sl <| fs_retries := r |> <| fs_send_time_ms := t |>) s
                  <| sr_sender_failed ::= f |>) ∧
    pending (put_slot (q mod sr_window_size s) (sl <| fs_retries := r |> <| fs_send_time_ms := t |>) s
               <| sr_sender_failed ::= f |>) = pending_map slots).
  { intros r t f Hr.
    pose proof (slot_inv_touch _ _ sl t r Hslot Hr) as Hsl'.
    pose proof (core_same slots s q (sl <| fs_retries := r |> <| fs_send_time_ms := t |>) Hs) as Hcs.
    fold sl in Hcs. clearbody sl. destruct (Hcs eq_refl eq_refl eq_refl Hsl') as [Hs' Hm].
    rewrite <- Hm, <- (sender_state_pending _ _ Hs'). split; [ | done ].
    eexists. destruct Hs' as [[] ?]. by split; [ split | ]. }
  destruct (call.1 =? _).
  { destruct (Hput (fs_retries sl) now id (proj1 (proj2 Hslot))) as [H1 H2]. by split_and!. }
  destruct (call.1 <? 0); [ split_and!; [ by eexists | by apply sender_state_pending | done ] | ].
  case_match.
  - destruct (Hput (u8 (fs_retries sl + 1)) (fs_send_time_ms sl) (λ _, true)) as [H1 H2];
      [ int_lia | by split_and! ].
  - destruct (Hput (u8 (fs_retries sl + 1)) now id) as [H1 H2]; [ int_lia | by split_and! ].
Qed.
End refinement.

(** ** [tick]: which slots are retransmitted *)

(** One call of the transport, as the test harness would record it. *)
Record Tx := mk_tx { tx_dst : Z; tx_type : PacketType; tx_seq : Z; tx_data : list Z; tx_rc : Z }.
Definition tx_ok (t : Tx) : bool := negb (tx_rc t <? 0).

(** A callback with a log of its calls. *)
Definition logged {W} (f : SendCallback W) : SendCallback (W * list Tx) :=
  λ w dst ty seq data,
    let '(rc, w') := f w.1 dst ty seq data in
    (rc, (w', w.2 ++ [mk_tx dst ty seq data rc])).

(** A slot that [tick] wants to retransmit at [now]: pending, its backed-off
    timeout over, its retries not exhausted. *)
Definition slot_due (now : Z) (s : Sender) (sl : FragmentSlot) : bool :=
  fs_sent sl && (u32 (now - fs_send_time_ms sl) >=? slot_backoff s sl)
  && (fs_retries sl <? MAX_RETRIES).

Definition due_messages (now : Z) (s : Sender) (slots : list FragmentSlot)
    : list (Z * PacketType * Z * list Z) :=
  (λ sl, (sr_peer_addr s, DATA, fs_seq_tag sl, slot_payload sl))
    <$> List.filter (slot_due now s) slots.

Definition tx_message (t : Tx) : Z * PacketType * Z * list Z :=
  (tx_dst t, tx_type t, tx_seq t, tx_data t).

(** What [tick] may change in a slot. *)
Definition touched (sl sl' : FragmentSlot) : Prop :=
  ∃ r t, sl' = sl <| fs_retries := r |> <| fs_send_time_ms := t |> ∧
  (r = fs_retries sl ∨ r = fs_retries sl + 1 ∧ r <= MAX_RETRIES).

Lemma touched_refl sl : touched sl sl.
Proof. exists (fs_retries sl), (fs_send_time_ms sl). red_upd. destruct sl; cbn. auto. Qed.

Section tick.
Context {W : Type} (f : SendCallback W) (now max_sends : Z) (s : Sender).
Context (Hmax : is_u8 max_sends).

Definition live_slot (sl : FragmentSlot) : Prop :=
  is_u8 (fs_retries sl) ∧
  (fs_sent sl = true → fs_acked sl = false ∧ 0 < fs_len sl ∧ fs_seq_tag sl < UINT16_MAX).

(** What a run of the loop over [slots] sent ([new]) and left ([slots']). *)
Record tick_outcome (slots slots' : list FragmentSlot) (n0 n : Z) (new : list Tx) : Prop := {
  to_slots : Forall2 touched slots slots';
  to_count : n = n0 + count_if tx_ok new;
  to_budget : n <= max_sends;
  to_prefix : tx_message <$> new `prefix_of` due_messages now s slots;
  to_failures : Z.of_nat (length new) <= count_if tx_ok new + 1;
  to_all : n < max_sends → Z.of_nat (length new) = count_if tx_ok new →
           tx_message <$> new = due_messages now s slots
}.

Lemma tick_outcome_stop slots n0 :
  n0 <= max_sends → (n0 < max_sends → due_messages now s slots = []) →
  tick_outcome slots slots n0 n0 [].
Proof.
  intros. split.
  - apply Forall_Forall2_diag, Forall_forall. intros. apply touched_refl.
  - rewrite count_if_nil. lia.
  - done.
  - apply prefix_nil.
  - rewrite count_if_nil. cbn. lia.
  - intros Hlt _. by rewrite H0.
Qed.

Lemma due_messages_cons sl slots :
  due_messages now s (sl :: slots) =
  (if slot_due now s sl then [(sr_peer_addr s, DATA, fs_seq_tag sl, slot_payload sl)] else [])
    ++ due_messages now s slots.
Proof. unfold due_messages. cbn. by destruct (slot_due now s sl). Qed.

Lemma tick_outcome_skip sl slots slots' n0 n new :
  slot_due now s sl = false → tick_outcome slots slots' n0 n new →
  tick_outcome (sl :: slots) (sl :: slots') n0 n new.
Proof.
  intros Hd []. split; rewrite ?due_messages_cons, ?Hd; try done.
  constructor; [ apply touched_refl | done ].
Qed.

Lemma tick_outcome_sent sl slots slots' n0 n new rc :
  slot_due now s sl = true → is_u8 (fs_retries sl) → (rc <? 0) = false →
  tick_outcome slots slots' (n0 + 1) n new →
  tick_outcome (sl :: slots)
    ((sl <| fs_retries := u8 (fs_retries sl + 1) |> <| fs_send_time_ms := now |>) :: slots')
    n0 n (mk_tx (sr_peer_addr s) DATA (fs_seq_tag sl) (slot_payload sl) rc :: new).
Proof.
  intros Hd Hr Hrc []. split; rewrite ?due_messages_cons, ?Hd, ?count_if_cons; try done.
  - constructor; [ | done ]. eexists _, _. split; [ done | right ].
    unfold slot_due, MAX_RETRIES in *. int_lia.
  - unfold tx_ok at 1. cbn. rewrite Hrc. cbn. lia.
  - cbn. by apply prefix_cons.
  - cbn. unfold tx_ok at 1. cbn. rewrite Hrc. cbn. lia.
  - intros Hn. cbn. unfold tx_ok at 1. cbn. rewrite Hrc. cbn. intros Hlen.
    rewrite to_all0; [ done | done | lia ].
Qed.

Lemma tick_outcome_failed sl slots t n0 rc :
  slot_due now s sl = true → (rc <? 0) = true → n0 <= max_sends →
  tick_outcome (sl :: slots) (sl <| fs_send_time_ms := t |> :: slots) n0 n0
    [mk_tx (sr_peer_addr s) DATA (fs_seq_tag sl) (slot_payload sl) rc].
Proof.
  intros Hd Hrc Hn. split; rewrite ?due_messages_cons, ?Hd, ?count_if_cons, ?count_if_nil;
    unfold tx_ok; cbn; rewrite ?Hrc; cbn; try lia.
  - constructor; [ | apply Forall_Forall2_diag, Forall_forall; intros; apply touched_refl ].
    exists (fs_retries sl), t. split; [ | auto ]. red_upd. by destruct sl.
  - apply prefix_cons, prefix_nil.
Qed.

Lemma tick_loop_outcome slots n0 w log0 :
  Forall live_slot slots → 0 <= n0 <= max_sends →
  let '(slots', n, w') := tick_loop (Some (logged f)) now max_sends s slots n0 (w, log0) in
  ∃ new, w'.2 = log0 ++ new ∧ tick_outcome slots slots' n0 n new.
Proof.
  intros Hlive. revert n0 w log0. induction Hlive as [ | sl slots Hsl Hlive IH ]; intros n0 w log0 Hn.
  { cbn. exists []. rewrite app_nil_r. split; [ done | ]. apply tick_outcome_stop; [ lia | done ]. }
  assert (Hskip : slot_due now s sl = false →
    let '(slots', n, w') :=
      (let '(rest, n, w') := tick_loop (Some (logged f)) now max_sends s slots n0 (w, log0) in
       (sl :: rest, n, w')) in
    ∃ new, w'.2 = log0 ++ new ∧ tick_outcome (sl :: slots) slots' n0 n new).
  { intros Hd. specialize (IH n0 w log0 Hn). destruct (tick_loop _ _ _ _ slots _ _) as [[? ?] ?].
    destruct IH as (new & ? & ?). exists new. split; [ done | ]. by apply tick_outcome_skip. }
  destruct Hsl as [Hr Hs]. cbn [tick_loop]. cbv zeta.
  destruct (fs_sent sl) eqn:Es.
  2: { cbn [negb orb]. apply Hskip. unfold slot_due. by rewrite Es. }
  destruct (Hs eq_refl) as (Ha & Hlen & Htag). rewrite Ha.
  replace (fs_len sl =? 0) with false by lia.
  replace (fs_seq_tag sl =? UINT16_MAX) with false by lia. cbn [negb orb].
  destruct (u32 _ >=? _) eqn:Et.
  2: { apply Hskip. unfold slot_due. by rewrite Et, andb_false_r. }
  destruct (fs_retries sl >=? MAX_RETRIES) eqn:Em.
  { apply Hskip. unfold slot_due. rewrite andb_comm. by replace (_ <? _) with false by lia. }
  assert (Hdue : slot_due now s sl = true) by (unfold slot_due; rewrite Es, Et; cbn; lia).
  destruct (n0 >=? max_sends) eqn:Eb.
  { exists []. rewrite app_nil_r. split; [ done | ]. apply tick_outcome_stop; lia. }
  cbn [call_send]. unfold logged at 1. cbn [fst snd].
  destruct (f w _ _ _ _) as [rc w1].
  destruct (rc =? TRANSPORT_SEND_BACKPRESSURE) eqn:Ebp; [ apply Z.eqb_eq in Ebp | ].
  { eexists. split; [ done | ]. apply tick_outcome_failed; [ done | by subst rc | lia ]. }
  destruct (rc <? 0) eqn:Erc.
  { eexists. split; [ done | ].
    pose proof (tick_outcome_failed sl slots (fs_send_time_ms sl) n0 rc Hdue Erc) as H.
    red_upd. destruct sl. apply H. lia. }
  rewrite (u8_small (n0 + 1)) by int_lia.
  specialize (IH (n0 + 1) w1 (log0 ++ [mk_tx (sr_peer_addr s) DATA (fs_seq_tag sl) (slot_payload sl) rc])).
  destruct (tick_loop _ _ _ _ slots _ _) as [[? ?] ?].
  destruct IH as (new & -> & Hnew); [ lia | ].
  eexists. rewrite <- app_assoc. split; [ done | ]. by apply tick_outcome_sent.
Qed.
End tick.

Lemma touched_time sl t : touched sl (sl <| fs_send_time_ms := t |>).
Proof. exists (fs_retries sl), t. split; [ | auto ]. red_upd. by destruct sl. Qed.

Lemma touched_all_refl slots : Forall2 touched slots slots.
Proof. apply Forall_Forall2_diag, Forall_forall. intros. apply touched_refl. Qed.

(** The loop changes nothing but retry counts and timestamps, whatever the
    transport does. *)
Lemma tick_loop_touched {W} (cb : option (SendCallback W)) now max_sends s slots n0 w :
  Forall (λ sl, is_u8 (fs_retries sl)) slots →
  Forall2 touched slots (tick_loop cb now max_sends s slots n0 w).1.1.
Proof.
  intros Hr. revert n0 w. induction Hr as [ | sl slots Hsl _ IH ]; intros n0 w; [ constructor | ].
  cbn [tick_loop]. cbv zeta.
  assert (Hstep : ∀ sl' n w, touched sl sl' → Forall2 touched (sl :: slots)
    (let '(rest, n', w') := tick_loop cb now max_sends s slots n w in (sl' :: rest, n', w')).1.1).
  { intros sl' n w0 Hsl'. specialize (IH n w0). destruct (tick_loop _ _ _ _ slots _ _) as [[? ?] ?].
    by constructor. }
  destruct (_ || _); [ apply Hstep, touched_refl | ].
  destruct (u32 _ >=? _); [ | apply Hstep, touched_refl ].
  destruct (_ >=? MAX_RETRIES) eqn:Em; [ apply Hstep, touched_refl | ].
  destruct (fs_len sl =? 0); [ apply Hstep, touched_time | ].
  destruct (n0 >=? max_sends); [ apply touched_all_refl | ].
  destruct (call_send _ _ _ _ _ _) as [rc w'].
  destruct (rc =? _); [ constructor; [ apply touched_time | apply touched_all_refl ] | ].
  destruct (rc <? 0); [ apply touched_all_refl | ].
  apply Hstep. eexists _, _. split; [ done | right ]. unfold MAX_RETRIES in *. int_lia.
Qed.

Lemma touched_window ws slots slots' :
  win_ok ws slots → Forall2 touched slots slots' →
  win_ok ws slots' ∧ pending_map slots' = pending_map slots.
Proof.
  intros (Hws & Hlen & Hs) Ht. split.
  - split; [ done | ]. rewrite <- (Forall2_length _ _ _ Ht). split; [ done | ].
    intros i sl' Hi. destruct (Forall2_lookup_r _ _ _ _ _ Ht Hi) as (sl & Hl & r & t & -> & Hr).
    pose proof (Hs _ _ Hl) as Hsl. apply slot_inv_touch; [ done | ].
    destruct Hsl as (_ & ? & _). unfold MAX_RETRIES in *. int_lia.
  - unfold pending_map. f_equal. clear Hws Hlen Hs. unfold pending_entries.
    induction Ht as [ | sl sl' slots slots' (r & t & -> & _) _ IH ]; [ done | ].
    cbn [List.filter]. red_upd. cbn [fs_sent]. destruct (fs_sent sl); [ | done ].
    rewrite !fmap_cons, IH. done.
Qed.

Lemma tick_state {W} (cb : option (SendCallback W)) now max_sends s slots w :
  sender_state slots s →
  sender_inv (tick cb now max_sends s w).1.2 ∧
  pending (tick cb now max_sends s w).1.2 = pending s.
Proof.
  intros Hs. rewrite (sender_state_pending _ _ Hs).
  destruct Hs as [[Hwin Hw Hn Hnext Hbelow Hrto] Hbase].
  unfold tick, live_slots. rewrite Hwin.
  pose proof (tick_loop_touched cb now max_sends s (take (Z.to_nat (sr_window_size s)) slots) 0 w) as Ht.
  destruct (tick_loop _ _ _ _ _ _ _) as [[live n] w'] eqn:E. cbn [fst snd] in *.
  assert (Forall (λ sl, is_u8 (fs_retries sl)) (take (Z.to_nat (sr_window_size s)) slots)) as H.
  { apply Forall_take, Forall_forall. intros sl [i Hi]%list_elem_of_lookup.
    destruct Hw as (_ & _ & Hw). by destruct (Hw _ _ Hi) as (_ & ? & _). }
  specialize (Ht H). clear H E.
  assert (Ht' : Forall2 touched slots (live ++ drop (Z.to_nat (sr_window_size s)) slots)).
  { rewrite <- (take_drop (Z.to_nat (sr_window_size s)) slots) at 1.
    apply Forall2_app; [ done | apply touched_all_refl ]. }
  destruct (touched_window _ _ _ Hw Ht') as [Hw' Hm]. split; [ | done ].
  eexists. split; [ split | ]; red_upd; cbn; rewrite ?Hm; done.
Qed.

(** ** Reachable states *)

Inductive sender_op :=
  | OpSend (now seq : Z) (data : option (list Z))
  | OpAck (now seq : Z)
  | OpNack (now seq : Z)
  | OpTick (now max_sends : Z)
  | OpReset
  | OpInit (alloc : bool) (window_size timeout_ms : Z)
  | OpSetTimeout (t : Z)
  | OpSetFloor (t : Z)
  | OpSetPeer (a : Z)
  | OpSetStride (stride offset : Z).

(** The callers' contract: fragments are numbered below [UINT16_MAX], and a
    window is never initialised empty. *)
Definition op_ok (o : sender_op) : Prop :=
  match o with
  | OpSend _ seq _ => 0 <= seq < UINT16_MAX
  | OpInit _ window_size _ => 0 < window_size
  | _ => True
  end.

Definition run_op {W} (cb : option (SendCallback W)) (o : sender_op) (sw : Sender * W)
    : Sender * W :=
  let '(s, w) := sw in
  match o with
  | OpSend now seq data => let '(_, s', w') := send_fragment cb now seq data s w in (s', w')
  | OpAck now seq => (handle_ack now seq s, w)
  | OpNack now seq => handle_nack cb now seq s w
  | OpTick now max_sends => let '(_, s', w') := tick cb now max_sends s w in (s', w')
  | OpReset => (reset_sender s, w)
  | OpInit alloc ws t => ((init alloc ws t s).2, w)
  | OpSetTimeout t => (set_timeout t s, w)
  | OpSetFloor t => (set_min_rto_floor t s, w)
  | OpSetPeer a => (set_peer_addr a s, w)
  | OpSetStride st o => (set_exit_stride st o s, w)
  end.

Definition run_ops {W} (cb : option (SendCallback W)) (ops : list sender_op) (sw : Sender * W)
    : Sender * W := fold_left (λ sw o, run_op cb o sw) ops sw.

Lemma fresh_window_ok ws :
  0 < ws <= ARQ_WINDOW →
  ∃ fresh, replicate (Z.to_nat ARQ_WINDOW) fresh_slot = fresh ∧ win_ok ws fresh ∧
           pending_map fresh = ∅.
Proof.
  intros Hr. eexists. split; [ reflexivity | ]. split; [ | reflexivity ].
  split; [ done | ]. split; [ done | ]. intros i sl [-> _]%lookup_replicate.
  split; [ reflexivity | ]. split; [ cbn; int_lia | done ].
Qed.

Lemma reset_sender_inv s slots :
  sr_window s = Some slots → 0 < sr_window_size s <= ARQ_WINDOW →
  sender_inv (reset_sender s) ∧ pending (reset_sender s) = ∅.
Proof.
  intros Hwin Hr. destruct (fresh_window_ok _ Hr) as (fresh & Hf & Hw & Hmap).
  assert (Hnew : sr_window (reset_sender s) = Some fresh).
  { unfold reset_sender. rewrite Hf. cbn [sr_window update_field]. by rewrite Hwin. }
  unfold pending. rewrite Hnew. cbn [default from_option id].
  split; [ exists fresh; split; [ split | ] | done ]; rewrite ?Hmap; try done;
    unfold reset_sender;
    cbn [sr_window_size sr_in_flight sr_next_seq sr_rtt_initialized sr_base_seq update_field];
    try done.
  split; [ done | by right ].
Qed.

(** Every branch of [send_fragment] that returns before the slot is written. *)
Lemma send_rejected {W} (cb : option (SendCallback W)) now q d s w slots :
  sender_core slots s →
  Z.of_nat (length d) = 0 ∨ Z.of_nat (length d) > ESPNOW_MAX_PAYLOAD ∨
    fs_sent (aget slots (q mod sr_window_size s)) = true →
  send_fragment cb now q (Some d) s w =
    (if (Z.of_nat (length d) =? 0) || (Z.of_nat (length d) >? ESPNOW_MAX_PAYLOAD) then -1
     else if fs_seq_tag (aget slots (q mod sr_window_size s)) =? q then 0 else -1, s, w).
Proof.
  intros [Hwin Hw _ _ _ _] H. unfold send_fragment. rewrite Hwin. cbv zeta.
  rewrite (window_u8 _ _ Hw).
  destruct (Z.of_nat (length d) =? 0) eqn:E0; [ done | ].
  destruct (Z.of_nat (length d) >? ESPNOW_MAX_PAYLOAD) eqn:E1; [ done | ].
  destruct H as [? | [? | ->]]; [ lia | lia | ]. cbn [andb orb]. by destruct (_ =? q).
Qed.

Lemma send_fragment_inv {W} (cb : option (SendCallback W)) now seq data s w :
  sender_inv s → 0 <= seq < UINT16_MAX → sender_inv (send_fragment cb now seq data s w).1.2.
Proof.
  intros [slots Hs] Hq. pose proof Hs as [Hc _].
  destruct data as [d | ].
  2: { unfold send_fragment. rewrite (sc_window _ _ Hc). by exists slots. }
  destruct (decide (0 < Z.of_nat (length d) <= ESPNOW_MAX_PAYLOAD)).
  2: { rewrite (send_rejected cb now seq d s w slots Hc) by lia. by exists slots. }
  destruct (fs_sent (aget slots (seq mod sr_window_size s))) eqn:Es.
  { rewrite (send_rejected cb now seq d s w slots Hc) by auto. by exists slots. }
  pose proof (send_free cb now seq d s w slots Hs Es Hq a) as Hf. cbv zeta in Hf.
  destruct (send_fragment _ _ _ _ _ _) as [[rc s'] w']. by destruct Hf.
Qed.

Lemma init_inv alloc ws t s :
  alloc = true ∨ is_Some (sr_window s) → 0 < ws → sender_inv (init alloc ws t s).2.
Proof.
  intros Halloc Hws. unfold init. cbv zeta. set (s1 := _ <| sr_timeout_ms := t |>).
  assert (Hr : 0 < sr_window_size s1 <= ARQ_WINDOW).
  { unfold s1. cbn [sr_window_size update_field]. unfold ARQ_WINDOW. case_match; lia. }
  assert (E : sr_window s1 = sr_window s) by done. rewrite E.
  destruct (sr_window s) as [slots | ] eqn:Hwin; cbn [snd].
  - by eapply reset_sender_inv.
  - destruct Halloc as [-> | [? ?]]; [ cbn [snd] | done ].
    eapply reset_sender_inv; [ reflexivity | exact Hr ].
Qed.

(** The configuration fields are not part of the invariant. *)
Lemma sender_inv_frame s s' :
  sr_window s' = sr_window s → sr_window_size s' = sr_window_size s →
  sr_in_flight s' = sr_in_flight s → sr_next_seq s' = sr_next_seq s →
  sr_base_seq s' = sr_base_seq s → sr_rto_ms s' = sr_rto_ms s →
  sr_rtt_initialized s' = sr_rtt_initialized s → sender_inv s → sender_inv s'.
Proof.
  intros E1 E2 E3 E4 E5 E6 E7 (slots & [] & ?). exists slots.
  split; [ split | ]; rewrite ?E1, ?E2, ?E3, ?E4, ?E5, ?E6, ?E7; done.
Qed.

Lemma run_op_inv {W} (cb : option (SendCallback W)) o sw :
  sender_inv sw.1 → op_ok o → sender_inv (run_op cb o sw).1.
Proof.
  destruct sw as [s w]. cbn [fst]. intros Hinv Hok. pose proof Hinv as [slots Hs].
  destruct o; cbn [run_op fst] in *.
  - pose proof (send_fragment_inv cb now seq data s w Hinv Hok) as H.
    by destruct (send_fragment _ _ _ _ _ _) as [[? ?] ?].
  - by apply (handle_ack_state now seq s slots).
  - by apply (handle_nack_state cb now seq s slots w).
  - pose proof (tick_state cb now max_sends s slots w Hs) as [H _].
    by destruct (tick _ _ _ _ _) as [[? ?] ?].
  - destruct Hs as [[? [? _]] _]. by eapply reset_sender_inv.
  - destruct Hs as [[Hwin _] _]. apply init_inv; [ right; by rewrite Hwin | done ].
  - by apply (sender_inv_frame s).
  - by apply (sender_inv_frame s).
  - by apply (sender_inv_frame s).
  - by apply (sender_inv_frame s).
Qed.

Lemma run_ops_inv {W} (cb : option (SendCallback W)) ops sw :
  Forall op_ok ops → sender_inv sw.1 → sender_inv (run_ops cb ops sw).1.
Proof.
  intros Hops. revert sw. induction Hops as [ | o ops Ho _ IH ]; intros sw Hsw; [ done | ].
  cbn. apply IH. by apply run_op_inv.
Qed.

(** ** The snapshot is an insertion sort *)

Lemma aget_middle (l1 l2 : list Z) x : aget (l1 ++ x :: l2) (Z.of_nat (length l1)) = x.
Proof. unfold aget. rewrite Nat2Z.id. by rewrite list_lookup_total_middle. Qed.

Lemma aset_middle (l1 l2 : list Z) x y :
  aset (l1 ++ x :: l2) (Z.of_nat (length l1)) y = l1 ++ y :: l2.
Proof.
  unfold aset. rewrite Nat2Z.id. rewrite insert_app_r_alt by lia. by rewrite Nat.sub_diag.
Qed.

Lemma shift_right_spec fuel l1 h l2 key :
  (length l1 < fuel)%nat →
  ∃ a b, l1 = a ++ b ∧ Forall (λ x, key < x) b ∧ (∀ x, last a = Some x → x <= key) ∧
    shift_right fuel (Z.of_nat (length l1) - 1) key (l1 ++ h :: l2) = a ++ key :: b ++ l2.
Proof.
  revert fuel h l2. induction l1 as [ | y l1 IH ] using rev_ind; intros fuel h l2 Hf.
  - destruct fuel as [ | fuel ]; [ cbn in Hf; lia | ]. exists [], [].
    split_and!; [ done | constructor | done | reflexivity ].
  - rewrite length_app in Hf. cbn [length] in Hf. destruct fuel as [ | fuel ]; [ lia | ].
    rewrite length_app. cbn [length shift_right].
    replace (Z.of_nat (length l1 + 1) - 1) with (Z.of_nat (length l1)) by lia.
    replace (Z.of_nat (length l1) >=? 0) with true by lia. cbn [andb].
    rewrite <- app_assoc. cbn [app]. rewrite aget_middle.
    destruct (y >? key) eqn:E.
    + replace (Z.of_nat (length l1) + 1) with (Z.of_nat (length (l1 ++ [y])))
        by (rewrite length_app; cbn; lia).
      change (l1 ++ y :: h :: l2) with (l1 ++ [y] ++ h :: l2). rewrite app_assoc, aset_middle.
      rewrite <- app_assoc. cbn [app].
      destruct (IH fuel y (y :: l2)) as (a & b & Ha & Hb & Hl & Hs); [ lia | ].
      exists a, (b ++ [y]). rewrite Hs, Ha, <- !app_assoc. split_and!; [ done | | done | done ].
      apply Forall_app. split; [ done | ]. constructor; [ lia | constructor ].
    + exists (l1 ++ [y]), []. rewrite app_nil_r. split_and!; [ done | constructor | | ].
      * intros x. rewrite last_snoc. intros [= <-]. lia.
      * replace (Z.of_nat (length l1) + 1) with (Z.of_nat (length (l1 ++ [y])))
          by (rewrite length_app; cbn; lia).
        change (l1 ++ y :: h :: l2) with (l1 ++ [y] ++ h :: l2). by rewrite app_assoc, aset_middle.
Qed.

Lemma sorted_insert a b (key : Z) :
  StronglySorted Z.le (a ++ b) → Forall (λ x, key < x) b → (∀ x, last a = Some x → x <= key) →
  StronglySorted Z.le (a ++ key :: b).
Proof.
  induction a as [ | x a IH ]; cbn [app]; intros Hs Hb Hl.
  - constructor; [ done | ]. eapply Forall_impl; [ done | ]. cbn. lia.
  - apply StronglySorted_inv in Hs as [Hs Hx]. constructor.
    + apply IH; [ done | done | ]. intros z Hz. apply Hl. destruct a; [ done | ]. by rewrite last_cons_cons.
    + apply Forall_app in Hx as [Hxa Hxb]. apply Forall_app. split; [ done | ].
      assert (x <= key).
      { destruct a as [ | z a ]; [ by apply Hl | ]. destruct (last (z :: a)) as [m | ] eqn:E.
        - assert (m ∈ z :: a) by (by apply last_Some_elem_of). rewrite Forall_forall in Hxa.
          specialize (Hxa m H). rewrite last_cons_cons in Hl. specialize (Hl m E). lia.
        - by apply last_None in E. }
      constructor; [ done | ]. eapply Forall_impl; [ exact Hb | ]. cbn. lia.
Qed.

Lemma insertion_passes_spec n l1 l2 :
  length l2 = n → StronglySorted Z.le l1 → Z.of_nat (length (l1 ++ l2)) <= ARQ_WINDOW →
  StronglySorted Z.le (insertion_passes n (Z.of_nat (length l1)) (l1 ++ l2)) ∧
  insertion_passes n (Z.of_nat (length l1)) (l1 ++ l2) ≡ₚ l1 ++ l2.
Proof.
  revert l1 l2. induction n as [ | n IH ]; intros l1 l2 Hl Hs Hlen.
  { destruct l2; [ | done ]. rewrite app_nil_r. done. }
  destruct l2 as [ | key l2 ]; [ done | ]. cbn [insertion_passes]. rewrite aget_middle.
  unfold ARQ_WINDOW in Hlen. rewrite length_app in Hlen.
  replace (i16 (Z.of_nat (length l1)) - 1) with (Z.of_nat (length l1) - 1) by int_lia.
  destruct (shift_right_spec (S (length (l1 ++ key :: l2))) l1 key l2 key) as (a & b & -> & Hb & Ha & ->).
  { rewrite length_app. lia. }
  replace (Z.of_nat (length (a ++ b)) + 1) with (Z.of_nat (length (a ++ key :: b)))
    by (rewrite !length_app; cbn; lia).
  replace (a ++ key :: b ++ l2) with ((a ++ key :: b) ++ l2) by (by rewrite <- app_assoc).
  destruct (IH (a ++ key :: b) l2) as [H1 H2].
  - cbn in Hl. lia.
  - by apply sorted_insert.
  - unfold ARQ_WINDOW. rewrite !length_app in *. cbn in *. lia.
  - split; [ done | ]. rewrite H2, <- !app_assoc. cbn. by rewrite Permutation_middle.
Qed.

Lemma collect_pending_take slots max count :
  collect_pending slots max count =
  take (max - count) (fs_seq_tag <$> List.filter pending_slot slots).
Proof.
  revert count. induction slots as [ | sl slots IH ]; intros count; cbn; [ by rewrite take_nil | ].
  destruct (Nat.leb_spec max count).
  { by replace (max - count)%nat with O by lia. }
  destruct (pending_slot sl); cbn; rewrite IH; [ | done ].
  by replace (max - count)%nat with (S (max - S count)) by lia.
Qed.

Lemma live_tags ws slots :
  win_ok ws slots →
  fs_seq_tag <$> List.filter pending_slot (take (Z.to_nat ws) slots) = (pending_entries slots).*1.
Proof.
  intros Hw. unfold pending_entries. rewrite <- list_fmap_compose.
  transitivity (fs_seq_tag <$> List.filter fs_sent (take (Z.to_nat ws) slots)).
  - f_equal. apply filter_ext_in. intros sl [i Hi]%list_elem_of_In%list_elem_of_lookup.
    apply lookup_take_Some in Hi as [Hi _]. by apply (pending_slot_sent ws slots Hw i).
  - rewrite <- (take_drop (Z.to_nat ws) slots) at 2. rewrite List.filter_app.
    assert (List.filter fs_sent (drop (Z.to_nat ws) slots) = []) as ->; [ | by rewrite app_nil_r ].
    apply length_zero_iff_nil.
    pose proof (count_if_none fs_sent (drop (Z.to_nat ws) slots)) as H.
    unfold count_if in H. apply Nat2Z.inj. apply H. intros sl [i Hi]%list_elem_of_lookup.
    rewrite lookup_drop in Hi. destruct (fs_sent sl) eqn:E; [ | done ].
    pose proof (sent_below ws slots Hw _ _ Hi E). lia.
Qed.

Lemma sorted_strict (l : list Z) : StronglySorted Z.le l → NoDup l → StronglySorted Z.lt l.
Proof.
  induction 1 as [ | x l _ IH Hx ]; intros Hnd; [ constructor | ].
  apply NoDup_cons in Hnd as [Hn Hnd]. constructor; [ by apply IH | ].
  rewrite Forall_forall in *. intros y Hy. specialize (Hx y Hy).
  assert (x ≠ y) by (by intros ->). lia.
Qed.

(** ** Properties of the sender *)

(** C14: the sender invariant. After [init] and any sequence of sends, ACKs,
    NACKs, ticks, resets and reconfigurations, with any transport behaviour
    and any clock, every occupied slot sits at its number modulo the window
    size with 1..1462 bytes, [in_flight_] is the number of pending fragments
    and at most the window size, [base_seq_] is the least pending number (or
    [next_seq_]), and a measured RTO is between 200 and 5000 ms. *)
Theorem sender_invariant {W} (cb : option (SendCallback W)) ws timeout ops w :
  0 < ws → Forall op_ok ops →
  let s := (run_ops cb ops ((init true ws timeout sender_new).2, w)).1 in
  sender_inv s ∧ sr_in_flight s = Z.of_nat (size (pending s)) ∧
  sr_in_flight s <= sr_window_size s <= ARQ_WINDOW ∧
  (∀ q, is_Some (pending s !! q) → sr_base_seq s <= q < sr_next_seq s).
Proof.
  intros Hws Hops s.
  assert (Hinv : sender_inv s).
  { apply run_ops_inv; [ done | ]. cbn [fst]. apply init_inv; [ by left | done ]. }
  clearbody s. split; [ done | ]. destruct Hinv as (slots & [[Hwin Hw Hn _ Hbelow _] [Hb _]]).
  unfold pending. rewrite Hwin. cbn [default from_option id].
  destruct (pending_size _ _ Hw) as [Hsz Hle]. rewrite Hn.
  split; [ done | ]. split; [ destruct Hw as (? & _); lia | ].
  intros q Hq. rewrite <- elem_of_dom in Hq. split; [ by apply Hb | by apply Hbelow ].
Qed.

Lemma sender_invariant_witness :
  0 < 4 ∧ Forall op_ok [OpSend 0 0 (Some [7]); OpNack 5 0; OpTick 9 1; OpAck 10 0] ∧
  sender_inv (run_ops (Some (λ (w : unit) _ _ _ _, (0, w)))
    [OpSend 0 0 (Some [7]); OpNack 5 0; OpTick 9 1; OpAck 10 0]
    ((init true 4 1000 sender_new).2, tt)).1.
Proof.
  assert (H : Forall op_ok [OpSend 0 0 (Some [7]); OpNack 5 0; OpTick 9 1; OpAck 10 0]).
  { repeat constructor; cbn; unfold UINT16_MAX; lia. }
  split; [ lia | ]. split; [ exact H | ].
  apply (sender_invariant (Some (λ (w : unit) _ _ _ _, (0, w))) 4 1000
           [OpSend 0 0 (Some [7]); OpNack 5 0; OpTick 9 1; OpAck 10 0] tt); [ lia | exact H ].
Defined.

(** C12: [send_fragment] refines the abstract window on every branch: empty
    and oversized payloads and residues held by another fragment are
    refused with -1, a number already pending returns 0 without a second
    transmission, a transport failure rolls everything back, and a success
    adds exactly the fragment. The transport is called in the last two cases
    only, with the payload unchanged. *)
Theorem send_fragment_refines {W} (cb : option (SendCallback W)) now q d s w :
  sender_inv s → 0 <= q < UINT16_MAX →
  let call := call_send cb w (sr_peer_addr s) DATA q d in
  let '(attempted, rc, m) := arq_send (sr_window_size s) call.1 q d (pending s) in
  let '(rc', s', w') := send_fragment cb now q (Some d) s w in
  sender_inv s' ∧ rc' = rc ∧ pending s' = m ∧ w' = if attempted then call.2 else w.
Proof.
  intros [slots Hs] Hq. cbv zeta. set (call := call_send _ _ _ _ _ _).
  pose proof Hs as [Hc _]. pose proof Hc as [Hwin Hw _ _ _ _].
  rewrite (sender_state_pending _ _ Hs). unfold arq_send.
  rewrite (residue_taken_window _ _ q Hw), (pending_map_lookup _ _ q Hw). unfold pend. cbv zeta.
  destruct (_ || _) eqn:E.
  { rewrite (send_rejected cb now q d s w slots Hc) by lia. rewrite E.
    split_and!; [ by exists slots | done | by apply sender_state_pending | done ]. }
  destruct (fs_sent (aget slots (q mod sr_window_size s))) eqn:Es; cbn [andb].
  - rewrite (send_rejected cb now q d s w slots Hc) by auto. rewrite E.
    destruct (_ =? q);
      (split_and!; [ by exists slots | done | by apply sender_state_pending | done ]).
  - pose proof (send_free cb now q d s w slots Hs Es Hq ltac:(lia)) as H. cbv zeta in H.
    fold call in H. rewrite (sender_state_pending _ _ Hs) in H.
    destruct (call.1 <? 0); destruct (send_fragment _ _ _ _ _ _) as [[rc' s'] w']; naive_solver.
Qed.

Lemma send_fragment_refines_witness :
  sender_inv (init true 4 1000 sender_new).2 ∧ 0 <= 6 < UINT16_MAX ∧
  pending (send_fragment (Some (λ (w : unit) _ _ _ _, (0, w))) 10 6 (Some [1; 2])
             (init true 4 1000 sender_new).2 tt).1.2 = {[6 := [1; 2]]}.
Proof.
  assert (Hi : sender_inv (init true 4 1000 sender_new).2) by (apply init_inv; [ by left | lia ]).
  split; [ exact Hi | ]. split; [ unfold UINT16_MAX; lia | ].
  pose proof (send_fragment_refines (Some (λ (w : unit) _ _ _ _, (0, w))) 10 6 [1; 2]
    (init true 4 1000 sender_new).2 tt Hi ltac:(unfold UINT16_MAX; lia)) as H.
  revert H. cbv zeta. set (r := send_fragment _ _ _ _ _ _).
  destruct (arq_send _ _ _ _ _) as [[a rc] m] eqn:E. destruct r as [[rc' s'] w'].
  intros (_ & _ & Hp & _). cbn [fst snd]. rewrite Hp. revert E. vm_compute. congruence.
Defined.

(** C13: an ACK removes exactly the acknowledged fragment, and by Karn's rule
    only the ACK of a fragment never retransmitted feeds the RTT estimator;
    a NACK leaves the set of pending fragments alone and, when its fragment
    is pending, retransmits the very bytes that were first sent. *)
Theorem ack_nack_refine {W} (cb : option (SendCallback W)) now q s w :
  sender_inv s →
  (sender_inv (handle_ack now q s) ∧ pending (handle_ack now q s) = delete q (pending s)) ∧
  ((∀ slots, sr_window s = Some slots → 0 < fs_retries (aget slots (q mod sr_window_size s))) →
   sr_rto_ms (handle_ack now q s) = sr_rto_ms s ∧
   sr_rtt_initialized (handle_ack now q s) = sr_rtt_initialized s) ∧
  (sender_inv (handle_nack cb now q s w).1 ∧ pending (handle_nack cb now q s w).1 = pending s ∧
   (handle_nack cb now q s w).2 =
     match pending s !! q with
     | Some d => (call_send cb w (sr_peer_addr s) DATA q d).2
     | None => w
     end).
Proof.
  intros [slots Hs]. split; [ by apply (handle_ack_state now q s slots) | ].
  split; [ | by apply (handle_nack_state cb now q s slots w) ].
  intros Hr. pose proof Hs as [[Hwin Hw _ _ _ _] _]. specialize (Hr slots Hwin).
  unfold handle_ack. rewrite Hwin. cbv zeta. rewrite (window_u8 _ _ Hw).
  destruct (_ || _); [ done | ].
  replace (fs_retries _ =? 0) with false by lia. rewrite andb_false_r.
  set (s1 := put_slot _ _ _). destruct (recompute_frame s1) as [b ->].
  unfold s1. by destruct (_ && _).
Qed.

Definition demo_sender : Sender :=
  (run_ops (Some (λ (w : unit) _ _ _ _, (0, w)))
     [OpSend 0 6 (Some [1; 2]); OpSend 1 7 (Some [3]); OpNack 500 6]
     ((init true 4 1000 sender_new).2, tt)).1.

Lemma demo_sender_inv : sender_inv demo_sender.
Proof.
  apply run_ops_inv; [ repeat constructor; cbn; unfold UINT16_MAX; lia | ].
  apply init_inv; [ by left | lia ].
Qed.

Lemma ack_nack_refine_witness :
  sender_inv demo_sender ∧ pending (handle_ack 600 6 demo_sender) = {[7 := [3]]}.
Proof.
  split; [ exact demo_sender_inv | ].
  destruct (ack_nack_refine None 600 6 demo_sender tt demo_sender_inv) as [[_ ->] _].
  vm_compute. reflexivity.
Defined.

(** One [tick] sends a prefix of the due fragments in window order, each
    to the peer with its stored bytes, never more than [max_sends] successful
    retransmissions, and stops at the first failure; with budget left and no
    failure every due fragment was retransmitted. A fragment whose retries
    reached [MAX_RETRIES] is never sent again, retry counts grow by at most
    one, and the pending set is unchanged. *)
Theorem tick_budget {W} (f : SendCallback W) now max_sends s w slots :
  sender_inv s → sr_window s = Some slots → is_u8 max_sends →
  let '(n, s', w') := tick (Some (logged f)) now max_sends s (w, []) in
  sender_inv s' ∧ pending s' = pending s ∧ 0 <= n <= max_sends ∧
  n = count_if tx_ok w'.2 ∧ Z.of_nat (length w'.2) <= n + 1 ∧
  tx_message <$> w'.2 `prefix_of` due_messages now s slots ∧
  (n < max_sends → Z.of_nat (length w'.2) = n →
     tx_message <$> w'.2 = due_messages now s slots) ∧
  ∃ slots', sr_window s' = Some slots' ∧ Forall2 touched slots slots'.
Proof.
  intros [slots0 Hs] Hwin Hmax. pose proof Hs as [[Hwin0 Hw _ _ _ _] _].
  rewrite Hwin in Hwin0. injection Hwin0 as <-.
  pose proof (tick_state (Some (logged f)) now max_sends s slots (w, []) Hs) as Hst.
  revert Hst. unfold tick. rewrite Hwin. unfold live_slots. set (k := Z.to_nat (sr_window_size s)).
  pose proof (tick_loop_outcome f now max_sends s Hmax (take k slots) 0 w []) as Hloop.
  destruct (tick_loop _ _ _ _ _ _ _) as [[live n] w'].
  destruct Hloop as (new & Hlog & [Ht Hcount Hbud Hpre Hfail Hall]).
  { apply Forall_take, Forall_forall. intros sl [i Hi]%list_elem_of_lookup.
    destruct Hw as (_ & _ & Hw). destruct (Hw _ _ Hi) as (_ & ? & Hsl).
    split; [ done | ]. intros Hsent. destruct (Hsl Hsent) as (_ & ? & ? & ? & _).
    split; [ done | lia ]. }
  { int_lia. }
  assert (Hdue : due_messages now s (take k slots) = due_messages now s slots).
  { unfold due_messages. f_equal. rewrite <- (take_drop k slots) at 2. rewrite List.filter_app.
    replace (List.filter _ (drop k slots)) with (@nil FragmentSlot); [ by rewrite app_nil_r | ].
    symmetry. apply length_zero_iff_nil, Nat2Z.inj, count_if_none.
    intros sl [i Hi]%list_elem_of_lookup. rewrite lookup_drop in Hi. unfold slot_due.
    destruct (fs_sent sl) eqn:E; [ | done ].
    pose proof (sent_below _ slots Hw _ _ Hi E). lia. }
  rewrite Hdue in *. cbn [app] in Hlog. cbn [fst snd]. rewrite Hlog.
  pose proof (count_if_range tx_ok new). intros [Hi Hp].
  split_and!; [ done | done | lia | done | lia | lia | done | intros; apply Hall; lia | ].
  eexists. split; [ reflexivity | ].
  rewrite <- (take_drop k slots) at 1. apply Forall2_app; [ done | apply touched_all_refl ].
Qed.

Lemma tick_budget_witness :
  let '(n, s', w') := tick (Some (logged (λ (w : unit) _ _ _ _, (0, w)))) 5000 1 demo_sender (tt, []) in
  n = 1 ∧ pending s' = pending demo_sender.
Proof.
  destruct demo_sender_inv as (slots & [E _ _ _ _ _] & _).
  pose proof (tick_budget (λ (w : unit) _ _ _ _, (0, w)) 5000 1 demo_sender tt slots
    demo_sender_inv E ltac:(int_lia)) as H.
  assert (Hn : (tick (Some (logged (λ (w : unit) _ _ _ _, (0, w)))) 5000 1 demo_sender (tt, [])).1.1 = 1)
    by (vm_compute; reflexivity).
  destruct (tick _ _ _ _ _) as [[n s'] w']. cbn in Hn. by destruct H as (_ & ? & _).
Defined.

(** The estimator on machine integers. With samples and state below
    2^28 ms nothing wraps, the first sample sets SRTT to itself and RTTVAR to
    half of it, later ones keep SRTT between the old value and the sample
    (up to the division's rounding) and RTTVAR below the bound, and the RTO
    is SRTT + 4 RTTVAR clamped to the floor, at least 200 and at most 5000. *)
Theorem rtt_estimator_bounds rtt s M :
  0 <= rtt <= M → 0 <= sr_srtt_ms s <= M → 0 <= sr_rttvar_ms s <= M → M <= 2 ^ 28 →
  let s' := rtt_sample rtt s in
  0 <= sr_srtt_ms s' <= M ∧ 0 <= sr_rttvar_ms s' <= M ∧
  (sr_rtt_initialized s = false → sr_srtt_ms s' = rtt ∧ sr_rttvar_ms s' = rtt / 2) ∧
  (sr_rtt_initialized s = true →
     Z.min rtt (sr_srtt_ms s) <= sr_srtt_ms s' <= Z.max rtt (sr_srtt_ms s) ∧
     sr_rttvar_ms s' = (3 * sr_rttvar_ms s + Z.abs (rtt - sr_srtt_ms s)) / 4) ∧
  sr_rto_ms s' =
    Z.min RTO_MAX_MS (Z.max (sr_min_rto_floor_ms s)
      (Z.max RTO_MIN_MS (sr_srtt_ms s' + 4 * sr_rttvar_ms s'))).
Proof.
  intros Hr Hs Hv HM. change (2 ^ 28) with 268435456 in HM. cbv zeta.
  assert (Hrto : ∀ s1, 0 <= sr_srtt_ms s1 <= M → 0 <= sr_rttvar_ms s1 <= M →
    u32 (sr_srtt_ms s1 + u32 (4 * sr_rttvar_ms s1)) = sr_srtt_ms s1 + 4 * sr_rttvar_ms s1) by int_lia.
  assert (Hclamp : ∀ r fl, (let r := if r <? RTO_MIN_MS then RTO_MIN_MS else r in
     let r := if r <? fl then fl else r in if r >? RTO_MAX_MS then RTO_MAX_MS else r)
     = Z.min RTO_MAX_MS (Z.max fl (Z.max RTO_MIN_MS r))).
  { intros. cbv zeta. repeat case_match; lia. }
  cbv zeta in Hclamp. unfold rtt_sample. cbv zeta.
  set (s1 := if negb _ then _ else _).
  cbn [sr_srtt_ms sr_rttvar_ms sr_rto_ms update_field].
  assert (H1 : sr_min_rto_floor_ms s1 = sr_min_rto_floor_ms s) by (by unfold s1; case_match).
  rewrite Hclamp, H1. clear Hclamp H1.
  cut (0 <= sr_srtt_ms s1 <= M ∧ 0 <= sr_rttvar_ms s1 <= M ∧
       (sr_rtt_initialized s = false → sr_srtt_ms s1 = rtt ∧ sr_rttvar_ms s1 = rtt / 2) ∧
       (sr_rtt_initialized s = true →
         Z.min rtt (sr_srtt_ms s) <= sr_srtt_ms s1 <= Z.max rtt (sr_srtt_ms s) ∧
         sr_rttvar_ms s1 = (3 * sr_rttvar_ms s + Z.abs (rtt - sr_srtt_ms s)) / 4)).
  { intros (H1 & H2 & H3 & H4). split_and!; try done; try lia. by rewrite Hrto. }
  unfold s1. destruct (sr_rtt_initialized s); cbn [negb];
    cbn [sr_srtt_ms sr_rttvar_ms update_field].
  - replace (i32 (i32 rtt - i32 (sr_srtt_ms s))) with (rtt - sr_srtt_ms s) by int_lia.
    replace (if _ <? 0 then u32 _ else u32 _) with (Z.abs (rtt - sr_srtt_ms s))
      by (case_match; int_lia).
    rewrite (u32_small (3 * _ + _)), (u32_small (7 * _ + _)) by int_lia.
    split; [ lia | ]. split; [ lia | ]. split; [ done | ]. intros _. split; [ lia | done ].
  - split; [ lia | ]. split; [ lia | ]. done.
Qed.

Lemma rtt_estimator_bounds_witness :
  sr_rto_ms (rtt_sample 300 (init true 4 1000 sender_new).2) = 900.
Proof.
  destruct (rtt_estimator_bounds 300 (init true 4 1000 sender_new).2 1000)
    as (_ & _ & H1 & _ & H2); [ lia | cbn; lia | cbn; lia | lia | ].
  rewrite H2. destruct (H1 eq_refl) as [-> ->]. reflexivity.
Defined.

(** [snapshot_pending_sequences] with room for every pending fragment
    returns exactly the pending sequence numbers, strictly increasing. *)
Lemma snapshot_sorted s max :
  sender_inv s → 0 < max → sr_in_flight s <= max →
  StronglySorted Z.lt (snapshot_pending_sequences max s) ∧
  (∀ q, q ∈ snapshot_pending_sequences max s ↔ is_Some (pending s !! q)).
Proof.
  intros [slots Hs] Hmax Hroom. rewrite (sender_state_pending _ _ Hs).
  destruct Hs as [[Hwin Hw Hn _ _ _] _]. unfold snapshot_pending_sequences, live_slots.
  rewrite Hwin. replace (max =? 0) with false by lia. cbv zeta.
  rewrite collect_pending_take, (live_tags _ _ Hw).
  destruct (pending_size _ _ Hw) as [Hsz Hle]. rewrite Hn in Hroom.
  pose proof (win_ok_NoDup _ _ Hw) as Hnd.
  set (tags := (pending_entries slots).*1) in *.
  assert (Hlen : Z.of_nat (length tags) = count_if fs_sent slots).
  { unfold tags, pending_entries. rewrite !length_fmap. done. }
  rewrite take_ge by lia.
  assert (Hmem : ∀ q, q ∈ tags ↔ is_Some (pending_map slots !! q)).
  { intros q. unfold tags, pending_map. rewrite <- elem_of_dom, dom_list_to_map_L.
    by rewrite elem_of_list_to_set. }
  assert (Hgoal : StronglySorted Z.le (insertion_passes (length tags - 1) 1 tags) ∧
                  insertion_passes (length tags - 1) 1 tags ≡ₚ tags).
  { destruct tags as [ | t tags ]; [ split; [ constructor | reflexivity ] | ]. cbn [length]. rewrite Nat.sub_succ, Nat.sub_0_r.
    apply (insertion_passes_spec (length tags) [t] tags); [ done | repeat constructor | ].
    destruct Hw as (? & _). cbn in *. lia. }
  destruct Hgoal as [Hsort Hperm]. split.
  - apply sorted_strict; [ done | ]. by rewrite Hperm.
  - intros q. by rewrite Hperm.
Qed.
