(* ===== verification/Receiver.v ===== *)
(** * Selective-repeat receiver (components/protocol/selective_repeat.cpp)

    The receiver half of class [SelectiveRepeat]: bitmap, reassembly buffer,
    FEC recovery, in-order cursor and gap NACKs. ACKs and NACKs leave through
    the same abstract transport as in SelectiveRepeat.v. The heap's answers
    (how much is free, whether an allocation succeeds, what a fresh block
    contains) are arguments of [init_receiver]. *)

From Stdlib Require Import ZArith Lia.
From stdpp Require Import base list numbers option sets.
From S2P Require Import Prelude.
From S2P Require Import Packet.
From S2P Require Import Fec.
From S2P Require Import SelectiveRepeat.
Open Scope Z_scope.
Open Scope flp_scope.

Record Receiver := mk_receiver {
  rv_reassembly : option (list Z);
  rv_bitmap : option (list Z);
  rv_nack_sent_ms : option (list Z);
  rv_total : Z;              (* total_fragments_ *)
  rv_received : Z;           (* fragments_received_ *)
  rv_expected : Z;           (* expected_seq_ *)
  rv_fragment_size : Z;
  rv_file_size : Z;
  rv_active : bool;          (* receiver_active_ *)
  rv_fec : FecDecoder
}.
#[export] Instance eta_Receiver : Eta Receiver := fun r =>
  mk_receiver (rv_reassembly r) (rv_bitmap r) (rv_nack_sent_ms r) (rv_total r)
    (rv_received r) (rv_expected r) (rv_fragment_size r) (rv_file_size r) (rv_active r)
    (rv_fec r).

Definition receiver_new : Receiver :=
  mk_receiver None None None 0 0 0 0 0 false decoder_new.

Definition cleanup_receiver (r : Receiver) : Receiver :=
  r <| rv_reassembly := None |> <| rv_bitmap := None |> <| rv_nack_sent_ms := None |>
    <| rv_total := 0 |> <| rv_received := 0 |> <| rv_expected := 0 |> <| rv_active := false |>.

(** The heap as [init_receiver] meets it: the largest free block, the fresh
    reassembly block with its arbitrary content, the two zeroed blocks and
    the decoder's. *)
Record HeapAnswers := mk_heap_answers {
  ha_largest : Z;
  ha_reassembly : option (list Z);
  ha_bitmap : bool;
  ha_nack : bool;
  ha_fec : bool
}.

Definition init_receiver (h : HeapAnswers) (total fragment_size file_size : Z) (r : Receiver)
    : bool * Receiver :=
  let r := cleanup_receiver r in
  let r := r <| rv_total := total |> <| rv_fragment_size := fragment_size |>
             <| rv_file_size := file_size |> <| rv_received := 0 |> in
  if file_size >? ha_largest h then (false, r)
  else match ha_reassembly h with
  | None => (false, r)
  | Some buf =>
      let bitmap_bytes := (total + 7) / 8 in
      if negb (ha_bitmap h) then (false, r)
      else if negb (ha_nack h) then (false, r)
      else
        (true, r <| rv_reassembly := Some buf |>
                 <| rv_bitmap := Some (replicate (Z.to_nat bitmap_bytes) 0) |>
                 <| rv_nack_sent_ms := Some (replicate (Z.to_nat total) 0) |>
                 <| rv_expected := 0 |> <| rv_active := true |>
                 <| rv_fec ::= dec_reset (ha_fec h) |>)
  end.

Definition is_complete (r : Receiver) : bool := rv_active r && (rv_received r =? rv_total r).

(** [recv_bitmap_[idx] & mask], and setting it. *)
Definition bitmap_bit (bm : list Z) (byte_idx mask : Z) : bool :=
  negb (Z.land (aget bm byte_idx) mask =? 0).
Definition bitmap_set (bm : list Z) (byte_idx mask : Z) : list Z :=
  aset bm byte_idx (Z.lor (aget bm byte_idx) mask).
Definition bit_mask (seq : Z) : Z := Z.shiftl 1 (seq mod 8).

Definition max_data_fragments (r : Receiver) : Z :=
  if rv_fragment_size r >? 0
  then u32 (rv_file_size r + rv_fragment_size r - 1) / rv_fragment_size r else 0.

Definition data_index (seq : Z) : Z :=
  u16 (seq / (FEC_GROUP_SIZE + 1) * FEC_GROUP_SIZE + seq mod (FEC_GROUP_SIZE + 1)).

(** Copy into the reassembly buffer, clipped at the end of the file. *)
Definition store_fragment (data_idx : Z) (data : list Z) (r : Receiver) : Receiver :=
  let offset := u32 (data_idx * rv_fragment_size r) in
  let len := Z.of_nat (length data) in
  let copy_len := if offset + len >? rv_file_size r then rv_file_size r - offset else len in
  r <| rv_reassembly ::=
         fmap (fun buf => memcpy buf (Z.to_nat offset) (take (Z.to_nat copy_len) data)) |>.

Section receive.
Context {W : Type} (send_cb : option (SendCallback W)).
Context (peer_addr window_size timeout_ms : Z).

Definition send_ack (w : W) (seq : Z) : W := (call_send send_cb w peer_addr ACK seq []).2.
Definition send_nack (w : W) (seq : Z) : W := (call_send send_cb w peer_addr NACK seq []).2.

(** The block run when [fec_decoder_.ingest] reports a recovered fragment. *)
Definition accept_recovered (r : Receiver) (w : W) : Receiver * W :=
  let rec_seq := dec_recovered_seq (rv_fec r) in
  let rec_data := dec_recovered_bytes (rv_fec r) in
  if rec_seq <? rv_total r then
    let bmap_bytes := (rv_total r + 7) / 8 in
    let rbi := rec_seq / 8 in
    let rbm := bit_mask rec_seq in
    match rv_bitmap r with
    | None => (r, w)
    | Some bm =>
        if (rbi <? bmap_bytes) && negb (bitmap_bit bm rbi rbm) then
          let r := r <| rv_bitmap := Some (bitmap_set bm rbi rbm) |>
                     <| rv_received := u16 (rv_received r + 1) |> in
          let w := send_ack w rec_seq in
          let rdata_idx := data_index rec_seq in
          if rdata_idx <? max_data_fragments r then (store_fragment rdata_idx rec_data r, w)
          else (r, w)
        else (r, w)
    end
  else (r, w).

(** [while (expected_seq_ < total_fragments_)]: the byte index is a
    [uint8_t] in the source. *)
Fixpoint advance_expected (fuel : nat) (total : Z) (bm : list Z) (expected : Z) : Z :=
  match fuel with
  | O => expected
  | S fuel' =>
      if expected <? total then
        let ebi := u8 (expected / 8) in
        if negb (bitmap_bit bm ebi (bit_mask expected)) then expected
        else advance_expected fuel' total bm (u16 (expected + 1))
      else expected
  end.

(** [for (i = expected_seq_; i < nack_end; i++)], [n] iterations. *)
Fixpoint nack_gap (n : nat) (i now : Z) (bm nack_sent : list Z) (w : W) : list Z * W :=
  match n with
  | O => (nack_sent, w)
  | S n' =>
      let ni := u8 (i / 8) in
      if negb (bitmap_bit bm ni (bit_mask i)) then
        let nack_cooldown := if timeout_ms >? 1000 then timeout_ms / 3 else timeout_ms in
        if u32 (now - aget nack_sent i) >=? nack_cooldown
        then nack_gap n' (i + 1) now bm (aset nack_sent i now) (send_nack w i)
        else nack_gap n' (i + 1) now bm nack_sent w
      else nack_gap n' (i + 1) now bm nack_sent w
  end.

(** What follows the storing of a fragment: the cursor, then the gap NACKs. *)
Definition advance_and_nack (now seq : Z) (r : Receiver) (w : W) : Receiver * W :=
  match rv_bitmap r, rv_nack_sent_ms r with
  | Some bm, Some nack_sent =>
      let expected := advance_expected (Z.to_nat (rv_total r)) (rv_total r) bm (rv_expected r) in
      let r := r <| rv_expected := expected |> in
      if seq >? expected then
        let nack_end := if expected + window_size <? seq then u16 (expected + window_size)
                        else seq in
        let '(nack_sent, w) :=
          nack_gap (Z.to_nat (nack_end - expected)) expected now bm nack_sent w in
        (r <| rv_nack_sent_ms := Some nack_sent |>, w)
      else (r, w)
  | _, _ => (r, w)
  end.

Definition receive_fragment (now seq : Z) (data : list Z) (r : Receiver) (w : W)
    : bool * Receiver * W :=
  if negb (rv_active r) || (seq >=? rv_total r) then (false, r, w)
  else
    let is_parity := seq mod (FEC_GROUP_SIZE + 1) =? FEC_GROUP_SIZE in
    let '(recovered, fec) := dec_ingest seq data is_parity (rv_fec r) in
    let r := r <| rv_fec := fec |> in
    let '(r, w) := if recovered then accept_recovered r w else (r, w) in
    let bitmap_bytes := (rv_total r + 7) / 8 in
    let byte_idx := seq / 8 in
    match rv_bitmap r with
    | None => (false, r, w)
    | Some bm =>
        if byte_idx >=? bitmap_bytes then (false, r, w)
        else if bitmap_bit bm byte_idx (bit_mask seq) then (false, r, send_ack w seq)
        else
          let r := r <| rv_bitmap := Some (bitmap_set bm byte_idx (bit_mask seq)) |>
                     <| rv_received := u16 (rv_received r + 1) |> in
          let w := send_ack w seq in
          if is_parity then let '(r, w) := advance_and_nack now seq r w in (true, r, w)
          else
            let data_idx := data_index seq in
            if data_idx >=? max_data_fragments r then (false, r, w)
            else
              let r := store_fragment data_idx data r in
              let '(r, w) := advance_and_nack now seq r w in (true, r, w)
    end.
End receive.

(** ** The bitmap *)

Definition got (bm : list Z) (q : Z) : bool := bitmap_bit bm (q / 8) (bit_mask q).

Lemma land_bit x k : 0 <= k → negb (Z.land x (Z.shiftl 1 k) =? 0) = Z.testbit x k.
Proof.
  intros Hk. destruct (Z.testbit x k) eqn:E.
  - apply negb_true_iff, Z.eqb_neq. intros H.
    assert (Z.testbit (Z.land x (Z.shiftl 1 k)) k = true).
    { rewrite Z.land_spec, E, Z.shiftl_spec, Z.sub_diag by lia. done. }
    rewrite H, Z.bits_0 in H0. done.
  - apply negb_false_iff, Z.eqb_eq. apply Z.bits_inj'. intros i Hi.
    rewrite Z.land_spec, Z.bits_0, Z.shiftl_spec by done.
    destruct (decide (i = k)) as [-> | Hne]; [ by rewrite E | ].
    destruct (Z.lt_ge_cases i k).
    + by rewrite (Z.testbit_neg_r 1), andb_false_r by lia.
    + rewrite andb_comm. replace (Z.testbit 1 (i - k)) with false; [ done | ].
      symmetry. change 1 with (2 ^ 0). apply Z.pow2_bits_false. lia.
Qed.

Lemma got_testbit bm q : got bm q = Z.testbit (aget bm (q / 8)) (q mod 8).
Proof. unfold got, bitmap_bit, bit_mask. apply land_bit. lia. Qed.

Lemma got_set bm p q :
  0 <= p → 0 <= q → p / 8 < Z.of_nat (length bm) →
  got (bitmap_set bm (p / 8) (bit_mask p)) q = (q =? p) || got bm q.
Proof.
  intros Hp Hq Hlen. rewrite !got_testbit. unfold bitmap_set, bit_mask.
  destruct (Z.eq_dec (q / 8) (p / 8)) as [E | E].
  - rewrite E, aget_aset_eq by lia. rewrite Z.lor_spec, Z.shiftl_spec, orb_comm by lia. f_equal.
    destruct (q =? p) eqn:Ep.
    + apply Z.eqb_eq in Ep as ->. by rewrite Z.sub_diag.
    + apply Z.eqb_neq in Ep. destruct (Z.lt_ge_cases (q mod 8) (p mod 8)).
      * apply Z.testbit_neg_r. lia.
      * change 1 with (2 ^ 0). apply Z.pow2_bits_false. lia.
  - rewrite aget_aset_ne by lia. replace (q =? p) with false by lia. done.
Qed.

Lemma got_fresh n q : q / 8 < Z.of_nat n → 0 <= q → got (replicate n 0) q = false.
Proof.
  intros Hn Hq. rewrite got_testbit. unfold aget.
  rewrite lookup_total_replicate_2 by lia. apply Z.bits_0.
Qed.

Lemma length_bitmap_set bm i m : length (bitmap_set bm i m) = length bm.
Proof. apply length_aset. Qed.

(** Setting one bit of a range adds one to the count of set bits. *)
Lemma count_if_add (f : Z → bool) l p :
  NoDup l → p ∈ l → f p = false →
  count_if (λ q, (q =? p) || f q) l = count_if f l + 1.
Proof.
  intros Hnd Hin Hf. induction Hnd as [ | x l Hx _ IH ]; [ by apply elem_of_nil in Hin | ].
  rewrite !count_if_cons. apply elem_of_cons in Hin as [-> | Hin].
  - rewrite Z.eqb_refl, Hf. cbn.
    replace (count_if (λ q, (q =? x) || f q) l) with (count_if f l); [ lia | ].
    unfold count_if. do 2 f_equal. apply filter_ext_in. intros y Hy.
    apply list_elem_of_In in Hy. replace (y =? x) with false; [ done | ].
    symmetry. apply Z.eqb_neq. by intros ->.
  - rewrite IH by done. replace (x =? p) with false; [ cbn; lia | ].
    symmetry. apply Z.eqb_neq. by intros ->.
Qed.

Lemma count_if_full {A} (p : A → bool) l :
  count_if p l = Z.of_nat (length l) ↔ ∀ x, x ∈ l → p x = true.
Proof.
  induction l as [ | x l IH ].
  - split; [ intros _ y Hy; by apply elem_of_nil in Hy | done ].
  - rewrite count_if_cons. cbn [length]. pose proof (count_if_range p l). split.
    + intros Hc. assert (p x = true) as Hx by (destruct (p x); cbn in *; [ done | lia ]).
      rewrite Hx in Hc. cbn in Hc. intros y [-> | Hy]%elem_of_cons; [ done | ].
      apply IH; [ lia | done ].
    + intros Hall. rewrite (Hall x) by left. cbn. apply Z.eq_sym.
      rewrite (proj2 IH); [ lia | ]. intros y Hy. apply Hall. by right.
Qed.

(** ** A transfer session

    The sender's layout of [file] in fragments of [fs] bytes: seven data
    fragments and their parity per full group, a last incomplete group
    without parity. *)

Definition data_fragments (file : list Z) (fs : Z) : Z := (Z.of_nat (length file) + fs - 1) / fs.
Definition session_total (file : list Z) (fs : Z) : Z :=
  data_fragments file fs / 7 * 8 + data_fragments file fs mod 7.
Definition slice (file : list Z) (fs di : Z) : list Z :=
  take (Z.to_nat fs) (drop (Z.to_nat (di * fs)) file).
Definition group_slices (file : list Z) (fs G : Z) : list (list Z) :=
  (λ k, slice file fs (G * 7 + Z.of_nat k)) <$> seq 0 7.
Definition session_payload (file : list Z) (fs q : Z) : option (list Z) :=
  if (0 <=? q) && (q <? session_total file fs) then
    if q mod 8 =? 7 then
      Some (parity_of (group_slices file fs (q / 8)))
    else Some (slice file fs (q / 8 * 7 + q mod 8))
  else None.

Section session.
Context (file : list Z) (fs : Z).
Context (Hfs : 0 < fs <= MAX_MTU) (Hsize : Z.of_nat (length file) + fs < 4294967296).
Context (Htotal : session_total file fs < 65536).
Notation size := (Z.of_nat (length file)).
Notation total := (session_total file fs).
Notation pay := (session_payload file fs).
Notation nfrag := (data_fragments file fs).

Lemma data_fragments_spec : 0 <= nfrag ∧ size <= nfrag * fs < size + fs.
Proof. unfold data_fragments. split; [ apply Z.div_pos; lia | ]. nia. Qed.

Lemma total_range : 0 <= total < 65536.
Proof. pose proof data_fragments_spec. unfold session_total in *. lia. Qed.

Lemma slice_length di :
  0 <= di < nfrag →
  Z.of_nat (length (slice file fs di)) = Z.min fs (size - di * fs) ∧ di * fs < size.
Proof.
  intros Hdi. pose proof data_fragments_spec. assert (di * fs < size) by nia.
  unfold slice. rewrite length_take, length_drop. split; [ | done ]. nia.
Qed.

Lemma slice_lookup di (j : nat) :
  0 <= di → (j < length (slice file fs di))%nat →
  slice file fs di !! j = file !! (Z.to_nat (di * fs) + j)%nat.
Proof.
  intros Hdi Hj. unfold slice in *. rewrite length_take in Hj.
  rewrite lookup_take_lt by lia. by rewrite lookup_drop.
Qed.

Lemma slice_fits di : fits (slice file fs di).
Proof. unfold fits, slice. rewrite length_take. lia. Qed.

Lemma group_slices_fit G : Forall fits (group_slices file fs G).
Proof. apply Forall_fmap, Forall_forall. intros. apply slice_fits. Qed.

(** The data fragment with a given number, and the number of a fragment. *)
Lemma session_data q d :
  pay q = Some d → q mod 8 < 7 →
  0 <= q < total ∧ data_index q = q / 8 * 7 + q mod 8 ∧ 0 <= data_index q < nfrag ∧
  d = slice file fs (data_index q).
Proof.
  pose proof total_range. unfold session_payload.
  destruct (_ && _) eqn:E; [ | done ]. destruct (q mod 8 =? 7) eqn:E7; [ lia | ].
  intros [= <-] Hq.
  assert (Hdi : data_index q = q / 8 * 7 + q mod 8).
  { unfold data_index, FEC_GROUP_SIZE. int_lia. }
  rewrite Hdi. unfold session_total in *. split; [ lia | ]. split; [ done | ].
  split; [ lia | done ].
Qed.

Lemma session_fits q d : pay q = Some d → fits d.
Proof.
  unfold session_payload. destruct (_ && _); [ | done ].
  destruct (_ =? 7); intros [= <-]; [ | apply slice_fits ].
  pose proof (group_slices_fit (q / 8)) as Hf.
  unfold fits. rewrite (proj1 (parity_of_spec _ Hf)). by apply max_len_bound.
Qed.

Lemma session_coherent : fec_coherent pay.
Proof.
  intros G p HG. unfold session_payload at 1. destruct (_ && _) eqn:E; [ | done ].
  replace ((8 * G + 7) mod 8 =? 7) with true by lia. intros [= <-].
  replace ((8 * G + 7) / 8) with G by lia. exists (group_slices file fs G).
  split; [ by unfold group_slices; rewrite length_fmap | ].
  split; [ apply group_slices_fit | ]. split; [ done | ].
  intros k d Hk. unfold group_slices in Hk. rewrite list_lookup_fmap in Hk.
  destruct (seq 0 7 !! k) as [k' | ] eqn:Ek; [ | done ].
  apply lookup_seq in Ek as [-> Hlt]. cbn in Hk. injection Hk as <-.
  unfold session_payload. replace ((0 <=? _) && _) with true by lia.
  replace ((8 * G + Z.of_nat k) mod 8 =? 7) with false by lia. do 2 f_equal. lia.
Qed.

(** A parity fragment is no longer than the fragment size. *)
Lemma session_parity_length q par :
  pay q = Some par → q mod 8 = 7 → Z.of_nat (length par) <= fs.
Proof.
  unfold session_payload. destruct (_ && _); [ | done ].
  destruct (q mod 8 =? 7) eqn:E; [ intros [= <-] _ | lia ].
  rewrite (proj1 (parity_of_spec _ (group_slices_fit (q / 8)))). apply max_len_bound; [ lia | ].
  apply Forall_fmap, Forall_forall. intros k _. cbn. unfold slice. rewrite length_take. lia.
Qed.

(** *** The session invariant *)

Record session_state (buf bm nk : list Z) (r : Receiver) : Prop := {
  st_active : rv_active r = true;
  st_buf : rv_reassembly r = Some buf;
  st_bm : rv_bitmap r = Some bm;
  st_nk : rv_nack_sent_ms r = Some nk;
  st_total : rv_total r = total;
  st_fs : rv_fragment_size r = fs;
  st_size : rv_file_size r = size;
  st_len_buf : length buf = length file;
  st_len_bm : Z.of_nat (length bm) = (total + 7) / 8;
  st_len_nk : Z.of_nat (length nk) = total;
  st_received : rv_received r = count_if (got bm) (seqZ 0 total);
  st_fec : decoder_ok pay (rv_fec r);
  st_data : ∀ q (j : nat), 0 <= q < total → q mod 8 < 7 → got bm q = true →
    data_index q * fs <= Z.of_nat j < (data_index q + 1) * fs → buf !! j = file !! j
}.
Definition session_inv (r : Receiver) : Prop := ∃ buf bm nk, session_state buf bm nk r.

(** The bit of a fragment of this session, as read off the state. *)
Definition has_fragment (r : Receiver) (q : Z) : bool :=
  match rv_bitmap r with Some bm => got bm q | None => false end.

(** Copying a fragment's own bytes to its own place makes the buffer agree
    with the file there and changes nothing else. *)
Lemma store_slice buf di data r :
  rv_reassembly r = Some buf → rv_fragment_size r = fs → rv_file_size r = size →
  length buf = length file → 0 <= di < nfrag →
  (∃ n, (length (slice file fs di) <= n)%nat ∧ Z.of_nat n <= fs ∧
        data = resize n 0 (slice file fs di)) →
  ∃ buf', store_fragment di data r = r <| rv_reassembly := Some buf' |> ∧
    length buf' = length file ∧
    ∀ j : nat, buf' !! j = buf !! j ∧ ¬ (di * fs <= Z.of_nat j < (di + 1) * fs)
               ∨ buf' !! j = file !! j.
Proof.
  intros Hbuf Hf Hs Hlen Hdi (n & Hn & Hnf & ->).
  destruct (slice_length di Hdi) as [Hsl Hlt]. pose proof data_fragments_spec.
  assert (Hoff : u32 (di * fs) = di * fs) by (apply u32_small; unfold is_u32; nia).
  unfold store_fragment. rewrite Hf, Hs, Hoff, length_resize.
  set (c := if _ >? size then _ else _).
  assert (Hc : take (Z.to_nat c) (resize n 0 (slice file fs di)) = slice file fs di).
  { rewrite take_resize_le by (unfold c; case_match; lia).
    replace (Z.to_nat c) with (length (slice file fs di)) by (unfold c; case_match; lia).
    by rewrite resize_all. }
  rewrite Hc. set (off := Z.to_nat (di * fs)).
  eexists. split; [ unfold update_field; cbv beta; by rewrite Hbuf | ].
  assert (Hfit : (off + length (slice file fs di) <= length buf)%nat) by (unfold off; lia).
  split; [ by rewrite length_memcpy | ]. intros j.
  destruct (decide (off <= j < off + length (slice file fs di))%nat) as [Hj | Hj].
  - right. rewrite lookup_memcpy_in by lia. rewrite slice_lookup by lia. f_equal. fold off. lia.
  - rewrite lookup_memcpy_out by lia.
    destruct (decide (di * fs <= Z.of_nat j < (di + 1) * fs)) as [Hr | Hr].
    + right. rewrite !lookup_ge_None_2; [ done | | ]; unfold off in *; nia.
    + left. done.
Qed.

Lemma session_mark_count bm p :
  Z.of_nat (length bm) = (total + 7) / 8 → 0 <= p < total → got bm p = false →
  count_if (got (bitmap_set bm (p / 8) (bit_mask p))) (seqZ 0 total) =
  count_if (got bm) (seqZ 0 total) + 1.
Proof.
  intros Hlen Hp Hg.
  rewrite <- (count_if_add (got bm) (seqZ 0 total) p);
    [ | apply NoDup_seqZ | apply elem_of_seqZ; lia | done ].
  unfold count_if. do 2 f_equal. apply filter_ext_in. intros q Hq.
  apply list_elem_of_In, elem_of_seqZ in Hq. apply got_set; lia.
Qed.

Lemma session_count_bound bm p :
  0 <= p < total → got bm p = false → count_if (got bm) (seqZ 0 total) < total.
Proof.
  intros Hp Hg. pose proof (count_if_range (got bm) (seqZ 0 total)) as Hr.
  rewrite length_seqZ in Hr.
  destruct (decide (count_if (got bm) (seqZ 0 total) = total)) as [E | ]; [ | lia ].
  assert (got bm p = true) as Ht; [ | congruence ].
  apply (proj1 (count_if_full (got bm) (seqZ 0 total))); [ rewrite length_seqZ; lia | apply elem_of_seqZ; lia ].
Qed.

(** Marking a fragment received; a data fragment must also be stored. *)
Lemma session_mark buf bm nk r p :
  session_state buf bm nk r → 0 <= p < total → got bm p = false →
  let r1 := r <| rv_bitmap := Some (bitmap_set bm (p / 8) (bit_mask p)) |>
              <| rv_received := u16 (rv_received r + 1) |> in
  (p mod 8 = 7 → session_state buf (bitmap_set bm (p / 8) (bit_mask p)) nk r1) ∧
  (∀ d data, pay p = Some d → p mod 8 < 7 →
     (∃ n, (length d <= n)%nat ∧ Z.of_nat n <= fs ∧ data = resize n 0 d) →
     ∃ buf', session_state buf' (bitmap_set bm (p / 8) (bit_mask p)) nk
               (store_fragment (data_index p) data r1)).
Proof.
  intros [] Hp Hg r1. pose proof total_range.
  pose proof (session_count_bound bm p Hp Hg).
  pose proof (session_mark_count bm p st_len_bm0 Hp Hg) as Hcount.
  assert (Hrec : u16 (rv_received r + 1) = rv_received r + 1).
  { pose proof (count_if_range (got bm) (seqZ 0 total)). int_lia. }
  assert (Hset : ∀ q, 0 <= q → got (bitmap_set bm (p / 8) (bit_mask p)) q = (q =? p) || got bm q).
  { intros. apply got_set; lia. }
  split.
  - intros H7. unfold r1. split; cbn; rewrite ?length_bitmap_set, ?Hcount, ?Hrec; try done; [ lia | ].
    intros q j Hq Hq7. rewrite Hset by lia. replace (q =? p) with false by lia. by apply st_data0.
  - intros d data Hd H7 Hdata. destruct (session_data p d Hd H7) as (_ & _ & Hdi & ->).
    destruct (store_slice buf (data_index p) data r1) as (buf' & -> & Hlen & Hj); try done.
    exists buf'. unfold r1. split; cbn; rewrite ?length_bitmap_set, ?Hcount, ?Hrec; try done; [ lia | ].
    intros q j Hq Hq7. rewrite Hset by lia. destruct (Hj j) as [[-> Hout] | ->]; [ | done ].
    destruct (Z.eqb_spec q p) as [-> | _]; [ done | ]. by apply st_data0.
Qed.

Lemma length_nack_gap {W} (cb : option (SendCallback W)) peer timeout n i now bm nk w :
  length (nack_gap cb peer timeout n i now bm nk w).1 = length nk.
Proof.
  revert i nk w. induction n as [ | n IH ]; intros i nk w; [ done | ]. cbn [nack_gap]. cbv zeta.
  destruct (negb _); [ | apply IH ].
  destruct (_ >=? _); [ | apply IH ]. by rewrite IH, length_aset.
Qed.

Lemma advance_and_nack_state {W} (cb : option (SendCallback W)) peer ws timeout now seq buf bm nk r w :
  session_state buf bm nk r →
  ∃ nk', session_state buf bm nk' (advance_and_nack cb peer ws timeout now seq r w).1.
Proof.
  intros []. unfold advance_and_nack. rewrite st_bm0, st_nk0. cbv zeta.
  set (e := advance_expected _ _ _ _). destruct (seq >? e).
  - set (n := Z.to_nat _). pose proof (length_nack_gap cb peer timeout n e now bm nk w) as Hl.
    destruct (nack_gap _ _ _ _ _ _ _ _ _) as [nk' w']. cbn in *. exists nk'.
    split; cbn; try done. by rewrite Hl.
  - exists nk. by split.
Qed.

(** The FEC recovery branch: the rebuilt fragment is stored and marked. *)
Lemma accept_recovered_state {W} (cb : option (SendCallback W)) peer buf bm nk r w :
  session_state buf bm nk r → recovery_ok pay (rv_fec r) →
  ∃ buf' bm', session_state buf' bm' nk (accept_recovered cb peer r w).1 ∧
    (∀ q, 0 <= q < total → got bm q = true → got bm' q = true).
Proof.
  intros Hst (q & orig & par & Hq & Hq0 & Hq7 & Horig & Hpar & Hle & _ & Hbytes).
  pose proof Hst as [_ _ Hbm _ Ht _ _ _ Hlbm _ _ _ _]. pose proof total_range.
  destruct (session_data q orig Horig Hq7) as (Hqt & _ & Hdi & _).
  pose proof (session_parity_length _ _ Hpar ltac:(lia)) as Hpl.
  unfold accept_recovered. rewrite Hq, Hbytes, Ht, Hbm, u16_small by int_lia.
  replace (q <? total) with true by lia. cbv zeta.
  replace (q / 8 <? (total + 7) / 8) with true by lia. cbn [andb]. fold (got bm q).
  destruct (got bm q) eqn:Hg; cbn [negb]; [ by exists buf, bm | ].
  destruct (session_mark buf bm nk r q Hst Hqt Hg) as [_ Hdata].
  set (r1 := _ <| rv_received := _ |>) in *.
  assert (Hmax : max_data_fragments r1 = nfrag).
  { unfold max_data_fragments, data_fragments. change (rv_fragment_size r1) with (rv_fragment_size r).
    change (rv_file_size r1) with (rv_file_size r). destruct Hst as [_ _ _ _ _ -> -> _ _ _ _ _ _].
    replace (fs >? 0) with true by lia. rewrite u32_small by int_lia. done. }
  rewrite Hmax. replace (data_index q <? nfrag) with true by lia. cbn [fst].
  destruct (Hdata orig (resize (length par) 0 orig) Horig Hq7) as [buf' Hst'].
  { exists (length par). split_and!; [ done | done | done ]. }
  exists buf', (bitmap_set bm (q / 8) (bit_mask q)). split; [ done | ].
  intros x Hx Hgx. rewrite got_set by lia. by rewrite Hgx, orb_true_r.
Qed.

(** One genuine delivery: the session invariant is kept, the fragment is
    marked, and no mark is lost. *)
Definition delivered (r r' : Receiver) (q : Z) : Prop :=
  session_inv r' ∧ has_fragment r' q = true ∧
  ∀ x, 0 <= x < total → has_fragment r x = true → has_fragment r' x = true.

(** The decoder's part: what it recovers is stored before the fragment is. *)
Lemma fec_phase {W} (cb : option (SendCallback W)) peer buf bm nk q d r w b fec :
  session_state buf bm nk r → pay q = Some d → 0 <= q < total →
  dec_ingest q d (q mod 8 =? 7) (rv_fec r) = (b, fec) →
  let r0 := r <| rv_fec := fec |> in
  ∃ buf1 bm1 w1 r1, (if b then accept_recovered cb peer r0 w else (r0, w)) = (r1, w1) ∧
    session_state buf1 bm1 nk r1 ∧ (∀ x, 0 <= x < total → got bm x = true → got bm1 x = true).
Proof.
  intros Hst Hd Hqt Ei r0. pose proof Hst as [_ _ _ _ _ _ _ _ _ _ _ Hfec _]. pose proof total_range.
  destruct (dec_ingest_ok pay q d (rv_fec r) b fec session_coherent Hfec ltac:(int_lia)
              (session_fits _ _ Hd) Hd Ei) as [Hfec' Hrec].
  assert (Hst1 : session_state buf bm nk r0) by (destruct Hst; by split).
  destruct b; [ | by exists buf, bm, w, r0 ].
  destruct (accept_recovered_state cb peer buf bm nk r0 w Hst1 (Hrec eq_refl)) as (buf1 & bm1 & ? & ?).
  destruct (accept_recovered _ _ _ _) as [r1 w1]. by exists buf1, bm1, w1, r1.
Qed.

Lemma max_data_session buf bm nk r : session_state buf bm nk r → max_data_fragments r = nfrag.
Proof.
  intros Hst. unfold max_data_fragments, data_fragments.
  pose proof Hst as [_ _ _ _ _ Hf Hs _ _ _ _ _ _]. rewrite Hf, Hs.
  replace (fs >? 0) with true by lia. rewrite u32_small by int_lia. done.
Qed.

(** The bit of [q] is set, the others stay. *)
Lemma set_bit_grows bm q :
  Z.of_nat (length bm) = (total + 7) / 8 → 0 <= q < total →
  let bm' := bitmap_set bm (q / 8) (bit_mask q) in
  got bm' q = true ∧ ∀ x, 0 <= x < total → got bm x = true → got bm' x = true.
Proof.
  intros Hlen Hq. cbv zeta. assert (Hset : ∀ x, 0 <= x < total →
    got (bitmap_set bm (q / 8) (bit_mask q)) x = (x =? q) || got bm x) by (intros; apply got_set; lia).
  split; [ by rewrite Hset, Z.eqb_refl by lia | ].
  intros x Hx Hgx. rewrite Hset by done. by rewrite Hgx, orb_true_r.
Qed.

Lemma receive_fragment_state {W} (cb : option (SendCallback W)) peer ws timeout now q d r w :
  session_inv r → pay q = Some d →
  delivered r (receive_fragment cb peer ws timeout now q d r w).1.2 q.
Proof.
  intros (buf & bm & nk & Hst) Hd. pose proof Hst as [Ha _ Hbm _ Ht _ _ _ _ _ _ _ _].
  assert (Hqt : 0 <= q < total).
  { unfold session_payload in Hd. destruct (_ && _) eqn:E; [ lia | done ]. }
  pose proof total_range. unfold receive_fragment. rewrite Ha, Ht.
  replace (q >=? total) with false by lia. cbn [negb orb].
  change (FEC_GROUP_SIZE + 1) with 8. change FEC_GROUP_SIZE with 7 at 1 2.
  destruct (dec_ingest q d (q mod 8 =? 7) (rv_fec r)) as [b fec] eqn:Ei.
  destruct (fec_phase cb peer buf bm nk q d r w b fec Hst Hd Hqt Ei)
    as (buf1 & bm1 & w1 & r1 & -> & Hst2 & Hmono).
  pose proof Hst2 as [_ _ Hbm1 _ Ht1 _ _ _ Hlbm1 _ _ _ _]. cbv zeta. rewrite Hbm1, Ht1.
  replace (q / 8 >=? (total + 7) / 8) with false by lia. fold (got bm1 q).
  assert (Hdone : ∀ buf2 bm2 r2 w2,
    session_state buf2 bm2 nk r2 → got bm2 q = true →
    (∀ x, 0 <= x < total → got bm1 x = true → got bm2 x = true) →
    delivered r (advance_and_nack cb peer ws timeout now q r2 w2).1 q).
  { intros buf2 bm2 r2 w2 H2 Hgq Hm.
    destruct (advance_and_nack_state cb peer ws timeout now q buf2 bm2 nk r2 w2 H2) as [nk2 H3].
    unfold delivered, has_fragment. rewrite (st_bm _ _ _ _ H3), Hbm. split; [ by exists buf2, bm2, nk2 | auto ]. }
  destruct (got bm1 q) eqn:Hg.
  { cbn [fst snd]. unfold delivered, has_fragment. rewrite Hbm1, Hbm. split; [ by exists buf1, bm1, nk | auto ]. }
  destruct (session_mark buf1 bm1 nk r1 q Hst2 Hqt Hg) as [Hpar Hdata].
  destruct (set_bit_grows bm1 q Hlbm1 Hqt) as [Hsq Hsx].
  destruct (Z.eqb_spec (q mod 8) 7) as [E7 | E7].
  - specialize (Hdone _ _ _ (send_ack cb peer w1 q) (Hpar E7) Hsq Hsx).
    by destruct (advance_and_nack _ _ _ _ _ _ _ _) as [r' w'].
  - destruct (session_data q d Hd ltac:(lia)) as (_ & _ & Hdi & ->).
    set (r2 := _ <| rv_received := _ |>) in *.
    change (max_data_fragments r2) with (max_data_fragments r1). rewrite (max_data_session _ _ _ _ Hst2).
    replace (data_index q >=? nfrag) with false by lia.
    destruct (Hdata _ (slice file fs (data_index q)) Hd ltac:(lia)) as [buf2 Hst3].
    { exists (length (slice file fs (data_index q))). destruct (slice_length _ Hdi).
      split_and!; [ done | lia | by rewrite resize_all ]. }
    specialize (Hdone _ _ _ (send_ack cb peer w1 q) Hst3 Hsq Hsx).
    by destruct (advance_and_nack _ _ _ _ _ _ _ _) as [r' w'].
Qed.
End session.

(** ** Properties of the receiver *)

Fixpoint receive_all {W} (cb : option (SendCallback W)) (peer ws timeout : Z)
    (deliveries : list (Z * Z * list Z)) (r : Receiver) (w : W) : Receiver * W :=
  match deliveries with
  | [] => (r, w)
  | (now, q, d) :: ds =>
      let '(_, r', w') := receive_fragment cb peer ws timeout now q d r w in
      receive_all cb peer ws timeout ds r' w'
  end.

(** Deliveries of fragments the sender of [file] really sent. *)
Definition genuine (file : list Z) (fs : Z) (deliveries : list (Z * Z * list Z)) : Prop :=
  Forall (λ '(_, q, d), session_payload file fs q = Some d) deliveries.

Lemma init_receiver_session file fs h r0 r1 buf :
  0 < fs <= MAX_MTU → session_total file fs < 65536 → Z.of_nat (length file) + fs < 4294967296 →
  ha_reassembly h = Some buf → length buf = length file →
  init_receiver h (session_total file fs) fs (Z.of_nat (length file)) r0 = (true, r1) →
  decoder_ok (session_payload file fs) (rv_fec r0) → session_inv file fs r1.
Proof.
  intros Hfs Ht Hs Hbuf Hlen. unfold init_receiver. cbv zeta. rewrite Hbuf.
  pose proof (total_range file fs Hfs Hs Ht) as Hr.
  destruct (_ >? _); [ done | ]. destruct (ha_bitmap h); [ | done ]. destruct (ha_nack h); [ | done ].
  cbn [negb]. intros [= <-] Hfec.
  eexists buf, (replicate _ 0), (replicate _ 0). split; try reflexivity; try done.
  - rewrite length_replicate. lia.
  - rewrite length_replicate. lia.
  - cbn [rv_received update_field]. rewrite count_if_none; [ done | ].
    intros q Hq. apply elem_of_seqZ in Hq. apply got_fresh; lia.
  - apply dec_reset_ok. exact Hfec.
  - intros q j Hq _. rewrite got_fresh by lia. done.
Qed.

Lemma receive_all_session {W} (cb : option (SendCallback W)) peer ws timeout file fs ds r w :
  0 < fs <= MAX_MTU → session_total file fs < 65536 → Z.of_nat (length file) + fs < 4294967296 →
  session_inv file fs r → genuine file fs ds →
  session_inv file fs (receive_all cb peer ws timeout ds r w).1 ∧
  ∀ q, 0 <= q < session_total file fs →
    has_fragment r q = true ∨ (∃ now d, (now, q, d) ∈ ds) →
    has_fragment (receive_all cb peer ws timeout ds r w).1 q = true.
Proof.
  intros Hfs Ht Hs Hinv Hg. revert r w Hinv.
  induction Hg as [ | [[now p] d] ds Hp _ IH ]; intros r w Hinv; cbn [receive_all].
  { split; [ done | ]. intros q _ [? | (now & d & Hin)]; [ done | by apply elem_of_nil in Hin ]. }
  pose proof (receive_fragment_state file fs Hfs Hs Ht cb peer ws timeout now p d r w Hinv Hp)
    as (Hinv' & Hmark & Hmono).
  destruct (receive_fragment _ _ _ _ _ _ _ _ _) as [[b r'] w']. cbn [fst snd] in *.
  destruct (IH r' w' Hinv') as [IH1 IH2]. split; [ done | ].
  intros q Hq [Hh | (now' & d' & [[= <- <- <-] | Hin]%elem_of_cons)]; apply IH2; eauto.
Qed.

(** The set bits cover the session exactly when the receiver is complete. *)
Lemma session_complete file fs r :
  0 < fs <= MAX_MTU → session_total file fs < 65536 → Z.of_nat (length file) + fs < 4294967296 →
  session_inv file fs r →
  is_complete r = true ↔ ∀ q, 0 <= q < session_total file fs → has_fragment r q = true.
Proof.
  intros Hfs Ht Hs (buf & bm & nk & []). pose proof (total_range file fs Hfs Hs Ht).
  unfold is_complete, has_fragment. rewrite st_active0, st_received0, st_total0, st_bm0.
  cbn [andb]. rewrite Z.eqb_eq.
  pose proof (count_if_full (got bm) (seqZ 0 (session_total file fs))) as Hfull.
  rewrite length_seqZ, Z2Nat.id in Hfull by lia. rewrite Hfull.
  setoid_rewrite elem_of_seqZ. split; intros H' q Hq; apply H'; lia.
Qed.

Lemma session_buffer file fs r :
  0 < fs <= MAX_MTU → session_total file fs < 65536 → Z.of_nat (length file) + fs < 4294967296 →
  session_inv file fs r → is_complete r = true → rv_reassembly r = Some file.
Proof.
  intros Hfs Ht Hs Hinv Hc. pose proof (proj1 (session_complete file fs r Hfs Ht Hs Hinv) Hc) as Hall.
  destruct Hinv as (buf & bm & nk & []). rewrite st_buf0. f_equal. apply list_eq. intros j.
  destruct (decide (j < length file)%nat) as [Hj | Hj].
  2: { rewrite !lookup_ge_None_2 by lia. done. }
  pose proof (data_fragments_spec file fs Hfs Hs) as Hn.
  set (di := Z.of_nat j / fs). assert (Hdi : 0 <= di < data_fragments file fs) by (unfold di; nia).
  set (q := di / 7 * 8 + di mod 7).
  assert (Hq : 0 <= q < session_total file fs) by (unfold q, session_total; lia).
  apply (st_data0 q); [ done | unfold q; lia | | ].
  - specialize (Hall q Hq). unfold has_fragment in Hall. by rewrite st_bm0 in Hall.
  - replace (data_index q) with di; [ unfold di; nia | ].
    unfold data_index, FEC_GROUP_SIZE, q, session_total in *. int_lia.
Qed.

(** C3: a completed transfer delivers the file. From a successful
    [init_receiver] for the sender's layout of [file], deliver genuine
    fragments in any order, with any losses and duplicates, through any
    transport and clock: the count of received fragments is the number of
    distinct fragments held, [is_complete] holds exactly when every fragment
    was delivered or rebuilt by the FEC, and then the reassembly buffer is
    the file, byte for byte. *)
Theorem transfer_integrity {W} (cb : option (SendCallback W)) peer ws timeout file fs h buf r1 ds w :
  0 < fs <= MAX_MTU → session_total file fs < 65536 → Z.of_nat (length file) + fs < 4294967296 →
  ha_reassembly h = Some buf → length buf = length file →
  init_receiver h (session_total file fs) fs (Z.of_nat (length file)) receiver_new = (true, r1) →
  genuine file fs ds →
  let r := (receive_all cb peer ws timeout ds r1 w).1 in
  (is_complete r = true → rv_reassembly r = Some file) ∧
  (is_complete r = true ↔ ∀ q, 0 <= q < session_total file fs → has_fragment r q = true) ∧
  ((∀ q, 0 <= q < session_total file fs → ∃ now d, (now, q, d) ∈ ds) → is_complete r = true).
Proof.
  intros Hfs Ht Hs Hb Hl Hinit Hg r.
  pose proof (init_receiver_session file fs h receiver_new r1 buf Hfs Ht Hs Hb Hl Hinit
                (decoder_new_ok _)) as Hinv1.
  destruct (receive_all_session cb peer ws timeout file fs ds r1 w Hfs Ht Hs Hinv1 Hg) as [Hinv Hmark].
  fold r in Hinv, Hmark. pose proof (session_complete file fs r Hfs Ht Hs Hinv) as Hc.
  split; [ by apply (session_buffer file fs r Hfs Ht Hs Hinv) | ]. split; [ done | ].
  intros Hall. apply Hc. intros q Hq. apply Hmark; [ done | right; by apply Hall ].
Qed.

(** Nine one-byte fragments: a full group with its parity, then two more.
    Fragment 3 is lost and rebuilt. *)
Definition demo_file : list Z := [11; 22; 33; 44; 55; 66; 77; 88; 99].
Definition demo_heap : HeapAnswers := mk_heap_answers 4096 (Some (replicate 9 170)) true true true.
Definition demo_deliveries : list (Z * Z * list Z) :=
  (λ q, (q, q, default [] (session_payload demo_file 1 q))) <$> [9; 0; 2; 1; 7; 4; 4; 6; 5; 8].

Lemma transfer_integrity_witness :
  ∃ r1, init_receiver demo_heap 10 1 9 receiver_new = (true, r1) ∧
  rv_reassembly (receive_all (W:=unit) None 1 16 1000 demo_deliveries r1 tt).1 = Some demo_file.
Proof.
  eexists. split; [ reflexivity | ].
  apply (transfer_integrity None 1 16 1000 demo_file 1 demo_heap (replicate 9 170));
    [ unfold MAX_MTU; lia | reflexivity | reflexivity | reflexivity | reflexivity | reflexivity | | ].
  - unfold genuine, demo_deliveries. cbn [fmap list_fmap].
    repeat (apply Forall_cons_2; [ vm_compute; reflexivity | ]). apply Forall_nil_2.
  - vm_compute. reflexivity.
Defined.

(** *** The in-order cursor and the gap NACKs *)

Lemma advance_expected_spec fuel total bm e :
  total <= 2048 → 0 <= e <= total → (Z.to_nat (total - e) <= fuel)%nat →
  let e' := advance_expected fuel total bm e in
  e <= e' <= total ∧ (∀ q, e <= q < e' → got bm q = true) ∧ (e' < total → got bm e' = false).
Proof.
  intros Ht. revert e. induction fuel as [ | fuel IH ]; intros e He Hf; cbn [advance_expected].
  { split; [ lia | ]. split; [ intros; lia | lia ]. }
  destruct (e <? total) eqn:E; [ | split; [ lia | split; [ intros; lia | lia ] ] ].
  rewrite u8_small by int_lia. fold (got bm e). destruct (got bm e) eqn:Hg; cbn [negb].
  - rewrite u16_small by int_lia. destruct (IH (e + 1)) as (H1 & H2 & H3); [ lia | lia | ].
    cbv zeta in *. split; [ lia | ]. split; [ | done ]. intros q Hq.
    destruct (Z.eq_dec q e) as [-> | ]; [ done | apply H2; lia ].
  - split; [ lia | ]. split; [ intros; lia | done ].
Qed.

(** The gap fragments that are NACKed at [now]: missing, cooldown over. *)
Definition nack_wanted (timeout now : Z) (bm nk : list Z) (i : Z) : bool :=
  negb (got bm i) &&
  (u32 (now - aget nk i) >=? (if timeout >? 1000 then timeout / 3 else timeout)).

Lemma nack_gap_log {W} (f : SendCallback W) peer timeout n i now bm nk w log :
  0 <= i → i + Z.of_nat n <= 2048 →
  tx_message <$> (nack_gap (Some (logged f)) peer timeout n i now bm nk (w, log)).2.2 =
  (tx_message <$> log) ++
    ((λ q, (peer, NACK, q, [])) <$> List.filter (nack_wanted timeout now bm nk) (seqZ i (Z.of_nat n))).
Proof.
  revert i nk w log. induction n as [ | n IH ]; intros i nk w log Hi Hn.
  { cbn. by rewrite app_nil_r. }
  rewrite seqZ_cons by lia. replace (Z.pred (Z.of_nat (S n))) with (Z.of_nat n) by lia.
  replace (Z.succ i) with (i + 1) by lia.
  cbn [nack_gap List.filter]. rewrite u8_small by int_lia. fold (got bm i).
  unfold nack_wanted at 1. destruct (got bm i); cbn [negb andb]; [ apply IH; lia | ].
  destruct (u32 _ >=? _); [ | apply IH; lia ].
  unfold send_nack, call_send, logged at 2. cbn [fst snd].
  destruct (f w peer NACK i []) as [rc w1]. cbn [snd].
  rewrite IH by lia. rewrite fmap_app, <- app_assoc. f_equal. cbn. do 2 f_equal.
  apply filter_ext_in. intros q Hq. apply list_elem_of_In, elem_of_seqZ in Hq.
  unfold nack_wanted. by rewrite aget_aset_ne by lia.
Qed.

(** Gap NACKs. In a session of at most 2048 fragments, after a fragment
    [seq] is stored the cursor moves to the first missing fragment, and the
    NACKs sent are, in order, exactly those of the missing fragments between
    the cursor and [seq] that lie within one window of the cursor and whose
    cooldown is over. *)
Theorem gap_nacks {W} (f : SendCallback W) peer ws timeout now seq r bm nk w :
  rv_bitmap r = Some bm → rv_nack_sent_ms r = Some nk → 0 <= ws <= ARQ_WINDOW →
  0 <= rv_expected r <= rv_total r → rv_total r <= 2048 → 0 <= seq < rv_total r →
  let '(r', w') := advance_and_nack (Some (logged f)) peer ws timeout now seq r (w, []) in
  let e := rv_expected r' in
  (∀ q, rv_expected r <= q < e → got bm q = true) ∧ (e < rv_total r → got bm e = false) ∧
  tx_message <$> w'.2 =
    (λ q, (peer, NACK, q, []))
      <$> List.filter (nack_wanted timeout now bm nk) (seqZ e (Z.min seq (e + ws) - e)).
Proof.
  intros Hbm Hnk Hws He Ht Hseq. unfold advance_and_nack. rewrite Hbm, Hnk. cbv zeta.
  destruct (advance_expected_spec (Z.to_nat (rv_total r)) (rv_total r) bm (rv_expected r))
    as (H1 & H2 & H3); [ done | done | lia | ]. cbv zeta in *.
  set (e := advance_expected _ _ _ _) in *. destruct (seq >? e) eqn:E.
  - set (n := Z.to_nat _).
    assert (Hn : Z.of_nat n = Z.min seq (e + ws) - e).
    { unfold n. unfold ARQ_WINDOW in *. case_match; int_lia. }
    pose proof (nack_gap_log f peer timeout n e now bm nk w [] ltac:(lia) ltac:(lia)) as Hlog.
    destruct (nack_gap _ _ _ _ _ _ _ _ _) as [nk' w']. cbn [rv_expected update_field].
    rewrite Hn in Hlog. split; [ done | ]. split; [ done | exact Hlog ].
  - split; [ done | ]. split; [ done | ]. cbn [rv_expected update_field snd].
    replace (Z.min seq (e + ws) - e) with (Z.min seq (e + ws) - e) by done.
    rewrite seqZ_nil by lia. done.
Qed.

Lemma gap_nacks_witness :
  let r := receiver_new <| rv_bitmap := Some [9] |> <| rv_nack_sent_ms := Some [0; 0; 0; 0] |>
             <| rv_total := 4 |> in
  tx_message <$> (advance_and_nack (Some (logged (λ (w : unit) _ _ _ _, (0, w)))) 7 64 900 5000 3 r
                    (tt, [])).2.2
  = [(7, NACK, 1, []); (7, NACK, 2, [])].
Proof.
  cbv zeta. set (r := _ <| rv_total := 4 |>).
  pose proof (gap_nacks (λ (w : unit) _ _ _ _, (0, w)) 7 64 900 5000 3 r [9] [0; 0; 0; 0] tt
    eq_refl eq_refl ltac:(unfold ARQ_WINDOW; lia) ltac:(cbn; lia) ltac:(cbn; lia) ltac:(cbn; lia)) as H.
  assert (He : rv_expected (advance_and_nack (Some (logged (λ (w : unit) _ _ _ _, (0, w))))
                 7 64 900 5000 3 r (tt, [])).1 = 1) by (vm_compute; reflexivity).
  destruct (advance_and_nack _ _ _ _ _ _ _ _) as [r' w']. cbn [fst snd] in *.
  destruct H as (_ & _ & ->). rewrite He. vm_compute. reflexivity.
Defined.

(** The blind spot of the byte index. The cursor computes the bitmap
    byte of [expected_seq_] in a [uint8_t], so past fragment 2047 it reads
    the bits of earlier fragments: once the first 2048 fragments are in, the
    cursor of a longer session runs to the end whatever is missing, and no
    gap is NACKed any more. *)
Theorem gap_cursor_blind {W} (cb : option (SendCallback W)) peer ws timeout now seq r bm nk w :
  rv_bitmap r = Some bm → rv_nack_sent_ms r = Some nk →
  2048 <= rv_total r < 65536 → 0 <= rv_expected r <= rv_total r → seq < rv_total r →
  (∀ q, 0 <= q < 2048 → got bm q = true) →
  advance_and_nack cb peer ws timeout now seq r w = (r <| rv_expected := rv_total r |>, w).
Proof.
  intros Hbm Hnk Ht He Hseq Hall.
  assert (H : ∀ fuel e, 0 <= e <= rv_total r → (Z.to_nat (rv_total r - e) <= fuel)%nat →
            advance_expected fuel (rv_total r) bm e = rv_total r).
  { induction fuel as [ | fuel IH ]; intros e Hr Hf; cbn [advance_expected]; [ lia | ].
    destruct (e <? rv_total r) eqn:E; [ | lia ].
    assert (bitmap_bit bm (u8 (e / 8)) (bit_mask e) = true) as ->.
    { specialize (Hall (e mod 2048) ltac:(lia)). unfold got in Hall.
      replace (u8 (e / 8)) with (e mod 2048 / 8) by int_lia.
      unfold bit_mask in *. by replace (e mod 8) with (e mod 2048 mod 8) by lia. }
    cbn [negb]. rewrite u16_small by int_lia. apply IH; lia. }
  unfold advance_and_nack. rewrite Hbm, Hnk, H by lia. cbv zeta.
  by replace (seq >? rv_total r) with false by lia.
Qed.

Lemma gap_cursor_blind_witness :
  let bm := replicate 256 255 ++ [0; 1] in
  let r := receiver_new <| rv_bitmap := Some bm |> <| rv_nack_sent_ms := Some (replicate 2060 0) |>
             <| rv_total := 2060 |> in
  got bm 2050 = false ∧
  advance_and_nack (W:=unit) None 7 64 900 5000 2056 r tt = (r <| rv_expected := 2060 |>, tt).
Proof.
  cbv zeta. split; [ vm_compute; reflexivity | ]. set (r := _ <| rv_total := 2060 |>).
  change (r <| rv_expected := 2060 |>) with (r <| rv_expected := rv_total r |>).
  apply (gap_cursor_blind None 7 64 900 5000 2056 r (replicate 256 255 ++ [0; 1]) (replicate 2060 0));
    [ reflexivity | reflexivity | cbn; lia | cbn; lia | cbn; lia | ].
  intros q Hq. rewrite got_testbit. unfold aget.
  rewrite lookup_total_app_l by (rewrite length_replicate; lia).
  rewrite lookup_total_replicate_2 by lia.
  change 255 with (Z.ones 8). apply Z.ones_spec_low. lia.
Defined.
