(* ===== verification/BufferPool.v ===== *)
(** * Shared packet-buffer pool (components/protocol/buffer_pool.{hpp,cpp})

    A lock-free free list of 353 slabs (a Treiber stack threaded through the
    slabs) with per-slab reference counts. The pool is modelled twice: as the
    atomic steps of [acquire] and [release], which several tasks interleave,
    and as the functions a caller sees when no other task interferes. The
    second is proved to be what the first computes alone; a third part runs
    two tasks against each other. *)

From Stdlib Require Import ZArith Lia.
From stdpp Require Import base list numbers option sets relations.
From S2P Require Import Prelude.
From S2P Require Import Packet.
Open Scope Z_scope.
Open Scope flp_scope.

Record BufferSlab := mk_slab {
  bs_data : list Z;
  bs_len : Z;
  bs_rssi : Z;
  bs_source : RxTransport;
  bs_refcount : Z;
  bs_next_free : Z
}.
#[export] Instance eta_BufferSlab : Eta BufferSlab := fun s =>
  mk_slab (bs_data s) (bs_len s) (bs_rssi s) (bs_source s) (bs_refcount s) (bs_next_free s).

(** A slab as its default constructor leaves it; the payload bytes stay what
    the heap held. *)
Definition slab_new (garbage : list Z) : BufferSlab := mk_slab garbage 0 0 RX_ESPNOW 0 (-1).
#[export] Instance BufferSlab_inhabited : Inhabited BufferSlab := populate (slab_new []).

Definition POOL_BUDGET_BYTES : Z := 512 * 1024.
(** 1470 data bytes, 2 of padding, [len] 4, [rssi] 1, [source] 1, [refcount]
    1, 1 of padding, [next_free] 4. *)
Definition sizeof_BufferSlab : Z := 1484.
Definition POOL_SIZE : Z :=
  u16 (if POOL_BUDGET_BYTES / sizeof_BufferSlab >? 0
       then POOL_BUDGET_BYTES / sizeof_BufferSlab else 1).

Record BufferPool := mk_pool {
  bp_slabs : option (list BufferSlab);
  bp_top : Z;
  bp_free_count : Z;
  bp_exhaustion : Z;
  bp_overflow : Z
}.
#[export] Instance eta_BufferPool : Eta BufferPool := fun p =>
  mk_pool (bp_slabs p) (bp_top p) (bp_free_count p) (bp_exhaustion p) (bp_overflow p).

Definition pool_new : BufferPool := mk_pool None (-1) 0 0 0.

(** [garbage i] is the content of slab [i]'s payload in the fresh block; the
    allocation is asserted to succeed. *)
Definition init (garbage : Z → list Z) (p : BufferPool) : BufferPool :=
  p <| bp_slabs := Some ((λ i, slab_new (garbage i)
                            <| bs_next_free := if i + 1 <? POOL_SIZE then i + 1 else -1 |>)
                         <$> seqZ 0 POOL_SIZE) |>
    <| bp_top := 0 |> <| bp_free_count := POOL_SIZE |>.

Definition get_exhaustion_count (p : BufferPool) : Z := bp_exhaustion p.
Definition get_overflow_count (p : BufferPool) : Z := bp_overflow p.
Definition get_free_count (p : BufferPool) : Z :=
  if bp_free_count p >? 0 then u8 (bp_free_count p) else 0.
Definition is_congested (p : BufferPool) : bool := bp_free_count p <? POOL_SIZE / 4.

Definition slab (p : BufferPool) (i : Z) : BufferSlab := aget (default [] (bp_slabs p)) i.
Definition upd_slab (i : Z) (f : BufferSlab → BufferSlab) (p : BufferPool) : BufferPool :=
  p <| bp_slabs ::= fmap (λ l, aset l i (f (aget l i))) |>.

(** ** The atomic steps *)

(** Where a task stands inside [acquire] or [release]; the arguments are its
    local variables. *)
Inductive pc :=
  | AcqLoad                         (* t = top_.load() *)
  | AcqNext (t : Z)                 (* next = slabs_[t].next_free.load() *)
  | AcqCas (t next : Z)             (* top_.compare_exchange_weak(t, next) *)
  | AcqCount (t : Z)                (* free_count_.fetch_sub(1) *)
  | AcqRef (t : Z)                  (* slabs_[t].refcount.store(1) *)
  | AcqLen (t : Z)                  (* slabs_[t].len = 0 *)
  | AcqFail                         (* pool_exhaustion_count_.fetch_add(1) *)
  | AcqRet (r : option Z)
  | RelLoad (i : Z)                 (* cur = slab->refcount.load() *)
  | RelCas (i cur : Z)              (* refcount.compare_exchange_weak(cur, cur - 1) *)
  | RelTop (i : Z)                  (* old_top = top_.load() *)
  | RelNext (i old : Z)             (* slabs_[idx].next_free.store(old_top) *)
  | RelPush (i old : Z)             (* top_.compare_exchange_weak(old_top, idx) *)
  | RelCount                        (* free_count_.fetch_add(1) *)
  | RelOver                         (* pool_overflow_count_.fetch_add(1) *)
  | RelRet.

(** One atomic step; [spurious] lets a weak compare-exchange fail although
    the values agree. *)
Definition step (spurious : bool) (c : pc) (p : BufferPool) : pc * BufferPool :=
  match c with
  | AcqLoad => (if bp_top p >=? 0 then AcqNext (bp_top p) else AcqFail, p)
  | AcqNext t => (AcqCas t (bs_next_free (slab p t)), p)
  | AcqCas t next =>
      if (bp_top p =? t) && negb spurious then (AcqCount t, p <| bp_top := next |>)
      else (if bp_top p >=? 0 then AcqNext (bp_top p) else AcqFail, p)
  | AcqCount t => (AcqRef t, p <| bp_free_count := i32 (bp_free_count p - 1) |>)
  | AcqRef t => (AcqLen t, upd_slab t (λ s, s <| bs_refcount := 1 |>) p)
  | AcqLen t => (AcqRet (Some t), upd_slab t (λ s, s <| bs_len := 0 |>) p)
  | AcqFail => (AcqRet None, p <| bp_exhaustion := u32 (bp_exhaustion p + 1) |>)
  | RelLoad i =>
      (if bs_refcount (slab p i) >? 0 then RelCas i (bs_refcount (slab p i)) else RelOver, p)
  | RelCas i cur =>
      if (bs_refcount (slab p i) =? cur) && negb spurious then
        (if cur =? 1 then RelTop i else RelRet, upd_slab i (λ s, s <| bs_refcount := cur - 1 |>) p)
      else
        (if bs_refcount (slab p i) >? 0 then RelCas i (bs_refcount (slab p i)) else RelOver, p)
  | RelTop i => (RelNext i (bp_top p), p)
  | RelNext i old => (RelPush i old, upd_slab i (λ s, s <| bs_next_free := old |>) p)
  | RelPush i old =>
      if (bp_top p =? old) && negb spurious then (RelCount, p <| bp_top := i |>)
      else (RelNext i (bp_top p), p)
  | RelCount => (RelRet, p <| bp_free_count := i32 (bp_free_count p + 1) |>)
  | RelOver => (RelRet, p <| bp_overflow := u32 (bp_overflow p + 1) |>)
  | AcqRet r => (AcqRet r, p)
  | RelRet => (RelRet, p)
  end.

(** Entry of [release]: the null and bounds checks. A pointer is an index
    relative to [slabs_], possibly out of range. *)
Definition release_entry (s : option Z) (p : BufferPool) : pc * BufferPool :=
  match s, bp_slabs p with
  | Some i, Some _ =>
      if (i <? 0) || (i >=? POOL_SIZE)
      then (RelRet, p <| bp_overflow := u32 (bp_overflow p + 1) |>)
      else (RelLoad i, p)
  | _, _ => (RelRet, p)
  end.

Definition add_ref (s : option Z) (p : BufferPool) : BufferPool :=
  match s with
  | Some i => upd_slab i (λ sl, sl <| bs_refcount := u8 (bs_refcount sl + 1) |>) p
  | None => p
  end.

(** ** What a caller sees when no task interferes *)

Definition acquire (p : BufferPool) : option Z * BufferPool :=
  let t := bp_top p in
  if t >=? 0 then
    let next := bs_next_free (slab p t) in
    (Some t, upd_slab t (λ s, s <| bs_refcount := 1 |> <| bs_len := 0 |>)
               (p <| bp_top := next |> <| bp_free_count := i32 (bp_free_count p - 1) |>))
  else (None, p <| bp_exhaustion := u32 (bp_exhaustion p + 1) |>).

Definition release (s : option Z) (p : BufferPool) : BufferPool :=
  match s, bp_slabs p with
  | Some i, Some _ =>
      if (i <? 0) || (i >=? POOL_SIZE) then p <| bp_overflow := u32 (bp_overflow p + 1) |>
      else
        let cur := bs_refcount (slab p i) in
        if cur >? 0 then
          let p1 := upd_slab i (λ sl, sl <| bs_refcount := cur - 1 |>) p in
          if cur =? 1 then
            upd_slab i (λ sl, sl <| bs_next_free := bp_top p |>) p1
              <| bp_top := i |> <| bp_free_count := i32 (bp_free_count p + 1) |>
          else p1
        else p <| bp_overflow := u32 (bp_overflow p + 1) |>
  | _, _ => p
  end.

Fixpoint run_alone (n : nat) (cp : pc * BufferPool) : pc * BufferPool :=
  match n with
  | O => cp
  | S n' => run_alone n' (step false cp.1 cp.2)
  end.

(** ** The tasks of the node, interleaved *)

(** The task that moves and whether its compare-exchange fails spuriously. *)
Fixpoint run_schedule (sched : list (nat * bool)) (tasks : list pc) (p : BufferPool)
    : list pc * BufferPool :=
  match sched with
  | [] => (tasks, p)
  | (k, spurious) :: sched' =>
      match tasks !! k with
      | Some c =>
          let '(c', p') := step spurious c p in
          run_schedule sched' (<[k := c']> tasks) p'
      | None => run_schedule sched' tasks p
      end
  end.

(** ** The free list *)

Lemma POOL_SIZE_eq : POOL_SIZE = 353.
Proof. reflexivity. Qed.
#[global] Opaque POOL_SIZE.

Fixpoint chain (l : list BufferSlab) (t : Z) (fl : list Z) : Prop :=
  match fl with
  | [] => t = -1
  | i :: fl' => t = i ∧ 0 <= i < POOL_SIZE ∧ chain l (bs_next_free (aget l i)) fl'
  end.

(** [fl] is the free stack: the slabs reached from [top_], which are exactly
    those without references, each once, as many as [free_count_] says. *)
Record pool_state (fl : list Z) (l : list BufferSlab) (p : BufferPool) : Prop := {
  ps_slabs : bp_slabs p = Some l;
  ps_len : Z.of_nat (length l) = POOL_SIZE;
  ps_chain : chain l (bp_top p) fl;
  ps_nodup : NoDup fl;
  ps_free : ∀ i, 0 <= i < POOL_SIZE → i ∈ fl ↔ bs_refcount (aget l i) = 0;
  ps_count : bp_free_count p = Z.of_nat (length fl);
  ps_refs : ∀ i, 0 <= i < POOL_SIZE → is_u8 (bs_refcount (aget l i))
}.
Definition pool_inv (p : BufferPool) : Prop := ∃ fl l, pool_state fl l p.

Lemma chain_range l t fl i : chain l t fl → i ∈ fl → 0 <= i < POOL_SIZE.
Proof.
  revert t. induction fl as [ | j fl IH ]; intros t; [ by intros _ ?%elem_of_nil | ].
  intros (-> & Hj & Hc) [-> | Hi]%elem_of_cons; [ done | by eapply IH ].
Qed.

Lemma chain_ext l l' t fl :
  (∀ i, i ∈ fl → bs_next_free (aget l' i) = bs_next_free (aget l i)) →
  chain l t fl → chain l' t fl.
Proof.
  revert t. induction fl as [ | j fl IH ]; intros t He; [ done | ].
  intros (-> & Hj & Hc). split; [ done | ]. split; [ done | ].
  rewrite He by left. apply IH; [ | done ]. intros i Hi. apply He. by right.
Qed.

Lemma chain_top l t fl : chain l t fl → t >= 0 → ∃ fl', fl = t :: fl'.
Proof. destruct fl as [ | i fl ]; cbn; [ lia | intros (-> & _); eauto ]. Qed.

Lemma free_length fl : NoDup fl → (∀ i, i ∈ fl → 0 <= i < POOL_SIZE) → Z.of_nat (length fl) <= POOL_SIZE.
Proof.
  intros Hnd Hr. rewrite POOL_SIZE_eq in *.
  assert (Hs : (length fl <= length (seqZ 0 353))%nat).
  { apply submseteq_length, NoDup_submseteq; [ done | ]. intros i Hi. apply elem_of_seqZ.
    specialize (Hr i Hi). lia. }
  rewrite length_seqZ in Hs. lia.
Qed.

Lemma slab_upd l p i f j :
  bp_slabs p = Some l → 0 <= i < Z.of_nat (length l) → 0 <= j →
  slab (upd_slab i f p) j = if j =? i then f (aget l i) else aget l j.
Proof.
  intros Hl Hi Hj. unfold slab, upd_slab. cbn [bp_slabs update_field]. rewrite Hl. cbn.
  destruct (Z.eqb_spec j i) as [-> | Hne]; [ by apply aget_aset_eq | apply aget_aset_ne; lia ].
Qed.

Lemma init_state garbage p :
  ∃ l, pool_state (seqZ 0 POOL_SIZE) l (init garbage p).
Proof.
  pose proof POOL_SIZE_eq as HN.
  set (f := λ i, slab_new (garbage i) <| bs_next_free := if i + 1 <? POOL_SIZE then i + 1 else -1 |>).
  assert (Hget : ∀ i, 0 <= i < POOL_SIZE → aget (f <$> seqZ 0 POOL_SIZE) i = f i).
  { intros i Hi. unfold aget. apply list_lookup_total_correct. rewrite list_lookup_fmap.
    replace (seqZ 0 POOL_SIZE !! Z.to_nat i) with (Some i); [ done | ].
    symmetry. apply lookup_seqZ. lia. }
  exists (f <$> seqZ 0 POOL_SIZE). split; cbn [init bp_slabs bp_top bp_free_count update_field].
  - done.
  - rewrite length_fmap, length_seqZ. lia.
  - assert (H : ∀ n i, 0 <= i → Z.of_nat n = POOL_SIZE - i →
       chain (f <$> seqZ 0 POOL_SIZE) (if i <? POOL_SIZE then i else -1) (seqZ i (Z.of_nat n))).
    { induction n as [ | n IH ]; intros i Hi Hn.
      - cbn. case_match; [ lia | done ].
      - rewrite (seqZ_cons i) by lia. cbn [chain]. replace (i <? POOL_SIZE) with true by lia.
        split; [ done | ]. split; [ lia | ]. rewrite Hget by lia. cbn.
        specialize (IH (i + 1)). replace (Z.pred (Z.of_nat (S n))) with (Z.of_nat n) by lia.
        replace (Z.succ i) with (i + 1) by lia. apply IH; lia. }
    specialize (H 353%nat 0). rewrite HN in *. apply H; lia.
  - apply NoDup_seqZ.
  - intros i Hi. rewrite Hget by done. rewrite elem_of_seqZ. cbn. split; [ done | lia ].
  - rewrite length_seqZ. lia.
  - intros i Hi. rewrite Hget by done. cbn. int_lia.
Qed.

(** *** Alone, the atomic steps compute the functions *)

Lemma acquire_alone p :
  pool_inv p →
  ∃ n, run_alone n (AcqLoad, p) = (AcqRet (acquire p).1, (acquire p).2).
Proof.
  intros (fl & l & [Hl Hlen Hc _ _ _ _]). unfold acquire. destruct (bp_top p >=? 0) eqn:Et.
  - exists 6%nat. cbn [run_alone step fst snd]. rewrite Et. cbn [run_alone step fst snd].
    rewrite Z.eqb_refl. cbn [andb negb run_alone step fst snd]. f_equal.
    destruct (chain_top l (bp_top p) fl Hc ltac:(lia)) as [fl' ->].
    destruct Hc as (_ & Hr & _). unfold upd_slab. destruct p as [sl t fc ex ov]. cbn in *.
    subst sl. red_upd. cbn. do 2 f_equal.
    rewrite (aget_aset_eq l t) by lia. unfold aset. by rewrite list_insert_insert_eq.
  - exists 2%nat. cbn [run_alone step fst snd]. by rewrite Et.
Qed.

Lemma release_alone s p :
  pool_inv p → ∃ n, run_alone n (release_entry s p) = (RelRet, release s p).
Proof.
  intros (fl & l & [Hl Hlen _ _ _ _ _]). unfold release_entry, release.
  destruct s as [i | ]; [ | by exists O ]. rewrite Hl.
  destruct (_ || _) eqn:Er; [ by exists O | ].
  destruct (bs_refcount (slab p i) >? 0) eqn:Ec.
  2: { exists 2%nat. cbn [run_alone step fst snd]. by rewrite Ec. }
  destruct (bs_refcount (slab p i) =? 1) eqn:E1.
  - exists 6%nat. cbn [run_alone step fst snd]. rewrite Ec. cbn [run_alone step fst snd].
    rewrite Z.eqb_refl. cbn [andb negb]. rewrite E1. cbn [run_alone step fst snd].
    change (bp_top (upd_slab i ?f ?q)) with (bp_top q). rewrite Z.eqb_refl.
    cbn [andb negb run_alone step fst snd]. done.
  - exists 2%nat. cbn [run_alone step fst snd]. rewrite Ec. cbn [run_alone step fst snd].
    rewrite Z.eqb_refl. cbn [andb negb]. by rewrite E1.
Qed.

(** ** The functions on a well-formed pool *)

Lemma upd_slab_set l p i f :
  bp_slabs p = Some l → upd_slab i f p = p <| bp_slabs := Some (aset l i (f (aget l i))) |>.
Proof. intros Hl. unfold upd_slab, update_field. cbv beta. by rewrite Hl. Qed.

Lemma acquire_state fl l p :
  pool_state fl l p →
  match fl with
  | [] => acquire p = (None, p <| bp_exhaustion := u32 (bp_exhaustion p + 1) |>)
  | t :: fl' =>
      (acquire p).1 = Some t ∧
      pool_state fl' (aset l t (aget l t <| bs_refcount := 1 |> <| bs_len := 0 |>)) (acquire p).2
  end.
Proof.
  intros [Hl Hlen Hc Hnd Hfree Hcount Hrefs]. unfold acquire.
  pose proof (free_length fl Hnd (λ i, chain_range _ _ _ i Hc)) as Hle.
  destruct fl as [ | t fl ].
  { cbn in Hc. rewrite Hc. done. }
  destruct Hc as (Ht & Hr & Hc). rewrite Ht. replace (t >=? 0) with true by lia. cbn [fst snd].
  split; [ done | ]. apply NoDup_cons in Hnd as [Hnin Hnd]. pose proof POOL_SIZE_eq.
  rewrite (upd_slab_set l) by done.
  assert (Hget : ∀ x j, 0 <= j → aget (aset l t x) j = if j =? t then x else aget l j).
  { intros x j Hj. destruct (Z.eqb_spec j t) as [-> | ]; [ apply aget_aset_eq; lia | apply aget_aset_ne; lia ]. }
  split; cbn [bp_slabs bp_top bp_free_count update_field].
  - done.
  - by rewrite length_aset.
  - unfold slab. rewrite Hl. cbn [default from_option id]. eapply chain_ext; [ | exact Hc ].
    intros i Hi. pose proof (chain_range _ _ _ i Hc Hi). rewrite Hget by lia.
    destruct (Z.eqb_spec i t) as [-> | ]; done.
  - done.
  - intros i Hi. rewrite Hget by lia. destruct (Z.eqb_spec i t) as [-> | Hne].
    + split; [ done | by cbn ].
    + rewrite <- Hfree by done. rewrite elem_of_cons. naive_solver.
  - cbn [length] in *. int_lia.
  - intros i Hi. rewrite Hget by lia. destruct (i =? t); [ cbn; int_lia | by apply Hrefs ].
Qed.

(** Changing the reference count of an allocated slab to another nonzero one. *)
Lemma refcount_state fl l p i r :
  pool_state fl l p → 0 <= i < POOL_SIZE → bs_refcount (aget l i) ≠ 0 → 0 < r < 256 →
  pool_state fl (aset l i (aget l i <| bs_refcount := r |>))
    (upd_slab i (λ s, s <| bs_refcount := r |>) p).
Proof.
  intros [Hl Hlen Hc Hnd Hfree Hcount Hrefs] Hi Hne Hr. rewrite (upd_slab_set l) by done.
  assert (Hget : ∀ x j, 0 <= j → aget (aset l i x) j = if j =? i then x else aget l j).
  { intros x j Hj. destruct (Z.eqb_spec j i) as [-> | ]; [ apply aget_aset_eq; lia | apply aget_aset_ne; lia ]. }
  split; cbn [bp_slabs bp_top bp_free_count update_field]; try done.
  - by rewrite length_aset.
  - eapply chain_ext; [ | exact Hc ]. intros j Hj. pose proof (chain_range _ _ _ j Hc Hj).
    rewrite Hget by lia. destruct (Z.eqb_spec j i) as [-> | ]; done.
  - intros j Hj. rewrite Hget by lia. destruct (Z.eqb_spec j i) as [-> | ]; [ | by apply Hfree ].
    cbn. rewrite Hfree by done. lia.
  - intros j Hj. rewrite Hget by lia. destruct (j =? i); [ cbn; int_lia | by apply Hrefs ].
Qed.

Lemma release_state fl l p i :
  pool_state fl l p → 0 <= i < POOL_SIZE →
  let cur := bs_refcount (aget l i) in
  (cur = 0 → release (Some i) p = p <| bp_overflow := u32 (bp_overflow p + 1) |>) ∧
  (1 < cur → pool_state fl (aset l i (aget l i <| bs_refcount := cur - 1 |>)) (release (Some i) p)) ∧
  (cur = 1 → pool_state (i :: fl)
     (aset l i (aget l i <| bs_refcount := 0 |> <| bs_next_free := bp_top p |>)) (release (Some i) p)).
Proof.
  intros Hst Hi cur. pose proof Hst as [Hl Hlen Hc Hnd Hfree Hcount Hrefs]. pose proof POOL_SIZE_eq.
  specialize (Hrefs i Hi) as Hcur. fold cur in Hcur.
  assert (Hs : slab p i = aget l i) by (unfold slab; by rewrite Hl).
  unfold release. rewrite Hl, Hs. fold cur. cbv zeta.
  replace ((i <? 0) || (i >=? POOL_SIZE)) with false by lia. split; [ by intros -> | ].
  split; intros Hc1.
  { replace (cur >? 0) with true by lia. replace (cur =? 1) with false by lia.
    apply refcount_state; [ done | done | fold cur; lia | int_lia ]. }
  rewrite Hc1. cbn [Z.eqb Z.gtb Pos.eqb].
  change (1 >? 0) with true. change (1 =? 1) with true. cbv iota.
  assert (Hnin : i ∉ fl) by (rewrite Hfree by done; fold cur; lia).
  assert (Hget : ∀ x j, 0 <= j → aget (aset l i x) j = if j =? i then x else aget l j).
  { intros x j Hj. destruct (Z.eqb_spec j i) as [-> | ]; [ apply aget_aset_eq; lia | apply aget_aset_ne; lia ]. }
  assert (Hslabs : upd_slab i (λ sl, sl <| bs_next_free := bp_top p |>)
     (upd_slab i (λ sl, sl <| bs_refcount := 1 - 1 |>) p) =
     p <| bp_slabs := Some (aset l i (aget l i <| bs_refcount := 0 |> <| bs_next_free := bp_top p |>)) |>).
  { rewrite (upd_slab_set l p) by done. erewrite upd_slab_set by reflexivity.
    rewrite (aget_aset_eq l i) by lia. unfold aset. by rewrite list_insert_insert_eq. }
  rewrite Hslabs.
  pose proof (free_length (i :: fl)) as Hle. cbn [length] in Hle.
  specialize (Hle ltac:(by constructor)).
  assert (∀ j, j ∈ i :: fl → 0 <= j < POOL_SIZE) as Hr.
  { intros j [-> | Hj]%elem_of_cons; [ done | by eapply chain_range ]. }
  specialize (Hle Hr).
  split; cbn [bp_slabs bp_top bp_free_count update_field chain].
  - done.
  - by rewrite length_aset.
  - split; [ done | ]. split; [ done | ]. rewrite Hget, Z.eqb_refl by lia.
    eapply chain_ext; [ | exact Hc ]. intros j Hj. pose proof (Hr j ltac:(by right)).
    rewrite Hget by lia. destruct (Z.eqb_spec j i) as [-> | ]; done.
  - by constructor.
  - intros j Hj. rewrite Hget by lia. rewrite elem_of_cons.
    destruct (Z.eqb_spec j i) as [-> | Hne]; [ naive_solver | ]. rewrite <- Hfree by done. naive_solver.
  - cbn [length]. int_lia.
  - intros j Hj. rewrite Hget by lia. destruct (j =? i); [ cbn; int_lia | by apply Hrefs ].
Qed.

(** ** Properties of the pool *)

(** What the node does to the pool; references are added to slabs in use. *)
Inductive pool_step : BufferPool → BufferPool → Prop :=
  | PAcquire p : pool_step p (acquire p).2
  | PRelease s p : pool_step p (release s p)
  | PAddRef i p : 0 <= i < POOL_SIZE → 0 < bs_refcount (slab p i) < 255 →
      pool_step p (add_ref (Some i) p).

Lemma counters_state fl l p e o :
  pool_state fl l p → pool_state fl l (p <| bp_exhaustion := e |> <| bp_overflow := o |>).
Proof. intros []. by split. Qed.

Lemma acquire_inv p : pool_inv p → pool_inv (acquire p).2.
Proof.
  intros (fl & l & Hst). pose proof (acquire_state fl l p Hst) as H. destruct fl as [ | t fl ].
  - rewrite H. exists [], l. pose proof (counters_state _ _ _ (u32 (bp_exhaustion p + 1)) (bp_overflow p) Hst).
    by destruct p.
  - destruct H as [_ H]. by eexists _, _.
Qed.

Lemma release_inv s p : pool_inv p → pool_inv (release s p).
Proof.
  intros (fl & l & Hst). pose proof Hst as [Hl _ _ _ _ _ Hrefs].
  assert (Hover : pool_inv (p <| bp_overflow := u32 (bp_overflow p + 1) |>)).
  { exists fl, l. pose proof (counters_state _ _ _ (bp_exhaustion p) (u32 (bp_overflow p + 1)) Hst).
    by destruct p. }
  destruct s as [i | ]; [ | by exists fl, l ].
  destruct (decide (0 <= i < POOL_SIZE)) as [Hi | Hi].
  2: { unfold release. rewrite Hl. by replace ((i <? 0) || (i >=? POOL_SIZE)) with true by lia. }
  destruct (release_state fl l p i Hst Hi) as (H0 & H1 & H2). specialize (Hrefs i Hi).
  destruct (decide (bs_refcount (aget l i) = 0)) as [E | ]; [ by rewrite H0 | ].
  destruct (decide (bs_refcount (aget l i) = 1)) as [E | ]; [ by eexists _, _; apply H2 | ].
  eexists _, _. apply H1. int_lia.
Qed.

Lemma pool_step_inv p p' : pool_step p p' → pool_inv p → pool_inv p'.
Proof.
  intros [q | s q | i q Hi Hr] Hinv; [ by apply acquire_inv | by apply release_inv | ].
  destruct Hinv as (fl & l & Hst). pose proof Hst as [Hl _ _ _ _ _ _].
  assert (Hs : slab q i = aget l i) by (unfold slab; by rewrite Hl). rewrite Hs in Hr.
  pose proof (refcount_state fl l q i (u8 (bs_refcount (aget l i) + 1)) Hst Hi ltac:(lia) ltac:(int_lia)) as H.
  eexists _, _. unfold add_ref. rewrite (upd_slab_set l) in H |- * by done. exact H.
Qed.

Lemma pool_steps_inv p p' : rtc pool_step p p' → pool_inv p → pool_inv p'.
Proof. induction 1; [ done | ]. intros. by apply IHrtc, (pool_step_inv x). Qed.

(** What the callers of the pool rely on, said of the slabs alone. [acquire]
    gives an unreferenced slab one reference and length 0, keeps its other
    members but the link, and leaves the other slabs alone, or it fails because
    every slab is referenced. *)
Definition acquired (p : BufferPool) (r : option Z) (p' : BufferPool) : Prop :=
  match r with
  | Some t =>
      0 <= t < POOL_SIZE ∧ bs_refcount (slab p t) = 0 ∧
      slab p' t = slab p t <| bs_refcount := 1 |> <| bs_len := 0 |> ∧
      (∀ j, 0 <= j → j ≠ t → slab p' j = slab p j) ∧
      bp_free_count p' = bp_free_count p - 1 ∧ bp_exhaustion p' = bp_exhaustion p
  | None =>
      (∀ i, 0 <= i < POOL_SIZE → bs_refcount (slab p i) ≠ 0) ∧
      (∀ j, slab p' j = slab p j) ∧ bp_free_count p' = bp_free_count p ∧
      bp_exhaustion p' = u32 (bp_exhaustion p + 1)
  end.

(** [release] takes one reference from a slab that has one and changes nothing
    else of any slab but the link; the last one makes it free. A null pointer
    is ignored, a foreign or already free slab only counted. *)
Definition released (s : option Z) (p p' : BufferPool) : Prop :=
  match s with
  | None => p' = p
  | Some i =>
      if bool_decide (0 <= i < POOL_SIZE ∧ 0 < bs_refcount (slab p i))
      then (∃ link, slab p' i = slab p i <| bs_refcount := bs_refcount (slab p i) - 1 |> <| bs_next_free := link |>) ∧
           (∀ j, 0 <= j → j ≠ i → slab p' j = slab p j) ∧
           bp_free_count p' = bp_free_count p + (if bs_refcount (slab p i) =? 1 then 1 else 0) ∧
           bp_overflow p' = bp_overflow p
      else (∀ j, slab p' j = slab p j) ∧ bp_free_count p' = bp_free_count p ∧
           bp_overflow p' = u32 (bp_overflow p + 1)
  end.

Lemma free_count_counts p :
  pool_inv p → bp_free_count p = count_if (λ i, bs_refcount (slab p i) =? 0) (seqZ 0 POOL_SIZE).
Proof.
  intros (fl & l & [Hl Hlen Hc Hnd Hfree Hcount _]).
  assert (Hs : ∀ i, slab p i = aget l i) by (intros; unfold slab; by rewrite Hl).
  rewrite Hcount. unfold count_if. f_equal. apply Permutation_length, NoDup_Permutation; [ done | | ].
  - apply NoDup_ListNoDup, List.NoDup_filter, NoDup_ListNoDup, NoDup_seqZ.
  - intros i. rewrite (list_elem_of_In (List.filter _ _)), filter_In, <- list_elem_of_In, elem_of_seqZ.
    rewrite Hs, Z.eqb_eq. split.
    + intros Hi. pose proof (chain_range _ _ _ i Hc Hi). split; [ lia | by apply Hfree ].
    + intros [Hi Hz]. apply Hfree; [ lia | done ].
Qed.

Lemma acquire_meets p : pool_inv p → acquired p (acquire p).1 (acquire p).2.
Proof.
  intros (fl & l & Hst). pose proof Hst as [Hl Hlen Hc Hnd Hfree Hcount _].
  assert (Hs : ∀ i, slab p i = aget l i) by (intros; unfold slab; by rewrite Hl).
  pose proof (acquire_state fl l p Hst) as Ha. destruct fl as [ | t fl ].
  - rewrite Ha. split_and!; [ | done | done | done ].
    intros i Hi. rewrite Hs, <- Hfree by done. apply not_elem_of_nil.
  - destruct Ha as [Ht [Hl' _ _ _ _ Hcount' _]].
    assert (Hex : bp_exhaustion (acquire p).2 = bp_exhaustion p) by (unfold acquire in *; by destruct (_ >=? 0)).
    destruct (acquire p) as [r p']. cbn [fst snd] in *. subst r.
    pose proof (chain_range _ _ _ t Hc ltac:(by left)) as Hr. cbn [acquired].
    assert (Hs' : ∀ i, slab p' i = aget (aset l t (aget l t <| bs_refcount := 1 |> <| bs_len := 0 |>)) i)
      by (intros; unfold slab; by rewrite Hl').
    rewrite Hs', aget_aset_eq, Hs by lia. split_and!; [ lia | lia | | done | | | done ].
    + apply Hfree; [ done | by left ].
    + intros j Hj Hne. rewrite Hs', aget_aset_ne by lia. by rewrite Hs.
    + cbn [length] in Hcount. lia.
Qed.

Lemma release_meets s p : pool_inv p → released s p (release s p).
Proof.
  intros (fl & l & Hst). pose proof Hst as [Hl Hlen Hc Hnd Hfree Hcount Hrefs].
  assert (Hs : ∀ i, slab p i = aget l i) by (intros; unfold slab; by rewrite Hl).
  destruct s as [i | ]; [ | done ]. unfold released. rewrite Hs.
  assert (Hupd : ∀ fl' q x, pool_state fl' (aset l i x) q → 0 <= i < POOL_SIZE →
    slab q i = x ∧ ∀ j, 0 <= j → j ≠ i → slab q j = slab p j).
  { intros fl' q x [Hl' _ _ _ _ _ _] Hi. unfold slab at 1 2. rewrite Hl'. cbn [default from_option id]. split.
    - apply aget_aset_eq. lia.
    - intros j Hj Hne. rewrite aget_aset_ne by lia. by rewrite Hs. }
  destruct (decide (0 <= i < POOL_SIZE)) as [Hi | Hi].
  2: { rewrite bool_decide_false by tauto. unfold release. rewrite Hl.
       by replace ((i <? 0) || (i >=? POOL_SIZE)) with true by lia. }
  destruct (release_state fl l p i Hst Hi) as (H0 & H1 & H2). specialize (Hrefs i Hi).
  assert (Hov : bs_refcount (aget l i) ≠ 0 → bp_overflow (release (Some i) p) = bp_overflow p).
  { intros Hne. unfold release. rewrite Hl, Hs. replace ((i <? 0) || (i >=? POOL_SIZE)) with false by lia.
    cbv zeta. replace (bs_refcount (aget l i) >? 0) with true by int_lia. by destruct (_ =? 1). }
  destruct (decide (bs_refcount (aget l i) = 0)) as [E | Hne].
  { rewrite bool_decide_false by lia. by rewrite H0. }
  rewrite bool_decide_true by int_lia. destruct (Z.eqb_spec (bs_refcount (aget l i)) 1) as [E | E].
  - specialize (H2 E). destruct (Hupd _ _ _ H2 Hi) as [Hat Hrest].
    split_and!; [ | done | | by apply Hov ].
    + exists (bp_top p). rewrite Hat, E. done.
    + rewrite (ps_count _ _ _ H2), Hcount. cbn [length]. lia.
  - specialize (H1 ltac:(int_lia)). destruct (Hupd _ _ _ H1 Hi) as [Hat Hrest].
    split_and!; [ | done | | by apply Hov ].
    + exists (bs_next_free (aget l i)). rewrite Hat. by destruct (aget l i).
    + rewrite (ps_count _ _ _ H1), Hcount. lia.
Qed.

(** C36: the pool's lock-free code meets what its callers rely on. In every
    state the node can reach with acquires, releases (also of null, foreign or
    already free slabs) and added references, [free_count_] is the number of
    unreferenced slabs; and the atomic steps of [acquire] and of [release],
    when no other task interferes, come to an end with what [acquired] and
    [released] say: [acquire] returns an unreferenced slab, with one
    reference, length 0 and every other slab untouched, or fails because all
    353 are referenced; [release] takes one reference, and the last one frees
    the slab. *)
Theorem pool_steps_refine garbage p s :
  rtc pool_step (init garbage pool_new) p →
  bp_free_count p = count_if (λ i, bs_refcount (slab p i) =? 0) (seqZ 0 POOL_SIZE) ∧
  (∃ n r p', run_alone n (AcqLoad, p) = (AcqRet r, p') ∧ acquired p r p') ∧
  (∃ n p', run_alone n (release_entry s p) = (RelRet, p') ∧ released s p p').
Proof.
  intros Hrtc. assert (Hinv : pool_inv p).
  { apply (pool_steps_inv _ _ Hrtc). destruct (init_state garbage pool_new) as [l Hl].
    by exists (seqZ 0 POOL_SIZE), l. }
  split_and!; [ by apply free_count_counts | | ].
  - destruct (acquire_alone p Hinv) as [n E]. eexists n, _, _. split; [ exact E | by apply acquire_meets ].
  - destruct (release_alone s p Hinv) as [n E]. eexists n, _. split; [ exact E | by apply release_meets ].
Qed.

(** Two slabs taken, the first given back. *)
Lemma pool_steps_refine_witness :
  let p := release (Some 0) (acquire (acquire (init (λ _, []) pool_new)).2).2 in
  (∃ n r p', run_alone n (AcqLoad, p) = (AcqRet r, p') ∧ acquired p r p') ∧
  (∃ n p', run_alone n (release_entry (Some 1) p) = (RelRet, p') ∧ released (Some 1) p p').
Proof.
  cbv zeta.
  destruct (pool_steps_refine (λ _, []) (release (Some 0) (acquire (acquire (init (λ _, []) pool_new)).2).2) (Some 1))
    as (_ & H1 & H2); [ | exact (conj H1 H2) ].
  eapply rtc_l; [ apply PAcquire | ]. eapply rtc_l; [ apply PAcquire | ].
  eapply rtc_l; [ apply (PRelease (Some 0)) | ]. apply rtc_refl.
Defined.

(** ** Several tasks *)

(** The slab a task has taken off the list. *)
Definition owned (c : pc) : option Z :=
  match c with
  | AcqCount t | AcqRef t | AcqLen t | AcqRet (Some t) => Some t
  | _ => None
  end.

(** A task inside [acquire], with a successor read from an unchanging list. *)
Definition acquiring (next : Z → Z) (c : pc) : Prop :=
  match c with
  | AcqLoad | AcqFail | AcqRet _ => True
  | AcqNext t => t >= 0
  | AcqCas t n => t >= 0 ∧ n = next t
  | AcqCount t | AcqRef t | AcqLen t => t >= 0
  | _ => False
  end.

(** While tasks only acquire, the links never change: the list is a suffix of
    the initial one, disjoint from what the tasks own. *)
Definition race_inv (next : Z → Z) (tasks : list pc) (p : BufferPool) : Prop :=
  ∃ fl l, bp_slabs p = Some l ∧ Z.of_nat (length l) = POOL_SIZE ∧ chain l (bp_top p) fl ∧
    (∀ i, 0 <= i → bs_next_free (aget l i) = next i) ∧ Forall (acquiring next) tasks ∧
    NoDup (omap owned tasks ++ fl).

Lemma race_upd next tasks p i f :
  (∀ s, bs_next_free (f s) = bs_next_free s) → 0 <= i →
  race_inv next tasks p → race_inv next tasks (upd_slab i f p).
Proof.
  intros Hf Hi (fl & l & Hl & Hlen & Hc & Hn & Hacq & Hnd).
  assert (Hsame : ∀ j, 0 <= j → bs_next_free (aget (aset l i (f (aget l i))) j) = bs_next_free (aget l j)).
  { intros j Hj. destruct (decide (i = j)) as [<- | ]; [ | by rewrite aget_aset_ne ].
    destruct (decide (i < Z.of_nat (length l))); [ by rewrite aget_aset_eq | ].
    unfold aset. by rewrite list_insert_ge by lia. }
  exists fl, (aset l i (f (aget l i))). rewrite (upd_slab_set l) by done.
  cbn [bp_slabs bp_top update_field]. split_and!; try done.
  - by rewrite length_aset.
  - eapply chain_ext; [ | exact Hc ]. intros j Hj. apply Hsame.
    pose proof (chain_range _ _ _ j Hc Hj). lia.
  - intros j Hj. rewrite Hsame by done. by apply Hn.
Qed.

Lemma omap_owned_insert (tasks : list pc) k c c' :
  tasks !! k = Some c → owned c = owned c' →
  omap owned (<[k := c']> tasks) = omap owned tasks.
Proof.
  intros Hk He. rewrite <- (take_drop_middle tasks k c Hk) at 2.
  rewrite insert_take_drop by (by eapply lookup_lt_Some). rewrite !omap_app. cbn. by rewrite He.
Qed.

(** A step that neither takes a slab nor changes the pool. *)
Lemma race_same next tasks p k c c' :
  race_inv next tasks p → tasks !! k = Some c → owned c = owned c' → acquiring next c' →
  race_inv next (<[k := c']> tasks) p.
Proof.
  intros (fl & l & Hl & Hlen & Hc & Hn & Hacq & Hnd) Hk He Hc'. exists fl, l.
  split_and!; try done; [ by apply Forall_insert | by erewrite omap_owned_insert ].
Qed.

Lemma race_pool next tasks p p' :
  bp_slabs p' = bp_slabs p → bp_top p' = bp_top p → race_inv next tasks p → race_inv next tasks p'.
Proof. intros E1 E2 (fl & l & ?). exists fl, l. by rewrite E1, E2. Qed.

Lemma race_pop next tasks p k t :
  race_inv next tasks p → tasks !! k = Some (AcqCas t (next t)) → bp_top p = t → t >= 0 →
  race_inv next (<[k := AcqCount t]> tasks) (p <| bp_top := next t |>).
Proof.
  intros (fl & l & Hl & Hlen & Hc & Hn & Hacq & Hnd) Hk Ht Hge. rewrite Ht in Hc.
  destruct (chain_top _ _ _ Hc Hge) as [fl' ->]. destruct Hc as (_ & Hr & Hc).
  exists fl', l. split_and!; try done.
  - cbn [bp_top update_field]. by rewrite <- Hn by lia.
  - by apply Forall_insert.
  - rewrite <- (take_drop_middle tasks k _ Hk) in Hnd.
    rewrite insert_take_drop by (by eapply lookup_lt_Some).
    rewrite !omap_app in *. cbn in *. rewrite <- app_assoc in *. cbn in *.
    by rewrite <- (Permutation_middle (omap owned (drop (S k) tasks)) fl' t) in Hnd.
Qed.

Lemma race_step next tasks p k c spurious :
  race_inv next tasks p → tasks !! k = Some c →
  let '(c', p') := step spurious c p in race_inv next (<[k := c']> tasks) p'.
Proof.
  intros Hinv Hk. pose proof Hinv as (fl & l & Hl & Hlen & Hc & Hn & Hacq & Hnd).
  pose proof (Forall_lookup_1 _ _ _ _ Hacq Hk) as Hok.
  assert (Hload : owned c = None →
    race_inv next (<[k := if bp_top p >=? 0 then AcqNext (bp_top p) else AcqFail]> tasks) p).
  { intros E. eapply race_same; [ done | exact Hk | rewrite E; by case_match | ].
    case_match; cbn; [ lia | done ]. }
  destruct c; cbn [step acquiring] in *; try done.
  - by apply Hload.
  - eapply race_same; [ done | exact Hk | done | ]. split; [ done | ].
    unfold slab. rewrite Hl. apply Hn. lia.
  - destruct Hok as [Hge ->]. destruct (_ && _) eqn:E; [ | by apply Hload ].
    apply andb_true_iff in E as [E _]. apply Z.eqb_eq in E. by apply race_pop.
  - eapply race_pool; [ | | eapply race_same; [ exact Hinv | exact Hk | done | exact Hok ] ]; done.
  - apply race_upd; [ done | lia | ]. by eapply race_same.
  - apply race_upd; [ done | lia | ]. by eapply race_same.
  - eapply race_pool; [ | | eapply race_same; [ exact Hinv | exact Hk | done | exact I ] ]; done.
  - by eapply race_same.
Qed.

Lemma run_schedule_race next sched tasks p :
  race_inv next tasks p →
  let '(tasks', p') := run_schedule sched tasks p in race_inv next tasks' p'.
Proof.
  revert tasks p. induction sched as [ | [k spurious] sched IH ]; intros tasks p Hinv; [ done | ].
  cbn [run_schedule]. destruct (tasks !! k) as [c | ] eqn:Hk; [ | by apply IH ].
  pose proof (race_step next tasks p k c spurious Hinv Hk) as H.
  destruct (step spurious c p) as [c' p']. by apply IH.
Qed.

(** Tasks that only acquire never share a slab. Any number of tasks
    call [acquire] on the initialised pool and are interleaved in any way,
    step by atomic step, with any spurious compare-exchange failures: no two
    of them ever hold the same slab. *)
Theorem concurrent_acquires_distinct garbage n sched i j t t' :
  let tasks := (run_schedule sched (replicate n AcqLoad) (init garbage pool_new)).1 in
  i ≠ j → owned <$> tasks !! i = Some (Some t) → owned <$> tasks !! j = Some (Some t') → t ≠ t'.
Proof.
  destruct (init_state garbage pool_new) as [l [Hl Hlen Hc Hnd _ _ _]].
  pose proof (run_schedule_race (λ i, bs_next_free (aget l i)) sched (replicate n AcqLoad)
    (init garbage pool_new)) as H.
  cbv zeta. destruct (run_schedule _ _ _) as [tasks p]. cbn [fst].
  destruct H as (fl & l' & _ & _ & _ & _ & _ & Hnd').
  { exists (seqZ 0 POOL_SIZE), l. split_and!; try done.
    - apply Forall_replicate. done.
    - assert (omap owned (replicate n AcqLoad) = []) as -> by (by induction n); done. }
  intros Hne Hi Hj <-. apply NoDup_app in Hnd' as [Hnd' _].
  destruct (tasks !! i) as [ci | ] eqn:Ei; [ | done ]. destruct (tasks !! j) as [cj | ] eqn:Ej; [ | done ].
  cbn in Hi, Hj. injection Hi as Hi. injection Hj as Hj. clear -Hne Ei Ej Hi Hj Hnd'.
  revert i j Hne Ei Ej. induction tasks as [ | c tasks IH ]; intros i j Hne Ei Ej; [ done | ].
  assert (Hin : ∀ k c', tasks !! k = Some c' → owned c' = Some t → t ∈ omap owned tasks).
  { intros k c' Hk Ho. apply list_elem_of_omap. exists c'. split; [ | done ]. by eapply list_elem_of_lookup_2. }
  cbn in Hnd'. destruct i as [ | i ], j as [ | j ]; cbn in Ei, Ej; simplify_eq.
  - rewrite Hi in Hnd'. apply NoDup_cons in Hnd' as [Hn _]. by apply Hn, (Hin j cj).
  - rewrite Hj in Hnd'. apply NoDup_cons in Hnd' as [Hn _]. by apply Hn, (Hin i ci).
  - apply (IH) with i j; [ | congruence | done | done ].
    destruct (owned c); [ by apply NoDup_cons in Hnd' as [_ ?] | done ].
Qed.

Lemma concurrent_acquires_distinct_witness :
  let tasks := (run_schedule (((λ k, (k, false)) <$> [0; 1; 0; 1; 0; 1; 1; 1; 1; 0; 0; 0; 1; 1]%nat))
                  (replicate 2 AcqLoad) (init (λ _, []) pool_new)).1 in
  tasks = [AcqRet (Some 0); AcqRet (Some 1)] ∧ 0 ≠ 1.
Proof.
  cbv zeta. split; [ vm_compute; reflexivity | ].
  apply (concurrent_acquires_distinct (λ _, []) 2
           ((λ k, (k, false)) <$> [0; 1; 0; 1; 0; 1; 1; 1; 1; 0; 0; 0; 1; 1]%nat) 0 1);
    [ done | vm_compute; reflexivity | vm_compute; reflexivity ].
Defined.

(** The ABA window. [acquire] reads a slab's link and later installs it
    with a compare-exchange on the bare index. If between the two another
    task acquires that slab and the next one and releases the first, the
    exchange succeeds and puts the second slab, still in use, back on the
    list: a third acquisition returns it. Task 0 is the interrupted one,
    calls 1 to 3 are the other task's, call 4 is any later one. *)
Theorem aba_double_acquire garbage :
  (run_schedule
     (((λ k, (k, false)) <$> [0; 0]%nat) ++ replicate 6 (1, false)%nat ++ replicate 6 (2, false)%nat ++
      replicate 6 (3, false)%nat ++ replicate 4 (0, false)%nat ++ replicate 6 (4, false)%nat)
     [AcqLoad; AcqLoad; AcqLoad; RelLoad 0; AcqLoad] (init garbage pool_new)).1
  = [AcqRet (Some 0); AcqRet (Some 0); AcqRet (Some 1); RelRet; AcqRet (Some 1)].
Proof. vm_compute. reflexivity. Qed.

(** [get_free_count] truncates the count to a byte: it is the number of
    free slabs modulo 256, so an untouched pool of 353 slabs reports 97, and
    one with 256 free slabs reports none. *)
Theorem free_count_truncated p :
  pool_inv p →
  get_free_count p = bp_free_count p mod 256 ∧
  (get_free_count p = bp_free_count p ↔ bp_free_count p < 256) ∧
  get_free_count (init (λ _, []) p) = 97.
Proof.
  intros (fl & l & []). unfold get_free_count, u8. split; [ case_match; lia | ].
  split; [ case_match; lia | reflexivity ].
Qed.

Lemma free_count_truncated_witness :
  get_free_count (init (λ _, []) pool_new) = bp_free_count (init (λ _, []) pool_new) mod 256.
Proof.
  destruct (init_state (λ _, []) pool_new) as [l Hl].
  assert (Hinv : pool_inv (init (λ _, []) pool_new)) by (exists (seqZ 0 POOL_SIZE), l; exact Hl).
  exact (proj1 (free_count_truncated _ Hinv)).
Defined.
