(* ===== verification/ProtocolSelector.v ===== *)
(** * Transport choice (components/protocol/protocol_selector.{hpp,cpp})

    Scores ESP-NOW against LoRa for one packet, with a reliability bias
    recomputed from the transports' success rates. [float] is IEEE binary32
    with rounding to nearest, computed with the Standard Library's
    [SpecFloat]. *)

From Stdlib Require Import ZArith Lia SpecFloat.
From stdpp Require Import base list numbers option.
From S2P Require Import Prelude.
From S2P Require Import Packet.
Open Scope Z_scope.
Open Scope flp_scope.

Definition float32 : Type := spec_float.
Definition f32_of_Z (z : Z) : float32 := binary_normalize 24 128 z 0 false.
Definition f32_div : float32 → float32 → float32 := SFdiv 24 128.
Definition f32_sub : float32 → float32 → float32 := SFsub 24 128.
Definition f32_add : float32 → float32 → float32 := SFadd 24 128.
(** The literal [0.1f]. *)
Definition f32_tenth : float32 := S754_finite false 13421773 (-27).

Inductive Transport := ESPNOW | LORA.

Record TransportMetrics := mk_metrics {
  tm_tx_count : Z;
  tm_tx_fail_count : Z;
  tm_total_latency_ms : Z;
  tm_retransmit_count : Z;
  tm_rx_count : Z;
  tm_duty_cycle_ms : Z
}.
Definition metrics_new : TransportMetrics := mk_metrics 0 0 0 0 0 0.

Definition avg_latency_ms (m : TransportMetrics) : Z :=
  if tm_tx_count m >? 0 then tm_total_latency_ms m / tm_tx_count m else 0.

Definition success_rate (m : TransportMetrics) : float32 :=
  if tm_tx_count m >? 0
  then f32_sub (f32_of_Z 1) (f32_div (f32_of_Z (tm_tx_fail_count m)) (f32_of_Z (tm_tx_count m)))
  else f32_of_Z 1.

Record ProtocolSelector := mk_selector {
  ps_espnow : TransportMetrics;
  ps_lora : TransportMetrics;
  ps_bias : Z                    (* reliability_bias_ *)
}.
#[export] Instance eta_ProtocolSelector : Eta ProtocolSelector := fun s =>
  mk_selector (ps_espnow s) (ps_lora s) (ps_bias s).
Definition selector_new : ProtocolSelector := mk_selector metrics_new metrics_new 0.

Definition lora_success_rate (s : ProtocolSelector) : float32 := success_rate (ps_lora s).

Definition recalculate_bias (s : ProtocolSelector) : ProtocolSelector :=
  let espnow_rate := success_rate (ps_espnow s) in
  let lora_rate := success_rate (ps_lora s) in
  if (tm_tx_count (ps_espnow s) >? 5) && (tm_tx_count (ps_lora s) >? 5) then
    if SFltb (f32_add lora_rate f32_tenth) espnow_rate then s <| ps_bias := 2 |>
    else if SFltb (f32_add espnow_rate f32_tenth) lora_rate then s <| ps_bias := -2 |>
    else s <| ps_bias := 0 |>
  else s.

Definition count_result (success : bool) (latency_ms : Z) (m : TransportMetrics) : TransportMetrics :=
  mk_metrics (u32 (tm_tx_count m + 1))
    (if negb success then u32 (tm_tx_fail_count m + 1) else tm_tx_fail_count m)
    (u32 (tm_total_latency_ms m + latency_ms))
    (tm_retransmit_count m) (tm_rx_count m) (tm_duty_cycle_ms m).

Definition report_tx_result (t : Transport) (success : bool) (latency_ms : Z) (s : ProtocolSelector)
    : ProtocolSelector :=
  match t with
  | ESPNOW => s <| ps_espnow ::= count_result success latency_ms |>
  | LORA => s <| ps_lora ::= count_result success latency_ms |>
  end.

(** [(espnow_score, lora_score)] *)
Definition scores (rssi hop_count payload_size : Z) (battery_pct : float32) (bias : Z) : Z * Z :=
  let '(e, l) := if rssi >? -60 then (3, 0) else if rssi >? -80 then (1, 0) else (0, 3) in
  let '(e, l) := if hop_count <=? 1 then (e + 2, l) else if hop_count >? 3 then (e, l + 3) else (e, l) in
  let e := if payload_size >? LORA_MAX_PAYLOAD / 2 then e + 2 else e in
  let e := if SFltb battery_pct (f32_of_Z 20) then e + 2 else e in
  if bias >? 0 then (e + bias, l) else (e, l + - bias).

Definition select (rssi hop_count payload_size : Z) (battery_pct : float32) (s : ProtocolSelector)
    : Transport :=
  if payload_size >? LORA_MAX_PAYLOAD then ESPNOW
  else
    let '(espnow_score, lora_score) := scores rssi hop_count payload_size battery_pct (ps_bias s) in
    if espnow_score >=? lora_score then ESPNOW else LORA.

Definition metrics_bytes (m : TransportMetrics) : list Z :=
  le_bytes 4 (tm_tx_count m) ++ le_bytes 4 (tm_tx_fail_count m) ++
  le_bytes 4 (tm_total_latency_ms m) ++ le_bytes 4 (tm_retransmit_count m) ++
  le_bytes 4 (tm_rx_count m) ++ le_bytes 4 (tm_duty_cycle_ms m).

Definition serialize_metrics (max_len : Z) (s : ProtocolSelector) : option (list Z) :=
  if max_len <? 48 then None else Some (metrics_bytes (ps_espnow s) ++ metrics_bytes (ps_lora s)).

(** ** Correctness *)

Inductive selector_op := SReport (t : Transport) (success : bool) (latency : Z) | SRecalculate.
Definition run_selector_op (s : ProtocolSelector) (o : selector_op) : ProtocolSelector :=
  match o with
  | SReport t ok l => report_tx_result t ok l s
  | SRecalculate => recalculate_bias s
  end.

Lemma bias_values ops :
  ps_bias (fold_left run_selector_op ops selector_new) ∈ [-2; 0; 2].
Proof.
  assert (H : ∀ s, ps_bias s ∈ [-2; 0; 2] → ps_bias (fold_left run_selector_op ops s) ∈ [-2; 0; 2]).
  { induction ops as [ | o ops IH ]; intros s Hs; [ done | ]. cbn. apply IH.
    destruct o as [[] | ]; cbn; [ done | done | ]. unfold recalculate_bias. cbv zeta.
    repeat case_match; cbn; try done; rewrite !elem_of_cons; auto. }
  apply H. cbn. rewrite !elem_of_cons. auto.
Qed.

(** The transport choice respects the radios. After any history of
    reported results, LoRa is never chosen for a payload its 255-byte frame
    cannot carry, nor for a neighbour within one hop heard above -80 dBm, nor
    (unless LoRa proved the more reliable) for one heard above -80 dBm within
    three hops; and a weak signal (at most -80 dBm) beyond three hops with a
    small payload and a full enough battery always gets it. *)
Theorem select_sound ops rssi hops size battery :
  let s := fold_left run_selector_op ops selector_new in
  let r := select rssi hops size battery s in
  (r = LORA → size <= LORA_MAX_PAYLOAD ∧ ¬ (hops <= 1 ∧ -80 < rssi) ∧
              (-80 < rssi → hops <= 3 → ps_bias s = -2)) ∧
  (rssi <= -80 → hops > 3 → size <= 123 → SFltb battery (f32_of_Z 20) = false → r = LORA).
Proof.
  cbv zeta. pose proof (bias_values ops) as Hb. set (s := fold_left _ _ _) in *. clearbody s.
  assert (Hbias : ps_bias s = -2 ∨ ps_bias s = 0 ∨ ps_bias s = 2).
  { rewrite !elem_of_cons, elem_of_nil in Hb. naive_solver. }
  unfold select, scores, LORA_MAX_PAYLOAD, PACKET_HEADER_SIZE in *.
  change ((255 - 8) / 2) with 123. change (255 - 8) with 247.
  destruct (size >? 247) eqn:E1; [ split; [ done | lia ] | ].
  destruct (SFltb battery (f32_of_Z 20)); split; intros;
    destruct Hbias as [Hx | [Hx | Hx]]; rewrite Hx in *;
    destruct (rssi >? -60) eqn:E2; destruct (rssi >? -80) eqn:E3; destruct (hops <=? 1) eqn:E4;
    destruct (hops >? 3) eqn:E5; destruct (size >? 123) eqn:E6;
    cbn [Z.gtb Z.add Z.opp] in *; try lia; try done.
  all: repeat split; lia || done.
Qed.
