(* ===== verification/TopicTable.v ===== *)
(** * MQTT-SN style topic table (components/mqtt_client/include/topic_table.hpp)

    Sixteen entries that map 63-character topic names to 16-bit identifiers.
    A C string is the list of its bytes before the terminator. The FreeRTOS
    mutex makes each operation atomic; whether it was created is a field and
    whether taking it succeeded an argument. *)

From Stdlib Require Import ZArith Lia.
From stdpp Require Import base list numbers option sets.
From S2P Require Import Prelude.
Open Scope Z_scope.
Open Scope flp_scope.

Definition TOPIC_NAME_SIZE : nat := 64.
Definition MAX_TOPICS : Z := 16.

Record TopicEntry := mk_topic { te_id : Z; te_name : list Z; te_registered : bool }.

(** [entries_[0 .. count_)]; the rest of the array is zero. *)
Record TopicTable := mk_table {
  tt_entries : list TopicEntry;
  tt_next_id : Z;
  tt_mutex : bool
}.
Definition tt_count (t : TopicTable) : Z := u8 (Z.of_nat (length (tt_entries t))).

Definition table_new (mutex : bool) : TopicTable := mk_table [] 1 mutex.

(** [strncmp(a, b, n) == 0] on terminated strings. *)
Fixpoint strncmp_eq (n : nat) (a b : list Z) : bool :=
  match n with
  | O => true
  | S n' =>
      match a, b with
      | [], [] => true
      | x :: a', y :: b' => (x =? y) && strncmp_eq n' a' b'
      | _, _ => false
      end
  end.

(** [strncpy(dst, name, 63); dst[63] = 0]. *)
Definition store_name (name : list Z) : list Z := take (TOPIC_NAME_SIZE - 1) name.

Definition entry_named (name : list Z) (e : TopicEntry) : bool :=
  te_registered e && strncmp_eq TOPIC_NAME_SIZE (te_name e) name.
Definition entry_with_id (id : Z) (e : TopicEntry) : bool :=
  te_registered e && (te_id e =? id).

(** A null name is [None]; 0 is the code's failure value. *)
Definition register_topic (take_ok : bool) (name : option (list Z)) (t : TopicTable)
    : Z * TopicTable :=
  match name with
  | None => (0, t)
  | Some name =>
      if negb (tt_mutex t) then (0, t)
      else if negb take_ok then (0, t)
      else match find_first (entry_named name) (tt_entries t) with
      | Some e => (te_id e, t)
      | None =>
          if tt_count t >=? MAX_TOPICS then (0, t)
          else
            let new_id := tt_next_id t in
            (new_id, mk_table (tt_entries t ++ [mk_topic new_id (store_name name) true])
                       (u16 (tt_next_id t + 1)) (tt_mutex t))
      end
  end.

Definition lookup (take_ok : bool) (id : Z) (t : TopicTable) : option (list Z) :=
  if negb (tt_mutex t) then None
  else if negb take_ok then None
  else te_name <$> find_first (entry_with_id id) (tt_entries t).

(** ** Correctness *)

Lemma strncmp_eq_spec n a b :
  (length a < n)%nat → strncmp_eq n a b = bool_decide (a = b).
Proof.
  revert n b. induction a as [ | x a IH ]; intros n b Hl; destruct n as [ | n ]; cbn in *; try lia.
  - by destruct b.
  - destruct b as [ | y b ]; [ done | ]. rewrite IH by lia.
    apply eq_true_iff_eq. rewrite andb_true_iff, Z.eqb_eq, !bool_decide_eq_true. naive_solver.
Qed.

(** Entries are numbered from 1 in order; names are short and, unless
    truncated to 63 characters, different. *)
Record table_inv (t : TopicTable) : Prop := {
  ti_len : Z.of_nat (length (tt_entries t)) <= MAX_TOPICS;
  ti_next : tt_next_id t = Z.of_nat (length (tt_entries t)) + 1;
  ti_ids : ∀ k e, tt_entries t !! k = Some e →
    te_id e = Z.of_nat k + 1 ∧ te_registered e = true ∧ (length (te_name e) <= 63)%nat;
  ti_names : ∀ j k e f, tt_entries t !! j = Some e → tt_entries t !! k = Some f →
    te_name e = te_name f → (length (te_name e) < 63)%nat → j = k
}.

Lemma table_new_inv m : table_inv (table_new m).
Proof. split; cbn; [ unfold MAX_TOPICS; lia | done | done | done ]. Qed.

Lemma find_named t name e :
  table_inv t → find_first (entry_named name) (tt_entries t) = Some e →
  te_name e = name ∧ e ∈ tt_entries t.
Proof.
  intros [] (Hin & Hp)%find_first_Some. split; [ | done ].
  apply list_elem_of_lookup in Hin as [k Hk]. destruct (ti_ids0 k e Hk) as (_ & Hr & Hl).
  unfold entry_named in Hp. rewrite Hr, strncmp_eq_spec in Hp by (unfold TOPIC_NAME_SIZE; lia).
  by apply bool_decide_eq_true in Hp.
Qed.

Lemma find_with_id t id :
  table_inv t → find_first (entry_with_id id) (tt_entries t) =
  if id <=? 0 then None else tt_entries t !! Z.to_nat (id - 1).
Proof.
  intros []. destruct (find_first _ _) as [e | ] eqn:E.
  - apply find_first_Some in E as [[k Hk]%list_elem_of_lookup Hp].
    destruct (ti_ids0 k e Hk) as (Hid & Hr & _). unfold entry_with_id in Hp. rewrite Hr in Hp.
    apply Z.eqb_eq in Hp. cbn in Hp. replace (id <=? 0) with false by lia.
    rewrite <- Hk. f_equal. lia.
  - case_match eqn:Ei; [ done | ]. symmetry. apply eq_None_not_Some. intros [e He].
    destruct (ti_ids0 _ e He) as (Hid & Hr & _).
    rewrite find_first_None in E. specialize (E e ltac:(by eapply list_elem_of_lookup_2)).
    unfold entry_with_id in E. rewrite Hr in E. cbn in E. lia.
Qed.

Lemma register_inv ok name t : table_inv t → table_inv (register_topic ok name t).2.
Proof.
  intros Hinv. pose proof Hinv as []. unfold register_topic.
  destruct name as [name | ]; [ | done ]. destruct (negb (tt_mutex t)); [ done | ].
  destruct (negb ok); [ done | ].
  destruct (find_first _ _) eqn:Ef; [ done | ]. destruct (_ >=? _) eqn:Ec; [ done | ].
  unfold tt_count, MAX_TOPICS in *. cbn [snd].
  assert (Hnew : ∀ k e, (tt_entries t ++ [mk_topic (tt_next_id t) (store_name name) true]) !! k = Some e →
     tt_entries t !! k = Some e ∨
     k = length (tt_entries t) ∧ e = mk_topic (tt_next_id t) (store_name name) true).
  { intros k e [H | (Hk & H)]%lookup_app_Some; [ by left | right ].
    destruct (k - length (tt_entries t))%nat eqn:En; [ | done ].
    simpl in H. injection H as <-. split; [ lia | done ]. }
  assert (Hfresh : ∀ k e, tt_entries t !! k = Some e → te_name e = store_name name →
     (length (te_name e) < 63)%nat → False).
  { intros k e Hk He Hl. rewrite find_first_None in Ef.
    specialize (Ef e ltac:(by eapply list_elem_of_lookup_2)). destruct (ti_ids0 k e Hk) as (_ & Hr & _).
    unfold entry_named in Ef. rewrite Hr, strncmp_eq_spec in Ef by (unfold TOPIC_NAME_SIZE; lia).
    apply bool_decide_eq_false in Ef. apply Ef. rewrite He in *. unfold store_name, TOPIC_NAME_SIZE in *.
    rewrite length_take in Hl. by rewrite take_ge by lia. }
  split; cbn [tt_entries tt_next_id].
  - rewrite length_app. cbn. unfold MAX_TOPICS. int_lia.
  - rewrite length_app. cbn. int_lia.
  - intros k e [Hk | [-> ->]]%Hnew; [ by apply ti_ids0 | ]. cbn. split; [ lia | ]. split; [ done | ].
    unfold store_name, TOPIC_NAME_SIZE. rewrite length_take. lia.
  - intros j k e f [Hj | [-> ->]]%Hnew [Hk | [-> ->]]%Hnew Hn Hl.
    + by eapply ti_names0.
    + by destruct (Hfresh _ _ Hj Hn Hl).
    + destruct (Hfresh _ _ Hk); [ done | by rewrite <- Hn ].
    + done.
Qed.

Fixpoint register_all (names : list (list Z)) (t : TopicTable) : TopicTable :=
  match names with
  | [] => t
  | n :: ns => register_all ns (register_topic true (Some n) t).2
  end.

Lemma register_all_inv names t : table_inv t → table_inv (register_all names t).
Proof.
  revert t. induction names as [ | n ns IH ]; intros t Ht; [ done | ]. by apply IH, register_inv.
Qed.

Lemma register_all_mutex names t : tt_mutex (register_all names t) = tt_mutex t.
Proof.
  revert t. induction names as [ | n ns IH ]; intros t; [ done | ]. cbn [register_all].
  rewrite IH. unfold register_topic. by repeat case_match.
Qed.

(** The table maps names to identifiers and back. On the table built by
    registering any names, registering [name] is idempotent when a name of
    fewer than 63 characters is already there; a name not there gets a fresh
    identifier that [lookup] maps to the name cut at 63 characters, while all
    earlier identifiers keep their meaning; and it fails with 0, changing
    nothing, only when the 16 entries are used. *)
Theorem topic_table_correct names name :
  let t := register_all names (table_new true) in
  let '(id, t') := register_topic true (Some name) t in
  (∀ e, e ∈ tt_entries t → te_name e = name → (length name < 63)%nat → id = te_id e ∧ t' = t) ∧
  ((∀ e, e ∈ tt_entries t → te_name e ≠ name) →
     if tt_count t <? MAX_TOPICS
     then lookup true id t = None ∧ lookup true id t' = Some (take 63 name) ∧
          ∀ i, i ≠ id → lookup true i t' = lookup true i t
     else id = 0 ∧ t' = t).
Proof.
  pose proof (register_all_mutex names (table_new true)) as Hmutex.
  pose proof (register_all_inv names _ (table_new_inv true)) as Hinv.
  set (t := register_all _ _) in *. clearbody t. cbn in Hmutex.
  pose proof (register_inv true (Some name) t Hinv) as Hinv'. revert Hinv'.
  unfold register_topic. rewrite Hmutex. cbn [negb].
  destruct (find_first (entry_named name) (tt_entries t)) as [e0 | ] eqn:Ef.
  - intros _. destruct (find_named _ _ _ Hinv Ef) as [Hn Hin]. split; [ | intros H; by apply H in Hin ].
    intros e He Hne Hl. split; [ | done ].
    apply list_elem_of_lookup in Hin as [j Hj], He as [k Hk]. pose proof Hinv as [].
    assert (j = k) as -> by (eapply ti_names0; [ done | done | congruence | by rewrite Hn ]).
    congruence.
  - rewrite find_first_None in Ef. unfold tt_count. pose proof Hinv as [Hlen Hnext Hids _].
    rewrite u8_small by (unfold MAX_TOPICS in *; int_lia).
    intros Hinv'. replace (_ <? MAX_TOPICS) with (negb (Z.of_nat (length (tt_entries t)) >=? MAX_TOPICS)) by lia.
    assert (Hno : ∀ e, e ∈ tt_entries t → te_name e = name → (length name < 63)%nat → False).
    { intros e He <- Hl. specialize (Ef e He). apply list_elem_of_lookup in He as [k Hk].
      destruct (Hids k e Hk) as (_ & Hr & _). unfold entry_named in Ef.
      rewrite Hr, strncmp_eq_spec in Ef by (unfold TOPIC_NAME_SIZE; lia).
      by apply bool_decide_eq_false in Ef. }
    destruct (_ >=? _) eqn:Ec; cbn [negb snd] in *; (split; [ intros; exfalso; by eapply Hno | ]); intros _;
      [ done | ].
    unfold lookup. cbn [tt_mutex tt_entries]. rewrite Hmutex. cbn [negb].
    split_and!.
    + rewrite (find_with_id t) by done. case_match; [ done | ].
      rewrite lookup_ge_None_2 by lia. done.
    + pose proof (find_with_id _ (tt_next_id t) Hinv') as H. cbn [tt_entries] in H. rewrite H.
      replace (_ <=? 0) with false by lia. rewrite lookup_app_r by lia.
      replace (Z.to_nat (tt_next_id t - 1) - length (tt_entries t))%nat with O by lia. done.
    + intros i Hi. pose proof (find_with_id _ i Hinv') as H. cbn [tt_entries] in H. rewrite H.
      rewrite (find_with_id t) by done. case_match; [ done | ]. f_equal.
      destruct (decide (Z.to_nat (i - 1) < length (tt_entries t))%nat).
      * by rewrite lookup_app_l.
      * rewrite !lookup_ge_None_2; [ done | lia | rewrite length_app; cbn; lia ].
Qed.

(** A name of 64 or more characters never matches the 63 characters
    kept of it: every registration adds another entry under a new
    identifier, so sixteen of them fill the table and the seventeenth fails. *)
Theorem long_topic_duplicates names name :
  (64 <= length name)%nat →
  let t := register_all names (table_new true) in
  let '(id, t') := register_topic true (Some name) t in
  if tt_count t <? MAX_TOPICS
  then id = tt_next_id t ∧ length (tt_entries t') = S (length (tt_entries t))
  else id = 0 ∧ t' = t.
Proof.
  intros Hl. pose proof (register_all_mutex names (table_new true)) as Hmutex.
  pose proof (register_all_inv names _ (table_new_inv true)) as Hinv.
  set (t := register_all _ _) in *. clearbody t. cbn in Hmutex.
  unfold register_topic. rewrite Hmutex. cbn [negb].
  destruct (find_first (entry_named name) (tt_entries t)) as [e0 | ] eqn:Ef.
  - destruct (find_named _ _ _ Hinv Ef) as [Hn Hin]. apply list_elem_of_lookup in Hin as [k Hk].
    pose proof Hinv as []. destruct (ti_ids0 k e0 Hk) as (_ & _ & Hs). rewrite Hn in Hs. lia.
  - replace (tt_count t <? MAX_TOPICS) with (negb (tt_count t >=? MAX_TOPICS)) by lia.
    destruct (_ >=? _); cbn [negb]; [ done | ]. split; [ done | ]. cbn. rewrite length_app. cbn. lia.
Qed.

Lemma long_topic_duplicates_witness :
  let name := replicate 64 97 in
  let t1 := (register_topic true (Some name) (table_new true)).2 in
  (register_topic true (Some name) t1).1 = 2 ∧ length (tt_entries (register_topic true (Some name) t1).2) = 2%nat.
Proof.
  cbv zeta.
  pose proof (long_topic_duplicates [replicate 64 97] (replicate 64 97)
    ltac:(rewrite length_replicate; lia)) as H.
  cbn [register_all] in H. destruct (register_topic true (Some (replicate 64 97)) _) as [id t'] in H |- *.
  exact H.
Defined.
