(* ===== verification/MqttClient.v ===== *)
(** * MQTT client (mqtt_client/mqtt_client.cpp)

    The queues between the mesh task, the MQTT task and the broker's event
    task, the fragment pipeline of an exit node, and the parsing of what the
    cloud publishes. ESP-MQTT is a parameter ([MqttHost]) that acts on an
    abstract world. The state is that after a successful [init]: every queue
    and the mutex exist, so a take that waits forever succeeds.
    [process_fragment_publish] is a machine of atomic steps ([pub_step]), one
    per critical section, queue operation or load, so that the mesh task can
    be interleaved with it; run alone it is [process_fragment_publish]. *)

From Stdlib Require Import ZArith Lia String.
From stdpp Require Import base list numbers option sets.
From S2P Require Import Prelude.
From S2P Require Import CString.
From S2P Require Import Packet.
From S2P Require Import Fec.
From S2P Require Import SelectiveRepeat.
From S2P Require Import Receiver.
From S2P Require Import TopicTable.
Open Scope Z_scope.
Open Scope flp_scope.

(** ** Constants *)

Definition MQTT_CHUNK_PAYLOAD : Z := 500.
Definition MQTT_PUBLISH_QUEUE_DEPTH : Z := 16.
Definition MQTT_FILE_QUEUE_DEPTH : Z := 2.
(** [sizeof] of the legacy request is 296 and of [FragmentPublishRequest]
    1516 on the 32-bit target. *)
Definition MQTT_FRAGMENT_QUEUE_DEPTH : Z := 512 * 296 / 1516.
Definition MQTT_ACK_QUEUE_DEPTH : Z := 32.
Definition MQTT_NACK_QUEUE_DEPTH : Z := 16.
Definition MQTT_CMD_QUEUE_DEPTH : Z := 8.
(** At [configTICK_RATE_HZ] = 1000. *)
Definition MQTT_HEARTBEAT_INTERVAL : Z := 30000.
Definition MQTT_TRANSFER_COMPLETE_QUEUE_DEPTH : Z := 8.
Definition MQTT_OUTBOX_HIGH_WATER_BYTES : Z := 48 * 1024.
Definition MAX_TRACKED_TRANSFER_FRAGMENTS : Z := 60000.
Definition FRAGMENT_BITMAP_BYTES : Z := (MAX_TRACKED_TRANSFER_FRAGMENTS + 7) / 8.
Definition RECENT_PUBLISH_RING_SIZE : Z := 64.
Definition RECENT_PUBLISH_REPLAY_MS : Z := 15000.

(** ** Data *)

Record MqttPublishItem := mk_pub_item {
  pi_topic_id : Z;
  pi_data : list Z;
  pi_qos : Z
}.

Record FilePublishRequest := mk_file_req {
  fr_filename : list Z;
  fr_data : list Z;
  fr_src_node : Z
}.

Record FragmentPublishRequest := mk_frag {
  fg_session_id : Z;
  fg_seq : Z;
  fg_src_node : Z;
  fg_data : list Z;
  fg_filename : list Z
}.

Record MeshCmdItem := mk_cmd {
  cm_target_addr : Z;
  cm_cmd_id : Z;
  cm_data : list Z
}.

Record RecentPublishEntry := mk_recent {
  re_session_id : Z;
  re_seq : Z;
  re_publish_ms : Z
}.
#[export] Instance RecentPublishEntry_inhabited : Inhabited RecentPublishEntry :=
  populate (mk_recent 0 0 0).

Record MqttClient := mk_mqtt {
  mq_node_addr : Z;
  mq_client : bool;                       (* client_ is not null *)
  mq_connected : bool;
  mq_topic_table : TopicTable;
  mq_status_topic_id : Z;
  mq_publish_queue : list MqttPublishItem;
  mq_file_queue : list FilePublishRequest;
  mq_fragment_queue : list FragmentPublishRequest;
  mq_pending : option FragmentPublishRequest;  (* pending_fragment_, when have_pending_fragment_ *)
  mq_queued : list Z;                     (* the three bitmaps, as bytes *)
  mq_accepted : list Z;
  mq_ack_pending : list Z;
  mq_ring : list RecentPublishEntry;
  mq_ring_write : Z;
  mq_fragment_acks : list (Z * Z);        (* (session_id, seq) *)
  mq_acks : list (Z * Z);
  mq_nacks : list (Z * Z);
  mq_cmds : list MeshCmdItem;
  mq_completes : list Z;
  mq_session : Z                          (* active_transfer_session_ *)
}.
#[export] Instance eta_MqttClient : Eta MqttClient := fun m =>
  mk_mqtt (mq_node_addr m) (mq_client m) (mq_connected m) (mq_topic_table m)
    (mq_status_topic_id m) (mq_publish_queue m) (mq_file_queue m) (mq_fragment_queue m)
    (mq_pending m) (mq_queued m) (mq_accepted m) (mq_ack_pending m) (mq_ring m)
    (mq_ring_write m) (mq_fragment_acks m) (mq_acks m) (mq_nacks m) (mq_cmds m)
    (mq_completes m) (mq_session m).

Definition bitmap_zero : list Z := replicate (Z.to_nat FRAGMENT_BITMAP_BYTES) 0.
Definition ring_zero : list RecentPublishEntry :=
  replicate (Z.to_nat RECENT_PUBLISH_RING_SIZE) (mk_recent 0 0 0).

(** ESP-MQTT, the clock and the callbacks. *)
Record MqttHost {W : Type} := mk_mqtt_host {
  bh_publish : W → list Z → list Z → Z → Z * W;   (* topic, payload, qos; message id *)
  bh_subscribe : W → list Z → Z → W;
  bh_outbox : W → Z;
  bh_now : W → Z;                                 (* milliseconds *)
  bh_crc32_le : Z → list Z → Z;
  bh_connected_bit : W → W;
  bh_rx_callback : option (W → list Z → list Z → W)
}.
Arguments MqttHost : clear implicits.
Arguments mk_mqtt_host {W}.

(** ** Queues and bitmaps *)

Definition xQueueSend {A} (cap : Z) (x : A) (q : list A) : bool * list A :=
  if Z.of_nat (length q) <? cap then (true, q ++ [x]) else (false, q).
Definition xQueueSendToFront {A} (cap : Z) (x : A) (q : list A) : bool * list A :=
  if Z.of_nat (length q) <? cap then (true, x :: q) else (false, q).

Definition is_trackable_fragment (seq : Z) : bool := seq <? MAX_TRACKED_TRANSFER_FRAGMENTS.
Definition bitmap_test (bm : list Z) (seq : Z) : bool :=
  is_trackable_fragment seq && bitmap_bit bm (seq / 8) (bit_mask seq).
Definition bitmap_mark (bm : list Z) (seq : Z) : list Z :=
  if is_trackable_fragment seq then bitmap_set bm (seq / 8) (bit_mask seq) else bm.
Definition bitmap_clear (bm : list Z) (seq : Z) : list Z :=
  if is_trackable_fragment seq
  then aset bm (seq / 8) (Z.land (aget bm (seq / 8)) (u8 (Z.lnot (bit_mask seq)))) else bm.

(** ** Topics *)

Definition node_topic (suffix : list Z) (m : MqttClient) : list Z :=
  str "flp/" ++ hex4 false (mq_node_addr m) ++ suffix.

Definition register (name : list Z) (t : TopicTable) : TopicTable :=
  (register_topic true (Some name) t).2.

Definition register_default_topics (m : MqttClient) : MqttClient :=
  let '(id, t) := register_topic true (Some (node_topic (str "/status") m)) (mq_topic_table m) in
  let t := register (node_topic (str "/file/data") m) t in
  let t := register (node_topic (str "/file/meta") m) t in
  let t := register (str "flp/admin/cmd") t in
  let t := register (str "flp/admin/ack/+") t in
  m <| mq_status_topic_id := id |> <| mq_topic_table := t |>.

(** After [init] succeeds; the broker is not connected yet. *)
Definition mqtt_init (node_addr : Z) : MqttClient :=
  register_default_topics
    (mk_mqtt node_addr true false (table_new true) 0 [] [] [] None bitmap_zero bitmap_zero
       bitmap_zero ring_zero 0 [] [] [] [] [] 0).

(** ** Sessions *)

Definition reset_transfer_runtime_state (m : MqttClient) : MqttClient :=
  m <| mq_fragment_queue := [] |> <| mq_fragment_acks := [] |> <| mq_acks := [] |>
    <| mq_nacks := [] |> <| mq_completes := [] |> <| mq_pending := None |>
    <| mq_queued := bitmap_zero |> <| mq_accepted := bitmap_zero |>
    <| mq_ack_pending := bitmap_zero |> <| mq_ring := ring_zero |> <| mq_ring_write := 0 |>.

Definition activate_transfer_session (session_id : Z) (m : MqttClient) : MqttClient :=
  let prev := mq_session m in
  let m := m <| mq_session := session_id |> in
  if negb (prev =? session_id) then reset_transfer_runtime_state m else m.

Definition clear_transfer_session (session_id : Z) (m : MqttClient) : MqttClient :=
  if mq_session m =? session_id
  then reset_transfer_runtime_state (m <| mq_session := 0 |>) else m.

Definition is_fragment_queue_congested (m : MqttClient) : bool :=
  if negb (mq_session m =? 0) && negb (mq_connected m) then true
  else match mq_pending m with
       | Some _ => true
       | None => MQTT_FRAGMENT_QUEUE_DEPTH - Z.of_nat (length (mq_fragment_queue m))
                 <? MQTT_FRAGMENT_QUEUE_DEPTH / 4
       end.

(** ** The mesh task's side of the fragment pipeline *)

Definition queue_fragment_ack (session_id seq : Z) (m : MqttClient) : bool * MqttClient :=
  if bitmap_test (mq_ack_pending m) seq then (true, m)
  else
    let '(sent, q) := xQueueSend MQTT_FRAGMENT_QUEUE_DEPTH (session_id, seq)
                        (mq_fragment_acks m) in
    if sent
    then (true, m <| mq_fragment_acks := q |>
                  <| mq_ack_pending := bitmap_mark (mq_ack_pending m) seq |>)
    else (false, m).

(** A null pointer is [None]. *)
Definition publish_fragment (session_id seq src_node : Z) (data : option (list Z))
    (filename : option (list Z)) (m : MqttClient) : bool * MqttClient :=
  match data, filename with
  | Some data, Some filename =>
      if Z.of_nat (length data) =? 0 then (false, m)
      else
        let req := mk_frag session_id seq src_node (take (Z.to_nat MAX_MTU) data)
                     (take 32 filename) in
        if negb (mq_session m =? 0) && negb (session_id =? mq_session m) then (false, m)
        else
          let already_accepted := bitmap_test (mq_accepted m) seq in
          let already_queued := bitmap_test (mq_queued m) seq in
          if already_accepted || already_queued then
            (true, if already_accepted && negb (src_node =? mq_node_addr m)
                   then (queue_fragment_ack session_id seq m).2 else m)
          else
            let '(sent, q) := xQueueSend MQTT_FRAGMENT_QUEUE_DEPTH req (mq_fragment_queue m) in
            if sent
            then (true, m <| mq_fragment_queue := q |>
                          <| mq_queued := bitmap_mark (mq_queued m) seq |>)
            else (false, m)
  | _, _ => (false, m)
  end.

(** The loop of the [drain_*] operations over the [n] items present: the
    first of the session is returned, the others go to the back. *)
Fixpoint drain_loop (n : nat) (session_id : Z) (q : list (Z * Z)) : option Z * list (Z * Z) :=
  match n, q with
  | S n', (sid, seq) :: q' =>
      if sid =? session_id then (Some seq, q') else drain_loop n' session_id (q' ++ [(sid, seq)])
  | _, _ => (None, q)
  end.

Definition drain_cloud_ack (session_id : Z) (m : MqttClient) : option Z * MqttClient :=
  let '(r, q) := drain_loop (length (mq_acks m)) session_id (mq_acks m) in
  (r, m <| mq_acks := q |>).

Definition drain_cloud_nack (session_id : Z) (m : MqttClient) : option Z * MqttClient :=
  let '(r, q) := drain_loop (length (mq_nacks m)) session_id (mq_nacks m) in
  (r, m <| mq_nacks := q |>).

Definition drain_fragment_ack (session_id : Z) (m : MqttClient) : option Z * MqttClient :=
  let '(r, q) := drain_loop (length (mq_fragment_acks m)) session_id (mq_fragment_acks m) in
  (r, m <| mq_fragment_acks := q |>
        <| mq_ack_pending ::= fun bm => match r with Some seq => bitmap_clear bm seq
                                                   | None => bm end |>).

Definition requeue_cloud_nack (session_id seq : Z) (m : MqttClient) : bool * MqttClient :=
  let '(sent, q) := xQueueSendToFront MQTT_NACK_QUEUE_DEPTH (session_id, seq) (mq_nacks m) in
  (sent, m <| mq_nacks := q |>).

Definition requeue_fragment_ack (session_id seq : Z) (m : MqttClient) : bool * MqttClient :=
  if bitmap_test (mq_ack_pending m) seq then (true, m)
  else
    let '(sent, q) := xQueueSendToFront MQTT_FRAGMENT_QUEUE_DEPTH (session_id, seq)
                        (mq_fragment_acks m) in
    if sent
    then (true, m <| mq_fragment_acks := q |>
                  <| mq_ack_pending := bitmap_mark (mq_ack_pending m) seq |>)
    else (false, m).

Definition mark_fragment_for_republish (session_id seq : Z) (m : MqttClient) : MqttClient :=
  if (mq_session m =? 0) || negb (session_id =? mq_session m) then m
  else m <| mq_accepted ::= fun bm => bitmap_clear bm seq |>.

Fixpoint consume_loop (n : nat) (session_id : Z) (q : list Z) : bool * list Z :=
  match n, q with
  | S n', sid :: q' =>
      if sid =? session_id then (true, q') else consume_loop n' session_id (q' ++ [sid])
  | _, _ => (false, q)
  end.

Definition consume_transfer_complete (session_id : Z) (m : MqttClient) : bool * MqttClient :=
  let '(r, q) := consume_loop (length (mq_completes m)) session_id (mq_completes m) in
  (r, m <| mq_completes := q |>).

Definition receive_cmd (m : MqttClient) : option MeshCmdItem * MqttClient :=
  match mq_cmds m with
  | [] => (None, m)
  | c :: q => (Some c, m <| mq_cmds := q |>)
  end.

(** A literal of the JSON formats; ['] stands for the double quote. *)
Definition json_str (s : string) : list Z := map (fun c => if c =? 39 then 34 else c) (str s).

Section mqtt.
Context {W : Type} (h : MqttHost W).
Implicit Types (m : MqttClient) (w : W).

(** ** The MQTT task's side: [process_fragment_publish] step by step *)

(** Where the loop stands: about to look at the pending slot, to pop the
    queue, to compare the session, to drop a stale request, to publish, to
    defer or record the outcome, to acknowledge; or finished. [from] is
    [from_pending]. *)
Inductive PubPc :=
  | PTake
  | PPop
  | PCheck (req : FragmentPublishRequest) (from : bool)
  | PStale (req : FragmentPublishRequest) (from : bool)
  | PSend (req : FragmentPublishRequest) (from : bool)
  | PDefer (req : FragmentPublishRequest)
  | PAccept (req : FragmentPublishRequest) (from : bool)
  | PAck (req : FragmentPublishRequest)
  | PDone.

Definition fragment_chunk (req : FragmentPublishRequest) : list Z :=
  le_bytes 2 (fg_session_id req) ++ le_bytes 2 (fg_seq req) ++ fg_data req.

(** The record of a publication in the replay ring. *)
Definition note_published (now : Z) (req : FragmentPublishRequest) m : MqttClient :=
  m <| mq_ring ::= fun r => aset r (mq_ring_write m)
                              (mk_recent (fg_session_id req) (fg_seq req) now) |>
    <| mq_ring_write := (mq_ring_write m + 1) mod RECENT_PUBLISH_RING_SIZE |>.

Definition drop_pending (from : bool) m : MqttClient :=
  if from then m <| mq_pending := None |> else m.

Definition pub_step (pc : PubPc) m w : PubPc * MqttClient * W :=
  match pc with
  | PTake =>
      (match mq_pending m with Some req => PCheck req true | None => PPop end, m, w)
  | PPop =>
      match mq_fragment_queue m with
      | [] => (PDone, m, w)
      | req :: q => (PCheck req false, m <| mq_fragment_queue := q |>, w)
      end
  | PCheck req from =>
      (if (mq_session m =? 0) || negb (fg_session_id req =? mq_session m)
       then PStale req from else PSend req from, m, w)
  | PStale req from =>
      (PTake, drop_pending from (m <| mq_queued ::= fun bm => bitmap_clear bm (fg_seq req) |>), w)
  | PSend req from =>
      let '(msg_id, w) := bh_publish h w (node_topic (str "/file/data") m)
                            (fragment_chunk req) 0 in
      (if msg_id <? 0 then PDefer req else PAccept req from, m, w)
  | PDefer req => (PDone, m <| mq_pending := Some req |>, w)
  | PAccept req from =>
      (PAck req,
       note_published (bh_now h w) req
         (drop_pending from m
            <| mq_queued ::= fun bm => bitmap_clear bm (fg_seq req) |>
            <| mq_accepted ::= fun bm => bitmap_mark bm (fg_seq req) |>), w)
  | PAck req =>
      (PTake, if negb (fg_src_node req =? mq_node_addr m)
              then (queue_fragment_ack (fg_session_id req) (fg_seq req) m).2 else m, w)
  | PDone => (PDone, m, w)
  end.

Fixpoint pub_steps (fuel : nat) (pc : PubPc) m w : PubPc * MqttClient * W :=
  match fuel with
  | O => (pc, m, w)
  | S fuel' => let '(pc, m, w) := pub_step pc m w in pub_steps fuel' pc m w
  end.

(** Six steps per request and a look that finds the queue empty. *)
Definition pub_fuel m : nat := 6 * S (length (mq_fragment_queue m)) + 2.

Definition process_fragment_publish m w : MqttClient * W :=
  if negb (mq_connected m) || negb (mq_client m) then (m, w)
  else let '(_, m, w) := pub_steps (pub_fuel m) PTake m w in (m, w).

(** ** Publishing *)

(** The message id or status, the state and the world. *)
Definition publish (topic_id : Z) (data : list Z) (qos : Z) m w : Z * MqttClient * W :=
  match TopicTable.lookup true topic_id (mq_topic_table m) with
  | None => (-1, m, w)
  | Some topic =>
      if mq_connected m && mq_client m then
        let '(id, w) := bh_publish h w topic data qos in (id, m, w)
      else if Z.of_nat (length data) <=? MAX_MTU then
        let '(sent, q) := xQueueSend MQTT_PUBLISH_QUEUE_DEPTH (mk_pub_item topic_id data qos)
                            (mq_publish_queue m) in
        if sent then (0, m <| mq_publish_queue := q |>, w) else (-1, m, w)
      else (0, m, w)
  end.

Definition publish_raw (topic data : list Z) (qos : Z) m w : Z * W :=
  if negb (mq_connected m) || negb (mq_client m) then (-1, w)
  else bh_publish h w topic data qos.

Definition publish_file (filename data : list Z) (src_node : Z) m : MqttClient :=
  if Z.of_nat (length data) =? 0 then m
  else
    m <| mq_file_queue := (xQueueSend MQTT_FILE_QUEUE_DEPTH
           (mk_file_req (take 32 filename) (take (Z.to_nat MAX_MTU) data) src_node)
           (mq_file_queue m)).2 |>.

(** The chunks of a queued file from number [seq] on, each behind its number. *)
Fixpoint publish_chunks (n : nat) (topic : list Z) (seq : Z) (data : list Z) w : W :=
  match n with
  | O => w
  | S n' =>
      let chunk := take (Z.to_nat MQTT_CHUNK_PAYLOAD)
                     (drop (Z.to_nat (seq * MQTT_CHUNK_PAYLOAD)) data) in
      let '(_, w) := bh_publish h w topic (le_bytes 2 seq ++ chunk) 1 in
      publish_chunks n' topic (u16 (seq + 1)) data w
  end.

Definition process_file_publish (req : FilePublishRequest) m w : W :=
  if negb (mq_connected m) || negb (mq_client m) then w
  else
    let size := Z.of_nat (length (fr_data req)) in
    let chunk_count := u16 ((size + MQTT_CHUNK_PAYLOAD - 1) / MQTT_CHUNK_PAYLOAD) in
    let json :=
      json_str "{'session_id':" ++ dec (bh_now h w) ++ json_str ",'filename':'" ++
      fr_filename req ++ json_str "','total_size':" ++ dec size ++
      json_str ",'chunk_count':" ++ dec chunk_count ++ json_str ",'src_node':'0x" ++
      hex4 true (fr_src_node req) ++ json_str "','crc32':" ++
      dec (bh_crc32_le h 0 (fr_data req)) ++ str "}" in
    if Z.of_nat (length json) >=? 256 then w
    else
      let '(_, w) := bh_publish h w (node_topic (str "/file/meta") m) json 1 in
      publish_chunks (Z.to_nat chunk_count) (node_topic (str "/file/data") m) 0 (fr_data req) w.

Definition transfer_meta_json (session_id : Z) (filename : list Z) (src_node exit_node total_size
    chunk_count fragment_size crc32 : Z) : list Z :=
  json_str "{'session_id':" ++ dec session_id ++ json_str ",'filename':'" ++ filename ++
  json_str "','src_node':'0x" ++ hex4 true src_node ++ json_str "','exit_node':'0x" ++
  hex4 true exit_node ++ json_str "','total_size':" ++ dec total_size ++
  json_str ",'chunk_count':" ++ dec chunk_count ++ json_str ",'fragment_size':" ++
  dec fragment_size ++ json_str ",'crc32':" ++ dec crc32 ++ str "}".

Definition nack_topic (session_id : Z) : list Z := str "flp/admin/transfer_nack/" ++ dec session_id.

Definition publish_transfer_meta (session_id : Z) (filename : list Z) (src_node exit_node
    total_size chunk_count fragment_size crc32 : Z) m w : MqttClient * W :=
  let m := activate_transfer_session session_id m in
  if bh_outbox h w >=? MQTT_OUTBOX_HIGH_WATER_BYTES then (m, w)
  else
    let json := transfer_meta_json session_id filename src_node exit_node total_size chunk_count
                  fragment_size crc32 in
    if Z.of_nat (length json) >=? 256 then (m, w)
    else if mq_connected m && mq_client m then
      let '(_, w) := bh_publish h w (node_topic (str "/file/meta") m) json 1 in
      (m, bh_subscribe h w (nack_topic session_id) 1)
    else (m, w).

(** ** The broker's events *)

Definition on_connected m w : MqttClient * W :=
  let w := bh_subscribe h w (str "flp/admin/cmd") 1 in
  let w := bh_subscribe h w (str "flp/admin/ack/+") 1 in
  let w := bh_subscribe h w (str "flp/admin/complete/+") 1 in
  (m <| mq_connected := true |>, bh_connected_bit h w).

(** The replay of one ring entry: the entry, the NACK queue, the bitmap. *)
Definition replay_entry (now sid : Z) (acc : list RecentPublishEntry * list (Z * Z) * list Z)
    (e : RecentPublishEntry) : list RecentPublishEntry * list (Z * Z) * list Z :=
  let '(ring, nacks, accepted) := acc in
  let gone := mk_recent (re_session_id e) (re_seq e) 0 in
  if (re_publish_ms e =? 0) || negb (re_session_id e =? sid) then (ring ++ [e], nacks, accepted)
  else if u32 (now - re_publish_ms e) >? RECENT_PUBLISH_REPLAY_MS
  then (ring ++ [gone], nacks, accepted)
  else
    let '(sent, nacks) := xQueueSend MQTT_NACK_QUEUE_DEPTH (re_session_id e, re_seq e) nacks in
    if sent then (ring ++ [gone], nacks, bitmap_clear accepted (re_seq e))
    else (ring ++ [e], nacks, accepted).

(** [take_ok]: the mutex was taken within 100 ms. *)
Definition on_disconnected (take_ok : bool) m w : MqttClient :=
  let m := m <| mq_connected := false |> in
  if negb (mq_session m =? 0) && take_ok then
    let '(ring, nacks, accepted) :=
      fold_left (replay_entry (bh_now h w) (mq_session m)) (mq_ring m)
        ([], mq_nacks m, mq_accepted m) in
    m <| mq_ring := ring |> <| mq_nacks := nacks |> <| mq_accepted := accepted |>
  else m.

Definition rx_callback (topic : list Z) (data : option (list Z)) w : W :=
  match bh_rx_callback h, data with
  | Some f, Some d => f w topic d
  | _, _ => w
  end.

(** The session number that ends a topic; [None] is the malformed case. *)
Definition topic_session (digits : list Z) : option Z :=
  match strtol10 digits with
  | Some (v, []) => if (v <? 0) || (v >? 65535) then None else Some v
  | _ => None
  end.

(** That of the running transfer; [None] also when it is another's. *)
Definition own_session (digits : list Z) m : option Z :=
  match topic_session digits with
  | Some sid => if (mq_session m =? 0) || negb (sid =? mq_session m) then None else Some sid
  | None => None
  end.

Definition on_admin_cmd (data : list Z) m : MqttClient :=
  let cmd := mk_cmd (le_value (take 2 data)) (byte_at data 2) (take 64 (drop 3 data)) in
  m <| mq_cmds := (xQueueSend MQTT_CMD_QUEUE_DEPTH cmd (mq_cmds m)).2 |>.

Definition on_cloud_ack (sid : Z) (data : list Z) m : MqttClient :=
  let buf := buffered 256 data in
  match strstr buf (json_str "'seq':") with
  | None => m
  | Some p =>
      match strtol10 (drop 6 p) with
      | None => m
      | Some (v, _) =>
          if (v <? 0) || (v >? 65535) then m
          else if bool_decide (is_Some (strstr buf (json_str "'ACK'")))
          then m <| mq_acks := (xQueueSend MQTT_ACK_QUEUE_DEPTH (sid, v) (mq_acks m)).2 |>
          else if bool_decide (is_Some (strstr buf (json_str "'NACK'")))
          then m <| mq_nacks := (xQueueSend MQTT_NACK_QUEUE_DEPTH (sid, v) (mq_nacks m)).2 |>
          else m
      end
  end.

(** The parser of a list of numbers; each turn consumes a byte at least. *)
Fixpoint queue_seqs (fuel : nat) (sid : Z) (p : list Z) (nacks : list (Z * Z)) : list (Z * Z) :=
  match fuel, p with
  | S fuel', c :: p' =>
      if c =? 93 then nacks
      else match strtol10 p with
           | None => queue_seqs fuel' sid p' nacks
           | Some (v, rest) =>
               queue_seqs fuel' sid (match rest with 44 :: rest' => rest' | _ => rest end)
                 (if (0 <=? v) && (v <=? 65535)
                  then (xQueueSend MQTT_NACK_QUEUE_DEPTH (sid, v) nacks).2 else nacks)
           end
  | _, _ => nacks
  end.

Definition on_transfer_nack (sid : Z) (data : list Z) m : MqttClient :=
  match strstr (buffered 512 data) (json_str "'seqs':[") with
  | None => m
  | Some p => m <| mq_nacks ::= queue_seqs (length p) sid (drop 8 p) |>
  end.

Definition on_transfer_complete (sid : Z) m : MqttClient :=
  m <| mq_completes := (xQueueSend MQTT_TRANSFER_COMPLETE_QUEUE_DEPTH sid (mq_completes m)).2 |>.

(** A message on [topic]; its data pointer may be null. Malformed topics and
    those of other sessions end the handler before the callback. *)
Definition on_data (topic : list Z) (data : option (list Z)) m w : MqttClient * W :=
  let topic := buffered 128 topic in
  let len := match data with Some d => Z.of_nat (length d) | None => 0 end in
  let bytes := default [] data in
  let reply m := (m, rx_callback topic data w) in
  if bool_decide (topic = str "flp/admin/cmd") && (len >=? 3) then reply (on_admin_cmd bytes m)
  else if prefix_of (str "flp/admin/ack/") topic && (len >? 0) then
    match own_session (drop 14 topic) m with
    | None => (m, w)
    | Some sid => reply (on_cloud_ack sid bytes m)
    end
  else if prefix_of (str "flp/admin/transfer_nack/") topic && (len >? 0) then
    match own_session (drop 24 topic) m with
    | None => (m, w)
    | Some sid => reply (on_transfer_nack sid bytes m)
    end
  else if prefix_of (str "flp/admin/complete/") topic then
    match own_session (drop 19 topic) m with
    | None => (m, w)
    | Some sid => reply (on_transfer_complete sid m)
    end
  else reply m.

(** ** One turn of the task's loop *)

Fixpoint drain_publish_queue (q : list MqttPublishItem) m w : W :=
  match q with
  | [] => w
  | it :: q' =>
      drain_publish_queue q' m
        match TopicTable.lookup true (pi_topic_id it) (mq_topic_table m) with
        | Some topic => (bh_publish h w topic (pi_data it) (pi_qos it)).2
        | None => w
        end
  end.

(** [heartbeat]: the status interval has elapsed. *)
Definition run_once (heartbeat : bool) m w : MqttClient * W :=
  let '(m, w) :=
    if mq_connected m && mq_client m then
      let w := drain_publish_queue (mq_publish_queue m) m w in
      let m := m <| mq_publish_queue := [] |> in
      match mq_file_queue m with
      | [] => (m, w)
      | req :: q => let m := m <| mq_file_queue := q |> in (m, process_file_publish req m w)
      end
    else (m, w) in
  let '(m, w) := process_fragment_publish m w in
  if heartbeat && mq_connected m then
    match TopicTable.lookup true (mq_status_topic_id m) (mq_topic_table m) with
    | Some topic => (m, (bh_publish h w topic (str "online") 0).2)
    | None => (m, w)
    end
  else (m, w).

(** [run] between two turns: the ticks it sleeps at most ([last_status_tick]
    and the clock are 32-bit), and whether a turn that left fragments behind
    notifies its own task, so that the next wait returns at once. *)
Definition loop_wait (last now : Z) : Z :=
  let elapsed := u32 (now - last) in
  let wait := if elapsed >=? MQTT_HEARTBEAT_INTERVAL then 1 else MQTT_HEARTBEAT_INTERVAL - elapsed in
  if wait =? 0 then 1 else wait.

Definition wakes_itself m : bool :=
  (mq_connected m && mq_client m) &&
  (bool_decide (is_Some (mq_pending m)) || bool_decide (mq_fragment_queue m ≠ [])).

Definition loop_turn (last now : Z) m w : Z * bool * MqttClient * W :=
  let due := u32 (now - last) >=? MQTT_HEARTBEAT_INTERVAL in
  let '(m, w) := run_once due m w in
  (if due then now else last, wakes_itself m, m, w).

(** While a heartbeat is not due the task sleeps no longer than until it is. *)
Lemma loop_wait_on_time last now :
  1 <= loop_wait last now <= MQTT_HEARTBEAT_INTERVAL ∧
  (u32 (now - last) < MQTT_HEARTBEAT_INTERVAL →
   u32 (now - last) + loop_wait last now = MQTT_HEARTBEAT_INTERVAL).
Proof.
  pose proof (u32_range (now - last)) as Hr. unfold loop_wait, MQTT_HEARTBEAT_INTERVAL, is_u32 in *.
  cbv zeta. destruct (Z.geb_spec (u32 (now - last)) 30000); repeat case_match; lia.
Qed.
End mqtt.
