(* ===== verification/MqttPipeline.v ===== *)
(** * The exit node's fragment pipeline, under every interleaving

    The mesh task hands fragments to [MqttClient::publish_fragment] and drains
    the acknowledgements; the MQTT task publishes step by step ([pub_step]);
    the broker connects and disconnects at any time. Within a transfer
    session that starts while the MQTT task has no fragment in its hands, no
    fragment taken is lost, none is queued twice, and an acknowledgement exists
    only for what was published. A session that starts during a publication
    races with it: see [stale_publication_poisons_new_session] in
    MqttPublish.v. *)

From Stdlib Require Import ZArith Lia String.
From stdpp Require Import base list numbers option sets.
From S2P Require Import Prelude.
From S2P Require Import CString.
From S2P Require Import Packet.
From S2P Require Import Fec.
From S2P Require Import SelectiveRepeat.
From S2P Require Import Receiver.
From S2P Require Import TopicTable.
From S2P Require Import MqttClient.
Open Scope Z_scope.
Open Scope flp_scope.

(** ** Bitmaps *)

Definition bitmap_ok (bm : list Z) : Prop := Z.of_nat (length bm) = FRAGMENT_BITMAP_BYTES.
Definition trackable (seq : Z) : Prop := 0 <= seq < MAX_TRACKED_TRANSFER_FRAGMENTS.

Lemma bitmap_test_got bm q :
  trackable q → bitmap_test bm q = got bm q.
Proof.
  unfold trackable, bitmap_test, is_trackable_fragment. intros H.
  by replace (q <? MAX_TRACKED_TRANSFER_FRAGMENTS) with true by lia.
Qed.

Lemma bitmap_mark_ok bm p : bitmap_ok bm → bitmap_ok (bitmap_mark bm p).
Proof.
  unfold bitmap_ok, bitmap_mark. intros H. destruct (is_trackable_fragment p); [ | done ].
  by rewrite length_bitmap_set.
Qed.

Lemma bitmap_clear_ok bm p : bitmap_ok bm → bitmap_ok (bitmap_clear bm p).
Proof.
  unfold bitmap_ok, bitmap_clear. intros H. destruct (is_trackable_fragment p); [ | done ].
  by rewrite length_aset.
Qed.

Lemma bitmap_zero_ok : bitmap_ok bitmap_zero.
Proof. unfold bitmap_ok, bitmap_zero. rewrite length_replicate. vm_compute. reflexivity. Qed.

Lemma test_zero q : 0 <= q → bitmap_test bitmap_zero q = false.
Proof.
  intros Hq. unfold bitmap_test, is_trackable_fragment.
  destruct (Z.ltb_spec q MAX_TRACKED_TRANSFER_FRAGMENTS); [ | done ]. cbn [andb].
  apply (got_fresh (Z.to_nat FRAGMENT_BITMAP_BYTES) q); [ | done ].
  unfold FRAGMENT_BITMAP_BYTES, MAX_TRACKED_TRANSFER_FRAGMENTS in *. lia.
Qed.

Lemma test_mark bm p q :
  bitmap_ok bm → trackable p → trackable q →
  bitmap_test (bitmap_mark bm p) q = (q =? p) || bitmap_test bm q.
Proof.
  intros Hb Hp Hq. rewrite !bitmap_test_got by done. unfold bitmap_mark, is_trackable_fragment.
  unfold trackable in *. replace (p <? MAX_TRACKED_TRANSFER_FRAGMENTS) with true by lia.
  apply got_set; [ lia | lia | ]. rewrite Hb.
  unfold FRAGMENT_BITMAP_BYTES, MAX_TRACKED_TRANSFER_FRAGMENTS in *. lia.
Qed.

Lemma testbit_clear x k i :
  0 <= k < 8 → 0 <= i < 8 →
  Z.testbit (Z.land x (u8 (Z.lnot (Z.shiftl 1 k)))) i = negb (i =? k) && Z.testbit x i.
Proof.
  intros Hk Hi. rewrite Z.land_spec. unfold u8. change 256 with (2 ^ 8).
  rewrite Z.mod_pow2_bits_low, Z.lnot_spec, Z.shiftl_spec by lia.
  rewrite andb_comm. f_equal. f_equal. change 1 with (2 ^ 0).
  destruct (Z.eqb_spec i k) as [-> | Hne].
  - by rewrite Z.sub_diag.
  - destruct (Z.lt_ge_cases i k).
    + apply Z.testbit_neg_r. lia.
    + apply Z.pow2_bits_false. lia.
Qed.

Lemma test_clear bm p q :
  bitmap_ok bm → trackable p → trackable q →
  bitmap_test (bitmap_clear bm p) q = negb (q =? p) && bitmap_test bm q.
Proof.
  intros Hb Hp Hq. rewrite !bitmap_test_got by done. rewrite !got_testbit.
  unfold bitmap_clear, is_trackable_fragment, bit_mask. unfold trackable in *.
  replace (p <? MAX_TRACKED_TRANSFER_FRAGMENTS) with true by lia.
  assert (p / 8 < Z.of_nat (length bm)).
  { rewrite Hb. unfold FRAGMENT_BITMAP_BYTES, MAX_TRACKED_TRANSFER_FRAGMENTS in *. lia. }
  destruct (Z.eq_dec (q / 8) (p / 8)) as [E | E].
  - rewrite E, aget_aset_eq by lia. rewrite testbit_clear by lia. f_equal.
    destruct (Z.eqb_spec q p), (Z.eqb_spec (q mod 8) (p mod 8)); try done; lia.
  - rewrite aget_aset_ne by lia. replace (q =? p) with false by lia. done.
Qed.

(** ** Draining a queue shared by sessions *)

(** The first item of the session is taken; the items before it move behind
    the others; nothing else changes. *)
Lemma drain_loop_skip n sid pre rest :
  Forall (fun x => x.1 ≠ sid) pre →
  drain_loop (length pre + n) sid (pre ++ rest) = drain_loop n sid (rest ++ pre).
Proof.
  revert rest. induction pre as [ | [s q] pre IH ]; intros rest H; cbn [length Nat.add app].
  { by rewrite app_nil_r. }
  apply Forall_cons_1 in H as [Hs H]. cbn [fst] in Hs. cbn [drain_loop].
  destruct (Z.eqb_spec s sid); [ done | ].
  rewrite <- app_assoc, IH by done. by rewrite <- app_assoc.
Qed.

Lemma drain_loop_found sid pre q rest :
  Forall (fun x => x.1 ≠ sid) pre →
  drain_loop (length (pre ++ (sid, q) :: rest)) sid (pre ++ (sid, q) :: rest) =
    (Some q, rest ++ pre).
Proof.
  intros H. rewrite length_app, drain_loop_skip by done. cbn [length app drain_loop].
  by rewrite Z.eqb_refl.
Qed.

Lemma drain_loop_none sid q :
  Forall (fun x => x.1 ≠ sid) q → drain_loop (length q) sid q = (None, q).
Proof.
  intros H. pose proof (drain_loop_skip 0 sid q [] H) as E. rewrite Nat.add_0_r, app_nil_r in E.
  rewrite E. by destruct q.
Qed.

Lemma first_of_session (sid : Z) (q : list (Z * Z)) :
  Forall (fun x => x.1 ≠ sid) q ∨
  ∃ pre s rest, q = pre ++ (sid, s) :: rest ∧ Forall (fun x => x.1 ≠ sid) pre.
Proof.
  induction q as [ | [s v] q IH ]; [ by left | ]. destruct (decide (s = sid)) as [-> | Hne].
  - right. exists [], v, q. by split.
  - destruct IH as [IH | (pre & x & rest & -> & Hp)].
    + left. by constructor.
    + right. exists ((s, v) :: pre), x, rest. split; [ done | by constructor ].
Qed.

Lemma drain_loop_cases sid q :
  (Forall (fun x => x.1 ≠ sid) q ∧ drain_loop (length q) sid q = (None, q)) ∨
  ∃ pre s rest, q = pre ++ (sid, s) :: rest ∧ Forall (fun x => x.1 ≠ sid) pre ∧
    drain_loop (length q) sid q = (Some s, rest ++ pre).
Proof.
  destruct (first_of_session sid q) as [H | (pre & s & rest & -> & H)].
  - left. split; [ done | by apply drain_loop_none ].
  - right. exists pre, s, rest. split_and!; [ done | done | by apply drain_loop_found ].
Qed.

(** ** One session *)

Ltac mq_upd := cbn [update_field mq_node_addr mq_client mq_connected mq_topic_table
  mq_status_topic_id mq_publish_queue mq_file_queue mq_fragment_queue mq_pending mq_queued
  mq_accepted mq_ack_pending mq_ring mq_ring_write mq_fragment_acks mq_acks mq_nacks mq_cmds
  mq_completes mq_session fst snd].

Section pipeline.
Context {W : Type} (h : MqttHost W) (addr sid : Z).
Context (Pub : W → FragmentPublishRequest → Prop) (Genuine : FragmentPublishRequest → Prop).
Implicit Types (m : MqttClient) (w : W) (r : FragmentPublishRequest) (pc : PubPc).

(** [Pub w r]: the broker connection took [r]'s chunk. *)
Record pipe_host : Prop := {
  ph_publish : ∀ m w r id w', mq_node_addr m = addr →
    bh_publish h w (node_topic (str "/file/data") m) (fragment_chunk r) 0 = (id, w') →
    0 <= id → Pub w' r;
  ph_keep_publish : ∀ w t d qos r, Pub w r → Pub (bh_publish h w t d qos).2 r;
  ph_keep_subscribe : ∀ w t qos r, Pub w r → Pub (bh_subscribe h w t qos) r;
  ph_keep_bit : ∀ w r, Pub w r → Pub (bh_connected_bit h w) r;
  ph_keep_rx : ∀ f w t d r, bh_rx_callback h = Some f → Pub w r → Pub (f w t d) r
}.

(** The request the MQTT task holds in a local variable only. *)
Definition in_hand pc m : list FragmentPublishRequest :=
  match pc with
  | PCheck r false | PStale r false | PSend r false | PAccept r false => [r]
  | PDefer r => match mq_pending m with Some _ => [] | None => [r] end
  | _ => []
  end.

(** The requests handed over and not yet published. *)
Definition holding pc m : list FragmentPublishRequest :=
  in_hand pc m ++ option_list (mq_pending m) ++ mq_fragment_queue m.

Definition own r : Prop := fg_session_id r = sid ∧ trackable (fg_seq r) ∧ Genuine r.
Definition published w (q : Z) : Prop := ∃ r, Pub w r ∧ own r ∧ fg_seq r = q.

Definition pc_ok pc m w : Prop :=
  match pc with
  | PPop => mq_pending m = None
  | PCheck r from | PSend r from =>
      own r ∧ mq_pending m = if from then Some r else None
  | PAccept r from => Pub w r ∧ own r ∧ mq_pending m = if from then Some r else None
  | PDefer r => own r ∧ (mq_pending m = None ∨ mq_pending m = Some r)
  | PAck r => Pub w r ∧ own r
  | PStale _ _ => False
  | PTake | PDone => True
  end.

Record pipe_inv pc m w : Prop := {
  pv_session : mq_session m = sid;
  pv_addr : mq_node_addr m = addr;
  pv_queued_bm : bitmap_ok (mq_queued m);
  pv_accepted_bm : bitmap_ok (mq_accepted m);
  pv_ack_bm : bitmap_ok (mq_ack_pending m);
  pv_own : Forall own (holding pc m);
  pv_nodup : NoDup (fg_seq <$> holding pc m);
  pv_queued : ∀ q, trackable q →
    (bitmap_test (mq_queued m) q = true ↔ q ∈ fg_seq <$> holding pc m);
  pv_accepted : ∀ q, trackable q → bitmap_test (mq_accepted m) q = true → published w q;
  pv_pc : pc_ok pc m w;
  pv_acks : Forall (fun x => x.1 = sid ∧ trackable x.2 ∧ published w x.2) (mq_fragment_acks m);
  pv_acks_nodup : NoDup (mq_fragment_acks m);
  pv_ack_bits : ∀ q, trackable q →
    (bitmap_test (mq_ack_pending m) q = true ↔ (sid, q) ∈ mq_fragment_acks m);
  pv_ring : Forall (fun e => trackable (re_seq e)) (mq_ring m)
}.

(** Nothing handed over disappears unpublished. *)
Definition kept pc m w r : Prop := r ∈ holding pc m ∨ Pub w r.

(** *** Helpers *)

Lemma published_mono w w' q : (∀ r, Pub w r → Pub w' r) → published w q → published w' q.
Proof. intros H (r & Hr & ?). exists r. split; [ by apply H | done ]. Qed.

Lemma pc_ok_mono pc m w w' : (∀ r, Pub w r → Pub w' r) → pc_ok pc m w → pc_ok pc m w'.
Proof. intros H. destruct pc; cbn [pc_ok]; naive_solver. Qed.

(** A change of the world that publishes or not. *)
Lemma pipe_inv_world pc m w w' : (∀ r, Pub w r → Pub w' r) → pipe_inv pc m w → pipe_inv pc m w'.
Proof.
  intros H []. split; try done.
  - intros q Hq Ha. by apply (published_mono w), pv_accepted0.
  - by apply (pc_ok_mono _ _ w).
  - apply (Forall_impl _ _ _ pv_acks0). intros x (? & ? & ?).
    split_and!; [ done | done | by apply (published_mono w) ].
Qed.

(** A change of the other queues, the ring and the connection. *)
Lemma inv_frame pc m m' w :
  mq_session m' = mq_session m → mq_node_addr m' = mq_node_addr m →
  mq_fragment_queue m' = mq_fragment_queue m → mq_pending m' = mq_pending m →
  mq_queued m' = mq_queued m → mq_accepted m' = mq_accepted m →
  mq_ack_pending m' = mq_ack_pending m → mq_fragment_acks m' = mq_fragment_acks m →
  mq_ring m' = mq_ring m →
  (pipe_inv pc m w → pipe_inv pc m' w) ∧ holding pc m' = holding pc m.
Proof.
  intros E1 E2 E3 E4 E5 E6 E7 E8 E9.
  assert (Eh : holding pc m' = holding pc m).
  { unfold holding. rewrite E3, E4. f_equal. destruct pc; cbn [in_hand]; try done. by rewrite E4. }
  split; [ | done ]. intros []. split; rewrite ?Eh, ?E1, ?E2, ?E5, ?E6, ?E7, ?E8, ?E9; try done.
  destruct pc; cbn [pc_ok] in *; by rewrite ?E4.
Qed.

(** Queueing an acknowledgement of a published fragment. *)
Lemma queue_ack_inv pc m w q (front : bool) :
  pipe_inv pc m w → trackable q → published w q →
  let m' := ((if front then requeue_fragment_ack else queue_fragment_ack) sid q m).2 in
  pipe_inv pc m' w ∧ holding pc m' = holding pc m.
Proof.
  intros Hinv Hq Hp. cbv zeta.
  assert (Hkey : ∀ acks, bitmap_test (mq_ack_pending m) q = false →
    acks = mq_fragment_acks m ++ [(sid, q)] ∨ acks = (sid, q) :: mq_fragment_acks m →
    let m' := m <| mq_fragment_acks := acks |>
                <| mq_ack_pending := bitmap_mark (mq_ack_pending m) q |> in
    pipe_inv pc m' w ∧ holding pc m' = holding pc m).
  { intros acks Hb Hacks m'.
    assert (Hh : holding pc m' = holding pc m) by done. split; [ | done ].
    assert (Hperm : acks ≡ₚ (sid, q) :: mq_fragment_acks m).
    { destruct Hacks as [-> | ->]; [ by rewrite Permutation_app_comm | done ]. }
    destruct Hinv. unfold m'. split; mq_upd; try done.
    - by apply bitmap_mark_ok.
    - rewrite Hperm. constructor; [ by split_and! | done ].
    - rewrite Hperm. constructor; [ | done ]. intros Hin. apply pv_ack_bits0 in Hin; congruence.
    - intros x Hx. rewrite test_mark by done. rewrite orb_true_iff, pv_ack_bits0, Hperm by done.
      rewrite elem_of_cons, Z.eqb_eq. naive_solver. }
  destruct front; [ unfold requeue_fragment_ack, xQueueSendToFront
                  | unfold queue_fragment_ack, xQueueSend ];
    destruct (bitmap_test _ q) eqn:Hb; mq_upd; try done;
    destruct (_ <? _); mq_upd; try done; apply Hkey; auto.
Qed.

Lemma inv_pc pc pc' m w :
  holding pc' m = holding pc m → pc_ok pc' m w → pipe_inv pc m w → pipe_inv pc' m w.
Proof. intros Eh Hpc []. split; rewrite ?Eh; done. Qed.

(** *** The MQTT task *)

Context (Hhost : pipe_host) (Hsid : sid ≠ 0).

(** The request recorded as accepted leaves [holding]. *)
Lemma accept_inv r from m w now :
  pipe_inv (PAccept r from) m w →
  let m' := note_published now r
    (drop_pending from m
       <| mq_queued ::= fun bm => bitmap_clear bm (fg_seq r) |>
       <| mq_accepted ::= fun bm => bitmap_mark bm (fg_seq r) |>) in
  pipe_inv (PAck r) m' w ∧ holding (PAccept r from) m = r :: holding (PAck r) m'.
Proof.
  intros Hinv. cbv zeta. set (m' := note_published _ _ _).
  pose proof (pv_pc _ _ _ Hinv) as (Hpub & Hown & Hpend).
  assert (Eq : holding (PAck r) m' = mq_fragment_queue m).
  { unfold m', holding. cbn [in_hand]. by destruct from; mq_upd; cbn; rewrite ?Hpend. }
  assert (Eh : holding (PAccept r from) m = r :: mq_fragment_queue m).
  { unfold holding. rewrite Hpend. by destruct from. }
  rewrite Eq. split; [ | done ]. pose proof Hown as (Hr1 & Hr2 & Hr3).
  destruct Hinv as [Hs Ha Hq1 Hq2 Hq3 Ho Hn Hqd Hac _ Hk1 Hk2 Hk3 Hrg]. rewrite Eh in Ho, Hn.
  apply Forall_cons_1 in Ho as [_ Ho]. rewrite fmap_cons in Hn. apply NoDup_cons in Hn as [Hfresh Hn].
  split; rewrite ?Eq; try done; try (unfold m', note_published, drop_pending; destruct from; done).
  - replace (mq_queued m') with (bitmap_clear (mq_queued m) (fg_seq r))
      by (unfold m', note_published, drop_pending; by destruct from).
    by apply bitmap_clear_ok.
  - replace (mq_accepted m') with (bitmap_mark (mq_accepted m) (fg_seq r))
      by (unfold m', note_published, drop_pending; by destruct from).
    by apply bitmap_mark_ok.
  - intros q Hq. replace (mq_queued m') with (bitmap_clear (mq_queued m) (fg_seq r))
      by (unfold m', note_published, drop_pending; by destruct from).
    rewrite test_clear, andb_true_iff, Hqd, Eh, fmap_cons, elem_of_cons by done.
    rewrite negb_true_iff, Z.eqb_neq. split; [ naive_solver | ].
    intros Hin. split; [ by intros -> | by right ].
  - intros q Hq. replace (mq_accepted m') with (bitmap_mark (mq_accepted m) (fg_seq r))
      by (unfold m', note_published, drop_pending; by destruct from).
    rewrite test_mark, orb_true_iff, Z.eqb_eq by done.
    intros [-> | ?]; [ by exists r | by apply Hac ].
  - replace (mq_ring m') with (aset (mq_ring m) (mq_ring_write m)
      (mk_recent (fg_session_id r) (fg_seq r) now))
      by (unfold m', note_published, drop_pending; by destruct from).
    by apply Forall_insert.
Qed.

(** What a step of the publishing task, and any operation, preserves. *)
Definition keeps pc m w (r : PubPc * MqttClient * W) : Prop :=
  let '(pc', m', w') := r in
  pipe_inv pc' m' w' ∧ ∀ r, kept pc m w r → kept pc' m' w' r.

Lemma pub_take_keeps m w : pipe_inv PTake m w → keeps PTake m w (pub_step h PTake m w).
Proof.
  intros Hinv. cbn [pub_step]. destruct (mq_pending m) as [r | ] eqn:E; cbn [keeps].
  - assert (Eh : holding (PCheck r true) m = holding PTake m) by done.
    split; [ | by unfold kept; rewrite Eh ]. apply (inv_pc PTake); [ done | | done ].
    split; [ | done ]. pose proof (pv_own _ _ _ Hinv) as Ho. unfold holding in Ho.
    rewrite E in Ho. by apply Forall_cons_1 in Ho as [? _].
  - split; [ by apply (inv_pc PTake) | done ].
Qed.

Lemma pub_pop_keeps m w : pipe_inv PPop m w → keeps PPop m w (pub_step h PPop m w).
Proof.
  intros Hinv. pose proof (pv_pc _ _ _ Hinv) as Hpc. cbn [pc_ok] in Hpc. cbn [pub_step].
  destruct (mq_fragment_queue m) as [ | r q ] eqn:E; cbn [keeps].
  - split; [ by apply (inv_pc PPop) | done ].
  - assert (Eh : holding (PCheck r false) (m <| mq_fragment_queue := q |>) = holding PPop m).
    { unfold holding. mq_upd. by rewrite Hpc, E. }
    split; [ | by unfold kept; rewrite Eh ].
    assert (Hr : own r).
    { pose proof (pv_own _ _ _ Hinv) as Ho. unfold holding in Ho. rewrite Hpc, E in Ho.
      by apply Forall_cons_1 in Ho as [? _]. }
    destruct Hinv. split; rewrite ?Eh; mq_upd; try done.
Qed.

(** The publication itself: the broker takes the fragment or the task keeps it. *)
Lemma pub_send_keeps r from m w :
  pipe_inv (PSend r from) m w → keeps (PSend r from) m w (pub_step h (PSend r from) m w).
Proof.
  intros Hinv. pose proof (pv_pc _ _ _ Hinv) as [Ho Hp]. cbn [pub_step].
  destruct (bh_publish h w _ _ 0) as [id w1] eqn:E.
  assert (Hmono : ∀ x, Pub w x → Pub w1 x).
  { intros x Hx. pose proof (ph_keep_publish Hhost w (node_topic (str "/file/data") m)
      (fragment_chunk r) 0 x Hx) as H. by rewrite E in H. }
  destruct (Z.ltb_spec id 0) as [Hid | Hid]; cbn [keeps].
  - assert (Eh : holding (PDefer r) m = holding (PSend r from) m).
    { unfold holding. cbn [in_hand]. rewrite Hp. by destruct from. }
    split.
    + apply (pipe_inv_world _ _ w); [ done | ]. apply (inv_pc (PSend r from)); [ done | | done ].
      split; [ done | ]. rewrite Hp. destruct from; auto.
    + unfold kept. rewrite Eh. intros x [? | ?]; [ by left | right; auto ].
  - split.
    + apply (inv_pc (PSend r from)); [ done | | by apply (pipe_inv_world _ _ w) ].
      split_and!; [ | done | done ].
      apply (ph_publish Hhost m w r id); [ apply Hinv | done | done ].
    + intros x [? | ?]; [ by left | right; auto ].
Qed.

Lemma pub_ack_keeps r m w : pipe_inv (PAck r) m w → keeps (PAck r) m w (pub_step h (PAck r) m w).
Proof.
  intros Hinv. pose proof (pv_pc _ _ _ Hinv) as [Hp Ho]. pose proof Ho as (Hs & Ht & _). cbn [pub_step].
  assert (Hpub : published w (fg_seq r)) by (by exists r).
  destruct (negb _); cbn [keeps].
  - rewrite Hs. pose proof (queue_ack_inv (PAck r) m w (fg_seq r) false Hinv Ht Hpub) as [H1 H2].
    split; [ by apply (inv_pc (PAck r)) | ].
    unfold kept. intros x Hx. rewrite <- H2 in Hx. exact Hx.
  - split; [ by apply (inv_pc (PAck r)) | done ].
Qed.

Lemma pub_step_inv pc m w : pipe_inv pc m w → keeps pc m w (pub_step h pc m w).
Proof.
  intros Hinv. pose proof (pv_pc _ _ _ Hinv) as Hpc.
  destruct pc as [ | | r from | r from | r from | r | r from | r | ];
    [ by apply pub_take_keeps | by apply pub_pop_keeps | | done | by apply pub_send_keeps | | |
      by apply pub_ack_keeps | done ]; cbn [pub_step].
  - destruct Hpc as [(Hs & Ht & Hg) Hp]. pose proof (pv_session _ _ _ Hinv) as Hms.
    replace (_ || _) with false by (rewrite Hms, Hs; lia).
    assert (Eh : holding (PSend r from) m = holding (PCheck r from) m) by done.
    split; [ by apply (inv_pc (PCheck r from)) | by unfold kept; rewrite Eh ].
  - destruct Hpc as [Ho Hp].
    assert (Eh : holding PDone (m <| mq_pending := Some r |>) = holding (PDefer r) m).
    { unfold holding. mq_upd. cbn [in_hand option_list]. by destruct Hp as [-> | ->]. }
    split; [ | by unfold kept; rewrite Eh ].
    destruct Hinv. split; rewrite ?Eh; mq_upd; done.
  - pose proof (accept_inv r from m w (bh_now h w) Hinv) as H. cbv zeta in H.
    destruct H as [H1 H2]. split; [ exact H1 | ]. unfold kept. rewrite H2.
    intros x [Hx | ?]; [ | by right ]. apply elem_of_cons in Hx as [-> | ?]; [ | by left ].
    right. apply Hpc.
Qed.

(** *** The mesh task and the broker *)

Inductive pipe_op :=
  | OpStep                                          (* the MQTT task *)
  | OpPublish (seq src : Z) (data filename : list Z)
  | OpDrainAck
  | OpRequeueAck (seq : Z)
  | OpRepublish (seq : Z)
  | OpDrainNack
  | OpRequeueNack (seq : Z)
  | OpConnected
  | OpDisconnected (take_ok : bool)
  | OpMessage (topic : list Z) (data : option (list Z)).

Definition run_op (op : pipe_op) pc m w : PubPc * MqttClient * W :=
  match op with
  | OpStep =>
      match pc with
      | PDone => (if mq_connected m && mq_client m then PTake else PDone, m, w)
      | _ => pub_step h pc m w
      end
  | OpPublish seq src data filename =>
      (pc, (publish_fragment sid seq src (Some data) (Some filename) m).2, w)
  | OpDrainAck => (pc, (drain_fragment_ack sid m).2, w)
  | OpRequeueAck seq => (pc, (requeue_fragment_ack sid seq m).2, w)
  | OpRepublish seq => (pc, mark_fragment_for_republish sid seq m, w)
  | OpDrainNack => (pc, (drain_cloud_nack sid m).2, w)
  | OpRequeueNack seq => (pc, (requeue_cloud_nack sid seq m).2, w)
  | OpConnected => let '(m, w) := on_connected h m w in (pc, m, w)
  | OpDisconnected take_ok => (pc, on_disconnected h take_ok m w, w)
  | OpMessage topic data => let '(m, w) := on_data h topic data m w in (pc, m, w)
  end.

(** Fragments are genuine and numbered below 60000; only what was published
    is acknowledged again. *)
Definition op_ok (op : pipe_op) m w : Prop :=
  match op with
  | OpPublish seq src data filename =>
      trackable seq ∧
      Genuine (mk_frag sid seq src (take (Z.to_nat MAX_MTU) data) (take 32 filename))
  | OpRequeueAck seq => trackable seq ∧ published w seq
  | OpRepublish seq => trackable seq
  | _ => True
  end.

Lemma publish_fragment_inv pc m w seq src data filename :
  trackable seq →
  Genuine (mk_frag sid seq src (take (Z.to_nat MAX_MTU) data) (take 32 filename)) →
  pipe_inv pc m w →
  let '(ok, m') := publish_fragment sid seq src (Some data) (Some filename) m in
  pipe_inv pc m' w ∧ (∀ r, kept pc m w r → kept pc m' w r) ∧
  (ok = true → ∃ r, own r ∧ fg_seq r = seq ∧ kept pc m' w r).
Proof.
  intros Hq Hg Hinv. unfold publish_fragment. destruct (_ =? 0); [ done | ]. cbv zeta.
  set (req := mk_frag sid seq src _ _) in *.
  destruct (_ && _); [ done | ].
  destruct (bitmap_test (mq_accepted m) seq) eqn:Ea; cbn [orb andb].
  { pose proof (pv_accepted _ _ _ Hinv seq Hq Ea) as Hp. destruct (negb _).
    - pose proof (queue_ack_inv pc m w seq false Hinv Hq Hp) as [H1 H2].
      split_and!; [ exact H1 | unfold kept; intros r; by rewrite <- H2 | ].
      intros _. destruct Hp as (r & ? & ? & ?). exists r. split_and!; [ done | done | by right ].
    - split_and!; [ done | done | ]. intros _. destruct Hp as (r & ? & ? & ?).
      exists r. split_and!; [ done | done | by right ]. }
  destruct (bitmap_test (mq_queued m) seq) eqn:Eq.
  { split_and!; [ done | done | ]. intros _. apply (pv_queued _ _ _ Hinv seq Hq) in Eq.
    apply list_elem_of_fmap in Eq as (r & -> & Hr). exists r. split_and!; [ | done | by left ].
    pose proof (pv_own _ _ _ Hinv) as Ho. rewrite Forall_forall in Ho. by apply Ho. }
  unfold xQueueSend. destruct (_ <? _); [ | done ].
  set (m' := m <| mq_fragment_queue := _ |> <| mq_queued := _ |>).
  assert (Eh : holding pc m' = holding pc m ++ [req]).
  { unfold holding, m'. mq_upd. rewrite <- !app_assoc. by destruct pc. }
  split_and!.
  - assert (Hfresh : seq ∉ fg_seq <$> holding pc m).
    { intros Hin. apply (pv_queued _ _ _ Hinv seq Hq) in Hin. congruence. }
    destruct Hinv. unfold m' in *. split; rewrite ?Eh; mq_upd; try done.
    + by apply bitmap_mark_ok.
    + apply Forall_app. split; [ done | by apply Forall_singleton ].
    + rewrite fmap_app. apply NoDup_app. split_and!; [ done | | apply NoDup_singleton ].
      intros x Hx Hin. apply list_elem_of_singleton in Hin. by subst x.
    + intros q Hq'. rewrite test_mark, orb_true_iff, pv_queued0, fmap_app, elem_of_app by done.
      cbn [fmap list_fmap]. rewrite list_elem_of_singleton, Z.eqb_eq. cbn [fg_seq]. naive_solver.
  - intros r [? | ?]; [ left; rewrite Eh; by apply elem_of_app; left | by right ].
  - intros _. exists req. split_and!; [ done | done | left ]. rewrite Eh.
    apply elem_of_app. right. by apply list_elem_of_singleton.
Qed.

Lemma drain_ack_inv pc m w :
  pipe_inv pc m w →
  let '(r, m') := drain_fragment_ack sid m in
  pipe_inv pc m' w ∧ holding pc m' = holding pc m ∧
  ∀ q, r = Some q → trackable q ∧ published w q.
Proof.
  intros Hinv. unfold drain_fragment_ack.
  destruct (drain_loop_cases sid (mq_fragment_acks m)) as [[_ ->] | (pre & s & rest & E & Hpre & ->)].
  { split_and!; [ | done | done ]. by apply (inv_frame pc m). }
  destruct Hinv. rewrite E in pv_acks0, pv_acks_nodup0.
  apply Forall_app in pv_acks0 as [Hp Hr]. apply Forall_cons_1 in Hr as [(_ & Hs & Hps) Hr].
  assert (pre = []) as ->.
  { destruct pre as [ | x pre ]; [ done | ]. apply Forall_cons_1 in Hpre as [Hx _].
    by apply Forall_cons_1 in Hp as [[? _] _]. }
  cbn [app] in *. apply NoDup_cons in pv_acks_nodup0 as [Hfresh Hnd]. rewrite app_nil_r.
  split_and!; [ | done | by intros q [= <-] ].
  split; mq_upd; try done.
  - by apply bitmap_clear_ok.
  - intros q Hq. rewrite test_clear, andb_true_iff, negb_true_iff, Z.eqb_neq, pv_ack_bits0, E by done.
    rewrite elem_of_cons. split.
    + intros [Hne [[= ->] | ?]]; done.
    + intros Hin. split; [ by intros -> | by right ].
Qed.

(** Clearing accepted bits keeps the invariant. *)
Lemma clear_accepted_inv pc m m' w :
  pipe_inv pc m w → bitmap_ok (mq_accepted m') →
  (∀ q, trackable q → bitmap_test (mq_accepted m') q = true → bitmap_test (mq_accepted m) q = true) →
  mq_session m' = mq_session m → mq_node_addr m' = mq_node_addr m →
  mq_fragment_queue m' = mq_fragment_queue m → mq_pending m' = mq_pending m →
  mq_queued m' = mq_queued m →
  mq_ack_pending m' = mq_ack_pending m → mq_fragment_acks m' = mq_fragment_acks m →
  Forall (fun e => trackable (re_seq e)) (mq_ring m') →
  pipe_inv pc m' w ∧ holding pc m' = holding pc m.
Proof.
  intros Hinv Hb Hsub E1 E2 E3 E4 E5 E6 E7 Hring.
  set (m1 := m' <| mq_accepted := mq_accepted m |> <| mq_ring := mq_ring m |>).
  pose proof (inv_frame pc m m1 w E1 E2 E3 E4 E5 eq_refl E6 E7 eq_refl) as [Hf Hh].
  specialize (Hf Hinv). change (holding pc m1) with (holding pc m') in Hh. split; [ | done ].
  destruct Hf. split; try done. intros q Hq Ha. by apply pv_accepted0, Hsub.
Qed.

Lemma replay_fold now ring acc :
  Forall (fun e => trackable (re_seq e)) ring → bitmap_ok acc.2 →
  Forall (fun e => trackable (re_seq e)) acc.1.1 →
  let acc' := fold_left (replay_entry now sid) ring acc in
  bitmap_ok acc'.2 ∧ Forall (fun e => trackable (re_seq e)) acc'.1.1 ∧
  ∀ q, trackable q → bitmap_test acc'.2 q = true → bitmap_test acc.2 q = true.
Proof.
  intros Hr. revert acc. induction Hr as [ | e ring He _ IH ]; intros acc Hb Ha; cbv zeta; [ done | ].
  cbn [fold_left].
  assert (Hstep : bitmap_ok (replay_entry now sid acc e).2 ∧
    Forall (fun e => trackable (re_seq e)) (replay_entry now sid acc e).1.1 ∧
    ∀ q, trackable q → bitmap_test (replay_entry now sid acc e).2 q = true →
      bitmap_test acc.2 q = true).
  { destruct acc as [[ring' nacks] bm]. unfold replay_entry, xQueueSend. cbn [fst snd] in *.
    assert (Hone : ∀ x, re_seq x = re_seq e →
      Forall (fun e => trackable (re_seq e)) (ring' ++ [x])).
    { intros x E. apply Forall_app. split; [ done | ]. apply Forall_singleton. by rewrite E. }
    destruct (_ || _); [ by split_and!; [ | apply Hone | ] | ].
    destruct (_ >? _); [ by split_and!; [ | apply Hone | ] | ].
    destruct (_ <? _); cbn [fst snd]; [ | by split_and!; [ | apply Hone | ] ].
    split_and!; [ by apply bitmap_clear_ok | by apply Hone | ].
    intros q Hq. rewrite test_clear by done. by intros [_ ?]%andb_true_iff. }
  destruct Hstep as (H1 & H2 & H3). destruct (IH _ H1 H2) as (H4 & H5 & H6).
  split_and!; auto.
Qed.

Lemma on_data_frame topic data m w :
  let m' := (on_data h topic data m w).1 in
  mq_session m' = mq_session m ∧ mq_node_addr m' = mq_node_addr m ∧
  mq_fragment_queue m' = mq_fragment_queue m ∧ mq_pending m' = mq_pending m ∧
  mq_queued m' = mq_queued m ∧ mq_accepted m' = mq_accepted m ∧
  mq_ack_pending m' = mq_ack_pending m ∧ mq_fragment_acks m' = mq_fragment_acks m ∧
  mq_ring m' = mq_ring m.
Proof.
  unfold on_data. cbv zeta. set (t := buffered 128 topic).
  destruct (_ && _); [ done | ]. destruct (_ && _).
  - destruct (own_session _ _); [ | done ]. unfold on_cloud_ack.
    destruct (strstr _ _); [ | done ]. destruct (strtol10 _) as [[v ?] | ]; [ | done ].
    destruct (_ || _); [ done | ]. destruct (bool_decide _); [ done | ].
    by destruct (bool_decide _).
  - destruct (_ && _).
    + destruct (own_session _ _); [ | done ]. unfold on_transfer_nack. by destruct (strstr _ _).
    + destruct (prefix_of _ _); [ | done ]. by destruct (own_session _ _).
Qed.

Lemma on_data_world topic data m w r : Pub w r → Pub (on_data h topic data m w).2 r.
Proof.
  intros Hp. assert (Hrx : ∀ t, Pub (rx_callback h t data w) r).
  { intros t. unfold rx_callback. destruct (bh_rx_callback h) as [f | ] eqn:E; [ | done ].
    destruct data; [ by apply (ph_keep_rx Hhost) | done ]. }
  unfold on_data. cbv zeta. destruct (_ && _); [ apply Hrx | ].
  destruct (_ && _); [ destruct (own_session _ _); [ apply Hrx | done ] | ].
  destruct (_ && _); [ destruct (own_session _ _); [ apply Hrx | done ] | ].
  destruct (prefix_of _ _); [ destruct (own_session _ _); [ apply Hrx | done ] | apply Hrx ].
Qed.

(** An operation that touches none of the pipeline's members. *)
Lemma frame_keeps pc m m' w w' :
  mq_session m' = mq_session m → mq_node_addr m' = mq_node_addr m →
  mq_fragment_queue m' = mq_fragment_queue m → mq_pending m' = mq_pending m →
  mq_queued m' = mq_queued m → mq_accepted m' = mq_accepted m →
  mq_ack_pending m' = mq_ack_pending m → mq_fragment_acks m' = mq_fragment_acks m →
  mq_ring m' = mq_ring m → (∀ r, Pub w r → Pub w' r) →
  pipe_inv pc m w → keeps pc m w (pc, m', w').
Proof.
  intros E1 E2 E3 E4 E5 E6 E7 E8 E9 Hw Hinv.
  destruct (inv_frame pc m m' w' E1 E2 E3 E4 E5 E6 E7 E8 E9) as [Hf Hh].
  split; [ by apply Hf, (pipe_inv_world _ _ w) | ]. unfold kept. rewrite Hh. naive_solver.
Qed.

Lemma republish_keeps pc m w seq :
  trackable seq → pipe_inv pc m w → keeps pc m w (pc, mark_fragment_for_republish sid seq m, w).
Proof.
  intros Hseq Hinv. unfold mark_fragment_for_republish. destruct (_ || _); [ done | ].
  destruct (clear_accepted_inv pc m (m <| mq_accepted ::= fun bm => bitmap_clear bm seq |>) w)
    as [H1 H2]; mq_upd; try done; try apply Hinv.
  - apply bitmap_clear_ok, Hinv.
  - intros q Hq. rewrite test_clear by (try done; apply Hinv). by intros [_ ?]%andb_true_iff.
Qed.

Lemma disconnect_keeps pc m w take_ok :
  pipe_inv pc m w → keeps pc m w (pc, on_disconnected h take_ok m w, w).
Proof.
  intros Hinv. unfold on_disconnected. mq_upd. destruct (_ && _); [ | by apply frame_keeps ].
  rewrite (pv_session _ _ _ Hinv).
  pose proof (replay_fold (bh_now h w) (mq_ring m) ([], mq_nacks m, mq_accepted m)
    (pv_ring _ _ _ Hinv) (pv_accepted_bm _ _ _ Hinv) (Forall_nil_2 _)) as H. cbv zeta in H.
  destruct (fold_left _ _ _) as [[ring nacks] bm]. cbn [fst snd] in H. destruct H as (Hb & Hr & Hs).
  destruct (clear_accepted_inv pc m (m <| mq_connected := false |> <| mq_ring := ring |>
    <| mq_nacks := nacks |> <| mq_accepted := bm |>) w) as [H1 H2]; mq_upd; try done.
Qed.

Lemma pipe_run_op_inv op pc m w :
  op_ok op m w → pipe_inv pc m w → keeps pc m w (run_op op pc m w).
Proof.
  intros Hop Hinv.
  destruct op as [ | seq src data filename | | seq | seq | | seq | | take_ok | topic data ]; cbn [run_op];
    [ | | | | by apply republish_keeps | | | | by apply disconnect_keeps | ].
  - destruct pc; try by apply pub_step_inv.
    destruct (_ && _); [ | done ]. split; [ by apply (inv_pc PDone) | done ].
  - destruct Hop as [Hq Hg].
    pose proof (publish_fragment_inv pc m w seq src data filename Hq Hg Hinv) as H.
    destruct (publish_fragment _ _ _ _ _ _) as [ok m']. by destruct H as (? & ? & _).
  - pose proof (drain_ack_inv pc m w Hinv) as H. destruct (drain_fragment_ack sid m) as [r m'].
    destruct H as (H1 & H2 & _). split; [ done | ]. unfold kept. cbn [snd]. by rewrite H2.
  - destruct Hop as [Hq Hp]. pose proof (queue_ack_inv pc m w seq true Hinv Hq Hp) as [H1 H2].
    cbv zeta beta iota in H1, H2. split; [ done | ]. unfold kept. by rewrite H2.
  - unfold drain_cloud_nack. destruct (drain_loop _ _ _). by apply frame_keeps.
  - unfold requeue_cloud_nack. destruct (xQueueSendToFront _ _ _). by apply frame_keeps.
  - apply frame_keeps; try done. intros r Hr.
    by apply (ph_keep_bit Hhost), (ph_keep_subscribe Hhost), (ph_keep_subscribe Hhost),
      (ph_keep_subscribe Hhost).
  - pose proof (on_data_frame topic data m w) as H. pose proof (on_data_world topic data m w) as Hw.
    destruct (on_data h topic data m w) as [m' w']. cbv zeta in H. cbn [fst snd] in *.
    destruct H as (? & ? & ? & ? & ? & ? & ? & ? & ?). by apply frame_keeps.
Qed.

(** States reachable by any interleaving within the session [sid]: the mesh
    task's calls are those for [sid], until it changes the session. *)
Inductive pipe_reach (s0 : PubPc * MqttClient * W) : PubPc * MqttClient * W → Prop :=
  | reach_refl : pipe_reach s0 s0
  | reach_op op pc m w :
      pipe_reach s0 (pc, m, w) → op_ok op m w → pipe_reach s0 (run_op op pc m w).

Lemma reach_inv pc m w s :
  pipe_inv pc m w → pipe_reach (pc, m, w) s →
  let '(pc', m', w') := s in
  pipe_inv pc' m' w' ∧ ∀ r, kept pc m w r → kept pc' m' w' r.
Proof.
  intros Hinv. induction 1 as [ | op pc1 m1 w1 _ [IH1 IH2] Hop ]; [ done | ].
  pose proof (pipe_run_op_inv op pc1 m1 w1 Hop IH1) as H.
  destruct (run_op op pc1 m1 w1) as [[pc2 m2] w2]. destruct H as [H1 H2]. split; auto.
Qed.

(** The MQTT task has no fragment of an earlier session in its hands. *)
Definition between_fragments pc : bool :=
  match pc with PTake | PPop | PDone => true | _ => false end.

(** A session starts with everything empty. *)
Lemma activate_inv pc m w :
  between_fragments pc = true → mq_session m ≠ sid → mq_node_addr m = addr →
  pipe_inv pc (activate_transfer_session sid m) w.
Proof.
  intros Hpc Hs Ha. assert (Hhand : ∀ m', in_hand pc m' = []) by by destruct pc. unfold activate_transfer_session.
  destruct (Z.eqb_spec (mq_session m) sid); [ done | ]. cbn [negb].
  unfold reset_transfer_runtime_state.
  split; unfold holding; rewrite ?Hhand; mq_upd; try done; try apply bitmap_zero_ok.
  - apply NoDup_nil_2.
  - intros q [Hq _]. rewrite (test_zero q Hq). split; [ done | ]. by intros ?%elem_of_nil.
  - intros q [Hq _]. by rewrite (test_zero q Hq).
  - by destruct pc.
  - apply NoDup_nil_2.
  - intros q [Hq _]. rewrite (test_zero q Hq). split; [ done | ]. by intros ?%elem_of_nil.
  - apply Forall_replicate. unfold trackable. cbn. split; [ done | reflexivity ].
Qed.
End pipeline.

(** C6: an exit's fragment pipeline, from the start of a session on, in every
    interleaving of the mesh task, the MQTT task's steps and the broker's
    events. Whatever happened before (any state, any earlier session), the
    session starts while the MQTT task has no fragment in its hands: between
    two publications, or looking for the next one. (A session that starts
    during a publication is not covered, and the claim fails for it:
    [stale_publication_poisons_new_session].) Within the session a fragment [publish_fragment] takes (returns [true] for) is never
    lost: from then on it is in the queue, in the MQTT task's hands, in its
    pending slot, or was published to the broker with its bytes (an operation of
    the mesh task, mostly under the mutex, is one step). No sequence number is
    held twice, each queued acknowledgement is queued once, and it names a
    fragment of the session that was published. *)
Theorem fragment_pipeline_sound {W} (h : MqttHost W) addr sid Pub Genuine pc0 m0 w0 pc m w
    seq src data filename :
  pipe_host h addr Pub → sid ≠ 0 → between_fragments pc0 = true →
  mq_session m0 ≠ sid → mq_node_addr m0 = addr →
  pipe_reach h sid Pub Genuine (pc0, activate_transfer_session sid m0, w0) (pc, m, w) →
  op_ok sid Pub Genuine (OpPublish seq src data filename) m w →
  let '(ok, m1) := publish_fragment sid seq src (Some data) (Some filename) m in
  NoDup (fg_seq <$> holding pc m1) ∧ NoDup (mq_fragment_acks m1) ∧
  (∀ s q, (s, q) ∈ mq_fragment_acks m1 →
     s = sid ∧ ∃ r, Pub w r ∧ Genuine r ∧ fg_session_id r = sid ∧ fg_seq r = q) ∧
  (ok = true → ∃ r, fg_session_id r = sid ∧ fg_seq r = seq ∧ Genuine r ∧
     ∀ pc' m' w', pipe_reach h sid Pub Genuine (pc, m1, w) (pc', m', w') →
       r ∈ holding pc' m' ∨ Pub w' r).
Proof.
  intros Hh Hsid Hpc Hs Ha Hreach [Hq Hg].
  pose proof (activate_inv addr sid Pub Genuine pc0 m0 w0 Hpc Hs Ha) as H0.
  apply (reach_inv h addr sid Pub Genuine Hh Hsid _ _ _ _ H0) in Hreach as [Hinv _].
  pose proof (publish_fragment_inv addr sid Pub Genuine pc m w seq src data filename Hq Hg Hinv)
    as H. destruct (publish_fragment _ _ _ _ _ _) as [ok m1]. destruct H as (Hinv1 & _ & Hok).
  split_and!; [ apply Hinv1 | apply Hinv1 | | ].
  - intros s q Hin. pose proof (pv_acks _ _ _ _ _ _ _ Hinv1) as Hf.
    rewrite Forall_forall in Hf. destruct (Hf _ Hin) as (? & _ & r & ? & (? & _ & ?) & ?).
    split; [ done | ]. by exists r.
  - intros Hok'. destruct (Hok Hok') as (r & (? & _ & ?) & ? & Hk). exists r.
    split_and!; [ done | done | done | ]. intros pc' m' w' Hr.
    apply (reach_inv h addr sid Pub Genuine Hh Hsid _ _ _ _ Hinv1) in Hr as [_ Hr]. by apply Hr.
Qed.

(** ** A broker that takes everything *)

(** The world is the log of the publications. *)
Definition mqtt_demo : MqttHost (list (list Z * list Z)) :=
  mk_mqtt_host (fun w topic payload _ => (0, w ++ [(topic, payload)])) (fun w _ _ => w)
    (fun _ => 0) (fun _ => 1000) (fun _ _ => 0) (fun w => w) None.

Definition demo_published (addr : Z) (w : list (list Z * list Z)) (r : FragmentPublishRequest) : Prop :=
  ∃ topic, (topic, fragment_chunk r) ∈ w ∧ topic = str "flp/" ++ hex4 false addr ++ str "/file/data".

Lemma mqtt_demo_ok addr : pipe_host mqtt_demo addr (demo_published addr).
Proof.
  split; cbn; try done.
  - intros m w r id w' <- [= <- <-] _. exists (node_topic (str "/file/data") m).
    split; [ apply elem_of_app; right; by apply list_elem_of_singleton | done ].
  - intros w t d qos r (topic & Hin & Ht). exists topic. split; [ | done ].
    apply elem_of_app. by left.
Qed.

(** The session 7 of node 0x1234 starts and takes fragment 5. *)
Definition demo_m0 : MqttClient := activate_transfer_session 7 (mqtt_init 4660).
Definition demo_m1 : MqttClient :=
  (publish_fragment 7 5 8738 (Some [1; 2; 3]) (Some (str "a.txt")) demo_m0).2.

Lemma fragment_pipeline_sound_witness :
  (publish_fragment 7 5 8738 (Some [1; 2; 3]) (Some (str "a.txt")) demo_m0).1 = true ∧
  ∃ r, fg_seq r = 5 ∧
    ∀ pc m w, pipe_reach mqtt_demo 7 (demo_published 4660) (fun r => fg_session_id r = 7)
        (PPop, demo_m1, []) (pc, m, w) →
      r ∈ holding pc m ∨ demo_published 4660 w r.
Proof.
  assert (E : (publish_fragment 7 5 8738 (Some [1; 2; 3]) (Some (str "a.txt")) demo_m0).1 = true)
    by (vm_compute; reflexivity).
  split; [ exact E | ].
  assert (T : trackable 5) by (unfold trackable, MAX_TRACKED_TRANSFER_FRAGMENTS; lia).
  pose proof (fragment_pipeline_sound mqtt_demo 4660 7 (demo_published 4660)
    (fun r => fg_session_id r = 7) PPop (mqtt_init 4660) [] PPop demo_m0 [] 5 8738 [1; 2; 3]
    (str "a.txt") (mqtt_demo_ok 4660) ltac:(lia) eq_refl ltac:(vm_compute; discriminate) eq_refl
    (reach_refl _ _ _ _ _) (conj T eq_refl)) as H.
  unfold demo_m1. destruct (publish_fragment _ _ _ _ _ _) as [ok m1].
  destruct H as (_ & _ & _ & H). destruct (H E) as (r & _ & Hq & _ & Hr).
  exists r. split; [ exact Hq | exact Hr ].
Defined.
