(* ===== verification/MqttPublish.v ===== *)
(** * The publishing loop alone, and the race at a change of session

    [process_fragment_publish] run without interference is a loop over the
    pending request and the queue ([publish_in_order]); it always ends. Across
    a change of session, interleaved with the mesh task, it leaves a fragment
    of the new session unacknowledged for good. *)

From Stdlib Require Import ZArith Lia String.
From stdpp Require Import base list numbers option sets.
From S2P Require Import Prelude.
From S2P Require Import CString.
From S2P Require Import Packet.
From S2P Require Import Receiver.
From S2P Require Import TopicTable.
From S2P Require Import MqttClient.
From S2P Require Import MqttPipeline.
Open Scope Z_scope.
Open Scope flp_scope.

(** ** The loop as a recursion over the requests *)

Definition stale (m : MqttClient) (r : FragmentPublishRequest) : bool :=
  (mq_session m =? 0) || negb (fg_session_id r =? mq_session m).

(** What the loop does to the requests: the pending one comes first, then the
    queue in order. Those of other sessions are dropped, the others published
    until one fails, which becomes the pending one. *)
Fixpoint publish_in_order {W} (h : MqttHost W) (m : MqttClient)
    (reqs : list FragmentPublishRequest) (w : W)
    : option FragmentPublishRequest * list FragmentPublishRequest * W :=
  match reqs with
  | [] => (None, [], w)
  | r :: reqs' =>
      if stale m r then publish_in_order h m reqs' w
      else
        let '(id, w') := bh_publish h w (node_topic (str "/file/data") m) (fragment_chunk r) 0 in
        if id <? 0 then (Some r, reqs', w') else publish_in_order h m reqs' w'
  end.

Section loop.
Context {W : Type} (h : MqttHost W).
Implicit Types (m : MqttClient) (w : W).

Lemma pub_steps_add a b pc m w :
  pub_steps h (a + b) pc m w =
    let '(pc, m, w) := pub_steps h a pc m w in pub_steps h b pc m w.
Proof.
  revert pc m w. induction a as [ | a IH ]; intros pc m w; cbn [Nat.add pub_steps]; [ done | ].
  destruct (pub_step h pc m w) as [[pc' m'] w']. apply IH.
Qed.

Lemma pub_steps_done n m w : pub_steps h n PDone m w = (PDone, m, w).
Proof. induction n as [ | n IH ]; cbn [pub_steps pub_step]; [ done | exact IH ]. Qed.

Lemma queue_ack_frame s q m :
  let m' := (queue_fragment_ack s q m).2 in
  mq_pending m' = mq_pending m ∧ mq_fragment_queue m' = mq_fragment_queue m ∧
  mq_session m' = mq_session m ∧ mq_node_addr m' = mq_node_addr m.
Proof.
  unfold queue_fragment_ack, xQueueSend. destruct (bitmap_test _ _); [ done | ].
  by destruct (_ <? _).
Qed.

(** The requests ahead of the loop, the pending one first. *)
Definition ahead m : list FragmentPublishRequest :=
  option_list (mq_pending m) ++ mq_fragment_queue m.

(** Taking the next request. *)
Lemma pub_take m w r rs :
  ahead m = r :: rs →
  ∃ k (from : bool) m1, (k <= 2)%nat ∧ (∀ n, pub_steps h (k + n) PTake m w = pub_steps h n (PCheck r from) m1 w) ∧
    mq_session m1 = mq_session m ∧ mq_node_addr m1 = mq_node_addr m ∧
    mq_fragment_queue m1 = rs ∧ mq_pending m1 = if from then Some r else None.
Proof.
  unfold ahead. destruct (mq_pending m) as [p | ] eqn:Ep; intros E.
  - injection E as -> <-. exists 1%nat, true, m. split_and!; [ lia | | done | done | done | done ].
    intros n. cbn [Nat.add pub_steps pub_step]. by rewrite Ep.
  - change (mq_fragment_queue m = r :: rs) in E.
    exists 2%nat, false, (m <| mq_fragment_queue := rs |>).
    split_and!; [ lia | | done | done | done | done ].
    intros n. cbn [Nat.add pub_steps pub_step]. rewrite Ep. cbn [pub_steps pub_step]. by rewrite E.
Qed.

(** From [PCheck], one request is dealt with in at most four more steps. *)
Lemma pub_check r (from : bool) m w rs :
  mq_fragment_queue m = rs → mq_pending m = (if from then Some r else None) →
  if stale m r
  then ∃ m1, (∀ n, pub_steps h (2 + n) (PCheck r from) m w = pub_steps h n PTake m1 w) ∧
    mq_session m1 = mq_session m ∧ mq_node_addr m1 = mq_node_addr m ∧ ahead m1 = rs
  else
    let '(id, w') := bh_publish h w (node_topic (str "/file/data") m) (fragment_chunk r) 0 in
    ∃ m1, mq_session m1 = mq_session m ∧ mq_node_addr m1 = mq_node_addr m ∧
    if id <? 0
    then (∀ n, pub_steps h (3 + n) (PCheck r from) m w = (PDone, m1, w')) ∧
         mq_pending m1 = Some r ∧ mq_fragment_queue m1 = rs
    else (∀ n, pub_steps h (4 + n) (PCheck r from) m w = pub_steps h n PTake m1 w') ∧
         ahead m1 = rs.
Proof.
  intros Eq Ep. unfold stale. destruct (_ || _) eqn:Es.
  - eexists. split_and!.
    + intros n. cbn [Nat.add pub_steps pub_step]. rewrite Es. cbn [pub_steps pub_step]. reflexivity.
    + by destruct from.
    + by destruct from.
    + unfold ahead. destruct from; mq_upd; cbn [drop_pending]; mq_upd; by rewrite ?Ep, ?Eq.
  - destruct (bh_publish h w _ _ 0) as [id w'] eqn:Eb. destruct (id <? 0) eqn:Ei.
    + exists (m <| mq_pending := Some r |>). split_and!; [ done | done | | done | done ].
      intros n. cbn [Nat.add pub_steps pub_step]. rewrite Es. cbn [pub_steps pub_step].
      rewrite Eb, Ei. cbn [pub_steps pub_step]. apply pub_steps_done.
    + set (m1 := note_published (bh_now h w') r (drop_pending from m
            <| mq_queued ::= fun bm => bitmap_clear bm (fg_seq r) |>
            <| mq_accepted ::= fun bm => bitmap_mark bm (fg_seq r) |>)).
      set (m2 := if negb (fg_src_node r =? mq_node_addr m1)
                 then (queue_fragment_ack (fg_session_id r) (fg_seq r) m1).2 else m1).
      assert (H1 : mq_pending m1 = None ∧ mq_fragment_queue m1 = rs ∧
        mq_session m1 = mq_session m ∧ mq_node_addr m1 = mq_node_addr m).
      { unfold m1. by destruct from. }
      assert (H2 : mq_pending m2 = None ∧ mq_fragment_queue m2 = rs ∧
        mq_session m2 = mq_session m ∧ mq_node_addr m2 = mq_node_addr m).
      { unfold m2. destruct (negb (_ =? mq_node_addr m1)); [ | exact H1 ].
        pose proof (queue_ack_frame (fg_session_id r) (fg_seq r) m1) as H. cbv zeta in H.
        destruct H as (-> & -> & -> & ->). done. }
      destruct H2 as (H2 & H3 & H4 & H5).
      exists m2. split_and!; [ done | done | | unfold ahead; by rewrite H2, H3 ].
      intros n. cbn [Nat.add pub_steps pub_step]. rewrite Es. cbn [pub_steps pub_step].
      rewrite Eb, Ei. cbn [pub_steps pub_step]. reflexivity.
Qed.

Lemma publish_in_order_frame m m1 rs w :
  mq_session m1 = mq_session m → mq_node_addr m1 = mq_node_addr m →
  publish_in_order h m1 rs w = publish_in_order h m rs w.
Proof.
  intros Hs Ha. revert w. induction rs as [ | r rs IH ]; intros w; cbn [publish_in_order]; [ done | ].
  unfold stale, node_topic. rewrite Hs, Ha, IH. destruct (_ || _); [ done | ].
  destruct (bh_publish _ _ _ _ _) as [id w']. by rewrite IH.
Qed.

Lemma pub_loop rs m w n :
  ahead m = rs →
  let '(pc, m', w') := pub_steps h (6 * length rs + 2 + n) PTake m w in
  pc = PDone ∧ (mq_pending m', mq_fragment_queue m', w') = publish_in_order h m rs w.
Proof.
  revert m w n. induction rs as [ | r rs IH ]; intros m w n E.
  - assert (Ep : mq_pending m = None ∧ mq_fragment_queue m = []).
    { unfold ahead in E. by destruct (mq_pending m). }
    destruct Ep as [Ep Eq]. cbn [length Nat.mul Nat.add pub_steps pub_step]. rewrite Ep.
    cbn [pub_steps pub_step]. rewrite Eq. rewrite pub_steps_done. by rewrite Ep, Eq.
  - destruct (pub_take m w r rs E) as (k & from & m1 & Hk & Htake & Hs & Ha & Hq & Hp).
    pose proof (pub_check r from m1 w rs Hq Hp) as Hc.
    rewrite <- (publish_in_order_frame m m1) by done. cbn [length publish_in_order].
    destruct (stale m1 r).
    + destruct Hc as (m2 & Hc & Hs2 & Ha2 & Hq2).
      replace (6 * S (length rs) + 2 + n)%nat
        with (k + (2 + (6 * length rs + 2 + (4 - k + n))))%nat by lia.
      rewrite Htake, Hc, <- (publish_in_order_frame m1 m2) by done. by apply IH.
    + destruct (bh_publish _ _ _ _ _) as [id w'].
      destruct Hc as (m2 & Hs2 & Ha2 & Hc). destruct (id <? 0).
      * destruct Hc as (Hc & Hp2 & Hq2).
        replace (6 * S (length rs) + 2 + n)%nat
          with (k + (3 + (6 * length rs + (5 - k) + n)))%nat by lia.
        rewrite Htake, Hc. by rewrite Hp2, Hq2.
      * destruct Hc as [Hc Hq2].
        replace (6 * S (length rs) + 2 + n)%nat
          with (k + (4 + (6 * length rs + 2 + (2 - k + n))))%nat by lia.
        rewrite Htake, Hc, <- (publish_in_order_frame m1 m2) by done. by apply IH.
Qed.
End loop.

(** C19: [process_fragment_publish] ends whatever the broker connection does,
    within six steps per request, and is the loop [publish_in_order]: the
    deferred fragment before the queued ones, in queue order, fragments of
    other sessions dropped, and at the first failed publish the fragment kept
    as the deferred one with the rest still queued. *)
Theorem process_fragment_publish_in_order {W} (h : MqttHost W) m w :
  let '(pc, m', w') := pub_steps h (pub_fuel m) PTake m w in
  pc = PDone ∧
  (mq_pending m', mq_fragment_queue m', w') =
    publish_in_order h m (option_list (mq_pending m) ++ mq_fragment_queue m) w.
Proof.
  set (reqs := option_list (mq_pending m) ++ mq_fragment_queue m).
  assert (Hl : (length reqs <= S (length (mq_fragment_queue m)))%nat).
  { unfold reqs. rewrite length_app. destruct (mq_pending m); simpl; lia. }
  unfold pub_fuel.
  replace (6 * S (length (mq_fragment_queue m)) + 2)%nat
    with (6 * length reqs + 2 + 6 * (S (length (mq_fragment_queue m)) - length reqs))%nat by lia.
  by apply pub_loop.
Qed.

(** ** The race at a change of session *)

Definition at_step (n : nat) (s : PubPc * MqttClient * list (list Z * list Z)) :
    PubPc * MqttClient * list (list Z * list Z) :=
  let '(pc, m, w) := s in pub_steps mqtt_demo n pc m w.

(** A mesh-task operation between two steps of the MQTT task. *)
Definition mesh_op (f : MqttClient → MqttClient) (s : PubPc * MqttClient * list (list Z * list Z)) :
    PubPc * MqttClient * list (list Z * list Z) :=
  let '(pc, m, w) := s in (pc, f m, w).

(** Session 7 hands over fragment 5; the MQTT task takes it, compares the
    session and publishes it; the mesh task starts session 8; the MQTT task
    records the publication, acknowledges and finishes. *)
Definition race_state : PubPc * MqttClient * list (list Z * list Z) :=
  at_step 4 (mesh_op (activate_transfer_session 8) (at_step 4 (PTake, demo_m1, []))).

(** The session of a fragment is compared before the publication, not when
    its outcome is recorded. When the mesh task changes the session in
    between, the old session's outcome lands in the new session's state:
    fragment 5 of session 8 counts as accepted though only session 7's was
    published. [publish_fragment] then says it took it (the source waits for its
    acknowledgement), yet it is not queued, no acknowledgement for session 8 is
    ever drained, and after a NACK of the cloud had it published, the
    acknowledgement is suppressed too. *)
Theorem stale_publication_poisons_new_session :
  let '(pc, m, w) := race_state in
  let '(ok, m1) := publish_fragment 8 5 8738 (Some [9; 9]) (Some (str "b.txt")) m in
  let m2 := mark_fragment_for_republish 8 5 m1 in
  let '(ok', m3) := publish_fragment 8 5 8738 (Some [9; 9]) (Some (str "b.txt")) m2 in
  let '(m4, w') := process_fragment_publish mqtt_demo (m3 <| mq_connected := true |>) w in
  pc = PDone ∧ mq_session m = 8 ∧
  (∀ p, p ∈ w → take 2 p.2 = [7; 0]) ∧              (* session 7's chunks only *)
  ok = true ∧ mq_fragment_queue m1 = [] ∧
  (drain_fragment_ack 8 m1).1 = None ∧ mq_fragment_acks m1 = [(7, 5)] ∧
  ok' = true ∧ length w' = 2%nat ∧                  (* session 8's is published *)
  (drain_fragment_ack 8 m4).1 = None ∧ mq_fragment_acks m4 = [(7, 5)].
Proof.
  assert (Hw : race_state.2 = [(str "flp/1234/file/data", [7; 0; 5; 0; 1; 2; 3])])
    by (vm_compute; reflexivity).
  assert (H : let '(pc, m, w) := race_state in
    let '(ok, m1) := publish_fragment 8 5 8738 (Some [9; 9]) (Some (str "b.txt")) m in
    let m2 := mark_fragment_for_republish 8 5 m1 in
    let '(ok', m3) := publish_fragment 8 5 8738 (Some [9; 9]) (Some (str "b.txt")) m2 in
    let '(m4, w') := process_fragment_publish mqtt_demo (m3 <| mq_connected := true |>) w in
    (pc, mq_session m, ok, mq_fragment_queue m1, (drain_fragment_ack 8 m1).1, mq_fragment_acks m1,
     ok', length w', (drain_fragment_ack 8 m4).1, mq_fragment_acks m4) =
    (PDone, 8, true, [], None, [(7, 5)], true, 2%nat, None, [(7, 5)])) by (vm_compute; reflexivity).
  destruct race_state as [[pc m] w]. cbn [snd] in Hw. subst w.
  destruct (publish_fragment 8 5 _ _ _ m) as [ok m1]. cbv zeta in *.
  destruct (publish_fragment 8 5 _ _ _ _) as [ok' m3].
  destruct (process_fragment_publish _ _ _) as [m4 w'].
  injection H as ? ? ? ? ? ? ? ? ? ?.
  split_and!; try done. intros p ->%list_elem_of_singleton. done.
Qed.
