(* ===== verification/CloudReassembly.v ===== *)
(** * The cloud server's reassembly (cloud-admin/internal/transfer/reassembler.go)

    The other end of the data path, in Go: [FecDecoder] and [FileReassembler].
    A Go [int] has 64 bits and nothing here
    comes near its range; an operation that would panic (an index or a slice
    out of range) is [None]. The bitmap is read and written byte by byte with
    [got] and [bitmap_set] of Receiver.v, whose code is the same expression.
    Clocks are milliseconds; the source divides them by 1000 in [float64],
    so a comparison of a difference with a threshold is its rounding away
    from the one here when the two are exactly equal. *)

From Stdlib Require Import ZArith Lia.
From stdpp Require Import base list numbers option sets gmap.
From S2P Require Import Prelude.
From S2P Require Import Packet.
From S2P Require Import Fec.
From S2P Require Import Receiver.
Open Scope Z_scope.
Open Scope flp_scope.

Definition DefaultChunkSize : Z := 500.
Definition FECGroupSize : Z := 7.

(** ** FecDecoder *)

Record fecSlot := mk_fecSlot { sl_data : list Z; sl_present : bool; sl_isParity : bool }.
Definition zero_slot : fecSlot := mk_fecSlot [] false false.
#[export] Instance fecSlot_inhabited : Inhabited fecSlot := populate zero_slot.

Record fecGroup := mk_fecGroup { gr_slots : list fecSlot; gr_count : Z }.
#[export] Instance eta_fecGroup : Eta fecGroup := fun g => mk_fecGroup (gr_slots g) (gr_count g).
Definition new_fecGroup : fecGroup := mk_fecGroup (replicate 8 zero_slot) 0.

Record fecRecovery := mk_fecRecovery { rec_Seq : Z; rec_Data : list Z }.

(** [groups map[int]*fecGroup]: the decoder alone holds the groups. *)
Notation GoFecDecoder := (gmap Z fecGroup).
Definition NewFecDecoder : GoFecDecoder := ∅.

(** The scan for the missing slot: [None] is the return at a second one. *)
Fixpoint missing_slot (i missing : Z) (slots : list fecSlot) : option Z :=
  match slots with
  | [] => Some missing
  | s :: slots' =>
      if negb (sl_present s) then
        if negb (missing =? -1) then None else missing_slot (i + 1) i slots'
      else missing_slot (i + 1) missing slots'
  end.

Fixpoint longest (slots : list fecSlot) (maxLen : Z) : Z :=
  match slots with
  | [] => maxLen
  | s :: slots' =>
      longest slots' (if sl_present s && (Z.of_nat (length (sl_data s)) >? maxLen)
                      then Z.of_nat (length (sl_data s)) else maxLen)
  end.

Fixpoint xor_others (i missing : Z) (slots : list fecSlot) (recovered : list Z) : list Z :=
  match slots with
  | [] => recovered
  | s :: slots' =>
      xor_others (i + 1) missing slots'
        (if i =? missing then recovered else xor_into recovered (sl_data s))
  end.

Definition tryRecover (g : fecGroup) (groupID : Z) : option fecRecovery * fecGroup :=
  match missing_slot 0 (-1) (gr_slots g) with
  | None => (None, g)
  | Some missing =>
      if (missing =? -1) || (missing =? FECGroupSize) then (None, g)
      else
        let maxLen := longest (gr_slots g) 0 in
        let recovered := xor_others 0 missing (gr_slots g) (replicate (Z.to_nat maxLen) 0) in
        (Some (mk_fecRecovery (groupID * (FECGroupSize + 1) + missing) recovered),
         g <| gr_slots ::= fun l => aset l missing (mk_fecSlot recovered true false) |>
           <| gr_count ::= fun n => n + 1 |>)
  end.

Definition Ingest (seq : Z) (data : list Z) (isParity : bool) (f : GoFecDecoder)
    : option fecRecovery * GoFecDecoder :=
  let groupID := seq / (FECGroupSize + 1) in
  let idx := seq mod (FECGroupSize + 1) in
  let g := default new_fecGroup (f !! groupID) in
  let f := <[groupID := g]> f in
  if sl_present (aget (gr_slots g) idx) then (None, f)
  else
    let g := g <| gr_slots ::= fun l => aset l idx (mk_fecSlot data true isParity) |>
               <| gr_count ::= fun n => n + 1 |> in
    if gr_count g =? FECGroupSize then
      let '(rec, g) := tryRecover g groupID in (rec, <[groupID := g]> f)
    else (None, <[groupID := g]> f).

(** ** FileReassembler *)

Record FileReassembler := mk_FileReassembler {
  fr_SessionID : list Z;
  fr_Filename : list Z;
  fr_TotalSize : Z;
  fr_ChunkCount : Z;
  fr_ChunkSize : Z;
  fr_ExpectedCRC : Z;
  fr_Buffer : list Z;
  fr_Bitmap : list Z;
  fr_ChunksReceived : Z;
  fr_DataChunksReceived : Z;
  fr_fec : GoFecDecoder
}.
#[export] Instance eta_FileReassembler : Eta FileReassembler := fun r =>
  mk_FileReassembler (fr_SessionID r) (fr_Filename r) (fr_TotalSize r) (fr_ChunkCount r)
    (fr_ChunkSize r) (fr_ExpectedCRC r) (fr_Buffer r) (fr_Bitmap r) (fr_ChunksReceived r)
    (fr_DataChunksReceived r) (fr_fec r).

(** [make] panics on a negative length. *)
Definition make_bytes (n : Z) : option (list Z) :=
  if n <? 0 then None else Some (replicate (Z.to_nat n) 0).

Definition NewFileReassembler (sessionID filename : list Z)
    (totalSize chunkCount expectedCRC fragmentSize : Z) : option FileReassembler :=
  let cs := if fragmentSize <=? 0 then DefaultChunkSize else fragmentSize in
  buffer ← make_bytes totalSize;
  bitmap ← make_bytes (Z.quot (chunkCount + 7) 8);
  Some (mk_FileReassembler sessionID filename totalSize chunkCount cs expectedCRC buffer bitmap
          0 0 NewFecDecoder).

(** [copy(r.Buffer[offset:end], data)] with [end] clipped to the file: slicing
    panics when [offset] lies behind it. *)
Definition writeToBufferAt (dataIdx : Z) (data : list Z) (r : FileReassembler)
    : option FileReassembler :=
  let offset := dataIdx * fr_ChunkSize r in
  let end_ := Z.min (offset + Z.of_nat (length data)) (fr_TotalSize r) in
  if offset <=? end_
  then Some (r <| fr_Buffer ::= fun b =>
                    memcpy b (Z.to_nat offset) (take (Z.to_nat (end_ - offset)) data) |>)
  else None.

Definition data_chunk_count (r : FileReassembler) : Z :=
  Z.quot (fr_TotalSize r + fr_ChunkSize r - 1) (fr_ChunkSize r).
Definition fecActive (r : FileReassembler) : bool := fr_ChunkCount r >? data_chunk_count r.

(** The place of a data chunk of a session with FEC. *)
Definition chunk_data_idx (seq : Z) : Z :=
  seq / (FECGroupSize + 1) * FECGroupSize + seq mod (FECGroupSize + 1).

Definition mark_chunk (seq : Z) (r : FileReassembler) : FileReassembler :=
  r <| fr_Bitmap ::= fun bm => bitmap_set bm (seq / 8) (bit_mask seq) |>
    <| fr_ChunksReceived ::= fun n => n + 1 |>.

Definition count_data (r : FileReassembler) : FileReassembler :=
  r <| fr_DataChunksReceived ::= fun n => n + 1 |>.

(** The fragment [Ingest] rebuilt, if any. *)
Definition write_recovered (rec : option fecRecovery) (r : FileReassembler)
    : option FileReassembler :=
  match rec with
  | None => Some r
  | Some rec =>
      if negb (rec_Seq rec / 8 <? Z.of_nat (length (fr_Bitmap r))) then None
      else if negb (got (fr_Bitmap r) (rec_Seq rec)) then
        r ← writeToBufferAt (chunk_data_idx (rec_Seq rec)) (rec_Data rec) r;
        Some (count_data (mark_chunk (rec_Seq rec) r))
      else Some r
  end.

Definition WriteChunk (seq : Z) (data : list Z) (r : FileReassembler)
    : option (bool * FileReassembler) :=
  if (seq <? 0) || (seq >=? fr_ChunkCount r) then Some (false, r)
  else if got (fr_Bitmap r) seq then Some (false, r)
  else if fecActive r then
    let isParity := seq mod (FECGroupSize + 1) =? FECGroupSize in
    let '(rec, fec) := Ingest seq data isParity (fr_fec r) in
    let r := r <| fr_fec := fec |> in
    r ← (if negb isParity
         then count_data <$> writeToBufferAt (chunk_data_idx seq) data r
         else Some r);
    r ← write_recovered rec (mark_chunk seq r);
    Some (true, r)
  else
    r ← writeToBufferAt seq data r;
    Some (true, count_data (mark_chunk seq r)).

Definition IsComplete (r : FileReassembler) : bool :=
  fr_DataChunksReceived r >=? data_chunk_count r.

(** [crc32.ChecksumIEEE]: the reflected polynomial 0xEDB88320, bit by bit. *)
Definition crc_bit (c : Z) : Z :=
  if Z.testbit c 0 then Z.lxor (Z.shiftr c 1) 3988292384 else Z.shiftr c 1.
Definition crc_byte (c b : Z) : Z := Nat.iter 8 crc_bit (Z.lxor c b).
Definition ChecksumIEEE (bs : list Z) : Z :=
  Z.lxor (fold_left crc_byte bs UINT32_MAX) UINT32_MAX.

Definition VerifyCRC (r : FileReassembler) : bool :=
  ChecksumIEEE (take (Z.to_nat (fr_TotalSize r)) (fr_Buffer r)) =? fr_ExpectedCRC r.

(** The check value of this CRC. *)
Example crc_check_value : ChecksumIEEE [49; 50; 51; 52; 53; 54; 55; 56; 57] = 3421780262.
Proof. vm_compute. reflexivity. Qed.

(** A sequence of chunks, up to a panic. *)
Fixpoint write_chunks (ds : list (Z * list Z)) (r : FileReassembler) : option FileReassembler :=
  match ds with
  | [] => Some r
  | (seq, data) :: ds' => '(_, r) ← WriteChunk seq data r; write_chunks ds' r
  end.

(** What the reassembler has: received or recovered. *)
Definition held (r : FileReassembler) (q : Z) : bool :=
  (0 <=? q) && (q <? fr_ChunkCount r) && got (fr_Bitmap r) q.

Lemma got_grows bm i m q : got bm q = true → got (bitmap_set bm i m) q = true.
Proof.
  rewrite !got_testbit. unfold bitmap_set, aget, aset. intros H.
  destruct (decide (Z.to_nat (q / 8) = Z.to_nat i)) as [E | E].
  - rewrite E in *. destruct (decide (Z.to_nat i < length bm)%nat).
    + rewrite list_lookup_total_insert_eq by done. by rewrite Z.lor_spec, H.
    + by rewrite list_insert_ge by lia.
  - by rewrite list_lookup_total_insert_ne by done.
Qed.

(** Nothing a chunk does touches the session's description or forgets a chunk. *)
Definition same_session (r r' : FileReassembler) : Prop :=
  (fr_SessionID r' = fr_SessionID r ∧ fr_Filename r' = fr_Filename r ∧
   fr_TotalSize r' = fr_TotalSize r ∧ fr_ChunkCount r' = fr_ChunkCount r ∧
   fr_ChunkSize r' = fr_ChunkSize r ∧ fr_ExpectedCRC r' = fr_ExpectedCRC r) ∧
  length (fr_Bitmap r') = length (fr_Bitmap r) ∧ ∀ q, held r q = true → held r' q = true.

Lemma same_session_refl r : same_session r r.
Proof. done. Qed.

Lemma same_session_trans r1 r2 r3 : same_session r1 r2 → same_session r2 r3 → same_session r1 r3.
Proof.
  intros [H1 [H2 H3]] [H4 [H5 H6]]. split; [ intuition congruence | ]. split; [ congruence | auto ].
Qed.

Lemma writeToBufferAt_same di data r r' : writeToBufferAt di data r = Some r' → same_session r r'.
Proof. unfold writeToBufferAt. cbv zeta. destruct (_ <=? _); [ by intros [= <-] | done ]. Qed.

Lemma mark_chunk_same q r : same_session r (mark_chunk q r).
Proof.
  split; [ done | ]. unfold mark_chunk, held, update_field. cbn. split; [ apply length_bitmap_set | ].
  intros x [Hx Hg]%andb_true_iff. rewrite Hx. by apply got_grows.
Qed.

Lemma count_data_same r : same_session r (count_data r).
Proof. done. Qed.

#[local] Hint Resolve same_session_refl mark_chunk_same count_data_same : core.

Lemma write_recovered_same rec r r' : write_recovered rec r = Some r' → same_session r r'.
Proof.
  unfold write_recovered. destruct rec as [rc | ]; [ | by intros [= <-] ].
  destruct (negb _); [ done | ]. destruct (negb _); [ | by intros [= <-] ].
  destruct (writeToBufferAt _ _ _) as [r1 | ] eqn:E; [ | done ]. cbn. intros [= <-].
  apply writeToBufferAt_same in E. eapply same_session_trans; [ exact E | ].
  eapply same_session_trans; [ apply mark_chunk_same | done ].
Qed.

(** A chunk that is called new is there afterwards; one that is not was there
    before, or is out of range. *)
Lemma WriteChunk_same seq data r b r' :
  WriteChunk seq data r = Some (b, r') →
  same_session r r' ∧
  if b then 0 <= seq < fr_ChunkCount r ∧ held r seq = false ∧
            (Z.of_nat (length (fr_Bitmap r)) = (fr_ChunkCount r + 7) / 8 → held r' seq = true)
  else r' = r.
Proof.
  unfold WriteChunk. destruct (_ || _) eqn:Er; [ by intros [= <- <-] | ].
  destruct (got _ _) eqn:Eg; [ by intros [= <- <-] | ].
  assert (Hn : held r seq = false) by (unfold held; by rewrite Eg, andb_false_r).
  assert (Hm : ∀ r0 r2, same_session r r0 → same_session (mark_chunk seq r0) r2 →
    same_session r r2 ∧ 0 <= seq < fr_ChunkCount r ∧ held r seq = false ∧
    (Z.of_nat (length (fr_Bitmap r)) = (fr_ChunkCount r + 7) / 8 → held r2 seq = true)).
  { intros r0 r2 H0 H2. split; [ eapply same_session_trans; [ exact H0 | ];
      eapply same_session_trans; [ apply mark_chunk_same | exact H2 ] | ].
    split; [ lia | ]. split; [ done | ]. intros Hl. apply H2.
    destruct H0 as ((_ & _ & _ & Hc & _) & Hlen & _). unfold held, mark_chunk, update_field. cbn.
    rewrite got_set, Z.eqb_refl by lia. rewrite Hc. lia. }
  destruct (fecActive r).
  - destruct (Ingest _ _ _ _) as [rec f']. destruct (negb _).
    + destruct (writeToBufferAt _ _ _) as [r1 | ] eqn:E; [ | done ]. cbn.
      destruct (write_recovered _ _) as [r2 | ] eqn:E2; [ | done ]. cbn. intros [= <- <-].
      apply writeToBufferAt_same in E. apply write_recovered_same in E2.
      by apply (Hm (count_data r1)).
    + cbn. destruct (write_recovered _ _) as [r2 | ] eqn:E2; [ | done ]. cbn. intros [= <- <-].
      apply write_recovered_same in E2. by apply (Hm (r <| fr_fec := f' |>)).
  - destruct (writeToBufferAt _ _ _) as [r1 | ] eqn:E; [ | done ]. cbn. intros [= <- <-].
    apply writeToBufferAt_same in E. apply (Hm r1); [ done | apply count_data_same ].
Qed.

Lemma write_chunks_same ds r r' : write_chunks ds r = Some r' → same_session r r'.
Proof.
  revert r. induction ds as [ | [q d] ds IH ]; intros r; cbn [write_chunks]; [ by intros [= <-] | ].
  destruct (WriteChunk q d r) as [[b r1] | ] eqn:E; [ | done ]. cbn. intros H.
  apply WriteChunk_same in E as [E _]. eapply same_session_trans; [ exact E | by apply IH ].
Qed.

(** ** The decoder's group *)

Lemma missing_slot_received i m slots :
  Forall (fun s => sl_present s = true) slots → missing_slot i m slots = Some m.
Proof.
  intros H. revert i. induction H as [ | s slots Hs _ IH ]; intros i; cbn; [ done | ].
  rewrite Hs. apply IH.
Qed.

Lemma missing_slot_one i l1 s l2 :
  0 <= i → Forall (fun s => sl_present s = true) (l1 ++ l2) → sl_present s = false →
  missing_slot i (-1) (l1 ++ s :: l2) = Some (i + Z.of_nat (length l1)).
Proof.
  intros Hi [H1 H2]%Forall_app Hs. revert i Hi.
  induction H1 as [ | s1 l1 Hs1 _ IH ]; intros i Hi; cbn.
  - rewrite Hs. cbn. rewrite missing_slot_received by done. f_equal. lia.
  - rewrite Hs1. cbn. rewrite IH by lia. f_equal. lia.
Qed.

Lemma longest_spec slots m :
  Forall (fun s => sl_present s = true) slots → 0 <= m →
  longest slots m = Z.max m (max_len (map sl_data slots)).
Proof.
  intros H. revert m. induction H as [ | s slots Hs _ IH ]; intros m Hm.
  - unfold max_len. cbn. lia.
  - cbn [longest map]. rewrite Hs, max_len_cons. cbn [andb].
    destruct (Z.gtb_spec (Z.of_nat (length (sl_data s))) m); rewrite IH by lia; lia.
Qed.

(** The missing slot holds no bytes to measure. *)
Lemma longest_missing l1 s l2 m :
  Forall (fun s => sl_present s = true) (l1 ++ l2) → sl_present s = false → 0 <= m →
  longest (l1 ++ s :: l2) m = Z.max m (max_len (map sl_data (l1 ++ l2))).
Proof.
  intros [H1 H2]%Forall_app Hs. revert m. induction H1 as [ | s1 l1 Hs1 _ IH ]; intros m Hm.
  - cbn [app longest]. rewrite Hs. cbn [andb]. by apply longest_spec.
  - cbn [app longest map]. rewrite Hs1, max_len_cons. cbn [andb].
    destruct (Z.gtb_spec (Z.of_nat (length (sl_data s1))) m); rewrite IH by lia; lia.
Qed.

Lemma xor_others_spec i m l buf :
  (m < i ∨ i + Z.of_nat (length l) <= m) →
  Forall (fun s => length (sl_data s) <= length buf)%nat l →
  length (xor_others i m l buf) = length buf ∧
  ∀ j, byte_at (xor_others i m l buf) j = Z.lxor (byte_at buf j) (xor_at (map sl_data l) j).
Proof.
  intros Hm Hl. revert i buf Hm Hl. induction l as [ | s l IH ]; intros i buf Hm Hl.
  - split; [ done | ]. intros. unfold xor_at. cbn. by rewrite Z.lxor_0_r.
  - apply Forall_cons in Hl as [Hs Hl]. cbn [xor_others map length] in *.
    rewrite (proj2 (Z.eqb_neq i m)) by lia.
    destruct (IH (i + 1) (xor_into buf (sl_data s))) as [Hlen Hx]; [ lia | by rewrite length_xor_into | ].
    rewrite Hlen, length_xor_into. split; [ done | ]. intros j.
    by rewrite Hx, byte_at_xor_into, xor_at_cons, Z.lxor_assoc by done.
Qed.

Lemma xor_others_app i m l1 l2 buf :
  xor_others i m (l1 ++ l2) buf =
  xor_others (i + Z.of_nat (length l1)) m l2 (xor_others i m l1 buf).
Proof.
  revert i buf. induction l1 as [ | s l1 IH ]; intros i buf; cbn; [ by rewrite Z.add_0_r | ].
  rewrite IH. f_equal. lia.
Qed.

(** A stored fragment: a payload, zero-padded to at most the fragment size. *)
Definition padded (fs : Z) (p d : list Z) : Prop :=
  ∃ n, (length p <= n)%nat ∧ Z.of_nat n <= fs ∧ d = resize n 0 p.

Lemma padded_refl fs p : Z.of_nat (length p) <= fs → padded fs p p.
Proof. intros. exists (length p). by rewrite resize_all. Qed.

Lemma padded_byte fs p d j : padded fs p d → byte_at d j = byte_at p j.
Proof.
  intros (n & Hn & _ & ->). rewrite byte_at_resize.
  destruct (Nat.ltb_spec j n); [ done | ]. by rewrite byte_at_ge by lia.
Qed.

Lemma padded_xor fs ps ds j : Forall2 (padded fs) ps ds → xor_at ds j = xor_at ps j.
Proof.
  induction 1 as [ | p d ps ds H _ IH ]; [ done | ].
  by rewrite !xor_at_cons, IH, (padded_byte fs p d) by done.
Qed.

(** Seven stored fragments of a codeword give the eighth, padded. *)
Lemma tryRecover_missing fs G ps1 p ps2 l1 s l2 c :
  0 < fs → Forall2 (padded fs) (ps1 ++ ps2) (map sl_data (l1 ++ l2)) →
  length ps1 = length l1 → (length l1 < 7)%nat → length (l1 ++ s :: l2) = 8%nat →
  Forall (fun s => sl_present s = true) (l1 ++ l2) → sl_present s = false →
  (∀ j, xor_at (ps1 ++ p :: ps2) j = 0) →
  Z.of_nat (length p) <= max_len (map sl_data (l1 ++ l2)) →
  ∃ data, padded fs p data ∧
    tryRecover (mk_fecGroup (l1 ++ s :: l2) c) G =
      (Some (mk_fecRecovery (G * 8 + Z.of_nat (length l1)) data),
       mk_fecGroup (l1 ++ mk_fecSlot data true false :: l2) (c + 1)).
Proof.
  intros Hfs Hp Hl1 Hlt Hlen Hall Hs Hzero Hlong. unfold tryRecover. cbn [gr_slots].
  rewrite missing_slot_one by (done || lia).
  replace (_ || _) with false by (unfold FECGroupSize; lia).
  rewrite longest_missing by (done || lia). rewrite Z.max_r by apply max_len_nonneg.
  set (M := max_len _) in *. set (data := xor_others _ _ _ _).
  assert (Hfit : ∀ d, d ∈ map sl_data (l1 ++ l2) → Z.of_nat (length d) <= fs).
  { intros d Hd. apply list_elem_of_lookup in Hd as [k Hk].
    destruct (Forall2_lookup_r _ _ _ _ _ Hp Hk) as (p0 & _ & n & _ & ? & ->).
    by rewrite length_resize. }
  assert (HM : M <= fs) by (apply max_len_bound; [ lia | by apply Forall_forall ]).
  assert (Hsmall : ∀ l, l ⊆ l1 ++ l2 → Forall (fun s => length (sl_data s) <= Z.to_nat M)%nat l).
  { intros l Hl. apply Forall_forall. intros x Hx.
    pose proof (max_len_elem (sl_data x) (map sl_data (l1 ++ l2))) as H. fold M in H.
    assert (Z.of_nat (length (sl_data x)) <= M); [ | lia ].
    apply H, list_elem_of_In, in_map, list_elem_of_In, Hl, Hx. }
  assert (Hdata : length data = Z.to_nat M ∧ ∀ j, byte_at data j = byte_at p j).
  { unfold data. rewrite xor_others_app. cbn [xor_others].
    replace (0 + Z.of_nat (length l1) =? 0 + Z.of_nat (length l1)) with true by lia.
    destruct (xor_others_spec 0 (0 + Z.of_nat (length l1)) l1 (replicate (Z.to_nat M) 0)) as [Ha Hax].
    { lia. } { rewrite length_replicate. apply Hsmall. set_solver. }
    destruct (xor_others_spec (0 + Z.of_nat (length l1) + 1) (0 + Z.of_nat (length l1)) l2
                (xor_others 0 (0 + Z.of_nat (length l1)) l1 (replicate (Z.to_nat M) 0))) as [Hb Hbx].
    { lia. } { rewrite Ha, length_replicate. apply Hsmall. set_solver. }
    rewrite Hb, Ha, length_replicate. split; [ done | ]. intros j.
    rewrite Hbx, Hax, byte_at_replicate, Z.lxor_0_l, <- xor_at_app, <- map_app.
    rewrite (padded_xor fs _ _ j Hp). by apply xor_at_solve. }
  destruct Hdata as [Hlen' Hbyte]. exists data. split.
  - exists (Z.to_nat M). pose proof (max_len_nonneg (map sl_data (l1 ++ l2))). fold M in H.
    split; [ lia | ]. split; [ lia | ]. apply bytes_ext; [ by rewrite length_resize | ].
    intros j. rewrite Hbyte, byte_at_resize. destruct (Nat.ltb_spec j (Z.to_nat M)); [ done | ].
    apply byte_at_ge. lia.
  - cbn [update_field gr_slots gr_count]. unfold update_field, aset. cbn.
    replace (Z.to_nat (0 + Z.of_nat (length l1))) with (length l1 + 0)%nat by lia.
    rewrite insert_app_r. cbn. unfold FECGroupSize. do 3 f_equal; lia.
Qed.

Lemma count_if_but_one {A} (p : A → bool) l :
  count_if p l = Z.of_nat (length l) - 1 →
  ∃ l1 x l2, l = l1 ++ x :: l2 ∧ p x = false ∧ Forall (fun y => p y = true) (l1 ++ l2).
Proof.
  induction l as [ | x l IH ]; intros H; [ unfold count_if in H; cbn in H; lia | ].
  rewrite count_if_cons in H. cbn [length] in H. destruct (p x) eqn:E; cbn in H.
  - destruct IH as (l1 & y & l2 & -> & ? & ?); [ lia | ].
    exists (x :: l1), y, l2. split_and!; [ done | done | by constructor ].
  - exists [], x, l. split_and!; [ done | done | ]. apply Forall_forall. intros y Hy.
    apply (proj1 (count_if_full p l)); [ lia | done ].
Qed.

(** The bytes the buffer holds after a chunk went to its place. *)
Lemma writeToBufferAt_slice file fs di p data r :
  0 < fs → 0 <= di < data_fragments file fs → p = slice file fs di → padded fs p data →
  fr_ChunkSize r = fs → fr_TotalSize r = Z.of_nat (length file) →
  length (fr_Buffer r) = length file →
  ∃ buf', writeToBufferAt di data r = Some (r <| fr_Buffer := buf' |>) ∧
    length buf' = length file ∧
    ∀ j : nat, buf' !! j = fr_Buffer r !! j ∧ ¬ (di * fs <= Z.of_nat j < (di + 1) * fs)
               ∨ buf' !! j = file !! j.
Proof.
  intros Hfs Hdi -> (n & Hn & Hnf & ->) Hcs Hts Hlen.
  assert (Hfrag : data_fragments file fs * fs < Z.of_nat (length file) + fs)
    by (unfold data_fragments; nia).
  assert (Hlt : di * fs < Z.of_nat (length file)) by nia.
  assert (Hsl : Z.of_nat (length (slice file fs di)) = Z.min fs (Z.of_nat (length file) - di * fs)).
  { unfold slice. rewrite length_take, length_drop. nia. }
  unfold writeToBufferAt. rewrite Hcs, Hts, length_resize.
  set (e := Z.min _ _). assert (He : di * fs <= e) by (unfold e; lia).
  replace (di * fs <=? e) with true by lia. eexists. split; [ reflexivity | ].
  assert (Hc : take (Z.to_nat (e - di * fs)) (resize n 0 (slice file fs di)) = slice file fs di).
  { rewrite take_resize_le by (unfold e; lia).
    replace (Z.to_nat (e - di * fs)) with (length (slice file fs di)) by (unfold e; lia).
    by rewrite resize_all. }
  rewrite Hc. set (off := Z.to_nat (di * fs)).
  assert (Hfit : (off + length (slice file fs di) <= length (fr_Buffer r))%nat) by (unfold off; lia).
  split; [ by rewrite length_memcpy | ]. intros j.
  destruct (decide (off <= j < off + length (slice file fs di))%nat) as [Hj | Hj].
  - right. rewrite lookup_memcpy_in by lia. unfold slice in *. rewrite length_take in *.
    rewrite lookup_take_lt by lia. rewrite lookup_drop. f_equal. fold off. lia.
  - rewrite lookup_memcpy_out by lia.
    destruct (decide (di * fs <= Z.of_nat j < (di + 1) * fs)) as [Hr | Hr].
    + right. rewrite !lookup_ge_None_2; [ done | | ]; unfold off in *; nia.
    + left. done.
Qed.

(** ** A session of the server

    [fec]: whether the sender lays the file out with parities, as the mesh
    does, or plainly, as a node with its own internet does. *)

Section layout.
Context (fec : bool) (file : list Z) (fs : Z).

Definition wire_total : Z := if fec then session_total file fs else data_fragments file fs.
Definition wire_payload (q : Z) : option (list Z) :=
  if fec then session_payload file fs q
  else if (0 <=? q) && (q <? data_fragments file fs) then Some (slice file fs q) else None.
Definition carries_data (q : Z) : bool := negb fec || negb (q mod 8 =? 7).
Definition data_place (q : Z) : Z := if fec then chunk_data_idx q else q.

(** The seven others of its group are there. *)
Definition repaired (have : Z → Prop) (q : Z) : Prop :=
  fec = true ∧ q mod 8 < 7 ∧ ∀ k, 0 <= k < 8 → k ≠ q mod 8 → have (8 * (q / 8) + k).
End layout.

Section server.
Context (act : bool) (file : list Z) (fs : Z).
Context (Hfs : 0 < fs <= MAX_MTU).
Context (Hact : act = true → 7 <= data_fragments file fs).
Notation size := (Z.of_nat (length file)).
Notation nfrag := (data_fragments file fs).
Notation tot := (wire_total act file fs).
Notation pay := (wire_payload act file fs).

Definition cloud_group_ok (have : Z → bool) (G : Z) (g : fecGroup) : Prop :=
  length (gr_slots g) = 8%nat ∧ gr_count g = count_if sl_present (gr_slots g) ∧
  ∀ k s, gr_slots g !! k = Some s →
    sl_present s = have (8 * G + Z.of_nat k) ∧
    (sl_present s = true → ∃ p, pay (8 * G + Z.of_nat k) = Some p ∧ padded fs p (sl_data s)).

Definition groups_ok (have : Z → bool) (f : GoFecDecoder) : Prop :=
  ∀ G, 0 <= G → cloud_group_ok have G (default new_fecGroup (f !! G)).

Record stored_ok (r : FileReassembler) : Prop := {
  so_total : fr_ChunkCount r = tot;
  so_size : fr_TotalSize r = size;
  so_fs : fr_ChunkSize r = fs;
  so_len_buf : length (fr_Buffer r) = length file;
  so_len_bm : Z.of_nat (length (fr_Bitmap r)) = (tot + 7) / 8;
  so_chunks : fr_ChunksReceived r = count_if (held r) (seqZ 0 tot);
  so_count : fr_DataChunksReceived r =
               count_if (fun q => held r q && carries_data act q) (seqZ 0 tot);
  so_data : ∀ q (j : nat), held r q = true → carries_data act q = true →
    data_place act q * fs <= Z.of_nat j < (data_place act q + 1) * fs →
    fr_Buffer r !! j = file !! j
}.

Record server_ok (r : FileReassembler) : Prop := {
  so_stored : stored_ok r;
  so_fec : act = true → groups_ok (held r) (fr_fec r);
  so_closed : ∀ q, 0 <= q < tot → repaired act (fun y => held r y = true) q → held r q = true
}.

Lemma wire_total_range : nfrag <= tot.
Proof.
  clear Hact. assert (0 <= nfrag) by (unfold data_fragments; apply Z.div_pos; lia).
  unfold wire_total, session_total. destruct act; lia.
Qed.

Lemma data_chunk_count_ok r : fr_TotalSize r = size → fr_ChunkSize r = fs → data_chunk_count r = nfrag.
Proof.
  intros Hs Hc. unfold data_chunk_count, data_fragments. rewrite Hs, Hc.
  apply Z.quot_div_nonneg; lia.
Qed.

Lemma fecActive_ok r : server_ok r → fecActive r = act.
Proof.
  intros [[Ht Hs Hc _ _ _ _ _] _ _]. unfold fecActive. rewrite (data_chunk_count_ok r Hs Hc), Ht.
  unfold wire_total, session_total. destruct act; [ specialize (Hact eq_refl) | ]; lia.
Qed.

(** A genuine fragment and its place. *)
Lemma wire_payload_range q p : pay q = Some p → 0 <= q < tot.
Proof.
  clear Hact Hfs. unfold wire_payload, wire_total, session_payload.
  destruct act; destruct (_ && _) eqn:E; (done || lia).
Qed.

Lemma wire_payload_data q p :
  pay q = Some p → carries_data act q = true →
  0 <= data_place act q < nfrag ∧ p = slice file fs (data_place act q).
Proof.
  intros Hp Hd. pose proof (wire_payload_range q p Hp) as Hq.
  unfold wire_payload, carries_data, data_place, wire_total, chunk_data_idx, FECGroupSize in *.
  destruct act; cbn in Hd.
  - unfold session_payload in Hp. destruct (_ && _); [ | done ].
    destruct (q mod 8 =? 7) eqn:E7; [ done | ]. injection Hp as <-. unfold session_total in Hq.
    split; [ lia | done ].
  - destruct (_ && _); [ | done ]. injection Hp as <-. split; [ lia | done ].
Qed.

Lemma wire_payload_length q p : pay q = Some p → Z.of_nat (length p) <= fs.
Proof.
  unfold wire_payload. intros Hp. assert (Hsl : ∀ di, Z.of_nat (length (slice file fs di)) <= fs).
  { intros. unfold slice. rewrite length_take. lia. }
  destruct act; [ | destruct (_ && _); by simplify_eq ].
  destruct (Z.eqb_spec (q mod 8) 7) as [E | E].
  - eapply session_parity_length; eauto.
  - unfold session_payload in Hp. destruct (_ && _); [ | done ].
    replace (q mod 8 =? 7) with false in Hp by lia. by simplify_eq.
Qed.

(** *** The decoder keeps its groups *)

Definition plus (have : Z → bool) (q x : Z) : bool := have x || (x =? q).

Lemma cloud_group_ext have have' G g :
  (∀ k, (k < 8)%nat → have (8 * G + Z.of_nat k) = have' (8 * G + Z.of_nat k)) →
  cloud_group_ok have G g → cloud_group_ok have' G g.
Proof.
  intros He (H8 & Hc & Hs). split_and!; [ done | done | ]. intros k s Hk.
  rewrite <- He; [ by apply Hs | ]. rewrite <- H8. by eapply lookup_lt_Some.
Qed.

Lemma cloud_group_store have G k s d p g :
  cloud_group_ok have G g → 0 <= k < 8 → have (8 * G + k) = false →
  pay (8 * G + k) = Some p → padded fs p d → sl_present s = true → sl_data s = d →
  cloud_group_ok (plus have (8 * G + k)) G
    (mk_fecGroup (aset (gr_slots g) k s) (gr_count g + 1)).
Proof.
  intros (H8 & Hc & Hs) Hk Hn Hp Hd Hpres <-. unfold cloud_group_ok. cbn [gr_slots gr_count].
  destruct (lookup_lt_is_Some_2 (gr_slots g) (Z.to_nat k)) as [s0 E0]; [ lia | ].
  destruct (Hs _ _ E0) as [Hp0 _]. rewrite Z2Nat.id, Hn in Hp0 by lia.
  split_and!; [ by rewrite length_aset | | ].
  - unfold aset. rewrite (count_if_insert _ _ _ _ s E0), Hpres, Hp0, Hc. cbn. lia.
  - intros j x Hj. unfold aset, plus in *. destruct (decide (j = Z.to_nat k)) as [-> | Hne].
    + rewrite list_lookup_insert_eq in Hj by lia. injection Hj as <-.
      rewrite !Z2Nat.id by lia. rewrite Z.eqb_refl, orb_true_r. split; [ done | ]. by exists p.
    + rewrite list_lookup_insert_ne in Hj by done. destruct (Hs _ _ Hj) as [-> Hx].
      replace (_ =? _) with false by lia. by rewrite orb_false_r.
Qed.

Lemma groups_ok_update have have' G g f :
  groups_ok have f → 0 <= G → cloud_group_ok have' G g →
  (∀ x, x / 8 ≠ G → have x = have' x) → groups_ok have' (<[G := g]> f).
Proof.
  intros Hf HG Hg He G' HG'. destruct (decide (G' = G)) as [-> | Hne].
  - by rewrite lookup_insert_eq.
  - rewrite lookup_insert_ne by done. eapply cloud_group_ext; [ | by apply Hf ].
    intros k Hk. apply He. lia.
Qed.

(** The payloads of a full group XOR to zero. *)
Lemma group_codeword G p7 :
  act = true → 0 <= G → pay (8 * G + 7) = Some p7 →
  ∃ ps, length ps = 8%nat ∧ (∀ k p, ps !! k = Some p → pay (8 * G + Z.of_nat k) = Some p) ∧
    (∀ k p, ps !! k = Some p → Z.of_nat (length p) <= Z.of_nat (length p7)) ∧
    ∀ j, xor_at ps j = 0.
Proof.
  intros Ha HG Hp. unfold wire_payload in *. rewrite Ha in *.
  pose proof Hp as Hp'. unfold session_payload in Hp'. destruct (_ && _) eqn:E; [ | done ].
  replace ((8 * G + 7) mod 8 =? 7) with true in Hp' by lia.
  replace ((8 * G + 7) / 8) with G in Hp' by lia.
  assert (parity_of (group_slices file fs G) = p7) as E7 by congruence. clear Hp'.
  pose proof (group_slices_fit file fs Hfs G) as Hfit.
  pose proof (proj1 (parity_of_spec _ Hfit)) as Hlen.
  pose proof (fun j => parity_of_codeword _ j Hfit) as Hcode. rewrite E7 in Hlen, Hcode.
  assert (H7 : length (group_slices file fs G) = 7%nat)
    by (unfold group_slices; by rewrite length_fmap).
  assert (Hds : ∀ k p, group_slices file fs G !! k = Some p →
    session_payload file fs (8 * G + Z.of_nat k) = Some p).
  { intros k p Hk. unfold group_slices in Hk. rewrite list_lookup_fmap in Hk.
    destruct (seq 0 7 !! k) as [k' | ] eqn:Ek; [ | done ].
    apply lookup_seq in Ek as [-> Hlt]. injection Hk as <-.
    unfold session_payload. replace ((0 <=? _) && _) with true by lia.
    replace ((8 * G + Z.of_nat k) mod 8 =? 7) with false by lia. do 2 f_equal. lia. }
  clear E7. exists (group_slices file fs G ++ [p7]). split_and!.
  - rewrite length_app, H7. done.
  - intros k p [Hk | [Hge Hk]]%lookup_app_Some; [ by apply Hds | ].
    apply list_lookup_singleton_Some in Hk as [? <-].
    by replace (8 * G + Z.of_nat k) with (8 * G + 7) by lia.
  - intros k p [Hk | [_ Hk]]%lookup_app_Some.
    + rewrite Hlen. apply max_len_elem. by eapply list_elem_of_lookup_2.
    + apply list_lookup_singleton_Some in Hk as [_ <-]. lia.
  - done.
Qed.

(** The stored fragments beside a missing one, against the codeword. *)
Lemma stored_against_codeword have G l1 s l2 ps1 p ps2 c :
  cloud_group_ok have G (mk_fecGroup (l1 ++ s :: l2) c) →
  Forall (fun x => sl_present x = true) (l1 ++ l2) →
  length ps1 = length l1 → length (ps1 ++ p :: ps2) = 8%nat →
  (∀ k x, (ps1 ++ p :: ps2) !! k = Some x → pay (8 * G + Z.of_nat k) = Some x) →
  Forall2 (padded fs) (ps1 ++ ps2) (map sl_data (l1 ++ l2)).
Proof.
  intros (H8 & _ & Hs) [Hp1 Hp2]%Forall_app Hl Hps Hpay. cbn [gr_slots] in *.
  rewrite length_app in H8, Hps. cbn [length] in H8, Hps. rewrite map_app.
  rewrite Forall_lookup in Hp1, Hp2. apply Forall2_app; apply Forall2_same_length_lookup_2.
  1, 3: rewrite length_map; lia.
  - intros i x y Hx Hy. rewrite lookup_map in Hy. destruct (l1 !! i) as [z | ] eqn:Ez; [ | done ].
    injection Hy as <-. destruct (Hs i z) as [_ Hz]; [ by apply lookup_app_l_Some | ].
    destruct Hz as (p0 & Hp0 & ?); [ eauto | ].
    rewrite (Hpay i x) in Hp0 by by apply lookup_app_l_Some. by injection Hp0 as <-.
  - intros i x y Hx Hy. rewrite lookup_map in Hy. destruct (l2 !! i) as [z | ] eqn:Ez; [ | done ].
    injection Hy as <-. destruct (Hs (length l1 + S i)%nat z) as [_ Hz].
    { rewrite lookup_app_r by lia. by replace (length l1 + S i - length l1)%nat with (S i) by lia. }
    destruct Hz as (p0 & Hp0 & ?); [ eauto | ].
    rewrite (Hpay _ x) in Hp0; [ by injection Hp0 as <- | ].
    rewrite lookup_app_r by lia. by replace (length l1 + S i - length ps1)%nat with (S i) by lia.
Qed.

(** At the seventh fragment of a group: the eighth is recovered if it is data. *)
Lemma recover_group have G g :
  act = true → 0 <= G → cloud_group_ok have G g → gr_count g = 7 →
  (tryRecover g G = (None, g) ∧ ∀ m, 0 <= m < 7 → have (8 * G + m) = true) ∨
  ∃ m p data g', 0 <= m < 7 ∧ have (8 * G + m) = false ∧
    (∀ k, 0 <= k < 8 → k ≠ m → have (8 * G + k) = true) ∧
    pay (8 * G + m) = Some p ∧ padded fs p data ∧
    tryRecover g G = (Some (mk_fecRecovery (8 * G + m) data), g') ∧
    cloud_group_ok (plus have (8 * G + m)) G g'.
Proof.
  intros Ha HG Hg H7. pose proof Hg as (H8 & Hc & Hs).
  destruct (count_if_but_one sl_present (gr_slots g)) as (l1 & s & l2 & E & Hmiss & Hall); [ lia | ].
  assert (Hk : ∀ k x, gr_slots g !! k = Some x → k ≠ length l1 → sl_present x = true).
  { rewrite E. intros k x Hx Hne. rewrite Forall_lookup in Hall.
    apply lookup_app_Some in Hx as [Hx | [Hge Hx]].
    - apply (Hall k). by apply lookup_app_l_Some.
    - destruct (k - length l1)%nat as [ | i ] eqn:Ei; [ lia | ]. cbn in Hx.
      apply (Hall (length l1 + i)%nat). rewrite lookup_app_r by lia.
      by replace (length l1 + i - length l1)%nat with i by lia. }
  assert (Hhave : ∀ k, 0 <= k < 8 → k ≠ Z.of_nat (length l1) → have (8 * G + k) = true).
  { intros k Hk8 Hne. destruct (lookup_lt_is_Some_2 (gr_slots g) (Z.to_nat k)) as [x Ex]; [ lia | ].
    destruct (Hs _ _ Ex) as [Hp _]. rewrite Z2Nat.id in Hp by lia. rewrite <- Hp.
    apply (Hk _ _ Ex). lia. }
  assert (Hlen : (length l1 < 8)%nat) by (rewrite E, length_app in H8; cbn in H8; lia).
  destruct (decide (length l1 = 7%nat)) as [E7 | N7].
  { left. split; [ | intros; apply Hhave; lia ]. unfold tryRecover.
    by rewrite E, missing_slot_one, E7 by (done || lia). }
  right. destruct (lookup_lt_is_Some_2 (gr_slots g) 7) as [s7 Es7]; [ lia | ].
  destruct (Hs _ _ Es7) as [_ Hs7]. destruct Hs7 as (p7 & Hp7 & Hpad7); [ apply (Hk _ _ Es7); lia | ].
  destruct (group_codeword G p7 Ha HG Hp7) as (ps & Hps & Hpay & Hle & Hzero).
  destruct (lookup_lt_is_Some_2 ps (length l1)) as [p Ep]; [ lia | ].
  pose proof (Hpay _ _ Ep) as Hpp. pose proof (Hle _ _ Ep) as Hpl.
  rewrite <- (take_drop_middle ps _ p Ep) in Hps, Hpay, Hzero.
  set (ps1 := take (length l1) ps) in *. set (ps2 := drop (S (length l1)) ps) in *.
  assert (Hl1 : length ps1 = length l1).
  { unfold ps1. rewrite length_take. apply lookup_lt_Some in Ep. lia. }
  destruct g as [slots c]. cbn [gr_slots gr_count] in *. subst slots. clear H7.
  destruct (tryRecover_missing fs G ps1 p ps2 l1 s l2 c)
    as (data & Hd & Etry); try done; [ lia | by eapply stored_against_codeword | lia | | ].
  { transitivity (Z.of_nat (length (sl_data s7))).
    - destruct Hpad7 as (n & Hn & _ & ->). rewrite length_resize. lia.
    - apply max_len_elem, list_elem_of_In, in_map, list_elem_of_In.
      apply lookup_app_Some in Es7 as [Es7 | [_ Es7]].
      + apply elem_of_app. left. by eapply list_elem_of_lookup_2.
      + destruct (7 - length l1)%nat as [ | i ] eqn:Ei; [ lia | ]. cbn in Es7.
        apply elem_of_app. right. by eapply list_elem_of_lookup_2. }
  destruct (Hs (length l1) s) as [Hns _]; [ by rewrite lookup_app_r, Nat.sub_diag | ].
  rewrite Hmiss in Hns.
  exists (Z.of_nat (length l1)), p, data, (mk_fecGroup (l1 ++ mk_fecSlot data true false :: l2) (c + 1)).
  split_and!; try done; [ lia | lia | by rewrite Etry; do 3 f_equal; lia | ].
  pose proof (cloud_group_store have G (Z.of_nat (length l1)) (mk_fecSlot data true false) data p
    _ Hg ltac:(lia) (eq_sym Hns) Hpp Hd eq_refl eq_refl) as Hst.
  cbn [gr_slots gr_count] in Hst. unfold aset in Hst. rewrite Nat2Z.id in Hst.
  replace (length l1) with (length l1 + 0)%nat in Hst at 2 by lia.
  by rewrite insert_app_r in Hst.
Qed.

Definition others_there (have : Z → bool) (m : Z) : Prop :=
  m mod 8 < 7 ∧ ∀ k, 0 <= k < 8 → k ≠ m mod 8 → have (8 * (m / 8) + k) = true.

(** A group in which one fragment is missing counts seven. *)
Lemma count_others have m g :
  0 <= m → cloud_group_ok have (m / 8) g → have m = false → others_there have m → gr_count g = 7.
Proof.
  intros Hm (H8 & -> & Hs) Hn [_ Ho].
  destruct (lookup_lt_is_Some_2 (gr_slots g) (Z.to_nat (m mod 8))) as [x Ex]; [ lia | ].
  destruct (Hs _ _ Ex) as [Hp _].
  replace (8 * (m / 8) + Z.of_nat (Z.to_nat (m mod 8))) with m in Hp by lia. rewrite Hn in Hp.
  set (i := Z.to_nat (m mod 8)) in *. set (l := <[i := mk_fecSlot [] true false]> (gr_slots g)).
  assert (count_if sl_present l = Z.of_nat (length l)) as H.
  { apply count_if_full. intros y Hy. apply list_elem_of_lookup in Hy as [k Hk]. unfold l in Hk.
    destruct (decide (k = i)) as [-> | Hne].
    - rewrite list_lookup_insert_eq in Hk by lia. by injection Hk as <-.
    - rewrite list_lookup_insert_ne in Hk by done. rewrite (proj1 (Hs _ _ Hk)). apply Ho; [ | lia ].
      apply lookup_lt_Some in Hk. lia. }
  unfold l in H. rewrite length_insert, H8 in H.
  rewrite (count_if_insert _ _ _ _ _ Ex), Hp in H. cbn in H. lia.
Qed.

Lemma Ingest_ok have f q d :
  act = true → groups_ok have f → have q = false → pay q = Some d →
  let have1 := plus have q in
  ∃ rec f', Ingest q d (q mod (FECGroupSize + 1) =? FECGroupSize) f = (rec, f') ∧
  match rec with
  | None => groups_ok have1 f' ∧
      ∀ m, m / 8 = q / 8 → others_there have1 m → have1 m = true
  | Some rc => ∃ p, rec_Seq rc / 8 = q / 8 ∧ have1 (rec_Seq rc) = false ∧
      others_there have1 (rec_Seq rc) ∧ pay (rec_Seq rc) = Some p ∧ padded fs p (rec_Data rc) ∧
      groups_ok (plus have1 (rec_Seq rc)) f'
  end.
Proof.
  intros Ha Hf Hn Hd. cbv zeta. pose proof (wire_payload_range q d Hd) as Hq.
  unfold Ingest. change (FECGroupSize + 1) with 8. change FECGroupSize with 7.
  set (G := q / 8). set (k := q mod 8). assert (Eq : 8 * G + k = q) by (unfold G, k; lia).
  pose proof (Hf G ltac:(unfold G; lia)) as Hg. set (g := default new_fecGroup (f !! G)) in *.
  pose proof Hg as (H8 & _ & Hs).
  destruct (lookup_lt_is_Some_2 (gr_slots g) (Z.to_nat k)) as [s0 E0]; [ unfold k; lia | ].
  destruct (Hs _ _ E0) as [Hp0 _]. rewrite Z2Nat.id, Eq, Hn in Hp0 by (unfold k; lia).
  unfold aget. rewrite (list_lookup_total_correct _ _ _ E0), Hp0.
  set (g1 := g <| gr_slots ::= _ |> <| gr_count ::= _ |>).
  assert (Hg1 : cloud_group_ok (plus have q) G g1).
  { rewrite <- Eq. apply (cloud_group_store have G k _ d d g Hg); try done.
    - unfold k; lia.
    - by rewrite Eq.
    - by rewrite Eq.
    - apply padded_refl. by eapply wire_payload_length. }
  assert (Hcopy : ∀ have' g', (∀ x, x / 8 ≠ G → plus have q x = have' x) → cloud_group_ok have' G g' →
    groups_ok have' (<[G := g']> (<[G := g]> f))).
  { intros have' g' He Hg'. rewrite insert_insert_eq.
    apply (groups_ok_update have); [ done | unfold G; lia | done | ].
    intros x Hx. rewrite <- He by done. unfold plus, G in *.
    replace (x =? q) with false by (destruct (Z.eqb_spec x q); [ by subst | done ]). by rewrite orb_false_r. }
  destruct (Z.eqb_spec (gr_count g1) 7) as [E7 | N7].
  - destruct (recover_group _ G g1 Ha ltac:(unfold G; lia) Hg1 E7)
      as [[-> Hall] | (m & p & data & g' & Hm & Hnm & Ho & Hp & Hpad & -> & Hg')].
    + do 2 eexists. split; [ reflexivity | ]. split; [ by apply Hcopy | ]. intros m Hm [Hm7 _].
      replace m with (8 * G + m mod 8) by lia. apply Hall. lia.
    + do 2 eexists. split; [ reflexivity | ]. cbn [rec_Seq rec_Data]. exists p.
      split_and!; [ lia | done | | done | done | ].
      * split; [ lia | ]. intros i Hi Hne. replace ((8 * G + m) / 8) with G by lia. apply Ho; lia.
      * apply Hcopy; [ | done ]. intros x Hx. unfold plus.
        replace (x =? 8 * G + m) with false by lia. by rewrite orb_false_r.
  - do 2 eexists. split; [ reflexivity | ]. split; [ by apply Hcopy | ]. intros m Hm Ho.
    destruct (plus have q m) eqn:E; [ done | ]. destruct N7.
    apply (count_others (plus have q) m); [ lia | by rewrite Hm | done | done ].
Qed.

(** *** Storing a chunk *)

Lemma held_mark r q x :
  0 <= q < fr_ChunkCount r → Z.of_nat (length (fr_Bitmap r)) = (fr_ChunkCount r + 7) / 8 →
  held (mark_chunk q r) x = plus (held r) q x.
Proof.
  intros Hq Hlen. unfold held, plus, mark_chunk, update_field. cbn.
  destruct (Z.leb_spec 0 x), (Z.ltb_spec x (fr_ChunkCount r)); cbn [andb];
    rewrite ?got_set by lia; [ by rewrite orb_comm | lia.. ].
Qed.

Lemma count_plus (have : Z → bool) (p : Z → bool) q :
  0 <= q < tot → have q = false →
  count_if (fun x => plus have q x && p x) (seqZ 0 tot) =
  count_if (fun x => have x && p x) (seqZ 0 tot) + Z.b2z (p q).
Proof.
  intros Hq Hn. destruct (p q) eqn:Ep.
  - change (Z.b2z true) with 1. rewrite <- (count_if_add (fun x => have x && p x) (seqZ 0 tot) q);
      [ | apply NoDup_seqZ | apply elem_of_seqZ; lia | by rewrite Hn ].
    unfold count_if, plus. do 2 f_equal. apply filter_ext_in. intros x _.
    destruct (Z.eqb_spec x q) as [-> | ]; [ by rewrite Ep, orb_true_r | by rewrite orb_false_r ].
  - cbn. rewrite Z.add_0_r. unfold count_if, plus. do 2 f_equal. apply filter_ext_in. intros x _.
    destruct (Z.eqb_spec x q) as [-> | ]; [ by rewrite Ep, !andb_false_r | by rewrite orb_false_r ].
Qed.

Lemma count_if_ext {A} (p p' : A → bool) l :
  (∀ x, x ∈ l → p x = p' x) → count_if p l = count_if p' l.
Proof.
  intros H. unfold count_if. do 2 f_equal. apply filter_ext_in. intros x Hx.
  by apply H, list_elem_of_In.
Qed.

(** Marking a chunk whose bytes, if any, are in place. *)
Lemma stored_mark r r1 q buf' :
  stored_ok r → 0 <= q < tot → held r q = false → length buf' = length file →
  (∀ j : nat, buf' !! j = fr_Buffer r !! j ∧
     ¬ (carries_data act q = true ∧
        data_place act q * fs <= Z.of_nat j < (data_place act q + 1) * fs)
     ∨ buf' !! j = file !! j) →
  r1 = (if carries_data act q then count_data else id) (mark_chunk q (r <| fr_Buffer := buf' |>)) →
  stored_ok r1 ∧ (∀ x, held r1 x = plus (held r) q x) ∧ fr_fec r1 = fr_fec r.
Proof.
  intros Hok Hq Hn Hlen Hj ->.
  set (r2 := mark_chunk q (r <| fr_Buffer := buf' |>)).
  pose proof Hok as [Ht Hs Hc Hb Hbm Hch Hct Hda].
  assert (Hheld : ∀ x, held r2 x = plus (held r) q x).
  { intros x. etransitivity; [ apply held_mark | reflexivity ]; cbn; by rewrite Ht. }
  assert (Hall : ∀ r3, held r3 = held r2 → fr_ChunkCount r3 = fr_ChunkCount r →
    fr_TotalSize r3 = fr_TotalSize r → fr_ChunkSize r3 = fr_ChunkSize r → fr_Buffer r3 = buf' →
    fr_Bitmap r3 = fr_Bitmap r2 → fr_ChunksReceived r3 = fr_ChunksReceived r + 1 →
    fr_DataChunksReceived r3 = fr_DataChunksReceived r + Z.b2z (carries_data act q) → stored_ok r3).
  { intros r3 E1 E2 E3 E4 E5 E6 E7 E8. split; rewrite ?E2, ?E3, ?E4, ?E5, ?E6, ?E7, ?E8; try done.
    - unfold r2, mark_chunk, update_field. cbn. by rewrite length_bitmap_set.
    - rewrite Hch, E1, (count_if_ext (held r2) (fun x => plus (held r) q x && true)).
      + rewrite (count_plus (held r) (fun _ => true)) by done. cbn. f_equal. apply count_if_ext.
        intros x _. by rewrite andb_true_r.
      + intros x _. by rewrite Hheld, andb_true_r.
    - rewrite Hct, E1, <- (count_plus (held r) (carries_data act) q) by done. apply count_if_ext.
      intros x _. by rewrite Hheld.
    - intros x j. rewrite E1, Hheld. unfold plus. intros Hx Hd Hr.
      destruct (Hj j) as [[-> Hout] | ]; [ | done ].
      destruct (Z.eqb_spec x q) as [-> | ]; [ by destruct Hout | ]. rewrite orb_false_r in Hx.
      by apply (Hda x). }
  destruct (carries_data act q); (split; [ | split; [ exact Hheld | done ] ]);
    apply Hall; try done; unfold r2, mark_chunk, update_field; cbn; lia.
Qed.

(** A fragment that carries data goes to its place and is marked. *)
Lemma stored_data r q p data :
  stored_ok r → pay q = Some p → held r q = false → padded fs p data → carries_data act q = true →
  ∃ buf', writeToBufferAt (data_place act q) data r = Some (r <| fr_Buffer := buf' |>) ∧
    let r1 := count_data (mark_chunk q (r <| fr_Buffer := buf' |>)) in
    stored_ok r1 ∧ (∀ x, held r1 x = plus (held r) q x) ∧ fr_fec r1 = fr_fec r.
Proof.
  intros Hok Hp Hn Hpad Hd. destruct (wire_payload_data q p Hp Hd) as [Hdi Hsl].
  pose proof Hok as [_ Hs Hc Hb _ _ _ _].
  destruct (writeToBufferAt_slice file fs (data_place act q) p data r) as (buf' & E & Hlen & Hj);
    try done; [ lia | ].
  exists buf'. split; [ done | ]. apply (stored_mark r _ q buf' Hok); try done.
  - by eapply wire_payload_range.
  - intros j. destruct (Hj j) as [[? ?] | ?]; [ left | by right ]. split; [ done | ]. by intros [_ ?].
  - by rewrite Hd.
Qed.

Lemma stored_parity r q p :
  stored_ok r → pay q = Some p → held r q = false → carries_data act q = false →
  stored_ok (mark_chunk q r) ∧ (∀ x, held (mark_chunk q r) x = plus (held r) q x).
Proof.
  intros Hok Hp Hn Hd. pose proof Hok as [_ _ _ Hb _ _ _ _].
  destruct (stored_mark r (mark_chunk q r) q (fr_Buffer r) Hok) as (? & ? & _); try done.
  - by eapply wire_payload_range.
  - intros j. left. split; [ done | ]. rewrite Hd. by intros [? _].
  - rewrite Hd. by destruct r.
Qed.

(** *** One chunk *)

(** What one more genuine chunk [q] makes available. *)
Definition gains (have : Z → bool) (q x : Z) : Prop :=
  have x = true ∨ x = q ∨ (0 <= x < tot ∧ repaired act (fun y => have y = true ∨ y = q) x).

Lemma plus_true have q x : plus have q x = true ↔ have x = true ∨ x = q.
Proof. unfold plus. rewrite orb_true_iff, Z.eqb_eq. done. Qed.

Lemma repaired_others have q x :
  repaired act (fun y => have y = true ∨ y = q) x ↔ act = true ∧ others_there (plus have q) x.
Proof.
  unfold repaired, others_there. split.
  - intros (Ha & H7 & Ho). split_and!; [ done | done | ]. intros k Hk Hne. apply plus_true. by apply Ho.
  - intros (Ha & H7 & Ho). split_and!; [ done | done | ]. intros k Hk Hne. apply plus_true. by apply Ho.
Qed.

Lemma gains_held r q x : server_ok r → held r q = true → gains (held r) q x ↔ held r x = true.
Proof.
  intros Hok Hq. unfold gains. split; [ | by left ]. intros [? | [-> | [Hx Hr]]]; [ done | done | ].
  apply (so_closed r Hok); [ done | ]. destruct Hr as (Ha & H7 & Ho). split_and!; [ done | done | ].
  intros k Hk Hne. destruct (Ho k Hk Hne) as [? | ->]; done.
Qed.

Lemma held_got r q : 0 <= q < fr_ChunkCount r → got (fr_Bitmap r) q = held r q.
Proof. intros. unfold held. by replace ((0 <=? q) && (q <? fr_ChunkCount r)) with true by lia. Qed.

Lemma WriteChunk_plain r q d :
  act = false → server_ok r → pay q = Some d → held r q = false →
  ∃ r', WriteChunk q d r = Some (true, r') ∧ server_ok r' ∧ ∀ x, held r' x = plus (held r) q x.
Proof.
  intros Ha Hok Hd Hn. pose proof (wire_payload_range q d Hd) as Hq.
  pose proof (fecActive_ok r Hok) as Hf. pose proof (so_stored r Hok) as Hst.
  pose proof (so_total r Hst) as Ht. unfold WriteChunk.
  replace (_ || _) with false by lia. rewrite held_got, Hn, Hf, Ha by lia.
  destruct (stored_data r q d d Hst Hd Hn) as (buf' & E & Hst' & Hheld & Hfec).
  { apply padded_refl. by eapply wire_payload_length. }
  { unfold carries_data. by rewrite Ha. }
  unfold data_place in E. rewrite Ha in E. rewrite E. eexists. split; [ reflexivity | ].
  split; [ split; [ done | by rewrite Ha | ] | done ].
  intros x Hx (Hb & _). congruence.
Qed.

Lemma write_recovered_ok r rc p :
  act = true → stored_ok r → held r (rec_Seq rc) = false → rec_Seq rc mod 8 < 7 →
  pay (rec_Seq rc) = Some p → padded fs p (rec_Data rc) →
  ∃ r', write_recovered (Some rc) r = Some r' ∧ stored_ok r' ∧
    (∀ x, held r' x = plus (held r) (rec_Seq rc) x) ∧ fr_fec r' = fr_fec r.
Proof.
  intros Ha Hst Hn H7 Hp Hpad. pose proof (wire_payload_range _ _ Hp) as Hq.
  pose proof Hst as [Ht _ _ _ Hbm _ _ _]. unfold write_recovered.
  replace (_ <? _) with true by lia. cbn [negb]. rewrite held_got, Hn by lia. cbn [negb].
  destruct (stored_data r (rec_Seq rc) p (rec_Data rc) Hst Hp Hn Hpad) as (buf' & E & H).
  { unfold carries_data. rewrite Ha. cbn. lia. }
  unfold data_place in E. rewrite Ha in E. rewrite E. by eexists.
Qed.

Lemma groups_ok_ext have have' f :
  (∀ x, have' x = have x) → groups_ok have f → groups_ok have' f.
Proof. intros He Hf G HG. eapply cloud_group_ext; [ | by apply Hf ]. intros. by rewrite He. Qed.

(** Outside of its group a chunk changes nothing; inside, it is enough to know
    what the group then has. *)
Lemma server_step r r' q f' :
  act = true → server_ok r → stored_ok r' → fr_fec r' = f' → groups_ok (held r') f' →
  (∀ x, x / 8 ≠ q / 8 → held r' x = held r x) →
  (∀ x, x / 8 = q / 8 → held r' x = true ↔ gains (held r) q x) →
  (∀ x, x / 8 = q / 8 → others_there (held r') x → held r' x = true) →
  server_ok r' ∧ ∀ x, held r' x = true ↔ gains (held r) q x.
Proof.
  intros Ha Hok Hst Hf Hgr Hout Hin Hcl.
  assert (Hold : ∀ x, 0 <= x < tot → x / 8 ≠ q / 8 →
    repaired act (fun y => held r y = true ∨ y = q) x → held r x = true).
  { intros x Hx Hne (_ & H7 & Ho). apply (so_closed r Hok); [ done | ]. split_and!; [ done | done | ].
    intros k Hk Hk'. destruct (Ho k Hk Hk') as [? | ?]; [ done | lia ]. }
  assert (Hall : ∀ x, held r' x = true ↔ gains (held r) q x).
  { intros x. destruct (decide (x / 8 = q / 8)) as [E | E]; [ by apply Hin | ].
    rewrite Hout by done. unfold gains. split; [ by left | ].
    intros [? | [-> | [Hx Hr]]]; [ done | done | by apply Hold ]. }
  split; [ | done ]. split; [ done | by rewrite Hf | ]. intros x Hx (_ & H7 & Ho).
  destruct (decide (x / 8 = q / 8)) as [E | E]; [ by apply Hcl | ].
  apply Hall. left. apply Hold; [ done | done | ]. split_and!; [ done | done | ]. intros k Hk Hne.
  left. rewrite <- Hout by lia. by apply Ho.
Qed.

Lemma WriteChunk_fec r q d :
  act = true → server_ok r → pay q = Some d → held r q = false →
  ∃ r', WriteChunk q d r = Some (true, r') ∧ server_ok r' ∧
    ∀ x, held r' x = true ↔ gains (held r) q x.
Proof.
  intros Ha Hok Hd Hn. pose proof (wire_payload_range q d Hd) as Hq.
  pose proof (fecActive_ok r Hok) as Hf. destruct Hok as [Hst Hgr Hcl]. specialize (Hgr Ha).
  pose proof (so_total r Hst) as Ht. unfold WriteChunk.
  replace (_ || _) with false by lia. rewrite held_got, Hn, Hf, Ha by lia.
  destruct (Ingest_ok (held r) (fr_fec r) q d Ha Hgr Hn Hd) as (rec & f' & -> & Hrec). cbv zeta.
  set (r0 := r <| fr_fec := f' |>).
  assert (Hst0 : stored_ok r0) by (destruct Hst; by split).
  assert (∃ r1, mbind (fun r => write_recovered rec (mark_chunk q r) ≫= fun r => Some (true, r))
      (if negb (q mod (FECGroupSize + 1) =? FECGroupSize)
       then count_data <$> writeToBufferAt (chunk_data_idx q) d r0 else Some r0)
      = (write_recovered rec r1 ≫= fun r => Some (true, r)) ∧
      stored_ok r1 ∧ (∀ x, held r1 x = plus (held r) q x) ∧ fr_fec r1 = f') as (r1 & E1 & Hst1 & Hh1 & Hf1).
  { change (FECGroupSize + 1) with 8. change FECGroupSize with 7.
    destruct (negb (q mod 8 =? 7)) eqn:E7.
    - destruct (stored_data r0 q d d Hst0 Hd Hn) as (buf' & E & Hs' & Hh' & Hf').
      { apply padded_refl. by eapply wire_payload_length. } { unfold carries_data. by rewrite Ha, E7. }
      unfold data_place in E. rewrite Ha in E. rewrite E. cbn. eexists. split; [ reflexivity | ].
      split; [ exact Hs' | ]. split; [ exact Hh' | exact Hf' ].
    - destruct (stored_parity r0 q d Hst0 Hd Hn) as [Hs' Hh'].
      { unfold carries_data. by rewrite Ha, E7. }
      exists (mark_chunk q r0). split; [ done | ]. split; [ done | ]. split; [ done | done ]. }
  change (∃ r', mbind (fun r => write_recovered rec (mark_chunk q r) ≫= fun r => Some (true, r))
      (if negb (q mod (FECGroupSize + 1) =? FECGroupSize)
       then count_data <$> writeToBufferAt (chunk_data_idx q) d r0 else Some r0) = Some (true, r') ∧
    server_ok r' ∧ ∀ x, held r' x = true ↔ gains (held r) q x).
  rewrite E1. clear E1.
  destruct rec as [rc | ].
  - destruct Hrec as (p & HG & Hnm & Hom & Hp & Hpad & Hgr').
    destruct (write_recovered_ok r1 rc p Ha Hst1) as (r2 & -> & Hst2 & Hh2 & Hf2); try done.
    { by rewrite Hh1. } { apply Hom. }
    exists r2. split; [ done | ]. assert (Hh : ∀ x, held r2 x = plus (plus (held r) q) (rec_Seq rc) x).
    { intros x. rewrite Hh2. unfold plus at 1. by rewrite Hh1. }
    assert (Hin : ∀ x, x / 8 = q / 8 → held r2 x = true).
    { intros x Hx. rewrite Hh. apply plus_true. destruct (Z.eq_dec x (rec_Seq rc)); [ by right | left ].
      destruct Hom as [_ Hom]. replace x with (8 * (rec_Seq rc / 8) + x mod 8) by lia.
      apply Hom; lia. }
    apply (server_step r r2 q f'); try done; [ by rewrite Hf2 | by eapply groups_ok_ext | ..].
    + intros x Hx. rewrite Hh. unfold plus. replace (x =? q) with false by (symmetry; apply Z.eqb_neq; by intros ->).
      replace (x =? rec_Seq rc) with false by (symmetry; apply Z.eqb_neq; intros ->; by destruct Hx).
      by rewrite !orb_false_r.
    + intros x Hx. rewrite Hin by done. split; [ intros _ | done ].
      destruct (plus (held r) q x) eqn:E; [ apply plus_true in E as [? | ?]; [ by left | by right; left ] | ].
      right; right. assert (x = rec_Seq rc) as -> by (specialize (Hin x Hx); rewrite Hh in Hin;
        apply plus_true in Hin as [Hin | ?]; [ congruence | done ]).
      split; [ by eapply wire_payload_range | ]. by apply repaired_others.
    + intros x Hx _. by apply Hin.
  - destruct Hrec as [Hgr' Hin]. exists r1. split; [ done | ].
    apply (server_step r r1 q f'); try done; [ by eapply groups_ok_ext | ..].
    + intros x Hx. rewrite Hh1. unfold plus. replace (x =? q) with false by (symmetry; apply Z.eqb_neq; by intros ->).
      by rewrite orb_false_r.
    + intros x Hx. rewrite Hh1, plus_true. unfold gains. split; [ tauto | ].
      intros [? | [? | [_ Hr]]]; [ by left | by right | ]. apply plus_true, Hin; [ done | ].
      by apply repaired_others in Hr as [_ ?].
    + intros x Hx [H7 Ho]. rewrite Hh1. apply Hin; [ done | ]. split; [ done | ]. intros k Hk Hne.
      rewrite <- Hh1. by apply Ho.
Qed.

Lemma WriteChunk_ok r q d :
  server_ok r → pay q = Some d →
  ∃ r', WriteChunk q d r = Some (negb (held r q), r') ∧ server_ok r' ∧
    ∀ x, held r' x = true ↔ gains (held r) q x.
Proof.
  intros Hok Hd. destruct (held r q) eqn:Hq.
  - exists r. pose proof (wire_payload_range q d Hd) as Hr. pose proof (so_total r (so_stored r Hok)) as Ht.
    unfold WriteChunk. replace (_ || _) with false by lia. rewrite held_got, Hq by lia.
    split; [ done | ]. split; [ done | ]. intros x. by rewrite (gains_held r q x Hok Hq).
  - destruct (Bool.bool_dec act true) as [Ha | Ha%not_true_iff_false].
    + by apply WriteChunk_fec.
    + destruct (WriteChunk_plain r q d Ha Hok Hd Hq) as (r' & E & Hok' & Hh). exists r'.
      split; [ done | ]. split; [ done | ]. intros x. rewrite Hh, plus_true. unfold gains.
      split; [ tauto | ]. intros [? | [? | (_ & Hb & _)]]; [ by left | by right | congruence ].
Qed.

(** What a set of delivered chunks makes available. *)
Definition available (D : Z → Prop) (x : Z) : Prop := D x ∨ (0 <= x < tot ∧ repaired act D x).

Lemma repaired_mono (D D' : Z → Prop) x : (∀ y, D y → D' y) → repaired act D x → repaired act D' x.
Proof. intros H (Ha & H7 & Ho). split_and!; [ done | done | ]. intros. by apply H, Ho. Qed.

Lemma available_ext (D D' : Z → Prop) x :
  (∀ y, D y ↔ D' y) → available D x ↔ available D' x.
Proof.
  intros H. unfold available. split; (intros [? | [? Hr]]; [ left; by apply H | right; split; [ done | ] ]);
    (eapply repaired_mono; [ | exact Hr ]); intros; by apply H.
Qed.

Lemma gains_available (D : Z → Prop) `{!∀ y, Decision (D y)} have q x :
  (∀ y, have y = true ↔ available D y) →
  gains have q x ↔ available (fun y => D y ∨ y = q) x.
Proof.
  intros Hh. unfold gains. rewrite Hh. split.
  - intros [[? | [? Hr]] | [-> | [Hx (Ha & H7 & Ho)]]]; [ by left; left | | by left; right | ].
    { right. split; [ done | ]. eapply repaired_mono; [ | done ]. by left. }
    destruct (decide (Forall (fun k => k ≠ x mod 8 → D (8 * (x / 8) + k) ∨ 8 * (x / 8) + k = q) (seqZ 0 8)))
      as [Hall | Hex].
    + right. split; [ done | ]. split_and!; [ done | done | ]. intros k Hk Hne.
      rewrite Forall_forall in Hall. apply Hall; [ apply elem_of_seqZ; lia | done ].
    + apply not_Forall_Exists in Hex; [ | intros k; apply _ ].
      apply Exists_exists in Hex as (k & Hk & Hn). apply elem_of_seqZ in Hk. cbn in Hn.
      assert (k ≠ x mod 8) as Hne by tauto. left. left.
      destruct (Ho k ltac:(lia) Hne) as [Hy | Hy]; [ | tauto ].
      apply Hh in Hy as [? | [_ (_ & _ & Hoy)]]; [ tauto | ].
      specialize (Hoy (x mod 8) ltac:(lia) ltac:(lia)).
      by replace (8 * ((8 * (x / 8) + k) / 8) + x mod 8) with x in Hoy by lia.
  - intros [[? | ->] | [Hx Hr]]; [ by left; left | by right; left | ].
    right; right. split; [ done | ]. eapply repaired_mono; [ | done ]. cbn.
    intros y [? | ->]; [ left; apply Hh; by left | by right ].
Qed.

Definition genuine_chunks (ds : list (Z * list Z)) : Prop :=
  Forall (fun c => pay c.1 = Some c.2) ds.

Lemma write_chunks_ok ds (D : Z → Prop) `{!∀ y, Decision (D y)} r :
  server_ok r → (∀ x, held r x = true ↔ available D x) → genuine_chunks ds →
  ∃ r', write_chunks ds r = Some r' ∧ server_ok r' ∧
    ∀ x, held r' x = true ↔ available (fun y => D y ∨ y ∈ ds.*1) x.
Proof.
  revert D H r. induction ds as [ | [q d] ds IH ]; intros D HD r Hok Hh Hg.
  - exists r. split; [ done | ]. split; [ done | ]. intros x. rewrite Hh. apply available_ext. set_solver.
  - apply Forall_cons in Hg as [Hq Hg]. cbn [fst snd] in Hq.
    destruct (WriteChunk_ok r q d Hok Hq) as (r1 & E & Hok1 & Hh1). cbn [write_chunks]. rewrite E. cbn.
    destruct (IH (fun y => D y ∨ y = q) _ r1 Hok1) as (r' & -> & Hok' & Hh'); [ | done | ].
    { intros x. rewrite Hh1. by apply gains_available. }
    exists r'. split; [ done | ]. split; [ done | ]. intros x. rewrite Hh'. apply available_ext. set_solver.
Qed.

Lemma NewFileReassembler_ok sid name crc :
  ∃ r, NewFileReassembler sid name size tot crc fs = Some r ∧ server_ok r ∧
    (∀ x, held r x = false) ∧ fr_ExpectedCRC r = crc ∧ fr_SessionID r = sid ∧
    fr_Filename r = name.
Proof.
  unfold NewFileReassembler, make_bytes. replace (size <? 0) with false by (symmetry; apply Z.ltb_ge; lia). cbn.
  pose proof wire_total_range. assert (0 <= nfrag) by (unfold data_fragments; apply Z.div_pos; lia).
  rewrite Z.quot_div_nonneg by lia. replace ((tot + 7) / 8 <? 0) with false by lia. cbn.
  replace (fs <=? 0) with false by lia. eexists. split; [ reflexivity | ].
  set (r := mk_FileReassembler _ _ _ _ _ _ _ _ _ _ _).
  assert (Hn : ∀ x, held r x = false).
  { intros x. apply not_true_iff_false. unfold held, r. cbn. intros [Hx Hg]%andb_true_iff.
    by rewrite got_fresh in Hg by lia. }
  split; [ | done ]. split; [ split; cbn; rewrite ?length_replicate; try done; try lia | | ].
  - symmetry. apply count_if_none. intros x _. apply Hn.
  - symmetry. apply count_if_none. intros x _. by rewrite Hn.
  - intros x j. by rewrite Hn.
  - intros _ G HG. cbn. unfold NewFecDecoder. rewrite lookup_empty. cbn. split_and!; [ done | done | ].
    intros k s Hk. change (replicate 8 zero_slot !! k = Some s) in Hk.
    apply lookup_replicate in Hk as [-> _]. by rewrite Hn.
  - intros x _ (_ & H7 & Ho). specialize (Ho 7 ltac:(lia) ltac:(lia)). by rewrite Hn in Ho.
Qed.

(** Complete: every data chunk is there, and then the buffer is the file. *)
Lemma count_data_groups (n : nat) :
  count_if (fun q => negb (q mod 8 =? 7)) (seqZ 0 (8 * Z.of_nat n)) = 7 * Z.of_nat n.
Proof.
  induction n as [ | n IH ]; [ done | ].
  replace (8 * Z.of_nat (S n)) with (8 * Z.of_nat n + 8) by lia.
  rewrite seqZ_app, count_if_app, IH by lia.
  assert (count_if (fun q => negb (q mod 8 =? 7)) (seqZ (0 + 8 * Z.of_nat n) 8) = 7); [ | lia ].
  unfold seqZ. change (seq 0 (Z.to_nat 8)) with [0; 1; 2; 3; 4; 5; 6; 7]%nat. cbn [fmap list_fmap].
  rewrite !count_if_cons, count_if_nil.
  repeat match goal with
  | |- context [(Z.of_nat ?k + ?m) mod 8] =>
      replace ((Z.of_nat k + m) mod 8) with (Z.of_nat k) by lia
  end. reflexivity.
Qed.

Lemma count_data_total : count_if (carries_data act) (seqZ 0 tot) = nfrag.
Proof.
  assert (0 <= nfrag) by (unfold data_fragments; apply Z.div_pos; lia).
  unfold wire_total, session_total, carries_data. destruct act; cbn [negb orb].
  - rewrite seqZ_app, count_if_app by lia.
    replace (nfrag / 7 * 8) with (8 * Z.of_nat (Z.to_nat (nfrag / 7))) by lia.
    rewrite count_data_groups. set (t := seqZ _ _).
    assert (count_if (fun q => negb (q mod 8 =? 7)) t = Z.of_nat (length t)) as ->.
    { apply count_if_full. unfold t. intros x Hx%elem_of_seqZ. lia. }
    unfold t. rewrite length_seqZ. lia.
  - rewrite (proj2 (count_if_full (fun _ => true) _)), length_seqZ; [ lia | done ].
Qed.

Lemma count_if_both {A} (p d : A → bool) l :
  count_if (fun x => p x && d x) l <= count_if d l ∧
  (count_if (fun x => p x && d x) l = count_if d l ↔ ∀ x, x ∈ l → d x = true → p x = true).
Proof.
  induction l as [ | x l [IHle IH] ].
  - split; [ done | ]. split; [ | done ]. intros _ y Hy. by apply elem_of_nil in Hy.
  - rewrite !count_if_cons. destruct (d x) eqn:Ed; rewrite ?andb_true_r, ?andb_false_r; cbn.
    + destruct (p x) eqn:Ep; cbn; (split; [ lia | ]); split.
      * intros Hc y [-> | Hy]%elem_of_cons; [ done | ]. apply IH; [ lia | done ].
      * intros Hy. assert (count_if (fun x => p x && d x) l = count_if d l); [ | lia ].
        apply IH. intros y ?. apply Hy. by right.
      * lia.
      * intros Hy. rewrite (Hy x) in Ep; [ done | by left | done ].
    + split; [ lia | ]. split.
      * intros Hc y [-> | Hy]%elem_of_cons; [ congruence | ]. apply IH; [ lia | done ].
      * intros Hy. assert (count_if (fun x => p x && d x) l = count_if d l); [ | lia ].
        apply IH. intros y ?. apply Hy. by right.
Qed.

(** The number of the data chunk at a place. *)
Definition place_seq (di : Z) : Z := if act then di / 7 * 8 + di mod 7 else di.

Lemma place_seq_spec di :
  0 <= di < nfrag →
  0 <= place_seq di < tot ∧ carries_data act (place_seq di) = true ∧ data_place act (place_seq di) = di.
Proof.
  intros Hdi. unfold place_seq, wire_total, session_total, carries_data, data_place, chunk_data_idx,
    FECGroupSize. destruct act; cbn [negb orb]; split_and!; (done || lia).
Qed.

Lemma server_complete r :
  server_ok r →
  (IsComplete r = true ↔ ∀ q, 0 <= q < tot → carries_data act q = true → held r q = true) ∧
  (IsComplete r = true → fr_Buffer r = file).
Proof.
  intros Hok. destruct (so_stored r Hok) as [Ht Hs Hc Hb _ _ Hct Hda].
  destruct (count_if_both (held r) (carries_data act) (seqZ 0 tot)) as [Hle Heq].
  rewrite count_data_total in Hle, Heq.
  assert (Hiff : IsComplete r = true ↔ ∀ q, 0 <= q < tot → carries_data act q = true → held r q = true).
  { unfold IsComplete. rewrite Hct, data_chunk_count_ok by done. rewrite Z.geb_le. split.
    - intros H. assert (nfrag <= nfrag) as _ by lia. intros q Hq. apply Heq; [ lia | ].
      apply elem_of_seqZ; lia.
    - intros H. rewrite (proj2 Heq); [ lia | ]. intros q Hq%elem_of_seqZ. apply H. lia. }
  split; [ done | ]. intros Hcomp. apply list_eq. intros j.
  destruct (decide (j < length file)%nat) as [Hj | Hj]; [ | by rewrite !lookup_ge_None_2 by lia ].
  set (di := Z.of_nat j / fs).
  assert (Hdi : 0 <= di < nfrag) by (unfold di, data_fragments; nia).
  destruct (place_seq_spec di Hdi) as (Hq & Hd & Hp). apply (Hda (place_seq di)); [ | done | ].
  - by apply Hiff.
  - rewrite Hp. unfold di. nia.
Qed.
End server.

(** ** Properties *)

(** A session of fewer than seven fragments has no parity, and the server then
    takes it for one without FEC: both layouts are the same. *)
Definition fec_in_use (fec : bool) (file : list Z) (fs : Z) : bool :=
  fec && (7 <=? data_fragments file fs).

Lemma fec_in_use_total fec file fs :
  0 < fs → wire_total (fec_in_use fec file fs) file fs = wire_total fec file fs.
Proof.
  intros Hfs. assert (0 <= data_fragments file fs) by (unfold data_fragments; apply Z.div_pos; lia).
  unfold fec_in_use, wire_total, session_total. destruct fec; cbn [andb]; [ | done ].
  destruct (Z.leb_spec 7 (data_fragments file fs)); lia.
Qed.

Lemma fec_in_use_payload fec file fs q :
  0 < fs → wire_payload (fec_in_use fec file fs) file fs q = wire_payload fec file fs q.
Proof.
  intros Hfs. assert (0 <= data_fragments file fs) by (unfold data_fragments; apply Z.div_pos; lia).
  unfold fec_in_use, wire_payload, session_payload, session_total. destruct fec; cbn [andb]; [ | done ].
  destruct (Z.leb_spec 7 (data_fragments file fs)) as [? | Hlt]; [ done | ].
  replace (data_fragments file fs / 7 * 8 + data_fragments file fs mod 7) with (data_fragments file fs) by lia.
  destruct ((0 <=? q) && (q <? data_fragments file fs)) eqn:E; [ | done ].
  replace (q mod 8 =? 7) with false by lia. do 2 f_equal. lia.
Qed.

Lemma fec_in_use_data fec file fs q :
  0 < fs → 0 <= q < wire_total fec file fs →
  carries_data (fec_in_use fec file fs) q = carries_data fec q.
Proof.
  intros Hfs. assert (0 <= data_fragments file fs) by (unfold data_fragments; apply Z.div_pos; lia).
  unfold fec_in_use, carries_data, wire_total, session_total. destruct fec; cbn [andb]; [ | done ].
  destruct (Z.leb_spec 7 (data_fragments file fs)); cbn [negb orb]; [ done | ]. intros Hq.
  symmetry. replace (q mod 8 =? 7) with false by lia. done.
Qed.

(** Which data chunks a set of deliveries covers. *)
Definition covered (fec : bool) (ds : list (Z * list Z)) (q : Z) : Prop :=
  q ∈ ds.*1 ∨ repaired fec (fun y => y ∈ ds.*1) q.

Lemma fec_in_use_covered fec file fs ds q :
  0 < fs → genuine_chunks fec file fs ds → 0 <= q < wire_total fec file fs →
  available (fec_in_use fec file fs) file fs (fun y => y ∈ ds.*1) q ↔ covered fec ds q.
Proof.
  intros Hfs Hg Hq. unfold available, covered. rewrite fec_in_use_total by done.
  assert (repaired (fec_in_use fec file fs) (fun y => y ∈ ds.*1) q ↔ repaired fec (fun y => y ∈ ds.*1) q);
    [ | tauto ].
  unfold repaired, fec_in_use. destruct fec; cbn [andb]; [ | done ].
  destruct (Z.leb_spec 7 (data_fragments file fs)) as [? | Hlt]; [ done | ].
  split; [ by intros [? _] | ]. intros (_ & H7 & Ho). specialize (Ho 7 ltac:(lia) ltac:(lia)).
  apply list_elem_of_fmap in Ho as ([y d] & Hy & Hin). unfold genuine_chunks in Hg.
  rewrite Forall_forall in Hg. apply Hg, wire_payload_range in Hin. cbn in Hy, Hin. subst y.
  assert (0 <= data_fragments file fs) by (unfold data_fragments; apply Z.div_pos; lia).
  unfold wire_total, session_total in Hin. lia.
Qed.

(** C5: the server reassembles the source's file. For a session whose meta
    describes [file] in chunks of [fs] bytes, with the mesh's parities or
    without, deliver genuine chunks in any order, with any losses and
    duplicates: no step panics; the session is complete exactly when each data
    chunk was delivered or all seven others of its group were, the best the
    parity allows; and then the buffer is the file, byte for byte, and the
    CRC check compares the file's own CRC. *)
Theorem server_reassembles (fec : bool) file fs sid name crc ds :
  0 < fs <= MAX_MTU → genuine_chunks fec file fs ds →
  ∃ r0 r, NewFileReassembler sid name (Z.of_nat (length file)) (wire_total fec file fs) crc fs = Some r0 ∧
    write_chunks ds r0 = Some r ∧
    (IsComplete r = true ↔
       ∀ q, 0 <= q < wire_total fec file fs → carries_data fec q = true → covered fec ds q) ∧
    (IsComplete r = true → fr_Buffer r = file ∧ VerifyCRC r = (ChecksumIEEE file =? crc)).
Proof.
  intros Hfs Hg. set (act := fec_in_use fec file fs).
  assert (Hact : act = true → 7 <= data_fragments file fs).
  { unfold act, fec_in_use. destruct fec; cbn; [ lia | done ]. }
  assert (Hg' : genuine_chunks act file fs ds).
  { eapply Forall_impl; [ exact Hg | ]. intros c Hc. unfold act. by rewrite fec_in_use_payload by lia. }
  destruct (NewFileReassembler_ok act file fs Hfs sid name crc) as (r0 & E & Hok & Hn & Hcrc & _).
  destruct (write_chunks_ok act file fs Hfs Hact ds (fun _ => False) r0 Hok) as (r & Ew & Hokr & Hhr).
  { intros x. rewrite Hn. split; [ done | ]. intros [[] | (_ & _ & H7 & Ho)]. destruct (Ho 7); lia. }
  { done. }
  assert (Hav : ∀ q, 0 <= q < wire_total fec file fs → held r q = true ↔ covered fec ds q).
  { intros q Hq. rewrite Hhr, <- (fec_in_use_covered fec file fs ds q) by (done || lia).
    fold act. unfold available, repaired. split; (intros [? | (? & ? & ? & Ho)]; [ left | right ]);
      split_and?; try done; try tauto; intros k Hk Hne; specialize (Ho k Hk Hne); tauto. }
  rewrite <- fec_in_use_total by lia. fold act. exists r0, r. split; [ done | ]. split; [ done | ].
  destruct (server_complete act file fs Hfs Hact r Hokr) as [Hc Hb]. split.
  - rewrite Hc. unfold act. rewrite fec_in_use_total by lia.
    split; intros H q Hq; specialize (H q Hq); rewrite fec_in_use_data in * by (done || lia);
      intros Hd; specialize (H Hd); by apply Hav.
  - intros Hcomp. split; [ by apply Hb | ]. unfold VerifyCRC.
    destruct (write_chunks_same _ _ _ Ew) as [(_ & _ & _ & _ & _ & ->) _]. rewrite Hcrc.
    by rewrite (so_size _ _ _ _ (so_stored _ _ _ _ Hokr)), (Hb Hcomp), firstn_all2 by lia.
Qed.

(** Nine one-byte chunks, the fourth lost and recovered, another one twice. *)
Definition demo_chunks : list (Z * list Z) :=
  (fun q => (q, default [] (session_payload demo_file 1 q))) <$> [9; 0; 2; 1; 7; 4; 4; 6; 5; 8].

Lemma server_reassembles_witness :
  ∃ r0 r, NewFileReassembler [] [] 9 10 (ChecksumIEEE demo_file) 1 = Some r0 ∧
    write_chunks demo_chunks r0 = Some r ∧ IsComplete r = true ∧
    fr_Buffer r = demo_file ∧ VerifyCRC r = true.
Proof.
  destruct (server_reassembles true demo_file 1 [] [] (ChecksumIEEE demo_file) demo_chunks)
    as (r0 & r & E & Ew & _ & Hb).
  - done.
  - repeat (apply Forall_cons_2; [ vm_compute; reflexivity | ]). apply Forall_nil_2.
  - exists r0, r. split; [ exact E | ]. split; [ exact Ew | ].
    assert (IsComplete <$> (NewFileReassembler [] [] (Z.of_nat (length demo_file))
      (wire_total true demo_file 1) (ChecksumIEEE demo_file) 1 ≫= write_chunks demo_chunks) = Some true) as H.
    { vm_compute. reflexivity. }
    rewrite E in H. cbn [mbind option_bind] in H. rewrite Ew in H. injection H as H.
    split; [ exact H | ]. destruct (Hb H) as [-> ->]. split; [ reflexivity | apply Z.eqb_refl ].
Defined.

(** A meta that announces more chunks than the file has makes a chunk beyond
    the end of the file panic; [DiagnoseCRC] has a case for such chunks. *)
Lemma chunk_beyond_file_panics sid name size count crc fs r seq data :
  0 <= size → 0 < fs → 0 <= seq < count → (size + fs - 1) / fs < count → seq mod 8 < 7 →
  size < chunk_data_idx seq * fs →
  NewFileReassembler sid name size count crc fs = Some r → WriteChunk seq data r = None.
Proof.
  intros Hs Hfs Hq Hc H7 Hoff. unfold NewFileReassembler, make_bytes.
  replace (size <? 0) with false by lia. rewrite Z.quot_div_nonneg by lia.
  replace ((count + 7) / 8 <? 0) with false by lia. replace (fs <=? 0) with false by lia.
  cbn. intros [= <-]. unfold WriteChunk. cbn. replace (_ || _) with false by lia.
  rewrite got_fresh by lia. unfold fecActive, data_chunk_count. cbn.
  rewrite Z.quot_div_nonneg by lia. replace (count >? _) with true by lia.
  destruct (Ingest _ _ _ _) as [rec f']. change (FECGroupSize + 1) with 8. change FECGroupSize with 7.
  replace (seq mod 8 =? 7) with false by lia. cbn [negb]. unfold writeToBufferAt. cbn.
  replace (_ <=? _) with false by lia. done.
Qed.

Example oversized_meta : (NewFileReassembler [] [] 10 3 0 500 ≫= WriteChunk 1 [1; 2; 3]) = None.
Proof. vm_compute. reflexivity. Qed.
