(* ===== verification/CloudArq.v ===== *)
(** * The cloud server's retransmission requests (cloud-admin/internal/transfer/protocol.go)

    The server's [SelectiveRepeat] and its use beside the reassembler: what
    [processChunk] of engine.go does with both. The callback's calls are
    returned in order; times are milliseconds, as in CloudReassembly.v. *)

From Stdlib Require Import ZArith Lia.
From stdpp Require Import base list numbers option sets gmap.
From S2P Require Import Prelude.
From S2P Require Import Packet.
From S2P Require Import Fec.
From S2P Require Import Receiver.
From S2P Require Import CloudReassembly.
Open Scope Z_scope.
Open Scope flp_scope.

(** [timeoutSec] is stored and never read. *)
Record CloudSR := mk_CloudSR {
  sr_windowSize : Z;
  sr_expectedBase : Z;
  sr_bitmap : option (list Z);
  sr_totalChunks : Z;
  sr_lastNACKTime : gmap Z Z;
  sr_NACKCount : Z
}.
#[export] Instance eta_CloudSR : Eta CloudSR := fun s =>
  mk_CloudSR (sr_windowSize s) (sr_expectedBase s) (sr_bitmap s) (sr_totalChunks s)
    (sr_lastNACKTime s) (sr_NACKCount s).

Definition NewSelectiveRepeat (windowSize : Z) : CloudSR :=
  mk_CloudSR windowSize 0 None 0 ∅ 0.

Definition StartSession (totalChunks : Z) (sr : CloudSR) : option CloudSR :=
  bm ← make_bytes (Z.quot (totalChunks + 7) 8);
  Some (mk_CloudSR (sr_windowSize sr) 0 (Some bm) totalChunks ∅ 0).

Definition isReceived (seq : Z) (sr : CloudSR) : bool :=
  if (seq <? 0) || (seq >=? sr_totalChunks sr) then false
  else match sr_bitmap sr with Some bm => got bm seq | None => false end.

Definition markReceived (seq : Z) (sr : CloudSR) : CloudSR :=
  if (seq >=? 0) && (seq <? sr_totalChunks sr)
  then sr <| sr_bitmap ::= fmap (fun bm => bitmap_set bm (seq / 8) (bit_mask seq)) |>
  else sr.

(** [for sr.expectedBase < sr.totalChunks && sr.isReceived(sr.expectedBase)] *)
Fixpoint advance_base (fuel : nat) (sr : CloudSR) : CloudSR :=
  match fuel with
  | O => sr
  | S fuel' =>
      if (sr_expectedBase sr <? sr_totalChunks sr) && isReceived (sr_expectedBase sr) sr
      then advance_base fuel' (sr <| sr_expectedBase ::= fun b => b + 1 |>)
      else sr
  end.

(** The callback's calls: an ACK or a NACK for a sequence number. *)
Inductive AckCall := ACK_call (seq : Z) | NACK_call (seq : Z).

Definition OnChunkReceived (seq : Z) (sr : CloudSR) : CloudSR * list AckCall :=
  if (seq <? 0) || (seq >=? sr_totalChunks sr) then (sr, [])
  else
    let sr := markReceived seq sr in
    (advance_base (Z.to_nat (sr_totalChunks sr - sr_expectedBase sr)) sr, [ACK_call seq]).

(** Whether a chunk was asked for less than [cooldown] ago. *)
Definition cooling (now cooldown seq : Z) (sr : CloudSR) : bool :=
  match sr_lastNACKTime sr !! seq with
  | Some last => now - last <? cooldown
  | None => false
  end.

(** The loop of [CheckTimeouts], [n] chunks from [seq] on. *)
Fixpoint timeout_nacks (n : nat) (seq now maxPerTick sent : Z) (sr : CloudSR)
    : CloudSR * list AckCall :=
  match n with
  | O => (sr, [])
  | S n' =>
      if isReceived seq sr then timeout_nacks n' (seq + 1) now maxPerTick sent sr
      else if cooling now 4000 seq sr then timeout_nacks n' (seq + 1) now maxPerTick sent sr
      else
        let sr := sr <| sr_lastNACKTime ::= <[seq := now]> |> <| sr_NACKCount ::= fun c => c + 1 |> in
        if sent + 1 >=? maxPerTick then (sr, [NACK_call seq])
        else let '(sr, calls) := timeout_nacks n' (seq + 1) now maxPerTick (sent + 1) sr in
             (sr, NACK_call seq :: calls)
  end.

Definition CheckTimeouts (maxPerTick now : Z) (sr : CloudSR) : CloudSR * list AckCall :=
  match sr_bitmap sr with
  | None => (sr, [])
  | Some _ =>
      let maxPerTick := if maxPerTick <=? 0 then 8 else maxPerTick in
      let end_ := Z.min (sr_expectedBase sr + sr_windowSize sr) (sr_totalChunks sr) in
      let end_ := Z.min end_ (sr_expectedBase sr + 64) in
      timeout_nacks (Z.to_nat (end_ - sr_expectedBase sr)) (sr_expectedBase sr) now maxPerTick 0 sr
  end.

(** The loop of [CheckStall]: the first 32 missing chunks. *)
Fixpoint missing_chunks (n : nat) (seq : Z) (missing : list Z) (sr : CloudSR) : list Z :=
  match n with
  | O => missing
  | S n' =>
      if Z.of_nat (length missing) <? 32 then
        missing_chunks n' (seq + 1) (if isReceived seq sr then missing else missing ++ [seq]) sr
      else missing
  end.

Definition CheckStall (lastChunkTime stall now : Z) (sr : CloudSR) : list Z :=
  match sr_bitmap sr with
  | None => []
  | Some _ =>
      if now - lastChunkTime <? stall then []
      else missing_chunks (Z.to_nat (sr_totalChunks sr - sr_expectedBase sr)) (sr_expectedBase sr) [] sr
  end.

(** The loop of [BuildFilteredStallNACKs]. *)
Fixpoint stall_nacks (n : nat) (seq now maxGaps cooldown : Z) (missing : list Z) (sr : CloudSR)
    : CloudSR * list Z :=
  match n with
  | O => (sr, missing)
  | S n' =>
      if Z.of_nat (length missing) <? maxGaps then
        if isReceived seq sr then stall_nacks n' (seq + 1) now maxGaps cooldown missing sr
        else if cooling now cooldown seq sr then stall_nacks n' (seq + 1) now maxGaps cooldown missing sr
        else stall_nacks n' (seq + 1) now maxGaps cooldown (missing ++ [seq])
               (sr <| sr_lastNACKTime ::= <[seq := now]> |>)
      else (sr, missing)
  end.

Definition BuildFilteredStallNACKs (maxGaps maxProbeAhead cooldown now : Z) (sr : CloudSR)
    : CloudSR * list Z :=
  match sr_bitmap sr with
  | None => (sr, [])
  | Some _ =>
      if sr_totalChunks sr =? 0 then (sr, [])
      else
        let maxGaps := if maxGaps <=? 0 then 8 else maxGaps in
        let maxProbeAhead := if maxProbeAhead <=? 0 then 64 else maxProbeAhead in
        let cooldown := if cooldown <=? 0 then 8000 else cooldown in
        let end_ := Z.min (sr_expectedBase sr + maxProbeAhead) (sr_totalChunks sr) in
        stall_nacks (Z.to_nat (end_ - sr_expectedBase sr)) (sr_expectedBase sr) now maxGaps cooldown
          [] sr
  end.

Definition sr_IsComplete (sr : CloudSR) : bool := sr_expectedBase sr >=? sr_totalChunks sr.

(** What [processChunk] does with a chunk, up to the completion test: only a
    chunk the reassembler calls new reaches the [SelectiveRepeat]. *)
Definition accept_chunk (seq : Z) (data : list Z) (r : FileReassembler) (sr : CloudSR)
    : option (bool * FileReassembler * CloudSR * list AckCall) :=
  '(isNew, r) ← WriteChunk seq data r;
  if negb isNew then Some (false, r, sr, [])
  else let '(sr, calls) := OnChunkReceived seq sr in Some (true, r, sr, calls).

(** ** A session's events *)

(** A chunk of the active session, or the two request paths of the engine's
    one-second tick. *)
Inductive SrEvent :=
  | EvChunk (seq : Z) (data : list Z)
  | EvTimeouts (now : Z)
  | EvStall (lastChunkTime now : Z) (tailPhase : bool).

Definition nacks_of (calls : list AckCall) : list Z :=
  omap (fun c => match c with NACK_call s => Some s | ACK_call _ => None end) calls.

(** The stall branch: [CheckStall] with 5 s, then the filtered list. *)
Definition stall_request (lastChunkTime now : Z) (tailPhase : bool) (sr : CloudSR)
    : CloudSR * list Z :=
  match CheckStall lastChunkTime 5000 now sr with
  | [] => (sr, [])
  | _ => BuildFilteredStallNACKs 8 64 (if tailPhase then 4000 else 8000) now sr
  end.

(** One event: the chunks the server asks for again. *)
Definition cloud_step (ev : SrEvent) (r : FileReassembler) (sr : CloudSR)
    : option (FileReassembler * CloudSR * list Z) :=
  match ev with
  | EvChunk seq data =>
      '(_, r, sr, calls) ← accept_chunk seq data r sr; Some (r, sr, nacks_of calls)
  | EvTimeouts now => let '(sr, calls) := CheckTimeouts 6 now sr in Some (r, sr, nacks_of calls)
  | EvStall last now tail => let '(sr, seqs) := stall_request last now tail sr in Some (r, sr, seqs)
  end.

Fixpoint cloud_run (evs : list SrEvent) (r : FileReassembler) (sr : CloudSR)
    : option (FileReassembler * CloudSR * list Z) :=
  match evs with
  | [] => Some (r, sr, [])
  | ev :: evs' =>
      '(r, sr, asked) ← cloud_step ev r sr;
      '(r, sr, asked') ← cloud_run evs' r sr; Some (r, sr, asked ++ asked')
  end.

(** ** What is asked for *)

(** Missing, and not asked for within the cooldown. *)
Definition due (now cooldown : Z) (sr : CloudSR) (seq : Z) : bool :=
  negb (isReceived seq sr) && negb (cooling now cooldown seq sr).

Lemma due_received now cooldown sr q : isReceived q sr = true → due now cooldown sr q = false.
Proof. intros E. unfold due. by rewrite E. Qed.

Lemma due_cooling now cooldown sr q : cooling now cooldown q sr = true → due now cooldown sr q = false.
Proof. intros E. unfold due. by rewrite E, andb_false_r. Qed.

Lemma due_missing now cooldown sr q :
  isReceived q sr = false → cooling now cooldown q sr = false → due now cooldown sr q = true.
Proof. intros E1 E2. unfold due. by rewrite E1, E2. Qed.

(** The same chunks received, asked for at other times. *)
Definition asked_more (sr sr' : CloudSR) : Prop :=
  sr_windowSize sr' = sr_windowSize sr ∧ sr_expectedBase sr' = sr_expectedBase sr ∧
  sr_bitmap sr' = sr_bitmap sr ∧ sr_totalChunks sr' = sr_totalChunks sr.

Lemma asked_more_received sr sr' q : asked_more sr sr' → isReceived q sr' = isReceived q sr.
Proof. intros (_ & _ & E1 & E2). unfold isReceived. by rewrite E1, E2. Qed.

Lemma asked_more_trans a b c : asked_more a b → asked_more b c → asked_more a c.
Proof. unfold asked_more. intuition congruence. Qed.

(** Asking for [seq] changes nothing for the chunks behind it. *)
Lemma due_asked now cooldown sr sr' seq q :
  asked_more sr sr' → sr_lastNACKTime sr' = <[seq := now]> (sr_lastNACKTime sr) → q ≠ seq →
  due now cooldown sr' q = due now cooldown sr q.
Proof.
  intros Ha El Hne. unfold due, cooling. rewrite (asked_more_received sr sr') by done.
  by rewrite El, lookup_insert_ne by done.
Qed.

Lemma filter_due_asked now cooldown sr sr' seq n :
  asked_more sr sr' → sr_lastNACKTime sr' = <[seq := now]> (sr_lastNACKTime sr) →
  List.filter (due now cooldown sr') (seqZ (seq + 1) (Z.of_nat n)) =
  List.filter (due now cooldown sr) (seqZ (seq + 1) (Z.of_nat n)).
Proof.
  intros Ha El. apply filter_ext_in. intros q Hq.
  apply list_elem_of_In, elem_of_seqZ in Hq. eapply due_asked; [ done | done | lia ].
Qed.

Lemma seqZ_S seq n : seqZ seq (Z.of_nat (S n)) = seq :: seqZ (seq + 1) (Z.of_nat n).
Proof. rewrite seqZ_cons by lia. do 2 f_equal; lia. Qed.

(** The chunks [qs] were asked for, at [now]. *)
Definition asked_at (now : Z) (qs : list Z) (sr sr' : CloudSR) : Prop :=
  asked_more sr sr' ∧
  ∀ q, sr_lastNACKTime sr' !! q = if decide (q ∈ qs) then Some now else sr_lastNACKTime sr !! q.

Lemma asked_at_nil now sr : asked_at now [] sr sr.
Proof. split; [ done | ]. intros q. rewrite decide_False by apply not_elem_of_nil. done. Qed.

Lemma asked_at_cons now q qs sr sr1 sr' :
  asked_more sr sr1 → sr_lastNACKTime sr1 = <[q := now]> (sr_lastNACKTime sr) →
  asked_at now qs sr1 sr' → asked_at now (q :: qs) sr sr'.
Proof.
  intros Ha El [Ha' Hq]. split; [ by eapply asked_more_trans | ]. intros x. rewrite Hq, El.
  destruct (decide (x ∈ qs)); [ by rewrite decide_True by by right | ].
  destruct (decide (x = q)) as [-> | Hne].
  - rewrite lookup_insert_eq, decide_True; [ done | by left ].
  - rewrite lookup_insert_ne by done. rewrite decide_False; [ done | ]. by intros [? | ?]%elem_of_cons.
Qed.

Lemma stall_nacks_spec n seq now maxGaps cooldown missing sr :
  let '(sr', out) := stall_nacks n seq now maxGaps cooldown missing sr in
  let qs := take (Z.to_nat maxGaps - length missing)
              (List.filter (due now cooldown sr) (seqZ seq (Z.of_nat n))) in
  asked_at now qs sr sr' ∧ out = missing ++ qs.
Proof.
  revert seq missing sr. induction n as [ | n IH ]; intros seq missing sr.
  - rewrite seqZ_nil by lia. cbn. rewrite take_nil, app_nil_r. split; [ apply asked_at_nil | done ].
  - rewrite seqZ_S. cbn [stall_nacks List.filter].
    destruct (Z.ltb_spec (Z.of_nat (length missing)) maxGaps).
    2: { replace (_ - _)%nat with 0%nat by lia. rewrite take_0, app_nil_r.
         split; [ apply asked_at_nil | done ]. }
    destruct (isReceived seq sr) eqn:Er; [ rewrite due_received by done; by apply IH | ].
    destruct (cooling now cooldown seq sr) eqn:Ec; [ rewrite due_cooling by done; by apply IH | ].
    rewrite due_missing by done.
    set (sr1 := sr <| sr_lastNACKTime ::= _ |>). assert (Ha : asked_more sr sr1) by done.
    specialize (IH (seq + 1) (missing ++ [seq]) sr1).
    destruct (stall_nacks _ _ _ _ _ _ sr1) as [sr' out].
    rewrite (filter_due_asked now cooldown sr sr1 seq n Ha eq_refl), length_app in IH. cbn [length] in IH.
    destruct IH as [Ha' ->].
    replace (Z.to_nat maxGaps - length missing)%nat
      with (S (Z.to_nat maxGaps - (length missing + 1)))%nat by lia.
    cbn [take]. split; [ by eapply asked_at_cons | by rewrite <- app_assoc ].
Qed.

Lemma timeout_nacks_spec n seq now maxPerTick sent sr :
  sent < maxPerTick →
  let '(sr', calls) := timeout_nacks n seq now maxPerTick sent sr in
  let qs := take (Z.to_nat (maxPerTick - sent))
              (List.filter (due now 4000 sr) (seqZ seq (Z.of_nat n))) in
  asked_at now qs sr sr' ∧ calls = map NACK_call qs.
Proof.
  revert seq sent sr. induction n as [ | n IH ]; intros seq sent sr Hs.
  - rewrite seqZ_nil by lia. cbn. rewrite take_nil. split; [ apply asked_at_nil | done ].
  - rewrite seqZ_S. cbn [timeout_nacks List.filter].
    destruct (isReceived seq sr) eqn:Er; [ rewrite due_received by done; by apply IH | ].
    destruct (cooling now 4000 seq sr) eqn:Ec; [ rewrite due_cooling by done; by apply IH | ].
    rewrite due_missing by done. set (sr1 := _ <| sr_NACKCount ::= _ |>). assert (Ha : asked_more sr sr1) by done.
    destruct (Z.geb_spec (sent + 1) maxPerTick).
    + replace (Z.to_nat (maxPerTick - sent)) with 1%nat by lia. cbn [take map].
      split; [ | done ]. eapply asked_at_cons; [ done | done | apply asked_at_nil ].
    + specialize (IH (seq + 1) (sent + 1) sr1 ltac:(lia)).
      destruct (timeout_nacks _ _ _ _ _ sr1) as [sr' calls].
      rewrite (filter_due_asked now 4000 sr sr1 seq n Ha eq_refl) in IH. destruct IH as [Ha' ->].
      replace (Z.to_nat (maxPerTick - sent)) with (S (Z.to_nat (maxPerTick - (sent + 1)))) by lia.
      cbn [take map]. split; [ by eapply asked_at_cons | done ].
Qed.

Lemma seqZ_to_nat m n : seqZ m (Z.of_nat (Z.to_nat n)) = seqZ m n.
Proof. unfold seqZ. by rewrite Nat2Z.id. Qed.

Lemma nacks_of_map qs : nacks_of (map NACK_call qs) = qs.
Proof. induction qs as [ | q qs IH ]; [ done | ]. unfold nacks_of in *. cbn. by rewrite IH. Qed.

Lemma filter_none {A} (p : A → bool) l : (∀ x, In x l → p x = false) → List.filter p l = [].
Proof.
  induction l as [ | x l IH ]; intros H; [ done | ]. cbn. rewrite (H x) by by left.
  apply IH. intros y Hy. apply H. by right.
Qed.

(** The first [n] due chunks of the [ahead] from the base on. *)
Definition first_due (now cooldown : Z) (n : nat) (ahead : Z) (sr : CloudSR) : list Z :=
  take n (List.filter (due now cooldown sr)
            (seqZ (sr_expectedBase sr)
               (Z.min ahead (sr_totalChunks sr - sr_expectedBase sr)))).

Lemma CheckTimeouts_spec now sr bm :
  sr_bitmap sr = Some bm →
  let '(sr', calls) := CheckTimeouts 6 now sr in
  let qs := first_due now 4000 6 (Z.min (sr_windowSize sr) 64) sr in
  asked_at now qs sr sr' ∧ calls = map NACK_call qs.
Proof.
  intros Hb. unfold CheckTimeouts. rewrite Hb. cbv zeta. change (6 <=? 0) with false. cbv iota.
  set (n := Z.min _ _ - _). pose proof (timeout_nacks_spec (Z.to_nat n) (sr_expectedBase sr) now 6 0 sr) as H.
  destruct (timeout_nacks _ _ _ _ _ _) as [sr' calls]. specialize (H eq_refl).
  rewrite seqZ_to_nat in H. unfold first_due.
  replace (Z.min (Z.min _ _) _) with n by (unfold n; lia). exact H.
Qed.

Lemma missing_chunks_grows n seq missing sr :
  missing ≠ [] → missing_chunks n seq missing sr ≠ [].
Proof.
  revert seq missing. induction n as [ | n IH ]; intros seq missing Hm; [ done | ]. cbn [missing_chunks].
  destruct (_ <? 32); [ | done ]. apply IH. destruct (isReceived seq sr); [ done | ].
  by destruct missing.
Qed.

Lemma missing_chunks_nil n seq sr q :
  missing_chunks n seq [] sr = [] → seq <= q < seq + Z.of_nat n → isReceived q sr = true.
Proof.
  revert seq. induction n as [ | n IH ]; intros seq Hm Hq; [ lia | ]. cbn [missing_chunks length] in Hm.
  replace (Z.of_nat 0 <? 32) with true in Hm by done.
  destruct (isReceived seq sr) eqn:E.
  - destruct (Z.eq_dec q seq) as [-> | ]; [ done | ]. apply (IH (seq + 1)); [ done | lia ].
  - by apply missing_chunks_grows in Hm.
Qed.

Lemma stall_request_spec last now (tail : bool) sr bm :
  sr_bitmap sr = Some bm → 0 <= sr_expectedBase sr →
  let cooldown := if tail then 4000 else 8000 in
  let '(sr', qs) := stall_request last now tail sr in
  asked_at now qs sr sr' ∧ qs = if now - last <? 5000 then [] else first_due now cooldown 8 64 sr.
Proof.
  intros Hb H0. cbv zeta. unfold stall_request, CheckStall. rewrite Hb.
  destruct (now - last <? 5000); [ split; [ apply asked_at_nil | done ] | ].
  destruct (missing_chunks _ _ _ _) eqn:Em.
  - split; [ apply asked_at_nil | ]. unfold first_due.
    rewrite filter_none; [ by rewrite take_nil | ]. intros q Hq.
    apply list_elem_of_In, elem_of_seqZ in Hq. apply due_received.
    eapply missing_chunks_nil; [ exact Em | lia ].
  - unfold BuildFilteredStallNACKs. rewrite Hb.
    destruct (Z.eqb_spec (sr_totalChunks sr) 0) as [E0 | _].
    { rewrite E0 in Em. by replace (Z.to_nat (0 - sr_expectedBase sr)) with 0%nat in Em by lia. }
    change (8 <=? 0) with false. change (64 <=? 0) with false. cbv iota.
    set (n := Z.min _ _ - _). replace ((if tail then 4000 else 8000) <=? 0) with false by by destruct tail.
    pose proof (stall_nacks_spec (Z.to_nat n) (sr_expectedBase sr) now 8 (if tail then 4000 else 8000) [] sr) as H.
    destruct (stall_nacks _ _ _ _ _ _ _) as [sr' out]. rewrite seqZ_to_nat in H. unfold first_due.
    replace (Z.min 64 (sr_totalChunks sr - sr_expectedBase sr)) with n by (unfold n; lia).
    by destruct H as [? ->].
Qed.

(** ** The session's invariant *)

Record sr_ok (sr : CloudSR) : Prop := {
  sk_bitmap : ∃ bm, sr_bitmap sr = Some bm ∧ Z.of_nat (length bm) = (sr_totalChunks sr + 7) / 8;
  sk_base : 0 <= sr_expectedBase sr <= Z.max 0 (sr_totalChunks sr);
  sk_below : ∀ q, 0 <= q < sr_expectedBase sr → isReceived q sr = true;
  sk_first : isReceived (sr_expectedBase sr) sr = false
}.

Lemma asked_more_ok sr sr' : asked_more sr sr' → sr_ok sr → sr_ok sr'.
Proof.
  intros Ha [Hb Hr Hl Hf]. pose proof (fun q => asked_more_received sr sr' q Ha) as Hrec.
  destruct Ha as (_ & Eb & Em & Et).
  split; rewrite ?Eb, ?Em, ?Et; [ done | done | | ]; intros; rewrite Hrec; auto.
Qed.

Lemma StartSession_ok count window sr :
  0 <= count → StartSession count (NewSelectiveRepeat window) = Some sr →
  sr_ok sr ∧ sr_totalChunks sr = count ∧ ∀ q, isReceived q sr = false.
Proof.
  intros Hc. unfold StartSession, make_bytes. rewrite Z.quot_div_nonneg by lia.
  replace ((count + 7) / 8 <? 0) with false by lia. cbn. intros [= <-].
  assert (Hn : ∀ q, isReceived q (mk_CloudSR window 0
    (Some (replicate (Z.to_nat ((count + 7) / 8)) 0)) count ∅ 0) = false).
  { intros q. unfold isReceived. cbn. destruct (_ || _) eqn:E; [ done | ]. apply got_fresh; lia. }
  split; [ split; cbn | done ]; [ | lia | intros; lia | by rewrite Hn ].
  eexists. split; [ done | ]. rewrite length_replicate. lia.
Qed.

Lemma isReceived_range q sr : isReceived q sr = true → 0 <= q < sr_totalChunks sr.
Proof. unfold isReceived. destruct (_ || _) eqn:E; [ done | lia ]. Qed.

Lemma cloud_base_spec fuel sr :
  sr_totalChunks sr - sr_expectedBase sr <= Z.of_nat fuel →
  let sr' := advance_base fuel sr in
  sr_windowSize sr' = sr_windowSize sr ∧ sr_bitmap sr' = sr_bitmap sr ∧
  sr_totalChunks sr' = sr_totalChunks sr ∧ sr_expectedBase sr <= sr_expectedBase sr' ∧
  (∀ q, sr_expectedBase sr <= q < sr_expectedBase sr' → isReceived q sr = true) ∧
  isReceived (sr_expectedBase sr') sr = false.
Proof.
  revert sr. induction fuel as [ | fuel IH ]; intros sr Hf; cbn [advance_base].
  - split_and!; try done; [ lia | ]. apply not_true_iff_false. intros H%isReceived_range. lia.
  - destruct (isReceived (sr_expectedBase sr) sr) eqn:E.
    + pose proof (isReceived_range _ _ E). replace (_ <? _) with true by lia. cbn [andb].
      set (sr1 := sr <| sr_expectedBase ::= _ |>).
      assert (E1 : sr_expectedBase sr1 = sr_expectedBase sr + 1) by done.
      destruct (IH sr1) as (Hw & Hb & Ht & Hle & Hall & Hn);
        [ change (sr_totalChunks sr1) with (sr_totalChunks sr); lia | ].
      rewrite E1 in *. split_and!; [ done | done | done | lia | | exact Hn ].
      intros q Hq. destruct (Z.eq_dec q (sr_expectedBase sr)) as [-> | ]; [ done | ].
      change (isReceived q sr) with (isReceived q sr1). apply Hall. lia.
    + rewrite andb_false_r. split_and!; try done; intros; lia.
Qed.

Lemma markReceived_spec q x sr bm :
  sr_bitmap sr = Some bm → Z.of_nat (length bm) = (sr_totalChunks sr + 7) / 8 →
  0 <= q < sr_totalChunks sr → isReceived x (markReceived q sr) = isReceived x sr || (x =? q).
Proof.
  intros Hb Hl Hq. unfold markReceived. replace (_ && _) with true by lia.
  unfold isReceived. cbn. rewrite Hb. cbn. destruct (_ || _) eqn:E.
  - symmetry. apply orb_false_iff. split; [ done | lia ].
  - rewrite got_set by lia. apply orb_comm.
Qed.

Lemma OnChunkReceived_ok q sr :
  sr_ok sr → 0 <= q < sr_totalChunks sr →
  let '(sr', calls) := OnChunkReceived q sr in
  sr_ok sr' ∧ sr_totalChunks sr' = sr_totalChunks sr ∧ sr_windowSize sr' = sr_windowSize sr ∧
  nacks_of calls = [] ∧ ∀ x, isReceived x sr' = isReceived x sr || (x =? q).
Proof.
  intros [(bm & Hb & Hl) Hr Hbelow _] Hq. unfold OnChunkReceived. replace (_ || _) with false by lia.
  set (sr1 := markReceived q sr).
  assert (Em : ∀ x, isReceived x sr1 = isReceived x sr || (x =? q))
    by (intros; by eapply markReceived_spec).
  assert (E1 : sr_totalChunks sr1 = sr_totalChunks sr ∧ sr_expectedBase sr1 = sr_expectedBase sr ∧
    sr_windowSize sr1 = sr_windowSize sr ∧ sr_bitmap sr1 = Some (bitmap_set bm (q / 8) (bit_mask q))).
  { unfold sr1, markReceived. replace (_ && _) with true by lia. unfold update_field. cbn. by rewrite Hb. }
  destruct E1 as (Et & Eb & Ew & Ebm).
  destruct (cloud_base_spec (Z.to_nat (sr_totalChunks sr1 - sr_expectedBase sr1)) sr1)
    as (Hw & Hb' & Ht' & Hle & Hall & Hn); [ lia | ].
  set (sr2 := advance_base _ _) in *.
  assert (E2 : ∀ x, isReceived x sr2 = isReceived x sr || (x =? q)).
  { intros x. rewrite <- Em. unfold isReceived. by rewrite Hb', Ht'. }
  split; [ | split_and!; [ congruence | congruence | done | exact E2 ] ]. split.
  - exists (bitmap_set bm (q / 8) (bit_mask q)). rewrite Hb', Ht', Et, length_bitmap_set. done.
  - split; [ lia | ]. destruct (Z.eq_dec (sr_expectedBase sr2) (sr_expectedBase sr1)); [ lia | ].
    specialize (Hall (sr_expectedBase sr2 - 1) ltac:(lia)). apply isReceived_range in Hall. lia.
  - intros x Hx. rewrite E2. destruct (Z.lt_ge_cases x (sr_expectedBase sr)).
    + by rewrite Hbelow by lia.
    + rewrite <- Em. apply Hall. lia.
  - rewrite E2, <- Em. exact Hn.
Qed.

(** *** The session as a whole *)

(** Both halves of the server's state: what the [SelectiveRepeat] has
    received, the reassembler has. *)
Record session_ok (r : FileReassembler) (sr : CloudSR) : Prop := {
  sn_sr : sr_ok sr;
  sn_total : sr_totalChunks sr = fr_ChunkCount r;
  sn_bitmap : Z.of_nat (length (fr_Bitmap r)) = (fr_ChunkCount r + 7) / 8;
  sn_held : ∀ q, isReceived q sr = true → held r q = true
}.

Lemma session_start count window sid name size crc fs r sr :
  0 <= count → NewFileReassembler sid name size count crc fs = Some r →
  StartSession count (NewSelectiveRepeat window) = Some sr →
  session_ok r sr ∧ sr_windowSize sr = window.
Proof.
  intros Hc Hr Hs. pose proof Hs as Hs'. destruct (StartSession_ok count window sr Hc Hs) as (Hok & Ht & Hn).
  unfold StartSession in Hs'. destruct (make_bytes _); [ | done ]. injection Hs' as <-.
  unfold NewFileReassembler in Hr. destruct (make_bytes size); [ | done ]. cbn in Hr.
  unfold make_bytes in Hr. rewrite Z.quot_div_nonneg in Hr by lia.
  replace ((count + 7) / 8 <? 0) with false in Hr by lia. injection Hr as <-.
  split; [ | done ]. split; [ done | done | | ].
  - cbn. rewrite length_replicate. lia.
  - intros q. by rewrite Hn.
Qed.

(** What one event does: nothing is forgotten, a chunk that was recovered and
    not received stays so, and what is asked for is missing and near the base. *)
Definition asks_near (sr : CloudSR) (asked : list Z) : Prop :=
  Forall (fun s => isReceived s sr = false ∧
            sr_expectedBase sr <= s < sr_expectedBase sr + 64 ∧ s < sr_totalChunks sr) asked.

Lemma first_due_near now cooldown n ahead sr :
  ahead <= 64 → asks_near sr (first_due now cooldown n ahead sr).
Proof.
  intros Ha. apply Forall_forall. intros s Hs. unfold first_due in Hs.
  apply list_elem_of_lookup in Hs as [i [Hi _]%lookup_take_Some].
  apply list_elem_of_lookup_2, list_elem_of_In, filter_In in Hi as [Hs Hd].
  apply list_elem_of_In, elem_of_seqZ in Hs.
  unfold due in Hd. apply andb_true_iff in Hd as [Hd%negb_true_iff _]. split; [ done | lia ].
Qed.

Record step_ok (r : FileReassembler) (sr : CloudSR) (r' : FileReassembler) (sr' : CloudSR)
    (asked : list Z) : Prop := {
  sp_session : session_ok r' sr';
  sp_same : same_session r r';
  sp_window : sr_windowSize sr' = sr_windowSize sr;
  sp_recovered : ∀ k, held r k = true → isReceived k sr = false → isReceived k sr' = false;
  sp_asked : asks_near sr asked
}.

Lemma asking_step r sr sr' now qs :
  session_ok r sr → asked_at now qs sr sr' → asks_near sr qs → step_ok r sr r sr' qs.
Proof.
  intros [Hs Ht Hb Hh] [Ha _] Hn. split; [ | done | apply Ha | | done ].
  - split; [ by eapply asked_more_ok | | done | ].
    + destruct Ha as (_ & _ & _ & ->). done.
    + intros q. rewrite (asked_more_received sr sr') by done. apply Hh.
  - intros k _. by rewrite (asked_more_received sr sr').
Qed.

Lemma cloud_step_ok ev r sr r' sr' asked :
  session_ok r sr → cloud_step ev r sr = Some (r', sr', asked) → step_ok r sr r' sr' asked.
Proof.
  intros Hok. pose proof Hok as [Hs Ht Hb Hh]. destruct (sk_bitmap sr Hs) as (bm & Hbm & _).
  destruct ev as [seq data | now | last now tail]; cbn [cloud_step].
  - unfold accept_chunk. destruct (WriteChunk seq data r) as [[[ ] r1] | ] eqn:Ew; cbn; [ | | done ].
    + destruct (WriteChunk_same _ _ _ _ _ Ew) as (Hsame & Hq & Hnew & Hnow).
      pose proof (OnChunkReceived_ok seq sr Hs ltac:(lia)) as H.
      destruct (OnChunkReceived seq sr) as [sr1 calls]. destruct H as (Hs1 & Ht1 & Hw1 & Hn1 & Hr1).
      cbn. intros [= <- <- <-]. pose proof Hsame as ((_ & _ & _ & Hcc & _) & Hlen & Hgrow).
      split; [ split; [ done | congruence | congruence | ] | done | done | | by rewrite Hn1; apply Forall_nil_2 ].
      * intros q. rewrite Hr1. intros [Hq' | ->%Z.eqb_eq]%orb_true_iff; [ by apply Hgrow, Hh | by apply Hnow ].
      * intros k Hk Hn. rewrite Hr1, Hn. cbn. apply Z.eqb_neq. intros ->. congruence.
    + intros [= <- <- <-]. destruct (WriteChunk_same _ _ _ _ _ Ew) as [_ ->].
      split; [ done | done | done | done | apply Forall_nil_2 ].
  - pose proof (CheckTimeouts_spec now sr bm Hbm) as H. destruct (CheckTimeouts 6 now sr) as [sr1 calls].
    destruct H as [Ha ->]. intros [= <- <- <-]. rewrite nacks_of_map.
    eapply asking_step; [ done | exact Ha | apply first_due_near; lia ].
  - pose proof (stall_request_spec last now tail sr bm Hbm ltac:(apply Hs)) as H.
    destruct (stall_request last now tail sr) as [sr1 qs]. destruct H as [Ha ->]. intros [= <- <- <-].
    eapply asking_step; [ done | exact Ha | ].
    destruct (_ <? _); [ apply Forall_nil_2 | by apply first_due_near ].
Qed.

Lemma cloud_run_ok evs r sr r' sr' asked :
  session_ok r sr → cloud_run evs r sr = Some (r', sr', asked) →
  session_ok r' sr' ∧ sr_windowSize sr' = sr_windowSize sr.
Proof.
  revert r sr asked. induction evs as [ | ev evs IH ]; intros r sr asked Hok; cbn [cloud_run].
  - by intros [= <- <- <-].
  - destruct (cloud_step ev r sr) as [[[r1 sr1] a1] | ] eqn:E; [ | done ]. cbn.
    destruct (cloud_run evs r1 sr1) as [[[r2 sr2] a2] | ] eqn:E2; [ | done ]. cbn. intros [= <- <- <-].
    destruct (cloud_step_ok _ _ _ _ _ _ Hok E) as [Hok1 _ Hw _ _].
    destruct (IH _ _ _ Hok1 E2) as [? Hw2]. split; [ done | congruence ].
Qed.

(** ** Properties *)

(** C20: what the server asks for. In every state a session reaches, whatever
    chunks and ticks came before: the base is the first chunk not received;
    [CheckTimeouts] sends a NACK for the first six chunks within the window
    (at most 64) that are missing and were not asked for in the last 4 s; the
    stall branch, after 5 s without data, lists the first eight of the next
    64, with 8 s (4 s in the tail phase); and exactly the chunks asked for
    start a new cooldown. *)
Theorem server_requests_exact window count sid name size crc fs r0 sr0 evs r sr asked now :
  0 <= count → NewFileReassembler sid name size count crc fs = Some r0 →
  StartSession count (NewSelectiveRepeat window) = Some sr0 →
  cloud_run evs r0 sr0 = Some (r, sr, asked) →
  (∀ q, 0 <= q < sr_expectedBase sr → isReceived q sr = true) ∧
  isReceived (sr_expectedBase sr) sr = false ∧
  (let '(sr', calls) := CheckTimeouts 6 now sr in
   let qs := first_due now 4000 6 (Z.min window 64) sr in
   asked_at now qs sr sr' ∧ calls = map NACK_call qs) ∧
  ∀ last (tail : bool),
    let '(sr', qs) := stall_request last now tail sr in
    asked_at now qs sr sr' ∧
    qs = if now - last <? 5000 then [] else first_due now (if tail then 4000 else 8000) 8 64 sr.
Proof.
  intros Hc Hr Hs Hrun. destruct (session_start _ _ _ _ _ _ _ _ _ Hc Hr Hs) as [H0 Hw].
  destruct (cloud_run_ok _ _ _ _ _ _ H0 Hrun) as [[Hok _ _ _] Hw'].
  destruct (sk_bitmap sr Hok) as (bm & Hbm & _).
  split; [ apply Hok | ]. split; [ apply Hok | ]. split.
  - rewrite <- Hw, <- Hw'. by eapply CheckTimeouts_spec.
  - intros last tail. eapply stall_request_spec; [ done | apply Hok ].
Qed.

(** C40: a chunk the server recovers hides later losses from it. The
    [SelectiveRepeat] is told only of chunks that arrive, and a recovered
    chunk that arrives later is a duplicate, which is not reported either: it
    stays missing for the requests for ever. The base never passes it, so no
    chunk 64 or more behind it is ever asked for, and it is asked for again
    and again itself, whatever arrives and however often the clock ticks. *)
Theorem recovered_chunk_hides_losses window count sid name size crc fs r0 sr0 evs r sr asked0 k
    later r' sr' asked :
  0 <= count → NewFileReassembler sid name size count crc fs = Some r0 →
  StartSession count (NewSelectiveRepeat window) = Some sr0 →
  cloud_run evs r0 sr0 = Some (r, sr, asked0) →
  held r k = true → isReceived k sr = false →
  cloud_run later r sr = Some (r', sr', asked) →
  isReceived k sr' = false ∧ sr_expectedBase sr' <= k ∧ sr_IsComplete sr' = false ∧
  Forall (fun s => s < k + 64) asked.
Proof.
  intros Hc Hr Hs Hrun Hk Hn Hlater. destruct (session_start _ _ _ _ _ _ _ _ _ Hc Hr Hs) as [H0 _].
  destruct (cloud_run_ok _ _ _ _ _ _ H0 Hrun) as [Hok _]. clear - Hok Hk Hn Hlater.
  revert r sr asked Hok Hk Hn Hlater. induction later as [ | ev later IH ];
    intros r sr asked Hok Hk Hn; cbn [cloud_run].
  - intros [= <- <- <-]. pose proof (sn_total r sr Hok) as Ht. destruct (sn_sr r sr Hok) as [_ Hb Hl _].
    assert (Hkr : 0 <= k < fr_ChunkCount r) by (unfold held in Hk; lia).
    assert (sr_expectedBase sr <= k).
    { destruct (Z.lt_ge_cases k (sr_expectedBase sr)); [ | done ]. rewrite Hl in Hn by lia. done. }
    split_and!; [ done | done | | apply Forall_nil_2 ]. unfold sr_IsComplete. lia.
  - destruct (cloud_step ev r sr) as [[[r1 sr1] a1] | ] eqn:E; [ | done ]. cbn.
    destruct (cloud_run later r1 sr1) as [[[r2 sr2] a2] | ] eqn:E2; [ | done ]. cbn. intros [= <- <- <-].
    destruct (cloud_step_ok _ _ _ _ _ _ Hok E) as [Hok1 (_ & _ & Hgrow) _ Hrec Hask].
    destruct (IH r1 sr1 a2 Hok1 (Hgrow k Hk) (Hrec k Hk Hn) E2) as (? & ? & ? & ?).
    split_and!; [ done | done | done | ]. apply Forall_app. split; [ | done ].
    destruct (sn_sr r sr Hok) as [_ _ Hl _].
    assert (sr_expectedBase sr <= k).
    { destruct (Z.lt_ge_cases k (sr_expectedBase sr)); [ | done ].
      assert (0 <= k) by (unfold held in Hk; lia). rewrite Hl in Hn by lia. done. }
    eapply Forall_impl; [ exact Hask | ]. cbn. lia.
Qed.

(** ** Witnesses

    A session of 240 chunks of one byte, all zero: chunks 1 to 7 arrive, chunk
    0 is recovered, chunks 8 to 20 arrive, and nothing else. *)

Definition zero_events : list SrEvent := (fun q => EvChunk q [0]) <$> (seqZ 1 20).
Definition zero_ticks : list SrEvent :=
  [EvTimeouts 5000; EvStall 0 6000 false; EvTimeouts 12000; EvChunk 0 [0]; EvStall 0 20000 true].
Definition zero_new : option FileReassembler := NewFileReassembler [] [] 210 240 0 1.
Definition zero_start : option CloudSR := StartSession 240 (NewSelectiveRepeat 128).

Lemma server_requests_exact_witness :
  ∃ r sr asked, (zero_new ≫= fun r => zero_start ≫= cloud_run zero_events r) = Some (r, sr, asked) ∧
    sr_expectedBase sr = 0 ∧
    (CheckTimeouts 6 9000 sr).2 = map NACK_call [0; 21; 22; 23; 24; 25].
Proof.
  destruct zero_new as [r0 | ] eqn:E0; [ | vm_compute in E0; discriminate ].
  destruct zero_start as [sr0 | ] eqn:E1; [ | vm_compute in E1; discriminate ]. cbn [mbind option_bind].
  assert ((fun x => (sr_expectedBase x.1.2, first_due 9000 4000 6 64 x.1.2)) <$>
    (zero_new ≫= fun r => zero_start ≫= cloud_run zero_events r) = Some (0, [0; 21; 22; 23; 24; 25])) as H.
  { vm_compute. reflexivity. }
  rewrite E0, E1 in H. cbn [mbind option_bind] in H.
  destruct (cloud_run zero_events r0 sr0) as [[[r sr] asked] | ] eqn:E2; [ | discriminate ].
  cbn in H. injection H as Hb Hq. exists r, sr, asked. split; [ reflexivity | ]. split; [ exact Hb | ].
  destruct (server_requests_exact 128 240 [] [] 210 0 1 r0 sr0 zero_events r sr asked 9000
              ltac:(lia) E0 E1 E2) as (_ & _ & Ht & _).
  destruct (CheckTimeouts 6 9000 sr) as [sr' calls]. destruct Ht as [_ ->]. cbn [snd].
  change (Z.min 128 64) with 64. by rewrite Hq.
Defined.

Lemma recovered_chunk_hides_losses_witness :
  ∃ r sr asked0 r' sr' asked,
    (zero_new ≫= fun r => zero_start ≫= cloud_run zero_events r) = Some (r, sr, asked0) ∧
    held r 0 = true ∧ cloud_run zero_ticks r sr = Some (r', sr', asked) ∧
    asked = [0; 21; 22; 23; 24; 25] ++ [26; 27; 28; 29; 30; 31; 32; 33] ++ [0; 21; 22; 23; 24; 25]
              ++ [0; 21; 22; 23; 24; 25; 26; 27] ∧
    isReceived 0 sr' = false ∧ Forall (fun s => s < 0 + 64) asked.
Proof.
  destruct zero_new as [r0 | ] eqn:E0; [ | vm_compute in E0; discriminate ].
  destruct zero_start as [sr0 | ] eqn:E1; [ | vm_compute in E1; discriminate ]. cbn [mbind option_bind].
  assert ((fun x => (held x.1.1 0, isReceived 0 x.1.2, snd <$> cloud_run zero_ticks x.1.1 x.1.2)) <$>
    (zero_new ≫= fun r => zero_start ≫= cloud_run zero_events r) =
    Some (true, false, Some ([0; 21; 22; 23; 24; 25] ++ [26; 27; 28; 29; 30; 31; 32; 33]
      ++ [0; 21; 22; 23; 24; 25] ++ [0; 21; 22; 23; 24; 25; 26; 27]))) as H.
  { vm_compute. reflexivity. }
  rewrite E0, E1 in H. cbn [mbind option_bind] in H.
  destruct (cloud_run zero_events r0 sr0) as [[[r sr] asked0] | ] eqn:E2; [ | discriminate ].
  match type of H with _ = ?v =>
    change (Some (held r 0, isReceived 0 sr, snd <$> cloud_run zero_ticks r sr) = v) in H
  end.
  destruct (cloud_run zero_ticks r sr) as [[[r' sr'] asked] | ] eqn:E3; [ | discriminate ].
  injection H as Hh Hn Ha. exists r, sr, asked0, r', sr', asked.
  split; [ reflexivity | ]. split; [ exact Hh | ]. split; [ exact E3 | ]. split; [ exact Ha | ].
  destruct (recovered_chunk_hides_losses 128 240 [] [] 210 0 1 r0 sr0 zero_events r sr asked0 0
              zero_ticks r' sr' asked ltac:(lia) E0 E1 E2 Hh Hn E3) as (? & _ & _ & ?).
  split; assumption.
Defined.
