(* ===== verification/CloudSave.v ===== *)
(** * Where the cloud server saves a file (cloud-admin/internal/transfer/reassembler.go, [Save])

    The name of the file in the output directory: [filepath.Base] of what the
    messages name, so that no name leaves the directory, and a number when the
    name is taken. [filepath.Join] of the directory and a name without
    a slash that is none of ["."], [".."] is the entry of that name, so a path
    is its last element here. What [os.Stat] answers is a parameter of the
    search, and [strings.TrimSpace] another, since the text it trims is
    Unicode. One call of [Save] is run against the answers of the file system
    to it ([Disk]); it ends with the name written, with an error, or not at
    all. *)

From Stdlib Require Import ZArith Lia String.
From stdpp Require Import base list numbers option sets gmap.
From S2P Require Import Prelude.
From S2P Require Import CString.
Open Scope Z_scope.
Open Scope flp_scope.

Notation GoString := (list Z).

(** [%d] of [fmt]. *)
Definition fmt_int (z : Z) : GoString :=
  let digits z := dec_digits (S (Z.to_nat (Z.log2 z))) z [] in
  if z <? 0 then str "-" ++ digits (- z) else digits z.

Definition slash : Z := 47.

(** ** path/filepath of the Go library, for Unix *)

(** [for len(path) > 0 && path[len(path)-1] == '/'] *)
Fixpoint strip_slashes (rev_path : GoString) : GoString :=
  match rev_path with
  | c :: r => if c =? slash then strip_slashes r else rev_path
  | [] => []
  end.

(** What stands behind the last slash. *)
Fixpoint last_element (rev_path : GoString) (acc : GoString) : GoString :=
  match rev_path with
  | c :: r => if c =? slash then acc else last_element r (c :: acc)
  | [] => acc
  end.

Definition Base (path : GoString) : GoString :=
  match path with
  | [] => str "."
  | _ =>
      match last_element (strip_slashes (reverse path)) [] with
      | [] => str "/"
      | e => e
      end
  end.

(** [Ext]: from the last dot of the last element, with the text before it. *)
Fixpoint split_ext (rev_path : GoString) (acc : GoString) : option (GoString * GoString) :=
  match rev_path with
  | c :: r =>
      if c =? slash then None
      else if c =? 46 then Some (reverse r, c :: acc)
      else split_ext r (c :: acc)
  | [] => None
  end.

(** [(stem, ext)]: [strings.TrimSuffix(name, Ext(name))] and [Ext(name)]. *)
Definition stem_ext (name : GoString) : GoString * GoString :=
  default (name, []) (split_ext (reverse name) []).

(** ** Save *)

Inductive StatResult := StatOk | StatNotExist | StatError.

Definition safe_filename (sessionID filename : GoString) : GoString :=
  let safe := Base filename in
  if bool_decide (safe = str ".") || bool_decide (safe = str "/")
  then str "session_" ++ sessionID ++ str ".bin" else safe.

Section save.
Context (TrimSpace : GoString → GoString) (stat : GoString → StatResult).

Definition safe_sender (senderID : GoString) : GoString :=
  let safeSender := Base (TrimSpace senderID) in
  if bool_decide (safeSender = []) || bool_decide (safeSender = str ".") || bool_decide (safeSender = str "/")
  then str "unknown" else safeSender.

Definition baseName (sessionID filename senderID : GoString) : GoString :=
  safe_sender senderID ++ str "_" ++ safe_filename sessionID filename.

Definition candidate (stem ext : GoString) (i : Z) : GoString := stem ++ str "_" ++ fmt_int i ++ ext.

(** [for i := 1; ; i++]: the loop has no bound of its own. *)
Fixpoint find_free (fuel : nat) (stem ext : GoString) (i : Z) : option GoString :=
  match fuel with
  | O => None
  | S fuel' =>
      match stat (candidate stem ext i) with
      | StatNotExist => Some (candidate stem ext i)
      | _ => find_free fuel' stem ext (i + 1)
      end
  end.

(** The name [WriteFile] is given; [None] when the loop has not ended. *)
Definition save_name (fuel : nat) (sessionID filename senderID : GoString) : option GoString :=
  let base := baseName sessionID filename senderID in
  match stat base with
  | StatOk => let '(stem, ext) := stem_ext base in find_free fuel stem ext 1
  | _ => Some base
  end.
End save.

Definition NAME_MAX : nat := 255.

(** A directory that holds the names [fs]: a name too long for it is an error
    that is not [ErrNotExist]. *)
Definition dir_stat (fs : gset GoString) (name : GoString) : StatResult :=
  if bool_decide (name ∈ fs) then StatOk
  else if (NAME_MAX <? length name)%nat then StatError else StatNotExist.

(** What the file system answers to one call of [Save]: whether [MkdirAll]
    succeeds, the names in the directory, whether [WriteFile] succeeds. *)
Record Disk := mk_Disk { dk_mkdir : bool; dk_names : gset GoString; dk_write : bool }.

Inductive SaveResult := Saved (name : GoString) | SaveFailed.

(** [None]: the search for a free name never ends ([Save_diverges]). *)
Definition Save (TrimSpace : GoString → GoString) (d : Disk) (sessionID filename senderID : GoString)
    : option SaveResult :=
  if dk_mkdir d then
    name ← save_name TrimSpace (dir_stat (dk_names d)) (S (size (dk_names d))) sessionID filename senderID;
    Some (if dk_write d then Saved name else SaveFailed)
  else Some SaveFailed.

(** ** No file is overwritten and the search ends *)

Lemma fmt_int_value i : 0 <= i → (span_digits (fmt_int i) 0).1 = i.
Proof.
  intros Hi. unfold fmt_int. replace (i <? 0) with false by lia.
  pose proof (Z.log2_nonneg i). rewrite <- (app_nil_r (dec_digits _ _ _)), span_digits_dec; [ cbn; lia | | lia | done ].
  split; [ done | ]. rewrite Nat2Z.inj_succ, Z2Nat.id by done.
  destruct (decide (i = 0)) as [-> | Hne]; [ done | ].
  apply Z.lt_le_trans with (2 ^ Z.succ (Z.log2 i)); [ apply Z.log2_spec; lia | ].
  apply Z.pow_le_mono_l. lia.
Qed.

Lemma candidate_inj stem ext i j : 0 <= i → 0 <= j → candidate stem ext i = candidate stem ext j → i = j.
Proof.
  intros Hi Hj E. unfold candidate in E. apply app_inv_head, app_inv_head, app_inv_tail in E.
  by rewrite <- (fmt_int_value i), <- (fmt_int_value j), E.
Qed.

Lemma fmt_int_digits i : 0 <= i → Forall (fun c => 48 <= c <= 57) (fmt_int i).
Proof.
  intros Hi. unfold fmt_int. replace (i <? 0) with false by lia.
  generalize (S (Z.to_nat (Z.log2 i))) as fuel. revert i Hi.
  intros i Hi fuel. revert i Hi. induction fuel as [ | fuel IH ]; intros i Hi; cbn [dec_digits]; [ constructor | ].
  destruct (i / 10 =? 0); [ by repeat constructor; lia | ].
  rewrite dec_digits_app. apply Forall_app. split; [ apply IH; lia | repeat constructor; lia ].
Qed.

(** [Base] gives a name without a slash, or the slash alone. *)
Lemma last_element_plain r acc : slash ∉ acc → slash ∉ last_element r acc.
Proof.
  revert acc. induction r as [ | c r IH ]; intros acc Ha; cbn [last_element]; [ done | ].
  destruct (c =? slash) eqn:E; [ done | ]. apply IH. rewrite elem_of_cons. apply Z.eqb_neq in E. naive_solver.
Qed.

Lemma Base_plain path : Base path = str "/" ∨ slash ∉ Base path.
Proof.
  unfold Base. destruct path as [ | c path ]; [ right | ].
  - change (str ".") with [46]. rewrite list_elem_of_singleton. done.
  - pose proof (last_element_plain (strip_slashes (reverse (c :: path))) [] (not_elem_of_nil _)) as H.
    destruct (last_element _ _); [ by left | by right ].
Qed.

Lemma no_slash l : forallb (fun c => negb (c =? slash)) l = true → slash ∉ l.
Proof.
  intros H Hin. rewrite forallb_forall in H. specialize (H slash ltac:(by apply list_elem_of_In)). done.
Qed.

Lemma baseName_plain trim sid filename sender :
  slash ∉ sid → slash ∉ baseName trim sid filename sender ∧ 95 ∈ baseName trim sid filename sender.
Proof.
  intros Hs. unfold baseName. split.
  - rewrite !elem_of_app. intros [H | [H | H]]; [ revert H | revert H; by apply no_slash | revert H ].
    + unfold safe_sender. destruct (Base_plain (trim sender)) as [-> | Hp]; [ by apply no_slash | ].
      case_match; [ by apply no_slash | done ].
    + unfold safe_filename. destruct (Base_plain filename) as [-> | Hp].
      * rewrite (bool_decide_true (str "/" = str "/")) by done. rewrite orb_true_r, !elem_of_app.
        intros [H | [H | H]]; [ | done | ]; revert H; by apply no_slash.
      * case_match; [ | done ]. rewrite !elem_of_app.
        intros [H' | [H' | H']]; [ | done | ]; revert H'; by apply no_slash.
  - rewrite !elem_of_app. right. left. change (str "_") with [95]. by apply list_elem_of_singleton.
Qed.

Lemma split_ext_app r acc stem ext :
  split_ext r acc = Some (stem, ext) → reverse r ++ acc = stem ++ ext.
Proof.
  revert acc. induction r as [ | c r IH ]; intros acc; cbn [split_ext]; [ done | ].
  destruct (c =? slash); [ done | ]. rewrite reverse_cons, <- app_assoc. destruct (c =? 46).
  - intros [= <- <-]. done.
  - apply IH.
Qed.

Lemma stem_ext_app name : (stem_ext name).1 ++ (stem_ext name).2 = name.
Proof.
  unfold stem_ext. destruct (split_ext (reverse name) []) as [[stem ext] | ] eqn:E; cbn.
  - apply split_ext_app in E. by rewrite reverse_involutive, app_nil_r in E.
  - by rewrite app_nil_r.
Qed.

(** The search ends on a free name, or every candidate tried is taken or too
    long. *)
Lemma find_free_cases fs stem ext fuel i :
  match find_free (dir_stat fs) fuel stem ext i with
  | Some name => name ∉ fs ∧ ∃ j, i <= j ∧ name = candidate stem ext j
  | None => ∀ j, i <= j < i + Z.of_nat fuel → dir_stat fs (candidate stem ext j) ≠ StatNotExist
  end.
Proof.
  revert i. induction fuel as [ | fuel IH ]; intros i; cbn [find_free]; [ intros; lia | ].
  destruct (dir_stat fs (candidate stem ext i)) eqn:E.
  2: { split; [ | by exists i ]. unfold dir_stat in E. by case_bool_decide. }
  all: specialize (IH (i + 1)); destruct (find_free _ _ _ _ _) as [name | ];
    [ destruct IH as (Hn & j & Hj & ->); split; [ done | exists j; split; [ lia | done ] ]
    | intros j Hj; destruct (decide (j = i)) as [-> | Hne]; [ congruence | apply IH; lia ] ].
Qed.

(** Taken candidates are distinct, so there are no more of them than names. *)
Lemma candidates_bound fs stem ext n :
  (∀ j, 1 <= j < 1 + Z.of_nat n → candidate stem ext j ∈ (fs : gset GoString)) → (n <= size fs)%nat.
Proof.
  intros Hall. set (l := candidate stem ext <$> seqZ 1 (Z.of_nat n)).
  assert (Hnd : NoDup l).
  { apply NoDup_fmap_2_strong; [ | apply NoDup_seqZ ].
    intros i j Hi%elem_of_seqZ Hj%elem_of_seqZ. apply candidate_inj; lia. }
  assert (Hsub : (list_to_set l : gset GoString) ⊆ fs).
  { intros x Hx. apply elem_of_list_to_set, list_elem_of_fmap in Hx as (j & -> & Hj%elem_of_seqZ).
    apply Hall. lia. }
  apply subseteq_size in Hsub. rewrite size_list_to_set in Hsub by done.
  unfold l in Hsub. rewrite length_fmap, length_seqZ, Nat2Z.id in Hsub. done.
Qed.

Lemma candidate_length stem ext j :
  0 <= j < 10 ^ 20 → (length (candidate stem ext j) <= length stem + length ext + 21)%nat.
Proof.
  intros Hj. unfold candidate, fmt_int. rewrite !length_app. replace (j <? 0) with false by lia.
  pose proof (length_dec_digits_bound (S (Z.to_nat (Z.log2 j))) 20 j ltac:(lia) ltac:(lia)).
  change (length (str "_")) with 1%nat. lia.
Qed.

Lemma candidate_plain base j :
  0 <= j → slash ∉ base → let '(stem, ext) := stem_ext base in
  slash ∉ candidate stem ext j ∧ 95 ∈ candidate stem ext j.
Proof.
  intros Hj Hb. pose proof (stem_ext_app base) as E. destruct (stem_ext base) as [stem ext]. cbn in E.
  subst base. rewrite elem_of_app in Hb. unfold candidate. split.
  - rewrite !elem_of_app. intros [H | [H | [H | H]]]; [ tauto | revert H; by apply no_slash | | tauto ].
    pose proof (fmt_int_digits j Hj) as Hd. rewrite Forall_forall in Hd. specialize (Hd _ H). unfold slash in Hd. lia.
  - rewrite !elem_of_app. right. left. change (str "_") with [95]. by apply list_elem_of_singleton.
Qed.

(** The name a call is given, for any fuel above the names in the directory. *)
Lemma save_name_ok (TrimSpace : GoString → GoString) (fs : gset GoString) sessionID filename senderID fuel :
  slash ∉ sessionID →
  let base := baseName TrimSpace sessionID filename senderID in
  (length base <= 234)%nat → Z.of_nat (size fs) + 1 < 10 ^ 20 → (size fs < fuel)%nat →
  ∃ name, save_name TrimSpace (dir_stat fs) fuel sessionID filename senderID = Some name ∧
    name ∉ fs ∧ slash ∉ name ∧ name ≠ str "." ∧ name ≠ str ".." ∧ (base ∉ fs → name = base).
Proof.
  intros Hs base Hlen Hsize Hfuel.
  destruct (baseName_plain TrimSpace sessionID filename senderID Hs) as [Hb Hu]. fold base in Hb, Hu.
  assert (Hdots : ∀ name : GoString, 95 ∈ name → name ≠ str "." ∧ name ≠ str "..").
  { intros name Hn. split; intros ->; revert Hn; change (str ".") with [46]; change (str "..") with [46; 46];
      rewrite !elem_of_cons, elem_of_nil; lia. }
  unfold save_name. fold base. unfold dir_stat at 1. case_bool_decide as Hin.
  - destruct (stem_ext base) as [stem ext] eqn:Es.
    pose proof (stem_ext_app base) as Ea. rewrite Es in Ea. cbn in Ea.
    assert (Hl : (length stem + length ext <= 234)%nat) by (rewrite <- length_app, Ea; done).
    pose proof (find_free_cases fs stem ext fuel 1) as H. destruct (find_free _ _ _ _ _) as [name | ].
    + destruct H as (Hfree & j & Hj & ->). exists (candidate stem ext j).
      pose proof (candidate_plain base j ltac:(lia) Hb) as Hp. rewrite Es in Hp. destruct Hp as [Hp Hp'].
      destruct (Hdots _ Hp'). split_and!; done.
    + exfalso. enough (S (size fs) <= size fs)%nat by lia. apply (candidates_bound fs stem ext).
      intros j Hj. specialize (H j ltac:(lia)).
      pose proof (candidate_length stem ext j ltac:(lia)) as Hc. unfold dir_stat, NAME_MAX in H.
      case_bool_decide; [ done | ]. destruct (_ <? _)%nat eqn:E; [ apply Nat.ltb_lt in E; lia | done ].
  - destruct (Hdots _ Hu). exists base. destruct (_ <? _)%nat; by split_and!.
Qed.

(** C39: Saving ends, overwrites nothing and stays in the directory. For
    every name a message gives the file and its sender: if the name built
    from them leaves room for a number (234 of 255 bytes) and the directory
    holds fewer than 10^20 - 1 names, the search, which has no bound of its
    own, ends after at most one try per name in the directory, on a
    name that is not taken, has no slash and is not ["."] or [".."]; when the
    name built was free it is that name. *)
Theorem save_ends_without_overwriting (TrimSpace : GoString → GoString) (fs : gset GoString) sessionID filename senderID fuel :
  slash ∉ sessionID →
  let base := baseName TrimSpace sessionID filename senderID in
  (length base <= 234)%nat → Z.of_nat (size fs) + 1 < 10 ^ 20 → (size fs < fuel)%nat →
  ∃ name, save_name TrimSpace (dir_stat fs) fuel sessionID filename senderID = Some name ∧
    name ∉ fs ∧ slash ∉ name ∧ name ≠ str "." ∧ name ≠ str ".." ∧ (base ∉ fs → name = base).
Proof. apply save_name_ok. Qed.

Lemma save_ends_without_overwriting_witness :
  let fs : gset GoString := {[str "00ff_etc.tar.gz"; str "00ff_etc.tar_1.gz"]} in
  let base := baseName id (str "7") (str "../a/etc.tar.gz/") (str "00ff") in
  slash ∉ str "7" ∧ (length base <= 234)%nat ∧ Z.of_nat (size fs) + 1 < 10 ^ 20 ∧ (size fs < 3)%nat ∧
  ∃ name, save_name id (dir_stat fs) 3 (str "7") (str "../a/etc.tar.gz/") (str "00ff") = Some name ∧
    name ∉ fs ∧ name = str "00ff_etc.tar_2.gz".
Proof.
  intros fs base.
  assert (H1 : slash ∉ str "7") by by apply no_slash.
  assert (H2 : (length base <= 234)%nat) by (vm_compute; lia).
  assert (H3 : Z.of_nat (size fs) + 1 < 10 ^ 20) by (vm_compute; reflexivity).
  assert (H4 : (size fs < 3)%nat) by (vm_compute; lia).
  refine (conj H1 (conj H2 (conj H3 (conj H4 _)))).
  destruct (save_ends_without_overwriting id fs (str "7") (str "../a/etc.tar.gz/") (str "00ff") 3
    H1 H2 H3 H4) as (name & E & Hn & _).
  exists name. refine (conj E (conj Hn _)).
  assert (E' : save_name id (dir_stat fs) 3 (str "7") (str "../a/etc.tar.gz/") (str "00ff")
    = Some (str "00ff_etc.tar_2.gz")) by (vm_compute; reflexivity).
  rewrite E' in E. symmetry. exact (f_equal (default []) E).
Defined.

(** Whatever the file system answers, a call whose name leaves room for a
    number returns: it fails if the directory or the file is refused, and
    writes a new name otherwise. *)
Lemma Save_ok (TrimSpace : GoString → GoString) (d : Disk) sessionID filename senderID :
  slash ∉ sessionID →
  let base := baseName TrimSpace sessionID filename senderID in
  (length base <= 234)%nat → Z.of_nat (size (dk_names d)) + 1 < 10 ^ 20 →
  ∃ name, name ∉ dk_names d ∧ slash ∉ name ∧ (base ∉ dk_names d → name = base) ∧
    Save TrimSpace d sessionID filename senderID =
    Some (if dk_mkdir d && dk_write d then Saved name else SaveFailed).
Proof.
  intros Hs base Hl Hn.
  destruct (save_name_ok TrimSpace (dk_names d) sessionID filename senderID (S (size (dk_names d))))
    as (name & E & Hfree & Hsl & _ & _ & Hbase); [ done | done | done | lia | ].
  exists name. split_and!; [ done | done | exact Hbase | ]. unfold Save. rewrite E.
  by destruct (dk_mkdir d), (dk_write d).
Qed.

Lemma length_dec_digits_mono n m i j :
  (n <= m)%nat → 0 <= i <= j → (length (dec_digits n i []) <= length (dec_digits m j []))%nat.
Proof.
  revert m i j. induction n as [ | n IH ]; intros m i j Hnm Hij; cbn [dec_digits]; [ cbn; lia | ].
  destruct m as [ | m ]; [ lia | ]. cbn [dec_digits].
  pose proof (Z.div_le_mono i j 10 ltac:(lia) ltac:(lia)). pose proof (Z.div_pos i 10 ltac:(lia) ltac:(lia)).
  destruct (Z.eqb_spec (i / 10) 0) as [E | E], (Z.eqb_spec (j / 10) 0) as [E' | E']; try (cbn; lia);
    rewrite ?(dec_digits_app _ (i / 10) [_]), ?(dec_digits_app _ (j / 10) [_]), ?length_app; [ cbn; lia | ].
  specialize (IH m (i / 10) (j / 10) ltac:(lia) ltac:(lia)). cbn [length]. lia.
Qed.

Lemma candidate_length_mono stem ext i j :
  0 <= i <= j → (length (candidate stem ext i) <= length (candidate stem ext j))%nat.
Proof.
  intros Hij. unfold candidate, fmt_int. rewrite !length_app. replace (i <? 0) with false by lia.
  replace (j <? 0) with false by lia.
  pose proof (Z.log2_le_mono i j ltac:(lia)).
  pose proof (length_dec_digits_mono (S (Z.to_nat (Z.log2 i))) (S (Z.to_nat (Z.log2 j))) i j ltac:(lia) Hij). lia.
Qed.

Lemma find_free_none stat stem ext fuel i :
  (∀ j, i <= j → stat (candidate stem ext j) ≠ StatNotExist) → find_free stat fuel stem ext i = None.
Proof.
  revert i. induction fuel as [ | fuel IH ]; intros i H; cbn [find_free]; [ done | ].
  pose proof (H i ltac:(lia)) as Hi. destruct (stat (candidate stem ext i)); [ | done | ];
    (apply IH; intros j Hj; apply H; lia).
Qed.

(** The fuel of [Save] is exact: a search that has not ended after one try more
    than there are names in the directory has met a candidate that is too
    long, and never ends. *)
Lemma search_diverges (fs : gset GoString) stem ext fuel :
  find_free (dir_stat fs) (S (size fs)) stem ext 1 = None → find_free (dir_stat fs) fuel stem ext 1 = None.
Proof.
  intros E. pose proof (find_free_cases fs stem ext (S (size fs)) 1) as H. rewrite E in H.
  set (n := Z.of_nat (S (size fs))) in *.
  assert (∃ i, 1 <= i < 1 + n ∧ (NAME_MAX < length (candidate stem ext i))%nat) as (i & Hi & Hlong).
  { destruct (decide (Forall (fun j => candidate stem ext j ∈ fs) (seqZ 1 n))) as [Hall | Hno].
    - exfalso. enough (S (size fs) <= size fs)%nat by lia. apply (candidates_bound fs stem ext).
      intros j Hj. rewrite Forall_forall in Hall. by apply Hall, elem_of_seqZ.
    - apply not_Forall_Exists in Hno; [ | apply _ ].
      apply Exists_exists in Hno as (j & Hj%elem_of_seqZ & Hno). exists j. split; [ lia | ].
      specialize (H j ltac:(lia)). unfold dir_stat in H. rewrite bool_decide_false in H by done.
      destruct (_ <? _)%nat eqn:El; [ by apply Nat.ltb_lt in El | done ]. }
  apply find_free_none. intros j Hj. destruct (decide (j < 1 + n)) as [Hlt | Hge]; [ by apply H | ].
  pose proof (candidate_length_mono stem ext i j ltac:(lia)). unfold dir_stat.
  case_bool_decide; [ done | ]. by rewrite (proj2 (Nat.ltb_lt _ _)) by lia.
Qed.

Lemma Save_diverges (TrimSpace : GoString → GoString) (d : Disk) sessionID filename senderID fuel :
  Save TrimSpace d sessionID filename senderID = None →
  dk_mkdir d = true ∧
  save_name TrimSpace (dir_stat (dk_names d)) fuel sessionID filename senderID = None.
Proof.
  unfold Save. destruct (dk_mkdir d); [ | done ]. split; [ done | ]. unfold save_name in *.
  destruct (dir_stat _ (baseName _ _ _ _)); [ | done | done ].
  destruct (stem_ext _) as [stem ext]. apply search_diverges.
  by destruct (find_free _ (S _) stem ext 1).
Qed.

(** A name too long for a number and taken: every candidate is an error that
    is not [ErrNotExist], and the search goes on for ever. *)
Lemma long_name_search_never_ends (TrimSpace : GoString → GoString) (fs : gset GoString)
    sessionID filename senderID fuel :
  (∀ name, name ∈ fs → length name <= NAME_MAX)%nat →
  let base := baseName TrimSpace sessionID filename senderID in
  base ∈ fs → (254 <= length base)%nat →
  save_name TrimSpace (dir_stat fs) fuel sessionID filename senderID = None.
Proof.
  intros Hfs base Hin Hlen. unfold save_name. fold base. unfold dir_stat at 1. rewrite bool_decide_true by done.
  destruct (stem_ext base) as [stem ext] eqn:Es. pose proof (stem_ext_app base) as Ea. rewrite Es in Ea.
  cbn in Ea. pose proof (f_equal length Ea) as El. rewrite length_app in El.
  assert (Hall : ∀ i, dir_stat fs (candidate stem ext i) = StatError).
  { intros i. assert (Hc : (NAME_MAX < length (candidate stem ext i))%nat).
    { unfold candidate. rewrite !length_app. change (length (str "_")) with 1%nat.
      assert (0 < length (fmt_int i))%nat; [ | unfold NAME_MAX; lia ]. unfold fmt_int.
      destruct (i <? 0); [ rewrite length_app; cbn; lia | ].
      cbn [dec_digits]. destruct (i / 10 =? 0); [ cbn; lia | ]. rewrite dec_digits_app, length_app. cbn. lia. }
    unfold dir_stat. rewrite bool_decide_false by (intros C%Hfs; lia).
    by rewrite (proj2 (Nat.ltb_lt _ _) Hc). }
  apply find_free_none. intros j _. by rewrite Hall.
Qed.
