(* ===== verification/CloudEngine.v ===== *)
(** * The cloud server's transfer engine (cloud-admin/internal/transfer/engine.go, mqtt/client.go)

    [Queue], [RunEngine] as a machine of events (a meta, a chunk, a tick of
    the one-second ticker), and the data branch of the MQTT client's
    [onMessage]. Each event reads the clock once, in milliseconds (see
    CloudReassembly.v). What is published, saved and recorded is returned in
    order; log lines, their counters and the progress display are left out.
    [None] is a panic, or a [Save] that never ends. [Save] is that of
    CloudSave.v, run inside the engine's goroutine as the code does: [disk] is
    what the file system answers to each call of it. The staged chunks are a Go slice whose in-place
    filters share one backing array: [en_backing] with its length. *)

From Stdlib Require Import ZArith Lia String.
From stdpp Require Import base list numbers option sets gmap.
From S2P Require Import Prelude.
From S2P Require Import CString.
From S2P Require Import Packet.
From S2P Require Import Fec.
From S2P Require Import SelectiveRepeat.
From S2P Require Import Receiver.
From S2P Require Import MqttClient.
From S2P Require Import CloudReassembly.
From S2P Require Import CloudArq.
From S2P Require Import CloudSave.
Open Scope Z_scope.
Open Scope flp_scope.

Notation GoString := (list Z).

(** ** Messages *)

Record FileMeta := mk_FileMeta {
  me_NodeID : GoString;
  me_SessionID : GoString;      (* json.Number *)
  me_Filename : GoString;
  me_TotalSize : Z;
  me_ChunkCount : Z;
  me_CRC32 : Z;
  me_FragmentSize : Z
}.

Record FileChunk := mk_FileChunk {
  ch_NodeID : GoString;
  ch_SessionID : Z;
  ch_SeqNum : Z;
  ch_Data : list Z
}.
Definition zero_chunk : FileChunk := mk_FileChunk [] 0 0 [].
#[export] Instance FileChunk_inhabited : Inhabited FileChunk := populate zero_chunk.

Definition makeExitSessionKey (exitNode : GoString) (sessionID : Z) : GoString :=
  exitNode ++ str "|" ++ fmt_int sessionID.

(** The data branch of [onMessage] for a message of node [nodeID]:
    [sessionID] and [seq] little-endian, then the bytes. *)
Definition onMessage_data (nodeID : GoString) (payload : list Z)
    (sessionSourceByExit : gmap GoString GoString) : option FileChunk :=
  if Z.of_nat (length payload) <? 4 then None
  else
    let sessionID := le_value (take 2 payload) in
    let seq := le_value (take 2 (drop 2 payload)) in
    let canonicalNode :=
      match sessionSourceByExit !! makeExitSessionKey nodeID sessionID with
      | Some src => if bool_decide (src = []) then nodeID else src
      | None => nodeID
      end in
    Some (mk_FileChunk canonicalNode sessionID seq (drop 4 payload)).

(** ** Sessions and their queue *)

Definition completedMetaKey (sessionID nodeID filename : GoString)
    (totalSize chunkCount crc32Val fragmentSize : Z) : GoString :=
  nodeID ++ str "|" ++ sessionID ++ str "|" ++ filename ++ str "|" ++ fmt_int totalSize ++ str "|" ++
  fmt_int chunkCount ++ str "|" ++ fmt_int crc32Val ++ str "|" ++ fmt_int fragmentSize.

Definition completedSessionKey (sessionID nodeID : GoString) : GoString :=
  nodeID ++ str "|" ++ sessionID.
Definition transferKey (sessionID nodeID : GoString) : GoString :=
  completedSessionKey sessionID nodeID.

Record Session := mk_Session {
  ss_SessionID : GoString;
  ss_NodeID : GoString;
  ss_Filename : GoString;
  ss_TotalSize : Z;
  ss_ChunkCount : Z;
  ss_CRC32 : Z;
  ss_FragmentSize : Z;
  ss_StartedAt : Z;
  ss_CompletedAt : Z;
  ss_ExitNodes : list GoString
}.
#[export] Instance eta_Session : Eta Session := fun s =>
  mk_Session (ss_SessionID s) (ss_NodeID s) (ss_Filename s) (ss_TotalSize s) (ss_ChunkCount s)
    (ss_CRC32 s) (ss_FragmentSize s) (ss_StartedAt s) (ss_CompletedAt s) (ss_ExitNodes s).

(** [ExitNodes[nodeID] = true] *)
Definition add_exit (nodeID : GoString) (s : Session) : Session :=
  s <| ss_ExitNodes ::= fun l => if bool_decide (nodeID ∈ l) then l else l ++ [nodeID] |>.

(** What the engine does to the world. *)
Inductive CloudOut :=
  | OutCmd (nodeID sessionID : GoString)                 (* PublishTransferCmd "START" *)
  | OutAck (sessionID : GoString) (call : AckCall)       (* PublishACK *)
  | OutNack (sessionID : GoString) (seqs : list Z)       (* PublishTransferNACK *)
  | OutComplete (sessionID : GoString)                   (* PublishTransferComplete *)
  | OutSave (sessionID nodeID name : GoString) (bytes : list Z)      (* Save: the name written *)
  | OutSaveFailed (sessionID nodeID : GoString) (bytes : list Z)     (* Save: an error *)
  | OutRecord (s : Session) (nacks : Z).                 (* RecordTransfer, RecordBenchmark *)

Record Queue := mk_Queue {
  qu_queue : list Session;
  qu_Active : option Session;
  qu_Completed : list Session
}.
#[export] Instance eta_Queue : Eta Queue := fun q =>
  mk_Queue (qu_queue q) (qu_Active q) (qu_Completed q).

Definition StartNext (now : Z) (q : Queue) : Queue * list CloudOut :=
  match qu_Active q, qu_queue q with
  | None, s :: rest =>
      let s := s <| ss_StartedAt := now |> in
      (q <| qu_Active := Some s |> <| qu_queue := rest |>, [OutCmd (ss_NodeID s) (ss_SessionID s)])
  | _, _ => (q, [])
  end.

Definition is_session (sessionID nodeID : GoString) (s : Session) : bool :=
  bool_decide (ss_SessionID s = sessionID) && bool_decide (ss_NodeID s = nodeID).

Definition new_session (m : FileMeta) : Session :=
  mk_Session (me_SessionID m) (me_NodeID m) (me_Filename m) (me_TotalSize m) (me_ChunkCount m)
    (me_CRC32 m) (me_FragmentSize m) 0 0 [me_NodeID m].

Definition Enqueue (now : Z) (m : FileMeta) (q : Queue) : Queue * list CloudOut :=
  let same := is_session (me_SessionID m) (me_NodeID m) in
  match qu_Active q with
  | Some s =>
      if same s then (q <| qu_Active := Some (add_exit (me_NodeID m) s) |>, [])
      else if existsb same (qu_queue q)
      then (q <| qu_queue ::= update_first same (add_exit (me_NodeID m)) |>, [])
      else (q <| qu_queue ::= fun l => l ++ [new_session m] |>, [])
  | None =>
      if existsb same (qu_queue q)
      then (q <| qu_queue ::= update_first same (add_exit (me_NodeID m)) |>, [])
      else StartNext now (q <| qu_queue ::= fun l => l ++ [new_session m] |>)
  end.

Definition maxCompletedSlice : nat := 1000.

Definition CompleteActive (now : Z) (q : Queue) : Queue * list CloudOut :=
  match qu_Active q with
  | None => (q, [])
  | Some s =>
      let completed := qu_Completed q ++ [s <| ss_CompletedAt := now |>] in
      let completed := if (maxCompletedSlice <? length completed)%nat
                       then drop (length completed - maxCompletedSlice) completed else completed in
      StartNext now (q <| qu_Completed := completed |> <| qu_Active := None |>)
  end.

(** ** RunEngine *)

Definition recentlyCompletedTTL : Z := 30000.
Definition transferTimeoutSec : Z := 60.
Definition maxPendingChunks : nat := 512.

(** The variables of [RunEngine]; [en_ack_session] is what the callback of the
    current [SelectiveRepeat] has captured. [pendingChunks] is the first
    [en_pending] elements of [en_backing]. [en_saves] is no variable of the
    code: it counts the calls of [Save], and so says which answers of the file
    system the next one gets. *)
Record CloudEngine := mk_CloudEngine {
  en_tq : Queue;
  en_sr : option CloudSR;
  en_ack_session : GoString;
  en_reassembler : option FileReassembler;
  en_lastChunkTime : Z;
  en_backing : list FileChunk;
  en_pending : nat;
  en_lastStallNACKTime : Z;
  en_stallNackRetries : Z;
  en_recentMeta : gmap GoString Z;
  en_recentSession : gmap GoString Z;
  en_metaLastSeen : gmap GoString Z;
  en_saves : nat
}.
#[export] Instance eta_CloudEngine : Eta CloudEngine := fun e =>
  mk_CloudEngine (en_tq e) (en_sr e) (en_ack_session e) (en_reassembler e) (en_lastChunkTime e)
    (en_backing e) (en_pending e) (en_lastStallNACKTime e) (en_stallNackRetries e)
    (en_recentMeta e) (en_recentSession e) (en_metaLastSeen e) (en_saves e).

Definition engine_new : CloudEngine :=
  mk_CloudEngine (mk_Queue [] None []) None [] None 0 [] 0 0 0 ∅ ∅ ∅ 0.

Definition active_key (s : Session) : GoString := transferKey (ss_SessionID s) (ss_NodeID s).
Definition chunk_key (c : FileChunk) : GoString :=
  transferKey (fmt_int (ch_SessionID c)) (ch_NodeID c).
Definition pendingChunks (e : CloudEngine) : list FileChunk := take (en_pending e) (en_backing e).

Definition acks_out (sid : GoString) (calls : list AckCall) : list CloudOut := map (OutAck sid) calls.

Section machine.
(** [strings.TrimSpace], and what the file system answers to each call of
    [Save]. *)
Context (TrimSpace : GoString → GoString) (disk : nat → Disk).

Definition save_out (r : FileReassembler) (s : Session) (res : SaveResult) : CloudOut :=
  let bytes := take (Z.to_nat (fr_TotalSize r)) (fr_Buffer r) in
  match res with
  | Saved name => OutSave (fr_SessionID r) (ss_NodeID s) name bytes
  | SaveFailed => OutSaveFailed (fr_SessionID r) (ss_NodeID s) bytes
  end.

(** [processChunk]: (complete, success) and what happened. An error of [Save]
    is logged only. *)
Definition processChunk (now : Z) (c : FileChunk) (e : CloudEngine)
    : option (bool * bool * CloudEngine * list CloudOut) :=
  match en_reassembler e, en_sr e, qu_Active (en_tq e) with
  | Some r, Some sr, Some s =>
      '(isNew, r, sr, calls) ← accept_chunk (ch_SeqNum c) (ch_Data c) r sr;
      let e := e <| en_reassembler := Some r |> <| en_sr := Some sr |> in
      if negb isNew then Some (false, false, e, [])
      else
        let e := e <| en_lastChunkTime := now |> in
        let out := acks_out (en_ack_session e) calls in
        if IsComplete r then
          if VerifyCRC r then
            res ← Save TrimSpace (disk (en_saves e)) (fr_SessionID r) (fr_Filename r) (ss_NodeID s);
            Some (true, true, e <| en_saves ::= S |>, out ++ [save_out r s res])
          else Some (true, false, e, out)
        else Some (false, false, e, out)
  | _, _, _ => None
  end.

(** What [setupActive] sets up for the session [s]. *)
Definition open_session (now srWindow : Z) (s : Session) (e : CloudEngine) : option CloudEngine :=
  sr ← StartSession (ss_ChunkCount s) (NewSelectiveRepeat srWindow);
  r ← NewFileReassembler (ss_SessionID s) (ss_Filename s) (ss_TotalSize s) (ss_ChunkCount s)
        (ss_CRC32 s) (ss_FragmentSize s);
  Some (e <| en_sr := Some sr |> <| en_ack_session := ss_SessionID s |>
          <| en_reassembler := Some r |> <| en_lastChunkTime := now |>
          <| en_lastStallNACKTime := 0 |> <| en_stallNackRetries := 0 |>).

Section setup.
Context (now : Z).
Context (completeTransfer : bool → CloudEngine → option (CloudEngine * list CloudOut)).

(** The replay loop of [setupActive], [n] elements of the slice from index [i]
    on, [kept] of them kept so far: each element is read when its turn comes,
    from the array that the loop, and a completion inside it, write to. *)
Fixpoint replay (n i kept : nat) (key : GoString) (completed : bool) (e : CloudEngine)
    : option (nat * CloudEngine * list CloudOut) :=
  match n with
  | O => Some (kept, e, [])
  | S n' =>
      let c := en_backing e !!! i in
      if negb (bool_decide (chunk_key c = key)) || completed then
        replay n' (S i) (S kept) key completed (e <| en_backing ::= <[kept := c]> |>)
      else
        '(complete, success, e, out) ← processChunk now c e;
        '(e, out') ← (if complete then completeTransfer success e else Some (e, []));
        '(kept, e, out'') ← replay n' (S i) kept key complete e;
        Some (kept, e, out ++ out' ++ out'')
  end.

Definition setupActive_with (srWindow : Z) (e : CloudEngine)
    : option (CloudEngine * list CloudOut) :=
  match qu_Active (en_tq e) with
  | None => Some (e <| en_sr := None |> <| en_reassembler := None |>, [])
  | Some s =>
      e ← open_session now srWindow s e;
      '(kept, e, out) ← replay (en_pending e) 0 0 (active_key s) false e;
      Some (e <| en_pending := kept |>, out)
  end.
End setup.

(** [completeTransfer] up to its call of [setupActive]. *)
Definition finish_transfer (now : Z) (success : bool) (s : Session) (e : CloudEngine)
    : CloudEngine * list CloudOut :=
  let s := s <| ss_CompletedAt := now |> in
  let nacks := match en_sr e with Some sr => sr_NACKCount sr | None => 0 end in
  let e := if success
           then e <| en_recentMeta ::= <[completedMetaKey (ss_SessionID s) (ss_NodeID s)
                        (ss_Filename s) (ss_TotalSize s) (ss_ChunkCount s) (ss_CRC32 s)
                        (ss_FragmentSize s) := now + recentlyCompletedTTL]> |>
                  <| en_recentSession ::= <[active_key s := now + recentlyCompletedTTL]> |>
           else e in
  let out := if success then [OutComplete (ss_SessionID s); OutRecord s nacks] else [] in
  let kept := List.filter (fun c => negb (bool_decide (chunk_key c = active_key s))) (pendingChunks e) in
  let e := e <| en_backing ::= fun b => kept ++ drop (length kept) b |> <| en_pending := length kept |> in
  let '(tq, out') := CompleteActive now (en_tq e <| qu_Active := Some s |>) in
  (e <| en_tq := tq |>, out ++ out').

(** [completeTransfer] and [setupActive] call each other; every completion
    takes a session off the queue, [fuel] bounds their number. *)
Fixpoint completeTransfer (fuel : nat) (now srWindow : Z) (success : bool) (e : CloudEngine)
    : option (CloudEngine * list CloudOut) :=
  match fuel with
  | O => None
  | S fuel' =>
      match qu_Active (en_tq e) with
      | None => Some (e, [])
      | Some s =>
          let '(e, out) := finish_transfer now success s e in
          '(e, out') ← setupActive_with now (completeTransfer fuel' now srWindow) srWindow e;
          Some (e, out ++ out')
      end
  end.

Definition engine_fuel (e : CloudEngine) : nat := S (S (length (qu_queue (en_tq e)))).

Definition setupActive (now srWindow : Z) (e : CloudEngine) : option (CloudEngine * list CloudOut) :=
  setupActive_with now (completeTransfer (engine_fuel e) now srWindow) srWindow e.

Definition complete_now (now srWindow : Z) (success : bool) (e : CloudEngine)
    : option (CloudEngine * list CloudOut) :=
  completeTransfer (engine_fuel e) now srWindow success e.

Definition seen_within (now within : Z) (key : GoString) (e : CloudEngine) : bool :=
  match en_metaLastSeen e !! key with Some lastSeen => now - lastSeen <? within | None => false end.

(** The tail of [case meta]: enqueue, note the active session, set it up if it
    is new. *)
Definition take_meta (now srWindow : Z) (m : FileMeta) (e : CloudEngine)
    : option (CloudEngine * list CloudOut) :=
  let '(tq, out) := Enqueue now m (en_tq e) in
  let e := e <| en_tq := tq |> in
  let e := match qu_Active tq with
           | Some s => e <| en_metaLastSeen ::= <[active_key s := now]> |>
           | None => e
           end in
  match qu_Active tq, en_sr e with
  | Some _, None => '(e, out') ← setupActive now srWindow e; Some (e, out ++ out')
  | _, _ => Some (e, out)
  end.

Definition on_meta (now srWindow : Z) (m : FileMeta) (e : CloudEngine)
    : option (CloudEngine * list CloudOut) :=
  let key := transferKey (me_SessionID m) (me_NodeID m) in
  let metaKey := completedMetaKey (me_SessionID m) (me_NodeID m) (me_Filename m) (me_TotalSize m)
                   (me_ChunkCount m) (me_CRC32 m) (me_FragmentSize m) in
  let recent := match en_recentMeta e !! metaKey with Some exp => now <? exp | None => false end in
  if recent then Some (e, [])
  else
    let e := e <| en_recentMeta ::= delete metaKey |> in
    match qu_Active (en_tq e) with
    | None => take_meta now srWindow m e
    | Some s =>
        if bool_decide (active_key s = key) then
          if seen_within now 1500 key e then Some (e, [])
          else take_meta now srWindow m (e <| en_metaLastSeen ::= <[key := now]> |>)
        else if bool_decide (ss_SessionID s = me_SessionID m) && negb (bool_decide (ss_NodeID s = me_NodeID m))
        then
          Some (if seen_within now 2000 key e then e
                else e <| en_metaLastSeen ::= <[key := now]> |>, [])
        else if (now - en_lastChunkTime e >? 10000) || (en_lastChunkTime e =? 0) then
          '(e, out) ← complete_now now srWindow false e;
          '(e, out') ← take_meta now srWindow m e; Some (e, out ++ out')
        else take_meta now srWindow m e
    end.

Definition stage_chunk (c : FileChunk) (e : CloudEngine) : CloudEngine :=
  if (en_pending e <? maxPendingChunks)%nat
  then e <| en_backing ::= fun b => take (en_pending e) b ++ [c] |> <| en_pending ::= S |>
  else e.

Definition on_chunk (now srWindow : Z) (c : FileChunk) (e : CloudEngine)
    : option (CloudEngine * list CloudOut) :=
  let key := chunk_key c in
  let recent := match en_recentSession e !! key with Some exp => now <? exp | None => false end in
  if recent then Some (e, [])
  else
    let e := e <| en_recentSession ::= delete key |> in
    match qu_Active (en_tq e), en_reassembler e, en_sr e with
    | Some s, Some _, Some _ =>
        if bool_decide (fmt_int (ch_SessionID c) = ss_SessionID s) && bool_decide (ch_NodeID c = ss_NodeID s)
        then
          '(complete, success, e, out) ← processChunk now c e;
          if (complete : bool) then
            '(e, out') ← complete_now now srWindow success e; Some (e, out ++ out')
          else Some (e, out)
        else Some (e, [])
    | _, _, _ => Some (stage_chunk c e, [])
    end.

(** [int(1)<<n], 64 bits wide. *)
Definition shl1 (n : Z) : Z :=
  if n <? 63 then 2 ^ n else if n =? 63 then - 2 ^ 63 else 0.

(** [Progress() >= 0.95] *)
Definition tail_phase (r : FileReassembler) : bool :=
  let total := data_chunk_count r in
  if total =? 0 then false else fr_DataChunksReceived r * 100 >=? 95 * total.

(** The end-to-end NACK bridge of the tick. *)
Definition stall_bridge (now : Z) (e : CloudEngine) : option (CloudEngine * list CloudOut) :=
  match en_sr e, en_reassembler e with
  | Some sr, Some r =>
      if IsComplete r then Some (e, [])
      else
        let tailPhase := tail_phase r in
        let cooldown := if tailPhase then 4000 else Z.min (4000 * shl1 (en_stallNackRetries e)) 16000 in
        if now - en_lastStallNACKTime e >=? cooldown then
          let '(sr, filtered) := stall_request (en_lastChunkTime e) now tailPhase sr in
          let e := e <| en_sr := Some sr |> in
          match filtered, qu_Active (en_tq e) with
          | [], _ => Some (e, [])
          | _, None => None
          | _, Some s =>
              Some (e <| en_lastStallNACKTime := now |>
                      <| en_stallNackRetries ::= fun n => if tailPhase then n else n + 1 |>,
                    [OutNack (ss_SessionID s) filtered])
          end
        else Some (e, [])
  | _, _ => Some (e, [])
  end.

Definition drop_expired (now : Z) (e : CloudEngine) : CloudEngine :=
  e <| en_recentMeta ::= filter (fun p => now < p.2) |>
    <| en_recentSession ::= filter (fun p => now < p.2) |>.

Definition timeout_nack_step (now : Z) (e : CloudEngine) : CloudEngine * list CloudOut :=
  match en_sr e with
  | Some sr =>
      if (en_lastChunkTime e =? 0) || (now - en_lastChunkTime e >=? 1500) then
        let '(sr, calls) := CheckTimeouts 6 now sr in
        (e <| en_sr := Some sr |>, acks_out (en_ack_session e) calls)
      else (e, [])
  | None => (e, [])
  end.

Definition drop_orphans (now : Z) (e : CloudEngine) : CloudEngine :=
  match qu_Active (en_tq e) with
  | None => if (0 <? en_pending e)%nat && (now - en_lastChunkTime e >? 30000)
            then e <| en_pending := 0%nat |> else e
  | Some _ => e
  end.

Definition on_tick (now srWindow : Z) (e : CloudEngine) : option (CloudEngine * list CloudOut) :=
  let e := drop_expired now e in
  let '(e, out1) := timeout_nack_step now e in
  '(e, out2) ←
    (if bool_decide (is_Some (qu_Active (en_tq e))) && (en_lastChunkTime e >? 0) &&
        (now - en_lastChunkTime e >? transferTimeoutSec * 1000)
     then complete_now now srWindow false e else Some (e, []));
  '(e, out3) ← stall_bridge now e;
  Some (drop_orphans now e, out1 ++ out2 ++ out3).

(** The [select] loop. *)
Inductive CloudEvent :=
  | EvMeta (m : FileMeta)
  | EvFileChunk (c : FileChunk)
  | EvTick.

Definition engine_step (srWindow : Z) (ev : Z * CloudEvent) (e : CloudEngine)
    : option (CloudEngine * list CloudOut) :=
  match ev with
  | (now, EvMeta m) => on_meta now srWindow m e
  | (now, EvFileChunk c) => on_chunk now srWindow c e
  | (now, EvTick) => on_tick now srWindow e
  end.

Fixpoint RunEngine (srWindow : Z) (evs : list (Z * CloudEvent)) (e : CloudEngine)
    : option (CloudEngine * list CloudOut) :=
  match evs with
  | [] => Some (e, [])
  | ev :: evs' =>
      '(e, out) ← engine_step srWindow ev e;
      '(e, out') ← RunEngine srWindow evs' e; Some (e, out ++ out')
  end.

(** ** What the sources send

    For each (node, session) key the file its source transfers, how it is laid
    out, and in chunks of which size. *)

Record Layout := mk_Layout { ly_fec : bool; ly_file : list Z; ly_fs : Z }.

(** A completion is announced only for a session whose file, complete and
    checked, [Save] was called for. *)
Fixpoint announced (saved : list GoString) (out : list CloudOut) : Prop :=
  match out with
  | [] => True
  | OutSave sid _ _ _ :: out' | OutSaveFailed sid _ _ :: out' => announced (sid :: saved) out'
  | OutComplete sid :: out' => sid ∈ saved ∧ announced saved out'
  | _ :: out' => announced saved out'
  end.

Definition saves (out : list CloudOut) : list GoString :=
  omap (fun o => match o with OutSave sid _ _ _ | OutSaveFailed sid _ _ => Some sid | _ => None end) out.

Lemma announced_mono saved saved' out : saved ⊆ saved' → announced saved out → announced saved' out.
Proof.
  revert saved saved'. induction out as [ | o out IH ]; intros saved saved' Hs; [ done | ].
  destruct o; cbn; try by apply IH.
  1: intros [? ?]; split; [ by apply Hs | by eapply IH ].
  all: apply IH; set_solver.
Qed.

Lemma announced_app saved out out' :
  announced saved out → announced (saves out ++ saved) out' → announced saved (out ++ out').
Proof.
  revert saved. induction out as [ | o out IH ]; intros saved; [ done | ].
  destruct o; cbn; try by apply IH.
  1: intros [Hin Hann] H; split; [ done | by apply IH ].
  all: intros Ho H; apply IH; [ done | ]; eapply announced_mono; [ | exact H ]; set_solver.
Qed.

Lemma announced_app_nil saved out out' :
  announced saved out → announced saved out' → announced saved (out ++ out').
Proof. intros. apply announced_app; [ done | ]. eapply announced_mono; [ | done ]. set_solver. Qed.

Lemma announced_acks saved sid calls : announced saved (acks_out sid calls).
Proof. induction calls; [ done | ]. done. Qed.

Section engine.
Context (F : GoString → option Layout).
Context (HF : ∀ k ly, F k = Some ly → 0 < ly_fs ly <= MAX_MTU).
Context (Hdisk : ∀ k, Z.of_nat (size (dk_names (disk k))) + 1 < 10 ^ 20).

Definition describes (key : GoString) (size count crc frag : Z) : Prop :=
  ∃ ly, F key = Some ly ∧ size = Z.of_nat (length (ly_file ly)) ∧
    count = wire_total (ly_fec ly) (ly_file ly) (ly_fs ly) ∧
    crc = ChecksumIEEE (ly_file ly) ∧ frag = ly_fs ly.

(** A session number is a JSON number, and the name made for the file leaves
    room for one more number. *)
Definition name_fits (sessionID filename nodeID : GoString) : Prop :=
  slash ∉ sessionID ∧ (length (baseName TrimSpace sessionID filename nodeID) <= 234)%nat.

Definition meta_genuine (m : FileMeta) : Prop :=
  describes (transferKey (me_SessionID m) (me_NodeID m)) (me_TotalSize m) (me_ChunkCount m)
    (me_CRC32 m) (me_FragmentSize m) ∧
  name_fits (me_SessionID m) (me_Filename m) (me_NodeID m).

Definition chunk_genuine (c : FileChunk) : Prop :=
  ∀ ly, F (chunk_key c) = Some ly →
    wire_payload (ly_fec ly) (ly_file ly) (ly_fs ly) (ch_SeqNum c) = Some (ch_Data c).

Definition event_genuine (ev : Z * CloudEvent) : Prop :=
  match ev.2 with
  | EvMeta m => meta_genuine m
  | EvFileChunk c => chunk_genuine c
  | EvTick => True
  end.

(** Every file saved is the file of its node and session, under a name that
    was free; a save that failed was of that file too, and it was the file
    system that refused. *)
Definition out_genuine (o : CloudOut) : Prop :=
  match o with
  | OutSave sid node name bytes =>
      (∃ ly, F (transferKey sid node) = Some ly ∧ bytes = ly_file ly) ∧
      slash ∉ name ∧ ∃ k, name ∉ dk_names (disk k)
  | OutSaveFailed sid node bytes =>
      (∃ ly, F (transferKey sid node) = Some ly ∧ bytes = ly_file ly) ∧
      ∃ k, dk_mkdir (disk k) && dk_write (disk k) = false
  | _ => True
  end.

(** *** The engine's invariant *)

Definition job_ok (s : Session) : Prop :=
  describes (active_key s) (ss_TotalSize s) (ss_ChunkCount s) (ss_CRC32 s) (ss_FragmentSize s) ∧
  name_fits (ss_SessionID s) (ss_Filename s) (ss_NodeID s).

Definition running_ok (s : Session) (r : FileReassembler) : Prop :=
  ∃ ly, F (active_key s) = Some ly ∧
    server_ok (fec_in_use (ly_fec ly) (ly_file ly) (ly_fs ly)) (ly_file ly) (ly_fs ly) r ∧
    fr_ExpectedCRC r = ChecksumIEEE (ly_file ly) ∧ fr_SessionID r = ss_SessionID s ∧
    fr_Filename r = ss_Filename s.

Record engine_ok (e : CloudEngine) : Prop := {
  eo_queue : Forall job_ok (qu_queue (en_tq e));
  eo_backing : Forall chunk_genuine (en_backing e);
  eo_pending : (en_pending e <= length (en_backing e))%nat;
  eo_active : match qu_Active (en_tq e) with
              | None => en_sr e = None ∧ en_reassembler e = None
              | Some s => job_ok s ∧ ∃ r sr, en_reassembler e = Some r ∧ en_sr e = Some sr ∧ running_ok s r
              end
}.

(** Fields the invariant does not mention. *)
Lemma engine_ok_ext e e' :
  en_tq e' = en_tq e → en_sr e' = en_sr e → en_reassembler e' = en_reassembler e →
  en_backing e' = en_backing e → en_pending e' = en_pending e → engine_ok e → engine_ok e'.
Proof. intros E1 E2 E3 E4 E5 [? ? ? ?]. by split; rewrite ?E1, ?E2, ?E3, ?E4, ?E5. Qed.

Lemma acks_genuine sid calls : Forall out_genuine (acks_out sid calls).
Proof. apply Forall_map, Forall_forall. done. Qed.

Lemma engine_ok_running e e' s r sr :
  engine_ok e → qu_Active (en_tq e) = Some s → en_tq e' = en_tq e → en_backing e' = en_backing e →
  en_pending e' = en_pending e → en_reassembler e' = Some r → en_sr e' = Some sr → running_ok s r →
  engine_ok e'.
Proof.
  intros [Hq Hb Hp Ha] Es Et Eb Ep Er Esr Hr.
  split; rewrite ?Et, ?Eb, ?Ep; [ done | done | done | ]. rewrite Es in *. destruct Ha as [? _].
  split; [ done | ]. by exists r, sr.
Qed.

(** The call of [Save] for the whole file of [s]. *)
Lemma save_out_ok k s r :
  job_ok s → running_ok s r → IsComplete r = true →
  ∃ name, name ∉ dk_names (disk k) ∧ slash ∉ name ∧
    (let base := baseName TrimSpace (ss_SessionID s) (ss_Filename s) (ss_NodeID s) in
     base ∉ dk_names (disk k) → name = base) ∧
    VerifyCRC r = true ∧
    ∃ res, Save TrimSpace (disk k) (fr_SessionID r) (fr_Filename r) (ss_NodeID s) = Some res ∧
      out_genuine (save_out r s res) ∧ saves [save_out r s res] = [ss_SessionID s] ∧
      (∀ saved, announced saved [save_out r s res]) ∧
      (dk_mkdir (disk k) && dk_write (disk k) = true →
       ∃ ly, F (active_key s) = Some ly ∧
         save_out r s res = OutSave (ss_SessionID s) (ss_NodeID s) name (ly_file ly)).
Proof.
  intros [_ [Hsl Hlen]] (ly & Hly & Hok & Hcrc & Hsid & Hname) Hc. pose proof (HF _ _ Hly) as Hfs.
  assert (Hact : fec_in_use (ly_fec ly) (ly_file ly) (ly_fs ly) = true →
    7 <= data_fragments (ly_file ly) (ly_fs ly)).
  { unfold fec_in_use. destruct (ly_fec ly); cbn; [ lia | done ]. }
  destruct (server_complete _ _ _ Hfs Hact r Hok) as [_ Hbuf]. specialize (Hbuf Hc).
  assert (Hbytes : take (Z.to_nat (fr_TotalSize r)) (fr_Buffer r) = ly_file ly).
  { rewrite (so_size _ _ _ _ (so_stored _ _ _ _ Hok)), Hbuf. apply firstn_all2. lia. }
  destruct (Save_ok TrimSpace (disk k) _ _ _ Hsl Hlen (Hdisk k)) as (name & Hfree & Hns & Hbase & E).
  exists name. split_and!; [ done | done | exact Hbase | | ].
  { unfold VerifyCRC. rewrite Hbytes, Hcrc. apply Z.eqb_refl. }
  rewrite Hsid, Hname, E. eexists. split; [ reflexivity | ]. unfold save_out. rewrite Hbytes, Hsid.
  destruct (dk_mkdir (disk k) && dk_write (disk k)) eqn:Ed; (split_and!; [ | done | done | ]).
  - split; [ by exists ly | ]. split; [ done | by exists k ].
  - intros _. by exists ly.
  - split; [ by exists ly | by exists k ].
  - done.
Qed.

Lemma processChunk_ok now c s e :
  engine_ok e → qu_Active (en_tq e) = Some s → chunk_genuine c → chunk_key c = active_key s →
  ∃ complete e' out, processChunk now c e = Some (complete, complete, e', out) ∧ engine_ok e' ∧
    en_tq e' = en_tq e ∧ en_backing e' = en_backing e ∧ en_pending e' = en_pending e ∧
    Forall out_genuine out ∧ (∀ saved, announced saved out) ∧
    (complete = true → ss_SessionID s ∈ saves out).
Proof.
  intros He Es Hc Hk. pose proof He as [_ _ _ Ha]. rewrite Es in Ha.
  destruct Ha as (Hj & r & sr & Er & Esr & ly & Hly & Hok & Hcrc & Hsid & Hnm).
  pose proof (HF _ _ Hly) as Hfs. rewrite <- Hk in Hly. specialize (Hc ly Hly). rewrite Hk in Hly.
  rewrite <- fec_in_use_payload in Hc by lia.
  assert (Hact : fec_in_use (ly_fec ly) (ly_file ly) (ly_fs ly) = true →
    7 <= data_fragments (ly_file ly) (ly_fs ly)).
  { unfold fec_in_use. destruct (ly_fec ly); cbn; [ lia | done ]. }
  destruct (WriteChunk_ok _ _ _ Hfs Hact r (ch_SeqNum c) (ch_Data c) Hok Hc) as (r1 & Ew & Hok1 & _).
  destruct (WriteChunk_same _ _ _ _ _ Ew) as [[(Esid & Enm & _ & _ & _ & Ecrc) _] _].
  assert (Hrun : running_ok s r1) by (exists ly; split_and!; [ done | done | congruence | congruence | congruence ]).
  unfold processChunk. rewrite Er, Esr, Es. unfold accept_chunk. rewrite Ew. cbn [mbind option_bind].
  destruct (held r (ch_SeqNum c)); cbn [negb].
  { do 3 eexists. split; [ reflexivity | ]. split_and!; try done. by eapply engine_ok_running. }
  destruct (OnChunkReceived (ch_SeqNum c) sr) as [sr1 calls]. cbn [mbind option_bind negb].
  set (e1 := e <| en_reassembler := Some r1 |> <| en_sr := Some sr1 |> <| en_lastChunkTime := now |>).
  assert (He1 : engine_ok e1) by by eapply (engine_ok_running e).
  destruct (IsComplete r1) eqn:Ec.
  - destruct (save_out_ok (en_saves e1) s r1 Hj Hrun Ec)
      as (name & _ & _ & _ & -> & res & E & Hg & Hs & Ha & _).
    change (en_saves e1) with (en_saves e) in E. cbn [en_saves update_field] in E |- *.
    match goal with |- context [Save _ ?d _ _ _] => change d with (disk (en_saves e)) end. rewrite E. cbn [mbind option_bind].
    do 3 eexists. split; [ reflexivity | ]. split_and!; try done.
    + by apply (engine_ok_ext e1).
    + apply Forall_app. split; [ apply acks_genuine | by apply Forall_singleton ].
    + intros saved. apply announced_app; [ apply announced_acks | done ].
    + intros _. unfold saves in *. rewrite omap_app, Hs. set_solver.
  - do 3 eexists. split; [ reflexivity | ]. split_and!; try done; [ apply acks_genuine | ].
    intros. apply announced_acks.
Qed.

(** *** Completion and set-up *)

Record outcome (saved : list GoString) (e e' : CloudEngine) (out : list CloudOut) : Prop := {
  oc_ok : engine_ok e';
  oc_backing : length (en_backing e') = length (en_backing e);
  oc_queue : (length (qu_queue (en_tq e')) <= length (qu_queue (en_tq e)))%nat;
  oc_out : Forall out_genuine out;
  oc_announced : announced saved out
}.

Lemma outcome_refl saved e : engine_ok e → outcome saved e e [].
Proof. by split. Qed.

Lemma outcome_trans saved e1 e2 e3 out1 out2 :
  outcome saved e1 e2 out1 → outcome (saves out1 ++ saved) e2 e3 out2 →
  outcome saved e1 e3 (out1 ++ out2).
Proof.
  intros [_ Hb1 Hq1 Ho1 Ha1] [H2 Hb2 Hq2 Ho2 Ha2].
  split; [ done | lia | lia | by apply Forall_app | by apply announced_app ].
Qed.

(** Between two sessions: the active one is not set up yet. *)
Record between_ok (e : CloudEngine) : Prop := {
  bo_queue : Forall job_ok (qu_queue (en_tq e));
  bo_backing : Forall chunk_genuine (en_backing e);
  bo_pending : (en_pending e <= length (en_backing e))%nat;
  bo_active : ∀ s, qu_Active (en_tq e) = Some s → job_ok s
}.

Lemma open_session_ok now srWindow s e :
  between_ok e → qu_Active (en_tq e) = Some s →
  ∃ e', open_session now srWindow s e = Some e' ∧ engine_ok e' ∧ en_tq e' = en_tq e ∧
    en_backing e' = en_backing e ∧ en_pending e' = en_pending e ∧
    en_recentSession e' = en_recentSession e ∧ en_saves e' = en_saves e ∧ en_lastChunkTime e' = now ∧
    ∃ ly r sr, F (active_key s) = Some ly ∧ en_reassembler e' = Some r ∧ en_sr e' = Some sr ∧
      server_ok (fec_in_use (ly_fec ly) (ly_file ly) (ly_fs ly)) (ly_file ly) (ly_fs ly) r ∧
      (∀ x, held r x = false) ∧ fr_Filename r = ss_Filename s.
Proof.
  intros [Hq Hb Hp Ha] Es. pose proof (Ha s Es) as Hj.
  destruct Hj as [(ly & Hly & Hsize & Hcount & Hcrc & Hfrag) _]. pose proof (HF _ _ Hly) as Hfs.
  set (act := fec_in_use (ly_fec ly) (ly_file ly) (ly_fs ly)).
  assert (Hact : act = true → 7 <= data_fragments (ly_file ly) (ly_fs ly)).
  { unfold act, fec_in_use. destruct (ly_fec ly); cbn; [ lia | done ]. }
  rewrite <- fec_in_use_total in Hcount by lia. fold act in Hcount.
  assert (0 <= ss_ChunkCount s).
  { rewrite Hcount. assert (0 <= data_fragments (ly_file ly) (ly_fs ly))
      by (unfold data_fragments; apply Z.div_pos; lia).
    unfold wire_total, session_total. destruct act; lia. }
  destruct (NewFileReassembler_ok act (ly_file ly) (ly_fs ly) Hfs (ss_SessionID s) (ss_Filename s)
              (ss_CRC32 s)) as (r & Er & Hok & Hheld & Hrc & Hrs & Hrn).
  unfold open_session, StartSession, make_bytes. rewrite Z.quot_div_nonneg by lia.
  replace ((ss_ChunkCount s + 7) / 8 <? 0) with false by lia. cbn [mbind option_bind].
  rewrite Hsize, Hfrag, Hcount, Er. cbn. eexists. split; [ reflexivity | ].
  split; [ | do 6 (split; [ done | ]); exists ly, r; eexists; by split_and! ].
  split; [ done | done | done | ]. cbn. rewrite Es. split; [ by apply Ha | ].
  do 2 eexists. split_and!; [ done | done | ]. exists ly. split_and!; try done. congruence.
Qed.

Definition ct_ok (q : nat) (ct : bool → CloudEngine → option (CloudEngine * list CloudOut)) : Prop :=
  ∀ success e saved, engine_ok e → (length (qu_queue (en_tq e)) <= q)%nat →
    (success = true → ∀ s, qu_Active (en_tq e) = Some s → ss_SessionID s ∈ saved) →
    ∃ e' out, ct success e = Some (e', out) ∧ outcome saved e e' out.

Lemma keep_chunk_ok e k c :
  engine_ok e → chunk_genuine c → engine_ok (e <| en_backing ::= <[k := c]> |>).
Proof.
  intros [Hq Hb Hp Ha] Hc. split; [ done | | | done ].
  - cbn. by apply Forall_insert.
  - cbn. by rewrite length_insert.
Qed.

Lemma replay_ok q now ct key n i kept completed e saved :
  ct_ok q ct → engine_ok e → (length (qu_queue (en_tq e)) <= q)%nat → (kept <= i)%nat →
  (i + n <= length (en_backing e))%nat →
  (completed = false → ∃ s, qu_Active (en_tq e) = Some s ∧ active_key s = key) →
  ∃ kept' e' out, replay now ct n i kept key completed e = Some (kept', e', out) ∧
    outcome saved e e' out ∧ (kept' <= i + n)%nat.
Proof.
  intros Hct. revert i kept completed e saved.
  induction n as [ | n IH ]; intros i kept completed e saved He Hq Hki Hin Hs.
  - do 3 eexists. split; [ reflexivity | ]. split; [ by apply outcome_refl | lia ].
  - cbn [replay]. set (c := en_backing e !!! i). assert (Hc : chunk_genuine c).
    { pose proof (eo_backing e He) as Hb. rewrite Forall_lookup in Hb. apply (Hb i).
      apply list_lookup_lookup_total_lt. lia. }
    destruct (negb (bool_decide (chunk_key c = key)) || completed) eqn:Ekeep.
    + set (e1 := e <| en_backing ::= <[kept := c]> |>).
      assert (Hlen : length (en_backing e1) = length (en_backing e)) by apply length_insert.
      destruct (IH (S i) (S kept) completed e1 saved) as (kept' & e' & out & -> & [] & Hk);
        [ by apply keep_chunk_ok | done | lia | lia | done | ].
      do 3 eexists. split; [ reflexivity | ]. split; [ | lia ]. split; (done || lia).
    + apply orb_false_iff in Ekeep as [Ek%negb_false_iff%bool_decide_eq_true ->].
      destruct (Hs eq_refl) as (s & Es & Ekey).
      destruct (processChunk_ok now c s e He Es Hc ltac:(congruence))
        as (complete & e1 & out1 & -> & He1 & Et1 & Eb1 & Ep1 & Ho1 & Ha1 & Hsv). cbn [mbind option_bind].
      assert (H1 : outcome saved e e1 out1) by (split; rewrite ?Et1, ?Eb1; done).
      assert (∃ e2 out2, (if complete then ct complete e1 else Some (e1, [])) = Some (e2, out2) ∧
        outcome (saves out1 ++ saved) e1 e2 out2 ∧
        (complete = false → e2 = e1)) as (e2 & out2 & -> & H2 & He2).
      { destruct complete.
        - destruct (Hct true e1 (saves out1 ++ saved) He1) as (e2 & out2 & -> & H2);
            [ by rewrite Et1 | | by exists e2, out2 ].
          intros _ s' Es'. rewrite Et1, Es in Es'. injection Es' as <-. set_solver.
        - exists e1, []. split; [ done | ]. split; [ by apply outcome_refl | done ]. }
      cbn [mbind option_bind]. pose proof (outcome_trans _ _ _ _ _ _ H1 H2) as H12.
      destruct (IH (S i) kept complete e2 (saves (out1 ++ out2) ++ saved))
        as (kept' & e' & out3 & -> & H3 & Hk).
      { apply H2. } { pose proof (oc_queue _ _ _ _ H12). lia. } { lia. }
      { rewrite (oc_backing _ _ _ _ H12). lia. }
      { intros Hf. rewrite (He2 Hf), Et1. by exists s. }
      do 3 eexists. split; [ reflexivity | ]. split; [ | lia ].
      rewrite app_assoc. by eapply outcome_trans.
Qed.

Lemma setupActive_with_ok q now ct srWindow e saved :
  (qu_Active (en_tq e) ≠ None → ct_ok q ct) → between_ok e → (length (qu_queue (en_tq e)) <= q)%nat →
  ∃ e' out, setupActive_with now ct srWindow e = Some (e', out) ∧ outcome saved e e' out.
Proof.
  intros Hct He Hq. unfold setupActive_with. destruct (qu_Active (en_tq e)) as [s | ] eqn:Es.
  - destruct (open_session_ok now srWindow s e He Es) as (e1 & -> & He1 & Et & Eb & Ep & _).
    cbn [mbind option_bind].
    destruct (replay_ok q now ct (active_key s) (en_pending e1) 0 0 false e1 saved)
      as (kept & e2 & out & -> & [Hok Hb' Hq' Ho Ha] & Hk); [ auto | done | by rewrite Et | lia | | | ].
    { rewrite Ep, Eb. cbn. apply He. } { intros _. rewrite Et. by exists s. }
    cbn. do 2 eexists. split; [ reflexivity | ]. rewrite Eb, Et in *. split; try done.
    destruct Hok as [? ? ? ?]. split; [ done | done | | done ]. cbn. rewrite Hb', Ep in *.
    destruct He as [_ _ Hp _]. lia.
  - do 2 eexists. split; [ reflexivity | ]. split; [ | done | done | done | done ].
    destruct He as [? ? ? _]. split; [ done | done | done | ]. cbn. by rewrite Es.
Qed.

Lemma StartNext_ok now q q' out :
  StartNext now q = (q', out) →
  (∀ s, qu_Active q' = Some s → qu_Active q = Some s ∨
     ∃ s0, s0 ∈ qu_queue q ∧ s = s0 <| ss_StartedAt := now |>) ∧
  qu_queue q' ⊆ qu_queue q ∧
  (qu_Active q = None → length (qu_queue q') = (length (qu_queue q) - 1)%nat ∧
     (qu_queue q = [] → qu_Active q' = None)) ∧
  Forall out_genuine out ∧ ∀ saved, announced saved out.
Proof.
  unfold StartNext. destruct (qu_Active q) as [s | ] eqn:Ea.
  - intros [= <- <-]. split_and!; [ intros; left; congruence | set_solver | done | by constructor | done ].
  - destruct (qu_queue q) as [ | s rest ] eqn:Eq; intros [= <- <-].
    + split_and!; [ intros; left; congruence | by rewrite Eq | by rewrite Eq | by constructor | done ].
    + cbn. split_and!; [ | set_solver | intros _; split; [ lia | done ] | by repeat constructor | done ].
      intros s' [= <-]. right. exists s. split; [ by left | done ].
Qed.

Lemma job_ok_started now s : job_ok s → job_ok (s <| ss_StartedAt := now |>).
Proof. done. Qed.

Lemma finish_transfer_ok now success s e saved :
  engine_ok e → qu_Active (en_tq e) = Some s → (success = true → ss_SessionID s ∈ saved) →
  let '(e', out) := finish_transfer now success s e in
  between_ok e' ∧ length (en_backing e') = length (en_backing e) ∧
  length (qu_queue (en_tq e')) = (length (qu_queue (en_tq e)) - 1)%nat ∧
  (qu_queue (en_tq e) = [] → qu_Active (en_tq e') = None) ∧
  Forall out_genuine out ∧ announced saved out.
Proof.
  intros [Hq Hb Hp Ha] Es Hsv. unfold finish_transfer. cbv zeta.
  set (e1 := if success then _ else e).
  assert (E1 : en_tq e1 = en_tq e ∧ en_backing e1 = en_backing e ∧ en_pending e1 = en_pending e)
    by by destruct success.
  destruct E1 as (Et & Eb & Ep). set (kept := List.filter _ (pendingChunks e1)).
  assert (Hkept : kept ⊆ en_backing e ∧ (length kept <= length (en_backing e))%nat).
  { unfold kept, pendingChunks. rewrite Eb, Ep. split.
    - intros x Hx. apply list_elem_of_In, filter_In in Hx as [Hx _]. apply list_elem_of_In in Hx.
      apply list_elem_of_lookup in Hx as [i [Hi _]%lookup_take_Some]. by eapply list_elem_of_lookup_2.
    - etransitivity; [ apply List.filter_length_le | ]. rewrite length_take. lia. }
  match goal with |- context [en_tq ?x] => change (en_tq x) with (en_tq e1) end.
  rewrite Et. unfold CompleteActive. cbn [qu_Active update_field].
  set (q1 := _ <| qu_Active := None |>).
  assert (Eq1 : qu_queue q1 = qu_queue (en_tq e) ∧ qu_Active q1 = None) by done.
  destruct (StartNext now q1) as [q2 out2] eqn:En. destruct (StartNext_ok _ _ _ _ En) as (Hact & Hsub & Hlen & Ho & Hann).
  destruct Eq1 as [Eq1 Ea1]. rewrite Eq1 in *. destruct (Hlen Ea1) as [Hl Hnone].
  split_and!.
  - split; cbn.
    + rewrite Forall_forall in *. intros x Hx. by apply Hq, Hsub.
    + rewrite Eb. apply Forall_app. split; [ | by apply Forall_drop ].
      rewrite Forall_forall in *. intros x Hx. by apply Hb, Hkept.
    + rewrite length_app. lia.
    + intros s' Hs'. rewrite Forall_forall in Hq. destruct (Hact s' Hs') as [? | (s0 & Hs0 & ->)]; [ congruence | ].
      apply job_ok_started, Hq, Hs0.
  - cbn. rewrite Eb, length_app, length_drop. lia.
  - done.
  - done.
  - apply Forall_app. split; [ | done ]. destruct success; [ by repeat constructor | by constructor ].
  - apply announced_app_nil; [ | done ]. destruct success; [ | done ]. cbn. split; [ by apply Hsv | done ].
Qed.

Lemma completeTransfer_ok now srWindow fuel q :
  (q < fuel)%nat → ct_ok q (completeTransfer fuel now srWindow).
Proof.
  revert q. induction fuel as [ | fuel IH ]; intros q Hf success e saved He Hq Hsv; [ lia | ].
  cbn [completeTransfer]. destruct (qu_Active (en_tq e)) as [s | ] eqn:Es.
  - pose proof (finish_transfer_ok now success s e saved He Es ltac:(auto)) as H.
    destruct (finish_transfer now success s e) as [e1 out1]. destruct H as (Hbo & Hb1 & Hq1 & Hn1 & Ho1 & Ha1).
    destruct (setupActive_with_ok (length (qu_queue (en_tq e1))) now (completeTransfer fuel now srWindow)
                srWindow e1 (saves out1 ++ saved)) as (e2 & out2 & -> & [Hok Hb2 Hq2 Ho2 Ha2]); [ | done | done | ].
    { intros Hne. apply IH. destruct (qu_queue (en_tq e)) eqn:Eq; [ by rewrite Hn1 in Hne | ].
      rewrite Hq1. cbn in *. lia. }
    cbn. do 2 eexists. split; [ reflexivity | ].
    split; [ done | lia | lia | by apply Forall_app | by apply announced_app ].
  - do 2 eexists. split; [ reflexivity | ]. by apply outcome_refl.
Qed.

Lemma engine_fuel_ok now srWindow e :
  ct_ok (length (qu_queue (en_tq e))) (completeTransfer (engine_fuel e) now srWindow).
Proof. apply completeTransfer_ok. unfold engine_fuel. lia. Qed.

Lemma complete_now_ok now srWindow success e saved :
  engine_ok e → (success = true → ∀ s, qu_Active (en_tq e) = Some s → ss_SessionID s ∈ saved) →
  ∃ e' out, complete_now now srWindow success e = Some (e', out) ∧ outcome saved e e' out.
Proof. intros He Hs. by apply (engine_fuel_ok now srWindow e success e saved). Qed.

(** What an event leaves: the queue and the staged chunks may have grown. *)
Definition event_outcome (saved : list GoString) (e' : CloudEngine) (out : list CloudOut) : Prop :=
  engine_ok e' ∧ Forall out_genuine out ∧ announced saved out.

Lemma outcome_event saved e e' out : outcome saved e e' out → event_outcome saved e' out.
Proof. by intros [? _ _ ? ?]. Qed.

Lemma event_outcome_app saved e1 e2 out1 out2 :
  event_outcome saved e1 out1 → event_outcome (saves out1 ++ saved) e2 out2 →
  event_outcome saved e2 (out1 ++ out2).
Proof.
  intros (_ & Ho1 & Ha1) (H2 & Ho2 & Ha2). split; [ done | ].
  split; [ by apply Forall_app | by apply announced_app ].
Qed.

Lemma job_ok_new m : meta_genuine m → job_ok (new_session m).
Proof. done. Qed.

Lemma jobs_add_exit p node l : Forall job_ok l → Forall job_ok (update_first p (add_exit node) l).
Proof.
  intros H. apply Forall_forall. intros x Hx. rewrite Forall_forall in H.
  apply elem_of_update_first in Hx as [Hx | (y & Hy & _ & ->)]; [ by apply H | ].
  by apply (H y).
Qed.

Lemma setupActive_ok now srWindow e saved :
  between_ok e → ∃ e' out, setupActive now srWindow e = Some (e', out) ∧ event_outcome saved e' out.
Proof.
  intros He. destruct (setupActive_with_ok (length (qu_queue (en_tq e))) now
    (completeTransfer (engine_fuel e) now srWindow) srWindow e saved) as (e' & out & E & H);
    [ intros _; apply engine_fuel_ok | done | done | ].
  exists e', out. split; [ done | by eapply outcome_event ].
Qed.

Lemma Enqueue_active now m s q :
  meta_genuine m → Forall job_ok (qu_queue q) → qu_Active q = Some s →
  let '(q', out) := Enqueue now m q in
  Forall job_ok (qu_queue q') ∧ out = [] ∧
  ∃ s', qu_Active q' = Some s' ∧ (s' = s ∨ s' = add_exit (me_NodeID m) s).
Proof.
  intros Hm Hq Es. unfold Enqueue. rewrite Es. destruct (is_session _ _ s).
  { split_and!; [ done | done | ]. cbn. eexists. split; [ done | by right ]. }
  destruct (existsb _ _); cbn; (split; [ | split; [ done | ]; exists s; split; [ done | by left ] ]).
  - by apply jobs_add_exit.
  - apply Forall_app. split; [ done | ]. by apply Forall_singleton.
Qed.

Lemma Enqueue_idle now m q :
  meta_genuine m → Forall job_ok (qu_queue q) → qu_Active q = None →
  let '(q', out) := Enqueue now m q in
  Forall job_ok (qu_queue q') ∧ (∀ s, qu_Active q' = Some s → job_ok s) ∧
  Forall out_genuine out ∧ ∀ saved, announced saved out.
Proof.
  intros Hm Hq Es. unfold Enqueue. rewrite Es. destruct (existsb _ _).
  - cbn. split_and!; [ by apply jobs_add_exit | by rewrite Es | by constructor | done ].
  - set (q1 := q <| qu_queue ::= _ |>).
    assert (Hq1 : Forall job_ok (qu_queue q1)).
    { cbn. apply Forall_app. split; [ done | ]. by apply Forall_singleton. }
    destruct (StartNext now q1) as [q2 out] eqn:En.
    destruct (StartNext_ok _ _ _ _ En) as (Hact & Hsub & _ & Ho & Ha). rewrite Forall_forall in Hq1.
    split_and!; [ | | done | done ].
    + apply Forall_forall. intros x Hx. by apply Hq1, Hsub.
    + intros s Hs. destruct (Hact s Hs) as [Hs1 | (s0 & Hs0 & ->)].
      * change (qu_Active q = Some s) in Hs1. congruence.
      * apply job_ok_started, Hq1, Hs0.
Qed.

Lemma take_meta_ok now srWindow m e saved :
  engine_ok e → meta_genuine m →
  ∃ e' out, take_meta now srWindow m e = Some (e', out) ∧ event_outcome saved e' out.
Proof.
  intros [Hq Hb Hp Ha] Hm. unfold take_meta. destruct (qu_Active (en_tq e)) as [s | ] eqn:Es.
  - destruct Ha as (Hj & r & sr & Er & Esr & Hr).
    pose proof (Enqueue_active now m s (en_tq e) Hm Hq Es) as H. destruct (Enqueue now m (en_tq e)) as [q out].
    destruct H as (Hq' & -> & s' & Es' & Hs'). rewrite Es'.
    match goal with |- context [en_sr ?x] => change (en_sr x) with (en_sr e) end. rewrite Esr.
    do 2 eexists. split; [ reflexivity | ].
    split; [ | split; [ by constructor | done ] ]. split; [ done | done | done | ]. cbn. rewrite Es'.
    split; [ by destruct Hs' as [-> | ->] | ]. exists r, sr. split_and!; [ done | done | ].
    by destruct Hs' as [-> | ->].
  - destruct Ha as [Esr Er]. pose proof (Enqueue_idle now m (en_tq e) Hm Hq Es) as H.
    destruct (Enqueue now m (en_tq e)) as [q out]. destruct H as (Hq' & Hact & Ho & Hann).
    destruct (qu_Active q) as [s | ] eqn:Es'.
    + match goal with |- context [en_sr ?x] => change (en_sr x) with (en_sr e) end. rewrite Esr.
      set (e1 := e <| en_tq := q |> <| en_metaLastSeen ::= <[active_key s := now]> |>).
      destruct (setupActive_ok now srWindow e1 (saves out ++ saved)) as (e2 & out2 & -> & H2).
      { split; [ done | done | done | ]. cbn. rewrite Es'. done. }
      do 2 eexists. split; [ reflexivity | ]. destruct H2 as (H2 & Ho2 & Ha2).
      split; [ done | ]. split; [ by apply Forall_app | by apply announced_app ].
    + do 2 eexists. split; [ reflexivity | ]. split; [ | done ].
      split; [ done | done | done | ]. cbn. by rewrite Es'.
Qed.

Lemma on_meta_ok now srWindow m e saved :
  engine_ok e → meta_genuine m →
  ∃ e' out, on_meta now srWindow m e = Some (e', out) ∧ event_outcome saved e' out.
Proof.
  intros He Hm. unfold on_meta. cbv zeta.
  assert (Hstay : ∀ e', engine_ok e' → ∃ e1 out, Some (e', []) = Some (e1, out) ∧ event_outcome saved e1 out).
  { intros e' H. exists e', []. split; [ done | ]. split; [ done | ]. split; [ by constructor | done ]. }
  destruct (match en_recentMeta e !! _ with Some exp => _ | None => _ end); [ by apply Hstay | ].
  set (e1 := e <| en_recentMeta ::= _ |>).
  assert (He1 : engine_ok e1) by by apply (engine_ok_ext e).
  destruct (qu_Active (en_tq e1)) as [s | ]; [ | by apply take_meta_ok ].
  destruct (bool_decide _).
  { destruct (seen_within _ _ _ _); [ by apply Hstay | ]. apply take_meta_ok; [ | done ].
    by apply (engine_ok_ext e1). }
  destruct (_ && _); [ apply Hstay; destruct (seen_within _ _ _ _); [ done | by apply (engine_ok_ext e1) ] | ].
  destruct (_ || _); [ | by apply take_meta_ok ].
  destruct (complete_now_ok now srWindow false e1 saved He1) as (e2 & out2 & -> & H2); [ done | ]. cbn.
  destruct (take_meta_ok now srWindow m e2 (saves out2 ++ saved)) as (e3 & out3 & -> & H3); [ apply H2 | done | ].
  cbn. do 2 eexists. split; [ reflexivity | ]. eapply event_outcome_app; [ by eapply outcome_event | done ].
Qed.

Lemma stay_ok saved e : engine_ok e → ∃ e1 out, Some (e, []) = Some (e1, out) ∧ event_outcome saved e1 out.
Proof. intros H. exists e, []. split; [ done | ]. split; [ done | ]. split; [ by constructor | done ]. Qed.

Lemma stage_chunk_ok c e : engine_ok e → chunk_genuine c → engine_ok (stage_chunk c e).
Proof.
  intros [Hq Hb Hp Ha] Hc. unfold stage_chunk. destruct (_ <? _)%nat; [ | done ].
  split; [ done | | | done ]; cbn.
  - apply Forall_app. split; [ by apply Forall_take | by apply Forall_singleton ].
  - rewrite length_app, length_take. cbn. lia.
Qed.

Lemma on_chunk_ok now srWindow c e saved :
  engine_ok e → chunk_genuine c →
  ∃ e' out, on_chunk now srWindow c e = Some (e', out) ∧ event_outcome saved e' out.
Proof.
  intros He Hc. unfold on_chunk. cbv zeta.
  destruct (match en_recentSession e !! _ with Some exp => _ | None => _ end); [ by apply stay_ok | ].
  set (e1 := e <| en_recentSession ::= _ |>).
  assert (He1 : engine_ok e1) by by apply (engine_ok_ext e).
  destruct (qu_Active (en_tq e1)) as [s | ] eqn:Es; [ | by apply stay_ok, stage_chunk_ok ].
  pose proof (eo_active e1 He1) as Ha. rewrite Es in Ha. destruct Ha as (_ & r & sr & Er & Esr & _).
  rewrite Er, Esr. destruct (_ && _) eqn:Ek; [ | by apply stay_ok ].
  apply andb_true_iff in Ek as [Esid%bool_decide_eq_true Enode%bool_decide_eq_true].
  destruct (processChunk_ok now c s e1 He1 Es Hc) as (complete & e2 & out & -> & He2 & Et2 & _ & _ & Ho & Hann & Hsv).
  { unfold chunk_key, active_key. by rewrite Esid, Enode. }
  cbn [mbind option_bind]. destruct complete.
  - destruct (complete_now_ok now srWindow true e2 (saves out ++ saved) He2) as (e3 & out3 & -> & H3).
    { intros _ s'. rewrite Et2, Es. intros [= <-]. apply elem_of_app. left. by apply Hsv. }
    cbn. do 2 eexists. split; [ reflexivity | ]. apply outcome_event in H3.
    eapply event_outcome_app; [ by split | exact H3 ].
  - do 2 eexists. split; [ reflexivity | ]. by split.
Qed.

Lemma timeout_nack_step_ok now e :
  engine_ok e →
  let '(e', out) := timeout_nack_step now e in
  engine_ok e' ∧ Forall out_genuine out ∧ ∀ saved, announced saved out.
Proof.
  intros He. unfold timeout_nack_step. destruct (en_sr e) as [sr | ] eqn:Esr;
    [ | split; [ done | split; [ by constructor | done ] ] ].
  destruct (_ || _); [ | split; [ done | split; [ by constructor | done ] ] ].
  destruct (CheckTimeouts 6 now sr) as [sr1 calls].
  split; [ | split; [ apply acks_genuine | intros; apply announced_acks ] ].
  destruct He as [Hq Hb Hp Ha]. split; [ done | done | done | ]. cbn.
  destruct (qu_Active (en_tq e)); [ | destruct Ha; congruence ].
  destruct Ha as (? & r & sr0 & ? & ? & ?). split; [ done | ]. by exists r, sr1.
Qed.

Lemma stall_bridge_ok now e saved :
  engine_ok e → ∃ e' out, stall_bridge now e = Some (e', out) ∧ event_outcome saved e' out.
Proof.
  intros He. unfold stall_bridge. pose proof (eo_active e He) as Ha.
  destruct (en_sr e) as [sr | ] eqn:Esr; [ | by apply stay_ok ].
  destruct (en_reassembler e) as [r | ] eqn:Er; [ | by apply stay_ok ].
  destruct (IsComplete r); [ by apply stay_ok | ]. cbv zeta.
  destruct (_ >=? _); [ | by apply stay_ok ]. destruct (stall_request _ _ _ sr) as [sr1 filtered].
  destruct (qu_Active (en_tq e)) as [s | ] eqn:Es; [ | by destruct Ha ].
  destruct Ha as (Hj & r' & sr' & Er' & _ & Hr). injection Er' as <-.
  assert (H1 : engine_ok (e <| en_sr := Some sr1 |>)) by by apply (engine_ok_running e _ s r sr1).
  destruct filtered as [ | q filtered ]; [ by apply stay_ok | ].
  match goal with |- context [qu_Active (en_tq ?x)] => change (en_tq x) with (en_tq e) end. rewrite Es.
  do 2 eexists. split; [ reflexivity | ]. split; [ by apply (engine_ok_ext (e <| en_sr := Some sr1 |>)) | ].
  split; [ by repeat constructor | done ].
Qed.

Lemma on_tick_ok now srWindow e saved :
  engine_ok e → ∃ e' out, on_tick now srWindow e = Some (e', out) ∧ event_outcome saved e' out.
Proof.
  intros He. unfold on_tick. cbv zeta.
  assert (H0 : engine_ok (drop_expired now e)) by by apply (engine_ok_ext e).
  pose proof (timeout_nack_step_ok now _ H0) as H1. destruct (timeout_nack_step _ _) as [e1 out1].
  destruct H1 as (H1 & Ho1 & Ha1).
  assert (∃ e2 out2, (if bool_decide (is_Some (qu_Active (en_tq e1))) && (en_lastChunkTime e1 >? 0) &&
      (now - en_lastChunkTime e1 >? transferTimeoutSec * 1000)
      then complete_now now srWindow false e1 else Some (e1, [])) = Some (e2, out2) ∧
    event_outcome (saves out1 ++ saved) e2 out2) as (e2 & out2 & -> & H2).
  { destruct (_ && _); [ | by apply stay_ok ].
    destruct (complete_now_ok now srWindow false e1 (saves out1 ++ saved) H1) as (e2 & out2 & -> & H2); [ done | ].
    exists e2, out2. split; [ done | by eapply outcome_event ]. }
  cbn [mbind option_bind].
  destruct (stall_bridge_ok now e2 (saves (out1 ++ out2) ++ saved)) as (e3 & out3 & -> & H3); [ apply H2 | ].
  cbn. do 2 eexists. split; [ reflexivity | ].
  assert (H12 : event_outcome saved e2 (out1 ++ out2)) by (eapply (event_outcome_app saved e1); [ by split | done ]).
  pose proof (event_outcome_app _ _ _ _ _ H12 H3) as (He3 & Ho & Ha). rewrite <- app_assoc in Ho, Ha.
  split; [ | by split ]. unfold drop_orphans. destruct (qu_Active (en_tq e3)) eqn:Es; [ done | ].
  destruct (_ && _); [ | done ]. destruct He3 as [Hq Hb Hp Hact]. split; [ done | done | cbn; lia | done ].
Qed.

Lemma RunEngine_ok srWindow evs e saved :
  engine_ok e → Forall event_genuine evs →
  ∃ e' out, RunEngine srWindow evs e = Some (e', out) ∧ event_outcome saved e' out.
Proof.
  revert e saved. induction evs as [ | [now ev] evs IH ]; intros e saved He Hevs; [ by apply stay_ok | ].
  apply Forall_cons in Hevs as [Hev Hevs]. cbn [RunEngine].
  assert (∃ e1 out1, engine_step srWindow (now, ev) e = Some (e1, out1) ∧ event_outcome saved e1 out1)
    as (e1 & out1 & -> & H1).
  { destruct ev; cbn in *; [ by apply on_meta_ok | by apply on_chunk_ok | by apply on_tick_ok ]. }
  cbn. destruct (IH e1 (saves out1 ++ saved)) as (e2 & out2 & -> & H2); [ apply H1 | done | ].
  cbn. do 2 eexists. split; [ reflexivity | ]. by eapply event_outcome_app.
Qed.

Lemma engine_new_ok : engine_ok engine_new.
Proof. split; [ by constructor | by constructor | done | done ]. Qed.

(** *** A transfer that is received *)

(** The variables a transfer's reception depends on. *)
Definition same_transfer (e e' : CloudEngine) : Prop :=
  en_tq e' = en_tq e ∧ en_reassembler e' = en_reassembler e ∧
  en_lastChunkTime e' = en_lastChunkTime e ∧ en_saves e' = en_saves e.

Lemma same_transfer_trans e1 e2 e3 : same_transfer e1 e2 → same_transfer e2 e3 → same_transfer e1 e3.
Proof. unfold same_transfer. intros (? & ? & ? & ?) (? & ? & ? & ?). split_and!; congruence. Qed.

Lemma processChunk_goes_on now c s e r sr b r1 :
  en_reassembler e = Some r → en_sr e = Some sr → qu_Active (en_tq e) = Some s →
  WriteChunk (ch_SeqNum c) (ch_Data c) r = Some (b, r1) → b && IsComplete r1 = false →
  ∃ e1 out, processChunk now c e = Some (false, false, e1, out) ∧
    en_reassembler e1 = Some r1 ∧ en_tq e1 = en_tq e ∧ en_recentSession e1 = en_recentSession e ∧
    en_saves e1 = en_saves e ∧ (en_lastChunkTime e1 = en_lastChunkTime e ∨ en_lastChunkTime e1 = now).
Proof.
  intros Er Esr Es Ew Eb. unfold processChunk. rewrite Er, Esr, Es. unfold accept_chunk. rewrite Ew.
  cbn [mbind option_bind]. destruct b; cbn [negb andb] in *.
  - destruct (OnChunkReceived (ch_SeqNum c) sr) as [sr1 calls]. cbn [mbind option_bind negb]. rewrite Eb.
    do 2 eexists. split; [ reflexivity | ]. split_and!; try done. by right.
  - do 2 eexists. split; [ reflexivity | ]. split_and!; try done. by left.
Qed.

Lemma processChunk_finishes now c s e r sr r1 :
  en_reassembler e = Some r → en_sr e = Some sr → qu_Active (en_tq e) = Some s →
  WriteChunk (ch_SeqNum c) (ch_Data c) r = Some (true, r1) → IsComplete r1 = true → VerifyCRC r1 = true →
  ∀ res, Save TrimSpace (disk (en_saves e)) (fr_SessionID r1) (fr_Filename r1) (ss_NodeID s) = Some res →
  ∃ e1 out, processChunk now c e = Some (true, true, e1, out) ∧ save_out r1 s res ∈ out ∧ en_tq e1 = en_tq e.
Proof.
  intros Er Esr Es Ew Ec Ev res Eres. unfold processChunk. rewrite Er, Esr, Es. unfold accept_chunk. rewrite Ew.
  cbn [mbind option_bind negb]. destruct (OnChunkReceived (ch_SeqNum c) sr) as [sr1 calls].
  cbn [mbind option_bind negb]. rewrite Ec, Ev.
  match goal with |- context [Save _ ?d _ _ _] => change d with (disk (en_saves e)) end. rewrite Eres.
  cbn [mbind option_bind]. do 2 eexists. split; [ reflexivity | ]. split; [ | done ].
  apply elem_of_app. right. by left.
Qed.

Lemma completeTransfer_announces fuel now srWindow s e e' out :
  qu_Active (en_tq e) = Some s → completeTransfer fuel now srWindow true e = Some (e', out) →
  OutComplete (ss_SessionID s) ∈ out.
Proof.
  intros Es. destruct fuel as [ | fuel ]; [ done | ]. cbn [completeTransfer]. rewrite Es.
  unfold finish_transfer. cbv zeta. destruct (CompleteActive _ _) as [tq out1].
  destruct (setupActive_with _ _ _ _) as [[e2 out2] | ]; [ | done ]. cbn. intros [= <- <-]. by left.
Qed.

Lemma timeout_nack_same now e : same_transfer e (timeout_nack_step now e).1.
Proof.
  unfold timeout_nack_step. destruct (en_sr e); [ | done ]. destruct (_ || _); [ | done ].
  by destruct (CheckTimeouts 6 now _).
Qed.

Lemma stall_bridge_same now e e' out : stall_bridge now e = Some (e', out) → same_transfer e e' ∧
  en_recentSession e' = en_recentSession e.
Proof.
  unfold stall_bridge. destruct (en_sr e) as [sr | ]; [ | by intros [= <- _] ].
  destruct (en_reassembler e) as [r | ] eqn:Er; [ | by intros [= <- _] ].
  destruct (IsComplete r); [ by intros [= <- _] | ]. cbv zeta.
  destruct (_ >=? _); [ | by intros [= <- _] ]. destruct (stall_request _ _ _ sr) as [sr1 filtered].
  destruct filtered; [ by intros [= <- _] | ].
  destruct (qu_Active _); [ | done ]. by intros [= <- _].
Qed.

(** A meta that arrives while a session is active and set up. *)
Lemma take_meta_same now srWindow m e s sr e' out :
  qu_Active (en_tq e) = Some s → en_sr e = Some sr → take_meta now srWindow m e = Some (e', out) →
  (∃ s', qu_Active (en_tq e') = Some s' ∧ (s' = s ∨ s' = add_exit (me_NodeID m) s)) ∧
  en_reassembler e' = en_reassembler e ∧ en_lastChunkTime e' = en_lastChunkTime e ∧
  en_saves e' = en_saves e ∧ en_recentSession e' = en_recentSession e.
Proof.
  intros Es Esr. unfold take_meta. destruct (Enqueue now m (en_tq e)) as [q out1] eqn:Eq.
  assert (∃ s', qu_Active q = Some s' ∧ (s' = s ∨ s' = add_exit (me_NodeID m) s)) as (s' & Es' & Hs').
  { revert Eq. unfold Enqueue. rewrite Es. destruct (is_session _ _ s); [ intros [= <- _]; eauto | ].
    destruct (existsb _ _); intros [= <- _]; eauto. }
  rewrite Es'. match goal with |- context [en_sr ?x] => change (en_sr x) with (en_sr e) end. rewrite Esr.
  intros [= <- _]. split; [ | done ]. exists s'. by split.
Qed.

(** The numbers of the chunks of one session among others. *)
Definition of_session (sid node : GoString) (c : FileChunk) : bool :=
  bool_decide (fmt_int (ch_SessionID c) = sid) && bool_decide (ch_NodeID c = node).
Definition event_chunks (sid node : GoString) (ev : Z * CloudEvent) : list (Z * list Z) :=
  match ev.2 with
  | EvFileChunk c => if of_session sid node c then [(ch_SeqNum c, ch_Data c)] else []
  | _ => []
  end.

Lemma of_session_key sid node c : of_session sid node c = true → chunk_key c = transferKey sid node.
Proof.
  unfold of_session, chunk_key. by intros [->%bool_decide_eq_true ->%bool_decide_eq_true]%andb_true_iff.
Qed.

Lemma running_fec ly : fec_in_use (ly_fec ly) (ly_file ly) (ly_fs ly) = true →
  7 <= data_fragments (ly_file ly) (ly_fs ly).
Proof. unfold fec_in_use. destruct (ly_fec ly); cbn; [ lia | done ]. Qed.

(** Nothing gives up the session of [key] at this event: no tick more than a
    minute, and no meta of another session more than ten seconds, after its
    last new chunk. *)
Definition calm (key : GoString) (ev : Z * CloudEvent) (e : CloudEngine) : Prop :=
  ∀ s, qu_Active (en_tq e) = Some s → active_key s = key →
  match ev.2 with
  | EvTick => ev.1 - en_lastChunkTime e <= transferTimeoutSec * 1000
  | EvMeta m => me_SessionID m ≠ ss_SessionID s → ev.1 - en_lastChunkTime e <= 10000
  | EvFileChunk _ => True
  end.

Fixpoint undisturbed (srWindow : Z) (key : GoString) (evs : list (Z * CloudEvent)) (e : CloudEngine) : Prop :=
  match evs with
  | [] => True
  | ev :: evs' =>
      calm key ev e ∧ ∀ e' out, engine_step srWindow ev e = Some (e', out) → undisturbed srWindow key evs' e'
  end.

Section arrival.
Context (t : Z) (ly : Layout) (sid node filename : GoString) (k : nat).
Context (Hly : F (transferKey sid node) = Some ly) (Ht : 0 < t).
Local Notation key := (transferKey sid node).
Local Notation act := (fec_in_use (ly_fec ly) (ly_file ly) (ly_fs ly)).

(** The session is active since [t] and incomplete; [l] are the numbers of the
    chunks taken for it. The next [Save] is the [k]-th. *)
Record receiving (l : list Z) (e : CloudEngine) : Prop := {
  rg_ok : engine_ok e;
  rg_running : ∃ s r, qu_Active (en_tq e) = Some s ∧ ss_SessionID s = sid ∧ ss_NodeID s = node ∧
    ss_Filename s = filename ∧ en_reassembler e = Some r ∧ IsComplete r = false ∧
    ∀ x, held r x = true ↔ available act (ly_file ly) (ly_fs ly) (fun y => y ∈ l) x;
  rg_recent : ∀ exp, en_recentSession e !! key = Some exp → exp <= t;
  rg_last : t <= en_lastChunkTime e;
  rg_saves : en_saves e = k
}.

Definition finished (out : list CloudOut) : Prop :=
  OutComplete sid ∈ out ∧
  (dk_mkdir (disk k) && dk_write (disk k) = true →
   ∃ name, OutSave sid node name (ly_file ly) ∈ out ∧ name ∉ dk_names (disk k) ∧ slash ∉ name ∧
     (let base := baseName TrimSpace sid filename node in base ∉ dk_names (disk k) → name = base)).

Lemma finished_mono out out' : out ⊆ out' → finished out → finished out'.
Proof.
  intros Hs [Hc Hsv]. split; [ by apply Hs | ]. intros Hd. destruct (Hsv Hd) as (name & Hin & Hrest).
  exists name. split; [ by apply Hs | exact Hrest ].
Qed.

Lemma receiving_keep l e e' n :
  receiving l e → engine_ok e' →
  (∀ s, qu_Active (en_tq e) = Some s → ∃ s', qu_Active (en_tq e') = Some s' ∧ (s' = s ∨ s' = add_exit n s)) →
  en_reassembler e' = en_reassembler e → en_lastChunkTime e' = en_lastChunkTime e →
  en_saves e' = en_saves e → (∀ x, en_recentSession e' !! key = Some x → en_recentSession e !! key = Some x) →
  receiving l e'.
Proof.
  intros [He (s & r & Es & Hsid & Hnode & Hname & Er & Hinc & Hh) Hrec Hlast Hk] He' Hact Er' El Ek Hrec'.
  destruct (Hact s Es) as (s' & Es' & Hs'). split.
  - done.
  - exists s', r. rewrite Er'. destruct Hs' as [-> | ->]; by split_and!.
  - intros exp Hexp. by apply Hrec, Hrec'.
  - by rewrite El.
  - congruence.
Qed.

Lemma receiving_same l e e' :
  receiving l e → engine_ok e' → same_transfer e e' →
  (∀ x, en_recentSession e' !! key = Some x → en_recentSession e !! key = Some x) → receiving l e'.
Proof.
  intros H He' (Et & Er & El & Ek) Hrec. apply (receiving_keep l e e' []); try done.
  intros s Hs. exists s. rewrite Et. auto.
Qed.

Lemma receiving_meta now srWindow m l e e' out :
  receiving l e → t <= now → calm key (now, EvMeta m) e → engine_ok e' →
  on_meta now srWindow m e = Some (e', out) → receiving l e'.
Proof.
  intros H Hnow Hcalm He' E.
  destruct (rg_running l e H) as (s & r & Es & Hsid & Hnode & Hname & Er & _).
  pose proof (eo_active e (rg_ok l e H)) as Ha. rewrite Es in Ha. destruct Ha as (_ & _ & sr & _ & Esr & _).
  pose proof (rg_last l e H) as Hlast. specialize (Hcalm s Es). cbn [snd] in Hcalm.
  assert (Hkey : active_key s = key) by (unfold active_key; by rewrite Hsid, Hnode).
  assert (Htake : ∀ e1, qu_Active (en_tq e1) = Some s → en_sr e1 = Some sr →
    en_reassembler e1 = en_reassembler e → en_lastChunkTime e1 = en_lastChunkTime e →
    en_saves e1 = en_saves e → en_recentSession e1 = en_recentSession e →
    take_meta now srWindow m e1 = Some (e', out) → receiving l e').
  { intros e1 Es1 Esr1 Er1 El1 Ek1 Erec1 E1.
    destruct (take_meta_same now srWindow m e1 s sr e' out Es1 Esr1 E1) as (Hact & Er2 & El2 & Ek2 & Erec2).
    apply (receiving_keep l e e' (me_NodeID m)); try done; try congruence.
    intros s0. rewrite Es. by intros [= <-]. }
  revert E. unfold on_meta. cbv zeta.
  destruct (match en_recentMeta e !! _ with Some exp => _ | None => _ end); [ by intros [= <- _] | ].
  set (e1 := e <| en_recentMeta ::= _ |>). change (en_tq e1) with (en_tq e). rewrite Es.
  destruct (bool_decide (active_key s = _)) eqn:Ekey.
  { destruct (seen_within _ _ _ _); [ | by apply Htake ]. intros [= <- _]. by apply (receiving_same l e). }
  destruct (bool_decide (ss_SessionID s = me_SessionID m)) eqn:Esame; cbn [andb].
  { apply bool_decide_eq_true in Esame.
    destruct (negb _) eqn:En.
    - intros [= <- _]. destruct (seen_within _ _ _ _); by apply (receiving_same l e).
    - apply negb_false_iff, bool_decide_eq_true in En. apply bool_decide_eq_false in Ekey.
      exfalso. apply Ekey. unfold active_key. by rewrite Esame, En. }
  apply bool_decide_eq_false in Esame. change (en_lastChunkTime e1) with (en_lastChunkTime e).
  specialize (Hcalm Hkey ltac:(congruence)). cbn [fst] in Hcalm.
  replace ((now - en_lastChunkTime e >? 10000) || (en_lastChunkTime e =? 0)) with false by lia.
  by apply Htake.
Qed.

Lemma receiving_tick now srWindow l e e' out :
  receiving l e → calm key (now, EvTick) e → engine_ok e' →
  on_tick now srWindow e = Some (e', out) → receiving l e'.
Proof.
  intros H Hcalm He' E.
  destruct (rg_running l e H) as (s & r & Es & Hsid & Hnode & _).
  specialize (Hcalm s Es ltac:(unfold active_key; by rewrite Hsid, Hnode)). cbn [fst snd] in Hcalm.
  revert E. unfold on_tick. cbv zeta. set (e0 := drop_expired now e).
  pose proof (timeout_nack_same now e0) as H1.
  assert (Hrec1 : en_recentSession (timeout_nack_step now e0).1 = en_recentSession e0).
  { unfold timeout_nack_step. destruct (en_sr e0); [ | done ]. destruct (_ || _); [ | done ].
    by destruct (CheckTimeouts 6 now _). }
  destruct (timeout_nack_step now e0) as [e1 out1]. cbn [fst] in *. pose proof H1 as (Et & _ & El & _).
  rewrite El. change (en_lastChunkTime e0) with (en_lastChunkTime e).
  replace (now - en_lastChunkTime e >? transferTimeoutSec * 1000) with false by lia.
  rewrite andb_false_r. cbn [mbind option_bind].
  destruct (stall_bridge now e1) as [[e3 out3] | ] eqn:E3; [ | done ]. cbn [mbind option_bind].
  destruct (stall_bridge_same _ _ _ _ E3) as [H3 Hrec3]. unfold drop_orphans.
  assert (Es3 : qu_Active (en_tq e3) = Some s) by (destruct H3 as (-> & _); by rewrite Et).
  rewrite Es3. intros [= <- _]. apply (receiving_same l e); [ done | done | | ].
  - eapply same_transfer_trans; [ | exact H3 ]. by apply (same_transfer_trans e e0).
  - intros x. rewrite Hrec3, Hrec1. cbn. rewrite map_lookup_filter_Some. by intros [? _].
Qed.

(** The chunk that completes the file. *)
Lemma receiving_completes now srWindow c l e s r sr r1 :
  receiving l e → qu_Active (en_tq e) = Some s → en_reassembler e = Some r → en_sr e = Some sr →
  ss_SessionID s = sid → ss_NodeID s = node → ss_Filename s = filename →
  WriteChunk (ch_SeqNum c) (ch_Data c) r = Some (true, r1) → running_ok s r1 → IsComplete r1 = true →
  chunk_genuine c → chunk_key c = key →
  ∃ e' out, ('(complete, success, e, out) ← processChunk now c e;
             if (complete : bool) then
               '(e, out') ← complete_now now srWindow success e; Some (e, out ++ out')
             else Some (e, out)) = Some (e', out) ∧ engine_ok e' ∧ finished out.
Proof.
  intros H Es Er Esr Hsid Hnode Hname Ew Hrun Hc Hcg Hck. pose proof (rg_ok l e H) as He.
  assert (Hkey : active_key s = key) by (unfold active_key; by rewrite Hsid, Hnode).
  pose proof (eo_active e He) as Ha. rewrite Es in Ha. destruct Ha as (Hj & _).
  destruct (save_out_ok (en_saves e) s r1 Hj Hrun Hc)
    as (name & Hfree & Hslash & Hbase & Hcrc & res & Eres & _ & _ & _ & Hok).
  destruct (processChunk_finishes now c s e r sr r1 Er Esr Es Ew Hc Hcrc res Eres) as (e1 & out & E1 & Hin & Et1).
  destruct (processChunk_ok now c s e He Es Hcg ltac:(congruence)) as (? & ? & ? & E1' & He1 & _).
  rewrite E1 in E1'. injection E1' as <- _ <- <-. rewrite E1. cbn [mbind option_bind].
  destruct (complete_now_ok now srWindow true e1 [sid] He1) as (e2 & out2 & E2 & H2).
  { intros _ s'. rewrite Et1, Es. intros [= <-]. rewrite Hsid. by left. }
  rewrite E2. cbn [mbind option_bind]. do 2 eexists. split; [ reflexivity | ]. split; [ apply H2 | ].
  apply (completeTransfer_announces _ _ _ s) in E2; [ | by rewrite Et1 ]. rewrite Hsid in E2. split.
  - apply elem_of_app. by right.
  - rewrite (rg_saves l e H), Hsid, Hnode, Hname in *. intros Hd. destruct (Hok Hd) as (ly' & Hly' & Eo).
    rewrite Hkey, Hly in Hly'. injection Hly' as <-. rewrite Eo in Hin. exists name.
    split_and!; [ apply elem_of_app; by left | done | done | exact Hbase ].
Qed.

(** A chunk that leaves it incomplete. *)
Lemma receiving_goes_on now c l e s r sr b r1 :
  receiving l e → t <= now → qu_Active (en_tq e) = Some s → en_reassembler e = Some r → en_sr e = Some sr →
  chunk_genuine c → chunk_key c = key →
  WriteChunk (ch_SeqNum c) (ch_Data c) r = Some (b, r1) → b && IsComplete r1 = false → IsComplete r1 = false →
  (∀ x, held r1 x = true ↔ gains act (ly_file ly) (ly_fs ly) (held r) (ch_SeqNum c) x) →
  ∃ e' out, processChunk now c e = Some (false, false, e', out) ∧ engine_ok e' ∧
    receiving (l ++ [ch_SeqNum c]) e'.
Proof.
  intros H Hnow Es Er Esr Hc Hck Ew Eb Hinc Hg.
  destruct (rg_running l e H) as (s0 & r0 & Es0 & Hsid & Hnode & Hname & Er0 & _ & Hh).
  rewrite Es in Es0. injection Es0 as <-. rewrite Er in Er0. injection Er0 as <-.
  pose proof (HF _ _ Hly) as Hfs. pose proof (running_fec ly) as Hact.
  destruct (processChunk_goes_on now c s e r sr _ r1 Er Esr Es Ew Eb)
    as (e2 & out & E2 & Er2 & Et2 & Erec2 & Ek2 & El2).
  destruct (processChunk_ok now c s e (rg_ok _ _ H) Es Hc) as (? & ? & ? & E2' & He2 & _).
  { unfold active_key. by rewrite Hck, Hsid, Hnode. }
  rewrite E2 in E2'. injection E2' as <- _ <- <-.
  exists e2, out. split; [ done | ]. split; [ done | ]. split.
  - done.
  - exists s, r1. rewrite Et2. split_and!; try done.
    intros x. rewrite Hg, (gains_available act _ _ Hfs Hact (fun y => y ∈ l)) by done.
    apply available_ext. intros y. rewrite elem_of_app, list_elem_of_singleton. done.
  - intros exp. rewrite Erec2. apply (rg_recent _ _ H).
  - pose proof (rg_last _ _ H). destruct El2 as [-> | ->]; lia.
  - rewrite Ek2. apply (rg_saves _ _ H).
Qed.

Lemma receiving_chunk now srWindow c l e :
  receiving l e → t <= now → chunk_genuine c →
  ∃ e' out, on_chunk now srWindow c e = Some (e', out) ∧ engine_ok e' ∧
    (receiving (l ++ (event_chunks sid node (now, EvFileChunk c)).*1) e' ∨ finished out).
Proof.
  intros H Hnow Hc. destruct (rg_running l e H) as (s & r & Es & Hsid & Hnode & Hname & Er & Hinc & Hh).
  pose proof (rg_ok l e H) as He. pose proof (eo_active e He) as Ha. rewrite Es in Ha.
  destruct Ha as (_ & r0 & sr & Er0 & Esr & ly0 & Hly0 & Hok & Hcrc & Hrsid & Hrname).
  rewrite Er in Er0. injection Er0 as <-.
  unfold active_key in Hly0. rewrite Hsid, Hnode, Hly in Hly0. injection Hly0 as <-.
  pose proof (HF _ _ Hly) as Hfs. pose proof (running_fec ly) as Hact.
  unfold on_chunk. cbv zeta. set (e1 := e <| en_recentSession ::= delete (chunk_key c) |>).
  assert (H1 : receiving l e1).
  { apply (receiving_same l e); [ done | by apply (engine_ok_ext e) | done | ].
    intros x. cbn. by intros [_ ?]%lookup_delete_Some. }
  unfold event_chunks. cbn [snd]. destruct (of_session sid node c) eqn:Eof.
  - pose proof (of_session_key _ _ _ Eof) as Hck. rewrite Hck.
    assert (match en_recentSession e !! key with Some exp => now <? exp | None => false end = false) as ->.
    { destruct (en_recentSession e !! key) as [exp | ] eqn:Ex; [ | done ].
      apply (rg_recent l e H) in Ex. lia. }
    change (en_tq e1) with (en_tq e). rewrite Es.
    change (en_reassembler e1) with (en_reassembler e). change (en_sr e1) with (en_sr e). rewrite Er, Esr.
    unfold of_session in Eof. rewrite Hsid, Hnode, Eof.
    pose proof Hc as Hp. unfold chunk_genuine in Hp. rewrite Hck in Hp. specialize (Hp ly Hly).
    rewrite <- fec_in_use_payload in Hp by lia.
    destruct (WriteChunk_ok act _ _ Hfs Hact r (ch_SeqNum c) (ch_Data c) Hok Hp) as (r1 & Ew & Hok1 & Hg).
    destruct (WriteChunk_same _ _ _ _ _ Ew) as [[(Esid & Enm & _ & _ & _ & Ecrc) _] Hnew].
    destruct (negb (held r (ch_SeqNum c)) && IsComplete r1) eqn:Ecomp.
    + apply andb_true_iff in Ecomp as [Eb Ecomp]. rewrite Eb in Ew.
      destruct (receiving_completes now srWindow c l e1 s r sr r1) as (e' & out & E & He' & Hfin); try done.
      { exists ly. unfold active_key. rewrite Hsid, Hnode. split_and!; try done; congruence. }
      rewrite E. exists e', out. split; [ done | ]. split; [ done | by right ].
    + destruct (receiving_goes_on now c l e1 s r sr _ r1 H1 Hnow Es Er Esr Hc Hck Ew Ecomp) as (e2 & out & -> & He2 & H2);
        [ | done | ].
      { destruct (held r (ch_SeqNum c)); cbn in Ecomp, Hnew; [ by subst r1 | done ]. }
      exists e2, out. split; [ done | ]. split; [ done | by left ].
  - cbn [fmap list_fmap]. rewrite app_nil_r.
    destruct (match en_recentSession e !! _ with Some exp => _ | None => _ end).
    { do 2 eexists. split; [ reflexivity | ]. split; [ done | by left ]. }
    change (en_tq e1) with (en_tq e). rewrite Es.
    change (en_reassembler e1) with (en_reassembler e). change (en_sr e1) with (en_sr e). rewrite Er, Esr.
    unfold of_session in Eof. rewrite Hsid, Hnode, Eof.
    do 2 eexists. split; [ reflexivity | ]. split; [ apply (rg_ok _ _ H1) | by left ].
Qed.

Lemma receiving_run srWindow evs l e :
  receiving l e → Forall event_genuine evs → Forall (fun ev => t <= ev.1) evs →
  undisturbed srWindow key evs e →
  (∀ q, 0 <= q < wire_total act (ly_file ly) (ly_fs ly) → carries_data act q = true →
     available act (ly_file ly) (ly_fs ly) (fun y => y ∈ l ++ (flat_map (event_chunks sid node) evs).*1) q) →
  ∃ e' out, RunEngine srWindow evs e = Some (e', out) ∧ finished out.
Proof.
  pose proof (HF _ _ Hly) as Hfs. pose proof (running_fec ly) as Hact.
  revert l e. induction evs as [ | [now ev] evs IH ]; intros l e H Hevs Hts Hcalm Hall.
  { exfalso. destruct (rg_running l e H) as (s & r & Es & Hsid & Hnode & _ & Er & Hinc & Hh).
    pose proof (eo_active e (rg_ok l e H)) as Ha. rewrite Es in Ha.
    destruct Ha as (_ & r0 & _ & Er0 & _ & ly0 & Hly0 & Hok & _).
    rewrite Er in Er0. injection Er0 as <-.
    unfold active_key in Hly0. rewrite Hsid, Hnode, Hly in Hly0. injection Hly0 as <-.
    apply not_true_iff_false in Hinc. apply Hinc, (server_complete act _ _ Hfs Hact r Hok).
    intros q Hq Hd. apply Hh. cbn in Hall. rewrite app_nil_r in Hall. by apply Hall. }
  apply Forall_cons in Hevs as [Hev Hevs]. apply Forall_cons in Hts as [Hnow Hts]. cbn [fst] in Hnow.
  destruct Hcalm as [Hcalm Hrest]. cbn [RunEngine].
  assert (∃ e1 out1, engine_step srWindow (now, ev) e = Some (e1, out1) ∧ engine_ok e1 ∧
    (receiving (l ++ (event_chunks sid node (now, ev)).*1) e1 ∨ finished out1)) as (e1 & out1 & E1 & He1 & Hor).
  { pose proof (rg_ok l e H) as He. destruct ev as [m | c | ]; cbn [engine_step].
    - destruct (on_meta_ok now srWindow m e [] He Hev) as (e1 & out1 & E1 & He1 & _).
      exists e1, out1. split; [ done | ]. split; [ done | left ]. rewrite app_nil_r. by eapply receiving_meta.
    - by apply receiving_chunk.
    - destruct (on_tick_ok now srWindow e [] He) as (e1 & out1 & E1 & He1 & _).
      exists e1, out1. split; [ done | ]. split; [ done | left ]. rewrite app_nil_r. by eapply receiving_tick. }
  rewrite E1. cbn [mbind option_bind]. destruct Hor as [H1 | Hfin].
  - destruct (IH _ e1 H1 Hevs Hts (Hrest _ _ E1)) as (e2 & out2 & -> & Hfin).
    { intros q Hq Hd. specialize (Hall q Hq Hd). cbn [flat_map] in Hall. by rewrite fmap_app, app_assoc in Hall. }
    cbn. do 2 eexists. split; [ reflexivity | ]. eapply finished_mono; [ | done ]. set_solver.
  - destruct (RunEngine_ok srWindow evs e1 [] He1 Hevs) as (e2 & out2 & -> & _).
    cbn. do 2 eexists. split; [ reflexivity | ]. eapply finished_mono; [ | done ]. set_solver.
Qed.
End arrival.
End engine.
End machine.

(** ** Properties *)

(** C4: the server saves the source's file and nothing else. [F] gives, for
    each node and session, the file its source transfers and how it is laid
    out; [disk] what the file system answers to each [Save]. Whatever metas and
    chunks arrive from there, in whatever order, lost, repeated, before their
    meta, for queued or superseded sessions, with ticks at any times: if the
    names of the metas leave room for a number (a longer one can keep [Save] in
    its loop for ever) and a directory never holds 10^20 names, the engine
    neither panics nor loops; every file [Save] writes, or fails to write, is
    byte for byte the file of that node and session; a written one gets a name
    that was free; [Save] fails only when the file system refuses; and a
    completion is announced to the exit only after [Save] was called with the
    session's whole file. It is announced even when that call failed
    ([failed_save_announced]). *)
Theorem server_saves_genuine TrimSpace disk F srWindow evs :
  (∀ k ly, F k = Some ly → 0 < ly_fs ly <= MAX_MTU) →
  (∀ k, Z.of_nat (size (dk_names (disk k))) + 1 < 10 ^ 20) →
  Forall (event_genuine TrimSpace F) evs →
  ∃ e out, RunEngine TrimSpace disk srWindow evs engine_new = Some (e, out) ∧
    Forall (out_genuine disk F) out ∧ announced [] out.
Proof.
  intros HF Hdisk Hevs.
  destruct (RunEngine_ok TrimSpace disk F HF Hdisk srWindow evs engine_new [] (engine_new_ok TrimSpace F) Hevs)
    as (e & out & E & _ & Ho & Ha).
  exists e, out. by split.
Qed.

(** ** From the exit's publications to the file *)

Lemma onMessage_fragment exit sources r :
  is_u16 (fg_session_id r) → is_u16 (fg_seq r) →
  onMessage_data exit (fragment_chunk r) sources =
  Some (mk_FileChunk
          (match sources !! makeExitSessionKey exit (fg_session_id r) with
           | Some src => if bool_decide (src = []) then exit else src
           | None => exit
           end) (fg_session_id r) (fg_seq r) (fg_data r)).
Proof.
  intros Hs Hq. unfold onMessage_data, fragment_chunk.
  destruct (Z.ltb_spec (Z.of_nat (length (le_bytes 2 (fg_session_id r) ++ le_bytes 2 (fg_seq r) ++ fg_data r))) 4)
    as [Hlt | _]; [ rewrite !length_app, !length_le_bytes in Hlt; lia | ]. cbv zeta.
  rewrite (take_app_length' (le_bytes 2 _)) by done. rewrite (drop_app_length' (le_bytes 2 _)) by done.
  rewrite (take_app_length' (le_bytes 2 _)) by done.
  rewrite !le_value_bytes by (unfold is_u16 in *; cbn; lia).
  rewrite (app_assoc (le_bytes 2 _)), (drop_app_length' (le_bytes 2 _ ++ le_bytes 2 _)); done.
Qed.

(** What reaches the server: a meta, a message on an exit's data topic with
    the sources that the client has noted for exits and sessions by then, the
    ticker. *)
Inductive Arrival :=
  | ArMeta (m : FileMeta)
  | ArData (exit : GoString) (payload : list Z) (sources : gmap GoString GoString)
  | ArTick.

Definition arrive (a : Z * Arrival) : option (Z * CloudEvent) :=
  match a.2 with
  | ArMeta m => Some (a.1, EvMeta m)
  | ArData exit payload sources => c ← onMessage_data exit payload sources; Some (a.1, EvFileChunk c)
  | ArTick => Some (a.1, EvTick)
  end.

(** The engine is free for the transfer of [m]: nothing is active, queued or
    staged for it, and its session has not been completed in the last 30
    seconds. *)
Definition free_for (t : Z) (m : FileMeta) (e : CloudEngine) : Prop :=
  let key := transferKey (me_SessionID m) (me_NodeID m) in
  let metaKey := completedMetaKey (me_SessionID m) (me_NodeID m) (me_Filename m) (me_TotalSize m)
                   (me_ChunkCount m) (me_CRC32 m) (me_FragmentSize m) in
  qu_Active (en_tq e) = None ∧ qu_queue (en_tq e) = [] ∧
  (∀ c, c ∈ pendingChunks e → chunk_key c ≠ key) ∧
  (∀ exp, en_recentMeta e !! metaKey = Some exp → exp <= t) ∧
  (∀ exp, en_recentSession e !! key = Some exp → exp <= t).

Lemma replay_skips TrimSpace disk now ct n i key e :
  (∀ j, (i <= j < i + n)%nat → chunk_key (en_backing e !!! j) ≠ key) → (i + n <= length (en_backing e))%nat →
  replay TrimSpace disk now ct n i i key false e = Some ((i + n)%nat, e, []).
Proof.
  revert i. induction n as [ | n IH ]; intros i Hk Hl; cbn [replay]; [ by rewrite Nat.add_0_r | ].
  rewrite bool_decide_false by (apply Hk; lia). cbn [negb orb].
  assert (e <| en_backing ::= <[i := en_backing e !!! i]> |> = e) as ->.
  { destruct e. cbn in *. unfold update_field. cbn. f_equal. apply list_insert_id, list_lookup_lookup_total_lt. lia. }
  rewrite IH; [ f_equal; do 2 f_equal; lia | intros j Hj; apply Hk; lia | lia ].
Qed.

Section saved.
Context (TrimSpace : GoString → GoString) (disk : nat → Disk) (F : GoString → option Layout).
Context (HF : ∀ k ly, F k = Some ly → 0 < ly_fs ly <= MAX_MTU).
Context (Hdisk : ∀ k, Z.of_nat (size (dk_names (disk k))) + 1 < 10 ^ 20).

(** A session just opened has received nothing. *)
Lemma opened_receiving t ly e s r :
  engine_ok TrimSpace F e → qu_Active (en_tq e) = Some s → F (active_key s) = Some ly → ly_file ly ≠ [] →
  en_reassembler e = Some r →
  server_ok (fec_in_use (ly_fec ly) (ly_file ly) (ly_fs ly)) (ly_file ly) (ly_fs ly) r →
  (∀ x, held r x = false) → en_lastChunkTime e = t →
  (∀ exp, en_recentSession e !! active_key s = Some exp → exp <= t) →
  receiving TrimSpace F t ly (ss_SessionID s) (ss_NodeID s) (ss_Filename s) (en_saves e) [] e.
Proof.
  intros He Es Hly Hne Er Hok Hn El Hsess. pose proof (HF _ _ Hly) as Hfs.
  split; [ done | | done | lia | done ]. exists s, r. split_and!; try done.
  - apply not_true_iff_false. intros Hc.
    rewrite (proj1 (server_complete _ _ _ Hfs (running_fec ly) r Hok)) in Hc.
    destruct (place_seq_spec (fec_in_use (ly_fec ly) (ly_file ly) (ly_fs ly)) (ly_file ly) (ly_fs ly)
                (running_fec ly) 0) as (Hq0 & Hd & _).
    { unfold data_fragments. destruct (ly_file ly); [ done | ]. cbn [length]. nia. }
    specialize (Hc _ Hq0 Hd). by rewrite Hn in Hc.
  - intros x. rewrite Hn. split; [ done | ]. intros [Hin | (_ & _ & H7 & Ho)]; [ by apply elem_of_nil in Hin | ].
    specialize (Ho 7 ltac:(lia) ltac:(lia)). by apply elem_of_nil in Ho.
Qed.

(** The meta opens its session on an engine that is free for it. *)
Lemma meta_opens srWindow t m ly e0 :
  engine_ok TrimSpace F e0 → free_for t m e0 → meta_genuine TrimSpace F m →
  F (transferKey (me_SessionID m) (me_NodeID m)) = Some ly → ly_file ly ≠ [] →
  ∃ e, on_meta TrimSpace disk t srWindow m e0 = Some (e, [OutCmd (me_NodeID m) (me_SessionID m)]) ∧
    receiving TrimSpace F t ly (me_SessionID m) (me_NodeID m) (me_Filename m) (en_saves e0) [] e.
Proof.
  intros He (Ha & Hq & Hstaged & Hmeta & Hsess) Hm Hly Hne. pose proof (HF _ _ Hly) as Hfs.
  set (s := new_session m <| ss_StartedAt := t |>). set (q := mk_Queue [] (Some s) (qu_Completed (en_tq e0))).
  set (metaKey := completedMetaKey (me_SessionID m) (me_NodeID m)
    (me_Filename m) (me_TotalSize m) (me_ChunkCount m) (me_CRC32 m) (me_FragmentSize m)) in *.
  set (e1 := e0 <| en_recentMeta ::= delete metaKey |>
    <| en_tq := q |> <| en_metaLastSeen ::= <[active_key s := t]> |>).
  destruct (open_session_ok TrimSpace F HF t srWindow s e1)
    as (e2 & E2 & He2 & Et & Eb & Ep & Erec & Ek & El & ly' & r & sr & Hly' & Er & Esr & Hok & Hn & Hname).
  { split; [ by constructor | apply He | apply He | ]. cbn. intros s' [= <-]. exact Hm. }
  { done. }
  change (active_key s) with (transferKey (me_SessionID m) (me_NodeID m)) in Hly'. rewrite Hly in Hly'.
  injection Hly' as <-. set (e3 := e2 <| en_pending := en_pending e2 |>). exists e3. split.
  - unfold on_meta. cbv zeta. fold metaKey.
    assert (match en_recentMeta e0 !! metaKey with Some exp => t <? exp | None => false end = false) as ->.
    { destruct (en_recentMeta e0 !! metaKey) as [exp | ] eqn:Ex; [ | done ]. specialize (Hmeta exp eq_refl). lia. }
    match goal with |- context [qu_Active (en_tq ?x)] => change (en_tq x) with (en_tq e0) end. rewrite Ha.
    unfold take_meta. match goal with |- context [Enqueue t m (en_tq ?x)] => change (en_tq x) with (en_tq e0) end.
    assert (Enqueue t m (en_tq e0) = (q, [OutCmd (me_NodeID m) (me_SessionID m)])) as ->.
    { unfold Enqueue. rewrite Ha, Hq. cbn. unfold StartNext. cbn. by rewrite Ha, Hq. }
    cbn [qu_Active q]. pose proof (eo_active _ _ e0 He) as Hn0. rewrite Ha in Hn0. destruct Hn0 as [Hsr _].
    match goal with |- context [en_sr ?x] => change (en_sr x) with (en_sr e0) end. rewrite Hsr.
    match goal with |- context [setupActive _ _ _ _ ?x] => change x with e1 end.
    unfold setupActive, setupActive_with. change (qu_Active (en_tq e1)) with (Some s). cbv beta iota. rewrite E2.
    cbn [mbind option_bind]. rewrite replay_skips; [ done | | ].
    + intros j Hj. apply Hstaged. unfold pendingChunks. rewrite Eb. change (en_backing e1) with (en_backing e0).
      rewrite Ep in Hj. change (en_pending e1) with (en_pending e0) in Hj.
      pose proof (eo_pending _ _ e0 He). apply list_elem_of_lookup. exists j.
      rewrite lookup_take_lt by lia. apply list_lookup_lookup_total_lt. lia.
    + rewrite Ep, Eb. cbn. apply He.
  - assert (Ek3 : en_saves e3 = en_saves e0) by exact Ek. rewrite <- Ek3.
    apply (opened_receiving t ly e3 s r); try done.
    + by apply (engine_ok_ext _ _ e2).
    + change (qu_Active (en_tq e2) = Some s). by rewrite Et.
    + change (∀ exp, en_recentSession e2 !! active_key s = Some exp → exp <= t). rewrite Erec. exact Hsess.
Qed.

(** A fragment among the arrivals is among the chunks of its session. *)
Lemma arrived_chunk now exit sources r node arr :
  (now, ArData exit (fragment_chunk r) sources) ∈ arr →
  is_u16 (fg_session_id r) → is_u16 (fg_seq r) →
  sources !! makeExitSessionKey exit (fg_session_id r) = Some node → node ≠ [] →
  fg_seq r ∈ (flat_map (event_chunks (fmt_int (fg_session_id r)) node) (omap arrive arr)).*1.
Proof.
  intros Hin Hs Hq Hsrc Hne. apply list_elem_of_fmap. exists (fg_seq r, fg_data r). split; [ done | ].
  apply list_elem_of_In, in_flat_map.
  exists (now, EvFileChunk (mk_FileChunk node (fg_session_id r) (fg_seq r) (fg_data r))). split.
  - apply list_elem_of_In, list_elem_of_omap. eexists. split; [ exact Hin | ]. unfold arrive. cbn [snd fst].
    rewrite onMessage_fragment by done. rewrite Hsrc, bool_decide_false by done. done.
  - unfold event_chunks, of_session. cbn. rewrite !bool_decide_true by done. by left.
Qed.

Lemma event_chunks_genuine sid node ly evs :
  F (transferKey sid node) = Some ly → Forall (event_genuine TrimSpace F) evs →
  genuine_chunks (ly_fec ly) (ly_file ly) (ly_fs ly) (flat_map (event_chunks sid node) evs).
Proof.
  intros Hly. induction 1 as [ | [now ev] evs Hev _ IH ]; [ by constructor | ]. cbn [flat_map].
  apply Forall_app. split; [ | exact IH ]. unfold event_chunks. cbn [snd].
  destruct ev as [ | c | ]; [ by constructor | | by constructor ].
  destruct (of_session sid node c) eqn:E; [ | by constructor ]. apply Forall_singleton. cbn.
  apply Hev. by rewrite (of_session_key _ _ _ E).
Qed.
End saved.


(** ** Witnesses *)

(** [undisturbed] as a check. *)
Definition calmb (key : GoString) (ev : Z * CloudEvent) (e : CloudEngine) : bool :=
  match qu_Active (en_tq e) with
  | Some s =>
      negb (bool_decide (active_key s = key)) ||
      match ev.2 with
      | EvTick => ev.1 - en_lastChunkTime e <=? transferTimeoutSec * 1000
      | EvMeta m => bool_decide (me_SessionID m = ss_SessionID s) || (ev.1 - en_lastChunkTime e <=? 10000)
      | EvFileChunk _ => true
      end
  | None => true
  end.

Fixpoint undisturbedb TrimSpace disk (srWindow : Z) (key : GoString) (evs : list (Z * CloudEvent))
    (e : CloudEngine) : bool :=
  match evs with
  | [] => true
  | ev :: evs' =>
      calmb key ev e &&
      match engine_step TrimSpace disk srWindow ev e with
      | Some (e', _) => undisturbedb TrimSpace disk srWindow key evs' e'
      | None => true
      end
  end.

Lemma undisturbedb_ok TrimSpace disk srWindow key evs e :
  undisturbedb TrimSpace disk srWindow key evs e = true → undisturbed TrimSpace disk srWindow key evs e.
Proof.
  revert e. induction evs as [ | [now ev] evs IH ]; intros e H; [ done | ].
  cbn [undisturbedb] in H. apply andb_true_iff in H as [Hc Hr]. split.
  - intros s Es Ek. unfold calmb in Hc. rewrite Es, Ek, bool_decide_true in Hc by done. cbn [negb orb] in Hc.
    destruct ev; cbn [fst snd] in *; [ | done | lia ].
    intros Hne. rewrite bool_decide_false in Hc by done. cbn in Hc. lia.
  - intros e' out E. rewrite E in Hr. by apply IH.
Qed.

(** A directory that holds the name already. *)
Definition demo_disk (k : nat) : Disk :=
  mk_Disk true (match k with
                | O => {[str "0a01_leaf.bin"]}
                | _ => {[str "0a01_leaf.bin"; str "0a01_leaf_1.bin"]}
                end) true.

Lemma demo_disk_small k : Z.of_nat (size (dk_names (demo_disk k))) + 1 < 10 ^ 20.
Proof. destruct k; vm_compute; reflexivity. Qed.

Definition demo_meta (sid : Z) : FileMeta :=
  mk_FileMeta (str "0a01") (fmt_int sid) (str "leaf.bin") 9 10 (ChecksumIEEE demo_file) 1.
Definition demo_F (k : GoString) : option Layout :=
  if bool_decide (k = str "0a01|7") || bool_decide (k = str "0a01|8") then Some (mk_Layout true demo_file 1) else None.
Definition demo_chunk (q : Z) : FileChunk :=
  mk_FileChunk (str "0a01") 7 q (default [] (session_payload demo_file 1 q)).
Definition demo_request (q : Z) : FragmentPublishRequest :=
  mk_frag 8 q 2561 (default [] (session_payload demo_file 1 q)) (str "leaf.bin").

Lemma demo_F_ok k ly : demo_F k = Some ly → 0 < ly_fs ly <= MAX_MTU.
Proof. unfold demo_F. destruct (_ || _); [ by intros [= <-] | done ]. Qed.

(** Two chunks before the meta, one of them twice, one lost, a tick. *)
Definition demo_cloud_events : list (Z * CloudEvent) :=
  [(1000, EvFileChunk (demo_chunk 9)); (1001, EvFileChunk (demo_chunk 0)); (1002, EvMeta (demo_meta 7));
   (1003, EvFileChunk (demo_chunk 0)); (1004, EvFileChunk (demo_chunk 2)); (1500, EvTick)] ++
  map (fun q => (2000 + q, EvFileChunk (demo_chunk q))) [1; 7; 4; 6; 5; 8].

Definition saved_files (out : list CloudOut) : list (GoString * GoString * list Z) :=
  omap (fun o => match o with OutSave _ node name bytes => Some (node, name, bytes) | _ => None end) out.

Ltac demo_events :=
  repeat (apply Forall_cons_2; [ | ]); try apply Forall_nil_2;
  first [ exact I
        | split; [ exists (mk_Layout true demo_file 1); split_and!; vm_compute; reflexivity
                 | split; [ by apply no_slash | vm_compute; lia ] ]
        | intros ly Hly; vm_compute in Hly; injection Hly as <-; vm_compute; reflexivity ].

Lemma server_saves_genuine_witness :
  ∃ e out, RunEngine id demo_disk 128 demo_cloud_events engine_new = Some (e, out) ∧
    Forall (out_genuine demo_disk demo_F) out ∧ announced [] out ∧
    saved_files out = [(str "0a01", str "0a01_leaf_1.bin", demo_file)].
Proof.
  destruct (server_saves_genuine id demo_disk demo_F 128 demo_cloud_events) as (e & out & E & Ho & Ha).
  - exact demo_F_ok.
  - exact demo_disk_small.
  - demo_events.
  - exists e, out. split; [ exact E | ]. split; [ exact Ho | ]. split; [ exact Ha | ].
    assert ((fun x => saved_files x.2) <$> RunEngine id demo_disk 128 demo_cloud_events engine_new =
      Some [(str "0a01", str "0a01_leaf_1.bin", demo_file)]) as H by (vm_compute; reflexivity).
    rewrite E in H. by injection H.
Defined.

(** The engine after that transfer, and the arrivals of the next one: two
    exits, a tick, the first meta again, one chunk lost, one twice. *)
Definition demo_after : CloudEngine :=
  default engine_new (fst <$> RunEngine id demo_disk 128 demo_cloud_events engine_new).
Definition demo_sources : gmap GoString GoString :=
  <[makeExitSessionKey (str "0b02") 8 := str "0a01"]> (<[makeExitSessionKey (str "0c03") 8 := str "0a01"]> ∅).
Definition demo_arrivals : list (Z * Arrival) :=
  [(5001, ArTick); (5002, ArMeta (demo_meta 7))] ++
  map (fun q => (5100 + q, ArData (str "0b02") (fragment_chunk (demo_request q)) demo_sources)) [9; 0; 2; 1; 7] ++
  [(5200, ArTick); (5201, ArData (str "0b02") [8] ∅)] ++
  map (fun q => (5300 + q, ArData (str "0c03") (fragment_chunk (demo_request q)) demo_sources)) [4; 4; 6; 5; 8].

Lemma demo_arrivals_cover q : 0 <= q < 10 → q ≠ 3 →
  ∃ now exit sources r, (now, ArData exit (fragment_chunk r) sources) ∈ demo_arrivals ∧
    fg_session_id r = 8 ∧ fg_seq r = q ∧ sources !! makeExitSessionKey exit 8 = Some (str "0a01").
Proof.
  intros Hq H3. destruct (decide (q ∈ [9; 0; 2; 1; 7])) as [Hin | Hout].
  - exists (5100 + q), (str "0b02"), demo_sources, (demo_request q). split; [ | by split_and! ].
    unfold demo_arrivals. rewrite !elem_of_app. right. left. apply list_elem_of_fmap. by exists q.
  - exists (5300 + q), (str "0c03"), demo_sources, (demo_request q). split; [ | by split_and! ].
    unfold demo_arrivals. rewrite !elem_of_app. right. right. right. apply list_elem_of_fmap. exists q.
    split; [ done | ]. set_unfold. lia.
Qed.


(** ** What goes wrong *)

(** A transfer whose [Save] fails is announced as complete, so the exit tells
    the source that its file has arrived. *)
Lemma failed_save_announced :
  let disk k := mk_Disk true ∅ false in
  ∃ e out, RunEngine id disk 128 demo_cloud_events engine_new = Some (e, out) ∧
    saved_files out = [] ∧ OutSaveFailed (str "7") (str "0a01") demo_file ∈ out ∧
    OutComplete (str "7") ∈ out.
Proof.
  intros disk. destruct (RunEngine id disk 128 demo_cloud_events engine_new) as [[e out] | ] eqn:E.
  - exists e, out. split; [ done | ].
    assert ((fun x => (saved_files x.2, drop (length x.2 - 3) x.2)) <$>
        RunEngine id disk 128 demo_cloud_events engine_new =
      Some ([], [OutSaveFailed (str "7") (str "0a01") demo_file; OutComplete (str "7");
                 OutRecord (mk_Session (str "7") (str "0a01") (str "leaf.bin") 9 10 (ChecksumIEEE demo_file) 1
                              1002 2008 [str "0a01"]) 0])) as H by (vm_compute; reflexivity).
    rewrite E in H. injection H as Hs Hl. split; [ done | ].
    assert (∀ o, o ∈ drop (length out - 3) out → o ∈ out) as Hd.
    { intros o Ho. rewrite <- (take_drop (length out - 3) out). apply elem_of_app. by right. }
    rewrite Hl in Hd. split; apply Hd; [ apply list_elem_of_here | apply list_elem_of_further, list_elem_of_here ].
  - exfalso. assert (is_Some (RunEngine id disk 128 demo_cloud_events engine_new)) as [? H] by (vm_compute; eauto).
    congruence.
Qed.

(** Chunks of a transfer that a replay completes outlive it: the loop keeps
    those behind the completing one, after [completeTransfer] dropped them. *)
Lemma completed_chunks_survive :
  let file := [1; 2; 3; 4; 5; 6; 7] in
  let chunk q := mk_FileChunk (str "0a01") 7 q (default [] (session_payload file 1 q)) in
  let meta := mk_FileMeta (str "0a01") (str "7") (str "leaf.bin") 7 8 (ChecksumIEEE file) 1 in
  (fun x => (saved_files x.2, pendingChunks x.1, bool_decide (is_Some (qu_Active (en_tq x.1))))) <$>
    RunEngine id (fun _ => mk_Disk true ∅ true) 128 (map (fun q => (1000, EvFileChunk (chunk q))) [0; 1; 2; 3; 4; 5; 6; 7] ++
                   [(1001, EvMeta meta)]) engine_new
  = Some ([(str "0a01", str "0a01_leaf.bin", file)], [chunk 7], false).
Proof. vm_compute. reflexivity. Qed.

(** A fragment that overtakes its session's meta is taken for the exit's own:
    it is staged under a key no meta of a mesh transfer has. *)
Lemma early_chunk_is_lost exit node r :
  is_u16 (fg_session_id r) → is_u16 (fg_seq r) →
  ∃ c, onMessage_data exit (fragment_chunk r) ∅ = Some c ∧ ch_NodeID c = exit ∧
    (exit ≠ node → chunk_key c ≠ transferKey (fmt_int (fg_session_id r)) node).
Proof.
  intros Hs Hq. rewrite onMessage_fragment by done. rewrite lookup_empty. eexists. split; [ reflexivity | ].
  split; [ done | ]. cbn. intros Hne E. apply Hne. unfold chunk_key, transferKey, completedSessionKey in E.
  cbn in E. by apply app_inv_tail in E.
Qed.

(** The back-off of the stall requests shifts a 64-bit one by a count that only
    a new session resets: from the 63rd request on there is no cooldown. *)
Lemma stall_cooldown_vanishes n : 63 <= n → Z.min (4000 * shl1 n) 16000 <= 0.
Proof. intros Hn. unfold shl1. destruct (Z.ltb_spec n 63); [ lia | ]. destruct (n =? 63); lia. Qed.

(** The chunks of [publish_file], which carry no session, as the server reads
    them: the chunk number as the session, two bytes of the file as the number. *)
Lemma legacy_chunk_misread node sources seq b0 b1 rest :
  is_u16 seq → sources !! makeExitSessionKey node seq = None →
  onMessage_data node (le_bytes 2 seq ++ b0 :: b1 :: rest) sources =
  Some (mk_FileChunk node seq (b0 + 256 * (b1 + 256 * 0)) rest).
Proof.
  intros Hs Hsrc. unfold onMessage_data.
  destruct (Z.ltb_spec (Z.of_nat (length (le_bytes 2 seq ++ b0 :: b1 :: rest))) 4) as [Hlt | _].
  { rewrite length_app, length_le_bytes in Hlt. cbn [length] in Hlt. lia. }
  cbv zeta. rewrite (take_app_length' (le_bytes 2 _)), (drop_app_length' (le_bytes 2 _)) by done.
  rewrite le_value_bytes by (unfold is_u16 in *; cbn; lia). by rewrite Hsrc.
Qed.
