(* ===== verification/MqttAdmin.v ===== *)
(** * What the cloud publishes reaches the exit's queues

    The messages of cloud-admin's [internal/mqtt/client.go] (a JSON object's
    keys in alphabetical order, as [json.Marshal] writes a map) against
    [on_data]'s hand-written parsers. *)

From Stdlib Require Import ZArith Lia String.
From stdpp Require Import base list numbers option sets.
From S2P Require Import Prelude.
From S2P Require Import CString.
From S2P Require Import Packet.
From S2P Require Import Receiver.
From S2P Require Import TopicTable.
From S2P Require Import MqttClient.
Open Scope Z_scope.
Open Scope flp_scope.

(** ** The publisher's side (Go) *)

Fixpoint join_dec (seqs : list Z) : list Z :=
  match seqs with
  | [] => []
  | [s] => dec s
  | s :: seqs' => dec s ++ 44 :: join_dec seqs'
  end.

(** [PublishTransferNACK] *)
Definition transfer_nack_json (session_id : Z) (seqs : list Z) : list Z :=
  json_str "{'seqs':[" ++ join_dec seqs ++ json_str "],'session_id':'" ++ dec session_id ++
  json_str "'}".

(** [PublishACK] *)
Definition ack_json (nack : bool) (seq : Z) : list Z :=
  json_str "{'seq':" ++ dec seq ++
  json_str (if nack then ",'type':'NACK'}" else ",'type':'ACK'}").

Definition ack_topic (session_id : Z) : list Z := str "flp/admin/ack/" ++ dec session_id.

(** ** The parsers *)

Definition no_nul (bs : list Z) : Prop := Forall (fun b => b ≠ 0) bs.

Lemma dec_nonzero z : no_nul (dec z).
Proof. apply (Forall_impl (fun b => 48 <= b <= 57)); [ apply dec_no_nul | intros; lia ]. Qed.

Lemma length_dec z : (1 <= length (dec z) <= 10)%nat.
Proof.
  split; [ | pose proof (length_dec_digits 10 z []) as H; cbn [length] in H; unfold dec; lia ].
  unfold dec. destruct (dec_head 10 z [] ltac:(lia)) as (c & l & -> & _). cbn [length]. lia.
Qed.

Lemma topic_session_dec s : 0 <= s <= 65535 → topic_session (dec s) = Some s.
Proof.
  intros H. unfold topic_session. rewrite <- (app_nil_r (dec s)).
  rewrite strtol_dec by (try done; unfold LONG_MAX; lia).
  by replace ((s <? 0) || (s >? 65535)) with false by lia.
Qed.

Lemma own_session_dec m s : 0 < s <= 65535 → mq_session m = s → own_session (dec s) m = Some s.
Proof.
  intros H E. unfold own_session. rewrite topic_session_dec, E by lia.
  by replace ((s =? 0) || negb (s =? s)) with false by lia.
Qed.

Lemma buffered_short cap bs :
  no_nul bs → Z.of_nat (length bs) <= cap - 1 → buffered cap bs = bs.
Proof. intros Hn Hl. unfold buffered. rewrite take_ge by lia. by apply until_nul_id. Qed.

Lemma queue_seqs_full fuel sid p nacks :
  MQTT_NACK_QUEUE_DEPTH <= Z.of_nat (length nacks) → queue_seqs fuel sid p nacks = nacks.
Proof.
  intros Hl. revert p. induction fuel as [ | fuel IH ]; intros p; cbn [queue_seqs]; [ done | ].
  destruct p as [ | c p ]; [ done | ]. destruct (c =? 93); [ done | ].
  destruct (strtol10 (c :: p)) as [[v rest] | ]; [ | apply IH ].
  assert (E : (if (0 <=? v) && (v <=? 65535)
               then (xQueueSend MQTT_NACK_QUEUE_DEPTH (sid, v) nacks).2 else nacks) = nacks).
  { unfold xQueueSend. replace (Z.of_nat (length nacks) <? MQTT_NACK_QUEUE_DEPTH) with false by lia.
    by destruct (_ && _). }
  rewrite E. apply IH.
Qed.

(** One number of the list. *)
Lemma queue_seqs_step fuel sid s rest nacks :
  0 <= s <= 65535 → (∀ c, head rest = Some c → is_digit c = false) →
  queue_seqs (S fuel) sid (dec s ++ rest) nacks =
    queue_seqs fuel sid (match rest with 44 :: rest' => rest' | _ => rest end)
      (xQueueSend MQTT_NACK_QUEUE_DEPTH (sid, s) nacks).2.
Proof.
  intros Hs Hr. pose proof (strtol_dec s rest ltac:(unfold LONG_MAX; lia) Hr) as E.
  destruct (dec_head 10 s [] ltac:(lia)) as (c & l & Ed & Hc).
  unfold dec in *. rewrite Ed in *. cbn [app queue_seqs] in *.
  assert (c =? 93 = false) as -> by (unfold is_digit in Hc; lia).
  rewrite E. by replace ((0 <=? s) && (s <=? 65535)) with true by lia.
Qed.

Lemma xQueueSend_room {A} cap (x : A) q :
  Z.of_nat (length q) < cap → xQueueSend cap x q = (true, q ++ [x]).
Proof. intros H. unfold xQueueSend. by replace (_ <? cap) with true by lia. Qed.

(** The first numbers of a list cut after [n] bytes fill the queue before the
    cut can be reached. *)
Lemma queue_seqs_join fuel sid seqs tail n nacks :
  Forall (fun s => 0 <= s <= 65535) seqs →
  Z.of_nat (length nacks) <= MQTT_NACK_QUEUE_DEPTH →
  (11 * (16 - length nacks) <= n)%nat →
  (16 - length nacks < fuel)%nat →
  queue_seqs fuel sid (take n (join_dec seqs ++ 93 :: tail)) nacks =
    nacks ++ take (16 - length nacks) (map (fun s => (sid, s)) seqs).
Proof.
  intros Hs. revert fuel n nacks. induction Hs as [ | s seqs Hs Hss IH ];
    intros fuel n nacks Hl Hn Hf.
  - cbn [map]. rewrite take_nil, app_nil_r. cbn [join_dec app]. destruct fuel; [ done | ].
    by destruct n.
  - destruct fuel as [ | fuel ]; [ lia | ].
    unfold MQTT_NACK_QUEUE_DEPTH in Hl.
    destruct (decide (length nacks = 16%nat)) as [E | Hne].
    { rewrite queue_seqs_full by (unfold MQTT_NACK_QUEUE_DEPTH; lia).
      rewrite E. by rewrite Nat.sub_diag, app_nil_r. }
    pose proof (length_dec s) as Hd.
    assert (Hx : (xQueueSend MQTT_NACK_QUEUE_DEPTH (sid, s) nacks).2 = nacks ++ [(sid, s)]).
    { by rewrite xQueueSend_room by (unfold MQTT_NACK_QUEUE_DEPTH; lia). }
    replace (take (16 - length nacks) (map (fun s => (sid, s)) (s :: seqs)))
      with ((sid, s) :: take (15 - length nacks) (map (fun s => (sid, s)) seqs)).
    2: { replace (16 - length nacks)%nat with (S (15 - length nacks)) by lia. done. }
    change ((sid, s) :: take (15 - length nacks) (map (λ s, (sid, s)) seqs))
      with ([(sid, s)] ++ take (15 - length nacks) (map (λ s, (sid, s)) seqs)).
    rewrite app_assoc.
    assert (Hl' : length (nacks ++ [(sid, s)]) = S (length nacks))
      by (rewrite length_app; cbn [length]; lia).
    destruct seqs as [ | s' seqs ].
    + cbn [join_dec map take]. rewrite take_nil, app_nil_r. rewrite take_app_ge by lia.
      destruct (n - length (dec s))%nat as [ | k ] eqn:Ek; [ lia | ].
      cbn [take]. rewrite queue_seqs_step by (try done; by intros c [= <-]).
      rewrite Hx. destruct fuel; [ done | ]. done.
    + change (join_dec (s :: s' :: seqs)) with (dec s ++ 44 :: join_dec (s' :: seqs)).
      rewrite <- app_assoc, take_app_ge by lia.
      destruct (n - length (dec s))%nat as [ | k ] eqn:Ek; [ lia | ].
      cbn [take app]. rewrite queue_seqs_step by (try done; by intros c [= <-]).
      rewrite Hx, IH by (rewrite ?Hl'; unfold MQTT_NACK_QUEUE_DEPTH; lia).
      by rewrite Hl'.
Qed.

Lemma join_dec_nonzero seqs : no_nul (join_dec seqs).
Proof.
  induction seqs as [ | s [ | s' seqs ] IH ]; [ constructor | apply dec_nonzero | ].
  change (join_dec (s :: s' :: seqs)) with (dec s ++ 44 :: join_dec (s' :: seqs)).
  apply Forall_app. split; [ apply dec_nonzero | by constructor ].
Qed.

Lemma transfer_nack_json_nonzero sid seqs : no_nul (transfer_nack_json sid seqs).
Proof.
  unfold transfer_nack_json, no_nul.
  repeat (apply Forall_app; split); try apply join_dec_nonzero; try apply dec_nonzero;
    repeat constructor; done.
Qed.

Lemma update_nacks m f v :
  f (mq_nacks m) = v → m <| mq_nacks ::= f |> = m <| mq_nacks := v |>.
Proof. by intros <-. Qed.

(** The parser on the whole message, whatever its length. *)
Lemma on_transfer_nack_json sid s seqs m :
  Forall (fun s => 0 <= s <= 65535) seqs →
  Z.of_nat (length (mq_nacks m)) <= MQTT_NACK_QUEUE_DEPTH →
  on_transfer_nack sid (transfer_nack_json s seqs) m =
    m <| mq_nacks := mq_nacks m ++
           take (16 - length (mq_nacks m)) (map (fun q => (sid, q)) seqs) |>.
Proof.
  intros Hs Hl. unfold on_transfer_nack, buffered.
  rewrite until_nul_id by apply Forall_take, transfer_nack_json_nonzero.
  set (tail := json_str ",'session_id':'" ++ dec s ++ json_str "'}").
  set (body := join_dec seqs ++ 93 :: tail).
  assert (Et : take (Z.to_nat (512 - 1)) (transfer_nack_json s seqs) =
    123 :: json_str "'seqs':[" ++ take 502 body) by reflexivity.
  rewrite Et, strstr_skip by reflexivity.
  rewrite strstr_first by (apply prefix_of_spec; by eexists).
  change (drop 8 (json_str "'seqs':[" ++ take 502 body)) with (take 502 body).
  assert (Hlen : (16 < length (json_str "'seqs':[" ++ take 502 body))%nat).
  { rewrite length_app, length_take. unfold body, tail.
    rewrite !length_app. cbn [length]. rewrite !length_app.
    change (length (json_str "'seqs':[")) with 8%nat.
    change (length (json_str ",'session_id':'")) with 15%nat. lia. }
  set (fuel := length (json_str "'seqs':[" ++ take 502 body)).
  assert (Hq : queue_seqs fuel sid (take 502 body) (mq_nacks m) =
    mq_nacks m ++ take (16 - length (mq_nacks m)) (map (fun q => (sid, q)) seqs))
    by (apply queue_seqs_join; [ done | done | lia | lia ]).
  by apply update_nacks.
Qed.

Lemma topic_buffered (pre : list Z) s :
  no_nul pre → (length pre <= 100)%nat → buffered 128 (pre ++ dec s) = pre ++ dec s.
Proof.
  intros Hn Hl. pose proof (length_dec s). apply buffered_short.
  - apply Forall_app. split; [ done | apply dec_nonzero ].
  - rewrite length_app. lia.
Qed.

Lemma length_pos {A} (x : A) l : (Z.of_nat (length (x :: l)) >? 0) = true.
Proof. apply Z.gtb_lt. cbn [length]. lia. Qed.

Lemma not_cmd_topic (pre rest : list Z) :
  prefix_of pre (str "flp/admin/cmd") = false → pre ++ rest ≠ str "flp/admin/cmd".
Proof. intros H E. apply not_true_iff_false in H. apply H, prefix_of_spec. by exists rest. Qed.

(** C21: the cloud's retransmission request, whatever its length, puts exactly
    the listed fragments, in order and as many as there is room for, into the
    NACK queue of the exit that runs the session: the 511-byte buffer may cut
    the list, even within a number, but never before the queue of 16 is full. *)
Theorem transfer_nack_delivered {W} (h : MqttHost W) sid seqs m w :
  0 < sid <= 65535 → mq_session m = sid → Forall (fun s => 0 <= s <= 65535) seqs →
  Z.of_nat (length (mq_nacks m)) <= MQTT_NACK_QUEUE_DEPTH →
  on_data h (nack_topic sid) (Some (transfer_nack_json sid seqs)) m w =
    (m <| mq_nacks := mq_nacks m ++
            take (16 - length (mq_nacks m)) (map (fun q => (sid, q)) seqs) |>,
     rx_callback h (nack_topic sid) (Some (transfer_nack_json sid seqs)) w).
Proof.
  intros Hsid Hm Hs Hl. unfold on_data, nack_topic. cbv zeta.
  rewrite topic_buffered by (repeat constructor; done).
  rewrite bool_decide_false by by apply not_cmd_topic. cbn [andb].
  change (prefix_of (str "flp/admin/ack/") (str "flp/admin/transfer_nack/" ++ dec sid)) with false.
  cbn [andb].
  change (prefix_of (str "flp/admin/transfer_nack/") (str "flp/admin/transfer_nack/" ++ dec sid))
    with true.
  change (drop 24 (str "flp/admin/transfer_nack/" ++ dec sid)) with (dec sid).
  rewrite own_session_dec by done. cbn [andb].
  replace (Z.of_nat (length (transfer_nack_json sid seqs)) >? 0) with true.
  2: { symmetry. exact (length_pos 123 _). }
  change (default [] (Some (transfer_nack_json sid seqs))) with (transfer_nack_json sid seqs).
  by rewrite on_transfer_nack_json.
Qed.

Lemma transfer_nack_delivered_witness :
  mq_nacks (on_data (W := unit)
    (mk_mqtt_host (fun w _ _ _ => (0, w)) (fun w _ _ => w) (fun _ => 0) (fun _ => 0)
       (fun _ _ => 0) (fun w => w) None)
    (nack_topic 7) (Some (transfer_nack_json 7 [3; 65535])) (activate_transfer_session 7 (mqtt_init 1))
    tt).1 = [(7, 3); (7, 65535)].
Proof.
  rewrite (transfer_nack_delivered _ 7 [3; 65535]).
  - vm_compute. reflexivity.
  - lia.
  - vm_compute. reflexivity.
  - repeat constructor; lia.
  - vm_compute. discriminate.
Defined.

(** ** Acknowledgements *)

Lemma ack_json_nonzero nack s : no_nul (ack_json nack s).
Proof.
  unfold ack_json, no_nul. repeat (apply Forall_app; split); try apply dec_nonzero;
    destruct nack; repeat constructor; done.
Qed.

Lemma strstr_digits l rest needle :
  Forall (fun b => 48 <= b <= 57) l → (∃ c n, needle = c :: n ∧ c = 34) →
  strstr (l ++ rest) needle = strstr rest needle.
Proof.
  intros H (c & n & -> & ->). induction H as [ | b l Hb _ IH ]; [ done | ].
  cbn [app]. rewrite strstr_skip; [ done | ]. cbn [prefix_of].
  by replace (34 =? b) with false by lia.
Qed.

(** What [on_cloud_ack]'s searches find in the message. *)
Lemma ack_json_finds nack s :
  let j := ack_json nack s in
  strstr j (json_str "'seq':") =
    Some (json_str "'seq':" ++ dec s ++ json_str (if nack then ",'type':'NACK'}" else ",'type':'ACK'}")) ∧
  bool_decide (is_Some (strstr j (json_str "'ACK'"))) = negb nack ∧
  bool_decide (is_Some (strstr j (json_str "'NACK'"))) = nack.
Proof.
  cbv zeta. unfold ack_json.
  set (t := json_str (if nack then _ else _)).
  assert (Hd : ∀ needle, (∃ c n, needle = c :: n ∧ c = 34) →
    strstr (dec s ++ t) needle = strstr t needle).
  { intros needle H. apply strstr_digits; [ apply dec_no_nul | done ]. }
  assert (Hsk : ∀ needle, (∃ c n, needle = c :: n ∧ c = 34) →
    prefix_of needle (json_str "'seq':" ++ dec s ++ t) = false →
    prefix_of needle (json_str "':" ++ dec s ++ t) = false →
    strstr (json_str "{'seq':" ++ dec s ++ t) needle = strstr t needle).
  { intros needle (c & n & -> & ->) H1 H2. rewrite <- Hd by eauto.
    change (json_str "{'seq':" ++ dec s ++ t) with (123 :: 34 :: 115 :: 101 :: 113 :: 34 :: 58 :: dec s ++ t).
    rewrite strstr_skip by done. rewrite strstr_skip by exact H1.
    do 3 rewrite strstr_skip by done. rewrite strstr_skip by exact H2.
    by rewrite strstr_skip by done. }
  split_and!.
  - change (json_str "{'seq':" ++ dec s ++ t) with (123 :: json_str "'seq':" ++ dec s ++ t).
    rewrite strstr_skip by done. apply strstr_first, prefix_of_spec. by eexists.
  - rewrite Hsk by (try done; by eexists _, _). unfold t. by destruct nack.
  - rewrite Hsk by (try done; by eexists _, _). unfold t. by destruct nack.
Qed.

(** A per-fragment answer of the cloud reaches the queue of its kind: the
    number is read back, and a message is never taken for the other kind. *)
Theorem cloud_ack_delivered {W} (h : MqttHost W) sid nack s m w :
  0 < sid <= 65535 → mq_session m = sid → 0 <= s <= 65535 →
  on_data h (ack_topic sid) (Some (ack_json nack s)) m w =
    (if nack : bool
     then m <| mq_nacks := (xQueueSend MQTT_NACK_QUEUE_DEPTH (sid, s) (mq_nacks m)).2 |>
     else m <| mq_acks := (xQueueSend MQTT_ACK_QUEUE_DEPTH (sid, s) (mq_acks m)).2 |>,
     rx_callback h (ack_topic sid) (Some (ack_json nack s)) w).
Proof.
  intros Hsid Hm Hs. unfold on_data, ack_topic. cbv zeta.
  rewrite topic_buffered by (repeat constructor; done).
  rewrite bool_decide_false by by apply not_cmd_topic. cbn [andb].
  change (prefix_of (str "flp/admin/ack/") (str "flp/admin/ack/" ++ dec sid)) with true.
  change (drop 14 (str "flp/admin/ack/" ++ dec sid)) with (dec sid).
  rewrite own_session_dec by done. cbn [andb].
  replace (Z.of_nat (length (ack_json nack s)) >? 0) with true
    by (symmetry; exact (length_pos 123 _)).
  change (default [] (Some (ack_json nack s))) with (ack_json nack s).
  f_equal. unfold on_cloud_ack.
  rewrite buffered_short; [ | apply ack_json_nonzero | ].
  2: { unfold ack_json. rewrite !length_app. pose proof (length_dec s).
       change (length (json_str "{'seq':")) with 7%nat.
       assert (length (json_str (if nack then ",'type':'NACK'}" else ",'type':'ACK'}")) <= 20)%nat
         by (destruct nack; cbn; lia). lia. }
  destruct (ack_json_finds nack s) as (H1 & H2 & H3). rewrite H1, H2, H3.
  rewrite (drop_app_length' (json_str "'seq':")) by done.
  rewrite strtol_dec; [ | unfold LONG_MAX; lia | by destruct nack; intros c [= <-] ].
  replace ((s <? 0) || (s >? 65535)) with false by lia. by destruct nack.
Qed.

Lemma cloud_ack_delivered_witness :
  mq_acks (on_data (W := unit)
    (mk_mqtt_host (fun w _ _ _ => (0, w)) (fun w _ _ => w) (fun _ => 0) (fun _ => 0)
       (fun _ _ => 0) (fun w => w) None)
    (ack_topic 65535) (Some (ack_json false 60000))
    (activate_transfer_session 65535 (mqtt_init 1)) tt).1 = [(65535, 60000)].
Proof.
  rewrite (cloud_ack_delivered _ 65535 false 60000).
  - vm_compute. reflexivity.
  - lia.
  - vm_compute. reflexivity.
  - lia.
Defined.
