(* ===== verification/RouteTable.v ===== *)
(** * Neighbour and route table (components/mesh/include/route_table.hpp)

    The neighbours heard by a node, their internet routes (sequence-numbered
    as in DSDV), link quality and load, and the choice of the next hop. The
    array [neighbors_] with [count_] is the list of its live prefix; [now] is
    the millisecond clock. All accesses are made by the mesh task. *)

From Stdlib Require Import ZArith Lia.
From stdpp Require Import base list numbers option sets relations.
From S2P Require Import Prelude.
From S2P Require Import Packet.
Open Scope Z_scope.
Open Scope flp_scope.

(** RFC 1982 comparison of 16-bit serial numbers. *)
Definition seq_newer (a b : Z) : bool := i16 (a - b) >? 0.

Definition ROUTE_HOPS_UNKNOWN : Z := 255.
Definition ROUTE_RSSI_INVALID : Z := -127.
Definition ROUTE_FLAG_ESPNOW : Z := 1.
Definition ROUTE_FLAG_LORA : Z := 2.
Definition ROUTE_FLAG_INTERNET : Z := 4.
Definition kSerializedNeighborSize : Z := 7.
Definition kRouteHysteresisCycles : Z := 3.
Definition kMinRouteCostImprovement : Z := 50.
Definition LORA_ONLY_PENALTY : Z := 500.

Record NeighborEntry := mk_neighbor {
  ne_addr : Z;
  ne_rssi : Z;
  ne_hop_count : Z;
  ne_hops_inet : Z;             (* hops_to_internet *)
  ne_last_seen_ms : Z;
  ne_espnow : bool;             (* espnow_reachable *)
  ne_lora : bool;               (* lora_reachable *)
  ne_has_internet : bool;
  ne_inet_seq : Z;
  ne_inet_origin : Z;
  ne_tx_count : Z;
  ne_tx_success : Z;
  ne_etx_x100 : Z;
  ne_queue_load : Z;
  ne_early_stale_sent : bool
}.
#[export] Instance eta_NeighborEntry : Eta NeighborEntry := fun n =>
  mk_neighbor (ne_addr n) (ne_rssi n) (ne_hop_count n) (ne_hops_inet n) (ne_last_seen_ms n)
    (ne_espnow n) (ne_lora n) (ne_has_internet n) (ne_inet_seq n) (ne_inet_origin n)
    (ne_tx_count n) (ne_tx_success n) (ne_etx_x100 n) (ne_queue_load n) (ne_early_stale_sent n).

Record BetterRouteCandidate := mk_better {
  br_candidate_addr : Z;
  br_current_best_addr : Z;
  br_consecutive_cycles : Z
}.
Definition no_candidate : BetterRouteCandidate := mk_better 0 0 0.

Record RouteTable := mk_routes {
  rt_neighbors : list NeighborEntry;
  rt_better : BetterRouteCandidate
}.
#[export] Instance eta_RouteTable : Eta RouteTable := fun t =>
  mk_routes (rt_neighbors t) (rt_better t).

Definition routes_new : RouteTable := mk_routes [] no_candidate.
Definition get_count (t : RouteTable) : Z := Z.of_nat (length (rt_neighbors t)).

Definition has_addr (addr : Z) (n : NeighborEntry) : bool := ne_addr n =? addr.

(** ** Learning neighbours *)

Definition refresh (now rssi hops : Z) (espnow lora : bool) (hops_to_inet : Z)
    (n : NeighborEntry) : NeighborEntry :=
  let n := n <| ne_rssi := rssi |> <| ne_hop_count := hops |> <| ne_last_seen_ms := now |>
             <| ne_espnow := ne_espnow n || espnow |> <| ne_lora := ne_lora n || lora |>
             <| ne_early_stale_sent := false |> in
  if negb (hops_to_inet =? ROUTE_HOPS_UNKNOWN) then n <| ne_hops_inet := hops_to_inet |> else n.

Definition fresh_neighbor (now addr rssi hops : Z) (espnow lora : bool) (hops_to_inet : Z)
    : NeighborEntry :=
  mk_neighbor addr rssi hops hops_to_inet now espnow lora false 0 0 0 0 100 0 false.

(** The eviction scan: the first entry with the largest age. *)
Fixpoint oldest_scan (now i oldest_idx oldest_delta : Z) (l : list NeighborEntry) : Z :=
  match l with
  | [] => oldest_idx
  | n :: l' =>
      let delta := u32 (now - ne_last_seen_ms n) in
      if delta >? oldest_delta then oldest_scan now (i + 1) i delta l'
      else oldest_scan now (i + 1) oldest_idx oldest_delta l'
  end.

Definition update_neighbor (now addr rssi hops : Z) (espnow lora : bool) (hops_to_inet : Z)
    (t : RouteTable) : RouteTable :=
  match find_first (has_addr addr) (rt_neighbors t) with
  | Some _ =>
      t <| rt_neighbors ::=
             update_first (has_addr addr) (refresh now rssi hops espnow lora hops_to_inet) |>
  | None =>
      let entry := fresh_neighbor now addr rssi hops espnow lora hops_to_inet in
      if get_count t <? MAX_NEIGHBORS then t <| rt_neighbors ::= (λ l, l ++ [entry]) |>
      else
        let oldest_idx := oldest_scan now 0 0 0 (rt_neighbors t) in
        t <| rt_neighbors ::= (λ l, aset l oldest_idx entry) |>
  end.

(** The decision of [update_inet_route] for the matching entry. *)
Definition inet_update (hops_inet seq origin : Z) (n : NeighborEntry) : option NeighborEntry :=
  if (origin =? ne_inet_origin n) && seq_newer seq (ne_inet_seq n) then
    Some (n <| ne_hops_inet := hops_inet |> <| ne_inet_seq := seq |> <| ne_inet_origin := origin |>)
  else if (origin =? ne_inet_origin n) && (seq =? ne_inet_seq n) then
    if hops_inet <? ne_hops_inet n then Some (n <| ne_hops_inet := hops_inet |>) else None
  else if negb (origin =? ne_inet_origin n) then
    if seq_newer seq (ne_inet_seq n) || (hops_inet <? ne_hops_inet n) then
      Some (n <| ne_hops_inet := hops_inet |> <| ne_inet_seq := seq |> <| ne_inet_origin := origin |>)
    else None
  else None.

Definition update_inet_route (neighbor_addr hops_inet seq origin : Z) (t : RouteTable)
    : bool * RouteTable :=
  match find_first (has_addr neighbor_addr) (rt_neighbors t) with
  | None => (false, t)
  | Some n =>
      match inet_update hops_inet seq origin n with
      | None => (false, t)
      | Some n' =>
          (true, t <| rt_neighbors ::= update_first (has_addr neighbor_addr) (λ _, n') |>)
      end
  end.

(** ** Choosing the next hop *)

Definition route_cost (n : NeighborEntry) : Z :=
  let cost := u32 (ne_hops_inet n * 100 + ne_etx_x100 n + ne_queue_load n) in
  if ne_lora n && negb (ne_espnow n) then u32 (cost + LORA_ONLY_PENALTY) else cost.

(** A scan for the cheapest entry that passes [ok]. *)
Fixpoint cheapest (ok : NeighborEntry → bool) (best_addr best_cost : Z) (l : list NeighborEntry)
    : Z * Z :=
  match l with
  | [] => (best_addr, best_cost)
  | n :: l' =>
      if ok n && (route_cost n <? best_cost) then cheapest ok (ne_addr n) (route_cost n) l'
      else cheapest ok best_addr best_cost l'
  end.

Definition known_route (n : NeighborEntry) : bool := negb (ne_hops_inet n >=? ROUTE_HOPS_UNKNOWN).

Definition route_candidate (toward_internet : bool) (my_addr : Z) (n : NeighborEntry) : bool :=
  known_route n
  && negb (negb toward_internet && (ne_hops_inet n =? 0))
  && negb (toward_internet && negb (my_addr =? 0) && (ne_inet_origin n =? my_addr)).

Definition next_hop (dst_addr my_addr : Z) (t : RouteTable) : Z :=
  match find_first (has_addr dst_addr) (rt_neighbors t) with
  | Some _ => dst_addr
  | None =>
      let toward_internet := dst_addr =? EXIT_ANY_ADDR in
      let '(best_addr, best_cost) :=
        cheapest (route_candidate toward_internet my_addr) BROADCAST_ADDR UINT32_MAX
          (rt_neighbors t) in
      if (best_addr =? BROADCAST_ADDR) && negb toward_internet
      then (cheapest known_route best_addr best_cost (rt_neighbors t)).1
      else best_addr
  end.

(** ** Link statistics *)

Definition count_tx (success : bool) (n : NeighborEntry) : NeighborEntry :=
  let n := n <| ne_tx_count := u16 (ne_tx_count n + 1) |> in
  let n := if success then n <| ne_tx_success := u16 (ne_tx_success n + 1) |> else n in
  let succ := if ne_tx_success n >? 0 then ne_tx_success n else 1 in
  let n := n <| ne_etx_x100 := u16 (ne_tx_count n * 100 / succ) |> in
  if ne_etx_x100 n >? 1000 then n <| ne_etx_x100 := 1000 |> else n.

Definition report_link_tx (addr : Z) (success : bool) (t : RouteTable) : RouteTable :=
  t <| rt_neighbors ::= update_first (has_addr addr) (count_tx success) |>.

(** [detect_early_stale]: the entries to report, as passed to the callback. *)
Definition early_stale (early_ms now : Z) (n : NeighborEntry) : bool :=
  negb (ne_early_stale_sent n) && (u32 (now - ne_last_seen_ms n) >? early_ms).

Definition detect_early_stale (now early_ms : Z) (t : RouteTable)
    : list (Z * Z * Z) * RouteTable :=
  ((λ n, (ne_addr n, ne_inet_origin n, ne_inet_seq n))
     <$> List.filter (early_stale early_ms now) (rt_neighbors t),
   t <| rt_neighbors ::=
          fmap (λ n, if early_stale early_ms now n then n <| ne_early_stale_sent := true |> else n) |>).

Record InetRouteInfo := mk_inet { ir_hops : Z; ir_seq : Z; ir_origin : Z }.

Definition best_inet_route (t : RouteTable) : InetRouteInfo :=
  fold_left (λ best n, if ne_hops_inet n <? ir_hops best
                       then mk_inet (ne_hops_inet n) (ne_inet_seq n) (ne_inet_origin n) else best)
    (rt_neighbors t) (mk_inet ROUTE_HOPS_UNKNOWN 0 0).

Definition route_via (dead_addr : Z) (n : NeighborEntry) : bool :=
  has_addr dead_addr n && (ne_hops_inet n <? ROUTE_HOPS_UNKNOWN).

Definition invalidate_route_via (dead_addr : Z) (t : RouteTable) : bool * RouteTable :=
  (existsb (route_via dead_addr) (rt_neighbors t),
   t <| rt_neighbors ::=
          fmap (λ n, if route_via dead_addr n then n <| ne_hops_inet := ROUTE_HOPS_UNKNOWN |> else n) |>).

Definition get_espnow_neighbor_count (t : RouteTable) : Z :=
  u8 (count_if ne_espnow (rt_neighbors t)).

Definition oldest_contact_age_ms (now : Z) (t : RouteTable) : Z :=
  if get_count t =? 0 then UINT32_MAX
  else
    let newest := fold_left (λ newest n, if ne_last_seen_ms n >? newest then ne_last_seen_ms n
                                         else newest) (rt_neighbors t) 0 in
    u32 (now - newest).

Definition prune_stale (now max_age_ms : Z) (t : RouteTable) : RouteTable :=
  t <| rt_neighbors ::= List.filter (λ n, u32 (now - ne_last_seen_ms n) <=? max_age_ms) |>.

Definition get_neighbor (addr : Z) (t : RouteTable) : option NeighborEntry :=
  find_first (has_addr addr) (rt_neighbors t).

Definition has_internet_neighbor (t : RouteTable) : bool :=
  existsb ne_has_internet (rt_neighbors t).

Definition set_has_internet (addr : Z) (val : bool) (t : RouteTable) : RouteTable :=
  t <| rt_neighbors ::=
         update_first (has_addr addr)
           (λ n, let n := n <| ne_has_internet := val |> in
                 if val then n <| ne_hops_inet := 0 |> else n) |>.

Definition set_hops_to_internet (addr hops : Z) (t : RouteTable) : RouteTable :=
  t <| rt_neighbors ::= update_first (has_addr addr) (λ n, n <| ne_hops_inet := hops |>) |>.

Definition set_queue_load (addr load : Z) (t : RouteTable) : RouteTable :=
  t <| rt_neighbors ::= update_first (has_addr addr) (λ n, n <| ne_queue_load := load |>) |>.

(** ** Hysteresis *)

Definition alternative (current_best my_addr : Z) (n : NeighborEntry) : bool :=
  negb (has_addr current_best n) && known_route n
  && negb (negb (my_addr =? 0) && (ne_inet_origin n =? my_addr)).

Definition current_route_cost (current_best : Z) (t : RouteTable) : Z :=
  match find_first (λ n, has_addr current_best n && (ne_hops_inet n <? ROUTE_HOPS_UNKNOWN))
          (rt_neighbors t) with
  | Some n => route_cost n
  | None => UINT32_MAX
  end.

(** [(should_switch, new_addr)] and the table. *)
Definition check_better_route (current_best my_addr : Z) (t : RouteTable)
    : bool * Z * RouteTable :=
  let current_cost := current_route_cost current_best t in
  let '(alt_addr, alt_cost) :=
    cheapest (alternative current_best my_addr) 0 UINT32_MAX (rt_neighbors t) in
  if negb (alt_addr =? 0) && (current_cost >? alt_cost)
     && (u32 (current_cost - alt_cost) >=? kMinRouteCostImprovement)
  then
    let b := rt_better t in
    let b := if br_candidate_addr b =? alt_addr
             then mk_better (br_candidate_addr b) (br_current_best_addr b)
                    (u8 (br_consecutive_cycles b + 1))
             else mk_better alt_addr current_best 1 in
    if br_consecutive_cycles b >=? kRouteHysteresisCycles
    then (true, br_candidate_addr b, t <| rt_better := no_candidate |>)
    else (false, 0, t <| rt_better := b |>)
  else (false, 0, t <| rt_better := no_candidate |>).

(** ** Serialisation for the topology report *)

Definition neighbor_flags (n : NeighborEntry) : Z :=
  let flags := 0 in
  let flags := if ne_espnow n then Z.lor flags ROUTE_FLAG_ESPNOW else flags in
  let flags := if ne_lora n then Z.lor flags ROUTE_FLAG_LORA else flags in
  if ne_has_internet n then Z.lor flags ROUTE_FLAG_INTERNET else flags.

Definition serialize_neighbor (n : NeighborEntry) : list Z :=
  le_bytes 2 (ne_addr n) ++
  [u8 (ne_rssi n); ne_hop_count n; ne_hops_inet n; neighbor_flags n; ne_queue_load n].

(** The bytes written, or [None] when the buffer is too small. *)
Definition serialize (max_len : Z) (t : RouteTable) : option (list Z) :=
  let needed := 1 + get_count t * kSerializedNeighborSize in
  if needed >? max_len then None
  else Some (get_count t :: concat (serialize_neighbor <$> rt_neighbors t)).

(** ** Hop counts of the two planes *)

Definition min_hops (ok : NeighborEntry → bool) (t : RouteTable) : Z :=
  fold_left (λ best n, if ok n then if ne_hops_inet n <? best then ne_hops_inet n else best
                       else best) (rt_neighbors t) ROUTE_HOPS_UNKNOWN.

Definition control_route (n : NeighborEntry) : bool :=
  ne_has_internet n || (ne_hops_inet n <? ROUTE_HOPS_UNKNOWN).
Definition min_control_hops_to_internet (t : RouteTable) : Z := min_hops control_route t.
Definition min_data_hops_to_internet (t : RouteTable) : Z :=
  min_hops (λ n, control_route n && ne_espnow n) t.
Definition min_hops_to_internet (t : RouteTable) : Z := min_data_hops_to_internet t.

(** The parser of the cloud's topology aggregator
    (cloud-admin/internal/topology/topology.go, [Update]); the hexadecimal
    rendering of the address is left out. *)
Record GoNeighbor := mk_go {
  go_addr : Z; go_rssi : Z; go_hops : Z; go_hops_inet : Z;
  go_espnow : bool; go_lora : bool; go_has_internet : bool; go_queue_load : Z
}.

Fixpoint go_parse_entries (count : nat) (off : nat) (payload : list Z) : list GoNeighbor :=
  match count with
  | O => []
  | S count' =>
      if (length payload <? off + 7)%nat then []
      else
        let b k := byte_at payload (off + k) in
        let flags := b 5%nat in
        mk_go (b 0%nat + 256 * b 1%nat) (i8 (b 2%nat)) (b 3%nat) (b 4%nat)
          (negb (Z.land flags 1 =? 0)) (negb (Z.land flags 2 =? 0)) (negb (Z.land flags 4 =? 0))
          (b 6%nat)
        :: go_parse_entries count' (off + 7) payload
  end.

(** [None] is the early return on an empty payload. *)
Definition go_parse (payload : list Z) : option (list GoNeighbor) :=
  match payload with
  | [] => None
  | count :: _ => Some (go_parse_entries (Z.to_nat count) 1 payload)
  end.

(** ** The table invariant *)

Record neighbor_wf (n : NeighborEntry) : Prop := {
  nw_addr : is_u16 (ne_addr n);
  nw_rssi : is_i8 (ne_rssi n);
  nw_hop_count : is_u8 (ne_hop_count n);
  nw_hops_inet : is_u8 (ne_hops_inet n);
  nw_last_seen : is_u32 (ne_last_seen_ms n);
  nw_seq : is_u16 (ne_inet_seq n);
  nw_origin : is_u16 (ne_inet_origin n);
  nw_tx_count : is_u16 (ne_tx_count n);
  nw_tx_success : is_u16 (ne_tx_success n);
  nw_etx : 0 <= ne_etx_x100 n <= 1000;
  nw_load : is_u8 (ne_queue_load n)
}.

Record table_inv (t : RouteTable) : Prop := {
  ti_len : Z.of_nat (length (rt_neighbors t)) <= MAX_NEIGHBORS;
  ti_nodup : NoDup (map ne_addr (rt_neighbors t));
  ti_wf : Forall neighbor_wf (rt_neighbors t);
  ti_cycles : 0 <= br_consecutive_cycles (rt_better t) < kRouteHysteresisCycles
}.

Lemma has_addr_true a n : has_addr a n = true ↔ ne_addr n = a.
Proof. apply Z.eqb_eq. Qed.

Lemma get_neighbor_Some t a n :
  table_inv t → get_neighbor a t = Some n ↔ n ∈ rt_neighbors t ∧ ne_addr n = a.
Proof.
  intros Hinv. unfold get_neighbor. split.
  - intros [Hin Ha]%find_first_Some. by apply has_addr_true in Ha.
  - intros [Hin Ha]. destruct (find_first _ _) as [m | ] eqn:E.
    + apply find_first_Some in E as [Hm Ea]. apply has_addr_true in Ea.
      pose proof (ti_nodup _ Hinv) as Hnd. f_equal.
      apply list_elem_of_lookup in Hin as [i Hi], Hm as [j Hj].
      assert (i = j); [ | congruence ].
      eapply (NoDup_lookup _ _ _ a Hnd); rewrite lookup_map; [ rewrite Hi | rewrite Hj ]; cbn; congruence.
    + rewrite find_first_None in E. specialize (E n Hin). apply has_addr_true in Ha. congruence.
Qed.

Lemma Forall_update_first {A} (P : A → Prop) p f l :
  Forall P l → (∀ x, P x → p x = true → P (f x)) → Forall P (update_first p f l).
Proof.
  intros HP Hf. apply Forall_forall. intros x Hx. rewrite Forall_forall in HP.
  destruct (elem_of_update_first _ _ _ _ Hx) as [? | (y & Hy & Hp & ->)]; [ by apply HP | ].
  apply Hf; [ by apply HP | done ].
Qed.

(** Rewriting one entry without changing its address. *)
Lemma update_first_inv t a f :
  table_inv t → (∀ n, neighbor_wf n → neighbor_wf (f n) ∧ ne_addr (f n) = ne_addr n) →
  table_inv (t <| rt_neighbors ::= update_first (has_addr a) f |>).
Proof.
  intros [] Hf. split; cbn [rt_neighbors rt_better update_field].
  - by rewrite length_update_first.
  - (* the addresses stay *)
    replace (map ne_addr _) with (map ne_addr (rt_neighbors t)); [ done | ].
    clear ti_len0 ti_nodup0. induction ti_wf0 as [ | n l Hn _ IH ]; cbn; [ done | ].
    destruct (has_addr a n); cbn; [ by rewrite (proj2 (Hf n Hn)) | by rewrite IH ].
  - apply Forall_update_first; [ done | ]. intros n Hn _. by apply Hf.
  - done.
Qed.

(** Rewriting every entry without changing its address. *)
Lemma fmap_inv t f :
  table_inv t → (∀ n, neighbor_wf n → neighbor_wf (f n) ∧ ne_addr (f n) = ne_addr n) →
  table_inv (t <| rt_neighbors ::= fmap f |>).
Proof.
  intros [] Hf. split; cbn [rt_neighbors rt_better update_field].
  - by rewrite length_fmap.
  - replace (map ne_addr _) with (map ne_addr (rt_neighbors t)); [ done | ].
    clear ti_len0 ti_nodup0. induction ti_wf0 as [ | n l Hn _ IH ]; cbn; [ done | ].
    rewrite IH. by rewrite (proj2 (Hf n Hn)).
  - apply Forall_fmap. eapply Forall_impl; [ exact ti_wf0 | ]. intros n Hn. by apply Hf.
  - done.
Qed.

Lemma count_tx_wf s n : neighbor_wf n → neighbor_wf (count_tx s n) ∧ ne_addr (count_tx s n) = ne_addr n.
Proof.
  intros []. unfold count_tx. cbv zeta.
  set (n1 := if s then _ else _).
  assert (H1 : neighbor_wf n1 ∧ ne_addr n1 = ne_addr n).
  { unfold n1. destruct s; (split; [ split | done ]); cbn; done || int_lia. }
  clearbody n1. destruct H1 as [[] Ha].
  set (succ := if _ >? 0 then _ else _). clearbody succ.
  case_match eqn:E; (split; [ split | done ]); cbn in *; try done; unfold u16 in *; lia.
Qed.

Lemma oldest_scan_range now i best delta l :
  0 <= best < i → 0 <= oldest_scan now i best delta l < i + Z.of_nat (length l).
Proof.
  revert i best delta. induction l as [ | n l IH ]; intros i best delta Hb; cbn [oldest_scan length]; [ lia | ].
  case_match; [ specialize (IH (i + 1) i (u32 (now - ne_last_seen_ms n)))
              | specialize (IH (i + 1) best delta) ]; lia.
Qed.

Lemma oldest_scan_max now i best delta l full :
  (∃ pre, full = pre ++ l ∧ Z.of_nat (length pre) = i) → 0 <= best < Z.of_nat (length full) →
  0 <= delta →
  (∀ k n, full !! k = Some n → Z.of_nat k < i → u32 (now - ne_last_seen_ms n) <= delta) →
  (∃ n, full !! Z.to_nat best = Some n ∧ (delta = u32 (now - ne_last_seen_ms n) ∨ delta = 0)) →
  ∃ n, full !! Z.to_nat (oldest_scan now i best delta l) = Some n ∧
    ∀ m, m ∈ full → u32 (now - ne_last_seen_ms m) <= u32 (now - ne_last_seen_ms n).
Proof.
  revert i best delta. induction l as [ | x l IH ]; intros i best delta (pre & Hf & Hp) Hb Hd Hall (n & Hn & Hnd);
    cbn [oldest_scan].
  - exists n. split; [ done | ]. intros m [k Hk]%list_elem_of_lookup.
    assert (u32 (now - ne_last_seen_ms m) <= delta).
    { apply (Hall k); [ done | ]. apply lookup_lt_Some in Hk. rewrite Hf, app_nil_r in Hk. lia. }
    destruct Hnd as [<- | ->]; [ done | ]. pose proof (u32_range (now - ne_last_seen_ms n)). unfold is_u32 in *. lia.
  - assert (Hx : full !! Z.to_nat i = Some x).
    { rewrite Hf, lookup_app_r by lia. replace (Z.to_nat i - length pre)%nat with O by lia. done. }
    assert (Hpre : ∃ pre', full = pre' ++ l ∧ Z.of_nat (length pre') = i + 1).
    { exists (pre ++ [x]). rewrite <- app_assoc, length_app. cbn. split; [ done | lia ]. }
    assert (Hstep : ∀ k n0, full !! k = Some n0 → Z.of_nat k < i + 1 → Z.of_nat k < i ∨ n0 = x).
    { intros k n0 Hk Hlt. destruct (decide (Z.of_nat k < i)); [ by left | right ].
      replace k with (Z.to_nat i) in Hk by lia. congruence. }
    pose proof (u32_range (now - ne_last_seen_ms x)) as Hu. unfold is_u32 in Hu.
    pose proof (lookup_lt_Some _ _ _ Hx).
    destruct (u32 (now - ne_last_seen_ms x) >? delta) eqn:E; apply IH; try done; try lia.
    + intros k n0 Hk Hlt. destruct (Hstep k n0 Hk Hlt) as [Hk' | ->]; [ | lia ].
      specialize (Hall k n0 Hk Hk'). lia.
    + exists x. auto.
    + intros k n0 Hk Hlt. destruct (Hstep k n0 Hk Hlt) as [Hk' | ->]; [ by apply (Hall k) | lia ].
    + exists n. auto.
Qed.

Definition stalest (now : Z) (t : RouteTable) : Z := oldest_scan now 0 0 0 (rt_neighbors t).

Lemma stalest_spec now t :
  rt_neighbors t ≠ [] →
  ∃ n, rt_neighbors t !! Z.to_nat (stalest now t) = Some n ∧
    ∀ m, m ∈ rt_neighbors t → u32 (now - ne_last_seen_ms m) <= u32 (now - ne_last_seen_ms n).
Proof.
  intros Hne. destruct (rt_neighbors t) as [ | x l ] eqn:El; [ done | ].
  unfold stalest. rewrite El. apply oldest_scan_max.
  - by exists [].
  - cbn. lia.
  - done.
  - lia.
  - exists x. auto.
Qed.

Lemma refresh_addr now rssi hops e l h n : ne_addr (refresh now rssi hops e l h n) = ne_addr n.
Proof. unfold refresh. cbv zeta. by case_match. Qed.

Lemma refresh_wf now rssi hops e l h n :
  is_u32 now → is_i8 rssi → is_u8 hops → is_u8 h → neighbor_wf n →
  neighbor_wf (refresh now rssi hops e l h n).
Proof. intros ???? []. unfold refresh. cbv zeta. case_match; split; cbn; done. Qed.

Lemma fresh_wf now addr rssi hops e l h :
  is_u32 now → is_u16 addr → is_i8 rssi → is_u8 hops → is_u8 h →
  neighbor_wf (fresh_neighbor now addr rssi hops e l h).
Proof. intros. split; cbn; try done; int_lia. Qed.

Lemma not_in_addrs t a :
  find_first (has_addr a) (rt_neighbors t) = None → a ∉ map ne_addr (rt_neighbors t).
Proof.
  intros E Hin. apply list_elem_of_In, in_map_iff in Hin as (n & Ha & Hn).
  rewrite find_first_None in E. specialize (E n ltac:(by apply list_elem_of_In)).
  apply has_addr_true in Ha. congruence.
Qed.

Lemma update_neighbor_inv now addr rssi hops e l h t :
  table_inv t → is_u32 now → is_u16 addr → is_i8 rssi → is_u8 hops → is_u8 h →
  table_inv (update_neighbor now addr rssi hops e l h t).
Proof.
  intros Hinv Hnow Ha Hr Hh Hi. unfold update_neighbor.
  pose proof (fresh_wf now addr rssi hops e l h Hnow Ha Hr Hh Hi) as Hfresh.
  destruct (find_first _ _) as [n0 | ] eqn:E.
  { apply update_first_inv; [ done | ]. intros n Hn. split; [ by apply refresh_wf | apply refresh_addr ]. }
  pose proof (not_in_addrs t addr E) as Hnin. destruct Hinv as [Hlen Hnd Hwf Hcy].
  cbv zeta. unfold get_count. destruct (_ <? MAX_NEIGHBORS) eqn:Ec; split; cbn [rt_neighbors rt_better update_field]; try done.
  - rewrite length_app. cbn. lia.
  - rewrite map_app. cbn. apply NoDup_app. split; [ done | ]. split; [ | apply NoDup_singleton ].
    intros x Hx ->%list_elem_of_singleton. done.
  - apply Forall_app. split; [ done | by apply Forall_singleton ].
  - by rewrite length_aset.
  - unfold aset. rewrite list_fmap_insert. cbn. set (k := Z.to_nat _).
    apply NoDup_alt. intros i j x Hi' Hj'.
    apply list_lookup_insert_Some in Hi' as [(<- & <- & _) | (Hik & Hi')];
      apply list_lookup_insert_Some in Hj' as [(<- & Hx & _) | (Hjk & Hj')]; try done.
    + exfalso. apply Hnin. by eapply list_elem_of_lookup_2.
    + exfalso. apply Hnin. rewrite Hx. by eapply list_elem_of_lookup_2.
    + by eapply NoDup_lookup.
  - unfold aset. by apply Forall_insert.
Qed.

Lemma inet_update_wf h s o n n' :
  is_u8 h → is_u16 s → is_u16 o → inet_update h s o n = Some n' → neighbor_wf n →
  neighbor_wf n' ∧ ne_addr n' = ne_addr n.
Proof.
  intros Hh Hs Ho. unfold inet_update. intros H [].
  repeat case_match; simplify_eq; (split; [ split | ]); cbn; done.
Qed.

Lemma update_inet_route_inv a h s o t :
  table_inv t → is_u8 h → is_u16 s → is_u16 o → table_inv (update_inet_route a h s o t).2.
Proof.
  intros Hinv Hh Hs Ho. unfold update_inet_route.
  destruct (find_first _ _) as [n | ] eqn:E; [ | done ].
  destruct (inet_update h s o n) as [n' | ] eqn:Eu; [ | done ]. cbn [snd].
  pose proof E as [Hin Ha]%find_first_Some. apply has_addr_true in Ha.
  pose proof (ti_wf _ Hinv) as Hwf. rewrite Forall_forall in Hwf.
  destruct (inet_update_wf _ _ _ _ _ Hh Hs Ho Eu (Hwf n Hin)) as [Hn' Ha'].
  destruct Hinv as [Hlen Hnd Hw Hcy].
  split; cbn [rt_neighbors rt_better update_field]; [ by rewrite length_update_first | | | done ].
  - rewrite map_update_first; [ done | ]. intros x Hx. apply has_addr_true in Hx. congruence.
  - by apply Forall_update_first.
Qed.

Lemma check_better_inv c my t : table_inv t → table_inv (check_better_route c my t).2.
Proof.
  intros [Hlen Hnd Hwf Hcy]. unfold check_better_route. cbv zeta.
  destruct (cheapest _ _ _ _) as [aa ac]. unfold kRouteHysteresisCycles in *.
  destruct (_ && _); [ | split; cbn; try done; lia ].
  destruct (_ >=? 3) eqn:E; split; cbn [rt_neighbors rt_better update_field snd]; try done.
  revert E. case_match; cbn; intros E; (unfold kRouteHysteresisCycles; int_lia).
Qed.

Inductive route_op :=
  | RUpdate (now addr rssi hops : Z) (espnow lora : bool) (hops_inet : Z)
  | RInet (addr hops seq origin : Z)
  | RTx (addr : Z) (success : bool)
  | REarlyStale (now early : Z)
  | RInvalidate (addr : Z)
  | RPrune (now age : Z)
  | RSetInternet (addr : Z) (val : bool)
  | RSetHops (addr hops : Z)
  | RSetLoad (addr load : Z)
  | RCheckBetter (current my_addr : Z).

(** The arguments are of their C++ types. *)
Definition route_op_ok (o : route_op) : Prop :=
  match o with
  | RUpdate now addr rssi hops _ _ h => is_u32 now ∧ is_u16 addr ∧ is_i8 rssi ∧ is_u8 hops ∧ is_u8 h
  | RInet _ h s o => is_u8 h ∧ is_u16 s ∧ is_u16 o
  | RSetHops _ h | RSetLoad _ h => is_u8 h
  | _ => True
  end.

Definition run_route_op (o : route_op) (t : RouteTable) : RouteTable :=
  match o with
  | RUpdate now addr rssi hops e l h => update_neighbor now addr rssi hops e l h t
  | RInet a h s o => (update_inet_route a h s o t).2
  | RTx a s => report_link_tx a s t
  | REarlyStale now early => (detect_early_stale now early t).2
  | RInvalidate a => (invalidate_route_via a t).2
  | RPrune now age => prune_stale now age t
  | RSetInternet a v => set_has_internet a v t
  | RSetHops a h => set_hops_to_internet a h t
  | RSetLoad a l => set_queue_load a l t
  | RCheckBetter c my => (check_better_route c my t).2
  end.

Lemma prune_inv now age t : table_inv t → table_inv (prune_stale now age t).
Proof.
  intros [Hlen Hnd Hwf Hcy]. unfold prune_stale.
  set (p := λ n, u32 (now - ne_last_seen_ms n) <=? age).
  split; cbn [rt_neighbors rt_better update_field]; [ | | | done ].
  - pose proof (filter_length_le p (rt_neighbors t)). lia.
  - clear -Hnd. induction (rt_neighbors t) as [ | n l IH ]; cbn in *; [ done | ].
    apply NoDup_cons in Hnd as [Hn Hnd]. destruct (p n); cbn; [ | by apply IH ].
    constructor; [ | by apply IH ]. intros Hin. apply Hn.
    apply list_elem_of_In, in_map_iff in Hin as (m & Hm & Hf). apply filter_In in Hf as [Hf _].
    apply list_elem_of_In, in_map_iff. eauto.
  - rewrite Forall_forall in *. intros n Hn. apply Hwf. apply list_elem_of_In, filter_In in Hn as [? _].
    by apply list_elem_of_In.
Qed.

Lemma run_route_op_inv o t : route_op_ok o → table_inv t → table_inv (run_route_op o t).
Proof.
  destruct o; cbn [route_op_ok run_route_op]; intros Hok Hinv.
  - destruct Hok as (? & ? & ? & ? & ?). by apply update_neighbor_inv.
  - destruct Hok as (? & ? & ?). by apply update_inet_route_inv.
  - apply update_first_inv; [ done | ]. intros n Hn. by apply count_tx_wf.
  - apply fmap_inv; [ done | ]. intros n []. case_match; (split; [ by split | done ]).
  - apply fmap_inv; [ done | ]. intros n []. case_match; (split; [ split; cbn; done || int_lia | done ]).
  - by apply prune_inv.
  - apply update_first_inv; [ done | ]. intros n []. cbv zeta.
    case_match; (split; [ split; cbn; done || int_lia | done ]).
  - apply update_first_inv; [ done | ]. intros n []. split; [ by split | done ].
  - apply update_first_inv; [ done | ]. intros n []. split; [ by split | done ].
  - by apply check_better_inv.
Qed.

Lemma routes_new_inv : table_inv routes_new.
Proof. split; cbn; [ done | constructor | constructor | done ]. Qed.

Lemma run_route_ops_inv ops t :
  Forall route_op_ok ops → table_inv t → table_inv (fold_left (λ t o, run_route_op o t) ops t).
Proof.
  intros Hops. revert t. induction Hops as [ | o ops Ho _ IH ]; intros t Ht; [ done | ].
  cbn. by apply IH, run_route_op_inv.
Qed.

(** The table invariant. Whatever sequence of operations the mesh task
    performs on arguments of the C++ types, the table has at most 16
    entries with distinct addresses, every field fits its type, and the ETX
    is at most 10.00. *)
Theorem route_table_invariant ops :
  Forall route_op_ok ops → table_inv (fold_left (λ t o, run_route_op o t) ops routes_new).
Proof.
  intros Hops. by apply run_route_ops_inv, routes_new_inv.
Qed.

Definition demo_ops : list route_op :=
  [RUpdate 10 7 (-50) 1 true false 255; RInet 7 2 5 99; RUpdate 20 8 (-70) 1 false true 1; RTx 8 false].
Lemma demo_ops_ok : Forall route_op_ok demo_ops.
Proof. repeat constructor; int_lia. Qed.
Definition demo_table : RouteTable := fold_left (λ t o, run_route_op o t) demo_ops routes_new.

Lemma demo_table_inv : table_inv demo_table.
Proof. apply run_route_ops_inv; [ exact demo_ops_ok | exact routes_new_inv ]. Qed.

Lemma route_table_invariant_witness : Forall route_op_ok demo_ops ∧ table_inv demo_table.
Proof. split; [ exact demo_ops_ok | apply route_table_invariant; exact demo_ops_ok ]. Defined.

(** ** Learning and forgetting neighbours *)

Lemma find_first_app {A} (p : A → bool) l l' :
  find_first p (l ++ l') = match find_first p l with Some x => Some x | None => find_first p l' end.
Proof. induction l as [ | x l IH ]; cbn; [ done | ]. by destruct (p x). Qed.

Lemma find_first_update_other {A} (p q : A → bool) f l :
  (∀ x, q x = true → p x = false ∧ p (f x) = false) →
  find_first p (update_first q f l) = find_first p l.
Proof.
  intros H. induction l as [ | x l IH ]; cbn; [ done | ].
  destruct (q x) eqn:E; cbn; [ by destruct (H x E) as [-> ->] | by rewrite IH ].
Qed.

(** What replacing the entry at [k], of node [v], by one of node [addr] not in
    the table does to a lookup. *)
Lemma get_neighbor_replaced t t' k v f a :
  table_inv t → table_inv t' → rt_neighbors t' = <[k := f]> (rt_neighbors t) →
  rt_neighbors t !! k = Some v → ne_addr f ≠ a →
  get_neighbor a t' = if bool_decide (a = ne_addr v) then None else get_neighbor a t.
Proof.
  intros Hinv Hinv' Hl Hv Hne. pose proof (lookup_lt_Some _ _ _ Hv) as Hk.
  assert (Hget : ∀ n, get_neighbor a t' = Some n ↔ n ∈ <[k := f]> (rt_neighbors t) ∧ ne_addr n = a).
  { intros n. by rewrite (get_neighbor_Some _ a n Hinv'), Hl. }
  case_bool_decide as Hav.
  - apply eq_None_not_Some. intros [n Hn]. apply Hget in Hn as [Hin Hna].
    apply list_elem_of_lookup in Hin as [j Hj].
    apply list_lookup_insert_Some in Hj as [(<- & <- & _) | (Hjk & Hj)]; [ done | ].
    apply Hjk. symmetry. destruct Hinv as [_ Hnd _ _].
    eapply (NoDup_lookup _ _ _ (ne_addr v) Hnd); rewrite lookup_map; [ rewrite Hj | rewrite Hv ]; cbn; congruence.
  - apply option_eq. intros n. rewrite Hget, (get_neighbor_Some t) by done.
    rewrite !list_elem_of_lookup. split; intros [[j Hj] Hna]; (split; [ | done ]).
    + apply list_lookup_insert_Some in Hj as [(<- & <- & _) | (Hjk & Hj)]; [ done | by exists j ].
    + exists j. rewrite list_lookup_insert_ne; [ done | ]. intros ->. congruence.
Qed.

(** [update_neighbor] afterwards knows the neighbour with the values
    just heard, keeping the reachability flags of both radios, and every
    other neighbour is as before, except that a full table that did not
    know the address gives up exactly one: the one heard longest ago. *)
Theorem update_neighbor_correct now addr rssi hops e l h t :
  table_inv t → is_u32 now → is_u16 addr → is_i8 rssi → is_u8 hops → is_u8 h →
  let t' := update_neighbor now addr rssi hops e l h t in
  (∃ n, get_neighbor addr t' = Some n ∧ ne_rssi n = rssi ∧ ne_hop_count n = hops ∧
     ne_last_seen_ms n = now ∧ ne_early_stale_sent n = false ∧
     match get_neighbor addr t with
     | Some o => ne_espnow n = ne_espnow o || e ∧ ne_lora n = ne_lora o || l ∧
                 ne_etx_x100 n = ne_etx_x100 o ∧
                 ne_hops_inet n = if h =? ROUTE_HOPS_UNKNOWN then ne_hops_inet o else h
     | None => ne_espnow n = e ∧ ne_lora n = l ∧ ne_etx_x100 n = 100 ∧ ne_hops_inet n = h
     end) ∧
  (∀ a, a ≠ addr →
     get_neighbor a t' = get_neighbor a t ∨
     get_neighbor addr t = None ∧ get_count t = MAX_NEIGHBORS ∧ get_neighbor a t' = None ∧
     ∃ v, get_neighbor a t = Some v ∧
       ∀ m, m ∈ rt_neighbors t → u32 (now - ne_last_seen_ms m) <= u32 (now - ne_last_seen_ms v)).
Proof.
  intros Hinv Hnow Ha Hr Hh Hi t'.
  pose proof (update_neighbor_inv now addr rssi hops e l h t Hinv Hnow Ha Hr Hh Hi) as Hinv'.
  fold t' in Hinv'. revert Hinv'. unfold t', update_neighbor.
  change (find_first (has_addr addr) (rt_neighbors t)) with (get_neighbor addr t).
  set (r := refresh now rssi hops e l h). clear t'.
  destruct (get_neighbor addr t) as [o | ] eqn:E; unfold get_neighbor in E.
  - intros _. unfold get_neighbor. cbn [rt_neighbors update_field]. split.
    + rewrite find_first_update_first, E.
      2: { intros x Hx. apply has_addr_true. unfold r. rewrite refresh_addr. by apply has_addr_true. }
      exists (r o). cbn [fmap option_fmap option_map]. unfold r, refresh. cbv zeta.
      destruct (h =? ROUTE_HOPS_UNKNOWN); cbn; by repeat split.
    + intros a Hne. left. apply find_first_update_other. intros x Hx. apply has_addr_true in Hx.
      unfold has_addr, r. rewrite refresh_addr. lia.
  - cbv zeta. set (f := fresh_neighbor now addr rssi hops e l h). unfold get_count.
    assert (Hf : has_addr addr f = true) by (apply has_addr_true; done).
    destruct (_ <? MAX_NEIGHBORS) eqn:Ec; intros Hinv'.
    + unfold get_neighbor. cbn [rt_neighbors update_field]. split.
      * exists f. rewrite find_first_app, E. cbn [find_first]. by rewrite Hf.
      * intros a Hne. left. rewrite find_first_app. cbn [find_first].
        replace (has_addr a f) with false by (unfold has_addr; cbn; lia). by case_match.
    + assert (Hlen : Z.of_nat (length (rt_neighbors t)) = MAX_NEIGHBORS) by (destruct Hinv; lia).
      destruct (stalest_spec now t) as (v & Hv & Hmax); [ by intros Hnil; rewrite Hnil in Hlen | ].
      set (t' := t <| rt_neighbors ::= _ |>) in *.
      split.
      * exists f. split; [ | by repeat split ]. apply (get_neighbor_Some t'); [ done | split; [ | done ] ].
        apply list_elem_of_lookup. exists (Z.to_nat (stalest now t)).
        by apply list_lookup_insert_eq, (lookup_lt_Some _ _ v).
      * intros a Hne. rewrite (get_neighbor_replaced t t' _ v f a Hinv Hinv' eq_refl Hv) by done.
        case_bool_decide as Hav; [ right | by left ]. split_and!; try done.
        exists v. split; [ | done ]. apply (get_neighbor_Some t); [ done | ].
        split; [ by eapply list_elem_of_lookup_2 | done ].
Qed.

Lemma update_neighbor_correct_witness :
  table_inv demo_table ∧
  ∃ n, get_neighbor 7 (update_neighbor 30 7 (-40) 2 false true 255 demo_table) = Some n ∧ ne_rssi n = -40.
Proof.
  assert (Hinv : table_inv demo_table) by (exact demo_table_inv).
  split; [ exact Hinv | ].
  destruct (update_neighbor_correct 30 7 (-40) 2 false true 255 demo_table Hinv) as [(n & Hn & Hr & _) _];
    [ int_lia | int_lia | int_lia | int_lia | int_lia | ].
  exists n. split; [ exact Hn | exact Hr ].
Defined.

(** ** Next hop *)

(** [n] is among the entries of [l] that pass [ok] and none of them is cheaper. *)
Definition least_cost (ok : NeighborEntry → bool) (l : list NeighborEntry) (n : NeighborEntry) : Prop :=
  n ∈ l ∧ ok n = true ∧ ∀ m, m ∈ l → ok m = true → route_cost n <= route_cost m.

Lemma route_cost_bound n : neighbor_wf n → 0 <= route_cost n < UINT32_MAX.
Proof. intros []. unfold route_cost, LORA_ONLY_PENALTY. cbv zeta. case_match; int_lia. Qed.

Lemma cheapest_spec ok ba bc l :
  let '(a, c) := cheapest ok ba bc l in
  (a = ba ∧ c = bc ∧ ∀ m, m ∈ l → ok m = true → bc <= route_cost m) ∨
  (∃ n, least_cost ok l n ∧ a = ne_addr n ∧ c = route_cost n ∧ c < bc).
Proof.
  revert ba bc. induction l as [ | x l IH ]; intros ba bc; cbn [cheapest].
  { left. split_and!; [ done | done | ]. intros m Hm. by apply elem_of_nil in Hm. }
  destruct (ok x && (route_cost x <? bc)) eqn:E.
  - apply andb_true_iff in E as [Ho Hlt]. apply Z.ltb_lt in Hlt.
    specialize (IH (ne_addr x) (route_cost x)). destruct (cheapest _ _ _ l) as [a c].
    right. destruct IH as [(-> & -> & Hall) | (n & (Hin & Hon & Hmin) & -> & -> & Hlt')].
    + exists x. split_and!; try done. split; [ by left | ]. split; [ done | ].
      intros m [-> | Hm]%elem_of_cons Hom; [ done | by apply Hall ].
    + exists n. split_and!; try done; [ | lia ]. split; [ by right | ]. split; [ done | ].
      intros m [-> | Hm]%elem_of_cons Hom; [ lia | by apply Hmin ].
  - specialize (IH ba bc). destruct (cheapest _ _ _ l) as [a c].
    assert (Hx : ok x = true → bc <= route_cost x).
    { intros Hx. rewrite Hx in E. cbn in E. by apply Z.ltb_ge in E. }
    destruct IH as [(-> & -> & Hall) | (n & (Hin & Hon & Hmin) & -> & -> & Hlt')].
    + left. split_and!; try done. intros m [-> | Hm]%elem_of_cons Hom; [ by apply Hx | by apply Hall ].
    + right. exists n. split_and!; try done. split; [ by right | ]. split; [ done | ].
      intros m [-> | Hm]%elem_of_cons Hom; [ specialize (Hx Hom); lia | by apply Hmin ].
Qed.

(** From an unlimited budget the scan finds a cheapest entry if any passes. *)
Lemma cheapest_full ok l ba a c :
  Forall neighbor_wf l → cheapest ok ba UINT32_MAX l = (a, c) →
  (a = ba ∧ c = UINT32_MAX ∧ ∀ m, m ∈ l → ok m = false) ∨
  (∃ n, least_cost ok l n ∧ a = ne_addr n ∧ c = route_cost n).
Proof.
  intros Hwf E. pose proof (cheapest_spec ok ba UINT32_MAX l) as H. rewrite E in H.
  destruct H as [(-> & -> & H) | (n & ? & ? & ? & _)]; [ left | right; eauto ].
  split_and!; try done. intros m Hm. destruct (ok m) eqn:Eo; [ | done ].
  rewrite Forall_forall in Hwf. pose proof (route_cost_bound m (Hwf m Hm)). specialize (H m Hm Eo). lia.
Qed.

(** C33: [next_hop] is optimal. A direct neighbour is its own next hop.
    Otherwise the result is a neighbour with a known route of least composite
    cost (hops, ETX, load, LoRa-only penalty): toward the internet among
    those whose route does not come from this node, toward a node among those
    that are not themselves exits, or among all when every one is an exit;
    and it is the broadcast address exactly when there is none. *)
Theorem next_hop_optimal dst my t :
  table_inv t → (∀ n, n ∈ rt_neighbors t → ne_addr n ≠ BROADCAST_ADDR) →
  let r := next_hop dst my t in
  let known n := ne_hops_inet n <? ROUTE_HOPS_UNKNOWN in
  let inet n := known n && ((my =? 0) || negb (ne_inet_origin n =? my)) in
  let relay n := known n && negb (ne_hops_inet n =? 0) in
  let chosen ok := ∃ n, least_cost ok (rt_neighbors t) n ∧ r = ne_addr n in
  let none ok := ∀ n, n ∈ rt_neighbors t → ok n = false in
  (is_Some (get_neighbor dst t) → r = dst) ∧
  (get_neighbor dst t = None → dst = EXIT_ANY_ADDR → chosen inet ∨ none inet ∧ r = BROADCAST_ADDR) ∧
  (get_neighbor dst t = None → dst ≠ EXIT_ANY_ADDR →
     chosen relay ∨ none relay ∧ chosen known ∨ none known ∧ r = BROADCAST_ADDR).
Proof.
  intros Hinv Hnb r known inet relay chosen none.
  assert (Hext : ∀ ok ok' n, (∀ m, ok m = ok' m) → least_cost ok (rt_neighbors t) n →
            least_cost ok' (rt_neighbors t) n).
  { intros ok ok' n He (? & ? & Hm). split; [ done | ]. rewrite <- He. split; [ done | ].
    intros m. rewrite <- He. apply Hm. }
  assert (Hk : ∀ n, known_route n = known n).
  { intros n. unfold known_route, known. rewrite Z.geb_leb, Z.leb_antisym. by rewrite negb_involutive. }
  assert (Hr : r = next_hop dst my t) by done. clearbody r. revert Hr. unfold next_hop.
  change (find_first (has_addr dst) (rt_neighbors t)) with (get_neighbor dst t).
  intros Hr. split_and!; [ intros [x Hx]; by rewrite Hx in Hr | intros Hx ->; rewrite Hx in Hr | intros Hx Hd; rewrite Hx in Hr ].
  - rewrite Z.eqb_refl in Hr. destruct (cheapest _ _ _ _) as [a c] eqn:E. rewrite andb_false_r in Hr.
    assert (Hc : ∀ n, route_candidate true my n = inet n).
    { intros n. unfold route_candidate, inet. rewrite Hk. cbn. destruct (known n); [ | done ].
      cbn. by destruct (my =? 0), (_ =? my). }
    apply cheapest_full in E as [(-> & _ & Hnone) | (n & Hn & -> & _)]; [ | | apply Hinv ].
    + right. split; [ | done ]. intros n Hin. rewrite <- Hc. by apply Hnone.
    + left. exists n. split; [ by eapply Hext | done ].
  - apply Z.eqb_neq in Hd. rewrite Hd in Hr. destruct (cheapest _ _ _ _) as [a c] eqn:E. cbn [negb] in Hr.
    rewrite andb_true_r in Hr.
    assert (Hc : ∀ n, route_candidate false my n = relay n).
    { intros n. unfold route_candidate, relay. rewrite Hk. cbn. by rewrite andb_true_r. }
    apply cheapest_full in E as [(-> & -> & Hnone) | (n & Hn & -> & _)]; [ | | apply Hinv ].
    + rewrite Z.eqb_refl in Hr. right. destruct (cheapest known_route _ _ _) as [a c] eqn:E.
      apply cheapest_full in E as [(-> & _ & Hno) | (n & Hn & -> & _)]; [ right | left | apply Hinv ].
      * split; [ | done ]. intros n Hin. rewrite <- Hk. by apply Hno.
      * split; [ intros m Hm; rewrite <- Hc; by apply Hnone | ].
        exists n. split; [ by eapply Hext | done ].
    + left. exists n. split; [ by eapply Hext | ].
      destruct Hn as (Hin & _ & _). specialize (Hnb n Hin). apply Z.eqb_neq in Hnb. by rewrite Hnb in Hr.
Qed.

Lemma next_hop_optimal_witness : next_hop EXIT_ANY_ADDR 0 demo_table = 7.
Proof.
  destruct (next_hop_optimal EXIT_ANY_ADDR 0 demo_table demo_table_inv) as (_ & H & _).
  { intros n Hn. vm_compute in Hn. repeat (apply elem_of_cons in Hn as [-> | Hn]; [ vm_compute; discriminate | ]).
    by apply elem_of_nil in Hn. }
  vm_compute. reflexivity.
Defined.

(** ** Sequence-numbered routes *)

(** A route advertisement with its serial number unwrapped. *)
Definition fresher (a b : Z * Z) : Prop :=   (* (serial, hops) *)
  b.1 < a.1 ∨ a.1 = b.1 ∧ a.2 <= b.2.

Definition feed_inet (addr origin : Z) (ads : list (Z * Z)) (t : RouteTable) : RouteTable :=
  fold_left (λ t ad, (update_inet_route addr ad.2 (u16 ad.1) origin t).2) ads t.

Lemma update_inet_route_entry addr h s o t n :
  table_inv t → get_neighbor addr t = Some n → is_u8 h → is_u16 s → is_u16 o →
  table_inv (update_inet_route addr h s o t).2 ∧
  get_neighbor addr (update_inet_route addr h s o t).2 = Some (default n (inet_update h s o n)) ∧
  ∀ a, a ≠ addr → get_neighbor a (update_inet_route addr h s o t).2 = get_neighbor a t.
Proof.
  intros Hinv Hn Hh Hs Ho. split; [ by apply update_inet_route_inv | ].
  unfold update_inet_route. change (find_first (has_addr addr) (rt_neighbors t)) with (get_neighbor addr t).
  rewrite Hn. destruct (inet_update h s o n) as [n' | ] eqn:E; [ | done ]. cbn [snd default from_option id].
  apply get_neighbor_Some in Hn as [Hin Ha]; [ | done ].
  pose proof (ti_wf _ Hinv) as Hwf. rewrite Forall_forall in Hwf.
  destruct (inet_update_wf _ _ _ _ _ Hh Hs Ho E (Hwf n Hin)) as [_ Ha'].
  unfold get_neighbor. cbn [rt_neighbors update_field]. split.
  - rewrite find_first_update_first by (intros; apply has_addr_true; congruence).
    replace (find_first (has_addr addr) (rt_neighbors t)) with (Some n); [ done | ].
    symmetry. by apply (get_neighbor_Some t).
  - intros a Hne. apply find_first_update_other. intros x Hx. apply has_addr_true in Hx.
    unfold has_addr. split; lia.
Qed.

(** C34: sequence-numbered routes converge. Feed a neighbour's entry any
    advertisements of one exit node whose serial numbers lie within half the
    serial space, in any order, wrapping or not: the entry ends with the
    greatest serial number and, among the advertisements that carry it, the
    least hop count. The other neighbours' entries do not change. *)
Theorem inet_route_converges addr origin base ads t n s0 :
  table_inv t → get_neighbor addr t = Some n → ne_inet_origin n = origin → is_u16 origin →
  ne_inet_seq n = u16 s0 → base <= s0 < base + 32768 →
  Forall (λ ad, base <= ad.1 < base + 32768 ∧ is_u8 ad.2) ads →
  ∃ best n', best ∈ (s0, ne_hops_inet n) :: ads ∧
    (∀ ad, ad ∈ (s0, ne_hops_inet n) :: ads → fresher best ad) ∧
    get_neighbor addr (feed_inet addr origin ads t) = Some n' ∧
    ne_inet_seq n' = u16 best.1 ∧ ne_hops_inet n' = best.2 ∧ ne_inet_origin n' = origin ∧
    ∀ a, a ≠ addr → get_neighbor a (feed_inet addr origin ads t) = get_neighbor a t.
Proof.
  intros Hinv Hn Horg Ho Hs Hr Hads. revert t n s0 Hinv Hn Horg Hs Hr.
  induction Hads as [ | [s h] ads [Hsr Hh] _ IH ]; intros t n s0 Hinv Hn Horg Hs Hr.
  { exists (s0, ne_hops_inet n), n. split; [ by left | ]. split; [ | done ].
    intros ad [-> | Hin]%elem_of_cons; [ right; cbn; lia | by apply elem_of_nil in Hin ]. }
  cbn [fst snd] in *.
  destruct (update_inet_route_entry addr h (u16 s) origin t n Hinv Hn Hh (u16_range s) Ho)
    as (Hinv1 & Hn1 & Hother).
  assert (Hcase : let n1 := default n (inet_update h (u16 s) origin n) in
     ne_inet_origin n1 = origin ∧
     ((s0 < s ∨ s = s0 ∧ h < ne_hops_inet n) ∧ ne_inet_seq n1 = u16 s ∧ ne_hops_inet n1 = h ∨
      (s < s0 ∨ s = s0 ∧ ne_hops_inet n <= h) ∧ n1 = n)).
  { unfold inet_update. rewrite Horg, Z.eqb_refl, Hs. cbn [negb andb]. unfold seq_newer.
    replace (i16 (u16 s - u16 s0) >? 0) with (s >? s0) by int_lia.
    replace (u16 s =? u16 s0) with (s =? s0) by int_lia.
    destruct (s >? s0) eqn:E1; [ cbn; split; [ done | left; split; [ lia | done ] ] | ].
    destruct (s =? s0) eqn:E2; [ | cbn; split; [ done | right; split; [ lia | done ] ] ].
    destruct (h <? ne_hops_inet n) eqn:E3; cbn; (split; [ done | ]);
      [ left; split; [ lia | split; [ rewrite Hs; int_lia | done ] ] | right; split; [ lia | done ] ]. }
  set (n1 := default n _) in *. destruct Hcase as [Horg1 Hcase].
  assert (Hw : ∃ w, (w = (s, h) ∨ w = (s0, ne_hops_inet n)) ∧ fresher w (s, h) ∧
     fresher w (s0, ne_hops_inet n) ∧ ne_inet_seq n1 = u16 w.1 ∧ ne_hops_inet n1 = w.2).
  { unfold fresher. destruct Hcase as [(Hc & E1 & E2) | (Hc & ->)];
      [ exists (s, h) | exists (s0, ne_hops_inet n) ]; cbn; split_and!; auto; lia. }
  destruct Hw as ([ws wh] & Hw & Hf1 & Hf2 & E1 & E2). cbn [fst snd] in *.
  destruct (IH _ n1 ws Hinv1 Hn1 Horg1 E1) as (best & n' & Hin & Hall & Hget & Hbs & Hbh & Hbo & Hoth).
  { destruct Hw as [[= -> ->] | [= -> ->]]; lia. }
  rewrite E2 in *.
  exists best, n'. split; [ | split ].
  - apply elem_of_cons in Hin as [-> | Hin]; [ destruct Hw as [-> | ->] | ]; rewrite !elem_of_cons; auto.
  - pose proof (Hall (ws, wh) ltac:(by left)) as Hbw.
    intros ad [-> | [-> | Had]%elem_of_cons]%elem_of_cons; [ | | by apply Hall; right ];
      unfold fresher in *; cbn [fst snd] in *; lia.
  - split_and!; try done. intros a Ha. cbn [feed_inet fold_left]. unfold feed_inet in Hoth.
    rewrite Hoth by done. by apply Hother.
Qed.

Lemma inet_route_converges_witness :
  ∃ n', get_neighbor 7 (feed_inet 7 99 [(6, 4); (5, 1); (6, 3); (4, 0)] demo_table) = Some n' ∧ ne_hops_inet n' = 3.
Proof.
  destruct (get_neighbor 7 demo_table) as [n | ] eqn:En; [ | vm_compute in En; discriminate ].
  destruct (inet_route_converges 7 99 0 [(6, 4); (5, 1); (6, 3); (4, 0)] demo_table n 5 demo_table_inv En)
    as (best & n' & _ & _ & Hget & _ & _ & _ & _);
    [ vm_compute in En; injection En as <-; reflexivity | int_lia | vm_compute in En; injection En as <-; reflexivity | lia
    | repeat constructor; cbn; int_lia | ].
  exists n'. split; [ exact Hget | ]. vm_compute in Hget. injection Hget as <-. reflexivity.
Defined.

(** ** Hysteresis *)

(** A discovery cycle as [check_better_route] sees it. *)
Record Cycle := mk_cycle { cy_current : Z; cy_my_addr : Z; cy_neighbors : list NeighborEntry }.

(** The alternative that beats the current next hop by a margin, if any. *)
Definition clear_gain (c : Cycle) (a : Z) : Prop :=
  ∃ n, least_cost (alternative (cy_current c) (cy_my_addr c)) (cy_neighbors c) n ∧
    ne_addr n = a ∧ a ≠ 0 ∧
    route_cost n + kMinRouteCostImprovement
      <= current_route_cost (cy_current c) (mk_routes (cy_neighbors c) no_candidate).

Fixpoint hysteresis_run (cycles : list Cycle) (b : BetterRouteCandidate)
    : list (bool * Z) * BetterRouteCandidate :=
  match cycles with
  | [] => ([], b)
  | c :: cs =>
      let '(sw, a, t) := check_better_route (cy_current c) (cy_my_addr c) (mk_routes (cy_neighbors c) b) in
      let '(outs, b') := hysteresis_run cs (rt_better t) in
      ((sw, a) :: outs, b')
  end.

Lemma current_cost_bound c t :
  Forall neighbor_wf (rt_neighbors t) → 0 <= current_route_cost c t <= UINT32_MAX.
Proof.
  intros Hwf. unfold current_route_cost. destruct (find_first _ _) as [n | ] eqn:E; [ | int_lia ].
  apply find_first_Some in E as [Hin _]. rewrite Forall_forall in Hwf.
  pose proof (route_cost_bound n (Hwf n Hin)). lia.
Qed.

Definition cycle_ok (c : Cycle) : Prop :=
  Forall neighbor_wf (cy_neighbors c) ∧ ∀ n, n ∈ cy_neighbors c → ne_addr n ≠ 0.

(** One call: which alternative, if any, it counts. *)
Lemma check_better_cases c b :
  cycle_ok c →
  (∃ a, clear_gain c a ∧
     check_better_route (cy_current c) (cy_my_addr c) (mk_routes (cy_neighbors c) b) =
       let n := if br_candidate_addr b =? a then u8 (br_consecutive_cycles b + 1) else 1 in
       if n >=? kRouteHysteresisCycles
       then (true, a, mk_routes (cy_neighbors c) no_candidate)
       else (false, 0, mk_routes (cy_neighbors c)
               (mk_better a (if br_candidate_addr b =? a then br_current_best_addr b
                             else cy_current c) n))) ∨
  ((∀ a, ¬ clear_gain c a) ∧
   check_better_route (cy_current c) (cy_my_addr c) (mk_routes (cy_neighbors c) b) =
     (false, 0, mk_routes (cy_neighbors c) no_candidate)).
Proof.
  intros [Hwf Hnz]. unfold check_better_route. cbn [rt_neighbors rt_better]. cbv zeta.
  destruct (cheapest _ _ _ _) as [aa ac] eqn:E.
  change (current_route_cost _ (mk_routes (cy_neighbors c) b)) with
    (current_route_cost (cy_current c) (mk_routes (cy_neighbors c) no_candidate)).
  pose proof (current_cost_bound (cy_current c) (mk_routes (cy_neighbors c) no_candidate) Hwf) as Hcc.
  unfold clear_gain. set (cc := current_route_cost _ _) in *. unfold kMinRouteCostImprovement.
  apply cheapest_full in E as [(-> & -> & Hno) | (n & Hn & -> & ->)]; [ | | done ].
  { right. split; [ | done ]. intros a (n & (Hin & Hok & _) & _). by rewrite Hno in Hok. }
  assert (Hbn : 0 <= route_cost n < UINT32_MAX).
  { apply route_cost_bound. rewrite Forall_forall in Hwf. by apply Hwf, Hn. }
  destruct (_ && _) eqn:Eg.
  - left. exists (ne_addr n). split; [ exists n; split_and!; try done; int_lia | ].
    destruct (br_candidate_addr b =? ne_addr n) eqn:Ec; [ apply Z.eqb_eq in Ec | ];
      cbn [br_consecutive_cycles br_candidate_addr]; [ rewrite Ec | ]; by case_match.
  - right. split; [ | done ]. intros a (m & (Hin & Hok & Hm) & Ha & Hne & Hle).
    destruct Hn as (Hnin & Hnok & Hmin). specialize (Hmin m Hin Hok). specialize (Hnz n Hnin). int_lia.
Qed.

(** The counter is the number of latest cycles in a row that counted the
    candidate. *)
Definition counted (past : list Cycle) (b : BetterRouteCandidate) : Prop :=
  0 <= br_consecutive_cycles b < kRouteHysteresisCycles ∧
  ∃ old recent, past = old ++ recent ∧ Z.of_nat (length recent) = br_consecutive_cycles b ∧
    Forall (λ c, clear_gain c (br_candidate_addr b)) recent.

Lemma counted_none past : counted past no_candidate.
Proof. split; [ done | ]. exists past, []. by rewrite app_nil_r. Qed.

Lemma hysteresis_step past b c :
  cycle_ok c → counted past b →
  let '(sw, a, t) := check_better_route (cy_current c) (cy_my_addr c) (mk_routes (cy_neighbors c) b) in
  counted (past ++ [c]) (rt_better t) ∧
  (sw = true → ∃ old recent, past ++ [c] = old ++ recent ∧
     Z.of_nat (length recent) = kRouteHysteresisCycles ∧ Forall (λ x, clear_gain x a) recent).
Proof.
  intros Hc [Hr (old & recent & -> & Hlen & Hall)]. unfold kRouteHysteresisCycles in *.
  destruct (check_better_cases c b Hc) as [(a & Hg & ->) | (_ & ->)].
  2: { split; [ apply counted_none | done ]. }
  cbv zeta. destruct (br_candidate_addr b =? a) eqn:Ea.
  - apply Z.eqb_eq in Ea. subst a. rewrite u8_small by int_lia.
    assert (Hrec : Forall (λ x, clear_gain x (br_candidate_addr b)) (recent ++ [c])).
    { apply Forall_app. split; [ done | by apply Forall_singleton ]. }
    destruct (_ >=? _) eqn:E3.
    + split; [ apply counted_none | ]. intros _. exists old, (recent ++ [c]).
      rewrite length_app, app_assoc. cbn. split_and!; [ done | unfold kRouteHysteresisCycles in *; lia | done ].
    + split; [ | done ]. unfold counted, kRouteHysteresisCycles in *. cbn. split; [ lia | ].
      exists old, (recent ++ [c]). rewrite length_app, app_assoc. cbn. split_and!; [ done | lia | done ].
  - change (1 >=? kRouteHysteresisCycles) with false. cbv iota. split; [ | done ].
    split; [ cbn; done | ]. exists (old ++ recent), [c]. cbn. split_and!; [ done | done | by apply Forall_singleton ].
Qed.

(** No route flapping. Whatever the tables look like from one discovery
    cycle to the next, [check_better_route] proposes to switch to [a] only
    if in this cycle and the two before it [a] was a cheapest usable
    alternative, cheaper than the current next hop by at least 50. *)
Theorem route_hysteresis past c b outs :
  Forall cycle_ok (past ++ [c]) → hysteresis_run past no_candidate = (outs, b) →
  let '(sw, a, _) := check_better_route (cy_current c) (cy_my_addr c) (mk_routes (cy_neighbors c) b) in
  sw = true →
  ∃ old c1 c2, past = old ++ [c1; c2] ∧ clear_gain c1 a ∧ clear_gain c2 a ∧ clear_gain c a.
Proof.
  intros Hok Hrun. apply Forall_app in Hok as [Hpast Hc].
  rewrite Forall_singleton in Hc.
  assert (H : ∀ cs pre b0, Forall cycle_ok cs → counted pre b0 →
     counted (pre ++ cs) (hysteresis_run cs b0).2).
  { induction cs as [ | x cs IH ]; intros pre b0 Hcs Hb0; [ by rewrite app_nil_r | ].
    apply Forall_cons in Hcs as [Hx Hcs]. cbn [hysteresis_run].
    pose proof (hysteresis_step pre b0 x Hx Hb0) as Hstep.
    destruct (check_better_route _ _ _) as [[sw a] t]. destruct Hstep as [Hct _].
    specialize (IH (pre ++ [x]) (rt_better t) Hcs Hct). destruct (hysteresis_run cs _) as [o b'].
    by rewrite <- app_assoc in IH. }
  specialize (H past [] no_candidate Hpast (counted_none [])). rewrite Hrun in H. cbn [app snd] in H.
  pose proof (hysteresis_step past b c Hc H) as Hstep.
  destruct (check_better_route _ _ _) as [[sw a] t]. destruct Hstep as [_ Hsw]. intros ->.
  destruct (Hsw eq_refl) as (old & recent & Heq & Hlen & Hall). unfold kRouteHysteresisCycles in Hlen.
  destruct recent as [ | c1 [ | c2 [ | c3 [ | ]]]]; cbn in Hlen; try lia.
  exists old, c1, c2. replace (old ++ [c1; c2; c3]) with ((old ++ [c1; c2]) ++ [c3]) in Heq
    by (by rewrite <- app_assoc).
  apply app_inj_tail in Heq as [-> ->]. rewrite !Forall_cons in Hall. naive_solver.
Qed.

Definition demo_cycle : Cycle :=
  mk_cycle 7 1 [fresh_neighbor 0 7 0 1 true false 3; fresh_neighbor 0 8 0 1 true false 1].

Lemma route_hysteresis_witness :
  ∃ old c1 c2, [demo_cycle; demo_cycle] = old ++ [c1; c2] ∧ clear_gain c1 8 ∧ clear_gain c2 8 ∧
    clear_gain demo_cycle 8.
Proof.
  assert (Hc : cycle_ok demo_cycle).
  { split; [ repeat (constructor; [ apply fresh_wf; int_lia | ]); constructor | ].
    intros n [-> | [-> | Hn]%elem_of_cons]%elem_of_cons; [ done | done | by apply elem_of_nil in Hn ]. }
  pose proof (route_hysteresis [demo_cycle; demo_cycle] demo_cycle
    (mk_better 8 7 2) [(false, 0); (false, 0)]) as H.
  specialize (H (Forall_cons_2 _ _ _ Hc (Forall_cons_2 _ _ _ Hc (Forall_cons_2 _ _ _ Hc (Forall_nil_2 _)))) ltac:(vm_compute; reflexivity)).
  exact (H eq_refl).
Defined.

(** ** The topology report *)

Definition go_view (n : NeighborEntry) : GoNeighbor :=
  mk_go (ne_addr n) (ne_rssi n) (ne_hop_count n) (ne_hops_inet n) (ne_espnow n) (ne_lora n)
    (ne_has_internet n) (ne_queue_load n).

Lemma length_serialize_neighbor n : length (serialize_neighbor n) = 7%nat.
Proof. done. Qed.

Lemma go_parse_entries_spec l pre :
  Forall neighbor_wf l →
  go_parse_entries (length l) (length pre) (pre ++ concat (serialize_neighbor <$> l)) = go_view <$> l.
Proof.
  intros Hwf. revert pre. induction Hwf as [ | n l [] _ IH ]; intros pre; [ done | ].
  cbn [length go_parse_entries fmap list_fmap concat].
  rewrite !length_app, length_serialize_neighbor. destruct (_ <? _)%nat eqn:E; [ apply Nat.ltb_lt in E; lia | ].
  assert (Hb : ∀ k, (k < 7)%nat →
     byte_at (pre ++ serialize_neighbor n ++ concat (serialize_neighbor <$> l)) (length pre + k) =
     byte_at (serialize_neighbor n) k).
  { intros k Hk. unfold byte_at. rewrite lookup_app_r by lia.
    rewrite lookup_app_l by (rewrite length_serialize_neighbor; lia). do 2 f_equal. lia. }
  rewrite !Hb by lia. f_equal.
  - unfold go_view. cbn -[Z.mul Z.add i8 u8]. f_equal.
    + int_lia.
    + by apply i8_u8.
    + unfold neighbor_flags. by destruct (ne_espnow n), (ne_lora n), (ne_has_internet n).
    + unfold neighbor_flags. by destruct (ne_espnow n), (ne_lora n), (ne_has_internet n).
    + unfold neighbor_flags. by destruct (ne_espnow n), (ne_lora n), (ne_has_internet n).
  - specialize (IH (pre ++ serialize_neighbor n)). rewrite length_app, length_serialize_neighbor in IH.
    rewrite <- app_assoc in IH. exact IH.
Qed.

(** The topology report round-trips. The bytes [serialize] writes are
    read back by the cloud's parser as the table's neighbours, in order,
    signed RSSI and the three flags included; nothing is written only when
    the buffer is shorter than one byte plus seven per neighbour. *)
Theorem serialize_roundtrip max_len t :
  table_inv t →
  match serialize max_len t with
  | Some bytes => go_parse bytes = Some (go_view <$> rt_neighbors t) ∧
                  Z.of_nat (length bytes) = 1 + 7 * get_count t ∧ Z.of_nat (length bytes) <= max_len
  | None => max_len < 1 + 7 * get_count t
  end.
Proof.
  intros [Hlen _ Hwf _]. unfold serialize, kSerializedNeighborSize, get_count. cbv zeta.
  destruct (_ >? max_len) eqn:E; [ lia | ].
  assert (Hl : length (concat (serialize_neighbor <$> rt_neighbors t)) = (7 * length (rt_neighbors t))%nat).
  { clear. induction (rt_neighbors t) as [ | n l IH ]; [ done | ].
    rewrite fmap_cons. cbn [concat length]. rewrite length_app, length_serialize_neighbor, IH. lia. }
  split; [ | cbn [length]; rewrite Hl; lia ].
  cbn [go_parse]. f_equal. rewrite Nat2Z.id.
  by apply (go_parse_entries_spec (rt_neighbors t) [Z.of_nat (length (rt_neighbors t))]).
Qed.

Lemma serialize_roundtrip_witness :
  table_inv demo_table ∧
  go_parse (default [] (serialize 64 demo_table)) = Some (go_view <$> rt_neighbors demo_table).
Proof.
  split; [ exact demo_table_inv | ]. pose proof (serialize_roundtrip 64 demo_table demo_table_inv) as H.
  destruct (serialize 64 demo_table) as [b | ] eqn:E; [ exact (proj1 H) | ].
  exfalso. revert H. vm_compute. discriminate.
Defined.

(** ** Link quality *)

Definition fail_n (k : nat) (n : NeighborEntry) : NeighborEntry := Nat.iter k (count_tx false) n.

Lemma fail_n_S k n : fail_n (S k) n = count_tx false (fail_n k n).
Proof. done. Qed.

(** The ETX of a dead link can look perfect. After [k] failed
    transmissions and no success the computed ETX is 100 [k] reduced modulo
    65536 before it is capped at 1000, so at 656 failures a neighbour that
    never received anything has ETX 64, better than the 100 of a perfect
    link, and a lower route cost than a perfect neighbour at the same
    distance. *)
Theorem etx_wraps k n :
  ne_tx_count n = 0 → ne_tx_success n = 0 → ne_etx_x100 n = 100 → Z.of_nat k < 65536 →
  let m := fail_n (S k) n in
  (Z.of_nat (S k) < 65536 → ne_etx_x100 m = Z.min 1000 (100 * Z.of_nat (S k) mod 65536)) ∧
  (S k = 656%nat → ne_etx_x100 m = 64 ∧
     (is_u8 (ne_hops_inet n) → is_u8 (ne_queue_load n) → route_cost m < route_cost n)).
Proof.
  intros Hc Hs He Hk m.
  assert (H : ∀ j, Z.of_nat j < 65536 → let x := fail_n j n in
     ne_tx_count x = Z.of_nat j ∧ ne_tx_success x = 0 ∧ ne_hops_inet x = ne_hops_inet n ∧
     ne_queue_load x = ne_queue_load n ∧ ne_lora x = ne_lora n ∧ ne_espnow x = ne_espnow n).
  { induction j as [ | j IH ]; intros Hj; [ by cbn | ]. specialize (IH ltac:(lia)).
    rewrite fail_n_S. cbv zeta in *.
    set (x := fail_n j n) in *. clearbody x. destruct IH as (H1 & H2 & H3 & H4 & H5 & H6).
    unfold count_tx. cbv zeta. case_match; cbn [ne_tx_count ne_tx_success ne_hops_inet ne_queue_load
      ne_lora ne_espnow update_field]; rewrite H1; (split; [ int_lia | done ]). }
  assert (Hm : Z.of_nat (S k) < 65536 → ne_etx_x100 m = Z.min 1000 (100 * Z.of_nat (S k) mod 65536)).
  { intros Hk'. destruct (H k ltac:(lia)) as (H1 & H2 & _).
    unfold m. rewrite fail_n_S.
    set (x := fail_n k n) in *. clearbody x. unfold count_tx. cbv zeta.
    cbn [ne_tx_success ne_tx_count update_field]. rewrite H1, H2.
    change (0 >? 0) with false. cbv iota. rewrite (u16_small (Z.of_nat k + 1)) by int_lia.
    rewrite Z.div_1_r. case_match; cbn [ne_etx_x100 update_field] in *; int_lia. }
  split; [ done | ]. intros Ek. specialize (Hm ltac:(lia)). rewrite Ek in Hm.
  assert (Hm' : ne_etx_x100 m = 64) by (rewrite Hm; reflexivity). split; [ done | ].
  intros Hh Hq. destruct (H (S k) ltac:(lia)) as (_ & _ & H3 & H4 & H5 & H6). fold m in H3, H4, H5, H6.
  unfold route_cost, LORA_ONLY_PENALTY. cbv zeta. rewrite H3, H4, H5, H6, He, Hm'.
  case_match; int_lia.
Qed.

Lemma etx_wraps_witness : ne_etx_x100 (fail_n 656 (fresh_neighbor 0 7 0 1 true false 3)) = 64.
Proof.
  destruct (etx_wraps 655 (fresh_neighbor 0 7 0 1 true false 3) eq_refl eq_refl eq_refl ltac:(lia)) as [_ H].
  exact (proj1 (H eq_refl)).
Defined.
