(* ===== verification/TransferState.v ===== *)
(** * Transfer engine: state, timers and resets
    (components/mesh/include/transfer_engine.hpp, transfer_engine.cpp)

    The state of class [TransferEngine], the callbacks it is wired to, the
    timers derived from the hop estimate, the congestion counters and the two
    functions that bring the state back to idle. An array with a count in the
    source is a list here when nothing reads past the count; the four-entry
    exit arrays keep their length. The CSV
    telemetry, which only reads this state, is in [TransferTelemetry]. *)

From Stdlib Require Import ZArith Lia SpecFloat.
From stdpp Require Import base list numbers option sets.
From S2P Require Import Prelude.
From S2P Require Import Packet.
From S2P Require Import Fec.
From S2P Require Import SelectiveRepeat.
From S2P Require Import Receiver.
From S2P Require Import ProtocolSelector.
Open Scope Z_scope.
Open Scope flp_scope.

(** ** Data *)

Definition f32_mul : float32 → float32 → float32 := SFmul 24 128.
Definition f32_zero : float32 := f32_of_Z 0.
Definition f32_one : float32 := f32_of_Z 1.
(** [a > b] *)
Definition f32_gt (a b : float32) : bool := SFltb b a.
(** The literal [0.3f]. *)
Definition ALPHA : float32 := S754_finite false 10066330 (-25).

(** A C string is the list of its bytes before the NUL. *)
Definition Filename : Type := list Z.
(** [read_chunk(buf, offset, len)]: the bytes stored at [buf]. *)
Definition ReadChunkFn (W : Type) : Type := W → Z → Z → list Z * W.
(** [drain(session_id, seq_out)]: the sequence number popped, if any. *)
Definition DrainSeqFn (W : Type) : Type := W → Z → option Z * W.
Definition RequeueSeqFn (W : Type) : Type := W → Z → Z → W.
Definition ForwardToMqttFn (W : Type) : Type :=
  W → Z → Z → Z → list Z → Filename → bool * W.
Definition ForwardMetaFn (W : Type) : Type :=
  W → Z → Filename → Z → Z → Z → Z → Z → W.

Inductive EventBit := FLP_EVT_TRANSFER_COMPLETE | FLP_EVT_EXIT_NODE_ELECTED.

(** What the engine is wired to: the clock in milliseconds, the platform's
    services, [MeshManager::send_packet] and the callbacks set by
    [MeshManager::init]. Each acts on an abstract world [W]. *)
Record Host {W : Type} := mk_host {
  h_now : W → Z;                              (* esp_timer_get_time() / 1000 *)
  h_random : W → Z * W;                       (* esp_random() *)
  h_alloc : W → bool;                         (* heap_caps_calloc succeeds *)
  h_crc32_le : Z → list Z → Z;                (* esp_rom_crc32_le *)
  h_sta_rssi : W → option Z;                  (* esp_wifi_sta_get_ap_info *)
  h_set_bits : W → EventBit → W;              (* xEventGroupSetBits *)
  h_congested : W → bool;                     (* buffer pool or fragment queue *)
  h_send_packet : W → Z → PacketType → list Z → Z → Z * W;
  h_forward_to_mqtt : option (ForwardToMqttFn W);
  h_forward_meta : option (ForwardMetaFn W);
  h_drain_cloud_ack : option (DrainSeqFn W);
  h_drain_cloud_nack : option (DrainSeqFn W);
  h_requeue_cloud_nack : option (RequeueSeqFn W);
  h_observe_cloud_nack : option (RequeueSeqFn W);
  h_drain_fragment_ack : option (DrainSeqFn W);
  h_requeue_fragment_ack : option (RequeueSeqFn W);
  h_transfer_complete : option (W → Z → bool * W);
  h_mqtt_session_end : option (W → Z → W);
  h_backlog : W → nat      (* bounds what the drain queues hold *)
}.
Arguments Host : clear implicits.
Arguments mk_host {W}.

Record ExitCandidate := mk_candidate {
  ec_addr : Z;
  ec_rssi_to_gw : Z;
  ec_hops_to_gw : Z;
  ec_active_transfers : Z
}.
#[export] Instance ExitCandidate_inhabited : Inhabited ExitCandidate :=
  populate (mk_candidate 0 0 0 0).

Record ExitPathStats := mk_path {
  ep_ewma_rtt_ms : float32;
  ep_ewma_loss : float32;
  ep_sent : Z;
  ep_acked : Z;
  ep_nacked : Z;
  ep_weight : float32
}.
#[export] Instance eta_ExitPathStats : Eta ExitPathStats := fun p =>
  mk_path (ep_ewma_rtt_ms p) (ep_ewma_loss p) (ep_sent p) (ep_acked p) (ep_nacked p)
    (ep_weight p).
Definition path_stats_new : ExitPathStats :=
  mk_path (f32_of_Z 500) f32_zero 0 0 0 f32_one.
#[export] Instance ExitPathStats_inhabited : Inhabited ExitPathStats := populate path_stats_new.

Record ActiveTransfer {W : Type} := mk_transfer {
  tr_read_chunk : option (ReadChunkFn W);
  tr_size : Z;
  tr_crc32 : Z;
  tr_fragment_count : Z;
  tr_fragment_size : Z;
  tr_next_fragment : Z;
  tr_exit_nodes : list Z;           (* MAX_EXIT_NODES of them *)
  tr_exit_node_count : Z;
  tr_session_id : Z;
  tr_filename : Filename;
  tr_active : bool;
  tr_exit_node_alive : list bool;
  tr_last_ack_ms : list Z
}.
Arguments ActiveTransfer : clear implicits.
Arguments mk_transfer {W}.
#[export] Instance eta_ActiveTransfer W : Eta (ActiveTransfer W) := fun t =>
  mk_transfer (tr_read_chunk t) (tr_size t) (tr_crc32 t) (tr_fragment_count t)
    (tr_fragment_size t) (tr_next_fragment t) (tr_exit_nodes t) (tr_exit_node_count t)
    (tr_session_id t) (tr_filename t) (tr_active t) (tr_exit_node_alive t) (tr_last_ack_ms t).

Record BroadcastRetry := mk_retry {
  br_payload : list Z;
  br_type : PacketType;
  br_dst_addr : Z;
  br_max_retries : Z;
  br_attempt : Z;
  br_next_send_ms : Z;
  br_backoff_ms : Z;
  br_active : bool
}.
#[export] Instance eta_BroadcastRetry : Eta BroadcastRetry := fun b =>
  mk_retry (br_payload b) (br_type b) (br_dst_addr b) (br_max_retries b) (br_attempt b)
    (br_next_send_ms b) (br_backoff_ms b) (br_active b).

(** [congestion_backoff_ticks_] and the two event counters. *)
Record Congestion := mk_cong {
  cg_backoff_ticks : Z;
  cg_total_events : Z;
  cg_total_backpressure : Z
}.

(** [candidates_] with [candidate_count_], and the election window. *)
Record Election := mk_election {
  el_candidates : list ExitCandidate;
  el_start_ms : Z;
  el_active : bool;
  el_timeout_ms : Z
}.
#[export] Instance eta_Election : Eta Election := fun l =>
  mk_election (el_candidates l) (el_start_ms l) (el_active l) (el_timeout_ms l).

Record ExitRole := mk_role {
  er_is_exit_node : bool;
  er_exit_pending : bool;
  er_active_session_id : Z;
  er_source_addr : Z
}.
#[export] Instance eta_ExitRole : Eta ExitRole := fun r =>
  mk_role (er_is_exit_node r) (er_exit_pending r) (er_active_session_id r) (er_source_addr r).

(** The [cloud_*_] fields of the local-exit path. *)
Record CloudArq := mk_cloud {
  ca_ack_bitmap : list Z;           (* CLOUD_ACK_BITMAP_BYTES of them *)
  ca_base_seq : Z;
  ca_next_send : Z;
  ca_retx_queue : list Z
}.
#[export] Instance eta_CloudArq : Eta CloudArq := fun c =>
  mk_cloud (ca_ack_bitmap c) (ca_base_seq c) (ca_next_send c) (ca_retx_queue c).

(** The [oow_*_] fields: queued (sequence number, destination) pairs and the
    ring of recent re-sends (sequence number, time). *)
Record OowQueue := mk_oow {
  oq_queue : list (Z * Z);
  oq_last_ms : Z;
  oq_recent : list (Z * Z);         (* OOW_RECENT_RING_SIZE of them *)
  oq_recent_write : Z
}.
#[export] Instance eta_OowQueue : Eta OowQueue := fun q =>
  mk_oow (oq_queue q) (oq_last_ms q) (oq_recent q) (oq_recent_write q).

Record Timers := mk_timers {
  tm_exit_node_timeout_ms : Z;
  tm_hops_est : Z;                  (* source_hops_to_exit_est_ *)
  tm_window_cap : Z;                (* mesh_window_cap_ *)
  tm_last_cloud_activity_ms : Z;
  tm_last_mesh_frag_send_ms : Z;
  tm_mesh_upload_done : bool;
  tm_mesh_upload_done_ms : Z;
  tm_transfer_start_ms : Z;
  tm_last_meta_publish_ms : Z
}.
#[export] Instance eta_Timers : Eta Timers := fun t =>
  mk_timers (tm_exit_node_timeout_ms t) (tm_hops_est t) (tm_window_cap t)
    (tm_last_cloud_activity_ms t) (tm_last_mesh_frag_send_ms t) (tm_mesh_upload_done t)
    (tm_mesh_upload_done_ms t) (tm_transfer_start_ms t) (tm_last_meta_publish_ms t).

(** The evaluation counters. *)
Record Counters := mk_counters {
  ct_mesh_retx_sent : Z;
  ct_oow_queued : Z;
  ct_oow_sent : Z;
  ct_max_inflight : Z
}.
#[export] Instance eta_Counters : Eta Counters := fun c =>
  mk_counters (ct_mesh_retx_sent c) (ct_oow_queued c) (ct_oow_sent c) (ct_max_inflight c).

Record Engine {W : Type} := mk_engine {
  te_events : bool;                 (* events_ is set *)
  te_my_addr : Z;
  te_arq : list Sender;             (* the sender halves of arq_ *)
  te_receiver : Receiver;           (* the receiver half of arq_[0] *)
  te_transfer : ActiveTransfer W;
  te_retry : BroadcastRetry;
  te_election : Election;
  te_role : ExitRole;
  te_local_exit : bool;
  te_cloud : CloudArq;
  te_redist : list Z;               (* redist_pending_, redist_count_ of them *)
  te_oow : OowQueue;
  te_cong : Congestion;
  te_timers : Timers;
  te_paths : list ExitPathStats;
  te_weight_counter : Z;
  te_fec : FecEncoder;
  te_counters : Counters
}.
Arguments Engine : clear implicits.
Arguments mk_engine {W}.
#[export] Instance eta_Engine W : Eta (Engine W) := fun e =>
  mk_engine (te_events e) (te_my_addr e) (te_arq e) (te_receiver e) (te_transfer e)
    (te_retry e) (te_election e) (te_role e) (te_local_exit e) (te_cloud e) (te_redist e)
    (te_oow e) (te_cong e) (te_timers e) (te_paths e) (te_weight_counter e) (te_fec e)
    (te_counters e).

(** ** Constants *)

Definition BASE_ARQ_TIMEOUT_MS : Z := 3000.
Definition PER_HOP_ARQ_TIMEOUT_MS : Z := 1000.
Definition MAX_ARQ_TIMEOUT_MS : Z := 8000.
Definition MULTIHOP_MIN_RTO_FLOOR_MS : Z := 2400.
Definition MAX_MIN_RTO_FLOOR_MS : Z := 4000.
Definition BASE_ELECTION_MS : Z := 3000.
Definition PER_HOP_ELECTION_MS : Z := 1250.
Definition MAX_ELECTION_MS : Z := 9000.
Definition BASE_EXIT_NODE_TIMEOUT_MS : Z := 30000.
Definition PER_HOP_EXIT_NODE_TIMEOUT_MS : Z := 5000.
Definition MAX_EXIT_NODE_TIMEOUT_MS : Z := 60000.
Definition TWO_HOP_MESH_WINDOW_CAP : Z := 24.
Definition MULTIHOP_MESH_WINDOW_CAP : Z := 16.
Definition MIN_PER_EXIT_WINDOW_CAP : Z := 8.
Definition CLOUD_WINDOW_SIZE : Z := 16.
Definition MAX_CLOUD_FRAGMENTS : Z := 8192.
Definition CLOUD_ACK_BITMAP_BYTES : Z := (MAX_CLOUD_FRAGMENTS + 7) / 8.
Definition CLOUD_RETX_QUEUE_SIZE : Z := 16.
Definition REDIST_CAPACITY : Z := ARQ_WINDOW * MAX_EXIT_NODES.
Definition OOW_RETX_QUEUE_SIZE : Z := 1024.
Definition OOW_RECENT_RING_SIZE : Z := 128.
Definition CLOUD_STALL_TIMEOUT_MS : Z := 30000.
Definition META_REPUBLISH_INTERVAL_MS : Z := 10000.
Definition WEIGHT_RECOMPUTE_INTERVAL : Z := 16.

(** ** Timers and windows from the hop estimate *)

Definition sanitize_hops_to_exit (hops : Z) : Z :=
  if hops =? 0 then 1 else if hops =? 255 then 2 else hops.

Definition compute_election_timeout_ms (hops : Z) : Z :=
  let timeout := BASE_ELECTION_MS + hops * PER_HOP_ELECTION_MS in
  if timeout >? MAX_ELECTION_MS then MAX_ELECTION_MS else timeout.

Definition compute_arq_timeout_ms (hops : Z) : Z :=
  let timeout := BASE_ARQ_TIMEOUT_MS + hops * PER_HOP_ARQ_TIMEOUT_MS in
  if timeout >? MAX_ARQ_TIMEOUT_MS then MAX_ARQ_TIMEOUT_MS else timeout.

Definition compute_min_rto_floor_ms (hops : Z) : Z :=
  if hops <=? 1 then 200
  else
    let floor := MULTIHOP_MIN_RTO_FLOOR_MS + (hops - 2) * 400 in
    if floor >? MAX_MIN_RTO_FLOOR_MS then MAX_MIN_RTO_FLOOR_MS else floor.

Definition compute_mesh_window_cap (hops : Z) : Z :=
  if hops <=? 1 then ARQ_WINDOW
  else if hops =? 2 then TWO_HOP_MESH_WINDOW_CAP
  else MULTIHOP_MESH_WINDOW_CAP.

Definition compute_exit_timeout_ms (hops : Z) : Z :=
  let timeout := BASE_EXIT_NODE_TIMEOUT_MS + hops * PER_HOP_EXIT_NODE_TIMEOUT_MS in
  if timeout >? MAX_EXIT_NODE_TIMEOUT_MS then MAX_EXIT_NODE_TIMEOUT_MS else timeout.

(** ** Congestion *)

Definition signal_congestion (c : Congestion) : Congestion :=
  let ticks := u8 (cg_backoff_ticks c + 2) in
  mk_cong (if ticks >? 12 then 12 else ticks) (u32 (cg_total_events c + 1))
    (cg_total_backpressure c).

Definition note_local_backpressure (c : Congestion) : Congestion :=
  let c := signal_congestion (mk_cong (cg_backoff_ticks c) (cg_total_events c)
             (u32 (cg_total_backpressure c + 1))) in
  let ticks := u8 (cg_backoff_ticks c + 2) in
  mk_cong (if ticks >? 16 then 16 else ticks) (cg_total_events c) (cg_total_backpressure c).

Section engine.
Context {W : Type} (h : Host W).
Notation Engine := (Engine W).
Implicit Types (e : Engine) (w : W).

(** The [send_fn_] that [MeshManager::init] installs: the congestion flag on
    ACK and NACK, the packet, and backpressure noted in the engine itself. It
    runs inside the ARQ windows' operations, so its world pairs the engine's
    congestion state with [W]. *)
Definition send_fn : SendCallback (Congestion * W) := fun '(c, w) dst t seq data =>
  let seq := match t with
             | ACK | NACK => seq_with_congestion seq (h_congested h w)
             | _ => seq
             end in
  let '(rc, w') := h_send_packet h w dst t data seq in
  if rc =? TRANSPORT_SEND_BACKPRESSURE then (rc, (note_local_backpressure c, w'))
  else (rc, (c, w')).

Definition engine_send (dst : Z) (t : PacketType) (payload : list Z) (seq : Z) e w
    : Z * Engine * W :=
  let '(rc, (c, w')) := send_fn (te_cong e, w) dst t seq payload in
  (rc, e <| te_cong := c |>, w').

(** [arq_[i].send_fragment(seq, data, len)] and its siblings. *)
Definition arq_send_fragment (i seq : Z) (data : list Z) e w : Z * Engine * W :=
  let '(rc, s, (c, w')) :=
    send_fragment (Some send_fn) (h_now h w) seq (Some data) (aget (te_arq e) i)
      (te_cong e, w) in
  (rc, e <| te_arq ::= fun l => aset l i s |> <| te_cong := c |>, w').

Definition arq_handle_nack (i seq : Z) e w : Engine * W :=
  let '(s, (c, w')) :=
    handle_nack (Some send_fn) (h_now h w) seq (aget (te_arq e) i) (te_cong e, w) in
  (e <| te_arq ::= fun l => aset l i s |> <| te_cong := c |>, w').

Definition arq_tick (i max_sends : Z) e w : Z * Engine * W :=
  let '(n, s, (c, w')) :=
    tick (Some send_fn) (h_now h w) max_sends (aget (te_arq e) i) (te_cong e, w) in
  (n, e <| te_arq ::= fun l => aset l i s |> <| te_cong := c |>, w').

(** ** Observers *)

Definition mesh_window_cap_per_exit e : Z :=
  let exits := if tr_exit_node_count (te_transfer e) >? 0
               then tr_exit_node_count (te_transfer e) else 1 in
  let cap := u8 (tm_window_cap (te_timers e) / exits) in
  let cap := if cap <? MIN_PER_EXIT_WINDOW_CAP then MIN_PER_EXIT_WINDOW_CAP else cap in
  if cap >? ARQ_WINDOW then ARQ_WINDOW else cap.

(** The indices [0 .. exit_node_count) of the loops over the exits. *)
Definition exit_indices e : list Z := seqZ 0 (tr_exit_node_count (te_transfer e)).

Definition total_mesh_inflight e : Z :=
  fold_left (fun total i => u16 (total + sender_window_used (aget (te_arq e) i)))
    (exit_indices e) 0.

Definition total_acked_fragments e : Z :=
  if te_local_exit e then ca_base_seq (te_cloud e)
  else fold_left (fun total i => u32 (total + ep_acked (aget (te_paths e) i)))
         (exit_indices e) 0.

Definition data_fragments_before_seq (seq : Z) e : Z :=
  if te_local_exit e then seq
  else
    let stride := u16 (FEC_GROUP_SIZE + 1) in
    let groups := seq / stride in
    let rem := seq mod stride in
    let rem := if rem >? FEC_GROUP_SIZE then FEC_GROUP_SIZE else rem in
    groups * FEC_GROUP_SIZE + rem.

Definition bytes_from_seq_progress (seq : Z) e : Z :=
  let bytes := u32 (data_fragments_before_seq seq e * tr_fragment_size (te_transfer e)) in
  if bytes >? tr_size (te_transfer e) then tr_size (te_transfer e) else bytes.

Definition get_progress_pct e : Z :=
  let t := te_transfer e in
  if negb (tr_active t) || (tr_fragment_count t =? 0) then 0
  else
    let frags := if te_local_exit e then ca_base_seq (te_cloud e)
                 else total_acked_fragments e in
    let frags := if frags >? tr_fragment_count t then tr_fragment_count t else frags in
    u8 (u32 (frags * 100) / tr_fragment_count t).

Definition active_session_id e : Z :=
  if tr_active (te_transfer e) then tr_session_id (te_transfer e)
  else if er_is_exit_node (te_role e) then er_active_session_id (te_role e)
  else 0.

Definition is_exit_alive (i : Z) e : bool := aget (tr_exit_node_alive (te_transfer e)) i.

(** ** Initial state and resets *)

Definition election_idle : Election := mk_election [] 0 false 3000.
Definition cloud_idle : CloudArq :=
  mk_cloud (replicate (Z.to_nat CLOUD_ACK_BITMAP_BYTES) 0) 0 0 [].
Definition oow_idle : OowQueue :=
  mk_oow [] 0 (replicate (Z.to_nat OOW_RECENT_RING_SIZE) (0, 0)) 0.
Definition counters_zero : Counters := mk_counters 0 0 0 0.

Definition transfer_new : ActiveTransfer W :=
  mk_transfer None 0 0 0 0 0 [0; 0; 0; 0] 0 0 [] false [true; true; true; true]
    [0; 0; 0; 0].

Definition engine_new : Engine :=
  mk_engine false 0 (replicate 4 sender_new) receiver_new transfer_new
    (mk_retry [] DISCOVERY BROADCAST_ADDR 3 0 0 500 false)
    election_idle (mk_role false false 0 0) false cloud_idle [] oow_idle
    (mk_cong 0 0 0) (mk_timers BASE_EXIT_NODE_TIMEOUT_MS 1 ARQ_WINDOW 0 0 false 0 0 0)
    (replicate 4 path_stats_new) 0 encoder_new counters_zero.

(** [elected] is [CONFIG_FLP_MAX_ELECTED_EXITS]; [alloc] whether each window's
    memory is available. *)
Definition prealloc_count (elected : Z) : Z :=
  let n := u8 elected in
  let n := if n =? 0 then 1 else n in
  if n >? MAX_EXIT_NODES then MAX_EXIT_NODES else n.

Definition init (elected : Z) (alloc : Z → bool) (my_addr : Z) e : Engine :=
  e <| te_events := true |> <| te_my_addr := my_addr |>
    <| te_arq ::= imap (fun i s =>
         if Z.of_nat i <? prealloc_count elected
         then (SelectiveRepeat.init (alloc (Z.of_nat i)) ARQ_WINDOW BASE_ARQ_TIMEOUT_MS s).2
         else s) |>.

Definition session_end (sid : Z) w : W :=
  match h_mqtt_session_end h with
  | Some f => if negb (sid =? 0) then f w sid else w
  | None => w
  end.

(** The fields [reset_telemetry] sets, apart from the CSV buffer's. *)
Definition reset_telemetry (now : Z) e : Engine :=
  e <| te_timers ::= fun t => t <| tm_transfer_start_ms := now |>
                                <| tm_mesh_upload_done_ms := 0 |> |>
    <| te_counters := counters_zero |>
    <| te_cong ::= fun c => mk_cong (cg_backoff_ticks c) 0 0 |>.

Definition reset_sender_transfer_state (signal_complete : bool) e w : Engine * W :=
  let finished_session := tr_session_id (te_transfer e) in
  let e' :=
    mk_engine (te_events e) (te_my_addr e)
      (map reset_sender (te_arq e)) (te_receiver e) transfer_new (te_retry e)
      (mk_election [] (el_start_ms (te_election e)) false (el_timeout_ms (te_election e)))
      (te_role e <| er_exit_pending := false |>)
      false cloud_idle [] oow_idle (mk_cong 0 0 0)
      (mk_timers BASE_EXIT_NODE_TIMEOUT_MS 1 (tm_window_cap (te_timers e)) 0 0 false 0 0 0)
      (map (fun _ => path_stats_new) (te_paths e)) 0 (te_fec e) counters_zero in
  let w := session_end finished_session w in
  (e', if signal_complete && te_events e then h_set_bits h w FLP_EVT_TRANSFER_COMPLETE
       else w).

Definition clear_exit_node_state e w : Engine * W :=
  let finished_session := er_active_session_id (te_role e) in
  let e' :=
    e <| te_role := mk_role false false 0 0 |>
      <| te_transfer ::= fun t =>
           t <| tr_size := 0 |> <| tr_crc32 := 0 |> <| tr_fragment_count := 0 |>
             <| tr_fragment_size := 0 |> <| tr_filename := [] |> |>
      <| te_timers ::= fun t =>
           t <| tm_last_cloud_activity_ms := 0 |> <| tm_last_meta_publish_ms := 0 |> |>
      <| te_cong ::= fun c => mk_cong 0 (cg_total_events c) (cg_total_backpressure c) |>
      <| te_oow ::= fun q => mk_oow [] (oq_last_ms q) (oq_recent oow_idle) 0 |> in
  (e', session_end finished_session w).
End engine.

(** The percentage fits its byte. *)
Lemma progress_u8 {W} (e : Engine W) : is_u8 (get_progress_pct e).
Proof. unfold get_progress_pct. cbv zeta. case_match; [ unfold is_u8; lia | apply u8_range ]. Qed.
