(* ===== verification/TransferArq.v ===== *)
(** * Transfer engine: feeding and recovery
    (components/mesh/transfer_engine_arq.cpp)

    What one tick of an active transfer does: the local-exit window over the
    cloud's ACK and NACK queues, and the mesh path, which drains out-of-window
    resends and redistributed fragments before it feeds new ones to the exit
    with the best weighted window. *)

From Stdlib Require Import ZArith Lia SpecFloat.
From stdpp Require Import base list numbers option sets gmap.
From S2P Require Import Prelude.
From S2P Require Import Packet.
From S2P Require Import Fec.
From S2P Require Import SelectiveRepeat.
From S2P Require Import Receiver.
From S2P Require Import ProtocolSelector.
From S2P Require Import TransferState.
Open Scope Z_scope.
Open Scope flp_scope.

Definition kPacingBaseMs : Z := 15.
Definition kPacingPerHopMs : Z := 5.
Definition kMaxNewFragsSingleHop : Z := 1.
Definition kMaxNewFragsMultiHop : Z := 1.
Definition kOowRetxBaseMs : Z := 25.
Definition kOowRetxPerHopMs : Z := 10.
Definition kMaxOowRetxPerTick : Z := 4.
Definition kOowBacklogHighWater : Z := 32.
Definition kOowBacklogCriticalWater : Z := 96.
Definition kOowMinIntervalMs : Z := 8.

(** The first index of a loop that returns [i] where [p i], or [-1]. *)
Definition first_index (p : Z → bool) (l : list Z) : Z := default (-1) (find_first p l).

(** ** Cloud bitmap *)

Definition cloud_acked (bm : list Z) (seq : Z) : bool := bitmap_bit bm (seq / 8) (bit_mask seq).
Definition cloud_mark (bm : list Z) (seq : Z) : list Z := bitmap_set bm (seq / 8) (bit_mask seq).

(** [while (cloud_base_seq_ < fragment_count) ...]; [fuel] is the distance
    left to the fragment count. *)
Fixpoint advance_base (fuel : nat) (count : Z) (bm : list Z) (base : Z) : Z :=
  match fuel with
  | O => base
  | S fuel' =>
      if (base <? count) && cloud_acked bm base
      then advance_base fuel' count bm (u16 (base + 1))
      else base
  end.

(** The entries the loop of [compact_retx_queue] keeps. *)
Fixpoint compact_retx (bm : list Z) (sent skip : Z) (queue : list Z) : list Z :=
  match queue with
  | [] => []
  | seq :: queue' =>
      if cloud_acked bm seq then compact_retx bm sent skip queue'
      else if skip <? sent then compact_retx bm sent (skip + 1) queue'
      else seq :: compact_retx bm sent skip queue'
  end.

Definition compact_retx_queue (sent : Z) (c : CloudArq) : CloudArq :=
  c <| ca_retx_queue := compact_retx (ca_ack_bitmap c) sent 0 (ca_retx_queue c) |>.

Definition enqueue_retx (seq : Z) (queue : list Z) : list Z :=
  if negb (existsb (Z.eqb seq) queue) && (Z.of_nat (length queue) <? CLOUD_RETX_QUEUE_SIZE)
  then queue ++ [seq] else queue.

Section arq.
Context {W : Type} (h : Host W).
Notation Engine := (Engine W).
Implicit Types (e : Engine) (w : W).

(** [transfer_.read_chunk(frag_buf_, offset, frag_len)] for the [frag_len]
    bytes at [offset], or fewer at the end of the file. *)
Definition read_fragment (offset : Z) e w : list Z * W :=
  let t := te_transfer e in
  let remain := u32 (tr_size t - offset) in
  let frag_len := if remain <? tr_fragment_size t then remain else tr_fragment_size t in
  match tr_read_chunk t with
  | Some read => read w offset frag_len
  | None => ([], w)
  end.

(** [if (!forward_to_mqtt_fn_ || !forward_to_mqtt_fn_(...)) break;] *)
Definition forward_to_mqtt (seq : Z) (data : list Z) e w : bool * W :=
  match h_forward_to_mqtt h with
  | None => (false, w)
  | Some f => f w (tr_session_id (te_transfer e)) seq (te_my_addr e) data
                (tr_filename (te_transfer e))
  end.

(** ** Local exit *)

Fixpoint drain_acks (fuel : nat) (drain : DrainSeqFn W) (sid count : Z) (bm : list Z)
    (activity : Z) w : list Z * Z * W :=
  match fuel with
  | O => (bm, activity, w)
  | S fuel' =>
      match drain w sid with
      | (None, w') => (bm, activity, w')
      | (Some seq, w') =>
          if seq <? count
          then drain_acks fuel' drain sid count (cloud_mark bm seq) (h_now h w') w'
          else drain_acks fuel' drain sid count bm activity w'
      end
  end.

Definition observe_nack (sid seq : Z) w : W :=
  match h_observe_cloud_nack h with Some f => f w sid seq | None => w end.

Fixpoint drain_nacks (fuel : nat) (drain : DrainSeqFn W) (sid count : Z) (bm : list Z)
    (queue : list Z) w : list Z * W :=
  match fuel with
  | O => (queue, w)
  | S fuel' =>
      match drain w sid with
      | (None, w') => (queue, w')
      | (Some seq, w') =>
          if seq >=? count then drain_nacks fuel' drain sid count bm queue w'
          else if cloud_acked bm seq then drain_nacks fuel' drain sid count bm queue w'
          else drain_nacks fuel' drain sid count bm (enqueue_retx seq queue)
                 (observe_nack sid seq w')
      end
  end.

(** Step 3: retransmissions, until the window's worth is sent or the publish
    queue is full. *)
Fixpoint send_retx (queue : list Z) (sent : Z) e w : Z * W :=
  match queue with
  | [] => (sent, w)
  | seq :: queue' =>
      if negb (sent <? CLOUD_WINDOW_SIZE) then (sent, w)
      else if cloud_acked (ca_ack_bitmap (te_cloud e)) seq then send_retx queue' sent e w
      else
        let '(data, w) := read_fragment (u32 (seq * tr_fragment_size (te_transfer e))) e w in
        let '(ok, w) := forward_to_mqtt seq data e w in
        if ok then send_retx queue' (sent + 1) e w else (sent, w)
  end.

(** Step 4: new fragments. At most [CLOUD_WINDOW_SIZE] iterations. *)
Fixpoint send_new (fuel : nat) (window_end next sent : Z) e w : Z * W :=
  match fuel with
  | O => (next, w)
  | S fuel' =>
      if (next <? tr_fragment_count (te_transfer e)) && (next <? window_end)
         && (sent <? CLOUD_WINDOW_SIZE) then
        let '(data, w) := read_fragment (u32 (next * tr_fragment_size (te_transfer e))) e w in
        let '(ok, w) := forward_to_mqtt next data e w in
        if ok then send_new fuel' window_end (u16 (next + 1)) (sent + 1) e w else (next, w)
      else (next, w)
  end.

(** Steps 1 and 2: the queues of the cloud, and the base. *)
Definition drain_cloud_queues e w : Engine * W :=
  let sid := tr_session_id (te_transfer e) in
  let count := tr_fragment_count (te_transfer e) in
  let c := te_cloud e in
  let '(bm, activity, w) :=
    match h_drain_cloud_ack h with
    | Some drain => drain_acks (S (h_backlog h w)) drain sid count (ca_ack_bitmap c)
                      (tm_last_cloud_activity_ms (te_timers e)) w
    | None => (ca_ack_bitmap c, tm_last_cloud_activity_ms (te_timers e), w)
    end in
  let base := advance_base (Z.to_nat (count - ca_base_seq c)) count bm (ca_base_seq c) in
  let '(queue, w) :=
    match h_drain_cloud_nack h with
    | Some drain => drain_nacks (S (h_backlog h w)) drain sid count bm (ca_retx_queue c) w
    | None => (ca_retx_queue c, w)
    end in
  (e <| te_cloud := mk_cloud bm base (ca_next_send c) queue |>
     <| te_timers ::= fun t => t <| tm_last_cloud_activity_ms := activity |> |>, w).

(** Steps 3 and 4. *)
Definition publish_cloud_window e w : Engine * W :=
  let '(sent, w) := send_retx (ca_retx_queue (te_cloud e)) 0 e w in
  let e := e <| te_cloud ::= compact_retx_queue sent |> in
  let window_end := u16 (ca_base_seq (te_cloud e) + CLOUD_WINDOW_SIZE) in
  let '(next, w) := send_new (Z.to_nat CLOUD_WINDOW_SIZE) window_end
                      (ca_next_send (te_cloud e)) sent e w in
  (e <| te_cloud ::= fun c => c <| ca_next_send := next |> |>, w).

Definition tick_local_exit_arq e w : Engine * W :=
  let '(e, w) := drain_cloud_queues e w in
  let '(e, w) := publish_cloud_window e w in
  if ca_base_seq (te_cloud e) >=? tr_fragment_count (te_transfer e)
  then reset_sender_transfer_state h true e w
  else (e, w).

(** ** Choosing an exit *)

(** The score of exit [i], and its share of the total; dead exits are skipped. *)
Definition weight_step e (acc : list ExitPathStats * list float32 * float32) (i : Z)
    : list ExitPathStats * list float32 * float32 :=
  let '(paths, scores, total) := acc in
  if negb (is_exit_alive i e) then acc
  else
    let s := aget paths i in
    let loss := if ep_sent s >? 0 then f32_div (f32_of_Z (ep_nacked s)) (f32_of_Z (ep_sent s))
                else f32_zero in
    let ewma := f32_add (f32_mul ALPHA loss)
                  (f32_mul (f32_sub f32_one ALPHA) (ep_ewma_loss s)) in
    let rtt := if f32_gt (ep_ewma_rtt_ms s) (f32_of_Z 10) then ep_ewma_rtt_ms s
               else f32_of_Z 10 in
    let score := f32_div f32_one
                   (f32_mul rtt (f32_add f32_one (f32_mul ewma (f32_of_Z 5)))) in
    (aset paths i (s <| ep_ewma_loss := ewma |>), <[Z.to_nat i := score]> scores,
     f32_add total score).

Definition recompute_weights e : Engine :=
  let '(paths, scores, total) :=
    fold_left (weight_step e) (exit_indices e)
      (te_paths e, replicate (Z.to_nat MAX_EXIT_NODES) f32_zero, f32_zero) in
  let paths :=
    if f32_gt total f32_zero then
      fold_left (fun paths i =>
        aset paths i (aget paths i <| ep_weight :=
          if is_exit_alive i e then f32_div (default f32_zero (scores !! Z.to_nat i)) total
          else f32_zero |>)) (exit_indices e) paths
    else paths in
  e <| te_paths := paths |>.

(** Exit [i] may take [seq] without passing its share of the window. *)
Definition exit_can_take (seq i : Z) e : bool :=
  is_exit_alive i e && can_send_sequence seq (aget (te_arq e) i)
  && (sender_window_used (aget (te_arq e) i) <? mesh_window_cap_per_exit e).

Definition target_step (seq : Z) e (acc : Z * float32) (i : Z) : Z * float32 :=
  let '(best_idx, best_score) := acc in
  if negb (is_exit_alive i e) || negb (can_send_sequence seq (aget (te_arq e) i)) then acc
  else
    let used := sender_window_used (aget (te_arq e) i) in
    let window_cap := mesh_window_cap_per_exit e in
    if used >=? window_cap then acc
    else
      let free_slots := if used <? window_cap then u16 (window_cap - used) else 0 in
      let score := f32_mul (ep_weight (aget (te_paths e) i)) (f32_of_Z free_slots) in
      if f32_gt score best_score then (i, score) else acc.

Definition select_mesh_target_for_seq (seq : Z) e : Z :=
  if total_mesh_inflight e >=? tm_window_cap (te_timers e) then -1
  else
    let '(best_idx, _) :=
      fold_left (target_step seq e) (exit_indices e) (-1, f32_of_Z (-1)) in
    if best_idx >=? 0 then best_idx
    else first_index (fun i => exit_can_take seq i e) (exit_indices e).

Definition arq_index_for_peer (addr : Z) e : Z :=
  first_index (fun i => aget (tr_exit_nodes (te_transfer e)) i =? addr) (exit_indices e).

Definition arq_index_for_sequence (seq : Z) e : Z :=
  first_index (fun i => contains_sequence seq (aget (te_arq e) i)) (exit_indices e).

(** ** Out-of-window resends *)

(** The XOR of the group's data fragments, read again from the file: [None]
    for an incomplete trailing group. *)
Fixpoint regenerate_parity (n : nat) (d group : Z) (enc : FecEncoder) e w
    : option FecEncoder * W :=
  match n with
  | O => (Some enc, w)
  | S n' =>
      let di := u16 (group * FEC_GROUP_SIZE + d) in
      let off := u32 (di * tr_fragment_size (te_transfer e)) in
      if off >=? tr_size (te_transfer e) then (None, w)
      else
        let '(data, w) := read_fragment off e w in
        regenerate_parity n' (d + 1) group (enc_ingest (h_alloc h w) data enc) e w
  end.

(** The payload to resend for [seq]; [None] drops the entry. *)
Definition oow_payload (seq : Z) e w : option (list Z) * W :=
  let group := seq / (FEC_GROUP_SIZE + 1) in
  let idx_in_group := seq mod (FEC_GROUP_SIZE + 1) in
  if idx_in_group =? FEC_GROUP_SIZE then
    let '(enc, w) := regenerate_parity (Z.to_nat FEC_GROUP_SIZE) 0 group
                       (enc_reset (h_alloc h w) encoder_new) e w in
    match enc with
    | None => (None, w)
    | Some enc =>
        if enc_parity_len enc =? 0 then (None, w) else (Some (enc_parity_bytes enc), w)
    end
  else
    let data_idx := u16 (group * FEC_GROUP_SIZE + idx_in_group) in
    let offset := u32 (data_idx * tr_fragment_size (te_transfer e)) in
    if offset >=? tr_size (te_transfer e) then (None, w)
    else let '(data, w) := read_fragment offset e w in (Some data, w).

(** The exit that asked, if it is alive, or else the first one alive. *)
Definition oow_destination (dst : Z) e : Z :=
  let dst_idx := arq_index_for_peer dst e in
  if (dst_idx <? 0) || negb (is_exit_alive dst_idx e) then
    let i := first_index (fun i => is_exit_alive i e) (exit_indices e) in
    aget (tr_exit_nodes (te_transfer e)) (if i <? 0 then 0 else i)
  else dst.

Definition oow_sent (now seq : Z) e : Engine :=
  e <| te_counters ::= fun c => c <| ct_oow_sent := u32 (ct_oow_sent c + 1) |> |>
    <| te_oow ::= fun q =>
         mk_oow (oq_queue q) now (aset (oq_recent q) (oq_recent_write q) (seq, now))
           (u16 (oq_recent_write q + 1) mod OOW_RECENT_RING_SIZE) |>.

(** The loop over the queue: what stays queued, in order. *)
Fixpoint oow_drain (now budget : Z) (allow : bool) (queue : list (Z * Z)) (sent : Z) e w
    : list (Z * Z) * Engine * W :=
  match queue with
  | [] => ([], e, w)
  | (seq, dst) :: queue' =>
      let keep dst sent e w :=
        let '(kept, e, w) := oow_drain now budget allow queue' sent e w in
        ((seq, dst) :: kept, e, w) in
      if negb allow || (sent >=? budget) then keep dst sent e w
      else
        match oow_payload seq e w with
        | (None, w) => oow_drain now budget allow queue' sent e w
        | (Some data, w) =>
            if Z.of_nat (length data) =? 0 then keep dst sent e w
            else
              let dst := oow_destination dst e in
              let '(rc, e, w) := engine_send h dst DATA data seq e w in
              if rc <? 0 then ((seq, dst) :: queue', e, w)
              else oow_drain now budget allow queue' (sent + 1) (oow_sent now seq e) w
        end
  end.

(** [(oow_interval_ms, oow_send_budget)] *)
Definition oow_pacing e : Z * Z :=
  let interval := kOowRetxBaseMs + kOowRetxPerHopMs * tm_hops_est (te_timers e) in
  let count := Z.of_nat (length (oq_queue (te_oow e))) in
  if count >=? kOowBacklogCriticalWater then (kOowMinIntervalMs, 4)
  else if count >=? kOowBacklogHighWater then (if interval >? 15 then 15 else interval, 2)
  else (interval, kMaxOowRetxPerTick).

Definition oow_phase (now : Z) e w : Engine * W :=
  let '(interval, budget) := oow_pacing e in
  let allow := u32 (now - oq_last_ms (te_oow e)) >=? interval in
  match oq_queue (te_oow e), tr_read_chunk (te_transfer e) with
  | [], _ | _, None => (e, w)
  | queue, Some _ =>
      let '(kept, e, w) := oow_drain now budget allow queue 0 e w in
      (e <| te_oow ::= fun q => q <| oq_queue := kept |> |>, w)
  end.

(** ** Redistribution and new fragments *)

(** The file offset of a data fragment's sequence number. *)
Definition seq_offset (seq : Z) e : Z :=
  let group := seq / (FEC_GROUP_SIZE + 1) in
  let idx_in_group := seq mod (FEC_GROUP_SIZE + 1) in
  let data_idx := u16 (group * FEC_GROUP_SIZE + idx_in_group) in
  u32 (data_idx * tr_fragment_size (te_transfer e)).

Fixpoint redist_drain (pending : list Z) e w : list Z * Engine * W :=
  match pending with
  | [] => ([], e, w)
  | seq :: pending' =>
      let keep e w :=
        let '(kept, e, w) := redist_drain pending' e w in (seq :: kept, e, w) in
      let target := select_mesh_target_for_seq seq e in
      if target <? 0 then keep e w
      else if can_send_sequence seq (aget (te_arq e) target) then
        let '(data, w) := read_fragment (seq_offset seq e) e w in
        let '(ret, e, w) := arq_send_fragment h target seq data e w in
        if ret <? 0 then keep e w else redist_drain pending' e w
      else keep e w
  end.

Definition count_sent (now idx : Z) e : Engine :=
  e <| te_paths ::= fun l => aset l idx (aget l idx <| ep_sent ::= fun n => u32 (n + 1) |>) |>
    <| te_weight_counter ::= fun n => u16 (n + 1) |>
    <| te_transfer ::= fun t => t <| tr_next_fragment ::= fun n => u16 (n + 1) |> |>
    <| te_timers ::= fun t => t <| tm_last_mesh_frag_send_ms := now |> |>.

(** [while (next_fragment < fragment_count && new_sent < max_new)]; [fuel]
    is the number of fragments not yet fed. *)
Fixpoint feed_new (fuel : nat) (now max_new new_sent : Z) e w : Engine * W :=
  match fuel with
  | O => (e, w)
  | S fuel' =>
      let t := te_transfer e in
      if (tr_next_fragment t <? tr_fragment_count t) && (new_sent <? max_new) then
        let seq := tr_next_fragment t in
        let idx := select_mesh_target_for_seq seq e in
        if idx <? 0 then (e, w)
        else if seq mod (FEC_GROUP_SIZE + 1) =? FEC_GROUP_SIZE then
          let '(ret, e, w) :=
            arq_send_fragment h idx seq (enc_parity_bytes (te_fec e)) e w in
          if ret <? 0 then (e, w)
          else
            let e := e <| te_fec ::= enc_reset (h_alloc h w) |> in
            feed_new fuel' now max_new (new_sent + 1) (count_sent now idx e) w
        else
          let offset := seq_offset seq e in
          if offset >=? tr_size t then
            feed_new fuel' now max_new new_sent
              (e <| te_transfer ::= fun t => t <| tr_next_fragment ::= fun n => u16 (n + 1) |> |>) w
          else
            let '(data, w) := read_fragment offset e w in
            let '(ret, e, w) := arq_send_fragment h idx seq data e w in
            if ret <? 0 then (e, w)
            else
              let e := e <| te_fec ::= enc_ingest (h_alloc h w) data |> in
              feed_new fuel' now max_new (new_sent + 1) (count_sent now idx e) w
      else (e, w)
  end.

Definition check_upload_done (now : Z) e : Engine :=
  let t := te_transfer e in
  if (tr_next_fragment t >=? tr_fragment_count t) &&
     forallb (fun i => negb (is_exit_alive i e)
                       || negb (sender_window_used (aget (te_arq e) i) >? 0)) (exit_indices e)
  then e <| te_timers ::= fun t => t <| tm_mesh_upload_done := true |>
                                     <| tm_mesh_upload_done_ms := now |> |>
  else e.

(** The new-fragment phase: pacing, weights, feeding, completion. *)
Definition feed_phase (now : Z) e w : Engine * W :=
  let pacing := kPacingBaseMs + kPacingPerHopMs * tm_hops_est (te_timers e) in
  if u32 (now - tm_last_mesh_frag_send_ms (te_timers e)) <? pacing then (e, w)
  else
    let e := if te_weight_counter e >=? WEIGHT_RECOMPUTE_INTERVAL
             then recompute_weights e <| te_weight_counter := 0 |> else e in
    let max_new := if tm_hops_est (te_timers e) >=? 2 then kMaxNewFragsMultiHop
                   else kMaxNewFragsSingleHop in
    let fuel := Z.to_nat (tr_fragment_count (te_transfer e)
                          - tr_next_fragment (te_transfer e)) in
    let '(e, w) := feed_new fuel now max_new 0 e w in
    (check_upload_done now e, w).

Definition redist_phase e w : Engine * W :=
  let '(kept, e, w) := redist_drain (te_redist e) e w in
  (e <| te_redist := kept |>, w).

Definition tick_mesh_arq e w : Engine * W :=
  if tr_exit_node_count (te_transfer e) =? 0 then (e, w)
  else
    let mesh_data_phase_done := tm_mesh_upload_done (te_timers e) in
    if count_if (fun i => is_exit_alive i e) (exit_indices e) =? 0
    then reset_sender_transfer_state h false e w
    else
      let now_pace := h_now h w in
      let '(e, w) := oow_phase now_pace e w in
      if Z.of_nat (length (oq_queue (te_oow e))) >=? kOowBacklogHighWater
      then (e <| te_cong ::= signal_congestion |>, w)
      else if mesh_data_phase_done then (e, w)
      else
        let '(e, w) := redist_phase e w in
        feed_phase now_pace e w.

Definition transfer_tick e w : Engine * W :=
  if negb (tr_active (te_transfer e)) || el_active (te_election e) then (e, w)
  else if cg_backoff_ticks (te_cong e) >? 0 then
    (e <| te_cong ::= fun c => mk_cong (cg_backoff_ticks c - 1) (cg_total_events c)
                                 (cg_total_backpressure c) |>, w)
  else if te_local_exit e then tick_local_exit_arq e w
  else tick_mesh_arq e w.

(** ** Dead exits *)

Definition queue_redist (seq : Z) e : Engine :=
  if Z.of_nat (length (te_redist e)) <? REDIST_CAPACITY
  then e <| te_redist ::= fun l => l ++ [seq] |> else e.

(** Each fragment the dead exit held: to a survivor's window if that takes it,
    else to the redistribution queue; parity is dropped. *)
Fixpoint redistribute (first_alive : Z) (pending : list Z) e w : Engine * W :=
  match pending with
  | [] => (e, w)
  | seq :: pending' =>
      if seq mod (FEC_GROUP_SIZE + 1) =? FEC_GROUP_SIZE
      then redistribute first_alive pending' e w
      else
        let target := select_mesh_target_for_seq seq e in
        let target := if target <? 0 then first_alive else target in
        if can_send_sequence seq (aget (te_arq e) target) then
          let '(data, w) := read_fragment (seq_offset seq e) e w in
          let '(ret, e, w) := arq_send_fragment h target seq data e w in
          redistribute first_alive pending'
            (if ret =? 0 then e else queue_redist seq e) w
        else redistribute first_alive pending' (queue_redist seq e) w
  end.

Definition redistribute_dead_exit (dead_idx : Z) e w : Engine * W :=
  let e := e <| te_transfer ::= fun t =>
                  t <| tr_exit_node_alive ::= fun l => aset l dead_idx false |> |> in
  let pending := snapshot_pending_sequences ARQ_WINDOW (aget (te_arq e) dead_idx) in
  let e := e <| te_arq ::= fun l => aset l dead_idx (reset_sender (aget l dead_idx)) |> in
  let first_alive := first_index (fun i => is_exit_alive i e) (exit_indices e) in
  if first_alive <? 0 then (e, w)
  else redistribute first_alive pending e w.

Definition health_step (now : Z) (ew : Engine * W) (i : Z) : Engine * W :=
  let '(e, w) := ew in
  if negb (is_exit_alive i e) then (e, w)
  else if negb (has_pending (aget (te_arq e) i)) then (e, w)
  else if u32 (now - aget (tr_last_ack_ms (te_transfer e)) i)
            >? tm_exit_node_timeout_ms (te_timers e)
  then redistribute_dead_exit i e w
  else (e, w).

Definition exit_node_health_tick (now : Z) e w : Engine * W :=
  if negb (tr_active (te_transfer e)) || el_active (te_election e)
     || (tr_exit_node_count (te_transfer e) =? 0) then (e, w)
  else fold_left (health_step now) (exit_indices e) (e, w).

Definition handle_exit_offline (exit_addr session_id : Z) e w : Engine * W :=
  if negb (tr_active (te_transfer e)) then (e, w)
  else if negb (session_id =? 0) && negb (session_id =? tr_session_id (te_transfer e))
  then (e, w)
  else
    let i := first_index (fun i => (aget (tr_exit_nodes (te_transfer e)) i =? exit_addr)
                                   && is_exit_alive i e) (exit_indices e) in
    if i <? 0 then (e, w) else redistribute_dead_exit i e w.
End arq.
