(* ===== verification/TransferHandlers.v ===== *)
(** * Transfer engine: packet handlers
    (components/mesh/transfer_engine_handlers.cpp and [handle_transfer_done])

    What an arriving TRANSFER_AD, TRANSFER_ACK, DATA, ACK, NACK and
    TRANSFER_DONE does to the engine, as candidate exit, as elected exit and
    as source. *)

From Stdlib Require Import ZArith Lia SpecFloat.
From stdpp Require Import base list numbers option sets gmap.
From S2P Require Import Prelude.
From S2P Require Import Packet.
From S2P Require Import Fec.
From S2P Require Import SelectiveRepeat.
From S2P Require Import Receiver.
From S2P Require Import ProtocolSelector.
From S2P Require Import TransferState.
From S2P Require Import TransferArq.
Open Scope Z_scope.
Open Scope flp_scope.

Definition OOW_RECENT_SUPPRESS_MS : Z := 1500.

Section handlers.
Context {W : Type} (h : Host W).
Notation Engine := (Engine W).
Implicit Types (e : Engine) (w : W) (hdr : PacketHeader).

Definition get_wifi_sta_rssi w : Z :=
  match h_sta_rssi h w with
  | Some r => i8 (if r <? -128 then -128 else if r >? 0 then 0 else r)
  | None => 0
  end.

(** [forward_meta_fn_], when set. *)
Definition forward_meta (sid : Z) (name : Filename) (src size count fsize crc : Z) w : W :=
  match h_forward_meta h with
  | Some f => f w sid name src size count fsize crc
  | None => w
  end.

(** The publication of [transfer_]'s meta for session [sid] of node [src]. *)
Definition publish_meta (sid src : Z) e w : W :=
  let t := te_transfer e in
  forward_meta sid (tr_filename t) src (u32 (tr_size t)) (tr_fragment_count t)
    (tr_fragment_size t) (tr_crc32 t) w.

Definition transfer_ack_for (sid active_transfers : Z) e w : list Z :=
  encode_transfer_ack (mk_tack sid (te_my_addr e) (get_wifi_sta_rssi w) 0 active_transfers).

Definition ad_filename_of (ad : TransferAdPayload) : Filename :=
  if (ad_filename_len ad >? 0) && (ad_filename_len ad <=? 32) && (ad_filename_len ad <? 33)
  then take (Z.to_nat (ad_filename_len ad)) (ad_filename ad) else [].

(** A C string ends at its first NUL. *)
Fixpoint c_string (bs : list Z) : list Z :=
  match bs with
  | [] => []
  | b :: bs' => if b =? 0 then [] else b :: c_string bs'
  end.

Definition become_pending (hdr : PacketHeader) (ad : TransferAdPayload) e w : Engine :=
  let now_ts := h_now h w in
  e <| te_role ::= fun r => mk_role (er_is_exit_node r) true (ad_session_id ad) (src_addr hdr) |>
    <| te_transfer ::= fun t =>
         t <| tr_size := ad_file_size ad |> <| tr_fragment_count := ad_fragment_count ad |>
           <| tr_fragment_size := u16 (ad_fragment_size_d8 ad * 8) |>
           <| tr_crc32 := ad_crc32 ad |>
           <| tr_filename := c_string (ad_filename_of ad) |> |>
    <| te_timers ::= fun t =>
         t <| tm_last_cloud_activity_ms := now_ts |> <| tm_last_meta_publish_ms := now_ts |> |>
    <| te_arq ::= fun l => aset l 0 (set_peer_addr (src_addr hdr) (aget l 0)) |>.

Definition handle_transfer_ad hdr (payload : list Z) (has_internet : bool) e w : Engine * W :=
  if Z.of_nat (length payload) <? MIN_TRANSFER_AD_LEN then (e, w)
  else
    let ad := decode_transfer_ad (resize 46 0 payload) in
    let r := te_role e in
    let serving := er_is_exit_node r || er_exit_pending r in
    if negb has_internet then (e, w)
    else if tr_active (te_transfer e) then (e, w)
    else if serving && negb (er_active_session_id r =? ad_session_id ad) then (e, w)
    else if serving && (er_active_session_id r =? ad_session_id ad) then
      let '(_, e, w) := engine_send h (src_addr hdr) TRANSFER_ACK
                          (transfer_ack_for (ad_session_id ad) 1 e w) 0 e w in
      (e, w)
    else
      let '(_, e, w) := engine_send h (src_addr hdr) TRANSFER_ACK
                          (transfer_ack_for (ad_session_id ad) 0 e w) 0 e w in
      (become_pending hdr ad e w, w).

Definition handle_transfer_ack hdr (payload : list Z) e : Engine :=
  if Z.of_nat (length payload) <? sizeof_TransferAckPayload then e
  else if negb (el_active (te_election e)) then e
  else
    let ack := decode_transfer_ack payload in
    let cands := el_candidates (te_election e) in
    if existsb (fun c => ec_addr c =? tack_exit_node_addr ack) cands then e
    else if Z.of_nat (length cands) <? 4 then
      let hops := if negb (tack_hops_to_gw ack =? 0) then tack_hops_to_gw ack
                  else tm_hops_est (te_timers e) in
      e <| te_election ::= fun l => l <| el_candidates := cands ++
             [mk_candidate (tack_exit_node_addr ack) (tack_rssi_to_gw ack) hops
                (tack_active_transfers ack)] |> |>
    else e.

(** The first DATA packet turns a pending exit into the elected one. *)
Definition activate_exit e w : Engine * W :=
  let r := te_role e in
  if er_exit_pending r && negb (er_is_exit_node r) && negb (er_active_session_id r =? 0) then
    let e := e <| te_role := mk_role true false (er_active_session_id r) (er_source_addr r) |> in
    (e, publish_meta (er_active_session_id r) (er_source_addr r) e w)
  else (e, w).

Definition handle_data hdr (payload : list Z) e w : Engine * W :=
  let r := te_role e in
  if er_is_exit_node r || er_exit_pending r then
    let '(e, w) := activate_exit e w in
    let r := te_role e in
    let '(queued, w) :=
      match h_forward_to_mqtt h with
      | Some f => f w (er_active_session_id r) (seq_num hdr) (er_source_addr r) payload
                    (tr_filename (te_transfer e))
      | None => (false, w)
      end in
    if queued then
      (e <| te_timers ::= fun t => t <| tm_last_cloud_activity_ms := h_now h w |> |>, w)
    else (e <| te_cong ::= signal_congestion |>, w)
  else
    let e := e <| te_arq ::= fun l => aset l 0 (set_peer_addr (src_addr hdr) (aget l 0)) |> in
    let s := aget (te_arq e) 0 in
    let '(_, rcv, (c, w)) :=
      receive_fragment (Some (send_fn h)) (sr_peer_addr s) (sr_window_size s)
        (sr_timeout_ms s) (h_now h w) (seq_num hdr) payload (te_receiver e)
        (te_cong e, w) in
    (e <| te_receiver := rcv |> <| te_cong := c |>, w).

(** The RTT sample of an acknowledged fragment in the exit's statistics. *)
Definition path_rtt_sample (now send_time : Z) (p : ExitPathStats) : ExitPathStats :=
  if (send_time >? 0) && (now >? send_time) then
    p <| ep_ewma_rtt_ms ::= fun rtt =>
           f32_add (f32_mul ALPHA (f32_of_Z (u32 (now - send_time))))
             (f32_mul (f32_sub f32_one ALPHA) rtt) |>
  else p.

Definition handle_ack (seq from_addr : Z) e w : Engine :=
  let idx := arq_index_for_peer from_addr e in
  if idx <? 0 then e
  else
    let now := h_now h w in
    let s := aget (te_arq e) idx in
    let tracked := contains_sequence seq s in
    let send_time := if tracked then get_send_time seq s else 0 in
    let e := e <| te_arq ::= fun l => aset l idx (SelectiveRepeat.handle_ack now seq s) |> in
    if tracked then
      e <| te_paths ::= fun l =>
             aset l idx (path_rtt_sample now send_time (aget l idx)
                           <| ep_acked ::= fun n => u32 (n + 1) |>) |>
        <| te_transfer ::= fun t => t <| tr_last_ack_ms ::= fun l => aset l idx now |> |>
    else e.

Definition count_nack (idx : Z) e : Engine :=
  e <| te_paths ::= fun l =>
         aset l idx (aget l idx <| ep_nacked ::= fun n => u32 (n + 1) |>) |>.

Definition recently_resent (now seq : Z) e : bool :=
  existsb (fun x => negb ((x.2 =? 0) || negb (x.1 =? seq))
                    && (u32 (now - x.2) <? OOW_RECENT_SUPPRESS_MS)) (oq_recent (te_oow e)).

(** The tail of [handle_nack]: a NACK for a fragment that no window holds. *)
Definition queue_out_of_window (seq from_addr : Z) e w : Engine :=
  let t := te_transfer e in
  let queue := oq_queue (te_oow e) in
  if negb (tr_active t) || (seq >=? tr_fragment_count t) then e
  else if existsb (fun x => x.1 =? seq) queue then
    e <| te_oow ::= fun q => q <| oq_queue :=
           update_first (fun x => x.1 =? seq) (fun x => (x.1, from_addr)) queue |> |>
  else if recently_resent (h_now h w) seq e then e
  else if Z.of_nat (length queue) <? OOW_RETX_QUEUE_SIZE then
    e <| te_oow ::= fun q => q <| oq_queue := queue ++ [(seq, from_addr)] |> |>
      <| te_counters ::= fun c => c <| ct_oow_queued := u32 (ct_oow_queued c + 1) |> |>
  else e.

Definition handle_nack (seq from_addr : Z) e w : Engine * W :=
  let idx := arq_index_for_peer from_addr e in
  if idx <? 0 then
    let idx := arq_index_for_sequence seq e in
    if idx <? 0 then (e, w)
    else arq_handle_nack h idx seq (count_nack idx e) w
  else if contains_sequence seq (aget (te_arq e) idx) then
    arq_handle_nack h idx seq (count_nack idx e) w
  else if arq_index_for_sequence seq e >=? 0 then (e, w)
  else (queue_out_of_window seq from_addr e w, w).

Definition handle_transfer_done (sender : Z) (payload : list Z) e w : Engine * W :=
  if negb (tr_active (te_transfer e)) then (e, w)
  else if Z.of_nat (length payload) <? sizeof_TransferDonePayload then (e, w)
  else
    let done := decode_transfer_done payload in
    if negb (done_session_id done =? tr_session_id (te_transfer e)) then (e, w)
    else if negb (sender =? done_exit_node_addr done)
            || (arq_index_for_peer (done_exit_node_addr done) e <? 0) then (e, w)
    else reset_sender_transfer_state h true e w.
End handlers.
