(* ===== verification/TransferEngine.v ===== *)
(** * Transfer engine: transfers, election and the periodic tick
    (components/mesh/transfer_engine.cpp)

    Starting a file transfer, announcing it, electing the exits that answered,
    and the tick that runs retransmission, session upkeep, the exit role's
    relaying, election, health checks and feeding in the code's order. *)

From Stdlib Require Import ZArith Lia SpecFloat.
From stdpp Require Import base list numbers option sets gmap sorting.
From S2P Require Import Prelude.
From S2P Require Import Packet.
From S2P Require Import Fec.
From S2P Require Import SelectiveRepeat.
From S2P Require Import Receiver.
From S2P Require Import ProtocolSelector.
From S2P Require Import TransferState.
From S2P Require Import TransferArq.
From S2P Require Import TransferHandlers.
Open Scope Z_scope.
Open Scope flp_scope.

Definition BROADCAST_INITIAL_BACKOFF_MS : Z := 500.
Definition MAX_TOTAL_MESH_RETX_PER_TICK : Z := 4.

(** ** Election arithmetic *)

Definition candidate_score (c : ExitCandidate) : Z :=
  i16 (ec_rssi_to_gw c - i16 (6 * ec_hops_to_gw c) - i16 (32 * ec_active_transfers c)).

(** Candidates beside their scores, the two arrays the code sorts together. *)
Notation Scored := (Z * ExitCandidate)%type.

Definition best_score (scored : list Scored) : Z :=
  fold_left (fun best x => if x.1 >? best then x.1 else best) scored (-32000).

(** The inner loop of the insertion sort: shift lower scores right. *)
Fixpoint shift_scored (fuel : nat) (j : Z) (key : Scored) (out : list Scored) : list Scored :=
  match fuel with
  | O => out
  | S fuel' =>
      if (j >=? 0) && ((aget out j).1 <? key.1)
      then shift_scored fuel' (j - 1) key (aset out (j + 1) (aget out j))
      else aset out (j + 1) key
  end.

Fixpoint sort_passes (n : nat) (i : Z) (out : list Scored) : list Scored :=
  match n with
  | O => out
  | S n' => sort_passes n' (i + 1) (shift_scored (S (length out)) (i8 i - 1) (aget out i) out)
  end.

Definition sort_candidates (scored : list Scored) : list Scored :=
  sort_passes (length scored - 1) 1 scored.

Definition election_threshold (best : Z) : Z :=
  let margin := i16 (Z.quot (Z.abs best * 2) 3) in
  let margin := if margin <? 6 then 6 else margin in
  i16 (best - margin).

(** The candidates accepted, in order: at most [limit] of those at or above
    the threshold. *)
Fixpoint accepted_candidates (limit : nat) (threshold : Z) (scored : list Scored)
    : list ExitCandidate :=
  match scored, limit with
  | [], _ | _, O => []
  | (score, c) :: scored', S limit' =>
      if score >=? threshold then c :: accepted_candidates limit' threshold scored'
      else accepted_candidates limit threshold scored'
  end.

(** [elected] is [CONFIG_FLP_MAX_ELECTED_EXITS]. *)
Definition accept_limit (elected : Z) : Z :=
  let n := u8 elected in if n >? MAX_EXIT_NODES then MAX_EXIT_NODES else n.

(** The exits a list of candidates elects: those accepted, or the best one
    when none passes. *)
Definition elect (elected : Z) (cands : list ExitCandidate) : list Scored * list ExitCandidate :=
  let scored := map (fun c => (candidate_score c, c)) cands in
  let sorted := sort_candidates scored in
  let threshold := election_threshold (best_score scored) in
  let winners := accepted_candidates (Z.to_nat (accept_limit elected)) threshold sorted in
  (sorted, match winners, sorted with
           | [], (_, c) :: _ => [c]
           | _, _ => winners
           end).

Section tick.
Context {W : Type} (h : Host W).
Notation Engine := (Engine W).
Implicit Types (e : Engine) (w : W).

(** ** Broadcast retry *)

Definition send_broadcast_with_retry (t : PacketType) (payload : list Z)
    (dst max_retries : Z) e : Engine :=
  if Z.of_nat (length payload) >? MAX_MTU then e
  else e <| te_retry := mk_retry payload t dst max_retries 0 0
                          BROADCAST_INITIAL_BACKOFF_MS true |>.

Definition broadcast_due (now : Z) (b : BroadcastRetry) : bool :=
  br_active b && negb (i32 (now - br_next_send_ms b) <? 0).

Definition broadcast_next (now : Z) (b : BroadcastRetry) : BroadcastRetry :=
  let b := b <| br_attempt ::= fun n => u8 (n + 1) |> in
  if br_attempt b >=? br_max_retries b then b <| br_active := false |>
  else b <| br_next_send_ms := u32 (now + br_backoff_ms b) |>
         <| br_backoff_ms ::= fun t => u32 (t * 2) |>.

Definition broadcast_retry_tick (now : Z) e w : Engine * W :=
  let b := te_retry e in
  if broadcast_due now b then
    let '(_, e, w) := engine_send h (br_dst_addr b) (br_type b) (br_payload b) 0 e w in
    (e <| te_retry ::= broadcast_next now |>, w)
  else (e, w).

(** ** Election *)

(** Exit slot [i] for candidate [c]. *)
Definition accept_exit (now : Z) e (ic : nat * ExitCandidate) : Engine :=
  let '(i, c) := ic in
  let i := Z.of_nat i in
  e <| te_transfer ::= fun t =>
         t <| tr_exit_nodes ::= fun l => aset l i (ec_addr c) |>
           <| tr_exit_node_alive ::= fun l => aset l i true |>
           <| tr_last_ack_ms ::= fun l => aset l i now |> |>
    <| te_arq ::= fun l =>
         aset l i (set_peer_addr (ec_addr c) (reset_sender (aget l i))) |>
    <| te_paths ::= fun l =>
         aset l i (path_stats_new <| ep_ewma_rtt_ms :=
                     f32_of_Z (compute_arq_timeout_ms (ec_hops_to_gw c)) |>) |>.

Definition set_strides (count : nat) (arq : list Sender) : list Sender :=
  imap (fun i s => if (i <? count)%nat then set_exit_stride (Z.of_nat count) (Z.of_nat i) s
                   else s) arq.

Definition election_timeout_tick (elected now_ms : Z) e w : Engine * W :=
  let l := te_election e in
  if negb (el_active l) || (u32 (now_ms - el_start_ms l) <=? el_timeout_ms l) then (e, w)
  else
    let e := e <| te_election ::= fun l => l <| el_active := false |> |> in
    match el_candidates l with
    | [] => reset_sender_transfer_state h false e w
    | cands =>
        let '(sorted, winners) := elect elected cands in
        let e := fold_left (accept_exit (h_now h w)) (imap pair winners) e in
        let count := length winners in
        let e := e <| te_election ::= fun l => l <| el_candidates := map snd sorted |> |>
                   <| te_transfer ::= fun t =>
                        t <| tr_exit_node_count := Z.of_nat count |>
                          <| tr_next_fragment := 0 |> |>
                   <| te_weight_counter := 0 |>
                   <| te_arq ::= set_strides count |> in
        (e, h_set_bits h w FLP_EVT_EXIT_NODE_ELECTED)
    end.

(** ** Starting a transfer *)

Definition make_buffer_reader (data : list Z) (size : Z) : ReadChunkFn W := fun w offset len =>
  if offset >=? size then ([], w)
  else
    let avail := size - offset in
    let len := if len >? avail then avail else len in
    (take (Z.to_nat len) (drop (Z.to_nat offset) data), w).

(** The CRC over reads of at most 512 bytes; a read of nothing ends it. *)
Fixpoint crc_file (fuel : nat) (read : ReadChunkFn W) (size off crc : Z) w : Z * W :=
  match fuel with
  | O => (crc, w)
  | S fuel' =>
      if off <? size then
        let chunk := if size - off <? 512 then size - off else 512 in
        let '(buf, w) := read w off chunk in
        if Z.of_nat (length buf) =? 0 then (crc, w)
        else crc_file fuel' read size (u32 (off + Z.of_nat (length buf)))
               (h_crc32_le h crc buf) w
      else (crc, w)
  end.

(** Sequence numbers of a mesh transfer: a parity after every full group. *)
Definition mesh_fragment_count (data_frags : Z) : Z :=
  let full_groups := u16 (data_frags / FEC_GROUP_SIZE) in
  let remaining := u16 (data_frags mod FEC_GROUP_SIZE) in
  u16 (full_groups * (FEC_GROUP_SIZE + 1) + remaining).

Definition data_frags_of (size : Z) : Z :=
  u16 (u32 (size + DEFAULT_TRANSFER_FRAGMENT_SIZE - 1) / DEFAULT_TRANSFER_FRAGMENT_SIZE).

(** The fields both paths set, up to the choice of the path. *)
Definition prepare_transfer (filename : Filename) (size : Z) (read : ReadChunkFn W)
    (hops : Z) e w : Engine * W :=
  let fec := enc_reset (h_alloc h w) (te_fec e) in
  let '(raw, w) := h_random h w in
  let raw := u16 raw in
  let '(crc, w) := crc_file (S (Z.to_nat size)) read size 0 0 w in
  let now := h_now h w in
  let e := e <| te_fec := fec |>
    <| te_transfer ::= fun t =>
         t <| tr_read_chunk := Some read |> <| tr_size := size |>
           <| tr_fragment_size := u16 DEFAULT_TRANSFER_FRAGMENT_SIZE |>
           <| tr_next_fragment := 0 |> <| tr_active := true |>
           <| tr_session_id := if negb (raw =? 0) then raw else 1 |>
           <| tr_filename := take 32 filename |> <| tr_crc32 := crc |> |>
    <| te_timers ::= fun t =>
         t <| tm_last_meta_publish_ms := now |> <| tm_hops_est := hops |>
           <| tm_exit_node_timeout_ms := compute_exit_timeout_ms hops |> |> in
  (reset_telemetry now e, w).

Definition reject_transfer e : Engine :=
  e <| te_transfer ::= fun t => t <| tr_active := false |> |>.

Definition start_local_exit (filename : Filename) (size : Z) e w : bool * Engine * W :=
  let data_frags := data_frags_of size in
  let e := e <| te_local_exit := true |>
    <| te_timers ::= fun t =>
         t <| tm_hops_est := 0 |>
           <| tm_exit_node_timeout_ms := BASE_EXIT_NODE_TIMEOUT_MS |> |> in
  if data_frags >? MAX_CLOUD_FRAGMENTS then (false, reject_transfer e, w)
  else
    let e := e <| te_transfer ::= fun t => t <| tr_fragment_count := data_frags |> |> in
    if data_frags >? 60000 then (false, reject_transfer e, w)
    else
      let now := h_now h w in
      let e := e <| te_cloud := cloud_idle |>
        <| te_timers ::= fun t => t <| tm_last_cloud_activity_ms := now |> |> in
      let t := te_transfer e in
      (true, e, forward_meta h (tr_session_id t) filename (te_my_addr e) (u32 size)
                  (tr_fragment_count t) (tr_fragment_size t) (tr_crc32 t) w).

Definition transfer_ad_of (filename : Filename) (size : Z) e : TransferAdPayload :=
  let t := te_transfer e in
  let name := take 32 filename in
  mk_ad (tr_session_id t) (u32 size) (u8 (tr_fragment_size t / 8)) (tr_crc32 t)
    (tr_fragment_count t) (u8 (Z.of_nat (length name))) (resize 32 0 name).

Definition start_mesh (filename : Filename) (size hops : Z) e w : bool * Engine * W :=
  let e := e <| te_local_exit := false |>
    <| te_transfer ::= fun t =>
         t <| tr_fragment_count := mesh_fragment_count (data_frags_of size) |> |> in
  if tr_fragment_count (te_transfer e) >? 60000 then (false, reject_transfer e, w)
  else
    let now := h_now h w in
    let arq_timeout := compute_arq_timeout_ms hops in
    let min_rto_floor := compute_min_rto_floor_ms hops in
    let e := e <| te_election := mk_election [] now true (compute_election_timeout_ms hops) |>
      <| te_timers ::= fun t => t <| tm_window_cap := compute_mesh_window_cap hops |> |>
      <| te_arq ::= map (fun s => set_min_rto_floor min_rto_floor
                                    (set_timeout arq_timeout s)) |> in
    (true, send_broadcast_with_retry TRANSFER_AD
             (encode_transfer_ad (transfer_ad_of filename size e)) EXIT_ANY_ADDR 3 e, w).

Definition start_file_transfer (filename : Filename) (size : Z) (read : ReadChunkFn W)
    (has_internet has_mqtt : bool) (hops_to_internet : Z) e w : bool * Engine * W :=
  if tr_active (te_transfer e) then (false, e, w)
  else if er_is_exit_node (te_role e) then (false, e, w)
  else
    let hops := sanitize_hops_to_exit hops_to_internet in
    let '(e, w) := prepare_transfer filename size read hops e w in
    if has_internet && has_mqtt && bool_decide (is_Some (h_forward_to_mqtt h))
    then start_local_exit filename size e w
    else start_mesh filename size hops e w.

(** ** Tick *)

(** ARQ retransmits of an active mesh transfer, within a shared budget. *)
Fixpoint retx_loop (exits : list Z) (budget used : Z) e w : Z * Engine * W :=
  match exits with
  | [] => (used, e, w)
  | i :: exits' =>
      if negb (budget >? 0) then (used, e, w)
      else if negb (is_exit_alive i e) then retx_loop exits' budget used e w
      else
        let '(sent, e, w) := arq_tick h i budget e w in
        retx_loop exits' (if sent >=? budget then 0 else u8 (budget - sent))
          (u8 (used + sent)) e w
  end.

Fixpoint tick_all (indices : list Z) e w : Engine * W :=
  match indices with
  | [] => (e, w)
  | i :: indices' => let '(_, e, w) := arq_tick h i 8 e w in tick_all indices' e w
  end.

Definition retx_phase e w : Engine * W :=
  let '(used, e, w) :=
    if tr_active (te_transfer e) && negb (te_local_exit e)
    then retx_loop (exit_indices e) MAX_TOTAL_MESH_RETX_PER_TICK 0 e w
    else let '(e, w) := tick_all (seqZ 0 MAX_EXIT_NODES) e w in (0, e, w) in
  (e <| te_counters ::= fun c => c <| ct_mesh_retx_sent := u32 (ct_mesh_retx_sent c + used) |> |>,
   w).

(** Some window has given up on a fragment. *)
Definition arq_failed e : bool :=
  tr_active (te_transfer e) && negb (te_local_exit e)
  && existsb (fun i => is_sender_failed (aget (te_arq e) i)) (exit_indices e).

Definition republish_meta (now : Z) e w : Engine * W :=
  let t := te_timers e in
  let due := bool_decide (is_Some (h_forward_meta h)) && (tm_last_meta_publish_ms t >? 0)
             && (u32 (now - tm_last_meta_publish_ms t) >? META_REPUBLISH_INTERVAL_MS) in
  let flowing := (tm_last_cloud_activity_ms t >? 0)
                 && (u32 (now - tm_last_cloud_activity_ms t) <? 15000) in
  let serving := (te_local_exit e && tr_active (te_transfer e)) || er_is_exit_node (te_role e) in
  if due && (flowing && serving) then
    let sid := if te_local_exit e then tr_session_id (te_transfer e)
               else er_active_session_id (te_role e) in
    let src := if te_local_exit e then te_my_addr e else er_source_addr (te_role e) in
    (e <| te_timers ::= fun t => t <| tm_last_meta_publish_ms := now |> |>,
     publish_meta h sid src e w)
  else (e, w).

(** The stall check; [true] is the early [return]. *)
Definition stall_check (now : Z) e w : bool * Engine * W :=
  let t := te_timers e in
  if (tm_last_cloud_activity_ms t >? 0)
     && (u32 (now - tm_last_cloud_activity_ms t) >? CLOUD_STALL_TIMEOUT_MS) then
    if te_local_exit e && tr_active (te_transfer e) then
      let '(e, w) := reset_sender_transfer_state h true e w in (true, e, w)
    else if tm_mesh_upload_done t && tr_active (te_transfer e) && negb (te_local_exit e) then
      let '(e, w) := reset_sender_transfer_state h false e w in (true, e, w)
    else if er_is_exit_node (te_role e) || er_exit_pending (te_role e) then
      let '(e, w) := clear_exit_node_state h e w in (false, e, w)
    else (false, e, w)
  else (false, e, w).

Definition requeue (f : option (RequeueSeqFn W)) (sid seq : Z) w : W :=
  match f with Some g => g w sid seq | None => w end.

(** Cloud NACKs forwarded to the source while the transmitter takes them. *)
Fixpoint forward_nacks (fuel : nat) (drain : DrainSeqFn W) (now : Z) e w : Engine * W :=
  match fuel with
  | O => (e, w)
  | S fuel' =>
      let sid := er_active_session_id (te_role e) in
      match drain w sid with
      | (None, w) => (e, w)
      | (Some seq, w) =>
          let w := observe_nack h sid seq w in
          let '(rc, e, w) := engine_send h (er_source_addr (te_role e)) NACK [] seq e w in
          if rc <? 0 then (e, requeue (h_requeue_cloud_nack h) sid seq w)
          else forward_nacks fuel' drain now
                 (e <| te_timers ::= fun t => t <| tm_last_cloud_activity_ms := now |> |>) w
      end
  end.

(** Fragments the MQTT client accepted, acknowledged to the source. *)
Fixpoint forward_acks (fuel : nat) (drain : DrainSeqFn W) e w : Engine * W :=
  match fuel with
  | O => (e, w)
  | S fuel' =>
      let sid := er_active_session_id (te_role e) in
      match drain w sid with
      | (None, w) => (e, w)
      | (Some seq, w) =>
          let '(rc, e, w) := engine_send h (er_source_addr (te_role e)) ACK [] seq e w in
          if rc <? 0 then (e, requeue (h_requeue_fragment_ack h) sid seq w)
          else forward_acks fuel' drain e w
      end
  end.

Definition forward_done e w : Engine * W :=
  match h_transfer_complete h with
  | Some f =>
      let sid := er_active_session_id (te_role e) in
      let '(complete, w) := f w sid in
      if complete then
        let '(_, e, w) := engine_send h (er_source_addr (te_role e)) TRANSFER_DONE
              (encode_transfer_done (mk_done sid (te_my_addr e))) 0 e w in
        clear_exit_node_state h e w
      else (e, w)
  | None => (e, w)
  end.

(** The exit role's part of a tick. *)
Definition exit_phase (now : Z) e w : Engine * W :=
  let is_exit e := er_is_exit_node (te_role e) in
  let '(e, w) :=
    match h_drain_cloud_nack h with
    | Some drain => if is_exit e then forward_nacks (S (h_backlog h w)) drain now e w
                    else (e, w)
    | None => (e, w)
    end in
  let '(e, w) :=
    match h_drain_fragment_ack h with
    | Some drain => if is_exit e then forward_acks (S (h_backlog h w)) drain e w else (e, w)
    | None => (e, w)
    end in
  if is_exit e then forward_done e w else (e, w).

Definition note_inflight e : Engine :=
  let inflight := if te_local_exit e
                  then u16 (ca_next_send (te_cloud e) - ca_base_seq (te_cloud e))
                  else total_mesh_inflight e in
  e <| te_counters ::= fun c =>
         c <| ct_max_inflight ::= fun m => if inflight >? m then inflight else m |> |>.

Definition tick (elected now : Z) e w : Engine * W :=
  let '(e, w) := retx_phase e w in
  if arq_failed e then reset_sender_transfer_state h false e w
  else
    let '(e, w) := republish_meta now e w in
    let '(stalled, e, w) := stall_check now e w in
    if stalled then (e, w)
    else
      let '(e, w) := exit_phase now e w in
      let '(e, w) := broadcast_retry_tick now e w in
      let '(e, w) := election_timeout_tick elected now e w in
      let '(e, w) := exit_node_health_tick h now e w in
      let '(e, w) := transfer_tick h e w in
      (note_inflight e, w).
End tick.
