(* ===== verification/TransferDemo.v ===== *)
(** * A concrete host for the transfer engine

    An executable instance of [Host]: a world that holds the clock, the queues
    of the MQTT client and a log of what was sent and published. The
    witnesses of the engine's theorems run the engine on it. *)

From Stdlib Require Import ZArith Lia SpecFloat.
From stdpp Require Import base list numbers option sets gmap.
From S2P Require Import Prelude.
From S2P Require Import Packet.
From S2P Require Import Fec.
From S2P Require Import SelectiveRepeat.
From S2P Require Import Receiver.
From S2P Require Import ProtocolSelector.
From S2P Require Import TransferState.
From S2P Require Import TransferArq.
From S2P Require Import TransferHandlers.
From S2P Require Import TransferEngine.
Open Scope Z_scope.
Open Scope flp_scope.

Inductive DemoEvent :=
  | Sent (dst : Z) (t : PacketType) (data : list Z) (seq : Z)
  | Published (sid seq src : Z) (data : list Z)
  | MetaPublished (sid src size count : Z)
  | Signalled (b : EventBit)
  | Ended (sid : Z).

Record DemoWorld := mk_demo {
  dw_now : Z;
  dw_acks : list Z;       (* cloud ACK queue *)
  dw_nacks : list Z;      (* cloud NACK queue *)
  dw_log : list DemoEvent
}.
#[export] Instance eta_DemoWorld : Eta DemoWorld := fun w =>
  mk_demo (dw_now w) (dw_acks w) (dw_nacks w) (dw_log w).

Definition demo_log (x : DemoEvent) (w : DemoWorld) : DemoWorld :=
  w <| dw_log ::= fun l => l ++ [x] |>.

Definition demo_pop (queue : list Z) (put : list Z → DemoWorld) (w : DemoWorld)
    : option Z * DemoWorld :=
  match queue with
  | [] => (None, w)
  | seq :: queue' => (Some seq, put queue')
  end.

(** Random numbers are 7, the CRC is a byte sum, every send succeeds. *)
Definition demo_host : Host DemoWorld :=
  mk_host dw_now (fun w => (7, w)) (fun _ => true)
    (fun crc bs => u32 (fold_left Z.add bs crc)) (fun _ => Some (-60))
    (fun w b => demo_log (Signalled b) w) (fun _ => false)
    (fun w dst t data seq => (TRANSPORT_SEND_OK, demo_log (Sent dst t data seq) w))
    (Some (fun w sid seq src data _ => (true, demo_log (Published sid seq src data) w)))
    (Some (fun w sid _ src size count _ _ => demo_log (MetaPublished sid src size count) w))
    (Some (fun w _ => demo_pop (dw_acks w) (fun q => w <| dw_acks := q |>) w))
    (Some (fun w _ => demo_pop (dw_nacks w) (fun q => w <| dw_nacks := q |>) w))
    (Some (fun w _ seq => w <| dw_nacks ::= fun q => q ++ [seq] |>))
    None None None None
    (Some (fun w sid => demo_log (Ended sid) w))
    (fun w => (length (dw_acks w) + length (dw_nacks w))%nat).

Definition demo_world (now : Z) : DemoWorld := mk_demo now [] [] [].

(** A node with address 1 and two windows, as [init] leaves it. *)
Definition demo_node : Engine DemoWorld :=
  TransferState.init 2 (fun _ => true) 1 engine_new.

Lemma triple_eq {A B C} (x : A * B * C) a : x.1.1 = a → x = (a, x.1.2, x.2).
Proof. by destruct x as [[? ?] ?]; intros <-. Qed.
