(* ===== verification/TransferRoles.v ===== *)
(** * Transfer engine: roles and sessions

    When the engine takes, keeps and leaves the exit role, when a transfer may
    start and end, and the announcement's retry schedule. Four theorems show
    sequences of events that the guards of the code do not separate. *)

From Stdlib Require Import ZArith Lia SpecFloat.
From stdpp Require Import base list numbers option sets gmap.
From S2P Require Import Prelude.
From S2P Require Import Packet.
From S2P Require Import Fec.
From S2P Require Import SelectiveRepeat.
From S2P Require Import Receiver.
From S2P Require Import ProtocolSelector.
From S2P Require Import TransferState.
From S2P Require Import TransferArq.
From S2P Require Import TransferHandlers.
From S2P Require Import TransferEngine.
From S2P Require Import TransferDemo.
Open Scope Z_scope.
Open Scope flp_scope.

(** Projections of an updated record. *)
Ltac proj_upd := cbn [update_field
  te_events te_my_addr te_arq te_receiver te_transfer te_retry te_election te_role
  te_local_exit te_cloud te_redist te_oow te_cong te_timers te_paths te_weight_counter te_fec
  te_counters
  tr_read_chunk tr_size tr_crc32 tr_fragment_count tr_fragment_size tr_next_fragment
  tr_exit_nodes tr_exit_node_count tr_session_id tr_filename tr_active tr_exit_node_alive
  tr_last_ack_ms
  tm_exit_node_timeout_ms tm_hops_est tm_window_cap tm_last_cloud_activity_ms
  tm_last_mesh_frag_send_ms tm_mesh_upload_done tm_mesh_upload_done_ms tm_transfer_start_ms
  tm_last_meta_publish_ms
  er_is_exit_node er_exit_pending er_active_session_id er_source_addr
  el_candidates el_start_ms el_active el_timeout_ms
  ca_ack_bitmap ca_base_seq ca_next_send ca_retx_queue
  oq_queue oq_last_ms oq_recent oq_recent_write
  cg_backoff_ticks cg_total_events cg_total_backpressure
  ct_mesh_retx_sent ct_oow_queued ct_oow_sent ct_max_inflight
  br_payload br_type br_dst_addr br_max_retries br_attempt br_next_send_ms br_backoff_ms
  br_active fst snd].

Definition serving (r : ExitRole) : bool := er_is_exit_node r || er_exit_pending r.

Section roles.
Context {W : Type} (h : Host W).
Notation Engine := (Engine W).
Implicit Types (e : Engine) (w : W).

(** [engine_send] touches the congestion state only. *)
Lemma engine_send_frame dst t payload seq e w :
  ∃ rc c w', engine_send h dst t payload seq e w = (rc, e <| te_cong := c |>, w').
Proof.
  unfold engine_send. destruct (send_fn h _ _ _ _ _) as [rc [c w']]. by exists rc, c, w'.
Qed.

Lemma first_index_range p l : first_index p l = -1 ∨ (first_index p l ∈ l ∧ p (first_index p l) = true).
Proof.
  unfold first_index. destruct (find_first p l) eqn:E; cbn; [ | by left ].
  right. by apply find_first_Some in E.
Qed.

Lemma first_index_neg p l :
  (∀ i, i ∈ l → 0 <= i) → (first_index p l <? 0) = true ↔ ∀ i, i ∈ l → p i = false.
Proof.
  intros Hl. unfold first_index. destruct (find_first p l) eqn:E; cbn.
  - apply find_first_Some in E as [Hin Hp]. specialize (Hl _ Hin).
    split; [ lia | ]. intros H. rewrite H in Hp by done. done.
  - split; [ | done ]. intros _. by apply find_first_None.
Qed.

Lemma exit_indices_range e i :
  i ∈ exit_indices e ↔ 0 <= i < tr_exit_node_count (te_transfer e).
Proof. unfold exit_indices. rewrite elem_of_seqZ. lia. Qed.

(** The exit role is taken only when it is free. An advertisement that is
    too short, arrives without internet, finds an own transfer active, or
    names another session than the one served changes nothing at all. One
    for the session already served is only acknowledged again (marked busy).
    Otherwise the acknowledgement goes out and the engine becomes the pending
    exit of the advertised session, source, sizes and CRC. *)
Theorem exit_role_isolation hdr payload has_internet e w :
  let ad := decode_transfer_ad (resize 46 0 payload) in
  let r := te_role e in
  let '(e', w') := handle_transfer_ad h hdr payload has_internet e w in
  ((Z.of_nat (length payload) < MIN_TRANSFER_AD_LEN ∨ has_internet = false ∨
    tr_active (te_transfer e) = true ∨
    (serving r = true ∧ er_active_session_id r ≠ ad_session_id ad)) →
     e' = e ∧ w' = w) ∧
  (MIN_TRANSFER_AD_LEN <= Z.of_nat (length payload) → has_internet = true →
   tr_active (te_transfer e) = false →
   (serving r = true → er_active_session_id r = ad_session_id ad →
      (∃ c, e' = e <| te_cong := c |>) ∧
      w' = (engine_send h (src_addr hdr) TRANSFER_ACK
              (transfer_ack_for h (ad_session_id ad) 1 e w) 0 e w).2) ∧
   (serving r = false →
      te_role e' = mk_role false true (ad_session_id ad) (src_addr hdr) ∧
      tr_active (te_transfer e') = false ∧
      tr_size (te_transfer e') = ad_file_size ad ∧
      tr_fragment_count (te_transfer e') = ad_fragment_count ad ∧
      tr_crc32 (te_transfer e') = ad_crc32 ad ∧
      w' = (engine_send h (src_addr hdr) TRANSFER_ACK
              (transfer_ack_for h (ad_session_id ad) 0 e w) 0 e w).2)).
Proof.
  intros ad r. unfold handle_transfer_ad. cbv zeta. fold ad r. fold (serving r).
  destruct (Z.ltb_spec (Z.of_nat (length payload)) MIN_TRANSFER_AD_LEN); [ by split; [ | lia ] | ].
  destruct has_internet; cbn [negb]; [ | by split ].
  destruct (tr_active (te_transfer e)) eqn:Ea; [ by split | ].
  destruct (Z.eqb_spec (er_active_session_id r) (ad_session_id ad)) as [Es | Es];
    destruct (serving r) eqn:Hr; cbn [negb andb].
  - destruct (engine_send_frame (src_addr hdr) TRANSFER_ACK
      (transfer_ack_for h (ad_session_id ad) 1 e w) 0 e w) as (rc & c & w' & ->).
    cbn [snd]. split; [ intros [? | [? | [? | [_ ?]]]]; [ lia | done | done | done ] | ].
    intros _ _ _. split; [ by eauto | done ].
  - destruct (engine_send_frame (src_addr hdr) TRANSFER_ACK
      (transfer_ack_for h (ad_session_id ad) 0 e w) 0 e w) as (rc & c & w' & ->).
    split; [ intros [? | [? | [? | [? _]]]]; [ lia | done | done | done ] | ].
    intros _ _ _. split; [ done | ]. intros _. unfold become_pending. proj_upd. fold r.
    unfold serving in Hr. apply orb_false_iff in Hr as [-> _]. done.
  - split; [ done | ]. intros _ _ _. split; done.
  - destruct (engine_send_frame (src_addr hdr) TRANSFER_ACK
      (transfer_ack_for h (ad_session_id ad) 0 e w) 0 e w) as (rc & c & w' & ->).
    split; [ intros [? | [? | [? | [? _]]]]; [ lia | done | done | done ] | ].
    intros _ _ _. split; [ done | ]. intros _. unfold become_pending. proj_upd. fold r.
    unfold serving in Hr. apply orb_false_iff in Hr as [-> _]. done.
Qed.

(** C35: a TRANSFER_DONE ends the transfer exactly when it is authentic: long
    enough, for the running session, and sent by the exit it names, which is
    one of the elected. Any other changes nothing. An authentic one leaves
    no transfer, no election, empty windows and queues, and signals
    completion. *)
Theorem transfer_done_authentic sender payload e w :
  tr_active (te_transfer e) = true →
  let done := decode_transfer_done payload in
  let authentic :=
    sizeof_TransferDonePayload <= Z.of_nat (length payload) ∧
    done_session_id done = tr_session_id (te_transfer e) ∧
    done_exit_node_addr done = sender ∧
    ∃ i, 0 <= i < tr_exit_node_count (te_transfer e) ∧
         aget (tr_exit_nodes (te_transfer e)) i = sender in
  let '(e', w') := handle_transfer_done h sender payload e w in
  (tr_active (te_transfer e') = false ↔ authentic) ∧
  (¬ authentic → e' = e ∧ w' = w) ∧
  (authentic →
     el_active (te_election e') = false ∧ te_redist e' = [] ∧ oq_queue (te_oow e') = [] ∧
     te_arq e' = map reset_sender (te_arq e) ∧ cg_backoff_ticks (te_cong e') = 0 ∧
     w' = (if te_events e
           then h_set_bits h (session_end h (tr_session_id (te_transfer e)) w)
                  FLP_EVT_TRANSFER_COMPLETE
           else session_end h (tr_session_id (te_transfer e)) w)).
Proof.
  intros Ha. cbv zeta. unfold handle_transfer_done. rewrite Ha. cbn [negb].
  set (done := decode_transfer_done payload).
  assert (Hex : (arq_index_for_peer (done_exit_node_addr done) e <? 0) = true ↔
    ¬ ∃ i, 0 <= i < tr_exit_node_count (te_transfer e) ∧
           aget (tr_exit_nodes (te_transfer e)) i = done_exit_node_addr done).
  { unfold arq_index_for_peer. rewrite first_index_neg
      by (intros i; rewrite exit_indices_range; lia).
    setoid_rewrite exit_indices_range. setoid_rewrite Z.eqb_neq. naive_solver. }
  destruct (Z.ltb_spec (Z.of_nat (length payload)) sizeof_TransferDonePayload).
  { rewrite Ha. split; [ split; [ done | lia ] | split; [ done | lia ] ]. }
  destruct (Z.eqb_spec (done_session_id done) (tr_session_id (te_transfer e))); cbn [negb].
  2: { rewrite Ha. split; [ split; [ done | by intros (_ & ? & _) ] | ].
       split; [ done | by intros (_ & ? & _) ]. }
  destruct (Z.eqb_spec sender (done_exit_node_addr done)) as [-> | ?]; cbn [negb orb].
  2: { rewrite Ha. split; [ split; [ done | by intros (_ & _ & <- & _) ] | ].
       split; [ done | by intros (_ & _ & <- & _) ]. }
  destruct (_ <? 0) eqn:Ei.
  - rewrite Ha. pose proof (proj1 Hex eq_refl).
    split; [ split; [ done | naive_solver ] | split; [ done | naive_solver ] ].
  - assert (¬ ¬ ∃ i, 0 <= i < tr_exit_node_count (te_transfer e) ∧
           aget (tr_exit_nodes (te_transfer e)) i = done_exit_node_addr done) as Hi
      by (rewrite <- Hex; done).
    assert (∃ i, 0 <= i < tr_exit_node_count (te_transfer e) ∧
           aget (tr_exit_nodes (te_transfer e)) i = done_exit_node_addr done) as Hi'.
    { unfold arq_index_for_peer in Ei.
      destruct (first_index_range (fun i => aget (tr_exit_nodes (te_transfer e)) i =?
        done_exit_node_addr done) (exit_indices e)) as [E | [E1 E2]]; [ rewrite E in Ei; done | ].
      eexists. split; [ by apply exit_indices_range | lia ]. }
    unfold reset_sender_transfer_state. proj_upd. cbn [andb].
    split; [ done | split; [ | done ] ]. intros Hn. destruct Hn. auto.
Qed.

(** *** The announcement's schedule *)

(** The ticks at which the retry state sends, of a sequence of tick times. *)
Fixpoint broadcast_times (nows : list Z) (b : BroadcastRetry) : list Z :=
  match nows with
  | [] => []
  | now :: nows' =>
      if broadcast_due now b then now :: broadcast_times nows' (broadcast_next now b)
      else broadcast_times nows' b
  end.

Fixpoint broadcast_run (nows : list Z) e w : Engine * W :=
  match nows with
  | [] => (e, w)
  | now :: nows' => let '(e, w) := broadcast_retry_tick h now e w in broadcast_run nows' e w
  end.

(** What the announcement of a transfer looks like before its first sending. *)
Definition fresh_retry (t : PacketType) (payload : list Z) (dst : Z) : BroadcastRetry :=
  mk_retry payload t dst 3 0 0 BROADCAST_INITIAL_BACKOFF_MS true.

Lemma broadcast_times_inactive nows b : br_active b = false → broadcast_times nows b = [].
Proof.
  intros Hb. induction nows as [ | now nows IH ]; [ done | ].
  cbn [broadcast_times]. unfold broadcast_due. by rewrite Hb.
Qed.

(** The first time from [d] on, and the times after it. *)
Fixpoint first_from (d : Z) (nows : list Z) : option (Z * list Z) :=
  match nows with
  | [] => None
  | now :: nows' => if d <=? now then Some (now, nows') else first_from d nows'
  end.

Lemma first_from_Some d nows t rest P :
  first_from d nows = Some (t, rest) → Forall P nows → d <= t ∧ P t ∧ Forall P rest.
Proof.
  intros H Hf. induction Hf as [ | now nows Hn Hf IH ]; [ done | ].
  cbn [first_from] in H. destruct (Z.leb_spec d now); [ by simplify_eq | auto ].
Qed.

Lemma broadcast_times_wait nows b :
  br_active b = true → 0 <= br_next_send_ms b < 2147483648 →
  Forall (fun t => 0 <= t < 2147483648) nows →
  broadcast_times nows b =
    match first_from (br_next_send_ms b) nows with
    | None => []
    | Some (t, rest) => t :: broadcast_times rest (broadcast_next t b)
    end.
Proof.
  intros Hb Hs Hf. induction Hf as [ | now nows Hnow Hf IH ]; [ done | ].
  cbn [broadcast_times first_from]. unfold broadcast_due. rewrite Hb. cbn [andb].
  replace (i32 (now - br_next_send_ms b)) with (now - br_next_send_ms b) by int_lia.
  destruct (Z.ltb_spec (now - br_next_send_ms b) 0); cbn [negb].
  - by replace (br_next_send_ms b <=? now) with false by lia.
  - by replace (br_next_send_ms b <=? now) with true by lia.
Qed.

Lemma broadcast_next_step now p t dst m a s o :
  0 <= a → is_u8 m → a + 1 < m →
  broadcast_next now (mk_retry p t dst m a s o true) =
    mk_retry p t dst m (a + 1) (u32 (now + o)) (u32 (o * 2)) true.
Proof.
  intros. unfold broadcast_next. cbv zeta. unfold update_field. cbv beta.
  cbn [br_payload br_type br_dst_addr br_max_retries br_attempt br_next_send_ms br_backoff_ms
       br_active].
  rewrite (u8_small (a + 1)) by int_lia. by replace (a + 1 >=? m) with false by lia.
Qed.

Lemma broadcast_next_last now p t dst m a s o :
  0 <= a → is_u8 m → a + 1 = m →
  br_active (broadcast_next now (mk_retry p t dst m a s o true)) = false.
Proof.
  intros. unfold broadcast_next. cbv zeta. proj_upd.
  rewrite (u8_small (a + 1)) by int_lia. by replace (a + 1 >=? m) with true by lia.
Qed.

(** The announcement is sent at the first tick, then at the first tick at
    least 500 ms later, then at the first at least 1 s after that, and never
    again. (Tick times below 2^31 ms, some 24 days of uptime, less the two
    waits; [broadcast_uptime_blind] shows the rest.) *)
Theorem broadcast_schedule t payload dst now nows :
  Forall (fun t => 0 <= t < 2147483648 - 1000) (now :: nows) →
  broadcast_times (now :: nows) (fresh_retry t payload dst) =
    now :: match first_from (now + 500) nows with
           | None => []
           | Some (t1, rest) =>
               t1 :: match first_from (t1 + 1000) rest with
                     | None => []
                     | Some (t2, _) => [t2]
                     end
           end.
Proof.
  intros Hf. assert (Hw : ∀ l, Forall (fun t => 0 <= t < 2147483648 - 1000) l →
    Forall (fun t => 0 <= t < 2147483648) l).
  { intros l Hl. eapply Forall_impl; [ exact Hl | ]. cbn. lia. }
  unfold fresh_retry, BROADCAST_INITIAL_BACKOFF_MS.
  rewrite broadcast_times_wait by (auto; cbn; lia).
  inversion_clear Hf as [ | ? ? Hn Hf' ].
  cbn [first_from br_next_send_ms]. replace (0 <=? now) with true by lia. f_equal.
  rewrite broadcast_next_step, (u32_small (now + 500)), (u32_small (500 * 2)) by int_lia.
  rewrite broadcast_times_wait by (auto; cbn; lia). cbn [br_next_send_ms].
  destruct (first_from (now + 500) nows) as [[t1 rest] | ] eqn:E1; [ | done ].
  destruct (first_from_Some _ _ _ _ _ E1 Hf') as (? & Ht1 & Hrest).
  f_equal. rewrite broadcast_next_step, (u32_small (t1 + 500 * 2)), (u32_small (500 * 2 * 2)) by int_lia.
  rewrite broadcast_times_wait by (auto; cbn; lia). cbn [br_next_send_ms].
  change (500 * 2) with 1000.
  destruct (first_from (t1 + 1000) rest) as [[t2 rest'] | ]; [ | done ].
  f_equal. apply broadcast_times_inactive. by apply broadcast_next_last.
Qed.

Lemma length_encode_ad filename size e :
  Z.of_nat (length (encode_transfer_ad (transfer_ad_of filename size e))) = 46.
Proof.
  rewrite length_encode_transfer_ad; [ done | ]. unfold transfer_ad_of. cbn. apply length_resize.
Qed.

Lemma prepare_transfer_frame filename size read hops e w e' w' :
  prepare_transfer h filename size read hops e w = (e', w') →
  te_role e' = te_role e ∧ tr_active (te_transfer e') = true ∧
  tr_size (te_transfer e') = size ∧ tr_filename (te_transfer e') = take 32 filename ∧
  tr_read_chunk (te_transfer e') = Some read ∧
  te_my_addr e' = te_my_addr e ∧ te_cloud e' = te_cloud e ∧
  tm_last_cloud_activity_ms (te_timers e') = tm_last_cloud_activity_ms (te_timers e) ∧
  tm_mesh_upload_done (te_timers e') = tm_mesh_upload_done (te_timers e).
Proof.
  unfold prepare_transfer. destruct (h_random h w) as [raw w1].
  destruct (crc_file h _ _ _ _ _ _) as [crc w2]. intros [= <- <-].
  unfold reset_telemetry. proj_upd. done.
Qed.

Lemma start_mesh_accepted filename size read hops e w e' w' :
  start_file_transfer h filename size read false false hops e w = (true, e', w') →
  (∃ payload, te_retry e' = fresh_retry TRANSFER_AD payload EXIT_ANY_ADDR) ∧
  tr_active (te_transfer e') = true ∧ el_candidates (te_election e') = [] ∧
  el_active (te_election e') = true ∧ te_role e' = te_role e ∧
  er_is_exit_node (te_role e) = false ∧ te_local_exit e' = false ∧
  tm_last_cloud_activity_ms (te_timers e') = tm_last_cloud_activity_ms (te_timers e) ∧
  tm_mesh_upload_done (te_timers e') = tm_mesh_upload_done (te_timers e) ∧
  tr_size (te_transfer e') = size.
Proof.
  unfold start_file_transfer. destruct (tr_active _); [ done | ].
  destruct (er_is_exit_node _) eqn:Er; [ done | ]. cbn [andb].
  destruct (prepare_transfer _ _ _ _ _ _ _) as [e1 w1] eqn:Ep.
  apply prepare_transfer_frame in Ep as (Hr & Ha & Hsz & Hf & Hrd & Haddr & Hc & Hl & Hm).
  unfold start_mesh. cbv zeta. destruct (_ >? 60000); [ done | ]. intros [= <- <-].
  unfold send_broadcast_with_retry. rewrite length_encode_ad.
  change (46 >? MAX_MTU) with false. cbv iota. proj_upd. rewrite Hr. by eauto 20.
Qed.

(** A mesh transfer started when the clock reads 2^31 ms or more (24.8
    days of uptime) never announces itself before the clock wraps: its
    [next_send_ms] is 0, and [now - 0] is negative as a 32-bit integer, so
    no tick sends. No exit can answer, and the election timeout abandons the
    transfer. *)
Theorem broadcast_uptime_blind filename size read hops e w e' w' nows elected late :
  start_file_transfer h filename size read false false hops e w = (true, e', w') →
  Forall (fun now => 2147483648 <= now < 4294967296) nows →
  u32 (late - el_start_ms (te_election e')) > el_timeout_ms (te_election e') →
  broadcast_run nows e' w' = (e', w') ∧
  tr_active (te_transfer e') = true ∧
  tr_active (te_transfer (election_timeout_tick h elected late e' w').1) = false.
Proof.
  intros Hs Hf Hl. apply start_mesh_accepted in Hs as ((p & Hr) & Ha & Hc & Hel & _).
  split; [ | split; [ done | ] ].
  - clear Hl. induction Hf as [ | now nows Hn Hf IH ]; [ done | ]. cbn [broadcast_run].
    unfold broadcast_retry_tick, broadcast_due. rewrite Hr.
    cbn [br_active fresh_retry br_next_send_ms andb].
    replace (i32 (now - 0) <? 0) with true by int_lia. exact IH.
  - unfold election_timeout_tick. rewrite Hel, Hc.
    replace (u32 _ <=? _) with false by lia. done.
Qed.

(** [start_file_transfer] refuses while the engine is an exit, but not
    while it is a pending one. Accept an advertisement, then start an own
    mesh transfer before the source's first fragment: the start succeeds,
    the role stays pending, and when no data follows, the stall check thirty
    seconds later clears the exit role and with it the size, the fragment
    count and the name of the own transfer, which stays active. *)
Theorem pending_exit_clobbers_transfer hdr payload filename size read hops e w e1 w1 e2 w2 now :
  MIN_TRANSFER_AD_LEN <= Z.of_nat (length payload) → serving (te_role e) = false →
  tr_active (te_transfer e) = false → tm_mesh_upload_done (te_timers e) = false →
  handle_transfer_ad h hdr payload true e w = (e1, w1) →
  start_file_transfer h filename size read false false hops e1 w1 = (true, e2, w2) →
  0 < h_now h w1 → u32 (now - h_now h w1) > CLOUD_STALL_TIMEOUT_MS →
  tr_active (te_transfer e2) = true ∧ tr_size (te_transfer e2) = size ∧
  let '(stalled, e3, w3) := stall_check h now e2 w2 in
  stalled = false ∧ tr_active (te_transfer e3) = true ∧
  tr_session_id (te_transfer e3) = tr_session_id (te_transfer e2) ∧
  tr_size (te_transfer e3) = 0 ∧ tr_fragment_count (te_transfer e3) = 0 ∧
  tr_filename (te_transfer e3) = [].
Proof.
  intros Hlen Hsv Ha Hm Had Hs Ht Hnow.
  unfold handle_transfer_ad in Had. cbv zeta in Had. fold (serving (te_role e)) in Had.
  rewrite Hsv, Ha in Had. replace (_ <? MIN_TRANSFER_AD_LEN) with false in Had by lia.
  cbn [negb andb] in Had.
  destruct (engine_send_frame (src_addr hdr) TRANSFER_ACK
    (transfer_ack_for h (ad_session_id (decode_transfer_ad (resize 46 0 payload))) 0 e w) 0 e w)
    as (rc & c & w' & Hsend). rewrite Hsend in Had. injection Had as <- <-.
  apply start_mesh_accepted in Hs as (_ & Ha2 & _ & _ & Hrole & Hex & Hloc & Hact & Hdone & Hsz).
  split; [ done | ]. split; [ done | ].
  unfold become_pending in Hrole, Hact, Hdone. revert Hrole Hact Hdone. proj_upd.
  intros Hrole Hact Hdone. unfold stall_check. cbv zeta.
  rewrite Hact, Hdone, Hloc, Hrole, Hm. proj_upd.
  replace (h_now h w' >? 0) with true by lia.
  replace (_ >? CLOUD_STALL_TIMEOUT_MS) with true by lia. cbn [andb].
  rewrite orb_true_r. unfold clear_exit_node_state. proj_upd. done.
Qed.

Lemma handle_transfer_ad_accept hdr payload e w e' w' :
  MIN_TRANSFER_AD_LEN <= Z.of_nat (length payload) → serving (te_role e) = false →
  tr_active (te_transfer e) = false →
  handle_transfer_ad h hdr payload true e w = (e', w') →
  ∃ c w0, e' = become_pending h hdr (decode_transfer_ad (resize 46 0 payload))
                 (e <| te_cong := c |>) w0 ∧ w' = w0.
Proof.
  intros Hlen Hsv Ha. unfold handle_transfer_ad. cbv zeta. fold (serving (te_role e)).
  rewrite Hsv, Ha. replace (_ <? MIN_TRANSFER_AD_LEN) with false by lia. cbn [negb andb].
  match goal with |- context [engine_send h ?d ?t ?p 0 e w] =>
    destruct (engine_send_frame d t p 0 e w) as (rc & c & w0 & ->) end.
  intros [= <- <-]. eauto.
Qed.

(** A local-exit transfer refused for its size leaves [local_exit_] set.
    When the node then becomes the exit of another source's session (an
    advertisement, then its first fragment), the periodic meta is published
    under the session number of the refused transfer and under the node's
    own address instead of the source's. *)
Theorem refused_transfer_misreports filename size read hops e w e1 w1
    hdr payload w1' e2 w2 hdr' data e3 w3 now w4 :
  h_forward_to_mqtt h ≠ None → h_forward_meta h ≠ None →
  data_frags_of size > MAX_CLOUD_FRAGMENTS →
  start_file_transfer h filename size read true true hops e w = (false, e1, w1) →
  tr_active (te_transfer e) = false → serving (te_role e) = false →
  MIN_TRANSFER_AD_LEN <= Z.of_nat (length payload) →
  ad_session_id (decode_transfer_ad (resize 46 0 payload)) ≠ 0 →
  handle_transfer_ad h hdr payload true e1 w1' = (e2, w2) →
  handle_data h hdr' data e2 w2 = (e3, w3) →
  0 < tm_last_meta_publish_ms (te_timers e3) →
  u32 (now - tm_last_meta_publish_ms (te_timers e3)) > META_REPUBLISH_INTERVAL_MS →
  0 < tm_last_cloud_activity_ms (te_timers e3) →
  u32 (now - tm_last_cloud_activity_ms (te_timers e3)) < 15000 →
  te_role e3 = mk_role true false
    (ad_session_id (decode_transfer_ad (resize 46 0 payload))) (src_addr hdr) ∧
  (republish_meta h now e3 w4).2 =
    publish_meta h (tr_session_id (te_transfer e1)) (te_my_addr e) e3 w4.
Proof.
  intros Hfw Hfm Hbig Hs Ha Hsv Hlen Hsid Had Hd H1 H2 H3 H4.
  unfold start_file_transfer in Hs. rewrite Ha in Hs.
  destruct (er_is_exit_node _) eqn:Hx; [ unfold serving in Hsv; by rewrite Hx in Hsv | ].
  destruct (h_forward_to_mqtt h) as [f | ] eqn:Ef; [ | done ].
  rewrite bool_decide_true in Hs by eauto. cbn [andb] in Hs.
  destruct (prepare_transfer _ _ _ _ _ _ _) as [e0 w0] eqn:Ep.
  apply prepare_transfer_frame in Ep as (Hrole & _ & _ & _ & _ & Hmy & _).
  unfold start_local_exit in Hs. cbv zeta in Hs.
  replace (data_frags_of size >? MAX_CLOUD_FRAGMENTS) with true in Hs by lia.
  injection Hs as <- <-. unfold reject_transfer in *.
  apply handle_transfer_ad_accept in Had as (c & w' & -> & ->); [ | done | | done ].
  2: { proj_upd. by rewrite Hrole. }
  revert Hd. unfold handle_data, become_pending. cbv zeta. proj_upd. rewrite orb_true_r.
  unfold activate_exit. cbv zeta. proj_upd. rewrite Hrole, Hx.
  replace (_ =? 0) with false by lia. cbn [negb andb]. proj_upd. rewrite Ef.
  destruct (f _ _ _ _ _ _) as [queued wq].
  intros Hd. unfold republish_meta. cbv zeta.
  destruct (h_forward_meta h) eqn:Em; [ | done ]. rewrite bool_decide_true by eauto.
  replace (_ >? 0) with true by lia.
  replace (_ >? META_REPUBLISH_INTERVAL_MS) with true by lia.
  replace (tm_last_cloud_activity_ms (te_timers e3) >? 0) with true by lia.
  replace (_ <? 15000) with true by lia.
  destruct queued; injection Hd as <- <-; proj_upd; rewrite orb_true_r; cbn [andb snd];
    by rewrite Hmy.
Qed.

(** A DATA packet that reaches a node while it sends its own mesh transfer
    (a late fragment of a session it once served, say) goes to the legacy
    receiver, which repoints window 0 at the packet's source. From then on
    the fragments pending there are retransmitted to that node instead of
    the elected exit. *)
Theorem stray_data_redirects hdr payload e w q d :
  serving (te_role e) = false → (0 < length (te_arq e))%nat →
  sender_inv (aget (te_arq e) 0) → pending (aget (te_arq e) 0) !! q = Some d →
  let '(e', w') := handle_data h hdr payload e w in
  sr_peer_addr (aget (te_arq e') 0) = src_addr hdr ∧
  te_transfer e' = te_transfer e ∧
  pending (aget (te_arq e') 0) !! q = Some d ∧
  (arq_handle_nack h 0 q e' w').2 =
    (send_fn h (te_cong e', w') (src_addr hdr) DATA q d).2.2.
Proof.
  intros Hsv Hlen Hinv Hq. unfold serving in Hsv. unfold handle_data. cbv zeta. rewrite Hsv.
  destruct (receive_fragment _ _ _ _ _ _ _ _ _) as [[ok rcv] [c w']]. proj_upd.
  rewrite aget_aset_eq by lia. unfold set_peer_addr at 1. proj_upd. split; [ done | ].
  split; [ done | ]. split; [ exact Hq | ].
  unfold arq_handle_nack. proj_upd. rewrite aget_aset_eq by lia.
  set (s := set_peer_addr _ _). assert (Hs : sender_inv s).
  { by apply (sender_inv_frame (aget (te_arq e) 0)). }
  destruct Hs as [slots Hs].
  pose proof (handle_nack_state (Some (send_fn h)) (h_now h w') q s slots (c, w') Hs) as (_ & _ & Hw).
  change (pending s) with (pending (aget (te_arq e) 0)) in Hw. rewrite Hq in Hw.
  change (sr_peer_addr s) with (src_addr hdr) in Hw. cbn [call_send] in Hw.
  destruct (SelectiveRepeat.handle_nack _ _ _ _ _) as [s' [c' w'']]. cbn [snd] in *.
  by rewrite <- Hw.
Qed.

Lemma send_new_past_end fuel window_end next sent e w :
  tr_fragment_count (te_transfer e) <= next →
  send_new h fuel window_end next sent e w = (next, w).
Proof.
  intros Hn. destruct fuel as [ | fuel ]; [ done | ]. cbn [send_new].
  by replace (next <? _) with false by lia.
Qed.

Lemma tick_local_exit_empty e w :
  te_cloud e = cloud_idle → tr_fragment_count (te_transfer e) = 0 →
  h_drain_cloud_ack h = None → h_drain_cloud_nack h = None →
  tick_local_exit_arq h e w = reset_sender_transfer_state h true e w.
Proof.
  intros Hc Hn Ha Hk. unfold tick_local_exit_arq, drain_cloud_queues. rewrite Ha, Hk, Hc. cbv zeta.
  rewrite Hn. change (advance_base _ _ _ _) with 0. cbv iota beta.
  set (e1 := e <| te_cloud := _ |> <| te_timers ::= _ |>).
  assert (Hc1 : te_cloud e1 = cloud_idle) by done.
  assert (Hn1 : tr_fragment_count (te_transfer e1) = 0) by done.
  assert (Hr1 : reset_sender_transfer_state h true e1 w = reset_sender_transfer_state h true e w)
    by done.
  unfold publish_cloud_window. rewrite Hc1. cbn [send_retx ca_retx_queue cloud_idle].
  rewrite send_new_past_end by (proj_upd; rewrite Hc1, Hn1; done).
  proj_upd. rewrite Hc1, Hn1. exact Hr1.
Qed.

(** The fragment count of a transfer is computed in 16 bits before the
    size checks. A local-exit transfer of [65536 k + r] fragments, with [r]
    within the limit, is accepted as one of [r] fragments; for [r = 0] the
    next tick reports it complete without having published anything. *)
Theorem local_exit_size_wraps filename size read hops e w k r f :
  h_forward_to_mqtt h = Some f →
  tr_active (te_transfer e) = false → er_is_exit_node (te_role e) = false →
  0 <= size → size + DEFAULT_TRANSFER_FRAGMENT_SIZE - 1 < 4294967296 →
  (size + DEFAULT_TRANSFER_FRAGMENT_SIZE - 1) / DEFAULT_TRANSFER_FRAGMENT_SIZE = 65536 * k + r →
  0 <= r <= MAX_CLOUD_FRAGMENTS →
  let '(ok, e', w') := start_file_transfer h filename size read true true hops e w in
  ok = true ∧ tr_active (te_transfer e') = true ∧ tr_size (te_transfer e') = size ∧
  tr_fragment_count (te_transfer e') = r ∧
  (r = 0 → h_drain_cloud_ack h = None → h_drain_cloud_nack h = None →
     tick_local_exit_arq h e' w' = reset_sender_transfer_state h true e' w').
Proof.
  intros Hf Ha Hx Hsz Hb Hdiv Hr. unfold start_file_transfer. rewrite Ha, Hx, Hf.
  rewrite bool_decide_true by eauto. cbn [andb].
  destruct (prepare_transfer _ _ _ _ _ _ _) as [e0 w0] eqn:Ep.
  apply prepare_transfer_frame in Ep as (_ & Hact & Hsize & _ & _ & Hmy & _).
  assert (Hd : data_frags_of size = r).
  { unfold data_frags_of. rewrite (u32_small (_ - 1)).
    - rewrite Hdiv. unfold MAX_CLOUD_FRAGMENTS in Hr. int_lia.
    - split; [ | done ]. assert (0 < DEFAULT_TRANSFER_FRAGMENT_SIZE) by done. lia. }
  unfold start_local_exit. rewrite Hd. cbv zeta.
  replace (r >? MAX_CLOUD_FRAGMENTS) with false by lia.
  replace (r >? 60000) with false by (unfold MAX_CLOUD_FRAGMENTS in *; lia).
  proj_upd. do 4 (split; [ done | ]). intros -> Hda Hdn.
  by apply tick_local_exit_empty.
Qed.
End roles.

(** ** Witnesses *)

Definition demo_header (src dst seq : Z) (t : PacketType) : PacketHeader :=
  set_ver_type 1 t (mk_header 0 src dst (DEFAULT_TTL * 16) seq).

(** An advertisement of a four-fragment session 9. *)
Definition demo_ad : list Z :=
  encode_transfer_ad (mk_ad 9 5000 (DEFAULT_TRANSFER_FRAGMENT_SIZE / 8) 77 4 1 (97 :: replicate 31 0)).

Definition with_exits (e : Engine DemoWorld) : Engine DemoWorld :=
  e <| te_transfer ::= fun t =>
         t <| tr_active := true |> <| tr_session_id := 7 |>
           <| tr_exit_nodes := [5; 6; 0; 0] |> <| tr_exit_node_count := 2 |> |>.

Lemma transfer_done_authentic_witness :
  tr_active (te_transfer (with_exits demo_node)) = true ∧
  tr_active (te_transfer (handle_transfer_done demo_host 6
    (encode_transfer_done (mk_done 7 6)) (with_exits demo_node) (demo_world 100)).1) = false.
Proof.
  split; [ reflexivity | ].
  pose proof (transfer_done_authentic demo_host 6 (encode_transfer_done (mk_done 7 6))
    (with_exits demo_node) (demo_world 100) eq_refl) as H.
  destruct (handle_transfer_done _ _ _ _ _) as [e' w']. apply H.
  split; [ reflexivity | ]. split; [ reflexivity | ]. split; [ reflexivity | ].
  exists 1. split; [ | reflexivity ]. split; [ discriminate | reflexivity ].
Defined.

Lemma broadcast_schedule_witness :
  broadcast_times [100; 300; 600; 700; 1700; 9000] (fresh_retry TRANSFER_AD [] EXIT_ANY_ADDR)
  = [100; 600; 1700].
Proof.
  rewrite (broadcast_schedule TRANSFER_AD [] EXIT_ANY_ADDR 100 [300; 600; 700; 1700; 9000]).
  - reflexivity.
  - repeat (constructor; [ split; [ discriminate | reflexivity ] | ]). constructor.
Defined.

Definition demo_file_reader : ReadChunkFn DemoWorld := make_buffer_reader [1; 2; 3] 3.

Definition late_start : bool * Engine DemoWorld * DemoWorld :=
  start_file_transfer demo_host [97] 3 demo_file_reader false false 1 demo_node
    (demo_world 2147483700).

#[local] Strategy expand [late_start].

Lemma broadcast_uptime_blind_witness :
  late_start = (true, late_start.1.2, late_start.2) ∧
  broadcast_run demo_host [2147483701; 2147484701] late_start.1.2 late_start.2 =
    (late_start.1.2, late_start.2).
Proof.
  assert (E : late_start = (true, late_start.1.2, late_start.2))
    by (apply triple_eq; vm_compute; reflexivity).
  split; [ exact E | ].
  refine (proj1 (broadcast_uptime_blind demo_host [97] 3 demo_file_reader 1 demo_node
    (demo_world 2147483700) late_start.1.2 late_start.2 [2147483701; 2147484701] 2 2147489700
    E _ _)).
  - repeat (constructor; [ split; [ discriminate | reflexivity ] | ]). constructor.
  - vm_compute. reflexivity.
Defined.

(** Pending exit of session 9, then an own transfer. *)
Definition pending_node : Engine DemoWorld * DemoWorld :=
  handle_transfer_ad demo_host (demo_header 5 1 0 TRANSFER_AD) demo_ad true demo_node
    (demo_world 1000).
Definition pending_start : bool * Engine DemoWorld * DemoWorld :=
  start_file_transfer demo_host [97] 3 demo_file_reader false false 1 pending_node.1
    pending_node.2.

#[local] Strategy expand [pending_node pending_start].

Lemma pending_exit_clobbers_transfer_witness :
  tr_active (te_transfer pending_start.1.2) = true ∧
  tr_size (te_transfer (stall_check demo_host 40000 pending_start.1.2 pending_start.2).1.2) = 0.
Proof.
  assert (E : pending_start = (true, pending_start.1.2, pending_start.2))
    by (apply triple_eq; vm_compute; reflexivity).
  pose proof (pending_exit_clobbers_transfer demo_host (demo_header 5 1 0 TRANSFER_AD) demo_ad
    [97] 3 demo_file_reader 1 demo_node (demo_world 1000) pending_node.1 pending_node.2
    pending_start.1.2 pending_start.2 40000) as H.
  destruct H as (Ha & _ & H).
  - vm_compute. discriminate.
  - reflexivity.
  - reflexivity.
  - reflexivity.
  - apply surjective_pairing.
  - exact E.
  - vm_compute. reflexivity.
  - vm_compute. reflexivity.
  - split; [ exact Ha | ]. destruct (stall_check _ _ _ _) as [[stalled e3] w3]. apply H.
Defined.

(** 8193 fragments: refused; then exit of session 9. *)
Definition refused_size : Z := 8193 * DEFAULT_TRANSFER_FRAGMENT_SIZE.
Definition demo_empty_reader : ReadChunkFn DemoWorld := make_buffer_reader [] 0.
Definition refused_start : bool * Engine DemoWorld * DemoWorld :=
  start_file_transfer demo_host [97] refused_size demo_empty_reader true true 1 demo_node
    (demo_world 1000).
Definition refused_pending : Engine DemoWorld * DemoWorld :=
  handle_transfer_ad demo_host (demo_header 5 1 0 TRANSFER_AD) demo_ad true refused_start.1.2
    (demo_world 2000).
Definition refused_exit : Engine DemoWorld * DemoWorld :=
  handle_data demo_host (demo_header 5 1 0 DATA) [1] refused_pending.1 refused_pending.2.

#[local] Strategy expand [refused_start refused_pending refused_exit].

Lemma refused_transfer_misreports_witness :
  te_role refused_exit.1 = mk_role true false 9 5 ∧
  (republish_meta demo_host 13000 refused_exit.1 (demo_world 13000)).2 =
    publish_meta demo_host 7 1 refused_exit.1 (demo_world 13000).
Proof.
  refine (refused_transfer_misreports demo_host [97] refused_size demo_empty_reader 1 demo_node
    (demo_world 1000) refused_start.1.2 refused_start.2 (demo_header 5 1 0 TRANSFER_AD) demo_ad
    (demo_world 2000) refused_pending.1 refused_pending.2 (demo_header 5 1 0 DATA) [1]
    refused_exit.1 refused_exit.2 13000 (demo_world 13000) _ _ _ _ _ _ _ _ _ _ _ _ _ _).
  - discriminate.
  - discriminate.
  - vm_compute. reflexivity.
  - apply triple_eq. vm_compute. reflexivity.
  - reflexivity.
  - reflexivity.
  - vm_compute. discriminate.
  - vm_compute. discriminate.
  - apply surjective_pairing.
  - apply surjective_pairing.
  - vm_compute. reflexivity.
  - vm_compute. reflexivity.
  - vm_compute. reflexivity.
  - vm_compute. reflexivity.
Defined.

(** Fragment 6 pending for exit 5; a stray packet from node 9 arrives. *)
Definition sending_node : Engine DemoWorld :=
  with_exits demo_node <| te_arq ::= fun l => aset l 0 demo_sender |>.

Lemma stray_data_redirects_witness :
  serving (te_role sending_node) = false ∧ pending (aget (te_arq sending_node) 0) !! 7 = Some [3] ∧
  sr_peer_addr (aget (te_arq (handle_data demo_host (demo_header 9 1 0 DATA) [1] sending_node
    (demo_world 100)).1) 0) = 9.
Proof.
  split; [ reflexivity | ].
  assert (Hp : pending (aget (te_arq sending_node) 0) !! 7 = Some [3])
    by (vm_compute; reflexivity).
  split; [ exact Hp | ].
  assert (Hinv : sender_inv (aget (te_arq sending_node) 0)) by exact demo_sender_inv.
  pose proof (stray_data_redirects demo_host (demo_header 9 1 0 DATA) [1] sending_node
    (demo_world 100) 7 [3] eq_refl) as H.
  destruct (handle_data _ _ _ _ _) as [e' w']. apply H; [ | exact Hinv | exact Hp ].
  vm_compute. repeat constructor.
Defined.

Lemma local_exit_size_wraps_witness :
  (start_file_transfer demo_host [97] (65536 * DEFAULT_TRANSFER_FRAGMENT_SIZE) demo_empty_reader
     true true 1 demo_node (demo_world 1000)).1.1 = true.
Proof.
  pose proof (local_exit_size_wraps demo_host [97] (65536 * DEFAULT_TRANSFER_FRAGMENT_SIZE)
    demo_empty_reader 1 demo_node (demo_world 1000) 1 0 _ eq_refl eq_refl eq_refl) as H.
  destruct (start_file_transfer _ _ _ _ _ _ _ _ _) as [[ok e'] w']. apply H.
  - vm_compute. discriminate.
  - vm_compute. reflexivity.
  - vm_compute. reflexivity.
  - split; vm_compute; discriminate.
Defined.
