(* ===== verification/TransferElection.v ===== *)
(** * Transfer engine: the election of exits

    The insertion sort of [election_timeout_tick] sorts by descending score,
    and the candidates elected are the best ones within the quality margin. *)

From Stdlib Require Import ZArith Lia SpecFloat.
From stdpp Require Import base list numbers option sets gmap sorting.
From S2P Require Import Prelude.
From S2P Require Import Packet.
From S2P Require Import Fec.
From S2P Require Import SelectiveRepeat.
From S2P Require Import Receiver.
From S2P Require Import ProtocolSelector.
From S2P Require Import TransferState.
From S2P Require Import TransferArq.
From S2P Require Import TransferHandlers.
From S2P Require Import TransferEngine.
From S2P Require Import TransferDemo.
From S2P Require Import TransferRoles.
Open Scope Z_scope.
Open Scope flp_scope.

(** The score without the wrap-arounds, and the quality margin. *)
Definition score_of (c : ExitCandidate) : Z :=
  ec_rssi_to_gw c - 6 * ec_hops_to_gw c - 32 * ec_active_transfers c.
Definition margin_of (best : Z) : Z := Z.max 6 (Z.abs best * 2 / 3).

Definition candidate_wf (c : ExitCandidate) : Prop :=
  is_i8 (ec_rssi_to_gw c) ∧ is_u8 (ec_hops_to_gw c) ∧ is_u8 (ec_active_transfers c).

Definition by_score (x y : Scored) : Prop := y.1 <= x.1.

Lemma candidate_score_exact c :
  candidate_wf c → candidate_score c = score_of c ∧ -9818 <= score_of c <= 127.
Proof. intros (? & ? & ?). unfold candidate_score, score_of. int_lia. Qed.

Lemma threshold_exact best :
  -9818 <= best <= 127 → election_threshold best = best - margin_of best.
Proof.
  intros Hb. unfold election_threshold, margin_of. cbv zeta.
  rewrite Z.quot_div_nonneg by lia.
  replace (i16 (Z.abs best * 2 / 3)) with (Z.abs best * 2 / 3) by int_lia.
  destruct (Z.ltb_spec (Z.abs best * 2 / 3) 6); int_lia.
Qed.

(** *** The sort *)

Section sorting.
Implicit Types (l : list Scored) (x key : Scored).

Lemma aget_mid l1 l2 x : aget (l1 ++ x :: l2) (Z.of_nat (length l1)) = x.
Proof. unfold aget. rewrite Nat2Z.id. by rewrite list_lookup_total_middle. Qed.

Lemma aset_mid l1 l2 x y : aset (l1 ++ x :: l2) (Z.of_nat (length l1)) y = l1 ++ y :: l2.
Proof.
  unfold aset. rewrite Nat2Z.id. rewrite insert_app_r_alt by lia. by rewrite Nat.sub_diag.
Qed.

Lemma shift_scored_spec fuel l1 x l2 key :
  (length l1 < fuel)%nat →
  ∃ a b, l1 = a ++ b ∧ Forall (by_score key) b ∧ (∀ y, last a = Some y → by_score y key) ∧
    shift_scored fuel (Z.of_nat (length l1) - 1) key (l1 ++ x :: l2) = a ++ key :: b ++ l2.
Proof.
  revert fuel x l2. induction l1 as [ | y l1 IH ] using rev_ind; intros fuel x l2 Hf.
  { destruct fuel as [ | fuel ]; [ cbn in Hf; lia | ]. exists [], [].
    split_and!; [ done | constructor | done | reflexivity ]. }
  rewrite length_app in *. cbn [length] in *. destruct fuel as [ | fuel ]; [ lia | ].
  cbn [shift_scored].
  replace (Z.of_nat (length l1 + 1) - 1) with (Z.of_nat (length l1)) by lia.
  replace (Z.of_nat (length l1) >=? 0) with true by lia. cbn [andb].
  rewrite <- app_assoc. cbn [app]. rewrite aget_mid.
  replace (Z.of_nat (length l1) + 1) with (Z.of_nat (length (l1 ++ [y])))
    by (rewrite length_app; cbn; lia).
  change (l1 ++ y :: x :: l2) with (l1 ++ [y] ++ x :: l2). rewrite app_assoc, !aset_mid.
  rewrite <- app_assoc. cbn [app]. destruct (Z.ltb_spec y.1 key.1).
  - destruct (IH fuel y (y :: l2)) as (a & b & -> & Hb & Hl & ->); [ lia | ].
    exists a, (b ++ [y]). rewrite <- !app_assoc. split_and!; [ done | | done | done ].
    apply Forall_app. split; [ done | ]. constructor; [ unfold by_score; lia | constructor ].
  - exists (l1 ++ [y]), []. rewrite app_nil_r, <- app_assoc.
    split; [ done | ]. split; [ by apply Forall_nil_2 | ].
    split; [ | by rewrite <- app_assoc ].
    intros z. rewrite last_snoc. intros [= <-]. unfold by_score. lia.
Qed.

Lemma sorted_insert_score a b key :
  StronglySorted by_score (a ++ b) → Forall (by_score key) b →
  (∀ y, last a = Some y → by_score y key) → StronglySorted by_score (a ++ key :: b).
Proof.
  unfold by_score. induction a as [ | x a IH ]; cbn [app]; intros Hs Hb Hl; [ by constructor | ].
  apply StronglySorted_inv in Hs as [Hs Hx]. apply Forall_app in Hx as [Hxa Hxb]. constructor.
  - apply IH; [ done | done | ]. intros z Hz. apply Hl. destruct a; [ done | ].
    by rewrite last_cons_cons.
  - apply Forall_app. split; [ done | ]. constructor; [ | done ].
    destruct (last a) as [m | ] eqn:E.
    + apply Z.le_trans with m.1.
      * apply Hl. destruct a; [ done | ]. by rewrite last_cons_cons.
      * rewrite Forall_forall in Hxa. by apply Hxa, last_Some_elem_of.
    + apply last_None in E as ->. by apply Hl.
Qed.

Lemma sort_passes_spec n l1 l2 :
  length l2 = n → StronglySorted by_score l1 → (length (l1 ++ l2) <= 4)%nat →
  StronglySorted by_score (sort_passes n (Z.of_nat (length l1)) (l1 ++ l2)) ∧
  sort_passes n (Z.of_nat (length l1)) (l1 ++ l2) ≡ₚ l1 ++ l2.
Proof.
  revert l1 l2. induction n as [ | n IH ]; intros l1 l2 Hl Hs Hlen.
  { destruct l2; [ | done ]. rewrite app_nil_r. done. }
  destruct l2 as [ | key l2 ]; [ done | ]. cbn [sort_passes]. rewrite aget_mid.
  rewrite length_app in Hlen.
  replace (i8 (Z.of_nat (length l1)) - 1) with (Z.of_nat (length l1) - 1) by int_lia.
  destruct (shift_scored_spec (S (length (l1 ++ key :: l2))) l1 key l2 key)
    as (a & b & -> & Hb & Ha & ->); [ rewrite length_app; lia | ].
  replace (Z.of_nat (length (a ++ b)) + 1) with (Z.of_nat (length (a ++ key :: b)))
    by (rewrite !length_app; cbn; lia).
  replace (a ++ key :: b ++ l2) with ((a ++ key :: b) ++ l2) by (by rewrite <- app_assoc).
  destruct (IH (a ++ key :: b) l2) as [H1 H2].
  - cbn in Hl. lia.
  - by apply sorted_insert_score.
  - rewrite !length_app in *. cbn in *. lia.
  - split; [ done | ]. rewrite H2, <- !app_assoc. cbn. by rewrite Permutation_middle.
Qed.

Lemma sort_candidates_spec l :
  l ≠ [] → (length l <= 4)%nat →
  StronglySorted by_score (sort_candidates l) ∧ sort_candidates l ≡ₚ l.
Proof.
  intros Hne Hl. destruct l as [ | x l ]; [ done | ]. unfold sort_candidates.
  cbn [length] in *. replace (S (length l) - 1)%nat with (length l) by lia.
  apply (sort_passes_spec (length l) [x] l); [ done | repeat constructor | cbn; lia ].
Qed.

Lemma best_score_spec l best0 :
  let best := fold_left (fun best (x : Scored) => if x.1 >? best then x.1 else best) l best0 in
  best0 <= best ∧ (∀ x, x ∈ l → x.1 <= best) ∧ (best = best0 ∨ ∃ x, x ∈ l ∧ x.1 = best).
Proof.
  revert best0. induction l as [ | x l IH ]; intros best0; cbn; [ split; [ lia | set_solver ] | ].
  destruct (IH (if x.1 >? best0 then x.1 else best0)) as (H1 & H2 & H3).
  destruct (Z.gtb_spec x.1 best0).
  - split; [ lia | ]. split.
    + intros y [-> | Hy]%elem_of_cons; auto.
    + right. destruct H3 as [H3 | (y & Hy & He)]; [ exists x | exists y ]; set_solver.
  - split; [ lia | ]. split.
    + intros y [-> | Hy]%elem_of_cons; [ lia | auto ].
    + destruct H3 as [H3 | (y & Hy & He)]; [ by left | right; exists y; set_solver ].
Qed.

(** Of a list sorted by score, those accepted are a prefix. *)
Lemma accepted_sorted limit thr l :
  StronglySorted by_score l →
  accepted_candidates limit thr l =
    take (limit `min` length (List.filter (fun x => thr <=? x.1) l)) (map snd l).
Proof.
  revert limit. induction l as [ | [s c] l IH ]; intros limit Hs; cbn.
  { by rewrite take_nil. }
  apply StronglySorted_inv in Hs as [Hs Hx]. destruct limit as [ | limit ]; [ done | ].
  destruct (Z.leb_spec thr s); cbn.
  - replace (s >=? thr) with true by lia. by rewrite IH.
  - replace (s >=? thr) with false by lia. rewrite IH by done.
    replace (List.filter (fun x => thr <=? x.1) l) with (@nil Scored).
    + by rewrite !Nat.min_0_r, !take_0.
    + symmetry. apply length_zero_iff_nil, Nat2Z.inj, count_if_none.
      intros x Hin. rewrite Forall_forall in Hx. specialize (Hx x Hin). unfold by_score in Hx.
      cbn in Hx. lia.
Qed.
End sorting.

Lemma accept_limit_range elected : 0 <= accept_limit elected <= 4.
Proof. unfold accept_limit, MAX_EXIT_NODES. cbv zeta. case_match; int_lia. Qed.

(** The best candidates within the margin, at most [limit], at least one. *)
Definition elected_count (limit : Z) (cands : list ExitCandidate) (best : ExitCandidate) : nat :=
  1 `max` (Z.to_nat limit `min`
    length (List.filter (fun c => score_of best - margin_of (score_of best) <=? score_of c) cands)).

Definition scored_of (cands : list ExitCandidate) : list Scored :=
  map (fun c => (score_of c, c)) cands.

Lemma elem_of_scored cands x : x ∈ scored_of cands ↔ x.1 = score_of x.2 ∧ x.2 ∈ cands.
Proof.
  unfold scored_of. change (map ?f cands) with (f <$> cands). rewrite list_elem_of_fmap.
  destruct x as [s c]. cbn. naive_solver.
Qed.

Lemma scored_exact cands :
  Forall candidate_wf cands → map (fun c => (candidate_score c, c)) cands = scored_of cands.
Proof.
  induction 1 as [ | c cands Hc _ IH ]; [ done | ]. cbn.
  by rewrite IH, (proj1 (candidate_score_exact c Hc)).
Qed.

(** The sorted candidates begin with a best one, whose score is the best. *)
Lemma sorted_head cands sorted :
  cands ≠ [] → Forall candidate_wf cands → sorted ≡ₚ scored_of cands →
  StronglySorted by_score sorted →
  ∃ best sorted', sorted = (score_of best, best) :: sorted' ∧ best ∈ cands ∧
    (∀ c, c ∈ cands → score_of c <= score_of best) ∧
    best_score (scored_of cands) = score_of best.
Proof.
  intros Hne Hwf Hp Hs.
  assert (Hin : ∀ x, x ∈ sorted ↔ x.1 = score_of x.2 ∧ x.2 ∈ cands)
    by (intros x; by rewrite Hp, elem_of_scored).
  destruct sorted as [ | [s best] sorted' ].
  { symmetry in Hp. apply Permutation_nil_r in Hp. by destruct cands. }
  destruct (proj1 (Hin (s, best)) ltac:(left)) as [Hsb Hb]. cbn in Hsb, Hb. subst s.
  apply StronglySorted_inv in Hs as [_ Hx]. rewrite Forall_forall in Hx.
  assert (Hle : ∀ c, c ∈ cands → score_of c <= score_of best).
  { intros c Hc. pose proof (proj2 (Hin (score_of c, c)) (conj eq_refl Hc)) as H.
    apply elem_of_cons in H as [[= -> <-] | H]; [ lia | ]. apply (Hx _ H). }
  exists best, sorted'. split_and!; [ done.. | ].
  destruct (best_score_spec (scored_of cands) (-32000)) as (_ & Hmax & Hatt).
  fold (best_score (scored_of cands)) in Hmax, Hatt.
  assert (score_of best <= best_score (scored_of cands)).
  { apply (Hmax (score_of best, best)). by apply elem_of_scored. }
  destruct Hatt as [E | ([s c] & Hc & E)].
  - rewrite Forall_forall in Hwf. destruct (candidate_score_exact best (Hwf _ Hb)). lia.
  - apply elem_of_scored in Hc as [E' Hc]. cbn in *. specialize (Hle c Hc). lia.
Qed.

Lemma count_filter_perm {A} (p : A → bool) l l' :
  l ≡ₚ l' → length (List.filter p l) = length (List.filter p l').
Proof. induction 1; cbn; repeat case_match; cbn; congruence. Qed.

Lemma filter_scored p cands :
  length (List.filter (fun x : Scored => p x.1) (scored_of cands)) =
  length (List.filter (fun c => p (score_of c)) cands).
Proof.
  unfold scored_of. induction cands as [ | c cands IH ]; [ done | ].
  cbn [map List.filter fst]. destruct (p (score_of c)); cbn [length]; congruence.
Qed.

(** C16: of up to four candidates the election elects a prefix of the
    candidates in descending score order: those within the quality margin of
    the best (two thirds of its magnitude, at least six), cut to the
    configured limit, and never none: a best candidate is always elected. *)
Theorem election_elects_best elected cands :
  cands ≠ [] → (length cands <= 4)%nat → Forall candidate_wf cands →
  let '(sorted, winners) := elect elected cands in
  sorted ≡ₚ scored_of cands ∧ StronglySorted by_score sorted ∧
  ∃ best, best ∈ cands ∧ head winners = Some best ∧
    (∀ c, c ∈ cands → score_of c <= score_of best) ∧
    winners = take (elected_count (accept_limit elected) cands best) (map snd sorted).
Proof.
  intros Hne Hlen Hwf. unfold elect. rewrite scored_exact by done.
  destruct (sort_candidates_spec (scored_of cands)) as [Hs Hp].
  { by destruct cands. }
  { unfold scored_of. by rewrite length_map. }
  set (sorted := sort_candidates _) in *. split; [ done | ]. split; [ done | ].
  destruct (sorted_head cands sorted Hne Hwf Hp Hs) as (best & sorted' & E & Hb & Hle & ->).
  assert (Hr : -9818 <= score_of best <= 127).
  { rewrite Forall_forall in Hwf. apply (candidate_score_exact best (Hwf _ Hb)). }
  rewrite threshold_exact by done. rewrite accepted_sorted by done.
  assert (Hn : length (List.filter (fun x : Scored => score_of best - margin_of (score_of best) <=? x.1)
      sorted) = length (List.filter (fun c => score_of best - margin_of (score_of best) <=? score_of c)
      cands)).
  { rewrite (count_filter_perm _ _ _ Hp).
    apply (filter_scored (fun s => score_of best - margin_of (score_of best) <=? s)). }
  exists best. rewrite Hn. unfold elected_count. set (n := length (List.filter _ cands)) in *.
  assert (1 <= n)%nat.
  { rewrite <- Hn, E. cbn. unfold margin_of.
    replace (score_of best - _ <=? score_of best) with true by lia. cbn. lia. }
  clear Hn. clearbody n. split; [ done | ]. rewrite E. cbn [map snd].
  destruct (Z.to_nat (accept_limit elected)) as [ | k ]; cbn [Nat.min Nat.max].
  - split; [ done | ]. split; [ exact Hle | ]. by rewrite take_0.
  - destruct n as [ | n ]; [ lia | ]. cbn [Nat.min Nat.max take head].
    done.
Qed.

(** *** Installing the winners *)

(** The four-entry arrays of an engine have their length. *)
Record engine_shape {W} (e : Engine W) : Prop := {
  sh_arq : length (te_arq e) = 4%nat;
  sh_paths : length (te_paths e) = 4%nat;
  sh_nodes : length (tr_exit_nodes (te_transfer e)) = 4%nat;
  sh_alive : length (tr_exit_node_alive (te_transfer e)) = 4%nat;
  sh_acks : length (tr_last_ack_ms (te_transfer e)) = 4%nat
}.

Section install.
Context {W : Type} (h : Host W).
Notation Engine := (Engine W).
Implicit Types (e : Engine) (w : W).

(** What the five parallel arrays hold for exit [i]. *)
Definition exit_slot e (i : Z) : Z * bool * Z * Sender * ExitPathStats :=
  (aget (tr_exit_nodes (te_transfer e)) i, is_exit_alive i e,
   aget (tr_last_ack_ms (te_transfer e)) i, aget (te_arq e) i, aget (te_paths e) i).

Definition fresh_exit (now : Z) (c : ExitCandidate) (s : Sender)
    : Z * bool * Z * Sender * ExitPathStats :=
  (ec_addr c, true, now, set_peer_addr (ec_addr c) (reset_sender s),
   path_stats_new <| ep_ewma_rtt_ms := f32_of_Z (compute_arq_timeout_ms (ec_hops_to_gw c)) |>).

Lemma accept_exit_slot now e i c (j : Z) :
  engine_shape e → (i < 4)%nat → 0 <= j < 4 →
  exit_slot (accept_exit now e (i, c)) j =
    if decide (j = Z.of_nat i) then fresh_exit now c (aget (te_arq e) j) else exit_slot e j.
Proof.
  intros [] Hi Hj. unfold exit_slot, accept_exit, is_exit_alive. proj_upd. case_decide as E.
  - subst j. rewrite !aget_aset_eq by lia. done.
  - rewrite !aget_aset_ne by lia. done.
Qed.

Lemma accept_exit_shape now e ic : engine_shape e → engine_shape (accept_exit now e ic).
Proof.
  destruct ic as [i c]. intros []. unfold accept_exit.
  split; proj_upd; rewrite ?length_aset; done.
Qed.

Lemma accept_fold_slot now winners off e (j : Z) :
  engine_shape e → (off + length winners <= 4)%nat → 0 <= j < 4 →
  engine_shape (fold_left (accept_exit now) (imap (fun i => pair (off + i)%nat) winners) e) ∧
  exit_slot (fold_left (accept_exit now) (imap (fun i => pair (off + i)%nat) winners) e) j =
    match (if decide (Z.of_nat off <= j) then winners !! (Z.to_nat j - off)%nat else None) with
    | Some c => fresh_exit now c (aget (te_arq e) j)
    | None => exit_slot e j
    end.
Proof.
  revert off e. induction winners as [ | c winners IH ]; intros off e Hsh Hl Hj.
  { cbn. split; [ done | ]. by case_decide. }
  cbn [imap fold_left length] in *. rewrite Nat.add_0_r.
  rewrite (imap_ext _ (fun i => pair (S off + i)%nat)) by (intros; cbn; f_equal; lia).
  destruct (IH (S off) (accept_exit now e (off, c))) as [H1 H2];
    [ by apply accept_exit_shape | lia | done | ].
  split; [ exact H1 | ]. rewrite H2, accept_exit_slot by (done || lia).
  destruct (decide (j = Z.of_nat off)) as [-> | Hne].
  - rewrite (decide_False (P := Z.of_nat (S off) <= _)), decide_True by lia.
    by replace (Z.to_nat (Z.of_nat off) - off)%nat with O by lia.
  - destruct (decide (Z.of_nat off <= j)).
    + rewrite decide_True by lia.
      replace (Z.to_nat j - off)%nat with (S (Z.to_nat j - S off)) by lia. cbn [lookup list_lookup].
      destruct (winners !! _); [ | done ]. f_equal.
      unfold accept_exit. proj_upd. by rewrite aget_aset_ne by lia.
    + by rewrite decide_False by lia.
Qed.

Lemma accept_fold_election now l e :
  te_election (fold_left (accept_exit now) l e) = te_election e.
Proof.
  revert e. induction l as [ | [i c] l IH ]; intros e; [ done | ]. cbn [fold_left].
  by rewrite IH.
Qed.

Lemma length_accepted limit thr l : (length (accepted_candidates limit thr l) <= limit)%nat.
Proof.
  revert limit. induction l as [ | [s c] l IH ]; intros [ | limit ]; cbn; try lia.
  destruct (s >=? thr); cbn; [ specialize (IH limit) | specialize (IH (S limit)) ]; lia.
Qed.

Lemma elect_length elected cands :
  cands ≠ [] → (length cands <= 4)%nat → (1 <= length (elect elected cands).2 <= 4)%nat.
Proof.
  intros Hne Hl. unfold elect. cbn [snd]. set (scored := map _ cands).
  destruct (sort_candidates_spec scored) as [_ Hp].
  { unfold scored. by destruct cands. }
  { unfold scored. by rewrite length_map. }
  pose proof (accept_limit_range elected) as Hr.
  match goal with |- context [accepted_candidates ?n ?t ?l] =>
    pose proof (length_accepted n t l) as Ha; destruct (accepted_candidates n t l) eqn:E end.
  - destruct (sort_candidates scored) as [ | [s c] l ]; [ | cbn; lia ].
    apply Permutation_nil_l in Hp. unfold scored in Hp. by destruct cands.
  - cbn in *. lia.
Qed.

(** C17: when the election window has passed, every winner gets an exit slot, in
    rank order: its address, alive, heard from now, a fresh ARQ window that
    sends to it and owns its residue of the sequence numbers. The transfer
    starts at fragment 0 over one to four exits and the event is signalled. *)
Theorem election_installs elected now e w :
  engine_shape e → el_candidates (te_election e) ≠ [] →
  (length (el_candidates (te_election e)) <= 4)%nat → el_active (te_election e) = true →
  u32 (now - el_start_ms (te_election e)) > el_timeout_ms (te_election e) →
  let winners := (elect elected (el_candidates (te_election e))).2 in
  let n := Z.of_nat (length winners) in
  let '(e', w') := election_timeout_tick h elected now e w in
  w' = h_set_bits h w FLP_EVT_EXIT_NODE_ELECTED ∧
  el_active (te_election e') = false ∧ 1 <= n <= 4 ∧
  tr_exit_node_count (te_transfer e') = n ∧ tr_next_fragment (te_transfer e') = 0 ∧
  ∀ j c, winners !! j = Some c →
    let i := Z.of_nat j in
    aget (tr_exit_nodes (te_transfer e')) i = ec_addr c ∧
    is_exit_alive i e' = true ∧ aget (tr_last_ack_ms (te_transfer e')) i = h_now h w ∧
    aget (te_arq e') i =
      set_exit_stride n i (set_peer_addr (ec_addr c) (reset_sender (aget (te_arq e) i))).
Proof.
  intros Hsh Hne Hl Ha Ht. cbv zeta. unfold election_timeout_tick. rewrite Ha.
  replace (u32 _ <=? _) with false by lia. cbn [negb orb].
  pose proof (elect_length elected _ Hne Hl) as Hn.
  destruct (el_candidates (te_election e)) as [ | c0 cands ] eqn:Ec; [ done | ].
  rewrite <- Ec in *. destruct (elect elected _) as [sorted winners]. cbn [snd] in *.
  set (e0 := e <| te_election ::= _ |>). assert (Hsh0 : engine_shape e0) by (by destruct Hsh).
  assert (Hfold : ∀ j, 0 <= j < 4 → _) by
    exact (λ j Hj, accept_fold_slot (h_now h w) winners 0 e0 j Hsh0 ltac:(lia) Hj).
  change (imap (fun i => pair (0 + i)%nat) winners) with (imap pair winners) in Hfold.
  set (e1 := fold_left _ _ e0) in *. proj_upd.
  split; [ done | ]. split.
  { unfold e1. by rewrite accept_fold_election. }
  split; [ lia | ]. split; [ done | ]. split; [ done | ].
  intros j c Hj. pose proof (lookup_lt_Some _ _ _ Hj).
  destruct (Hfold (Z.of_nat j)) as [Hsh1 Hslot]; [ lia | ].
  rewrite decide_True, Nat.sub_0_r, Nat2Z.id, Hj in Hslot by lia.
  unfold exit_slot, fresh_exit in Hslot. injection Hslot as H1 H2 H3 H4 _.
  unfold is_exit_alive in *. proj_upd. split_and!; [ done.. | ].
  unfold set_strides. rewrite <- H4. unfold aget in *. rewrite Nat2Z.id in *.
  apply list_lookup_total_correct. rewrite list_lookup_imap.
  rewrite list_lookup_lookup_total_lt by (destruct Hsh1; lia).
  cbn [fmap option_fmap option_map]. by rewrite (proj2 (Nat.ltb_lt j (length winners))) by done.
Qed.
End install.

(** ** Witnesses *)

Definition demo_candidates : list ExitCandidate :=
  [mk_candidate 5 (-70) 2 0; mk_candidate 6 (-60) 1 0; mk_candidate 7 (-90) 3 1].

Lemma election_elects_best_witness :
  (elect 2 demo_candidates).2 = [mk_candidate 6 (-60) 1 0; mk_candidate 5 (-70) 2 0] ∧
  head (elect 2 demo_candidates).2 = Some (mk_candidate 6 (-60) 1 0).
Proof.
  split; [ reflexivity | ].
  pose proof (election_elects_best 2 demo_candidates) as H.
  destruct (elect 2 demo_candidates) as [sorted winners] eqn:E.
  destruct H as (_ & _ & best & Hb & Hh & Hle & _).
  - discriminate.
  - cbn. lia.
  - repeat constructor; cbn; int_lia.
  - cbn [snd]. rewrite Hh. f_equal. apply (f_equal snd) in E. cbn [snd] in E. subst winners.
    injection Hh as <-. reflexivity.
Defined.

Definition electing_node : Engine DemoWorld :=
  demo_node <| te_election := mk_election demo_candidates 100 true 4250 |>.

Lemma election_installs_witness :
  tr_exit_node_count (te_transfer (election_timeout_tick demo_host 2 5000 electing_node
    (demo_world 5000)).1) = 2.
Proof.
  pose proof (election_installs demo_host 2 5000 electing_node (demo_world 5000)) as H.
  cbv zeta in H. destruct (election_timeout_tick _ _ _ _ _) as [e' w']. cbn [fst].
  destruct H as (_ & _ & _ & -> & _).
  - split; reflexivity.
  - discriminate.
  - cbn. lia.
  - reflexivity.
  - reflexivity.
  - reflexivity.
Defined.
