(* ===== verification/TransferCloud.v ===== *)
(** * Transfer engine: the local-exit window

    [tick_local_exit_arq] publishes the fragments of a file to the cloud from
    a window of 16, driven by the cloud's ACK and NACK queues. The host is
    arbitrary: [Good] is any property of its world that the callbacks keep,
    such as "everything published so far was allowed". *)

From Stdlib Require Import ZArith Lia SpecFloat.
From stdpp Require Import base list numbers option sets gmap.
From S2P Require Import Prelude.
From S2P Require Import Packet.
From S2P Require Import Fec.
From S2P Require Import SelectiveRepeat.
From S2P Require Import Receiver.
From S2P Require Import ProtocolSelector.
From S2P Require Import TransferState.
From S2P Require Import TransferArq.
From S2P Require Import TransferHandlers.
From S2P Require Import TransferEngine.
From S2P Require Import TransferDemo.
From S2P Require Import TransferRoles.
Open Scope Z_scope.
Open Scope flp_scope.

(** ** The bitmap, the base and the retransmit queue *)

Lemma cloud_mark_spec bm p q :
  0 <= p → 0 <= q → p / 8 < Z.of_nat (length bm) →
  cloud_acked (cloud_mark bm p) q = (q =? p) || cloud_acked bm q.
Proof. apply got_set. Qed.

Lemma length_cloud_mark bm p : length (cloud_mark bm p) = length bm.
Proof. apply length_aset. Qed.

Lemma advance_base_spec fuel count bm base :
  0 <= base <= count → count < 65536 → count - base <= Z.of_nat fuel →
  let b := advance_base fuel count bm base in
  base <= b <= count ∧ (∀ s, base <= s < b → cloud_acked bm s = true) ∧
  (b = count ∨ cloud_acked bm b = false).
Proof.
  revert base. induction fuel as [ | fuel IH ]; intros base Hb Hc Hf; cbn [advance_base].
  { cbv zeta. split; [ lia | ]. split; [ lia | left; lia ]. }
  destruct (Z.ltb_spec base count); cbn [andb].
  2: { cbv zeta. split; [ lia | ]. split; [ lia | left; lia ]. }
  destruct (cloud_acked bm base) eqn:E.
  - rewrite (u16_small (base + 1)) by int_lia.
    destruct (IH (base + 1)) as (H1 & H2 & H3); [ lia.. | ]. cbv zeta in *.
    split; [ lia | ]. split; [ | done ]. intros s Hs.
    destruct (Z.eq_dec s base) as [-> | ]; [ done | ]. apply H2. lia.
  - cbv zeta. split; [ lia | ]. split; [ lia | by right ].
Qed.

Lemma compact_retx_sub bm sent skip queue :
  compact_retx bm sent skip queue `sublist_of` queue.
Proof.
  revert skip. induction queue as [ | s queue IH ]; intros skip; cbn; [ done | ].
  destruct (cloud_acked bm s); [ by apply sublist_cons | ].
  destruct (skip <? sent); [ by apply sublist_cons | by apply sublist_skip ].
Qed.

Definition retx_ok (count : Z) (queue : list Z) : Prop :=
  Forall (fun s => 0 <= s < count) queue ∧ NoDup queue ∧
  Z.of_nat (length queue) <= CLOUD_RETX_QUEUE_SIZE.

Lemma retx_ok_sub count q q' : q' `sublist_of` q → retx_ok count q → retx_ok count q'.
Proof.
  intros Hs (H1 & H2 & H3). split.
  { rewrite Forall_forall in *. intros x Hx. apply H1. by eapply elem_of_sublist. }
  split; [ by eapply sublist_NoDup | ]. apply sublist_length in Hs. lia.
Qed.

Lemma enqueue_retx_ok count s queue :
  0 <= s < count → retx_ok count queue → retx_ok count (enqueue_retx s queue).
Proof.
  intros Hs (H1 & H2 & H3). unfold enqueue_retx.
  destruct (existsb (Z.eqb s) queue) eqn:E; cbn [negb andb]; [ done | ].
  destruct (Z.ltb_spec (Z.of_nat (length queue)) CLOUD_RETX_QUEUE_SIZE); [ | done ].
  split; [ apply Forall_app; auto | ]. split.
  - apply NoDup_app. split; [ done | ]. split; [ | apply NoDup_singleton ].
    intros x Hx ->%list_elem_of_singleton.
    assert (existsb (Z.eqb s) queue = true); [ | congruence ].
    apply existsb_exists. exists s. split; [ by apply list_elem_of_In | lia ].
  - rewrite length_app. cbn. lia.
Qed.

Lemma slice_at (file : list Z) fs s :
  0 <= s → Z.of_nat (length file) < 4294967296 → 0 < fs → s * fs < Z.of_nat (length file) →
  (if u32 (Z.of_nat (length file) - s * fs) <? fs
   then u32 (Z.of_nat (length file) - s * fs) else fs) =
  Z.min fs (Z.of_nat (length file) - s * fs).
Proof.
  intros. rewrite (u32_small (_ - _)) by int_lia. destruct (Z.ltb_spec
    (Z.of_nat (length file) - s * fs) fs); lia.
Qed.

Section cloud.
Context {W : Type} (h : Host W).
Notation Engine := (Engine W).
Implicit Types (e : Engine) (w : W).

(** The whole file behind [read_chunk], and the length of its last fragment. *)
Definition reads_file (file : list Z) e : Prop :=
  tr_read_chunk (te_transfer e) = Some (make_buffer_reader file (Z.of_nat (length file))) ∧
  tr_size (te_transfer e) = Z.of_nat (length file) ∧ 0 < tr_fragment_size (te_transfer e) ∧
  Z.of_nat (length file) < 4294967296.

Lemma read_fragment_slice file e w s :
  reads_file file e → 0 <= s → s * tr_fragment_size (te_transfer e) < Z.of_nat (length file) →
  read_fragment (u32 (s * tr_fragment_size (te_transfer e))) e w =
    (slice file (tr_fragment_size (te_transfer e)) s, w).
Proof.
  intros (Hr & Hs & Hf & Hl) H0 Hlt. unfold read_fragment. rewrite Hr, Hs.
  set (fs := tr_fragment_size _) in *. rewrite (u32_small (s * fs)) by int_lia.
  rewrite slice_at by done. unfold make_buffer_reader.
  replace (s * fs >=? _) with false by lia. f_equal.
  replace (_ >? _) with false by lia. unfold slice.
  destruct (Z.le_gt_cases fs (Z.of_nat (length file) - s * fs)).
  - by rewrite Z.min_l by lia.
  - rewrite Z.min_r by lia. rewrite !take_ge; [ done | | ]; rewrite length_drop; lia.
Qed.

(** What the callbacks of a local exit promise: the ACK queue holds numbers
    the cloud acknowledged, and [Good] is kept. *)
Record cloud_host (Acked : Z → Prop) (Good : W → Prop) : Prop := {
  ch_ack : ∀ drain, h_drain_cloud_ack h = Some drain → ∀ w sid, Good w →
    Good (drain w sid).2 ∧ ∀ s, (drain w sid).1 = Some s → 0 <= s ∧ Acked s;
  ch_nack : ∀ drain, h_drain_cloud_nack h = Some drain → ∀ w sid, Good w →
    Good (drain w sid).2 ∧ ∀ s, (drain w sid).1 = Some s → 0 <= s;
  ch_observe : ∀ w sid s, Good w → Good (observe_nack h sid s w);
  ch_end : ∀ w sid, Good w → Good (session_end h sid w);
  ch_bits : ∀ w b, Good w → Good (h_set_bits h w b)
}.

Record cloud_inv (Acked : Z → Prop) e : Prop := {
  cw_count : 0 <= tr_fragment_count (te_transfer e) <= MAX_CLOUD_FRAGMENTS;
  cw_len : Z.of_nat (length (ca_ack_bitmap (te_cloud e))) = CLOUD_ACK_BITMAP_BYTES;
  cw_base : 0 <= ca_base_seq (te_cloud e) <= tr_fragment_count (te_transfer e);
  cw_below : ∀ s, 0 <= s < ca_base_seq (te_cloud e) →
    cloud_acked (ca_ack_bitmap (te_cloud e)) s = true;
  cw_acked : ∀ s, 0 <= s < tr_fragment_count (te_transfer e) →
    cloud_acked (ca_ack_bitmap (te_cloud e)) s = true → Acked s;
  cw_next : 0 <= ca_next_send (te_cloud e) <= tr_fragment_count (te_transfer e);
  cw_retx : retx_ok (tr_fragment_count (te_transfer e)) (ca_retx_queue (te_cloud e))
}.

Context (Acked : Z → Prop) (Good : W → Prop) (Hhost : cloud_host Acked Good).

Lemma drain_acks_spec fuel drain sid count bm act w :
  h_drain_cloud_ack h = Some drain → 0 <= count <= MAX_CLOUD_FRAGMENTS →
  Z.of_nat (length bm) = CLOUD_ACK_BITMAP_BYTES → Good w →
  (∀ s, 0 <= s < count → cloud_acked bm s = true → Acked s) →
  let '(bm', act', w') := drain_acks h fuel drain sid count bm act w in
  length bm' = length bm ∧ Good w' ∧
  (∀ s, 0 <= s → cloud_acked bm s = true → cloud_acked bm' s = true) ∧
  (∀ s, 0 <= s < count → cloud_acked bm' s = true → Acked s).
Proof.
  intros Hd Hc. revert bm act w. induction fuel as [ | fuel IH ]; intros bm act w Hl Hg Ha;
    cbn [drain_acks]; [ done | ].
  destruct (ch_ack _ _ Hhost drain Hd w sid Hg) as [Hg' Hs].
  destruct (drain w sid) as [[s | ] w']; cbn [fst snd] in *; [ | done ].
  destruct (Hs s eq_refl) as [H0 HA].
  destruct (Z.ltb_spec s count); [ | by apply IH ].
  assert (Hin : s / 8 < Z.of_nat (length bm)).
  { rewrite Hl. unfold CLOUD_ACK_BITMAP_BYTES, MAX_CLOUD_FRAGMENTS in *. lia. }
  specialize (IH (cloud_mark bm s) (h_now h w') w').
  destruct (drain_acks _ _ _ _ _ _ _ _) as [[bm' act'] w''].
  destruct IH as (H1 & H2 & H3 & H4); [ by rewrite length_cloud_mark | done | | ].
  - intros q Hq. rewrite cloud_mark_spec by lia.
    destruct (Z.eqb_spec q s) as [-> | ]; [ done | by apply Ha ].
  - rewrite length_cloud_mark in H1. split; [ done | ]. split; [ done | ]. split; [ | done ].
    intros q Hq Hb. apply H3; [ done | ]. rewrite cloud_mark_spec by lia. by rewrite Hb, orb_true_r.
Qed.

Lemma drain_nacks_spec fuel drain sid count bm queue w :
  h_drain_cloud_nack h = Some drain → Good w → retx_ok count queue →
  let '(queue', w') := drain_nacks h fuel drain sid count bm queue w in
  Good w' ∧ retx_ok count queue'.
Proof.
  intros Hd. revert queue w. induction fuel as [ | fuel IH ]; intros queue w Hg Hq;
    cbn [drain_nacks]; [ done | ].
  destruct (ch_nack _ _ Hhost drain Hd w sid Hg) as [Hg' Hs].
  destruct (drain w sid) as [[s | ] w']; cbn [fst snd] in *; [ | done ].
  destruct (Z.geb_spec s count); [ by apply IH | ].
  destruct (cloud_acked bm s); [ by apply IH | ].
  apply IH; [ by apply (ch_observe _ _ Hhost) | ]. apply enqueue_retx_ok; [ | done ].
  specialize (Hs s eq_refl). lia.
Qed.

(** Steps 1 and 2 of the tick: the base becomes the first fragment not
    acknowledged. *)
Lemma drain_cloud_spec e w :
  cloud_inv Acked e → Good w →
  let '(e', w') := drain_cloud_queues h e w in
  cloud_inv Acked e' ∧ Good w' ∧ te_transfer e' = te_transfer e ∧
  te_my_addr e' = te_my_addr e ∧
  ca_next_send (te_cloud e') = ca_next_send (te_cloud e) ∧
  (∀ s, 0 <= s → cloud_acked (ca_ack_bitmap (te_cloud e)) s = true →
     cloud_acked (ca_ack_bitmap (te_cloud e')) s = true) ∧
  (ca_base_seq (te_cloud e') = tr_fragment_count (te_transfer e) ∨
   cloud_acked (ca_ack_bitmap (te_cloud e')) (ca_base_seq (te_cloud e')) = false).
Proof.
  intros [] Hg. unfold drain_cloud_queues. cbv zeta.
  set (count := tr_fragment_count (te_transfer e)) in *. set (sid := tr_session_id _).
  set (acks := match h_drain_cloud_ack h with Some _ => _ | None => _ end).
  assert (Ha : length acks.1.1 = length (ca_ack_bitmap (te_cloud e)) ∧ Good acks.2 ∧
    (∀ s, 0 <= s → cloud_acked (ca_ack_bitmap (te_cloud e)) s = true →
       cloud_acked acks.1.1 s = true) ∧
    (∀ s, 0 <= s < count → cloud_acked acks.1.1 s = true → Acked s)).
  { unfold acks. destruct (h_drain_cloud_ack h) as [drain | ] eqn:E; [ | done ].
    pose proof (drain_acks_spec (S (h_backlog h w)) drain sid count
      (ca_ack_bitmap (te_cloud e)) (tm_last_cloud_activity_ms (te_timers e)) w E) as H.
    destruct (drain_acks _ _ _ _ _ _ _ _) as [[bm' act'] w']. by apply H. }
  destruct acks as [[bm act] w1]. cbn [fst snd] in Ha. destruct Ha as (Hl & Hg1 & Hm & Hall).
  destruct (advance_base_spec (Z.to_nat (count - ca_base_seq (te_cloud e))) count bm
    (ca_base_seq (te_cloud e))) as (Hb1 & Hb2 & Hb3);
    [ done | unfold MAX_CLOUD_FRAGMENTS in *; lia | lia | ]. cbv zeta in Hb1, Hb2, Hb3.
  set (base := advance_base _ _ _ _) in *.
  set (nacks := match h_drain_cloud_nack h with Some _ => _ | None => _ end).
  assert (Hn : Good nacks.2 ∧ retx_ok count nacks.1).
  { unfold nacks. destruct (h_drain_cloud_nack h) as [drain | ] eqn:E; [ | done ].
    pose proof (drain_nacks_spec (S (h_backlog h w1)) drain sid count bm
      (ca_retx_queue (te_cloud e)) w1 E Hg1 cw_retx0) as H.
    by destruct (drain_nacks _ _ _ _ _ _ _ _). }
  destruct nacks as [queue w2]. cbn [fst snd] in Hn. destruct Hn as [Hg2 Hq].
  proj_upd. split; [ | split_and!; try done ].
  split; proj_upd; fold count; [ done | lia | lia | | done | done | done ].
  intros s Hs. destruct (Z.lt_ge_cases s (ca_base_seq (te_cloud e))).
  - apply Hm; [ lia | ]. apply cw_below0. lia.
  - apply Hb2. lia.
Qed.

(** *** What may be published *)

(** Fragment [s] of the file, not acknowledged, queued for retransmission or
    within the window. *)
Definition allowed (file : list Z) e1 (s : Z) (data : list Z) : Prop :=
  0 <= s < tr_fragment_count (te_transfer e1) ∧
  data = slice file (tr_fragment_size (te_transfer e1)) s ∧
  ((s ∈ ca_retx_queue (te_cloud e1) ∧ cloud_acked (ca_ack_bitmap (te_cloud e1)) s = false) ∨
   ca_next_send (te_cloud e1) <= s < ca_base_seq (te_cloud e1) + CLOUD_WINDOW_SIZE).

Definition publishes_allowed (file : list Z) e1 : Prop :=
  ∀ f, h_forward_to_mqtt h = Some f → ∀ w s data, Good w → allowed file e1 s data →
    Good (f w (tr_session_id (te_transfer e1)) s (te_my_addr e1) data
            (tr_filename (te_transfer e1))).2.

(** Every fragment number below the count starts inside the file. *)
Definition count_fits (file : list Z) e : Prop :=
  ∀ s, 0 <= s < tr_fragment_count (te_transfer e) →
    s * tr_fragment_size (te_transfer e) < Z.of_nat (length file).

Lemma forward_good file e1 e w s data :
  publishes_allowed file e1 → te_transfer e = te_transfer e1 → te_my_addr e = te_my_addr e1 →
  Good w → allowed file e1 s data → Good (forward_to_mqtt h s data e w).2.
Proof.
  intros Hp Ht Hm Hg Ha. unfold forward_to_mqtt. rewrite Ht, Hm.
  destruct (h_forward_to_mqtt h) as [f | ] eqn:E; [ | done ]. by apply (Hp f E).
Qed.

Lemma send_retx_spec file e1 queue sent w :
  publishes_allowed file e1 → reads_file file e1 → count_fits file e1 →
  Forall (fun s => 0 <= s < tr_fragment_count (te_transfer e1)) queue →
  (∀ s, s ∈ queue → s ∈ ca_retx_queue (te_cloud e1)) → Good w → 0 <= sent ->
  let '(sent', w') := send_retx h queue sent e1 w in Good w' ∧ sent <= sent'.
Proof.
  intros Hp Hr Hf Hq. revert sent w. induction Hq as [ | s queue Hs _ IH ]; intros sent w Hin Hg H0;
    cbn [send_retx]; [ split; [ done | lia ] | ].
  destruct (negb (sent <? CLOUD_WINDOW_SIZE)); [ split; [ done | lia ] | ].
  destruct (cloud_acked _ s) eqn:E; [ apply IH; [ set_solver | done | done ] | ].
  rewrite (read_fragment_slice file e1 w s Hr) by first [ lia | by apply Hf ]. cbv iota beta.
  pose proof (forward_good file e1 e1 w s (slice file (tr_fragment_size (te_transfer e1)) s)
    Hp eq_refl eq_refl Hg) as Hfw.
  destruct (forward_to_mqtt h s _ e1 w) as [[] w']; cbn [snd] in Hfw.
  - specialize (IH (sent + 1) w'). destruct (send_retx _ _ _ _ _) as [sent' w''].
    destruct IH; [ set_solver | | lia | split; [ done | lia ] ].
    apply Hfw. split; [ done | ]. split; [ done | ]. left. split; [ set_solver | done ].
  - split; [ | lia ]. apply Hfw. split; [ done | ]. split; [ done | ].
    left. split; [ set_solver | done ].
Qed.

Lemma send_new_spec file e1 e fuel window_end next sent w :
  publishes_allowed file e1 → reads_file file e → count_fits file e1 →
  te_transfer e = te_transfer e1 → te_my_addr e = te_my_addr e1 →
  tr_fragment_count (te_transfer e1) < 65536 →
  window_end = ca_base_seq (te_cloud e1) + CLOUD_WINDOW_SIZE →
  0 <= ca_next_send (te_cloud e1) <= next → next <= tr_fragment_count (te_transfer e1) → Good w →
  let '(next', w') := send_new h fuel window_end next sent e w in
  Good w' ∧ next <= next' <= tr_fragment_count (te_transfer e1) ∧
  (next' = next ∨ next' <= window_end).
Proof.
  intros Hp Hr Hf Ht Hm Hc Hwe. revert next sent w.
  induction fuel as [ | fuel IH ]; intros next sent w Hn Hle Hg; cbn [send_new].
  { split; [ done | lia ]. }
  destruct (_ && _) eqn:E; [ | split; [ done | lia ] ]. apply andb_true_iff in E as [E E3].
  apply andb_true_iff in E as [E1 E2]. rewrite Ht in *.
  rewrite <- Ht, (read_fragment_slice file e w next Hr)
    by first [ lia | rewrite Ht; apply Hf; lia ]. rewrite Ht. cbv iota beta.
  assert (Ha : allowed file e1 next (slice file (tr_fragment_size (te_transfer e1)) next)).
  { split; [ lia | ]. split; [ done | right; lia ]. }
  pose proof (forward_good file e1 e w next _ Hp Ht Hm Hg Ha) as Hfw.
  destruct (forward_to_mqtt h next _ e w) as [[] w']; cbn [snd] in Hfw; [ | split; [ done | lia ] ].
  rewrite (u16_small (next + 1)) by int_lia.
  specialize (IH (next + 1) (sent + 1) w'). destruct (send_new _ _ _ _ _ _ _) as [next' w''].
  destruct IH as (? & ? & ?); [ lia | lia | done | ]. split; [ done | lia ].
Qed.

(** Steps 3 and 4 of the tick. *)
Lemma publish_window_spec file e1 w :
  cloud_inv Acked e1 → publishes_allowed file e1 → reads_file file e1 → count_fits file e1 →
  Good w →
  let '(e', w') := publish_cloud_window h e1 w in
  Good w' ∧ cloud_inv Acked e' ∧ te_transfer e' = te_transfer e1 ∧
  ca_ack_bitmap (te_cloud e') = ca_ack_bitmap (te_cloud e1) ∧
  ca_base_seq (te_cloud e') = ca_base_seq (te_cloud e1) ∧
  (ca_next_send (te_cloud e') = ca_next_send (te_cloud e1) ∨
   ca_next_send (te_cloud e') <= ca_base_seq (te_cloud e1) + CLOUD_WINDOW_SIZE).
Proof.
  intros Hinv Hp Hr Hf Hg. pose proof Hinv as []. unfold publish_cloud_window.
  pose proof (send_retx_spec file e1 (ca_retx_queue (te_cloud e1)) 0 w Hp Hr Hf) as Hs.
  destruct (send_retx _ _ _ _ _) as [sent w1]. destruct Hs as [Hg1 _];
    [ apply cw_retx0 | done | done | done | ].
  set (e2 := e1 <| te_cloud ::= compact_retx_queue sent |>).
  assert (Hwe : u16 (ca_base_seq (te_cloud e2) + CLOUD_WINDOW_SIZE) =
    ca_base_seq (te_cloud e1) + CLOUD_WINDOW_SIZE).
  { unfold e2. proj_upd. unfold compact_retx_queue. proj_upd. apply u16_small.
    unfold CLOUD_WINDOW_SIZE, MAX_CLOUD_FRAGMENTS in *. int_lia. }
  rewrite Hwe.
  pose proof (send_new_spec file e1 e2 (Z.to_nat CLOUD_WINDOW_SIZE)
    (ca_base_seq (te_cloud e1) + CLOUD_WINDOW_SIZE) (ca_next_send (te_cloud e2)) sent w1 Hp Hr Hf
    eq_refl eq_refl) as Hn.
  change (ca_next_send (te_cloud e2)) with (ca_next_send (te_cloud e1)) in *.
  destruct (send_new _ _ _ _ _ _ _) as [next w2].
  destruct Hn as (Hg2 & Hn1 & Hn2);
    [ unfold MAX_CLOUD_FRAGMENTS in *; lia | done | lia | lia | done | ].
  split; [ done | ]. unfold e2. proj_upd. unfold compact_retx_queue. proj_upd.
  split; [ | split_and!; try done; lia ].
  split; proj_upd; [ done | done | done | done | done | lia | ].
  eapply retx_ok_sub; [ apply compact_retx_sub | done ].
Qed.
End cloud.

(** C15: one tick of a local-exit transfer, over any cloud and publish queue.
    With [e1] the state after the cloud's queues are drained: the transfer
    completes in this tick exactly when [e1]'s bitmap covers every fragment,
    and then the cloud acknowledged every one of them; otherwise the transfer
    goes on, the base is the first fragment not acknowledged, and the
    invariant holds again. Whatever is published on the way is the right
    slice of the file, under the session's number, and either queued for
    retransmission and not acknowledged, or within 16 of the base. *)
Theorem local_exit_tick {W} (h : Host W) Acked Good file e w :
  cloud_host h Acked Good → cloud_inv Acked e → reads_file file e → count_fits file e →
  let e1 := (drain_cloud_queues h e w).1 in
  let all_acked := ∀ s, 0 <= s < tr_fragment_count (te_transfer e) →
                     cloud_acked (ca_ack_bitmap (te_cloud e1)) s = true in
  publishes_allowed h Good file e1 → Good w →
  let '(e', w') := tick_local_exit_arq h e w in
  Good w' ∧
  (all_acked → tr_active (te_transfer e') = false ∧ te_cloud e' = cloud_idle ∧
     ∀ s, 0 <= s < tr_fragment_count (te_transfer e) → Acked s) ∧
  (¬ all_acked → cloud_inv Acked e' ∧ te_transfer e' = te_transfer e ∧
     ca_base_seq (te_cloud e') < tr_fragment_count (te_transfer e) ∧
     cloud_acked (ca_ack_bitmap (te_cloud e')) (ca_base_seq (te_cloud e')) = false ∧
     (ca_next_send (te_cloud e') = ca_next_send (te_cloud e) ∨
      ca_next_send (te_cloud e') <= ca_base_seq (te_cloud e') + CLOUD_WINDOW_SIZE)).
Proof.
  intros Hh Hinv Hr Hf. cbv zeta. unfold tick_local_exit_arq.
  pose proof (drain_cloud_spec h Acked Good Hh e w Hinv) as Hd.
  destruct (drain_cloud_queues h e w) as [e1 w1]. cbn [fst]. intros Hp Hg.
  destruct (Hd Hg) as (Hinv1 & Hg1 & Ht1 & _ & Hn1 & _ & Hb1). clear Hd.
  assert (Hr1 : reads_file file e1) by (unfold reads_file; by rewrite Ht1).
  assert (Hf1 : count_fits file e1) by (unfold count_fits; by rewrite Ht1).
  pose proof (publish_window_spec h Acked Good Hh file e1 w1 Hinv1 Hp Hr1 Hf1 Hg1) as H2.
  destruct (publish_cloud_window h e1 w1) as [e2 w2].
  destruct H2 as (Hg2 & Hinv2 & Ht2 & Hbm2 & Hbase2 & Hn2).
  rewrite Ht2, Ht1, Hbase2. pose proof (cw_base _ _ Hinv1) as Hrange. rewrite Ht1 in Hrange.
  destruct (Z.geb_spec (ca_base_seq (te_cloud e1)) (tr_fragment_count (te_transfer e))) as [Hge | Hlt].
  - unfold reset_sender_transfer_state. proj_upd. cbn [andb].
    assert (Hall : ∀ s, 0 <= s < tr_fragment_count (te_transfer e) →
      cloud_acked (ca_ack_bitmap (te_cloud e1)) s = true).
    { intros s Hs. apply (cw_below _ _ Hinv1). lia. }
    split; [ | split; [ | by intros [] ] ].
    + pose proof (ch_end _ _ _ Hh w2 (tr_session_id (te_transfer e2)) Hg2).
      destruct (te_events e2); [ by apply (ch_bits _ _ _ Hh) | done ].
    + intros _. split; [ done | ]. split; [ done | ]. intros s Hs.
      apply (cw_acked _ _ Hinv1); [ by rewrite Ht1 | by apply Hall ].
  - split; [ done | ]. destruct Hb1 as [Hb1 | Hb1]; [ rewrite Hb1 in Hlt; lia | ].
    split.
    + intros Hall. rewrite Hall in Hb1 by lia. done.
    + intros _. split; [ done | ]. split; [ congruence | ]. rewrite Hbm2, ?Hbase2.
      split; [ lia | ]. split; [ done | ]. rewrite Hn1 in Hn2. done.
Qed.

(** Three one-byte fragments; the cloud has acknowledged 0 and 2. *)
Definition local_node : Engine DemoWorld :=
  demo_node <| te_local_exit := true |>
    <| te_transfer ::= fun t =>
         t <| tr_active := true |> <| tr_session_id := 7 |> <| tr_size := 3 |>
           <| tr_fragment_size := 1 |> <| tr_fragment_count := 3 |>
           <| tr_read_chunk := Some demo_file_reader |> |>.
Definition local_world : DemoWorld := mk_demo 500 [0; 2] [] [].
Definition is_acked (s : Z) : Prop := s = 0 ∨ s = 2.
Definition acks_genuine (w : DemoWorld) : Prop :=
  Forall is_acked (dw_acks w) ∧ Forall (fun s => 0 <= s) (dw_nacks w).

Lemma local_node_inv : cloud_inv is_acked local_node.
Proof.
  split; cbn -[Z.of_nat replicate cloud_acked].
  - unfold MAX_CLOUD_FRAGMENTS. lia.
  - rewrite length_replicate. reflexivity.
  - lia.
  - lia.
  - intros s Hs Hb. unfold cloud_acked in Hb.
    change (got (replicate (Z.to_nat CLOUD_ACK_BITMAP_BYTES) 0) s = true) in Hb.
    rewrite got_fresh in Hb; [ discriminate | | lia ].
    unfold CLOUD_ACK_BITMAP_BYTES, MAX_CLOUD_FRAGMENTS. lia.
  - lia.
  - split; [ constructor | ]. split; [ constructor | ]. vm_compute. discriminate.
Qed.

Lemma demo_cloud_host : cloud_host demo_host is_acked acks_genuine.
Proof.
  split.
  - intros drain [= <-] w sid [H1 H2]. unfold demo_pop. destruct (dw_acks w) as [ | s q ] eqn:E.
    + split; [ split; cbn [snd]; rewrite ?E; assumption | discriminate ].
    + inversion_clear H1. split; [ split; assumption | ].
      intros s' [= <-]. split; [ destruct H; lia | assumption ].
  - intros drain [= <-] w sid [H1 H2]. unfold demo_pop. destruct (dw_nacks w) as [ | s q ] eqn:E.
    + split; [ split; cbn [snd]; rewrite ?E; assumption | discriminate ].
    + inversion_clear H2. split; [ split; assumption | ]. intros s' [= <-]. assumption.
  - intros w sid s Hg. exact Hg.
  - intros w sid Hg. unfold session_end. cbn. destruct (negb _); exact Hg.
  - intros w b Hg. exact Hg.
Qed.

Lemma local_exit_tick_witness :
  cloud_inv is_acked local_node ∧
  tr_active (te_transfer (tick_local_exit_arq demo_host local_node local_world).1) = true.
Proof.
  split; [ exact local_node_inv | ].
  pose proof (local_exit_tick demo_host is_acked acks_genuine [1; 2; 3] local_node local_world
    demo_cloud_host local_node_inv) as H. cbv zeta in H.
  destruct (tick_local_exit_arq demo_host local_node local_world) as [e' w'].
  destruct H as (_ & _ & H).
  - split; [ reflexivity | ]. split; [ reflexivity | ]. split; [ reflexivity | ]. reflexivity.
  - intros s Hs. cbn in *. lia.
  - intros f [= <-] w s data Hg _. exact Hg.
  - split; [ | constructor ].
    constructor; [ left; reflexivity | constructor; [ right; reflexivity | constructor ] ].
  - cbn [fst]. destruct H as (_ & -> & _); [ | reflexivity ].
    intros Hall. specialize (Hall 1).
    assert (E : cloud_acked (ca_ack_bitmap (te_cloud
      (drain_cloud_queues demo_host local_node local_world).1)) 1 = false)
      by (vm_compute; reflexivity).
    rewrite E in Hall. assert (Hr : 0 <= 1 < 3) by lia. specialize (Hall Hr). discriminate.
Defined.
