(* ===== verification/TransferDelivery.v ===== *)
(** * Transfer engine: what a mesh transfer sends

    Every DATA packet of a mesh transfer carries the bytes the receiver's
    layout assigns to its sequence number: a slice of the file, or the parity
    of its group. With [Receiver.transfer_integrity] this is the end-to-end
    correctness of a transfer. The host is arbitrary; [Good] is any property
    of its world that the callbacks keep, sending a DATA packet only when it
    is genuine. *)

From Stdlib Require Import ZArith Lia SpecFloat.
From stdpp Require Import base list numbers option sets gmap.
From S2P Require Import Prelude.
From S2P Require Import Packet.
From S2P Require Import Fec.
From S2P Require Import SelectiveRepeat.
From S2P Require Import Receiver.
From S2P Require Import ProtocolSelector.
From S2P Require Import TransferState.
From S2P Require Import TransferArq.
From S2P Require Import TransferHandlers.
From S2P Require Import TransferEngine.
From S2P Require Import TransferDemo.
From S2P Require Import TransferRoles.
From S2P Require Import TransferElection.
From S2P Require Import TransferCloud.
Open Scope Z_scope.
Open Scope flp_scope.

#[local] Opaque zero_buf.

(** ** A window that holds only genuine fragments *)

Section senders.
Context (genuine_tx : Z → list Z → Prop).

Record sender_ok (s : Sender) : Prop := {
  so_window : sr_window s = None ∨ sender_inv s;
  so_genuine : ∀ q d, pending s !! q = Some d → genuine_tx q d
}.

Lemma pending_none s : sr_window s = None → pending s = ∅.
Proof. intros H. unfold pending. by rewrite H. Qed.

Lemma sender_ok_none s : sr_window s = None → sender_ok s.
Proof.
  intros H. split; [ by left | ]. intros q d. rewrite (pending_none s H). by rewrite lookup_empty.
Qed.

Lemma sender_ok_frame s s' :
  sr_window s' = sr_window s → sr_window_size s' = sr_window_size s →
  sr_in_flight s' = sr_in_flight s → sr_next_seq s' = sr_next_seq s →
  sr_base_seq s' = sr_base_seq s → sr_rto_ms s' = sr_rto_ms s →
  sr_rtt_initialized s' = sr_rtt_initialized s → sender_ok s → sender_ok s'.
Proof.
  intros E1 E2 E3 E4 E5 E6 E7 [Hw Hg]. split.
  - destruct Hw as [Hw | Hw]; [ left; congruence | right; by apply (sender_inv_frame s) ].
  - unfold pending. rewrite E1. exact Hg.
Qed.

Lemma sender_ok_peer a s : sender_ok s → sender_ok (set_peer_addr a s).
Proof. by apply sender_ok_frame. Qed.
Lemma sender_ok_stride n i s : sender_ok s → sender_ok (set_exit_stride n i s).
Proof. by apply sender_ok_frame. Qed.
Lemma sender_ok_timeout t s : sender_ok s → sender_ok (set_timeout t s).
Proof. by apply sender_ok_frame. Qed.
Lemma sender_ok_floor t s : sender_ok s → sender_ok (set_min_rto_floor t s).
Proof. by apply sender_ok_frame. Qed.

Lemma reset_pending s : sr_window s = None ∨ sender_inv s → pending (reset_sender s) = ∅.
Proof.
  intros [H | (slots & [[Hwin (Hws & _) _ _ _ _] _])].
  - apply pending_none. unfold reset_sender. cbn [sr_window update_field]. by rewrite H.
  - by apply (reset_sender_inv s slots).
Qed.

Lemma sender_ok_reset s : sender_ok s → sender_ok (reset_sender s).
Proof.
  intros [Hw _]. split.
  - destruct Hw as [H | (slots & [[Hwin (Hws & _) _ _ _ _] _])].
    + left. unfold reset_sender. cbn [sr_window update_field]. by rewrite H.
    + right. by apply (reset_sender_inv s slots).
  - intros q d. rewrite (reset_pending s Hw). by rewrite lookup_empty.
Qed.

Lemma sender_ok_ack now q s : sender_ok s → sender_ok (SelectiveRepeat.handle_ack now q s).
Proof.
  intros [[Hw | [slots Hs]] Hg].
  - apply sender_ok_none. unfold SelectiveRepeat.handle_ack. by rewrite Hw.
  - destruct (handle_ack_state now q s slots Hs) as [Hi Hp]. split; [ by right | ].
    intros x d. rewrite Hp. intros H. apply Hg. by apply lookup_delete_Some in H as [_ ?].
Qed.

(** The pending fragments as [redistribute_dead_exit] lists them. *)
Lemma snapshot_tags s q :
  sender_ok s → q ∈ snapshot_pending_sequences ARQ_WINDOW s →
  0 <= q < UINT16_MAX ∧ is_Some (pending s !! q).
Proof.
  intros [[Hw | Hi] _] Hq.
  - unfold snapshot_pending_sequences in Hq. rewrite Hw in Hq. by apply elem_of_nil in Hq.
  - pose proof Hi as (slots & Hs). pose proof Hs as [[Hwin Hw Hn _ _ _] _].
    assert (Hroom : sr_in_flight s <= ARQ_WINDOW).
    { rewrite Hn. destruct (pending_size _ _ Hw) as [-> _].
      pose proof (count_if_range fs_sent slots). destruct Hw as (_ & <- & _). lia. }
    apply (snapshot_sorted s ARQ_WINDOW Hi) in Hq; [ | done | done ].
    split; [ | done ]. destruct Hq as [d Hd]. rewrite (sender_state_pending _ _ Hs) in Hd.
    apply (pending_map_lookup_Some _ _ _ _ Hw) in Hd as (i & sl & Hl & Hsent & <- & _).
    destruct Hw as (_ & _ & Hw). destruct (Hw _ _ Hl) as (_ & _ & H). by apply H.
Qed.

(** *** Transmitting operations *)

Context {W : Type} (cb : SendCallback W) (Good : W → Prop).
Context (Hcb : ∀ w dst q d, Good w → genuine_tx q d → Good (cb w dst DATA q d).2).

Lemma sender_ok_send now q d s w :
  sender_ok s → Good w → 0 <= q < UINT16_MAX → genuine_tx q d →
  let '(rc, s', w') := send_fragment (Some cb) now q (Some d) s w in
  sender_ok s' ∧ Good w' ∧
  ∀ x, is_Some (pending s !! x) ∨ (rc = 0 ∧ x = q) → is_Some (pending s' !! x).
Proof.
  intros Hok Hg Hq Hd. pose proof Hok as [[Hw | [slots Hs]] Hgen].
  { unfold send_fragment. rewrite Hw. split; [ done | ]. split; [ done | ].
    intros x [? | [? _]]; [ done | done ]. }
  pose proof Hs as [Hc _]. pose proof Hc as [Hwin Hwok _ _ _ _].
  destruct (decide (0 < Z.of_nat (length d) <= ESPNOW_MAX_PAYLOAD)) as [Hlen | Hlen].
  2: { rewrite (send_rejected (Some cb) now q d s w slots Hc) by lia.
       replace (_ || _) with true by lia. split; [ done | ]. split; [ done | ].
       intros x [? | [? _]]; done. }
  destruct (fs_sent (aget slots (q mod sr_window_size s))) eqn:Es.
  { rewrite (send_rejected (Some cb) now q d s w slots Hc) by auto.
    replace (_ || _) with false by lia. split; [ done | ]. split; [ done | ].
    intros x [? | [Hrc ->]]; [ done | ]. rewrite (sender_state_pending _ _ Hs).
    rewrite (pending_map_lookup _ _ q Hwok). unfold pend. cbv zeta. rewrite Es.
    destruct (_ =? q); [ by eexists | done ]. }
  pose proof (send_free (Some cb) now q d s w slots Hs Es Hq Hlen) as H. cbv zeta in H.
  cbn [call_send] in H. specialize (Hcb w (sr_peer_addr s) q d Hg Hd).
  destruct (send_fragment _ _ _ _ _ _) as [[rc s'] w'].
  destruct H as (Hi & -> & -> & Hp). split; [ split; [ by right | ] | split; [ done | ] ].
  - intros x y. rewrite Hp. destruct (_ <? 0); [ apply Hgen | ].
    intros [[-> ->] | [_ ?]]%lookup_insert_Some; [ done | by apply Hgen ].
  - intros x Hx. rewrite Hp. destruct (_ <? 0).
    + destruct Hx as [? | [? _]]; [ done | done ].
    + destruct (decide (x = q)) as [-> | ].
      * rewrite lookup_insert_eq. by eexists.
      * rewrite lookup_insert_ne by done. destruct Hx as [? | [_ ?]]; [ done | done ].
Qed.

Lemma sender_ok_nack now q s w :
  sender_ok s → Good w →
  sender_ok (SelectiveRepeat.handle_nack (Some cb) now q s w).1 ∧
  Good (SelectiveRepeat.handle_nack (Some cb) now q s w).2 ∧
  pending (SelectiveRepeat.handle_nack (Some cb) now q s w).1 = pending s.
Proof.
  intros Hok Hg. pose proof Hok as [[Hw | [slots Hs]] Hgen].
  { unfold SelectiveRepeat.handle_nack. by rewrite Hw. }
  destruct (handle_nack_state (Some cb) now q s slots w Hs) as (Hi & Hp & Hw).
  split; [ split; [ by right | ] | split; [ | done ] ].
  - rewrite Hp. exact Hgen.
  - rewrite Hw. destruct (pending s !! q) as [d | ] eqn:E; [ | done ]. cbn [call_send].
    apply Hcb; [ done | by apply Hgen ].
Qed.

Lemma tick_loop_good now max_sends s slots n w :
  (∀ sl, sl ∈ slots → fs_sent sl = true → genuine_tx (fs_seq_tag sl) (slot_payload sl)) →
  Good w → Good (tick_loop (Some cb) now max_sends s slots n w).2.
Proof.
  revert n w. induction slots as [ | sl slots IH ]; intros n w Hsl Hg; [ done | ].
  cbn [tick_loop]. cbv zeta.
  assert (Hstep : ∀ sl' n w, Good w → Good
    (let '(rest, n', w') := tick_loop (Some cb) now max_sends s slots n w in (sl' :: rest, n', w')).2).
  { intros sl' n' w0 Hg0. specialize (IH n' w0 ltac:(set_solver) Hg0).
    by destruct (tick_loop _ _ _ _ slots _ _) as [[? ?] ?]. }
  destruct (fs_sent sl) eqn:Es; cbn [negb orb]; [ | by apply Hstep ].
  destruct (_ || _); [ by apply Hstep | ].
  destruct (u32 _ >=? _); [ | by apply Hstep ].
  destruct (_ >=? MAX_RETRIES); [ by apply Hstep | ].
  destruct (fs_len sl =? 0); [ by apply Hstep | ].
  destruct (n >=? max_sends); [ done | ]. cbn [call_send].
  assert (Hg' : Good (cb w (sr_peer_addr s) DATA (fs_seq_tag sl) (slot_payload sl)).2).
  { apply Hcb; [ done | ]. apply Hsl; [ left | done ]. }
  destruct (cb w _ _ _ _) as [rc w']. cbn [snd] in Hg'.
  destruct (rc =? _); [ done | ]. destruct (rc <? 0); [ done | ]. by apply Hstep.
Qed.

Lemma sender_ok_tick now max_sends s w :
  sender_ok s → Good w →
  sender_ok (SelectiveRepeat.tick (Some cb) now max_sends s w).1.2 ∧
  Good (SelectiveRepeat.tick (Some cb) now max_sends s w).2 ∧
  pending (SelectiveRepeat.tick (Some cb) now max_sends s w).1.2 = pending s.
Proof.
  intros Hok Hg. pose proof Hok as [[Hw | [slots Hs]] Hgen].
  { unfold SelectiveRepeat.tick. by rewrite Hw. }
  destruct (tick_state (Some cb) now max_sends s slots w Hs) as [Hi Hp].
  split; [ split; [ by right | ] | split; [ | done ] ].
  - rewrite Hp. exact Hgen.
  - unfold SelectiveRepeat.tick. pose proof Hs as [[Hwin Hwok _ _ _ _] _]. rewrite Hwin.
    pose proof (tick_loop_good now max_sends s (live_slots s slots) 0 w) as H.
    destruct (tick_loop _ _ _ _ _ _ _) as [[live n] w']. cbn [snd] in *. apply H; [ | done ].
    intros sl Hin Hsent. apply Hgen. rewrite (sender_state_pending _ _ Hs).
    apply (pending_map_lookup_Some _ _ _ _ Hwok).
    unfold live_slots in Hin. apply list_elem_of_lookup in Hin as [i Hl].
    rewrite lookup_take_Some in Hl. exists i, sl. naive_solver.
Qed.
End senders.

(** ** Arrays of windows *)

Lemma Forall_aget_sender (P : Sender → Prop) l i :
  P sender_new → Forall P l → P (aget l i).
Proof.
  intros Hd Hl. unfold aget. destruct (l !! Z.to_nat i) as [s | ] eqn:E.
  - rewrite (list_lookup_total_correct _ _ _ E). rewrite Forall_forall in Hl.
    apply Hl. by eapply list_elem_of_lookup_2.
  - by rewrite list_lookup_total_alt, E.
Qed.

Lemma Forall_aset {A} (P : A → Prop) l i x : Forall P l → P x → Forall P (aset l i x).
Proof. intros. unfold aset. by apply Forall_insert. Qed.

(** ** Runs *)

(** What reaches the engine of a node without internet: its tick, and the
    packets [MeshManager::process_slab] hands it. *)
Inductive MeshEvent :=
  | EvTick (elected now : Z)
  | EvAck (seq from : Z)
  | EvNack (seq from : Z)
  | EvCongestion
  | EvTransferAd (hdr : PacketHeader) (payload : list Z)
  | EvTransferAck (hdr : PacketHeader) (payload : list Z)
  | EvTransferDone (sender : Z) (payload : list Z)
  | EvExitOffline (exit_addr session_id : Z)
  | EvData (hdr : PacketHeader) (payload : list Z).

Definition mesh_step {W} (h : Host W) (ev : MeshEvent) (e : Engine W) (w : W) : Engine W * W :=
  match ev with
  | EvTick elected now => TransferEngine.tick h elected now e w
  | EvAck seq from => (handle_ack h seq from e w, w)
  | EvNack seq from => handle_nack h seq from e w
  | EvCongestion => (e <| te_cong ::= signal_congestion |>, w)
  | EvTransferAd hdr payload => handle_transfer_ad h hdr payload false e w
  | EvTransferAck hdr payload => (handle_transfer_ack hdr payload e, w)
  | EvTransferDone sender payload => handle_transfer_done h sender payload e w
  | EvExitOffline addr sid => handle_exit_offline h addr sid e w
  | EvData hdr payload => handle_data h hdr payload e w
  end.

Fixpoint mesh_run {W} (h : Host W) (evs : list MeshEvent) (e : Engine W) (w : W)
    : Engine W * W :=
  match evs with
  | [] => (e, w)
  | ev :: evs' => let '(e, w) := mesh_step h ev e w in mesh_run h evs' e w
  end.

(** Sequence numbers come from a 16-bit header field. *)
Definition event_ok (ev : MeshEvent) : Prop :=
  match ev with EvNack seq _ => is_u16 seq | _ => True end.

(** A node that may start a transfer: nothing pending, no role. *)
Record quiet {W} (e : Engine W) : Prop := {
  qt_arq : Forall (sender_ok (fun _ _ => False)) (te_arq e);
  qt_role : serving (te_role e) = false;
  qt_receiver : rv_active (te_receiver e) = false;
  qt_retry : br_type (te_retry e) ≠ DATA;
  qt_redist : te_redist e = [];
  qt_oow : oq_queue (te_oow e) = []
}.

Lemma init_sender_quiet alloc t :
  sender_ok (fun _ _ => False) (SelectiveRepeat.init alloc ARQ_WINDOW t sender_new).2.
Proof.
  destruct alloc; [ | by apply sender_ok_none ].
  assert (H : sender_inv (SelectiveRepeat.init true ARQ_WINDOW t sender_new).2)
    by (apply init_inv; [ by left | done ]).
  split; [ by right | ]. unfold SelectiveRepeat.init. cbn [snd sr_window sender_new update_field].
  cbv zeta. intros q d. match goal with |- context [reset_sender ?x] =>
    destruct (reset_sender_inv x (replicate (Z.to_nat ARQ_WINDOW)
      (mk_fslot zero_buf 0 0 0 false false 0)) eq_refl ltac:(done)) as [_ ->] end.
  by rewrite lookup_empty.
Qed.

Lemma init_quiet {W} elected alloc addr :
  quiet (TransferState.init elected alloc addr (engine_new (W:=W))).
Proof.
  split; try done. unfold TransferState.init, engine_new. proj_upd.
  apply Forall_lookup. intros i s. rewrite list_lookup_imap.
  destruct (_ !! i) as [s0 | ] eqn:E; [ | done ]. apply lookup_replicate in E as [-> _].
  intros [= <-]. destruct (_ <? _); [ apply init_sender_quiet | by apply sender_ok_none ].
Qed.

(** ** A mesh transfer of [file] *)

Section mesh.
Context {W : Type} (h : Host W) (file : list Z) (fs : Z) (Good : W → Prop).
(** Whether the node has never heard of the cloud: [last_cloud_activity_ms_] is zero. *)
Context (cloudless : Prop).
Notation Engine := (Engine W).
Notation size := (Z.of_nat (length file)).
Notation total := (session_total file fs).
Notation genuine_tx := (fun q d => session_payload file fs q = Some d).
Implicit Types (e : Engine) (w : W).

Context (Hfs : 0 < fs <= MAX_MTU) (Hsize : size + fs < 4294967296) (Htotal : total <= 60000).

(** What the host promises: memory for the FEC encoder, and [Good] kept by
    everything the source side calls. *)
Record mesh_host : Prop := {
  mh_alloc : ∀ w, h_alloc h w = true;
  mh_random : ∀ w, Good w → Good (h_random h w).2;
  mh_send : ∀ w dst t q d, Good w → (t = DATA → genuine_tx q d) →
    Good (h_send_packet h w dst t d q).2;
  mh_end : ∀ w sid, Good w → Good (session_end h sid w);
  mh_bits : ∀ w b, Good w → Good (h_set_bits h w b)
}.

Definition fresh_encoder : FecEncoder := mk_encoder (Some zero_buf) 0 0.

(** The encoder has ingested the data fragments of the current group. *)
Definition fec_ok (next : Z) (enc : FecEncoder) : Prop :=
  enc = enc_ingest_all (take (Z.to_nat (next mod 8)) (group_slices file fs (next / 8)))
          fresh_encoder.

(** A data fragment's sequence number. *)
Definition data_seq (q : Z) : Prop := 0 <= q < total ∧ q mod 8 < 7.

Record feeding e : Prop := {
  fd_read : tr_read_chunk (te_transfer e) = Some (make_buffer_reader file size);
  fd_size : tr_size (te_transfer e) = size;
  fd_fs : tr_fragment_size (te_transfer e) = fs;
  fd_count : tr_fragment_count (te_transfer e) = total;
  fd_next : 0 <= tr_next_fragment (te_transfer e) <= total;
  fd_fec : fec_ok (tr_next_fragment (te_transfer e)) (te_fec e);
  fd_redist : Forall data_seq (te_redist e);
  fd_oow : Forall (fun x => is_u16 x.1) (oq_queue (te_oow e));
  fd_election : el_active (te_election e) = true → tr_next_fragment (te_transfer e) = 0
}.

Record sending e : Prop := {
  sd_arq : Forall (sender_ok genuine_tx) (te_arq e);
  sd_role : serving (te_role e) = false;
  sd_receiver : rv_active (te_receiver e) = false;
  sd_local : te_local_exit e = false;
  sd_retry : br_type (te_retry e) ≠ DATA;
  sd_cloud : cloudless → tm_last_cloud_activity_ms (te_timers e) = 0;
  sd_feeding : tr_active (te_transfer e) = true → feeding e
}.

Context (Hhost : mesh_host).

(** *** The layout *)

Lemma total_small : 0 <= total < 65536.
Proof. pose proof (total_range file fs Hfs Hsize). unfold MAX_MTU in *. lia. Qed.

Lemma data_seq_index q :
  data_seq q → 0 <= q / 8 * 7 + q mod 8 < data_fragments file fs.
Proof. intros [Hq Hm]. unfold session_total in Hq. lia. Qed.

Lemma data_seq_offset q e :
  tr_fragment_size (te_transfer e) = fs → data_seq q →
  seq_offset q e = (q / 8 * 7 + q mod 8) * fs ∧ (q / 8 * 7 + q mod 8) * fs < size.
Proof.
  intros Hf Hq. pose proof (data_seq_index q Hq) as Hi.
  destruct (slice_length file fs Hfs Hsize (q / 8 * 7 + q mod 8) Hi) as [_ Hlt].
  split; [ | done ]. unfold seq_offset. cbv zeta. rewrite Hf.
  change (FEC_GROUP_SIZE + 1) with 8. change FEC_GROUP_SIZE with 7.
  pose proof total_small. destruct Hq as [Hq Hm].
  rewrite (u16_small (q / 8 * 7 + q mod 8)) by int_lia.
  rewrite u32_small; [ done | ]. unfold is_u32. nia.
Qed.

Lemma data_seq_genuine q :
  data_seq q → genuine_tx q (slice file fs (q / 8 * 7 + q mod 8)).
Proof.
  intros [Hq Hm]. unfold session_payload. replace (0 <=? q) with true by lia.
  replace (q <? total) with true by lia. cbn [andb]. by replace (q mod 8 =? 7) with false by lia.
Qed.

Lemma feeding_reads e : feeding e → reads_file file e.
Proof.
  intros []. unfold reads_file. rewrite fd_fs0. split; [ done | ]. split; [ done | ].
  split; lia.
Qed.

Lemma read_data_seq q e w :
  feeding e → data_seq q →
  read_fragment (seq_offset q e) e w = (slice file fs (q / 8 * 7 + q mod 8), w).
Proof.
  intros Hf Hq. pose proof (fd_fs _ Hf) as Hfse.
  destruct (data_seq_offset q e Hfse Hq) as [Ho Hlt]. pose proof (data_seq_index q Hq) as Hi.
  pose proof (read_fragment_slice file e w (q / 8 * 7 + q mod 8) (feeding_reads e Hf)) as H.
  assert (0 <= (q / 8 * 7 + q mod 8) * fs) by nia.
  rewrite Hfse in H. rewrite Ho, <- (u32_small ((q / 8 * 7 + q mod 8) * fs)) by int_lia.
  apply H; lia.
Qed.

Lemma enc_reset_fresh enc : enc_reset true enc = fresh_encoder.
Proof.
  unfold enc_reset, enc_ensure_allocated, fresh_encoder. red_upd. cbn [enc_parity].
  by destruct (enc_parity enc).
Qed.

Lemma enc_ingest_all_snoc ds d enc :
  enc_ingest_all (ds ++ [d]) enc = enc_ingest true d (enc_ingest_all ds enc).
Proof. unfold enc_ingest_all. by rewrite fold_left_app. Qed.

Lemma group_slices_nth G (k : nat) :
  (k < 7)%nat → group_slices file fs G !! k = Some (slice file fs (G * 7 + Z.of_nat k)).
Proof.
  intros Hk. unfold group_slices. rewrite list_lookup_fmap, lookup_seq_lt by lia. done.
Qed.

Lemma fec_ok_data q enc :
  0 <= q → q mod 8 < 7 → fec_ok q enc →
  fec_ok (q + 1) (enc_ingest true (slice file fs (q / 8 * 7 + q mod 8)) enc).
Proof.
  intros Hq Hm ->. unfold fec_ok. replace ((q + 1) / 8) with (q / 8) by lia.
  replace (Z.to_nat ((q + 1) mod 8)) with (S (Z.to_nat (q mod 8))) by lia.
  rewrite (take_S_r _ _ (slice file fs (q / 8 * 7 + q mod 8))).
  - by rewrite enc_ingest_all_snoc.
  - rewrite group_slices_nth by lia. by rewrite Z2Nat.id by lia.
Qed.

Lemma fec_ok_parity q enc :
  0 <= q < total → q mod 8 = 7 → fec_ok q enc → genuine_tx q (enc_parity_bytes enc).
Proof.
  intros Hq Hm ->. unfold session_payload. replace (0 <=? q) with true by lia.
  replace (q <? total) with true by lia. cbn [andb]. rewrite Hm, Z.eqb_refl.
  unfold parity_of. rewrite enc_reset_fresh.
  rewrite take_ge; [ done | ]. unfold group_slices. rewrite length_fmap, length_seq. done.
Qed.

Lemma fec_ok_fresh q : q mod 8 = 0 → fec_ok q fresh_encoder.
Proof. intros H. unfold fec_ok. rewrite H. cbn [Z.to_nat]. done. Qed.

(** *** The transport under the engine *)

Lemma send_fn_good c w dst t q d :
  Good w → (t = DATA → genuine_tx q d) → Good (send_fn h (c, w) dst t q d).2.2.
Proof.
  intros Hg Hd. unfold send_fn. set (q' := match t with ACK | NACK => _ | _ => q end).
  assert (Hd' : t = DATA → genuine_tx q' d) by (intros ->; by apply Hd).
  pose proof (mh_send Hhost w dst t q' d Hg Hd') as H.
  destruct (h_send_packet h w dst t d q') as [rc w']. by destruct (rc =? _).
Qed.

Lemma send_fn_arq cw dst q d :
  Good cw.2 → genuine_tx q d → Good (send_fn h cw dst DATA q d).2.2.
Proof. destruct cw as [c w]. intros. by apply send_fn_good. Qed.

(** *** Operations that leave the feeding state alone *)

(** What [sending] reads besides the windows. *)
Definition feed_view e :=
  let t := te_transfer e in
  (tr_read_chunk t, tr_size t, tr_fragment_size t, tr_fragment_count t, tr_next_fragment t,
   tr_active t, te_fec e, te_redist e, oq_queue (te_oow e), el_active (te_election e),
   te_role e, te_receiver e, te_local_exit e, br_type (te_retry e),
   tm_last_cloud_activity_ms (te_timers e)).

Lemma feeding_view e e' : feed_view e' = feed_view e → feeding e → feeding e'.
Proof. unfold feed_view. intros [= E1 E2 E3 E4 E5 E6 E7 E8 E9 E10 E11 E12 E13 E14 E15] [].
  split; rewrite ?E1, ?E2, ?E3, ?E4, ?E5, ?E7, ?E8, ?E9, ?E10; done.
Qed.

Lemma sending_view e e' :
  feed_view e' = feed_view e → Forall (sender_ok genuine_tx) (te_arq e') → sending e → sending e'.
Proof.
  intros E Harq [_ Hr Hrc Hl Hb Hc Hf]. pose proof (feeding_view e e' E) as Hfv. unfold feed_view in E.
  injection E as E1 E2 E3 E4 E5 E6 E7 E8 E9 E10 E11 E12 E13 E14 E15.
  split; [ done | congruence.. | by rewrite E15 | ]. rewrite E6. intros Ha. by apply Hfv, Hf.
Qed.

Definition sound e w : Prop := sending e ∧ Good w.
Definition running e : Prop := tr_active (te_transfer e) = true.

Lemma running_view e e' : feed_view e' = feed_view e → running e → running e'.
Proof. unfold running, feed_view. intros [= _ _ _ _ _ -> _ _ _ _ _ _ _ _ _]. done. Qed.

Lemma sound_view e e' w w' :
  feed_view e' = feed_view e → te_arq e' = te_arq e → sound e w → Good w' → sound e' w'.
Proof.
  intros E Ea [Hs _] Hg. split; [ | done ]. apply (sending_view e); [ done | | done ].
  rewrite Ea. apply Hs.
Qed.

Lemma sound_good e w w' : sound e w → Good w' → sound e w'.
Proof. intros [? _] ?. by split. Qed.

Lemma sound_arq e w i : sound e w → sender_ok genuine_tx (aget (te_arq e) i).
Proof.
  intros [Hs _]. apply Forall_aget_sender; [ by apply sender_ok_none | apply Hs ].
Qed.

Lemma engine_send_sound dst t d q e w :
  sound e w → (t = DATA → genuine_tx q d) →
  let '(rc, e', w') := engine_send h dst t d q e w in sound e' w' ∧ feed_view e' = feed_view e.
Proof.
  intros Hok Hd. unfold engine_send.
  pose proof (send_fn_good (te_cong e) w dst t q d (proj2 Hok) Hd) as Hg.
  destruct (send_fn _ _ _ _ _ _) as [rc [c w']]. cbn [snd] in Hg.
  split; [ | reflexivity ]. by apply (sound_view e _ w).
Qed.

Lemma arq_send_sound i q d e w :
  sound e w → 0 <= q < UINT16_MAX → genuine_tx q d →
  let '(rc, e', w') := arq_send_fragment h i q d e w in
  sound e' w' ∧ feed_view e' = feed_view e.
Proof.
  intros Hok Hq Hd. unfold arq_send_fragment.
  pose proof (sender_ok_send genuine_tx (send_fn h) (fun cw => Good cw.2)
    (fun cw dst q d Hg Hd => send_fn_arq cw dst q d Hg Hd) (h_now h w) q d (aget (te_arq e) i)
    (te_cong e, w) (sound_arq e w i Hok) (proj2 Hok) Hq Hd) as H.
  destruct (send_fragment _ _ _ _ _ _) as [[rc s] [c w']]. destruct H as (Hs & Hg & _).
  cbn [snd] in Hg. split; [ | reflexivity ]. split; [ | done ].
  apply (sending_view e); [ reflexivity | | apply Hok ]. proj_upd.
  apply Forall_aset; [ apply Hok | done ].
Qed.

Lemma arq_nack_sound i q e w :
  sound e w →
  let '(e', w') := arq_handle_nack h i q e w in sound e' w' ∧ feed_view e' = feed_view e.
Proof.
  intros Hok. unfold arq_handle_nack.
  pose proof (sender_ok_nack genuine_tx (send_fn h) (fun cw => Good cw.2)
    (fun cw dst q d Hg Hd => send_fn_arq cw dst q d Hg Hd) (h_now h w) q (aget (te_arq e) i)
    (te_cong e, w) (sound_arq e w i Hok) (proj2 Hok)) as (Hs & Hg & _).
  destruct (SelectiveRepeat.handle_nack _ _ _ _ _) as [s [c w']]. cbn [fst snd] in *.
  split; [ | reflexivity ]. split; [ | done ].
  apply (sending_view e); [ reflexivity | | apply Hok ]. proj_upd.
  apply Forall_aset; [ apply Hok | done ].
Qed.

Lemma arq_tick_sound i n e w :
  sound e w →
  let '(_, e', w') := arq_tick h i n e w in sound e' w' ∧ feed_view e' = feed_view e.
Proof.
  intros Hok. unfold arq_tick.
  pose proof (sender_ok_tick genuine_tx (send_fn h) (fun cw => Good cw.2)
    (fun cw dst q d Hg Hd => send_fn_arq cw dst q d Hg Hd) (h_now h w) n (aget (te_arq e) i)
    (te_cong e, w) (sound_arq e w i Hok) (proj2 Hok)) as (Hs & Hg & _).
  destruct (SelectiveRepeat.tick _ _ _ _ _) as [[m s] [c w']]. cbn [fst snd] in *.
  split; [ | reflexivity ]. split; [ | done ].
  apply (sending_view e); [ reflexivity | | apply Hok ]. proj_upd.
  apply Forall_aset; [ apply Hok | done ].
Qed.

(** *** Out-of-window resends *)

Lemma read_index e w i :
  feeding e → 0 <= i < 65536 →
  let off := u32 (u16 i * tr_fragment_size (te_transfer e)) in
  off = i * fs ∧ (i * fs < size → read_fragment off e w = (slice file fs i, w)).
Proof.
  intros Hf Hi off. subst off. rewrite (fd_fs _ Hf), (u16_small i) by int_lia. split.
  - rewrite u32_small; [ done | ]. unfold is_u32, MAX_MTU in *. nia.
  - intros Hlt. pose proof (read_fragment_slice file e w i (feeding_reads e Hf)) as H.
    rewrite (fd_fs _ Hf) in H. apply H; lia.
Qed.

Lemma regenerate_parity_spec n d group enc e w :
  feeding e → 0 <= group < 8192 → 0 <= d → Z.of_nat n + d = 7 →
  let '(r, w') := regenerate_parity h n d group enc e w in
  w' = w ∧ ∀ enc', r = Some enc' →
    enc' = enc_ingest_all (drop (Z.to_nat d) (group_slices file fs group)) enc ∧
    (d < 7 → (group * 7 + 6) * fs < size).
Proof.
  intros Hf Hg. revert d enc. induction n as [ | n IH ]; intros d enc Hd Hn; cbn [regenerate_parity].
  { split; [ done | ]. intros enc' [= <-]. split; [ | lia ].
    rewrite drop_ge; [ done | ]. unfold group_slices. rewrite length_fmap, length_seq. lia. }
  change FEC_GROUP_SIZE with 7.
  destruct (read_index e w (group * 7 + d) Hf ltac:(lia)) as [-> Hr]. rewrite (fd_size _ Hf).
  destruct (Z.geb_spec ((group * 7 + d) * fs) size) as [Hge | Hlt]; [ done | ].
  rewrite Hr by lia. rewrite (mh_alloc Hhost).
  pose proof (IH (d + 1) (enc_ingest true (slice file fs (group * 7 + d)) enc) ltac:(lia)
    ltac:(lia)) as H.
  destruct (regenerate_parity h n (d + 1) group _ e w) as [r w']. destruct H as [-> H].
  split; [ done | ]. intros enc' E. destruct (H enc' E) as [-> Hl].
  rewrite (drop_S (group_slices file fs group) (slice file fs (group * 7 + d)) (Z.to_nat d)).
  - replace (Z.to_nat (d + 1)) with (S (Z.to_nat d)) by lia. split; [ done | ]. intros _.
    destruct (Z.lt_ge_cases (d + 1) 7); [ by apply Hl | ]. by replace 6 with d by lia.
  - rewrite group_slices_nth by lia. by rewrite Z2Nat.id by lia.
Qed.

(** A resend is a genuine fragment, whatever sequence number was NACKed. *)
Lemma oow_payload_genuine q e w :
  feeding e → is_u16 q →
  let '(r, w') := oow_payload h q e w in w' = w ∧ ∀ d, r = Some d → genuine_tx q d.
Proof.
  intros Hf Hq. unfold is_u16 in Hq. unfold oow_payload. change (FEC_GROUP_SIZE + 1) with 8. change FEC_GROUP_SIZE with 7.
  assert (Hin : ∀ i, 0 <= i → i * fs < size → i < data_fragments file fs).
  { intros i Hi Hlt. pose proof (data_fragments_spec file fs Hfs Hsize). nia. }
  destruct (Z.eqb_spec (q mod 8) 7) as [Hm | Hm].
  - pose proof (regenerate_parity_spec (Z.to_nat 7) 0 (q / 8) (enc_reset (h_alloc h w) encoder_new)
      e w Hf ltac:(lia) ltac:(lia) ltac:(lia)) as H.
    destruct (regenerate_parity _ _ _ _ _ _ _) as [r w']. destruct H as [-> H].
    destruct r as [enc | ]; [ | done ]. destruct (H enc eq_refl) as [-> Hlast].
    destruct (_ =? 0); [ by split | ]. split; [ done | ]. intros d Hd. apply (inj Some) in Hd as <-.
    rewrite (mh_alloc Hhost). pose proof (Hin (q / 8 * 7 + 6) ltac:(lia) (Hlast ltac:(lia))).
    unfold session_payload, parity_of. replace (_ && _) with true
      by (unfold session_total; lia).
    by rewrite Hm, Z.eqb_refl.
  - destruct (read_index e w (q / 8 * 7 + q mod 8) Hf ltac:(lia)) as [-> Hr].
    rewrite (fd_size _ Hf). destruct (Z.geb_spec ((q / 8 * 7 + q mod 8) * fs) size); [ done | ].
    rewrite Hr by lia. split; [ done | ]. intros d [= <-]. apply data_seq_genuine.
    split; [ | lia ]. specialize (Hin (q / 8 * 7 + q mod 8) ltac:(lia) ltac:(lia)).
    unfold session_total. lia.
Qed.

Lemma sound_feeding e w : sound e w → running e → feeding e.
Proof. intros [Hs _] Hr. by apply Hs. Qed.

Notation oow_ok := (Forall (fun x : Z * Z => is_u16 x.1)).

Lemma oow_drain_sound now budget allow queue sent e w :
  sound e w → running e → oow_ok queue →
  let '(kept, e', w') := oow_drain h now budget allow queue sent e w in
  sound e' w' ∧ feed_view e' = feed_view e ∧ oow_ok kept.
Proof.
  revert sent e w. induction queue as [ | [q dst] queue IH ]; intros sent e w Hok Hr Hq;
    cbn [oow_drain]; [ done | ].
  apply Forall_cons_1 in Hq as [Hq Hqs]. cbn [fst] in Hq.
  assert (Hkeep : ∀ dst sent e w, sound e w → running e →
    let '(kept, e', w') := (let '(kept, e, w) := oow_drain h now budget allow queue sent e w in
                            ((q, dst) :: kept, e, w)) in
    sound e' w' ∧ feed_view e' = feed_view e ∧ oow_ok kept).
  { intros dst' sent' e0 w0 H0 H1. specialize (IH sent' e0 w0 H0 H1 Hqs).
    destruct (oow_drain _ _ _ _ _ _ _ _) as [[kept e'] w']. destruct IH as (? & ? & ?).
    split_and!; [ done | done | by constructor ]. }
  destruct (_ || _); [ by apply Hkeep | ].
  pose proof (oow_payload_genuine q e w (sound_feeding e w Hok Hr) Hq) as Hp.
  destruct (oow_payload h q e w) as [[d | ] w1]; destruct Hp as [-> Hp]; [ | by apply IH ].
  destruct (_ =? 0); [ by apply Hkeep | ].
  pose proof (engine_send_sound (oow_destination dst e) DATA d q e w Hok (fun _ => Hp d eq_refl)) as H.
  destruct (engine_send _ _ _ _ _ _ _) as [[rc e1] w2]. destruct H as [Hok1 Hv].
  destruct (rc <? 0); [ split_and!; [ done | done | by constructor ] | ].
  assert (Hv' : feed_view (oow_sent now q e1) = feed_view e) by (rewrite <- Hv; reflexivity).
  rewrite <- Hv'. apply IH; [ | by apply (running_view e) | done ].
  by apply (sound_view e1 _ w2); [ | | | apply Hok1 ].
Qed.

Lemma oow_phase_sound now e w :
  sound e w → running e →
  let '(e', w') := oow_phase h now e w in sound e' w' ∧ running e'.
Proof.
  intros Hok Hr. unfold oow_phase. destruct (oow_pacing e) as [interval budget].
  pose proof (sound_feeding e w Hok Hr) as Hf. pose proof (fd_oow _ Hf) as Hq.
  destruct (oq_queue (te_oow e)) as [ | x queue ] eqn:E; [ done | ].
  destruct (tr_read_chunk _); [ | done ].
  pose proof (oow_drain_sound now budget (u32 (now - oq_last_ms (te_oow e)) >=? interval)
    (x :: queue) 0 e w Hok Hr Hq) as H.
  destruct (oow_drain _ _ _ _ _ _ _ _) as [[kept e1] w1]. destruct H as ([Hs Hg] & Hv & Hk).
  pose proof (running_view _ _ Hv Hr) as Hr1. split; [ | done ]. split; [ | done ].
  destruct Hs as [? ? ? ? ? ? Hf1]. split; [ done.. | ]. intros _. destruct (Hf1 Hr1).
  split; proj_upd; done.
Qed.

(** *** Redistribution *)

Lemma sending_frag_sound target q e w :
  sound e w → running e → data_seq q →
  let '(d, w1) := read_fragment (seq_offset q e) e w in
  let '(rc, e', w') := arq_send_fragment h target q d e w1 in
  sound e' w' ∧ feed_view e' = feed_view e.
Proof.
  intros Hok Hr Hq. rewrite read_data_seq by (by try apply (sound_feeding e w)).
  apply arq_send_sound; [ done | | by apply data_seq_genuine ].
  destruct Hq as [Hq _]. unfold UINT16_MAX. lia.
Qed.

Lemma redist_drain_sound pending e w :
  sound e w → running e → Forall data_seq pending →
  let '(kept, e', w') := redist_drain h pending e w in
  sound e' w' ∧ feed_view e' = feed_view e ∧ Forall data_seq kept.
Proof.
  revert e w. induction pending as [ | q pending IH ]; intros e w Hok Hr Hq;
    cbn [redist_drain]; [ done | ].
  apply Forall_cons_1 in Hq as [Hq Hqs].
  assert (Hkeep : ∀ e w, sound e w → running e →
    let '(kept, e', w') := (let '(kept, e, w) := redist_drain h pending e w in
                            (q :: kept, e, w)) in
    sound e' w' ∧ feed_view e' = feed_view e ∧ Forall data_seq kept).
  { intros e0 w0 H0 H1. specialize (IH e0 w0 H0 H1 Hqs).
    destruct (redist_drain _ _ _ _) as [[kept e'] w']. destruct IH as (? & ? & ?).
    split_and!; [ done | done | by constructor ]. }
  destruct (_ <? 0); [ by apply Hkeep | ]. destruct (can_send_sequence _ _); [ | by apply Hkeep ].
  pose proof (sending_frag_sound (select_mesh_target_for_seq q e) q e w Hok Hr Hq) as H.
  destruct (read_fragment _ _ _) as [d w1].
  destruct (arq_send_fragment _ _ _ _ _ _) as [[rc e1] w2]. destruct H as [Hok1 Hv].
  pose proof (running_view _ _ Hv Hr) as Hr1. rewrite <- Hv.
  destruct (rc <? 0); [ by apply Hkeep | by apply IH ].
Qed.

Lemma redist_phase_sound e w :
  sound e w → running e →
  let '(e', w') := redist_phase h e w in sound e' w' ∧ running e'.
Proof.
  intros Hok Hr. unfold redist_phase.
  pose proof (redist_drain_sound (te_redist e) e w Hok Hr
    (fd_redist _ (sound_feeding e w Hok Hr))) as H.
  destruct (redist_drain _ _ _ _) as [[kept e1] w1]. destruct H as ([Hs Hg] & Hv & Hk).
  pose proof (running_view _ _ Hv Hr) as Hr1. split; [ | done ]. split; [ | done ].
  destruct Hs as [? ? ? ? ? ? Hf1]. split; [ done.. | ]. intros _. destruct (Hf1 Hr1).
  split; proj_upd; done.
Qed.

(** *** New fragments *)

(** [feed_view] without the cursor and the encoder. *)
Definition static_view e :=
  let t := te_transfer e in
  (tr_read_chunk t, tr_size t, tr_fragment_size t, tr_fragment_count t, tr_active t,
   te_redist e, oq_queue (te_oow e), el_active (te_election e),
   te_role e, te_receiver e, te_local_exit e, br_type (te_retry e),
   tm_last_cloud_activity_ms (te_timers e)).

(** A step of the feeding loop that moves on to the next sequence number. *)
Lemma advance_sound e e' w :
  sound e w → running e → el_active (te_election e) = false →
  tr_next_fragment (te_transfer e) < total →
  fec_ok (tr_next_fragment (te_transfer e) + 1) (te_fec e') →
  tr_next_fragment (te_transfer e') = u16 (tr_next_fragment (te_transfer e) + 1) →
  te_arq e' = te_arq e → static_view e' = static_view e →
  sound e' w ∧ running e' ∧ el_active (te_election e') = false.
Proof.
  intros Hok Hr Hel Hn Henc En Ea Hv. pose proof (sound_feeding e w Hok Hr) as Hf.
  destruct Hok as [[H1 H2 H3 H4 H5 H6 _] Hg]. unfold static_view in Hv.
  injection Hv as E1 E2 E3 E4 E6 E8 E9 E10 E11 E12 E13 E14 E15.
  assert (Hrun : running e') by (unfold running; by rewrite E6).
  split; [ | split; [ done | congruence ] ]. split; [ | done ].
  split; [ by rewrite Ea | by rewrite E11 | congruence.. | by rewrite E15 | ].
  intros _. destruct Hf. pose proof total_small.
  assert (E : tr_next_fragment (te_transfer e') = tr_next_fragment (te_transfer e) + 1)
    by (rewrite En; apply u16_small; unfold is_u16; lia).
  split; rewrite ?E, ?E1, ?E2, ?E3, ?E4, ?E8, ?E9, ?E10; try done; [ lia | congruence ].
Qed.

Lemma feed_new_sound fuel now max_new new_sent e w :
  sound e w → running e → el_active (te_election e) = false →
  let '(e', w') := feed_new h fuel now max_new new_sent e w in sound e' w' ∧ running e'.
Proof.
  revert new_sent e w. induction fuel as [ | fuel IH ]; intros new_sent e w Hok Hr Hel;
    cbn [feed_new]; [ done | ]. cbv zeta.
  pose proof (sound_feeding e w Hok Hr) as Hf. pose proof (fd_next _ Hf) as Hnext.
  rewrite (fd_count _ Hf), (fd_size _ Hf). change (FEC_GROUP_SIZE + 1) with 8. change FEC_GROUP_SIZE with 7.
  set (q := tr_next_fragment (te_transfer e)) in *.
  destruct (Z.ltb_spec q total) as [Hq | ]; [ | done ]. destruct (new_sent <? max_new); [ | done ].
  cbn [andb]. set (idx := select_mesh_target_for_seq q e). destruct (idx <? 0); [ done | ].
  assert (Hview : ∀ e1, feed_view e1 = feed_view e → tr_next_fragment (te_transfer e1) = q ∧
    te_fec e1 = te_fec e ∧ el_active (te_election e1) = false).
  { unfold feed_view. intros e1 [= _ _ _ _ -> _ -> _ _ -> _ _ _ _ _]. done. }
  destruct (Z.eqb_spec (q mod 8) 7) as [Hm | Hm].
  - pose proof (arq_send_sound idx q (enc_parity_bytes (te_fec e)) e w Hok
      ltac:(unfold UINT16_MAX; lia) (fec_ok_parity q _ ltac:(lia) Hm (fd_fec _ Hf))) as H.
    destruct (arq_send_fragment _ _ _ _ _ _) as [[rc e1] w1]. destruct H as [Hok1 Hv].
    pose proof (running_view _ _ Hv Hr) as Hr1. destruct (Hview e1 Hv) as (En & Ef & He1).
    destruct (rc <? 0); [ done | ]. rewrite (mh_alloc Hhost).
    destruct (advance_sound e1 (count_sent now idx (e1 <| te_fec ::= enc_reset true |>)) w1)
      as (Hok2 & Hr2 & He2); [ done.. | | | | | | by apply IH ];
      rewrite ?En; unfold count_sent; proj_upd; rewrite ?En; try done.
    rewrite enc_reset_fresh. apply fec_ok_fresh. lia.
  - assert (Hds : data_seq q) by (split; lia).
    destruct (data_seq_offset q e (fd_fs _ Hf) Hds) as [Hoff Hlt].
    replace (seq_offset q e >=? size) with false by lia.
    pose proof (sending_frag_sound idx q e w Hok Hr Hds) as H.
    rewrite (read_data_seq q e w Hf Hds) in *.
    destruct (arq_send_fragment _ _ _ _ _ _) as [[rc e1] w1]. destruct H as [Hok1 Hv].
    pose proof (running_view _ _ Hv Hr) as Hr1. destruct (Hview e1 Hv) as (En & Ef & He1).
    destruct (rc <? 0); [ done | ]. rewrite (mh_alloc Hhost).
    destruct (advance_sound e1 (count_sent now idx (e1 <| te_fec ::=
      enc_ingest true (slice file fs (q / 8 * 7 + q mod 8)) |>)) w1)
      as (Hok2 & Hr2 & He2); [ done.. | | | | | | by apply IH ];
      rewrite ?En; unfold count_sent; proj_upd; rewrite ?En; try done.
    rewrite Ef. apply fec_ok_data; [ lia | lia | apply Hf ].
Qed.

Lemma reset_sound b e w :
  sound e w → let '(e', w') := reset_sender_transfer_state h b e w in sound e' w'.
Proof.
  intros [[H1 H2 H3 H4 H5 H6 _] Hg]. unfold reset_sender_transfer_state. split.
  - split; proj_upd; [ | | done | done | done | done | done ].
    + apply Forall_map. apply (Forall_impl (sender_ok genuine_tx)); [ done | ].
      intros s. apply sender_ok_reset.
    + unfold serving in *. proj_upd. apply orb_false_iff in H2 as [-> _]. done.
  - pose proof (mh_end Hhost w (tr_session_id (te_transfer e)) Hg).
    destruct (_ && _); [ by apply (mh_bits Hhost) | done ].
Qed.

Lemma recompute_weights_view e :
  feed_view (recompute_weights e) = feed_view e ∧ te_arq (recompute_weights e) = te_arq e.
Proof.
  unfold recompute_weights. by destruct (fold_left (weight_step e) _ _) as [[paths scores] tot].
Qed.

Lemma feed_phase_sound now e w :
  sound e w → running e → el_active (te_election e) = false →
  let '(e', w') := feed_phase h now e w in sound e' w'.
Proof.
  intros Hok Hr Hel. unfold feed_phase. cbv zeta. destruct (_ <? _); [ done | ].
  set (e1 := if te_weight_counter e >=? _ then _ else e).
  assert (H1 : feed_view e1 = feed_view e ∧ te_arq e1 = te_arq e).
  { subst e1. destruct (_ >=? _); [ | done ]. destruct (recompute_weights_view e) as [Hv Ha].
    split; [ rewrite <- Hv | rewrite <- Ha ]; reflexivity. }
  destruct H1 as [Hv Ha].
  assert (Hel1 : el_active (te_election e1) = false).
  { revert Hv. unfold feed_view. intros [= _ _ _ _ _ _ _ _ _ -> _ _ _ _ _]. done. }
  pose proof (feed_new_sound (Z.to_nat (tr_fragment_count (te_transfer e1)
    - tr_next_fragment (te_transfer e1))) now
    (if tm_hops_est (te_timers e1) >=? 2 then kMaxNewFragsMultiHop else kMaxNewFragsSingleHop)
    0 e1 w (sound_view e e1 w w Hv Ha Hok (proj2 Hok)) (running_view e e1 Hv Hr) Hel1) as H.
  destruct (feed_new _ _ _ _ _ _ _) as [e2 w2]. destruct H as [Hok2 _].
  apply (sound_view e2 _ w2); [ | | done | apply Hok2 ];
    unfold check_upload_done; by destruct (_ && _).
Qed.

Lemma feed_view_election e e' :
  feed_view e' = feed_view e → el_active (te_election e') = el_active (te_election e).
Proof. unfold feed_view. intros [= _ _ _ _ _ _ _ _ _ -> _ _ _ _ _]. done. Qed.

(** [oow_phase] and [redist_phase] do not touch the election. *)
Lemma oow_phase_election now e w :
  sound e w → running e →
  el_active (te_election (oow_phase h now e w).1) = el_active (te_election e).
Proof.
  intros Hok Hr. unfold oow_phase. destruct (oow_pacing e) as [interval budget].
  pose proof (fd_oow _ (sound_feeding e w Hok Hr)) as Hq.
  destruct (oq_queue (te_oow e)) as [ | x queue ]; [ done | ].
  destruct (tr_read_chunk _); [ | done ].
  pose proof (oow_drain_sound now budget (u32 (now - oq_last_ms (te_oow e)) >=? interval)
    (x :: queue) 0 e w Hok Hr Hq) as H.
  destruct (oow_drain _ _ _ _ _ _ _ _) as [[kept e1] w1]. destruct H as (_ & Hv & _).
  cbn [fst]. proj_upd. by apply feed_view_election.
Qed.

Lemma redist_phase_election e w :
  sound e w → running e →
  el_active (te_election (redist_phase h e w).1) = el_active (te_election e).
Proof.
  intros Hok Hr. unfold redist_phase.
  pose proof (redist_drain_sound (te_redist e) e w Hok Hr
    (fd_redist _ (sound_feeding e w Hok Hr))) as H.
  destruct (redist_drain _ _ _ _) as [[kept e1] w1]. destruct H as (_ & Hv & _).
  cbn [fst]. proj_upd. by apply feed_view_election.
Qed.

Lemma tick_mesh_sound e w :
  sound e w → running e → el_active (te_election e) = false →
  let '(e', w') := tick_mesh_arq h e w in sound e' w'.
Proof.
  intros Hok Hr Hel. unfold tick_mesh_arq. destruct (_ =? 0); [ done | ]. cbv zeta.
  destruct (count_if _ _ =? 0); [ by apply reset_sound | ].
  pose proof (oow_phase_sound (h_now h w) e w Hok Hr) as H1.
  pose proof (oow_phase_election (h_now h w) e w Hok Hr) as He1.
  destruct (oow_phase _ _ _ _) as [e1 w1]. destruct H1 as [Hok1 Hr1]. cbn [fst] in He1.
  destruct (_ >=? _); [ by apply (sound_view e1 _ w1); [ | | | apply Hok1 ] | ].
  destruct (tm_mesh_upload_done _); [ done | ].
  pose proof (redist_phase_sound e1 w1 Hok1 Hr1) as H2.
  pose proof (redist_phase_election e1 w1 Hok1 Hr1) as He2.
  destruct (redist_phase _ _ _) as [e2 w2]. destruct H2 as [Hok2 Hr2]. cbn [fst] in He2.
  apply feed_phase_sound; [ done | done | congruence ].
Qed.

Lemma transfer_tick_sound e w :
  sound e w → let '(e', w') := transfer_tick h e w in sound e' w'.
Proof.
  intros Hok. unfold transfer_tick.
  destruct (tr_active (te_transfer e)) eqn:Ea; [ | done ].
  destruct (el_active (te_election e)) eqn:El; [ done | ]. cbn [negb orb].
  destruct (_ >? 0); [ by apply (sound_view e _ w); [ | | | apply Hok ] | ].
  rewrite (sd_local _ (proj1 Hok)). by apply tick_mesh_sound.
Qed.

(** *** Dead exits *)

Lemma queue_redist_sound q e w :
  sound e w → running e → data_seq q →
  sound (queue_redist q e) w ∧ running (queue_redist q e).
Proof.
  intros Hok Hr Hq. unfold queue_redist. destruct (_ <? _); [ | done ].
  pose proof (sound_feeding e w Hok Hr) as Hf. destruct Hok as [[H1 H2 H3 H4 H5 H6 _] Hg].
  split; [ | done ]. split; [ | done ]. split; proj_upd; try done.
  intros _. destruct Hf. split; proj_upd; try done.
  apply Forall_app. split; [ done | by apply Forall_singleton ].
Qed.

Lemma redistribute_sound first pending e w :
  sound e w → running e → Forall (fun q => 0 <= q < total) pending →
  let '(e', w') := redistribute h first pending e w in sound e' w' ∧ running e'.
Proof.
  revert e w. induction pending as [ | q pending IH ]; intros e w Hok Hr Hp;
    cbn [redistribute]; [ done | ]. cbv zeta.
  apply Forall_cons_1 in Hp as [Hq Hp].
  change (FEC_GROUP_SIZE + 1) with 8. change FEC_GROUP_SIZE with 7.
  destruct (Z.eqb_spec (q mod 8) 7) as [Hm | Hm]; [ by apply IH | ].
  assert (Hd : data_seq q) by (split; lia).
  set (target := if select_mesh_target_for_seq q e <? 0 then first else _).
  destruct (can_send_sequence _ _).
  - pose proof (sending_frag_sound target q e w Hok Hr Hd) as H.
    destruct (read_fragment _ _ _) as [d w1].
    destruct (arq_send_fragment _ _ _ _ _ _) as [[rc e1] w2]. destruct H as [Hok1 Hv].
    pose proof (running_view _ _ Hv Hr) as Hr1.
    destruct (rc =? 0); [ by apply IH | ].
    destruct (queue_redist_sound q e1 w2 Hok1 Hr1 Hd). by apply IH.
  - destruct (queue_redist_sound q e w Hok Hr Hd). by apply IH.
Qed.

Lemma redistribute_dead_exit_sound i e w :
  sound e w → running e →
  let '(e', w') := redistribute_dead_exit h i e w in sound e' w' ∧ running e'.
Proof.
  intros Hok Hr. unfold redistribute_dead_exit. proj_upd. cbv zeta.
  set (e1 := e <| te_transfer ::= _ |>). set (pending := snapshot_pending_sequences _ _).
  set (e2 := e1 <| te_arq ::= _ |>).
  assert (Hr2 : running e2) by done.
  assert (Hok2 : sound e2 w).
  { split; [ | apply Hok ]. apply (sending_view e); [ reflexivity | | apply Hok ].
    subst e2 e1. proj_upd. apply Forall_aset; [ apply Hok | ].
    apply sender_ok_reset. by apply (sound_arq e w). }
  destruct (_ <? 0); [ done | ]. apply redistribute_sound; [ done | done | ].
  apply Forall_forall. intros q Hq.
  pose proof (sound_arq e w i Hok) as Hs. destruct (snapshot_tags _ _ _ Hs Hq) as [_ [d Hd]].
  apply (so_genuine _ _ Hs) in Hd. cbv beta in Hd. unfold session_payload in Hd.
  destruct (_ && _) eqn:E; [ lia | done ].
Qed.

Lemma health_sound now e w :
  sound e w → let '(e', w') := exit_node_health_tick h now e w in sound e' w'.
Proof.
  intros Hok. unfold exit_node_health_tick.
  destruct (tr_active (te_transfer e)) eqn:Ea; [ | done ].
  destruct (el_active (te_election e)); [ done | ]. cbn [negb orb].
  destruct (_ =? 0); [ done | ].
  assert (H : ∀ l e w, sound e w → running e →
    let '(e', w') := fold_left (health_step h now) l (e, w) in sound e' w' ∧ running e').
  { induction l as [ | i l IH ]; intros e0 w0 H0 H1; cbn [fold_left]; [ done | ].
    cbn [health_step].
    destruct (negb _); [ by apply IH | ]. destruct (negb _); [ by apply IH | ].
    destruct (_ >? _); [ | by apply IH ].
    pose proof (redistribute_dead_exit_sound i e0 w0 H0 H1) as H.
    destruct (redistribute_dead_exit h i e0 w0) as [e1 w1]. destruct H. by apply IH. }
  specialize (H (exit_indices e) e w Hok Ea).
  destruct (fold_left _ _ _). by destruct H.
Qed.

Lemma exit_offline_sound addr sid e w :
  sound e w → let '(e', w') := handle_exit_offline h addr sid e w in sound e' w'.
Proof.
  intros Hok. unfold handle_exit_offline.
  destruct (tr_active (te_transfer e)) eqn:Ea; [ | done ]. cbn [negb].
  destruct (_ && _); [ done | ]. cbv zeta. set (i := first_index _ _). destruct (i <? 0); [ done | ].
  pose proof (redistribute_dead_exit_sound i e w Hok Ea) as H.
  destruct (redistribute_dead_exit h i e w). by destruct H.
Qed.

(** *** The election *)

Lemma accept_exit_sound now ic e w :
  sound e w → sound (accept_exit now e ic) w ∧ feed_view (accept_exit now e ic) = feed_view e.
Proof.
  destruct ic as [i c]. intros Hok. split; [ | reflexivity ]. split; [ | apply Hok ].
  apply (sending_view e); [ reflexivity | | apply Hok ].
  unfold accept_exit. proj_upd. apply Forall_aset; [ apply Hok | ].
  apply sender_ok_peer, sender_ok_reset. by apply (sound_arq e w).
Qed.

Lemma accept_fold_sound now l e w :
  sound e w → sound (fold_left (accept_exit now) l e) w ∧
  feed_view (fold_left (accept_exit now) l e) = feed_view e.
Proof.
  revert e. induction l as [ | ic l IH ]; intros e Hok; cbn [fold_left]; [ done | ].
  destruct (accept_exit_sound now ic e w Hok) as [H1 Hv]. rewrite <- Hv. by apply IH.
Qed.

Lemma election_sound elected now e w :
  sound e w → let '(e', w') := election_timeout_tick h elected now e w in sound e' w'.
Proof.
  intros Hok. unfold election_timeout_tick. cbv zeta.
  destruct (el_active (te_election e)) eqn:El; [ | done ]. cbn [negb orb].
  destruct (_ <=? _); [ done | ]. set (e1 := e <| te_election ::= _ |>).
  assert (Hok1 : sound e1 w).
  { destruct Hok as [[H1 H2 H3 H4 H5 H6 Hf] Hg]. split; [ | done ]. split; [ done.. | ].
    intros Hr. destruct (Hf Hr). split; subst e1; proj_upd; done. }
  assert (Hn : running e1 → tr_next_fragment (te_transfer e1) = 0).
  { intros Hr. by apply (fd_election _ (sound_feeding e w Hok Hr)). }
  destruct (el_candidates (te_election e)) as [ | c cs ]; [ by apply reset_sound | ].
  destruct (elect elected (c :: cs)) as [sorted winners].
  pose proof (accept_fold_sound (h_now h w) (imap pair winners) e1 w Hok1) as [Hok2 Hv].
  set (e2 := fold_left _ _ e1) in *. clearbody e1 e2.
  assert (Hn2 : running e2 → tr_next_fragment (te_transfer e2) = 0).
  { intros Hr. assert (E : tr_next_fragment (te_transfer e2) = tr_next_fragment (te_transfer e1))
      by (revert Hv; unfold feed_view; by intros [= _ _ _ _ -> _ _ _ _ _ _ _ _ _ _]).
    rewrite E. by apply Hn, (running_view e2). }
  destruct Hok2 as [[H1 H2 H3 H4 H5 H6 Hf] Hg].
  split; [ | by apply (mh_bits Hhost) ]. split; proj_upd; try done.
  - unfold set_strides. apply Forall_lookup. intros i s. rewrite list_lookup_imap.
    destruct (te_arq e2 !! i) as [s0 | ] eqn:E; [ | done ]. intros [= <-].
    assert (Hs : sender_ok genuine_tx s0) by (rewrite Forall_lookup in H1; by eapply H1).
    destruct (i <? _)%nat; [ by apply sender_ok_stride | done ].
  - intros Hr. destruct (Hf Hr). specialize (Hn2 Hr). split; proj_upd; try done; [ | congruence ].
    pose proof total_small. lia.
Qed.

(** *** The tick *)

Lemma retx_loop_sound exits budget used e w :
  sound e w → let '(_, e', w') := retx_loop h exits budget used e w in sound e' w'.
Proof.
  revert budget used e w. induction exits as [ | i exits IH ]; intros budget used e w Hok;
    cbn [retx_loop]; [ done | ].
  destruct (negb _); [ done | ]. destruct (negb _); [ by apply IH | ].
  pose proof (arq_tick_sound i budget e w Hok) as H.
  destruct (arq_tick h i budget e w) as [[sent e1] w1]. destruct H as [Hok1 _]. by apply IH.
Qed.

Lemma tick_all_sound l e w :
  sound e w → let '(e', w') := tick_all h l e w in sound e' w'.
Proof.
  revert e w. induction l as [ | i l IH ]; intros e w Hok; cbn [tick_all]; [ done | ].
  pose proof (arq_tick_sound i 8 e w Hok) as H.
  destruct (arq_tick h i 8 e w) as [[sent e1] w1]. destruct H as [Hok1 _]. by apply IH.
Qed.

Lemma retx_phase_sound e w :
  sound e w → let '(e', w') := retx_phase h e w in sound e' w'.
Proof.
  intros Hok. unfold retx_phase.
  pose proof (retx_loop_sound (exit_indices e) MAX_TOTAL_MESH_RETX_PER_TICK 0 e w Hok) as H1.
  pose proof (tick_all_sound (seqZ 0 MAX_EXIT_NODES) e w Hok) as H2.
  destruct (_ && _).
  - destruct (retx_loop _ _ _ _ _ _) as [[used e1] w1].
    apply (sound_view e1 _ w1); [ done | done | done | apply H1 ].
  - destruct (tick_all _ _ _ _) as [e1 w1].
    apply (sound_view e1 _ w1); [ done | done | done | apply H2 ].
Qed.

Lemma not_exit e w : sound e w →
  er_is_exit_node (te_role e) = false ∧ er_exit_pending (te_role e) = false.
Proof. intros [[_ H _ _ _ _ _] _]. by apply orb_false_iff in H. Qed.

Lemma republish_idle now e w : sound e w → republish_meta h now e w = (e, w).
Proof.
  intros Hok. destruct (not_exit e w Hok) as [He _]. unfold republish_meta. cbv zeta.
  rewrite He, (sd_local _ (proj1 Hok)). cbn [andb orb]. by rewrite !andb_false_r.
Qed.

Lemma exit_phase_idle now e w : sound e w → exit_phase h now e w = (e, w).
Proof.
  intros Hok. destruct (not_exit e w Hok) as [He _]. unfold exit_phase. cbv zeta.
  rewrite He. by destruct (h_drain_cloud_nack h), (h_drain_fragment_ack h); rewrite ?He.
Qed.

Lemma stall_check_sound now e w :
  sound e w → let '(_, e', w') := stall_check h now e w in sound e' w'.
Proof.
  intros Hok. destruct (not_exit e w Hok) as [He Hp]. unfold stall_check. cbv zeta.
  rewrite (sd_local _ (proj1 Hok)), He, Hp. cbn [andb orb]. destruct (_ && _); [ | done ].
  destruct (_ && _); [ | done ].
  pose proof (reset_sound false e w Hok) as H.
  by destruct (reset_sender_transfer_state h false e w).
Qed.

Lemma broadcast_next_type now b : br_type (broadcast_next now b) = br_type b.
Proof. unfold broadcast_next. cbv zeta. by destruct (_ >=? _). Qed.

Lemma broadcast_sound now e w :
  sound e w → let '(e', w') := broadcast_retry_tick h now e w in sound e' w'.
Proof.
  intros Hok. unfold broadcast_retry_tick. cbv zeta. destruct (broadcast_due _ _); [ | done ].
  pose proof (engine_send_sound (br_dst_addr (te_retry e)) (br_type (te_retry e))
    (br_payload (te_retry e)) 0 e w Hok (fun E => False_ind _ (sd_retry _ (proj1 Hok) E))) as H.
  destruct (engine_send _ _ _ _ _ _ _) as [[rc e1] w1]. destruct H as [Hok1 _].
  apply (sound_view e1 _ w1); [ | done | done | apply Hok1 ].
  unfold feed_view. proj_upd. by rewrite broadcast_next_type.
Qed.

Lemma tick_sound elected now e w :
  sound e w → let '(e', w') := TransferEngine.tick h elected now e w in sound e' w'.
Proof.
  intros Hok. unfold TransferEngine.tick.
  pose proof (retx_phase_sound e w Hok) as H1. destruct (retx_phase h e w) as [e1 w1].
  destruct (arq_failed e1); [ by apply reset_sound | ].
  rewrite (republish_idle now e1 w1 H1).
  pose proof (stall_check_sound now e1 w1 H1) as H2.
  destruct (stall_check h now e1 w1) as [[stalled e2] w2]. destruct stalled; [ done | ].
  rewrite (exit_phase_idle now e2 w2 H2).
  pose proof (broadcast_sound now e2 w2 H2) as H3.
  destruct (broadcast_retry_tick h now e2 w2) as [e3 w3].
  pose proof (election_sound elected now e3 w3 H3) as H4.
  destruct (election_timeout_tick h elected now e3 w3) as [e4 w4].
  pose proof (health_sound now e4 w4 H4) as H5.
  destruct (exit_node_health_tick h now e4 w4) as [e5 w5].
  pose proof (transfer_tick_sound e5 w5 H5) as H6.
  destruct (transfer_tick h e5 w5) as [e6 w6].
  apply (sound_view e6 _ w6); [ done | done | done | apply H6 ].
Qed.

(** *** The packets of the mesh *)

Lemma handle_ack_sound q from e w :
  sound e w → sound (handle_ack h q from e w) w.
Proof.
  intros Hok. unfold handle_ack. cbv zeta. set (idx := arq_index_for_peer from e).
  destruct (idx <? 0); [ done | ]. set (s := SelectiveRepeat.handle_ack _ _ _).
  assert (Hs : sender_ok genuine_tx s) by (by apply sender_ok_ack, (sound_arq e w)).
  split; [ | apply Hok ].
  apply (sending_view e); [ by destruct (contains_sequence _ _) | | apply Hok ].
  destruct (contains_sequence _ _); proj_upd; (apply Forall_aset; [ apply Hok | done ]).
Qed.

Lemma queue_out_of_window_sound q from e w :
  sound e w → is_u16 q → sound (queue_out_of_window h q from e w) w.
Proof.
  intros Hok Hq. unfold queue_out_of_window. cbv zeta.
  destruct (tr_active (te_transfer e)) eqn:Ea; [ | done ]. cbn [negb orb].
  destruct (_ >=? _); [ done | ]. pose proof (sound_feeding e w Hok Ea) as Hf.
  assert (Hset : ∀ queue, oow_ok queue →
    sound (e <| te_oow ::= fun o => o <| oq_queue := queue |> |>) w).
  { intros queue Hqueue. destruct Hok as [[H1 H2 H3 H4 H5 H6 _] Hg]. split; [ | done ].
    split; proj_upd; try done. intros _. destruct Hf. split; proj_upd; done. }
  destruct (existsb _ _).
  - apply Hset. pose proof (fd_oow _ Hf) as Ho. revert Ho.
    induction (oq_queue (te_oow e)) as [ | x l IH ]; cbn [update_first]; [ done | ].
    intros [Hx Hl]%Forall_cons_1. destruct (x.1 =? q); constructor; auto.
  - destruct (recently_resent _ _ _); [ done | ]. destruct (_ <? _); [ | done ].
    assert (Happ : oow_ok (oq_queue (te_oow e) ++ [(q, from)])).
    { apply Forall_app. split; [ apply Hf | by apply Forall_singleton ]. }
    specialize (Hset _ Happ). eapply sound_view; [ | | exact Hset | apply Hok ]; reflexivity.
Qed.

Lemma handle_nack_sound q from e w :
  sound e w → is_u16 q → let '(e', w') := handle_nack h q from e w in sound e' w'.
Proof.
  intros Hok Hq. unfold handle_nack. cbv zeta.
  assert (Hn : ∀ i, let '(e', w') := arq_handle_nack h i q (count_nack i e) w in sound e' w').
  { intros i. assert (Hc : sound (count_nack i e) w)
      by (apply (sound_view e _ w); [ done | done | done | apply Hok ]).
    pose proof (arq_nack_sound i q (count_nack i e) w Hc) as H.
    destruct (arq_handle_nack _ _ _ _ _). apply H. }
  destruct (_ <? 0).
  - destruct (_ <? 0); [ done | apply Hn ].
  - destruct (contains_sequence _ _); [ apply Hn | ]. destruct (_ >=? 0); [ done | ].
    by apply queue_out_of_window_sound.
Qed.

Lemma handle_transfer_ack_sound hdr payload e w :
  sound e w → sound (handle_transfer_ack hdr payload e) w.
Proof.
  intros Hok. unfold handle_transfer_ack. cbv zeta.
  repeat (case_match; [ done | ]). case_match; [ | done ].
  apply (sound_view e _ w); [ done | done | done | apply Hok ].
Qed.

Lemma handle_transfer_done_sound sender payload e w :
  sound e w → let '(e', w') := handle_transfer_done h sender payload e w in sound e' w'.
Proof.
  intros Hok. unfold handle_transfer_done. cbv zeta.
  destruct (negb _); [ done | ]. destruct (_ <? _); [ done | ]. destruct (negb _); [ done | ].
  destruct (_ || _); [ done | by apply reset_sound ].
Qed.

(** A stray DATA packet finds the legacy receiver idle. *)
Lemma handle_data_sound hdr payload e w :
  sound e w → let '(e', w') := handle_data h hdr payload e w in sound e' w'.
Proof.
  intros Hok. destruct (not_exit e w Hok) as [He Hp]. unfold handle_data. cbv zeta.
  rewrite He, Hp. cbn [orb]. unfold receive_fragment. proj_upd.
  rewrite (sd_receiver _ (proj1 Hok)). cbn [negb orb]. split; [ | apply Hok ].
  apply (sending_view e); [ reflexivity | | apply Hok ]. proj_upd.
  apply Forall_aset; [ apply Hok | ]. by apply sender_ok_peer, (sound_arq e w).
Qed.

Lemma step_sound ev e w :
  event_ok ev → sound e w → let '(e', w') := mesh_step h ev e w in sound e' w'.
Proof.
  intros Hev Hok. destruct ev; cbn [mesh_step].
  - by apply tick_sound.
  - by apply handle_ack_sound.
  - by apply handle_nack_sound.
  - apply (sound_view e _ w); [ done | done | done | apply Hok ].
  - unfold handle_transfer_ad. by destruct (_ <? _).
  - by apply handle_transfer_ack_sound.
  - by apply handle_transfer_done_sound.
  - by apply exit_offline_sound.
  - by apply handle_data_sound.
Qed.

Lemma run_sound evs e w :
  Forall event_ok evs → sound e w → let '(e', w') := mesh_run h evs e w in sound e' w'.
Proof.
  intros Hevs. revert e w. induction Hevs as [ | ev evs Hev _ IH ]; intros e w Hok; [ done | ].
  cbn [mesh_run]. pose proof (step_sound ev e w Hev Hok) as H.
  destruct (mesh_step h ev e w). by apply IH.
Qed.

(** *** The start *)

Lemma crc_file_world fuel off crc w :
  (crc_file h fuel (make_buffer_reader file size) size off crc w).2 = w.
Proof.
  revert off crc. induction fuel as [ | fuel IH ]; intros off crc; cbn [crc_file]; [ done | ].
  destruct (_ <? size); [ | done ]. unfold make_buffer_reader at 1. destruct (_ >=? size).
  - done.
  - destruct (_ =? 0); [ done | apply IH ].
Qed.

Lemma mesh_count_total :
  fs = DEFAULT_TRANSFER_FRAGMENT_SIZE → mesh_fragment_count (data_frags_of size) = total.
Proof.
  intros E. pose proof total_small as Ht. unfold mesh_fragment_count, data_frags_of. rewrite <- E.
  change FEC_GROUP_SIZE with 7. unfold session_total in *.
  rewrite (u32_small (size + fs - 1)) by int_lia.
  change ((size + fs - 1) / fs) with (data_fragments file fs).
  pose proof (data_fragments_spec file fs Hfs Hsize) as [H0 _].
  rewrite (u16_small (data_fragments file fs)) by (unfold is_u16; lia).
  rewrite (u16_small (_ / 7)), (u16_small (_ mod 7)) by (unfold is_u16; lia).
  apply u16_small. unfold is_u16. lia.
Qed.

Lemma start_sound filename mqtt hops e w e1 w1 :
  fs = DEFAULT_TRANSFER_FRAGMENT_SIZE → quiet e → Good w →
  (cloudless → tm_last_cloud_activity_ms (te_timers e) = 0) →
  start_file_transfer h filename size (make_buffer_reader file size) false mqtt hops e w
    = (true, e1, w1) →
  sound e1 w1.
Proof.
  intros Efs [Q1 Q2 Q3 Q4 Q5 Q6] Hg Hcloud. unfold start_file_transfer.
  destruct (tr_active _); [ done | ]. destruct (er_is_exit_node _); [ done | ].
  cbn [andb]. unfold prepare_transfer. pose proof (mh_random Hhost w Hg) as Hg1.
  destruct (h_random h w) as [raw w2]. cbn [snd] in Hg1.
  pose proof (crc_file_world (S (Z.to_nat size)) 0 0 w2) as Ew.
  destruct (crc_file h _ _ _ _ _ _) as [crc w3]. cbn [snd] in Ew. subst w3.
  unfold start_mesh, reset_telemetry. cbv zeta. rewrite (mesh_count_total Efs). proj_upd.
  destruct (total >? 60000); [ done | ].
  intros E. apply (inj2 pair) in E as [E <-]. apply (inj2 pair) in E as [_ <-].
  unfold send_broadcast_with_retry. rewrite length_encode_ad.
  change (46 >? MAX_MTU) with false. cbv iota. split; [ | done ].
  split; proj_upd; try done.
  - apply Forall_map. apply (Forall_impl (sender_ok (fun _ _ => False))); [ exact Q1 | ].
    intros s [Hw Hgen]. apply sender_ok_floor, sender_ok_timeout.
    split; [ done | ]. intros q d Hd. by destruct (Hgen q d Hd).
  - intros _. pose proof total_small. split; proj_upd; try done.
    + lia.
    + rewrite (mh_alloc Hhost), enc_reset_fresh. by apply fec_ok_fresh.
    + by rewrite Q5.
    + by rewrite Q6.
Qed.
End mesh.

(** C1: a node without internet that starts a mesh transfer of [file] only ever
    sends genuine DATA packets, whatever ticks and packets follow in whatever
    order: each carries the bytes the receiver's layout assigns to its
    sequence number, the slice of the file or the parity of its group. That
    covers first transmissions, retransmissions, out-of-window resends (the
    parity regenerated from the file), redistribution after dead exits and
    what follows the end of the transfer. [Good] is any property of the world
    that every other action keeps, and sending a DATA packet keeps when it is
    genuine. *)
Theorem mesh_sends_genuine {W} (h : Host W) file Good filename mqtt hops e w e1 w1 evs :
  mesh_host h file DEFAULT_TRANSFER_FRAGMENT_SIZE Good →
  Z.of_nat (length file) + DEFAULT_TRANSFER_FRAGMENT_SIZE < 4294967296 →
  session_total file DEFAULT_TRANSFER_FRAGMENT_SIZE <= 60000 →
  quiet e → Good w →
  start_file_transfer h filename (Z.of_nat (length file))
    (make_buffer_reader file (Z.of_nat (length file))) false mqtt hops e w = (true, e1, w1) →
  Forall event_ok evs →
  let '(e', w') := mesh_run h evs e1 w1 in
  Good w' ∧ ∀ i q d, pending (aget (te_arq e') i) !! q = Some d →
    session_payload file DEFAULT_TRANSFER_FRAGMENT_SIZE q = Some d.
Proof.
  intros Hh Hsize Htot Hq Hg Hstart Hevs.
  assert (Hfs : 0 < DEFAULT_TRANSFER_FRAGMENT_SIZE <= MAX_MTU) by done.
  pose proof (start_sound h file _ Good False Hfs Hsize Htot Hh filename mqtt hops e w e1 w1
    eq_refl Hq Hg (False_ind _) Hstart) as Hok.
  pose proof (run_sound h file _ Good False Hfs Hsize Htot Hh evs e1 w1 Hevs Hok) as H.
  destruct (mesh_run h evs e1 w1) as [e' w']. split; [ apply H | ]. intros i q d.
  apply (so_genuine _ _ (sound_arq file _ Good False e' w' i H)).
Qed.

(** ** Witness *)

Definition demo_payload : list Z := [1; 2; 3].

(** Every DATA packet in the log is a genuine fragment of the file. *)
Definition demo_genuine (w : DemoWorld) : Prop :=
  Forall (fun ev => match ev with
                    | Sent _ DATA d q =>
                        session_payload demo_payload DEFAULT_TRANSFER_FRAGMENT_SIZE q = Some d
                    | _ => True
                    end) (dw_log w).

Lemma demo_mesh_host :
  mesh_host demo_host demo_payload DEFAULT_TRANSFER_FRAGMENT_SIZE demo_genuine.
Proof.
  split; unfold demo_genuine; cbn.
  - done.
  - done.
  - intros w dst t q d Hg Hd. apply Forall_app. split; [ done | ]. apply Forall_singleton.
    destruct t; try done. by apply Hd.
  - intros w sid Hg. unfold session_end. cbn. destruct (negb _); [ | done ].
    apply Forall_app. split; [ done | by apply Forall_singleton ].
  - intros w b Hg. apply Forall_app. split; [ done | by apply Forall_singleton ].
Qed.

Definition demo_start : bool * Engine DemoWorld * DemoWorld :=
  start_file_transfer demo_host [97] 3 (make_buffer_reader demo_payload 3) false true 1 demo_node
    (demo_world 1000).

(** Node 5 answers, is elected, gets the fragment, asks for it again, and
    reports the session complete. *)
Definition demo_events : list MeshEvent :=
  [ EvTick 2 1000;
    EvTransferAck (demo_header 5 1 0 TRANSFER_ACK) (encode_transfer_ack (mk_tack 7 5 (-40) 0 0));
    EvTick 2 9000; EvTick 2 9050; EvNack 0 5; EvAck 0 5;
    EvTransferDone 5 (encode_transfer_done (mk_done 7 5)); EvTick 2 9100 ].

#[local] Strategy expand [demo_start].

Lemma mesh_sends_genuine_witness :
  demo_start = (true, demo_start.1.2, demo_start.2) ∧
  demo_genuine (mesh_run demo_host demo_events demo_start.1.2 demo_start.2).2 ∧
  existsb (fun ev => match ev with Sent 5 DATA [1; 2; 3] 0 => true | _ => false end)
    (dw_log (mesh_run demo_host demo_events demo_start.1.2 demo_start.2).2) = true.
Proof.
  assert (E : demo_start = (true, demo_start.1.2, demo_start.2))
    by (apply triple_eq; vm_compute; reflexivity).
  split; [ exact E | ]. split; [ | vm_compute; reflexivity ].
  pose proof (mesh_sends_genuine demo_host demo_payload demo_genuine [97] true 1 demo_node
    (demo_world 1000) demo_start.1.2 demo_start.2 demo_events demo_mesh_host
    ltac:(vm_compute; reflexivity) ltac:(vm_compute; discriminate)
    (init_quiet 2 (fun _ => true) 1) ltac:(apply Forall_nil_2) E
    ltac:(repeat constructor; vm_compute; discriminate)) as H.
  destruct (mesh_run demo_host demo_events demo_start.1.2 demo_start.2) as [e' w'].
  exact (proj1 H).
Defined.
