(* ===== verification/TransferLiveness.v ===== *)
(** * Transfer engine: how transfers end (components/mesh/transfer_engine.cpp)

    Which ticks and packets end a mesh transfer: an announcement that no exit
    answers is given up by the first tick past the election timeout, an exit
    role is released by the first tick past the stall timeout, and a source
    whose fragments are all acknowledged waits for TRANSFER_DONE alone: its
    stall check never fires, because [last_cloud_activity_ms_] stays zero on a
    node that only ever sends through the mesh. *)

From Stdlib Require Import ZArith Lia SpecFloat.
From stdpp Require Import base list numbers option sets gmap.
From S2P Require Import Prelude.
From S2P Require Import Packet.
From S2P Require Import Fec.
From S2P Require Import SelectiveRepeat.
From S2P Require Import Receiver.
From S2P Require Import ProtocolSelector.
From S2P Require Import TransferState.
From S2P Require Import TransferArq.
From S2P Require Import TransferHandlers.
From S2P Require Import TransferEngine.
From S2P Require Import TransferDemo.
From S2P Require Import TransferRoles.
From S2P Require Import TransferElection.
From S2P Require Import TransferCloud.
From S2P Require Import TransferDelivery.
Open Scope Z_scope.
Open Scope flp_scope.

#[local] Opaque zero_buf.

(** ** Windows with nothing in flight *)

Record quiet_window (s : Sender) : Prop := {
  qw_window : sr_window s = None ∨ sender_inv s;
  qw_pending : has_pending s = false;
  qw_failed : is_sender_failed s = false
}.

Lemma quiet_window_new : quiet_window sender_new.
Proof. split; [ by left | done | done ]. Qed.

Lemma quiet_slot s slots i :
  quiet_window s → sr_window s = Some slots → fs_sent (aget slots i) = false.
Proof.
  intros [[Hn | (sl & Hs)] Hp _] Hwin; [ congruence | ].
  destruct Hs as [[Hwin' Hw Hfl _ _ _] _]. rewrite Hwin in Hwin'. injection Hwin' as <-.
  destruct (pending_size _ _ Hw) as [Hsize _]. unfold has_pending in Hp.
  assert (Hz : count_if fs_sent slots = 0) by lia.
  unfold aget. destruct (slots !! Z.to_nat i) as [x | ] eqn:E.
  - rewrite (list_lookup_total_correct _ _ _ E).
    by apply (count_if_zero_inv _ _ _ Hz), (list_elem_of_lookup_2 _ _ _ E).
  - by rewrite list_lookup_total_alt, E.
Qed.

Lemma quiet_contains q s : quiet_window s → contains_sequence q s = false.
Proof.
  intros Hq. unfold contains_sequence. destruct (sr_window s) as [slots | ] eqn:E; [ | done ].
  by rewrite (quiet_slot s slots _ Hq E), andb_false_l; destruct (_ =? 0).
Qed.

Lemma quiet_ack now q s : quiet_window s → SelectiveRepeat.handle_ack now q s = s.
Proof.
  intros Hq. unfold SelectiveRepeat.handle_ack.
  destruct (sr_window s) as [slots | ] eqn:E; [ | done ].
  cbv zeta. by rewrite (quiet_slot s slots _ Hq E).
Qed.

Lemma quiet_tick {W} (cb : option (SendCallback W)) now n s w :
  quiet_window s → quiet_window (SelectiveRepeat.tick cb now n s w).1.2.
Proof.
  intros [Hw Hp Hf].
  assert (Hi : sr_window (SelectiveRepeat.tick cb now n s w).1.2 = None
               ∨ sender_inv (SelectiveRepeat.tick cb now n s w).1.2).
  { destruct Hw as [E | [slots Hs]].
    - left. unfold SelectiveRepeat.tick. by rewrite E.
    - right. apply (tick_state cb now n s slots w Hs). }
  revert Hi. unfold SelectiveRepeat.tick. destruct (sr_window s); [ | by split ].
  destruct (tick_loop _ _ _ _ _ _ _) as [[live m] w']. by split.
Qed.

Lemma quiet_peer a s : quiet_window s → quiet_window (set_peer_addr a s).
Proof.
  intros [Hw Hp Hf]. split; [ | done | done ].
  destruct Hw as [Hw | Hw]; [ by left | right; by apply (sender_inv_frame s) ].
Qed.

Lemma quiet_aget l i : Forall quiet_window l → quiet_window (aget l i).
Proof. apply Forall_aget_sender, quiet_window_new. Qed.

(** ** Steps that only transmit *)

Section engine.
Context {W : Type} (h : Host W).
Notation Engine := (Engine W).
Implicit Types (e : Engine) (w : W).

(** What decides whether a transfer is over. *)
Definition core e :=
  (te_transfer e, te_election e, te_role e, te_local_exit e, te_receiver e,
   tm_last_cloud_activity_ms (te_timers e), tm_mesh_upload_done (te_timers e)).

Definition idle e : Prop := Forall quiet_window (te_arq e).

(** The step leaves [core] alone and fills no empty window. *)
Definition transmits e e' : Prop := core e' = core e ∧ (idle e → idle e').

#[local] Instance transmits_preorder : PreOrder transmits.
Proof.
  split.
  - intros e. done.
  - intros e1 e2 e3 [E1 H1] [E2 H2]. split; [ congruence | auto ].
Qed.

Lemma transmits_view e e' : core e' = core e → te_arq e' = te_arq e → transmits e e'.
Proof. intros Hc Ha. split; [ done | ]. unfold idle. by rewrite Ha. Qed.

Lemma engine_send_transmits dst t d q e w : transmits e (engine_send h dst t d q e w).1.2.
Proof.
  unfold engine_send. destruct (send_fn _ _ _ _ _ _) as [rc [c w']]. by apply transmits_view.
Qed.

Lemma arq_tick_transmits i n e w : transmits e (arq_tick h i n e w).1.2.
Proof.
  unfold arq_tick.
  pose proof (quiet_tick (Some (send_fn h)) (h_now h w) n (aget (te_arq e) i) (te_cong e, w)) as H.
  destruct (SelectiveRepeat.tick _ _ _ _ _) as [[m s] [c w']]. split; [ done | ].
  intros Hi. unfold idle. proj_upd. apply Forall_aset; [ done | by apply H, quiet_aget ].
Qed.

Lemma retx_loop_transmits exits budget used e w :
  transmits e (retx_loop h exits budget used e w).1.2.
Proof.
  revert budget used e w. induction exits as [ | i exits IH ]; intros budget used e w;
    cbn [retx_loop]; [ done | ].
  destruct (negb _); [ done | ]. destruct (negb _); [ apply IH | ].
  pose proof (arq_tick_transmits i budget e w) as H.
  destruct (arq_tick h i budget e w) as [[sent e1] w1]. by etrans; [ | apply IH ].
Qed.

Lemma tick_all_transmits l e w : transmits e (tick_all h l e w).1.
Proof.
  revert e w. induction l as [ | i l IH ]; intros e w; cbn [tick_all]; [ done | ].
  pose proof (arq_tick_transmits i 8 e w) as H.
  destruct (arq_tick h i 8 e w) as [[sent e1] w1]. by etrans; [ | apply IH ].
Qed.

Lemma retx_phase_transmits e w : transmits e (retx_phase h e w).1.
Proof.
  unfold retx_phase. destruct (_ && _).
  - pose proof (retx_loop_transmits (exit_indices e) MAX_TOTAL_MESH_RETX_PER_TICK 0 e w) as H.
    destruct (retx_loop _ _ _ _ _ _) as [[used e1] w1]. by etrans; [ | by apply transmits_view ].
  - pose proof (tick_all_transmits (seqZ 0 MAX_EXIT_NODES) e w) as H.
    destruct (tick_all _ _ _ _) as [e1 w1]. by etrans; [ | by apply transmits_view ].
Qed.

Lemma broadcast_transmits now e w : transmits e (broadcast_retry_tick h now e w).1.
Proof.
  unfold broadcast_retry_tick. cbv zeta. destruct (broadcast_due _ _); [ | done ].
  pose proof (engine_send_transmits (br_dst_addr (te_retry e)) (br_type (te_retry e))
    (br_payload (te_retry e)) 0 e w) as H.
  destruct (engine_send _ _ _ _ _ _ _) as [[rc e1] w1]. by etrans; [ | by apply transmits_view ].
Qed.

Lemma oow_drain_transmits now budget allow queue sent e w :
  transmits e (oow_drain h now budget allow queue sent e w).1.2.
Proof.
  revert sent e w. induction queue as [ | [q dst] queue IH ]; intros sent e w;
    cbn [oow_drain]; [ done | ]. cbv zeta.
  assert (Hkeep : ∀ dst e w, transmits e (let '(kept, e', w') :=
    oow_drain h now budget allow queue sent e w in ((q, dst) :: kept, e', w')).1.2).
  { intros d e0 w0. specialize (IH sent e0 w0). by destruct (oow_drain _ _ _ _ _ _ _ _) as [[? ?] ?]. }
  destruct (_ || _); [ apply Hkeep | ].
  destruct (oow_payload h q e w) as [[d | ] w1]; [ | apply IH ].
  destruct (_ =? 0); [ apply Hkeep | ].
  pose proof (engine_send_transmits (oow_destination dst e) DATA d q e w1) as H.
  destruct (engine_send _ _ _ _ _ _ _) as [[rc e1] w2]. destruct (rc <? 0); [ done | ].
  etrans; [ exact H | ]. etrans; [ | apply IH ]. by apply transmits_view.
Qed.

Lemma oow_phase_transmits now e w : transmits e (oow_phase h now e w).1.
Proof.
  unfold oow_phase. destruct (oow_pacing e) as [interval budget].
  destruct (oq_queue (te_oow e)) as [ | x queue ]; [ done | ].
  destruct (tr_read_chunk _); [ | done ].
  pose proof (oow_drain_transmits now budget (u32 (now - oq_last_ms (te_oow e)) >=? interval)
    (x :: queue) 0 e w) as H.
  destruct (oow_drain _ _ _ _ _ _ _ _) as [[kept e1] w1]. by etrans; [ | by apply transmits_view ].
Qed.

(** ** A source that waits for TRANSFER_DONE *)

(** A mesh source of session [sid] that has handed over everything: every
    fragment acknowledged, nothing in a window, an elected exit left. *)
Record uploaded (sid : Z) e : Prop := {
  up_active : tr_active (te_transfer e) = true;
  up_session : tr_session_id (te_transfer e) = sid;
  up_election : el_active (te_election e) = false;
  up_exits : count_if (fun i => is_exit_alive i e) (exit_indices e) ≠ 0;
  up_done : tm_mesh_upload_done (te_timers e) = true;
  up_idle : idle e;
  up_role : serving (te_role e) = false;
  up_local : te_local_exit e = false;
  up_receiver : rv_active (te_receiver e) = false;
  up_cloud : tm_last_cloud_activity_ms (te_timers e) = 0
}.

Lemma uploaded_core sid e e' : core e' = core e → idle e' → uploaded sid e → uploaded sid e'.
Proof.
  unfold core. intros [= E1 E2 E3 E4 E5 E6 E7] Hi [].
  split; rewrite ?E1, ?E2, ?E3, ?E4, ?E5, ?E6, ?E7; try done.
  unfold exit_indices, is_exit_alive. by rewrite E1.
Qed.

Lemma uploaded_transmits sid e e' : transmits e e' → uploaded sid e → uploaded sid e'.
Proof. intros [Hc Hi] Hu. apply (uploaded_core sid e); [ done | by apply Hi, Hu | done ]. Qed.

Lemma republish_rest now e w :
  te_local_exit e = false → er_is_exit_node (te_role e) = false → republish_meta h now e w = (e, w).
Proof. intros Hl Hx. unfold republish_meta. cbv zeta. by rewrite Hl, Hx, !andb_false_r. Qed.

Lemma stall_rest now e w :
  tm_last_cloud_activity_ms (te_timers e) = 0 → stall_check h now e w = (false, e, w).
Proof. intros Hc. unfold stall_check. cbv zeta. by rewrite Hc. Qed.

Lemma exit_rest now e w : er_is_exit_node (te_role e) = false → exit_phase h now e w = (e, w).
Proof.
  intros Hx. unfold exit_phase. cbv zeta. rewrite Hx.
  by destruct (h_drain_cloud_nack h), (h_drain_fragment_ack h); rewrite ?Hx.
Qed.

Lemma health_rest now e w : idle e → exit_node_health_tick h now e w = (e, w).
Proof.
  intros Hi. unfold exit_node_health_tick. destruct (_ || _); [ done | ].
  induction (exit_indices e) as [ | i l IH ]; cbn [fold_left]; [ done | ].
  unfold health_step at 2. destruct (negb (is_exit_alive i e)); [ done | ].
  by rewrite (qw_pending _ (quiet_aget _ i Hi)).
Qed.

Lemma not_serving e : serving (te_role e) = false →
  er_is_exit_node (te_role e) = false ∧ er_exit_pending (te_role e) = false.
Proof. apply orb_false_iff. Qed.

Lemma uploaded_transfer_tick sid e w :
  uploaded sid e → uploaded sid (transfer_tick h e w).1.
Proof.
  intros Hu. pose proof Hu as [Ha _ Hel Hx Hd _ _ Hl _ _]. unfold transfer_tick.
  rewrite Ha, Hel, Hl. cbn [negb orb].
  destruct (_ >? 0); [ by apply (uploaded_core sid e); [ | apply Hu | ] | ].
  unfold tick_mesh_arq. destruct (_ =? 0); [ done | ]. cbv zeta.
  destruct (Z.eqb_spec (count_if (fun i => is_exit_alive i e) (exit_indices e)) 0); [ done | ].
  rewrite Hd. pose proof (oow_phase_transmits (h_now h w) e w) as Ho.
  destruct (oow_phase _ _ _ _) as [e1 w1]. apply (uploaded_transmits sid) in Ho; [ | done ].
  destruct (_ >=? _); [ | done ]. by apply (uploaded_core sid e1); [ | apply Ho | ].
Qed.

Lemma uploaded_tick sid elected now e w :
  uploaded sid e → uploaded sid (TransferEngine.tick h elected now e w).1.
Proof.
  intros Hu. unfold TransferEngine.tick.
  pose proof (retx_phase_transmits e w) as H1. destruct (retx_phase h e w) as [e1 w1].
  apply (uploaded_transmits sid) in H1; [ | done ]. cbn [fst] in H1.
  pose proof H1 as [Ha _ Hel _ _ Hi Hr Hl _ Hc]. destruct (not_serving _ Hr) as [Hx Hp].
  assert (Hf : arq_failed e1 = false).
  { unfold arq_failed. apply andb_false_intro2, not_true_iff_false.
    intros (i & _ & Hf)%existsb_exists. by rewrite (qw_failed _ (quiet_aget _ i Hi)) in Hf. }
  rewrite Hf, (republish_rest now e1 w1 Hl Hx), (stall_rest now e1 w1 Hc),
    (exit_rest now e1 w1 Hx).
  pose proof (broadcast_transmits now e1 w1) as H2.
  destruct (broadcast_retry_tick h now e1 w1) as [e2 w2].
  apply (uploaded_transmits sid) in H2; [ | done ]. cbn [fst] in H2.
  unfold election_timeout_tick. cbv zeta. rewrite (up_election sid e2 H2). cbn [negb orb].
  rewrite (health_rest now e2 w2 (up_idle sid e2 H2)).
  pose proof (uploaded_transfer_tick sid e2 w2 H2) as H3.
  destruct (transfer_tick h e2 w2) as [e3 w3]. by apply (uploaded_core sid e3); [ | apply H3 | ].
Qed.

Lemma uploaded_ack sid q from e w : uploaded sid e → uploaded sid (handle_ack h q from e w).
Proof.
  intros Hu. unfold handle_ack. cbv zeta. destruct (_ <? 0); [ done | ].
  pose proof (quiet_aget _ (arq_index_for_peer from e) (up_idle sid e Hu)) as Hq.
  rewrite (quiet_contains _ _ Hq), (quiet_ack _ _ _ Hq).
  apply (uploaded_core sid e); [ done | | done ]. unfold idle. proj_upd.
  apply Forall_aset; [ apply Hu | done ].
Qed.

Lemma no_window_holds q e : idle e → arq_index_for_sequence q e = -1.
Proof.
  intros Hi. unfold arq_index_for_sequence.
  destruct (first_index_range (fun i => contains_sequence q (aget (te_arq e) i)) (exit_indices e))
    as [ | [_ Hc] ]; [ done | ].
  by rewrite (quiet_contains q _ (quiet_aget _ _ Hi)) in Hc.
Qed.

Lemma uploaded_nack sid q from e w : uploaded sid e → uploaded sid (handle_nack h q from e w).1.
Proof.
  intros Hu. unfold handle_nack. cbv zeta. rewrite (no_window_holds q e (up_idle sid e Hu)).
  rewrite (quiet_contains _ _ (quiet_aget _ _ (up_idle sid e Hu))).
  change (-1 <? 0) with true. change (-1 >=? 0) with false. destruct (_ <? 0); [ done | ].
  cbv iota. cbn [fst]. unfold queue_out_of_window. cbv zeta.
  repeat case_match; try done; by apply (uploaded_core sid e); [ | apply Hu | ].
Qed.

Lemma uploaded_data sid hdr payload e w :
  uploaded sid e → uploaded sid (handle_data h hdr payload e w).1.
Proof.
  intros Hu. destruct (not_serving _ (up_role sid e Hu)) as [Hx Hp]. unfold handle_data. cbv zeta.
  rewrite Hx, Hp. cbn [orb]. unfold receive_fragment. proj_upd.
  rewrite (up_receiver sid e Hu). cbn [negb orb]. apply (uploaded_core sid e); [ done | | done ].
  unfold idle. proj_upd. apply Forall_aset; [ apply Hu | apply quiet_peer, quiet_aget, Hu ].
Qed.

(** Every event but the two that may end a finished upload. *)
Definition ends_upload (ev : MeshEvent) : bool :=
  match ev with EvTransferDone _ _ | EvExitOffline _ _ => true | _ => false end.

Lemma uploaded_step sid ev e w :
  ends_upload ev = false → uploaded sid e → uploaded sid (mesh_step h ev e w).1.
Proof.
  intros Hev Hu. destruct ev; try done; cbn [mesh_step fst].
  - by apply uploaded_tick.
  - by apply uploaded_ack.
  - by apply uploaded_nack.
  - by apply (uploaded_core sid e); [ | apply Hu | ].
  - unfold handle_transfer_ad. by destruct (_ <? _).
  - unfold handle_transfer_ack. rewrite (up_election sid e Hu). cbn [negb]. by destruct (_ <? _).
  - by apply uploaded_data.
Qed.

Lemma uploaded_run sid evs e w :
  Forall (fun ev => ends_upload ev = false) evs → uploaded sid e →
  uploaded sid (mesh_run h evs e w).1.
Proof.
  intros Hevs. revert e w. induction Hevs as [ | ev evs Hev _ IH ]; intros e w Hu; [ done | ].
  cbn [mesh_run]. pose proof (uploaded_step sid ev e w Hev Hu) as H.
  destruct (mesh_step h ev e w). by apply IH.
Qed.
End engine.

(** What can be seen of a source whose upload is over. *)
Record delivered {W} (e : Engine W) : Prop := {
  dl_active : tr_active (te_transfer e) = true;
  dl_election : el_active (te_election e) = false;
  dl_exits : count_if (fun i => is_exit_alive i e) (exit_indices e) ≠ 0;
  dl_done : tm_mesh_upload_done (te_timers e) = true;
  dl_windows : Forall (fun s => has_pending s = false ∧ is_sender_failed s = false) (te_arq e)
}.

Definition delivered_bool {W} (e : Engine W) : bool :=
  tr_active (te_transfer e) && negb (el_active (te_election e))
  && negb (count_if (fun i => is_exit_alive i e) (exit_indices e) =? 0)
  && tm_mesh_upload_done (te_timers e)
  && forallb (fun s => negb (has_pending s) && negb (is_sender_failed s)) (te_arq e).

Lemma delivered_check {W} (e : Engine W) : delivered_bool e = true → delivered e.
Proof.
  intros ((((? & ?%negb_true_iff)%andb_prop & ?%negb_true_iff%Z.eqb_neq)%andb_prop & ?)%andb_prop
    & Hw)%andb_prop.
  split; try done. apply Forall_forall. intros s Hs. rewrite forallb_forall in Hw.
  apply list_elem_of_In, Hw, andb_prop in Hs as [?%negb_true_iff ?%negb_true_iff]. done.
Qed.

Lemma any_mesh_host {W} (h : Host W) file fs :
  (∀ w, h_alloc h w = true) → mesh_host h file fs (fun _ => True).
Proof. by split. Qed.

Lemma sound_uploaded {W} (h : Host W) file fs e w :
  sound file fs (fun _ : W => True) True e w → delivered e →
  uploaded (tr_session_id (te_transfer e)) e.
Proof.
  intros [[Harq Hr Hrc Hl _ Hc _] _] [Ha Hel Hx Hd Hw]. split; try done; [ | by apply Hc ].
  unfold idle. rewrite Forall_forall in Harq, Hw |- *. intros s Hs.
  destruct (Hw s Hs). by split; [ apply (Harq s Hs) | | ].
Qed.

Section start.
Context {W : Type} (h : Host W) (file : list Z) (filename : Filename) (mqtt : bool) (hops : Z).
Notation size := (Z.of_nat (length file)).
Notation fs := DEFAULT_TRANSFER_FRAGMENT_SIZE.
Context (Halloc : ∀ w, h_alloc h w = true) (Hsize : size + fs < 4294967296)
  (Htotal : session_total file fs <= 60000).
Context (e : Engine W) (w : W) (e1 : Engine W) (w1 : W) (Hquiet : quiet e)
  (Hcloud : tm_last_cloud_activity_ms (te_timers e) = 0)
  (Hstart : start_file_transfer h filename size (make_buffer_reader file size) false mqtt hops e w
              = (true, e1, w1)).

Lemma started_sound : sound file fs (fun _ => True) True e1 w1.
Proof.
  by apply (start_sound h file fs (fun _ => True) True ltac:(done) Hsize Htotal
    (any_mesh_host h file fs Halloc) filename mqtt hops e w).
Qed.

Lemma started_run_sound evs e2 w2 :
  Forall event_ok evs → mesh_run h evs e1 w1 = (e2, w2) →
  sound file fs (fun _ => True) True e2 w2.
Proof.
  intros Hevs E. pose proof (run_sound h file fs (fun _ => True) True ltac:(done) Hsize Htotal
    (any_mesh_host h file fs Halloc) evs e1 w1 Hevs started_sound) as H. by rewrite E in H.
Qed.
End start.

Lemma start_refused {W} (h : Host W) name size read inet mqtt hops (e : Engine W) w :
  tr_active (te_transfer e) = true →
  start_file_transfer h name size read inet mqtt hops e w = (false, e, w).
Proof. intros Ha. unfold start_file_transfer. by rewrite Ha. Qed.

(** A source whose mesh upload is complete is released by TRANSFER_DONE or
    by losing its exits, and by nothing else. Once every fragment is
    acknowledged, no ticks at any times and no other packets, in any number
    and order, end the transfer, and every later start is refused. The exit
    sends TRANSFER_DONE once and ignores the result, so one lost packet
    leaves the node sending for ever; the stall check of [tick] has a branch
    for this state, but [last_cloud_activity_ms_] is zero on a mesh source,
    and the check runs only when it is not. *)
Theorem lost_done_strands_source {W} (h : Host W) file filename mqtt hops e w e1 w1 evs e2 w2
    later e3 w3 :
  (∀ w, h_alloc h w = true) →
  Z.of_nat (length file) + DEFAULT_TRANSFER_FRAGMENT_SIZE < 4294967296 →
  session_total file DEFAULT_TRANSFER_FRAGMENT_SIZE <= 60000 →
  quiet e → tm_last_cloud_activity_ms (te_timers e) = 0 →
  start_file_transfer h filename (Z.of_nat (length file))
    (make_buffer_reader file (Z.of_nat (length file))) false mqtt hops e w = (true, e1, w1) →
  Forall event_ok evs → mesh_run h evs e1 w1 = (e2, w2) → delivered e2 →
  Forall (fun ev => ends_upload ev = false) later → mesh_run h later e2 w2 = (e3, w3) →
  tr_active (te_transfer e3) = true ∧
  tr_session_id (te_transfer e3) = tr_session_id (te_transfer e2) ∧
  tm_last_cloud_activity_ms (te_timers e3) = 0 ∧
  ∀ name size read inet mqtt hops,
    start_file_transfer h name size read inet mqtt hops e3 w3 = (false, e3, w3).
Proof.
  intros Ha Hsize Htot Hq Hc Hstart Hevs Erun Hd Hlater Elater.
  pose proof (started_run_sound h file filename mqtt hops Ha Hsize Htot e w e1 w1 Hq Hc Hstart
    evs e2 w2 Hevs Erun) as Hs.
  pose proof (uploaded_run h _ later e2 w2 Hlater (sound_uploaded h _ _ _ _ Hs Hd)) as Hu.
  rewrite Elater in Hu. destruct Hu. split_and!; try done.
  intros. by apply start_refused.
Qed.

(** A host on which sending a packet takes 100 ms. *)
Definition paced_host : Host DemoWorld :=
  let h := demo_host in
  mk_host (h_now h) (h_random h) (h_alloc h) (h_crc32_le h) (h_sta_rssi h) (h_set_bits h)
    (h_congested h)
    (fun w dst t data seq => h_send_packet h (w <| dw_now ::= fun t => t + 100 |>) dst t data seq)
    (h_forward_to_mqtt h) (h_forward_meta h) (h_drain_cloud_ack h) (h_drain_cloud_nack h)
    (h_requeue_cloud_nack h) (h_observe_cloud_nack h) (h_drain_fragment_ack h)
    (h_requeue_fragment_ack h) (h_transfer_complete h) (h_mqtt_session_end h) (h_backlog h).

Definition paced_start : bool * Engine DemoWorld * DemoWorld :=
  start_file_transfer paced_host [97] 3 (make_buffer_reader demo_payload 3) false true 1 demo_node
    (demo_world 1000).

(** Node 5 answers, is elected, gets the fragment and acknowledges it; its
    TRANSFER_DONE is lost. An hour later the node still refuses transfers. *)
Definition stranding_events : list MeshEvent :=
  [ EvTick 2 1000;
    EvTransferAck (demo_header 5 1 0 TRANSFER_ACK) (encode_transfer_ack (mk_tack 7 5 (-40) 0 0));
    EvTick 2 9000; EvTick 2 9050; EvAck 0 5; EvTick 2 9100 ].
Definition hour_later : list MeshEvent :=
  [ EvTick 2 40000; EvNack 0 5; EvTick 2 100000; EvAck 0 5; EvTick 2 3600000 ].

Definition stranded : Engine DemoWorld * DemoWorld :=
  mesh_run paced_host stranding_events paced_start.1.2 paced_start.2.

#[local] Strategy expand [paced_start stranded].

Lemma lost_done_strands_source_witness :
  delivered stranded.1 ∧
  start_file_transfer paced_host [97] 3 (make_buffer_reader demo_payload 3) false true 1
    (mesh_run paced_host hour_later stranded.1 stranded.2).1
    (mesh_run paced_host hour_later stranded.1 stranded.2).2
  = (false, (mesh_run paced_host hour_later stranded.1 stranded.2).1,
     (mesh_run paced_host hour_later stranded.1 stranded.2).2).
Proof.
  assert (E : paced_start = (true, paced_start.1.2, paced_start.2))
    by (apply triple_eq; vm_compute; reflexivity).
  assert (Hd : delivered stranded.1).
  { apply delivered_check. vm_compute. reflexivity. }
  split; [ exact Hd | ].
  apply (lost_done_strands_source paced_host demo_payload [97] true 1 demo_node (demo_world 1000)
    paced_start.1.2 paced_start.2 stranding_events stranded.1 stranded.2 hour_later
    (mesh_run paced_host hour_later stranded.1 stranded.2).1
    (mesh_run paced_host hour_later stranded.1 stranded.2).2
    (fun _ => eq_refl) ltac:(vm_compute; reflexivity) ltac:(vm_compute; discriminate)
    (init_quiet 2 (fun _ => true) 1) eq_refl E
    ltac:(repeat constructor; vm_compute; discriminate)
    (surjective_pairing _) Hd ltac:(repeat constructor) (surjective_pairing _)).
Defined.

(** ** An announcement that no exit answers *)

Section ending.
Context {W : Type} (h : Host W) (file : list Z) (fs : Z).
Notation Engine := (Engine W).
Implicit Types (e : Engine) (w : W).
Notation sound := (sound file fs (fun _ : W => True) True).
Context (Hfs : 0 < fs <= MAX_MTU) (Hsize : Z.of_nat (length file) + fs < 4294967296)
  (Htotal : session_total file fs <= 60000) (Halloc : ∀ w, h_alloc h w = true).

(** Whether a transfer is under way, and its election. *)
Definition life e : bool * Election := (tr_active (te_transfer e), te_election e).

Definition announced (start timeout : Z) e : Prop := life e = (true, mk_election [] start true timeout).
Definition over e : Prop := tr_active (te_transfer e) = false ∧ el_active (te_election e) = false.

Lemma core_life e e' : core e' = core e → life e' = life e.
Proof. unfold core, life. by intros [= -> -> _ _ _ _ _]. Qed.

Lemma life_over e e' : life e' = life e → over e → over e'.
Proof. unfold life, over. by intros [= -> ->]. Qed.

Lemma reset_over b e w : over (reset_sender_transfer_state h b e w).1.
Proof. done. Qed.

(** Out of an active transfer past its election, health and feeding do nothing. *)
Definition resting e : Prop := tr_active (te_transfer e) = false ∨ el_active (te_election e) = true.

Lemma rest_phases now e w :
  resting e → exit_node_health_tick h now e w = (e, w) ∧ transfer_tick h e w = (e, w).
Proof.
  unfold exit_node_health_tick, transfer_tick.
  intros [-> | ->]; cbn [negb orb]; [ done | by rewrite orb_true_r ].
Qed.

Definition election_due (start timeout now : Z) : Prop := u32 (now - start) > timeout.

Lemma election_announced start timeout elected now e w :
  announced start timeout e →
  over (election_timeout_tick h elected now e w).1 ∨
  ¬ election_due start timeout now ∧ election_timeout_tick h elected now e w = (e, w).
Proof.
  unfold announced, life, election_timeout_tick. intros [= Ha ->]. cbn [el_active negb orb].
  cbv zeta. proj_upd. cbn [el_start_ms el_timeout_ms el_candidates].
  destruct (Z.leb_spec (u32 (now - start)) timeout); [ right | by left ].
  split; [ unfold election_due; lia | done ].
Qed.

Lemma tick_over elected now e w :
  sound e w → over e → over (TransferEngine.tick h elected now e w).1.
Proof.
  intros Hok Ho. unfold TransferEngine.tick.
  pose proof (retx_phase_transmits h e w) as [Hc _].
  pose proof (retx_phase_sound h file fs (fun _ => True) True (any_mesh_host h file fs Halloc) e w Hok)
    as Hok1.
  destruct (retx_phase h e w) as [e1 w1]. apply core_life, life_over in Hc; [ | done ].
  cbn [fst] in Hc. destruct (not_exit _ _ _ _ _ _ Hok1) as [Hx _].
  unfold arq_failed. rewrite (proj1 Hc). cbn [andb].
  rewrite (republish_rest h now e1 w1 (sd_local _ _ _ _ (proj1 Hok1)) Hx),
    (stall_rest h now e1 w1 (sd_cloud _ _ _ _ (proj1 Hok1) I)), (exit_rest h now e1 w1 Hx).
  pose proof (broadcast_transmits h now e1 w1) as [Hc2 _].
  destruct (broadcast_retry_tick h now e1 w1) as [e2 w2].
  apply core_life, life_over in Hc2; [ | done ]. destruct Hc2 as [Ha Hel]. cbn [fst] in Ha, Hel.
  unfold election_timeout_tick. cbv zeta. rewrite Hel. cbn [negb orb].
  destruct (rest_phases now e2 w2 (or_introl Ha)) as [-> ->]. by split.
Qed.

Lemma tick_announced start timeout elected now e w :
  sound e w → announced start timeout e →
  over (TransferEngine.tick h elected now e w).1 ∨
  ¬ election_due start timeout now ∧
  announced start timeout (TransferEngine.tick h elected now e w).1.
Proof.
  intros Hok Ho. unfold TransferEngine.tick.
  pose proof (retx_phase_transmits h e w) as [Hc _].
  pose proof (retx_phase_sound h file fs (fun _ => True) True (any_mesh_host h file fs Halloc) e w Hok)
    as Hok1.
  destruct (retx_phase h e w) as [e1 w1]. apply core_life in Hc. cbn [fst] in Hc.
  destruct (not_exit _ _ _ _ _ _ Hok1) as [Hx _].
  destruct (arq_failed e1); [ left; apply reset_over | ].
  rewrite (republish_rest h now e1 w1 (sd_local _ _ _ _ (proj1 Hok1)) Hx),
    (stall_rest h now e1 w1 (sd_cloud _ _ _ _ (proj1 Hok1) I)), (exit_rest h now e1 w1 Hx).
  pose proof (broadcast_transmits h now e1 w1) as [Hc2 _].
  destruct (broadcast_retry_tick h now e1 w1) as [e2 w2]. apply core_life in Hc2. cbn [fst] in Hc2.
  assert (Hl : announced start timeout e2) by (unfold announced; congruence).
  pose proof (election_announced start timeout elected now e2 w2 Hl) as He.
  destruct (election_timeout_tick h elected now e2 w2) as [e3 w3]. cbn [fst] in He.
  destruct He as [He | [Hn [= -> ->]]].
  - destruct (rest_phases now e3 w3 (or_introl (proj1 He))) as [-> ->]. by left.
  - destruct (rest_phases now e2 w2) as [-> ->]; [ | by right ].
    right. unfold announced, life in Hl. by injection Hl as _ ->.
Qed.

Lemma redistribute_life first pending e w : life (redistribute h first pending e w).1 = life e.
Proof.
  revert e w. induction pending as [ | q pending IH ]; intros e w; cbn [redistribute]; [ done | ].
  cbv zeta. assert (Hq : ∀ q e, life (queue_redist q e) = life e)
    by (intros; unfold queue_redist; by destruct (_ <? _)).
  destruct (_ =? _); [ apply IH | ]. destruct (can_send_sequence _ _).
  - destruct (read_fragment _ _ _) as [d w1]. unfold arq_send_fragment at 1.
    destruct (send_fragment _ _ _ _ _ _) as [[rc s] [c w2]]. rewrite IH.
    by destruct (rc =? 0); [ | rewrite Hq ].
  - by rewrite IH, Hq.
Qed.

(** A packet other than an exit's answer leaves the announcement alone, or ends it. *)
Lemma packet_life ev e w :
  sound e w →
  (match ev with EvTick _ _ | EvTransferAck _ _ => false | _ => true end) = true →
  over (mesh_step h ev e w).1 ∨ life (mesh_step h ev e w).1 = life e.
Proof.
  intros Hok Hev. destruct (not_exit _ _ _ _ _ _ Hok) as [Hx Hp].
  destruct ev; try done; cbn [mesh_step fst].
  - right. unfold handle_ack. cbv zeta. destruct (_ <? 0); [ done | ].
    by destruct (contains_sequence _ _).
  - right. unfold handle_nack. cbv zeta. unfold arq_handle_nack, queue_out_of_window.
    cbv zeta. repeat (case_match; try done);
      repeat (destruct (SelectiveRepeat.handle_nack _ _ _ _ _) as [? [? ?]]); done.
  - by right.
  - right. unfold handle_transfer_ad. by destruct (_ <? _).
  - unfold handle_transfer_done. cbv zeta. repeat (case_match; try by right). left. apply reset_over.
  - right. unfold handle_exit_offline. cbv zeta. repeat (case_match; try done).
    unfold redistribute_dead_exit. cbv zeta. case_match; [ done | ]. by rewrite redistribute_life.
  - right. unfold handle_data. cbv zeta. rewrite Hx, Hp. cbn [orb].
    by destruct (receive_fragment _ _ _ _ _ _ _ _ _) as [[? ?] [? ?]].
Qed.

Definition answers (ev : MeshEvent) : bool :=
  match ev with EvTransferAck _ _ => true | _ => false end.

(** The event is a tick past the election timeout. *)
Definition times_out (start timeout : Z) (ev : MeshEvent) : Prop :=
  match ev with EvTick _ now => election_due start timeout now | _ => False end.

Lemma over_step ev e w :
  sound e w → answers ev = false → over e → over (mesh_step h ev e w).1.
Proof.
  intros Hok Hev Ho. destruct ev; try done; [ by apply tick_over | .. ];
    (match goal with |- context [mesh_step h ?ev e w] => destruct (packet_life ev e w Hok eq_refl) as [ | Hl ]; [ done | by apply (life_over e) ] end).
Qed.

Lemma announced_step start timeout ev e w :
  sound e w → answers ev = false → announced start timeout e →
  over (mesh_step h ev e w).1 ∨
  ¬ times_out start timeout ev ∧ announced start timeout (mesh_step h ev e w).1.
Proof.
  intros Hok Hev Ha. destruct ev; try done; [ by apply tick_announced | .. ];
    (match goal with |- context [mesh_step h ?ev e w] => destruct (packet_life ev e w Hok eq_refl) as [ | Hl ]; [ by left | right ] end;
     split; [ tauto | unfold announced; congruence ]).
Qed.

Lemma unanswered_run start timeout evs e w :
  Forall event_ok evs → Forall (fun ev => answers ev = false) evs → sound e w →
  over e ∨ announced start timeout e ∧ Exists (times_out start timeout) evs →
  over (mesh_run h evs e w).1.
Proof.
  intros Hevs Hans. revert e w. induction evs as [ | ev evs IH ]; intros e w Hok Hst.
  { destruct Hst as [Ho | [_ Hx]]; [ done | by apply Exists_nil in Hx ]. }
  apply Forall_cons_1 in Hevs as [Hev Hevs], Hans as [Han Hans]. cbn [mesh_run].
  pose proof (step_sound h file fs (fun _ => True) True Hfs Hsize Htotal
    (any_mesh_host h file fs Halloc) ev e w Hev Hok) as Hok1.
  destruct Hst as [Ho | [Ha Hx]].
  - pose proof (over_step ev e w Hok Han Ho) as Ho1.
    destruct (mesh_step h ev e w). by apply IH; [ .. | left ].
  - pose proof (announced_step start timeout ev e w Hok Han Ha) as H1.
    apply Exists_cons in Hx. destruct (mesh_step h ev e w) as [e1 w1]. apply IH; [ done.. | ].
    destruct H1 as [Ho1 | [Hno Ha1]]; [ by left | right ]. destruct Hx; [ done | by split ].
Qed.
End ending.

Lemma compute_election_timeout_le hops : compute_election_timeout_ms hops <= MAX_ELECTION_MS.
Proof. unfold compute_election_timeout_ms. cbv zeta. destruct (_ >? _) eqn:E; lia. Qed.

Lemma started_announced {W} (h : Host W) filename size read mqtt hops (e : Engine W) w e1 w1 :
  start_file_transfer h filename size read false mqtt hops e w = (true, e1, w1) →
  announced (el_start_ms (te_election e1)) (el_timeout_ms (te_election e1)) e1 ∧
  el_timeout_ms (te_election e1) <= MAX_ELECTION_MS.
Proof.
  unfold start_file_transfer. destruct (tr_active _); [ done | ].
  destruct (er_is_exit_node _); [ done | ]. cbn [andb].
  destruct (prepare_transfer _ _ _ _ _ _ _) as [e2 w2] eqn:Ep.
  apply prepare_transfer_frame in Ep as (_ & Ha & _).
  unfold start_mesh. cbv zeta. destruct (_ >? 60000); [ done | ]. intros [= <- <-].
  unfold send_broadcast_with_retry. rewrite length_encode_ad.
  change (46 >? MAX_MTU) with false. cbv iota. unfold announced, life. proj_upd.
  cbn [el_start_ms el_timeout_ms]. rewrite Ha. split; [ done | apply compute_election_timeout_le ].
Qed.

(** C23: a mesh transfer that no exit answers does not stay active. Started on
    a node at rest, it is over after any events that contain no TRANSFER_ACK
    and some tick more than [MAX_ELECTION_MS] (9 s) after the announcement,
    and the engine is then free for the next transfer; the other events may
    be any packets, in any order, before and after that tick. *)
Theorem unanswered_transfer_ends {W} (h : Host W) file filename mqtt hops e w e1 w1 evs :
  (∀ w, h_alloc h w = true) →
  Z.of_nat (length file) + DEFAULT_TRANSFER_FRAGMENT_SIZE < 4294967296 →
  session_total file DEFAULT_TRANSFER_FRAGMENT_SIZE <= 60000 →
  quiet e → tm_last_cloud_activity_ms (te_timers e) = 0 →
  start_file_transfer h filename (Z.of_nat (length file))
    (make_buffer_reader file (Z.of_nat (length file))) false mqtt hops e w = (true, e1, w1) →
  Forall event_ok evs → Forall (fun ev => answers ev = false) evs →
  Exists (times_out (el_start_ms (te_election e1)) MAX_ELECTION_MS) evs →
  let '(e2, w2) := mesh_run h evs e1 w1 in
  tr_active (te_transfer e2) = false ∧ el_active (te_election e2) = false ∧
  serving (te_role e2) = false.
Proof.
  intros Ha Hsize Htot Hq Hc Hstart Hevs Hans Hx.
  pose proof (started_sound h file filename mqtt hops Ha Hsize Htot e w e1 w1 Hq Hc Hstart) as Hok.
  destruct (started_announced _ _ _ _ _ _ _ _ _ _ Hstart) as [Hann Hle].
  assert (Hx' : Exists (times_out (el_start_ms (te_election e1)) (el_timeout_ms (te_election e1))) evs).
  { apply (Exists_impl _ _ _ Hx). intros []; cbn; unfold election_due; lia. }
  pose proof (unanswered_run h file DEFAULT_TRANSFER_FRAGMENT_SIZE ltac:(done) Hsize Htot Ha _ _
    evs e1 w1 Hevs Hans Hok (or_intror (conj Hann Hx'))) as Ho.
  destruct (mesh_run h evs e1 w1) as [e2 w2] eqn:Er.
  pose proof (started_run_sound h file filename mqtt hops Ha Hsize Htot e w e1 w1 Hq Hc Hstart
    evs e2 w2 Hevs Er) as [Hs _].
  destruct Ho. split_and!; [ done | done | apply Hs ].
Qed.

Definition silent_events : list MeshEvent :=
  [ EvTick 2 1000; EvCongestion; EvTick 2 2000; EvAck 0 5; EvTick 2 10001; EvTick 2 10100 ].

Lemma unanswered_transfer_ends_witness :
  tr_active (te_transfer paced_start.1.2) = true ∧
  let '(e2, w2) := mesh_run paced_host silent_events paced_start.1.2 paced_start.2 in
  tr_active (te_transfer e2) = false ∧ el_active (te_election e2) = false ∧
  serving (te_role e2) = false.
Proof.
  assert (E : paced_start = (true, paced_start.1.2, paced_start.2))
    by (apply triple_eq; vm_compute; reflexivity).
  split; [ vm_compute; reflexivity | ].
  apply (unanswered_transfer_ends paced_host demo_payload [97] true 1 demo_node (demo_world 1000)
    paced_start.1.2 paced_start.2 silent_events (fun _ => eq_refl) ltac:(vm_compute; reflexivity)
    ltac:(vm_compute; discriminate) (init_quiet 2 (fun _ => true) 1) eq_refl E
    ltac:(repeat constructor) ltac:(repeat constructor)).
  do 4 right. left. vm_compute. reflexivity.
Defined.

(** ** The exit role *)

(** An exit, elected or pending, that the cloud and the source have left
    alone for more than [CLOUD_STALL_TIMEOUT_MS] (30 s) gives its role up on
    the next tick, whatever its session and whatever its windows hold: it no
    longer serves, the transfer's fields are clear and [last_cloud_activity_ms_]
    is reset, so that it may serve or start another transfer. *)
Theorem exit_role_released {W} (h : Host W) elected now (e : Engine W) w :
  serving (te_role e) = true → over e →
  0 < tm_last_cloud_activity_ms (te_timers e) →
  u32 (now - tm_last_cloud_activity_ms (te_timers e)) > CLOUD_STALL_TIMEOUT_MS →
  let '(e', w') := TransferEngine.tick h elected now e w in
  te_role e' = mk_role false false 0 0 ∧ tm_last_cloud_activity_ms (te_timers e') = 0 ∧
  tr_active (te_transfer e') = false ∧ tr_size (te_transfer e') = 0 ∧
  tr_filename (te_transfer e') = [].
Proof.
  intros Hs Ho Hpos Hlate. unfold TransferEngine.tick.
  pose proof (retx_phase_transmits h e w) as [Hc _]. destruct (retx_phase h e w) as [e1 w1].
  cbn [fst] in *. unfold core in Hc. injection Hc as E1 E2 E3 _ _ E6 _.
  destruct Ho as [Ha Hel]. unfold arq_failed. rewrite E1, Ha. cbn [andb].
  assert (Hrep : republish_meta h now e1 w1 = (e1, w1)).
  { unfold republish_meta. cbv zeta. rewrite E6.
    replace (u32 _ <? 15000) with false by (unfold CLOUD_STALL_TIMEOUT_MS in *; lia).
    by rewrite (andb_false_r (_ >? 0)), andb_false_l, andb_false_r. }
  rewrite Hrep. unfold stall_check. cbv zeta. rewrite E6, E1, E3, Ha.
  replace (_ >? 0) with true by lia. replace (_ >? CLOUD_STALL_TIMEOUT_MS) with true by lia.
  unfold serving in Hs. rewrite Hs, !andb_false_r. cbn [andb].
  unfold clear_exit_node_state at 1. cbv zeta. set (e2 := e1 <| te_role := _ |> <| te_transfer ::= _ |>
    <| te_timers ::= _ |> <| te_cong ::= _ |> <| te_oow ::= _ |>).
  rewrite (exit_rest h now e2 _ eq_refl). rewrite E3.
  set (w2 := session_end h _ w1).
  pose proof (broadcast_transmits h now e2 w2) as [Hb _].
  destruct (broadcast_retry_tick h now e2 w2) as [e3 w3] eqn:Eb. cbn [fst] in Hb.
  unfold core in Hb. injection Hb as F1 F2 F3 _ _ F6 _.
  unfold election_timeout_tick. cbv zeta. rewrite F2. subst e2. proj_upd. rewrite E2, Hel. cbn [negb orb].
  assert (Ha3 : tr_active (te_transfer e3) = false) by (rewrite F1; proj_upd; by rewrite E1).
  destruct (rest_phases h now e3 w3 (or_introl Ha3)) as [-> ->].
  unfold note_inflight. cbn [update_field te_role te_timers te_transfer].
  rewrite F3, F6, F1. proj_upd. by rewrite E1.
Qed.

Definition idle_exit : Engine DemoWorld :=
  demo_node <| te_role := mk_role true false 7 9 |>
    <| te_timers ::= fun t => t <| tm_last_cloud_activity_ms := 1000 |> |>
    <| te_transfer ::= fun t => t <| tr_size := 3 |> <| tr_filename := [97] |> |>.

Lemma exit_role_released_witness :
  te_role idle_exit = mk_role true false 7 9 ∧
  let '(e', w') := TransferEngine.tick demo_host 2 31001 idle_exit (demo_world 31001) in
  te_role e' = mk_role false false 0 0 ∧ tm_last_cloud_activity_ms (te_timers e') = 0 ∧
  tr_active (te_transfer e') = false ∧ tr_size (te_transfer e') = 0 ∧
  tr_filename (te_transfer e') = [].
Proof.
  split; [ reflexivity | ].
  apply (exit_role_released demo_host 2 31001 idle_exit (demo_world 31001) eq_refl
    (conj eq_refl eq_refl) eq_refl). vm_compute. reflexivity.
Defined.
