(* ===== verification/TransferTelemetry.v ===== *)
(** * Transfer engine: the CSV telemetry (components/mesh/transfer_engine.cpp)

    Once a second a running transfer adds a row to a buffer; a summary row and
    the buffer go to a file on the card when the transfer completes. The
    members only this part uses are the record [Telemetry]; everything a row
    reports is read from the engine, which this part never changes. *)

From Stdlib Require Import ZArith Lia String.
From stdpp Require Import base list numbers option sets.
From S2P Require Import Prelude.
From S2P Require Import CString.
From S2P Require Import Packet.
From S2P Require Import TransferState.
Open Scope Z_scope.
Open Scope flp_scope.

Definition TELEMETRY_CSV_BUFFER_BYTES : Z := 32 * 1024.

Record Telemetry := mk_telemetry {
  tl_buf : option (list Z);         (* telemetry_csv_buf_, telemetry_csv_len_ bytes of it *)
  tl_dropped : bool;
  tl_summary_written : bool;
  tl_path : list Z;
  tl_last_diag_ms : Z;
  tl_last_log_ms : Z;               (* last_telemetry_log_ms_ *)
  tl_last_sent : Z;                 (* last_telemetry_sent_bytes_ *)
  tl_last_acked : Z                 (* last_telemetry_acked_frags_ *)
}.
#[export] Instance eta_Telemetry : Eta Telemetry := fun t =>
  mk_telemetry (tl_buf t) (tl_dropped t) (tl_summary_written t) (tl_path t) (tl_last_diag_ms t)
    (tl_last_log_ms t) (tl_last_sent t) (tl_last_acked t).
Definition telemetry_new : Telemetry := mk_telemetry None false false [] 0 0 0 0.

(** What the outside answers during one call: the allocator, the two opens,
    how much of each write the card takes, and the stack after [line]. *)
Record CsvEnv := mk_csv_env {
  cv_alloc : bool;
  cv_probe : bool;                  (* an existing file opens for reading *)
  cv_append : bool;
  cv_write : list Z → nat;
  cv_stack : list Z
}.

(** The file at [telemetry_csv_path_], which does not change after the first
    transfer; [None] when there is none. *)
Notation CsvFile := (option (list Z)).

(** [telemetry_csv_len_ = 0] *)
Definition empty_buf (t : Telemetry) : Telemetry := t <| tl_buf ::= fmap (fun _ => []) |>.

(** The part of [reset_telemetry] that [TransferState.reset_telemetry] leaves. *)
Definition reset_csv (my_addr now : Z) (t : Telemetry) : Telemetry :=
  empty_buf t <| tl_last_log_ms := now |> <| tl_last_sent := 0 |> <| tl_last_acked := 0 |>
    <| tl_dropped := false |> <| tl_summary_written := false |>
    <| tl_path := str "/sdcard/flp_telemetry_" ++ hex4 true my_addr ++ str ".csv" |>.

Definition ensure_telemetry_csv_buffer (env : CsvEnv) (t : Telemetry) : bool * Telemetry :=
  match tl_buf t with
  | Some _ => (true, t)
  | None => if cv_alloc env then (true, t <| tl_buf := Some [] |>) else (false, t)
  end.

(** The fields with a comma between them, and a line feed. *)
Fixpoint csv_line (fields : list (list Z)) : list Z :=
  match fields with
  | [] => [10]
  | [f] => f ++ [10]
  | f :: fields' => f ++ 44 :: csv_line fields'
  end.

(** [char line[320]] after [snprintf]: at most 319 characters and the
    terminator; [memcpy] of [need] bytes from it runs on into the stack. *)
Definition LINE_SIZE : Z := 320.
Definition line_bytes (text stack : list Z) : list Z :=
  let written := take (Z.to_nat (LINE_SIZE - 1)) text ++ [0] in
  written ++ stack.

(** [need] is what [snprintf] returns: the length of the whole text. *)
Definition add_line (env : CsvEnv) (text : list Z) (t : Telemetry) : Telemetry :=
  let need := Z.of_nat (length text) in
  let buf := default [] (tl_buf t) in
  if Z.of_nat (length buf) + need + 1 >? TELEMETRY_CSV_BUFFER_BYTES
  then t <| tl_dropped := true |>
  else t <| tl_buf := Some (buf ++ take (Z.to_nat need) (line_bytes text (cv_stack env))) |>.

(** The arguments of [append_telemetry_csv_row] besides the result and the
    time; the last four default to zero. *)
Record RowValues := mk_row {
  rw_sent_bytes : Z;
  rw_tx_Bps : Z;
  rw_acked_frags : Z;
  rw_ack_fps : Z;
  rw_inflight : Z;
  rw_mesh_ms : Z;
  rw_cloud_wait_ms : Z;
  rw_e2e_Bps : Z;
  rw_mesh_Bps : Z
}.

Definition HEADER : list Z :=
  str "timestamp_ms,node_addr,role,session_id,file,size_bytes,hops,exits,elapsed_ms,progress_pct,sent_bytes,tx_Bps,acked_frags,ack_fps,inflight,max_inflight,mesh_retx,oow_queued,oow_sent,cong,bp,mesh_ms,cloud_wait_ms,e2e_Bps,mesh_Bps,result"
  ++ [10].

(** [fwrite], whose result the code ignores. *)
Definition fwrite (env : CsvEnv) (data : list Z) : list Z := take (cv_write env data) data.

Definition flush_telemetry_csv (env : CsvEnv) (file : CsvFile) (t : Telemetry) : CsvFile * Telemetry :=
  match tl_buf t, tl_path t with
  | Some (b :: buf), _ :: _ =>
      let needs_header := negb (bool_decide (is_Some file) && cv_probe env) in
      if cv_append env then
        let f := default [] file in
        let f := if needs_header then f ++ fwrite env HEADER else f in
        (Some (f ++ fwrite env (b :: buf)), empty_buf t <| tl_dropped := false |>)
      else (file, t)
  | _, _ => (file, t)
  end.

Section rows.
Context {W : Type}.
Implicit Types (e : Engine W) (t : Telemetry).

Definition role_name e : list Z :=
  if te_local_exit e then str "local_exit"
  else if er_is_exit_node (te_role e) then str "exit" else str "source".

Definition elapsed_ms (now : Z) e : Z :=
  let start := tm_transfer_start_ms (te_timers e) in
  if (start >? 0) && (now >=? start) then now - start else 0.

Definition row_fields (result : list Z) (now : Z) (r : RowValues) e : list (list Z) :=
  let tr := te_transfer e in
  let c := te_counters e in
  [ dec now; str "0x" ++ hex4 true (te_my_addr e); role_name e; dec (tr_session_id tr);
    tr_filename tr; dec (tr_size tr); dec (tm_hops_est (te_timers e)); dec (tr_exit_node_count tr);
    dec (elapsed_ms now e); dec (get_progress_pct e); dec (rw_sent_bytes r); dec (rw_tx_Bps r);
    dec (rw_acked_frags r); dec (rw_ack_fps r); dec (rw_inflight r); dec (ct_max_inflight c);
    dec (ct_mesh_retx_sent c); dec (ct_oow_queued c); dec (ct_oow_sent c);
    dec (cg_total_events (te_cong e)); dec (cg_total_backpressure (te_cong e)); dec (rw_mesh_ms r);
    dec (rw_cloud_wait_ms r); dec (rw_e2e_Bps r); dec (rw_mesh_Bps r); result ].

Definition append_telemetry_csv_row (env : CsvEnv) (result : list Z) (now : Z) (r : RowValues) e t
    : Telemetry :=
  let '(ok, t) := ensure_telemetry_csv_buffer env t in
  if negb ok then t else add_line env (csv_line (row_fields result now r e)) t.

Definition per_second (n ms : Z) : Z := u32 (n * 1000 / ms).

Definition log_transfer_summary (env : CsvEnv) (result : list Z) (now : Z) e (file : CsvFile) t
    : CsvFile * Telemetry :=
  let start := tm_transfer_start_ms (te_timers e) in
  let done := tm_mesh_upload_done_ms (te_timers e) in
  let size := tr_size (te_transfer e) in
  if (start =? 0) || (size =? 0) then (file, t)
  else
    let total_ms := u32 (now - start) in
    let total_ms := if total_ms =? 0 then 1 else total_ms in
    let mesh_ms := if done >? start then done - start else total_ms in
    let mesh_ms := if mesh_ms =? 0 then 1 else mesh_ms in
    let cloud_wait_ms := if (done >? 0) && (now >? done) then now - done else 0 in
    let e2e_Bps := per_second size total_ms in
    let mesh_Bps := per_second size mesh_ms in
    let t := append_telemetry_csv_row env result now
               (mk_row size mesh_Bps (total_acked_fragments e) 0 0 mesh_ms cloud_wait_ms e2e_Bps mesh_Bps)
               e t in
    let '(file, t) := flush_telemetry_csv env file t in
    (file, t <| tl_summary_written := true |>).

Definition current_inflight e : Z :=
  if te_local_exit e then u16 (ca_next_send (te_cloud e) - ca_base_seq (te_cloud e))
  else total_mesh_inflight e.

Definition log_transfer_diag (env : CsvEnv) (now : Z) e t : Telemetry :=
  if negb (tr_active (te_transfer e)) then t
  else if negb (tl_last_diag_ms t =? 0) && (u32 (now - tl_last_diag_ms t) <? 1000) then t
  else
    let t := t <| tl_last_diag_ms := now |> in
    let sent_bytes := bytes_from_seq_progress (tr_next_fragment (te_transfer e)) e in
    let acked_frags := total_acked_fragments e in
    let delta_ms := if (tl_last_log_ms t >? 0) && (now >? tl_last_log_ms t)
                    then now - tl_last_log_ms t else 1000 in
    let delta_ms := if delta_ms =? 0 then 1 else delta_ms in
    let delta_sent := u32 (sent_bytes - tl_last_sent t) in
    let delta_acked := u32 (acked_frags - tl_last_acked t) in
    let t := append_telemetry_csv_row env (str "periodic") now
               (mk_row sent_bytes (per_second delta_sent delta_ms) acked_frags
                  (per_second delta_acked delta_ms) (current_inflight e) 0 0 0 0) e t in
    t <| tl_last_log_ms := now |> <| tl_last_sent := sent_bytes |> <| tl_last_acked := acked_frags |>.

(** What [reset_sender_transfer_state] does here: it flushes the rows of a
    transfer that ended without a summary. *)
Definition reset_sender_telemetry (env : CsvEnv) (file : CsvFile) t : CsvFile * Telemetry :=
  let '(file, t) := if tl_summary_written t then (file, t) else flush_telemetry_csv env file t in
  (file, t <| tl_last_diag_ms := 0 |> <| tl_last_log_ms := 0 |> <| tl_last_sent := 0 |>
           <| tl_last_acked := 0 |> <| tl_summary_written := false |>).

(** The calls the engine makes, each with what it then finds. *)
Inductive CsvOp :=
  | Start (now : Z)
  | Diag (env : CsvEnv) (now : Z) (e : Engine W)
  | Summary (env : CsvEnv) (now : Z) (e : Engine W)
  | Reset (env : CsvEnv).

Definition csv_step (my_addr : Z) (op : CsvOp) (s : CsvFile * Telemetry) : CsvFile * Telemetry :=
  let '(file, t) := s in
  match op with
  | Start now => (file, reset_csv my_addr now t)
  | Diag env now e => (file, log_transfer_diag env now e t)
  | Summary env now e => log_transfer_summary env (str "complete") now e file t
  | Reset env => reset_sender_telemetry env file t
  end.
Definition csv_run (my_addr : Z) (ops : list CsvOp) (s : CsvFile * Telemetry) : CsvFile * Telemetry :=
  foldl (fun s op => csv_step my_addr op s) s ops.
End rows.
Arguments CsvOp : clear implicits.

(** ** Reading a CSV file *)

(** Rows of cells; [cell] and [row] are what the current line has so far. *)
Fixpoint parse_csv (s cell : list Z) (row : list (list Z)) : list (list (list Z)) :=
  match s with
  | [] => match row, cell with [], [] => [] | _, _ => [row ++ [cell]] end
  | c :: s' =>
      if c =? 10 then (row ++ [cell]) :: parse_csv s' [] []
      else if c =? 44 then parse_csv s' [] (row ++ [cell])
      else parse_csv s' (cell ++ [c]) row
  end.

Definition header_fields : list (list Z) :=
  map str ["timestamp_ms"; "node_addr"; "role"; "session_id"; "file"; "size_bytes"; "hops"; "exits";
           "elapsed_ms"; "progress_pct"; "sent_bytes"; "tx_Bps"; "acked_frags"; "ack_fps"; "inflight";
           "max_inflight"; "mesh_retx"; "oow_queued"; "oow_sent"; "cong"; "bp"; "mesh_ms";
           "cloud_wait_ms"; "e2e_Bps"; "mesh_Bps"; "result"]%string.

Definition clean_char (c : Z) : Prop := c ≠ 44 ∧ c ≠ 10.
Notation clean := (Forall clean_char).

Lemma HEADER_fields : HEADER = csv_line header_fields.
Proof. reflexivity. Qed.

Lemma parse_cell f s cell row :
  clean f → parse_csv (f ++ s) cell row = parse_csv s (cell ++ f) row.
Proof.
  intros Hf. revert cell. induction Hf as [ | c f [H44 H10] _ IH ]; intros cell.
  - by rewrite app_nil_r.
  - cbn [app parse_csv]. rewrite (proj2 (Z.eqb_neq _ _) H10), (proj2 (Z.eqb_neq _ _) H44), IH.
    by rewrite <- (assoc_L (++)).
Qed.

Lemma parse_line_from fs f row s :
  Forall clean (f :: fs) → parse_csv (csv_line (f :: fs) ++ s) [] row = (row ++ f :: fs) :: parse_csv s [] [].
Proof.
  revert f row. induction fs as [ | g fs IH ]; intros f row [Hf Hfs]%Forall_cons_1.
  - cbn [csv_line]. rewrite <- app_assoc, parse_cell by done. reflexivity.
  - change (csv_line (f :: g :: fs)) with (f ++ 44 :: csv_line (g :: fs)).
    rewrite <- app_assoc, parse_cell by done. cbn [app]. cbn [parse_csv].
    change (44 =? 10) with false. change (44 =? 44) with true. cbv iota. cbn [app].
    rewrite IH by done. by rewrite <- app_assoc.
Qed.

Lemma parse_lines rows :
  Forall (fun fs => fs ≠ [] ∧ Forall clean fs) rows →
  parse_csv (concat (map csv_line rows)) [] [] = rows.
Proof.
  induction 1 as [ | [ | f fs ] rows [Hne Hfs] _ IH ]; [ done | done | ].
  cbn [map concat]. rewrite parse_line_from by done. by rewrite IH.
Qed.

Lemma length_csv_line fs : fs ≠ [] → length (csv_line fs) = (sum_list (map length fs) + length fs)%nat.
Proof.
  induction fs as [ | f [ | g fs ] IH ]; intros Hne; [ done | | ].
  - cbn [csv_line map sum_list]. rewrite length_app. cbn. lia.
  - change (csv_line (f :: g :: fs)) with (f ++ 44 :: csv_line (g :: fs)).
    rewrite length_app. cbn [length]. rewrite IH by done. cbn [map sum_list_with length id]. lia.
Qed.

(** ** Rows *)

Lemma dec_clean z : clean (dec z).
Proof. eapply Forall_impl; [ apply dec_no_nul | ]. unfold clean_char. cbn. lia. Qed.

Lemma hex4_clean z : clean (hex4 true z).
Proof.
  unfold hex4. cbn [map]. rewrite !Forall_cons. split_and!; [ .. | by apply Forall_nil ];
    unfold hex_digit, clean_char; case_match; lia.
Qed.

Lemma literal_clean (l : list Z) : forallb (fun c => negb (c =? 44) && negb (c =? 10)) l = true → clean l.
Proof.
  intros H. apply Forall_forall. intros c Hc. rewrite forallb_forall in H.
  apply list_elem_of_In in Hc. specialize (H c Hc). unfold clean_char. lia.
Qed.

Section proofs.
Context {W : Type}.
Implicit Types (e : Engine W) (t : Telemetry).

(** What the members a row reads hold by their C types. *)
Record fields_ok e : Prop := {
  fo_filename : (length (tr_filename (te_transfer e)) <= 32)%nat;
  fo_addr : is_u16 (te_my_addr e);
  fo_session : is_u16 (tr_session_id (te_transfer e));
  fo_size : is_u32 (tr_size (te_transfer e));
  fo_hops : is_u8 (tm_hops_est (te_timers e));
  fo_exits : is_u8 (tr_exit_node_count (te_transfer e));
  fo_start : is_u32 (tm_transfer_start_ms (te_timers e));
  fo_done : is_u32 (tm_mesh_upload_done_ms (te_timers e));
  fo_inflight : is_u16 (ct_max_inflight (te_counters e));
  fo_base : is_u16 (ca_base_seq (te_cloud e));
  fo_retx : is_u32 (ct_mesh_retx_sent (te_counters e));
  fo_oow : is_u32 (ct_oow_queued (te_counters e));
  fo_oow_sent : is_u32 (ct_oow_sent (te_counters e));
  fo_cong : is_u32 (cg_total_events (te_cong e));
  fo_bp : is_u32 (cg_total_backpressure (te_cong e))
}.

Record row_ok (r : RowValues) : Prop := {
  ro_sent : is_u32 (rw_sent_bytes r);
  ro_tx : is_u32 (rw_tx_Bps r);
  ro_acked : is_u32 (rw_acked_frags r);
  ro_fps : is_u32 (rw_ack_fps r);
  ro_inflight : is_u16 (rw_inflight r);
  ro_mesh : is_u32 (rw_mesh_ms r);
  ro_cloud : is_u32 (rw_cloud_wait_ms r);
  ro_e2e : is_u32 (rw_e2e_Bps r);
  ro_mesh_Bps : is_u32 (rw_mesh_Bps r)
}.

Lemma dec_u32_len z : is_u32 z → (length (dec z) <= 10)%nat.
Proof. intros. apply length_dec_bound; [ unfold is_u32 in *; change (10 ^ Z.of_nat 10) with 10000000000; lia | lia ]. Qed.
Lemma dec_u16_len z : is_u16 z → (length (dec z) <= 5)%nat.
Proof. intros. apply length_dec_bound; [ unfold is_u16 in *; change (10 ^ Z.of_nat 5) with 100000; lia | lia ]. Qed.
Lemma dec_u8_len z : is_u8 z → (length (dec z) <= 3)%nat.
Proof. intros. apply length_dec_bound; [ unfold is_u8 in *; change (10 ^ Z.of_nat 3) with 1000; lia | lia ]. Qed.

Lemma sum_list_le (l k : list nat) : Forall2 le l k → (sum_list l <= sum_list k)%nat.
Proof. induction 1; cbn; lia. Qed.

Lemma elapsed_u32 now e : is_u32 now → is_u32 (tm_transfer_start_ms (te_timers e)) → is_u32 (elapsed_ms now e).
Proof. unfold elapsed_ms, is_u32. intros. cbv zeta. case_match; lia. Qed.

(** No row is longer than 266 characters, so [line] always holds it whole. *)
Lemma row_length result now r e :
  fields_ok e → row_ok r → is_u32 now → (length result <= 8)%nat →
  (length (csv_line (row_fields result now r e)) <= 266)%nat.
Proof.
  intros He Hr Hnow Hres. rewrite length_csv_line by done.
  assert (Hrole : (length (role_name e) <= 10)%nat).
  { unfold role_name. destruct (te_local_exit e), (er_is_exit_node (te_role e)); cbn; lia. }
  enough (Hs : (sum_list (map length (row_fields result now r e))
    <= sum_list [10; 6; 10; 5; 32; 10; 3; 3; 10; 3; 10; 10; 10; 10; 5; 5; 10; 10; 10; 10; 10; 10; 10; 10; 10; 8])%nat)
    by (cbn [row_fields length]; cbv zeta; cbn [map sum_list_with length id] in Hs |- *; lia).
  apply sum_list_le. unfold row_fields. cbv zeta. cbn [map]. destruct He, Hr.
  repeat apply Forall2_cons_2; try apply Forall2_nil_2; try done;
    try (by apply dec_u32_len); try (by apply dec_u16_len); try (by apply dec_u8_len).
  - by apply dec_u32_len, elapsed_u32.
  - apply dec_u8_len, progress_u8.
Qed.

Lemma fold_u32 {A} (f : Z → A → Z) l : is_u32 (fold_left (fun total i => u32 (f total i)) l 0).
Proof.
  enough (H : ∀ z, is_u32 z → is_u32 (fold_left (fun total i => u32 (f total i)) l z))
    by (apply H; unfold is_u32; lia).
  induction l as [ | a l IH ]; intros z Hz; cbn; [ done | ]. apply IH, u32_range.
Qed.

Lemma total_acked_u32 e : fields_ok e → is_u32 (total_acked_fragments e).
Proof.
  intros He. unfold total_acked_fragments. case_match; [ | apply fold_u32 ].
  pose proof (fo_base e He). unfold is_u16, is_u32 in *. lia.
Qed.

Lemma sent_u32 seq e : fields_ok e → is_u32 (bytes_from_seq_progress seq e).
Proof.
  intros He. unfold bytes_from_seq_progress. cbv zeta. case_match; [ apply (fo_size e He) | apply u32_range ].
Qed.

Lemma inflight_u16 e : is_u16 (current_inflight e).
Proof.
  unfold current_inflight. case_match; [ apply u16_range | ]. unfold total_mesh_inflight.
  enough (Hf : ∀ l z, is_u16 z → is_u16 (fold_left (fun total i =>
    u16 (total + SelectiveRepeat.sender_window_used (aget (te_arq e) i))) l z))
    by (apply Hf; unfold is_u16; lia).
  induction l as [ | a l IH ]; intros z Hz; cbn; [ done | ]. apply IH, u16_range.
Qed.

(** ** What the telemetry does, row by row *)

(** The text [row] is what call [op] reports. *)
Definition reports (op : CsvOp W) (row : list (list Z)) : Prop :=
  match op with
  | Diag _ now e =>
      ∃ r, row = row_fields (str "periodic") now r e ∧ row_ok r ∧
        rw_sent_bytes r = bytes_from_seq_progress (tr_next_fragment (te_transfer e)) e ∧
        rw_acked_frags r = total_acked_fragments e ∧ rw_inflight r = current_inflight e
  | Summary _ now e =>
      ∃ r, row = row_fields (str "complete") now r e ∧ row_ok r ∧
        rw_sent_bytes r = tr_size (te_transfer e) ∧ rw_acked_frags r = total_acked_fragments e
  | _ => False
  end.

(** A card that opens a file for appending can also read it, and takes what it
    is given. *)
Definition card_ok (env : CsvEnv) : Prop :=
  cv_append env = true → cv_probe env = true ∧ ∀ d, (length d <= cv_write env d)%nat.

Definition op_ok (op : CsvOp W) : Prop :=
  match op with
  | Start now => is_u32 now
  | Diag _ now e => is_u32 now ∧ fields_ok e ∧ clean (tr_filename (te_transfer e))
  | Summary env now e => card_ok env ∧ is_u32 now ∧ fields_ok e ∧ clean (tr_filename (te_transfer e))
  | Reset env => card_ok env
  end.

(** A row in [buf] after [append_telemetry_csv_row], when it is there and
    there was room. *)
Definition added (env : CsvEnv) (line : list Z) t t' : Prop :=
  let buf := default [] (tl_buf t) in
  tl_summary_written t' = tl_summary_written t ∧ tl_path t' = tl_path t ∧
  (tl_buf t' = tl_buf t ∨ tl_buf t' = Some buf ∨ tl_buf t' = Some (buf ++ line)) ∧
  (is_Some (tl_buf t) ∨ cv_alloc env = true →
   Z.of_nat (length buf) + 267 <= TELEMETRY_CSV_BUFFER_BYTES → tl_buf t' = Some (buf ++ line)).

Lemma add_line_added env line b t :
  (length line <= 266)%nat → tl_buf t = Some b → added env line t (add_line env line t).
Proof.
  intros Hlen Hb. unfold added, add_line. rewrite Hb. change (default [] (Some b)) with b. cbv zeta.
  assert (Hline : take (Z.to_nat (Z.of_nat (length line))) (line_bytes line (cv_stack env)) = line).
  { rewrite Nat2Z.id. unfold line_bytes. cbv zeta. rewrite (take_ge line) by (unfold LINE_SIZE; lia).
    rewrite <- app_assoc. apply take_app_length. }
  rewrite Hline.
  destruct (Z.gtb_spec (Z.of_nat (length b) + Z.of_nat (length line) + 1) TELEMETRY_CSV_BUFFER_BYTES);
    cbn [tl_buf tl_summary_written tl_path]; rewrite ?Hb; split_and!; auto. intros _ ?. lia.
Qed.

Lemma append_row env result now r e t :
  fields_ok e → row_ok r → is_u32 now → (length result <= 8)%nat →
  added env (csv_line (row_fields result now r e)) t (append_telemetry_csv_row env result now r e t).
Proof.
  intros He Hr Hnow Hres. pose proof (row_length result now r e He Hr Hnow Hres) as Hlen.
  unfold append_telemetry_csv_row, ensure_telemetry_csv_buffer.
  generalize dependent (csv_line (row_fields result now r e)). intros line Hlen.
  destruct (tl_buf t) as [b | ] eqn:Hb; [ by apply (add_line_added _ _ b) | ].
  destruct (cv_alloc env) eqn:Ha; cbn [negb].
  - set (t0 := t <| tl_buf := Some [] |>).
    destruct (add_line_added env line [] t0 Hlen eq_refl) as (? & ? & Hor & Hadd).
    unfold added. rewrite Hb. change (default [] None) with (@nil Z). change (default [] (tl_buf t0)) with (@nil Z) in *.
    change (tl_buf t0) with (Some (@nil Z)) in *.
    split_and!; [ done | done | | intros _; by apply Hadd; left ]. naive_solver.
  - unfold added. rewrite Hb. split_and!; auto. intros [[? Hx] | Hx]; congruence.
Qed.

Definition buffered t : list Z := default [] (tl_buf t).

Lemma added_buffered env line t t' :
  added env line t t' → buffered t' = buffered t ∨ buffered t' = buffered t ++ line.
Proof.
  unfold added, buffered. cbv zeta. intros (_ & _ & Hor & _).
  destruct Hor as [-> | [-> | ->]]; auto.
Qed.

Lemma flush_cases env file t :
  card_ok env →
  let '(file', t') := flush_telemetry_csv env file t in
  (file' = file ∧ t' = t) ∨
  (cv_append env = true ∧ file' = Some (default HEADER file ++ buffered t) ∧ buffered t' = [] ∧
   is_Some (tl_buf t')).
Proof.
  intros Hcard. unfold flush_telemetry_csv, buffered.
  destruct (tl_buf t) as [[ | b buf ] | ] eqn:Hb; [ by left | | by left ].
  destruct (tl_path t); [ by left | ]. cbv zeta. destruct (cv_append env) eqn:Ha; [ | by left ].
  destruct (Hcard Ha) as [Hp Hw]. unfold fwrite. rewrite !take_ge by apply Hw. right.
  split; [ done | ]. rewrite Hp. unfold empty_buf. cbn. rewrite Hb. cbn.
  by destruct file.
Qed.

Lemma per_second_u32 n ms : is_u32 (per_second n ms).
Proof. apply u32_range. Qed.

Lemma summary_row_ok e e2e total mesh cloud :
  fields_ok e → is_u32 mesh → is_u32 cloud → is_u32 e2e →
  row_ok (mk_row (tr_size (te_transfer e)) (per_second (tr_size (te_transfer e)) mesh)
            (total_acked_fragments e) 0 0 mesh cloud e2e (per_second total mesh)).
Proof.
  intros He Hm Hc Hn. split; cbn [rw_sent_bytes rw_tx_Bps rw_acked_frags rw_ack_fps rw_inflight rw_mesh_ms
    rw_cloud_wait_ms rw_e2e_Bps rw_mesh_Bps]; try apply per_second_u32; try done.
  - apply (fo_size e He).
  - by apply total_acked_u32.
Qed.

(** A call either leaves the buffer alone or adds what it reports. *)
Lemma diag_cases env now e t :
  is_u32 now → fields_ok e →
  buffered (log_transfer_diag env now e t) = buffered t ∨
  ∃ row, reports (Diag env now e) row ∧
    buffered (log_transfer_diag env now e t) = buffered t ++ csv_line row.
Proof.
  intros Hnow He. unfold log_transfer_diag. destruct (negb (tr_active _)); [ by left | ].
  destruct (_ && _); [ by left | ]. cbv zeta.
  match goal with |- context [append_telemetry_csv_row env _ now ?r e ?t0] =>
    set (rv := r); set (t1 := t0);
    assert (Hr : row_ok rv) end.
  { split; cbn; try apply per_second_u32; try (unfold is_u32; lia);
      [ by apply sent_u32 | by apply total_acked_u32 | apply inflight_u16 ]. }
  destruct (added_buffered _ _ _ _ (append_row env (str "periodic") now rv e t1 He Hr Hnow
              ltac:(cbn; lia))) as [H | H].
  - left. exact H.
  - right. eexists. split; [ | exact H ]. exists rv. done.
Qed.

Lemma summary_cases env now e file t :
  is_u32 now → fields_ok e → card_ok env →
  let '(file', t') := log_transfer_summary env (str "complete") now e file t in
  (file' = file ∧ buffered t' = buffered t) ∨
  ∃ t1, (buffered t1 = buffered t ∨
         ∃ row, reports (Summary env now e) row ∧ buffered t1 = buffered t ++ csv_line row) ∧
    ((file' = file ∧ buffered t' = buffered t1) ∨
     (file' = Some (default HEADER file ++ buffered t1) ∧ buffered t' = [])).
Proof.
  intros Hnow He Hcard. unfold log_transfer_summary. destruct (_ || _); [ by left | ]. cbv zeta.
  match goal with |- context [append_telemetry_csv_row env _ now ?r e ?t0] =>
    set (rv := r); assert (Hr : row_ok rv) end.
  { apply summary_row_ok; [ done | | | apply per_second_u32 ].
    - pose proof (fo_done e He). pose proof (fo_start e He). unfold is_u32 in *.
      repeat case_match; try lia. apply u32_range.
    - pose proof (fo_done e He). unfold is_u32 in *. case_match; lia. }
  pose proof (added_buffered _ _ _ _ (append_row env (str "complete") now rv e t He Hr Hnow
              ltac:(cbn; lia))) as Hadd.
  set (t1 := append_telemetry_csv_row _ _ _ _ _ _) in *.
  pose proof (flush_cases env file t1 Hcard) as Hf.
  destruct (flush_telemetry_csv env file t1) as [file' t'].
  right. exists t1. split.
  - destruct Hadd as [H | H]; [ by left | right ]. eexists. split; [ | exact H ]. by exists rv.
  - destruct Hf as [[-> ->] | (_ & -> & Hb & _)]; [ by left | by right ].
Qed.

Lemma row_fields_clean result now r e :
  clean result → clean (tr_filename (te_transfer e)) → Forall clean (row_fields result now r e).
Proof.
  intros Hres Hname. unfold row_fields. cbv zeta. rewrite !Forall_cons.
  split_and!; try apply dec_clean; try done.
  - apply Forall_app. split; [ by apply literal_clean | apply hex4_clean ].
  - unfold role_name. destruct (te_local_exit e), (er_is_exit_node (te_role e)); by apply literal_clean.
Qed.

Lemma reports_clean op row :
  op_ok op → reports op row → length row = 26%nat ∧ row ≠ [] ∧ Forall clean row.
Proof.
  intros Hop Hrep. destruct op as [ | env now e | env now e | ]; try done; destruct Hrep as (r & -> & _);
    cbn in Hop; (split; [ done | split; [ done | ] ]);
    (apply row_fields_clean; [ by apply literal_clean | tauto ]).
Qed.

(** Two lists of reported rows: those in the file, and those in the buffer. *)
Definition log_inv (seen : list (CsvOp W)) (s : CsvFile * Telemetry) : Prop :=
  ∃ sops saved pops pending,
    (sops ++ pops) `sublist_of` seen ∧ Forall2 reports sops saved ∧ Forall2 reports pops pending ∧
    ((s.1 = None ∧ saved = []) ∨ s.1 = Some (HEADER ++ concat (map csv_line saved))) ∧
    buffered s.2 = concat (map csv_line pending).

(** The invariant depends on the telemetry through the buffer only. *)
Lemma log_inv_ext seen op file t t' :
  buffered t' = buffered t → log_inv seen (file, t) → log_inv (seen ++ [op]) (file, t').
Proof.
  intros Hb (sops & saved & pops & pending & Hs & H). exists sops, saved, pops, pending.
  cbn [fst snd] in *. rewrite Hb. split; [ by apply sublist_inserts_r | done ].
Qed.

Lemma log_inv_add seen op row file t t' :
  reports op row → buffered t' = buffered t ++ csv_line row →
  log_inv seen (file, t) → log_inv (seen ++ [op]) (file, t').
Proof.
  intros Hrep Hb (sops & saved & pops & pending & Hs & H1 & H2 & Hf & Hp).
  exists sops, saved, (pops ++ [op]), (pending ++ [row]). cbn [fst snd] in *. split_and!; try done.
  - rewrite (assoc_L (++)). by apply sublist_app.
  - apply Forall2_app; [ done | by constructor ].
  - rewrite Hb, Hp, map_app, concat_app. cbn [map concat]. by rewrite app_nil_r.
Qed.

Lemma log_inv_flush seen file t t' :
  buffered t' = [] → log_inv seen (file, t) →
  log_inv seen (Some (default HEADER file ++ buffered t), t').
Proof.
  intros Hb (sops & saved & pops & pending & Hs & H1 & H2 & Hf & Hp).
  exists (sops ++ pops), (saved ++ pending), [], []. cbn [fst snd] in *. split_and!; try done.
  - by rewrite app_nil_r.
  - by apply Forall2_app.
  - right. rewrite Hp, map_app, concat_app. destruct Hf as [[-> ->] | ->]; [ done | ].
    cbn [default from_option id]. by rewrite (assoc_L (++)).
Qed.

Lemma csv_step_inv addr seen op s :
  op_ok op → log_inv seen s → log_inv (seen ++ [op]) (csv_step addr op s).
Proof.
  destruct s as [file t]. intros Hop Hinv.
  assert (Hflush : ∀ env t1, card_ok env → log_inv (seen ++ [op]) (file, t1) →
    log_inv (seen ++ [op]) (flush_telemetry_csv env file t1)).
  { intros env t1 Hcard H1. pose proof (flush_cases env file t1 Hcard) as Hc.
    destruct (flush_telemetry_csv env file t1) as [file' t'].
    destruct Hc as [[-> ->] | (_ & -> & Hb & _)]; [ done | by apply log_inv_flush ]. }
  destruct op as [ now | env now e | env now e | env ]; cbn [csv_step].
  - destruct Hinv as (sops & saved & pops & pending & Hs & H1 & H2 & Hf & Hp).
    exists sops, saved, [], []. cbn [fst snd] in *. split_and!; try done.
    + rewrite app_nil_r. apply sublist_inserts_r. etrans; [ | exact Hs ]. by apply sublist_inserts_r.
    + unfold buffered. cbn. by destruct (tl_buf t).
  - destruct Hop as (Hnow & He & _).
    destruct (diag_cases env now e t Hnow He) as [Hb | (row & Hr & Hb)];
      [ by eapply log_inv_ext | by eapply log_inv_add ].
  - destruct Hop as (Hcard & Hnow & He & _).
    pose proof (summary_cases env now e file t Hnow He Hcard) as Hc.
    destruct (log_transfer_summary _ _ _ _ _ _) as [file' t'].
    destruct Hc as [[-> Hb] | (t1 & Ht1 & Hc)]; [ by eapply log_inv_ext | ].
    assert (H1 : log_inv (seen ++ [Summary env now e]) (file, t1)).
    { destruct Ht1 as [Hb | (row & Hr & Hb)]; [ by eapply log_inv_ext | by eapply log_inv_add ]. }
    destruct Hc as [[-> Hb] | [-> Hb]]; [ | by apply log_inv_flush ].
    destruct H1 as (? & ? & ? & ? & H1). do 4 eexists. cbn [fst snd] in *. rewrite Hb. exact H1.
  - unfold reset_sender_telemetry. destruct (tl_summary_written t); [ by eapply log_inv_ext | ].
    pose proof (Hflush env t Hop) as H1. destruct (flush_telemetry_csv env file t) as [file' t'].
    apply H1. by apply (log_inv_ext seen _ file t).
Qed.

(** C31: the telemetry file is always a well-formed table. Through any calls of
    the engine in any order (transfers started, ticked, completed and
    abandoned, with any members of their C types), whatever allocations fail
    and whether or not the card is there each time, the file is absent or
    parses as the header and rows of 26 cells; the rows are the reports of
    some of the calls, whole, in their order and none twice. A row that does
    not fit the buffer is left out whole, and the 320-byte line is never
    overrun, so nothing of the stack gets into the file. The conditions
    ([op_ok]): the file names are free of commas and line feeds (one with a
    comma does break its row, [comma_breaks_row]), and a card that opens the
    file for appending can also read it and takes each write whole. *)
Theorem csv_file_parses addr ops :
  Forall op_ok ops →
  let file := (csv_run addr ops (None, telemetry_new)).1 in
  file = None ∨
  ∃ f reported saved, file = Some f ∧ parse_csv f [] [] = header_fields :: saved ∧
    Forall (fun row => length row = 26%nat) saved ∧
    reported `sublist_of` ops ∧ Forall2 reports reported saved.
Proof.
  intros Hops file. subst file.
  assert (Hinv : log_inv ops (csv_run addr ops (None, telemetry_new))).
  { induction ops as [ | op ops IH ] using rev_ind.
    - exists [], [], [], []. split_and!; try done. by left.
    - apply Forall_app in Hops as [Hops Hop]. apply Forall_cons_1 in Hop as [Hop _]. unfold csv_run. rewrite foldl_snoc.
      change (log_inv (ops ++ [op]) (csv_step addr op (csv_run addr ops (None, telemetry_new)))).
      apply csv_step_inv; [ exact Hop | ]. by apply IH. }
  destruct Hinv as (sops & saved & pops & pending & Hs & Hrep & _ & Hf & _).
  destruct Hf as [[-> _] | Hf]; [ by left | right ].
  assert (Hsub : sops `sublist_of` ops) by (etrans; [ | exact Hs ]; by apply sublist_inserts_r).
  assert (Hclean : Forall (fun row => length row = 26%nat ∧ row ≠ [] ∧ Forall clean row) saved).
  { apply Forall_forall. intros row Hrow. apply list_elem_of_lookup in Hrow as [i Hi].
    destruct (Forall2_lookup_r _ _ _ _ _ Hrep Hi) as (op & Hop & Hr).
    apply (reports_clean op); [ | done ]. rewrite Forall_forall in Hops. apply Hops.
    eapply elem_of_sublist, Hsub. by eapply list_elem_of_lookup_2. }
  exists (HEADER ++ concat (map csv_line saved)), sops, saved. split; [ exact Hf | ].
  split_and!; try done.
  - rewrite HEADER_fields. change (csv_line header_fields ++ concat (map csv_line saved))
      with (concat (map csv_line (header_fields :: saved))).
    apply parse_lines. constructor; [ | by eapply Forall_impl; [ exact Hclean | ]; intros ? (_ & ?) ].
    split; [ done | ]. by repeat (constructor; [ by apply literal_clean | ]).
  - eapply Forall_impl; [ exact Hclean | ]. by intros ? [? _].
Qed.

(** ** One transfer *)

(** The ticks of a running transfer, at least a second apart after [last]. *)
Fixpoint ticks_ok (last : Z) (ticks : list (CsvEnv * Z * Engine W)) : Prop :=
  match ticks with
  | [] => True
  | (env, now, e) :: ticks' =>
      (last = 0 ∨ last + 1000 <= now) ∧ 0 < now ∧ is_u32 now ∧ fields_ok e ∧
      tr_active (te_transfer e) = true ∧ cv_alloc env = true ∧ ticks_ok now ticks'
  end.
Definition diag_op (tick : CsvEnv * Z * Engine W) : CsvOp W :=
  let '(env, now, e) := tick in Diag env now e.

(** [t'] is [t] with a row more. *)
Definition one_row (op : CsvOp W) t t' : Prop :=
  ∃ row, reports op row ∧ buffered t' = buffered t ++ csv_line row ∧
    (length (csv_line row) <= 266)%nat ∧ is_Some (tl_buf t') ∧ tl_path t' = tl_path t.

Lemma one_row_added env op result now r e t t' :
  reports op (row_fields result now r e) → fields_ok e → row_ok r → is_u32 now →
  (length result <= 8)%nat → cv_alloc env = true →
  Z.of_nat (length (buffered t)) + 267 <= TELEMETRY_CSV_BUFFER_BYTES →
  t' = append_telemetry_csv_row env result now r e t → one_row op t t'.
Proof.
  intros Hrep He Hr Hnow Hres Ha Hroom ->.
  destruct (append_row env result now r e t He Hr Hnow Hres) as (_ & Hpath & _ & Hb).
  specialize (Hb (or_intror Ha) Hroom). exists (row_fields result now r e). unfold buffered at 1. rewrite Hb.
  split_and!; try done. by apply row_length.
Qed.

Lemma diag_adds env now e t :
  is_u32 now → fields_ok e → tr_active (te_transfer e) = true → cv_alloc env = true →
  tl_last_diag_ms t = 0 ∨ tl_last_diag_ms t + 1000 <= now → 0 <= tl_last_diag_ms t →
  Z.of_nat (length (buffered t)) + 267 <= TELEMETRY_CSV_BUFFER_BYTES →
  one_row (Diag env now e) t (log_transfer_diag env now e t) ∧
  tl_last_diag_ms (log_transfer_diag env now e t) = now.
Proof.
  intros Hnow He Hact Ha Hlast Hpos Hroom. unfold log_transfer_diag. rewrite Hact. cbn [negb].
  replace (negb (tl_last_diag_ms t =? 0) && (u32 (now - tl_last_diag_ms t) <? 1000)) with false.
  2: { symmetry. apply andb_false_iff. destruct Hlast as [-> | Hl]; [ by left | right ].
       unfold is_u32 in Hnow. rewrite u32_small by (unfold is_u32; lia). lia. }
  cbv zeta.
  match goal with |- context [append_telemetry_csv_row env _ now ?r e ?t0] =>
    set (rv := r); set (t1 := t0); assert (Hr : row_ok rv) end.
  { split; cbn; try apply per_second_u32; try (unfold is_u32; lia);
      [ by apply sent_u32 | by apply total_acked_u32 | apply inflight_u16 ]. }
  assert (H1 : one_row (Diag env now e) t1 (append_telemetry_csv_row env (str "periodic") now rv e t1)).
  { eapply one_row_added; try done; [ by exists rv | cbn; lia ]. }
  split; [ exact H1 | ].
  clear. unfold append_telemetry_csv_row, ensure_telemetry_csv_buffer, add_line.
  subst t1. cbn [tl_buf]. by repeat case_match; simplify_eq.
Qed.

(** [t'] is [t] with these rows more. *)
Definition rows_added (ops : list (CsvOp W)) rows t t' : Prop :=
  Forall2 reports ops rows ∧ buffered t' = buffered t ++ concat (map csv_line rows) ∧
  (length (buffered t') <= length (buffered t) + 266 * length rows)%nat ∧ tl_path t' = tl_path t.

Lemma rows_added_nil t : rows_added [] [] t t.
Proof. split_and!; [ done | by rewrite app_nil_r | cbn; lia | done ]. Qed.

Lemma rows_added_cons op ops rows t t1 t' :
  one_row op t t1 → rows_added ops rows t1 t' → ∃ row, rows_added (op :: ops) (row :: rows) t t'.
Proof.
  intros (row & Hr & Hb & Hlen & _ & Hp) (Hrs & Hbs & Hlens & Hps). exists row. split_and!.
  - by constructor.
  - rewrite Hbs, Hb. cbn [map concat]. by rewrite (assoc_L (++)).
  - rewrite Hb, length_app in Hlens. cbn [length]. lia.
  - by rewrite Hps.
Qed.

Lemma ticks_run addr ticks file t :
  0 <= tl_last_diag_ms t → ticks_ok (tl_last_diag_ms t) ticks →
  Z.of_nat (length (buffered t)) + 267 * Z.of_nat (length ticks) <= TELEMETRY_CSV_BUFFER_BYTES →
  ∃ rows t', csv_run addr (map diag_op ticks) (file, t) = (file, t') ∧
    rows_added (map diag_op ticks) rows t t'.
Proof.
  revert t. induction ticks as [ | [[env now] e] ticks IH ]; intros t Hpos Hok Hroom.
  { exists [], t. split; [ done | apply rows_added_nil ]. }
  cbn [ticks_ok] in Hok. destruct Hok as (Hlast & Hnow0 & Hnow & He & Hact & Ha & Hok).
  cbn [length] in Hroom.
  destruct (diag_adds env now e t Hnow He Hact Ha Hlast Hpos ltac:(lia)) as [Hone Hd].
  set (t1 := log_transfer_diag env now e t) in *.
  pose proof Hone as (row & _ & Hb & Hlen & _).
  destruct (IH t1) as (rows & t' & Hrun & Hadd).
  - rewrite Hd. lia.
  - by rewrite Hd.
  - rewrite Hb, length_app. lia.
  - destruct (rows_added_cons _ _ _ _ _ _ Hone Hadd) as [row' H']. by exists (row' :: rows), t'.
Qed.

Lemma summary_adds env now e t :
  is_u32 now → fields_ok e → tm_transfer_start_ms (te_timers e) ≠ 0 → tr_size (te_transfer e) ≠ 0 →
  cv_alloc env = true → cv_append env = true → card_ok env → tl_path t ≠ [] →
  Z.of_nat (length (buffered t)) + 267 <= TELEMETRY_CSV_BUFFER_BYTES →
  ∃ t1, one_row (Summary env now e) t t1 ∧ ∀ file,
    let '(file', t') := log_transfer_summary env (str "complete") now e file t in
    file' = Some (default HEADER file ++ buffered t1) ∧ tl_summary_written t' = true.
Proof.
  intros Hnow He Hstart Hsize Ha Happ Hcard Hpath Hroom. unfold log_transfer_summary.
  apply Z.eqb_neq in Hstart, Hsize. rewrite Hstart, Hsize. cbn [orb]. cbv zeta.
  match goal with |- context [append_telemetry_csv_row env _ now ?r e ?t0] =>
    set (rv := r); assert (Hr : row_ok rv) end.
  { apply summary_row_ok; [ done | | | apply per_second_u32 ].
    - pose proof (fo_done e He). pose proof (fo_start e He). unfold is_u32 in *.
      repeat case_match; try lia. apply u32_range.
    - pose proof (fo_done e He). unfold is_u32 in *. case_match; lia. }
  assert (H1 : one_row (Summary env now e) t (append_telemetry_csv_row env (str "complete") now rv e t)).
  { eapply one_row_added; try done; [ by exists rv | cbn; lia ]. }
  set (t1 := append_telemetry_csv_row _ _ _ _ _ _) in *. exists t1. split; [ done | ]. intros file.
  destruct H1 as (row & _ & Hb & _ & [b Hsome] & Hp).
  pose proof (flush_cases env file t1 Hcard) as Hf. unfold flush_telemetry_csv in *.
  assert (Hne : buffered t1 ≠ []).
  { rewrite Hb. destruct (buffered t); [ | done ]. destruct row as [ | f [ | g r ] ]; [ done | | ];
      cbn; by destruct f. }
  unfold buffered in Hne. rewrite Hsome in Hf, Hne |- *. rewrite Hp in Hf |- *.
  destruct b as [ | c b ]; [ done | ]. destruct (tl_path t); [ done | ]. rewrite Happ in *. cbv zeta in *.
  destruct Hf as [[-> Ht] | (_ & Hf & _)].
  - exfalso. apply (f_equal tl_buf) in Ht. unfold empty_buf in Ht. cbn in Ht. rewrite Hsome in Ht. done.
  - split; [ exact Hf | done ].
Qed.

Lemma csv_run_app addr (ops ops' : list (CsvOp W)) s :
  csv_run addr (ops ++ ops') s = csv_run addr ops' (csv_run addr ops s).
Proof. apply foldl_app. Qed.

(** The rows of a transfer all reach the card. From the start of a transfer
    to its completion, with ticks at least a second apart of which each finds
    memory, at most 121 of them, and a card that is there at the end: the file
    afterwards is what it was, or the header when there was none, followed by
    a row for each tick and the summary row, in order and complete. *)
Theorem transfer_rows_saved addr start ticks env now e env' file t :
  tl_last_diag_ms t = 0 → ticks_ok 0 ticks → (length ticks <= 121)%nat →
  is_u32 now → fields_ok e → tm_transfer_start_ms (te_timers e) ≠ 0 → tr_size (te_transfer e) ≠ 0 →
  cv_alloc env = true → cv_append env = true → card_ok env →
  let ops := map diag_op ticks ++ [Summary env now e] in
  let '(file', t') := csv_run addr (Start start :: ops ++ [Reset env']) (file, t) in
  tl_last_diag_ms t' = 0 ∧
  ∃ rows, Forall2 reports ops rows ∧
    file' = Some (default HEADER file ++ concat (map csv_line rows)).
Proof.
  intros Hd Hticks Hlen Hnow He Hstart Hsize Ha Happ Hcard ops.
  set (t0 := reset_csv addr start t).
  assert (Hb0 : buffered t0 = []) by (unfold buffered; cbn; by destruct (tl_buf t)).
  destruct (ticks_run addr ticks file t0) as (rows & t1 & Hrun & Hrs & Hbuf & Hblen & Hpath).
  { cbn. lia. } { cbn. by rewrite Hd. }
  { rewrite Hb0. cbn [length]. unfold TELEMETRY_CSV_BUFFER_BYTES. lia. }
  pose proof (Forall2_length _ _ _ Hrs) as Hn. rewrite length_map in Hn.
  rewrite Hb0 in Hblen. cbn [length] in Hblen.
  destruct (summary_adds env now e t1) as (t2 & (row & Hrep & Hb2 & _) & Hsum); try done.
  { by rewrite Hpath. } { unfold TELEMETRY_CSV_BUFFER_BYTES. lia. }
  specialize (Hsum file).
  change (Start start :: ops ++ [Reset env']) with ([Start start] ++ (ops ++ [Reset env'])). unfold ops.
  rewrite !csv_run_app. change (csv_run addr [Start start] (file, t)) with (file, t0). rewrite Hrun.
  cbn [csv_run foldl]. unfold csv_run. cbn [foldl]. cbn [csv_step].
  destruct (log_transfer_summary env (str "complete") now e file t1) as [file' t3].
  destruct Hsum as [-> Hw]. unfold csv_step, reset_sender_telemetry. rewrite Hw. split; [ done | ].
  exists (rows ++ [row]). split; [ apply Forall2_app; [ done | by constructor ] | ].
  rewrite Hb2, Hbuf, Hb0, map_app, concat_app. cbn [app map concat]. by rewrite app_nil_r.
Qed.

(** When the buffer has no room the summary row is dropped like any other: a
    transfer long enough to fill it leaves no final row. *)
Lemma full_buffer_loses_summary env now e t :
  is_Some (tl_buf t) → TELEMETRY_CSV_BUFFER_BYTES < Z.of_nat (length (buffered t)) + 27 →
  ∀ r, buffered (append_telemetry_csv_row env (str "complete") now r e t) = buffered t.
Proof.
  intros [b Hb] Hfull r. unfold append_telemetry_csv_row, ensure_telemetry_csv_buffer, buffered in *.
  rewrite Hb in *. cbn [negb]. unfold add_line. rewrite Hb. change (default [] (Some b)) with b in *.
  rewrite length_csv_line by done. change (length (row_fields _ _ _ _)) with 26%nat.
  replace (_ >? _) with true; [ cbn; by rewrite Hb | ]. symmetry. apply Z.gtb_lt. lia.
Qed.
End proofs.

(** ** A transfer on a card *)

Definition sample_engine (name : list Z) (start : Z) : Engine unit :=
  engine_new <| te_my_addr := 41394 |>
    <| te_transfer ::= fun t => t <| tr_size := 2000 |> <| tr_fragment_count := 20 |>
         <| tr_fragment_size := 100 |> <| tr_next_fragment := 6 |> <| tr_session_id := 77 |>
         <| tr_filename := name |> <| tr_active := true |> |>
    <| te_timers ::= fun m => m <| tm_transfer_start_ms := start |> |>.
Definition good_card : CsvEnv := mk_csv_env true true true (@length Z) [].
Definition no_card : CsvEnv := mk_csv_env true false false (@length Z) [].

Lemma sample_fields name : (length name <= 32)%nat → fields_ok (sample_engine name 1000).
Proof. intros H. split; [ exact H | .. ]; cbn; unfold is_u8, is_u16, is_u32; lia. Qed.

Lemma good_card_ok : card_ok good_card.
Proof. done. Qed.

Definition photo : Engine unit := sample_engine (str "photo.jpg") 1000.
Definition sample_ticks : list (CsvEnv * Z * Engine unit) :=
  [(no_card, 2000, photo); (no_card, 3000, photo)].

Lemma transfer_rows_saved_witness :
  let '(file, _) := csv_run 41394 (Start 1000 :: (map diag_op sample_ticks ++ [Summary good_card 4000 photo])
                                   ++ [Reset no_card]) (None, telemetry_new) in
  ∃ rows, length rows = 3%nat ∧ file = Some (HEADER ++ concat (map csv_line rows)).
Proof.
  pose proof (transfer_rows_saved 41394 1000 sample_ticks good_card 4000 photo no_card None telemetry_new) as H.
  assert (Hf : fields_ok photo) by (apply sample_fields; cbn; lia).
  cbv zeta in H. destruct (csv_run _ _ _) as [file t'].
  destruct H as (_ & rows & Hr & ->); try done; try (unfold is_u32; lia).
  - cbn [ticks_ok sample_ticks]. unfold is_u32. split_and!; try done; try lia; by left.
  - cbn. lia.
  - exists rows. split; [ | done ]. apply Forall2_length in Hr. exact (eq_sym Hr).
Defined.

Definition sample_ops : list (CsvOp unit) :=
  [Start 1000; Diag no_card 2000 photo; Summary good_card 4000 photo; Reset no_card].

Lemma csv_file_parses_witness :
  ∃ f saved, (csv_run 41394 sample_ops (None, telemetry_new)).1 = Some f ∧
    parse_csv f [] [] = header_fields :: saved ∧ Forall (fun row => length row = 26%nat) saved.
Proof.
  assert (Hf : fields_ok photo) by (apply sample_fields; cbn; lia).
  destruct (csv_file_parses 41394 sample_ops) as [H | (f & rep & saved & H & Hp & Hl & _)].
  - unfold sample_ops. rewrite !Forall_cons. cbn [op_ok].
    split_and!; try done; try (unfold is_u32; lia); by apply literal_clean.
  - vm_compute in H. discriminate H.
  - exists f, saved. exact (conj H (conj Hp Hl)).
Defined.

(** A comma in the file's name splits its cell: the row has 27. *)
Lemma comma_breaks_row :
  (length <$> parse_csv (csv_line (row_fields (str "periodic") 2000 (mk_row 0 0 0 0 0 0 0 0 0)
                                     (sample_engine (str "a,b.txt") 1000))) [] []) = [27%nat].
Proof. vm_compute. reflexivity. Qed.
