(* ===== verification/TransferWorld.v ===== *)
(** * The transfer engine acts on the world through its callbacks only

    [inv G]: a property [G] of the world that every callback keeps is kept by
    every handler of the engine, its tick and the start of a transfer. The
    callback that reads the file is part of the engine's state, so that it
    keeps [G] is part of the invariant. Clients instantiate [G] with what they
    need to know of their world. *)

From Stdlib Require Import ZArith Lia SpecFloat.
From stdpp Require Import base list numbers option sets.
From S2P Require Import Prelude.
From S2P Require Import Packet.
From S2P Require Import Fec.
From S2P Require Import SelectiveRepeat.
From S2P Require Import Receiver.
From S2P Require Import ProtocolSelector.
From S2P Require Import TransferState.
From S2P Require Import TransferArq.
From S2P Require Import TransferHandlers.
From S2P Require Import TransferEngine.
From S2P Require Import TransferRoles.
Open Scope Z_scope.
Open Scope flp_scope.

(** ** The windows *)

Section window.
Context {W : Type} (f : SendCallback W) (G : W → Prop).
Context (Hf : ∀ w dst t q d, G w → G (f w dst t q d).2).

Lemma send_fragment_world now q d s w : G w → G (send_fragment (Some f) now q d s w).2.
Proof.
  intros Hw. unfold send_fragment, call_send. destruct (sr_window s), d as [d | ]; try done.
  cbv zeta. repeat (destruct (_ : bool); [ done | ]).
  pose proof (Hf w (sr_peer_addr s) DATA q d Hw) as H. destruct (f _ _ _ _ _) as [rc w'].
  by destruct (rc <? 0).
Qed.

Lemma handle_nack_world now q s w : G w → G (SelectiveRepeat.handle_nack (Some f) now q s w).2.
Proof.
  intros Hw. unfold SelectiveRepeat.handle_nack, call_send. destruct (sr_window s) as [sl | ]; [ | done ].
  cbv zeta. do 2 (destruct (_ || _ : bool); [ done | ]).
  set (slot := slot_payload _).
  pose proof (Hf w (sr_peer_addr s) DATA q slot Hw) as H. destruct (f _ _ _ _ _) as [rc w'].
  destruct (_ =? _); [ done | ]. destruct (_ <? _); [ done | ]. by destruct (_ >=? _).
Qed.

Lemma tick_loop_world now max s slots n w :
  G w → G (tick_loop (Some f) now max s slots n w).2.
Proof.
  revert n w. induction slots as [ | sl slots IH ]; intros n w Hw; cbn [tick_loop]; [ done | ].
  cbv zeta.
  assert (Hc : ∀ sl' n w, G w →
    G (let '(rest, n, w') := tick_loop (Some f) now max s slots n w in (sl' :: rest, n, w')).2).
  { intros sl' n' w' Hw'. pose proof (IH n' w' Hw') as H.
    by destruct (tick_loop _ _ _ _ _ _ _) as [[? ?] ?]. }
  destruct (_ || _); [ by apply Hc | ]. destruct (_ >=? _); [ | by apply Hc ].
  destruct (_ >=? _); [ by apply Hc | ]. destruct (_ =? _); [ by apply Hc | ].
  destruct (_ >=? _); [ done | ].
  pose proof (Hf w (sr_peer_addr s) DATA (fs_seq_tag sl) (slot_payload sl) Hw) as H.
  unfold call_send. destruct (f _ _ _ _ _) as [rc w'].
  destruct (_ =? _); [ done | ]. destruct (_ <? _); [ done | by apply Hc ].
Qed.

Lemma tick_world now max s w : G w → G (SelectiveRepeat.tick (Some f) now max s w).2.
Proof.
  intros Hw. unfold SelectiveRepeat.tick. destruct (sr_window s) as [sl | ]; [ | done ].
  pose proof (tick_loop_world now max s (live_slots s sl) 0 w Hw) as H.
  by destruct (tick_loop _ _ _ _ _ _ _) as [[? ?] ?].
Qed.

Lemma nack_gap_world peer timeout n i now bm sent w :
  G w → G (nack_gap (Some f) peer timeout n i now bm sent w).2.
Proof.
  revert i sent w. induction n as [ | n IH ]; intros i sent w Hw; cbn [nack_gap]; [ done | ].
  destruct (negb _); [ | by apply IH ]. destruct (_ >=? _); [ | by apply IH ].
  by apply IH, Hf.
Qed.

Lemma receive_world peer ws timeout now q d r w :
  G w → G (receive_fragment (Some f) peer ws timeout now q d r w).2.
Proof.
  intros Hw. unfold receive_fragment. destruct (_ || _); [ done | ]. cbv zeta.
  destruct (dec_ingest _ _ _ _) as [rec fec].
  assert (Hack : ∀ w q, G w → G (send_ack (Some f) peer w q)) by (intros; by apply Hf).
  assert (Hadv : ∀ r w, G w → G (advance_and_nack (Some f) peer ws timeout now q r w).2).
  { intros r' w' Hw'. unfold advance_and_nack.
    destruct (rv_bitmap r') as [bm | ]; [ | done ].
    destruct (rv_nack_sent_ms r') as [ns | ]; [ | done ]. cbv zeta.
    destruct (_ >? _); [ | done ].
    match goal with |- context [nack_gap ?a ?b ?c ?d ?e ?g ?i ?j ?k] =>
      pose proof (nack_gap_world b c d e g i j k Hw') as H; destruct (nack_gap a b c d e g i j k) end.
    done. }
  set (r0 := r <| rv_fec := fec |>).
  assert (Hrec : G (if rec then accept_recovered (Some f) peer r0 w else (r0, w)).2).
  { destruct rec; [ | done ]. unfold accept_recovered. destruct (_ <? _); [ | done ].
    destruct (rv_bitmap r0); [ | done ]. destruct (_ && _); [ | done ]. cbv zeta.
    destruct (_ <? _); by apply Hack. }
  destruct (if rec then _ else _) as [r1 w1]. cbn [snd] in Hrec.
  destruct (rv_bitmap r1) as [bm | ]; [ | done ].
  destruct (_ >=? _); [ done | ]. destruct (bitmap_bit _ _ _); [ by apply Hack | ].
  set (r2 := r1 <| rv_bitmap := _ |> <| rv_received := _ |>).
  destruct (_ =? _).
  - pose proof (Hadv r2 _ (Hack w1 q Hrec)) as H. by destruct (advance_and_nack _ _ _ _ _ _ _ _).
  - destruct (_ >=? _); [ by apply Hack | ].
    pose proof (Hadv (store_fragment (data_index q) d r2) _ (Hack w1 q Hrec)) as H.
    by destruct (advance_and_nack _ _ _ _ _ _ _ _).
Qed.
End window.

(** ** The engine *)

Section world.
Context {W : Type} (h : Host W) (G : W → Prop).
Notation Engine := (Engine W).
Implicit Types (e : Engine) (w : W) (s : Engine * W).

Definition keeps_drain (f : option (DrainSeqFn W)) : Prop :=
  ∀ g w sid, f = Some g → G w → G (g w sid).2.
Definition keeps_requeue (f : option (RequeueSeqFn W)) : Prop :=
  ∀ g w sid q, f = Some g → G w → G (g w sid q).

Record keeps_world : Prop := {
  kw_random : ∀ w, G w → G (h_random h w).2;
  kw_bits : ∀ w b, G w → G (h_set_bits h w b);
  kw_send : ∀ w dst t d q, G w → G (h_send_packet h w dst t d q).2;
  kw_forward : ∀ f w sid q src d name, h_forward_to_mqtt h = Some f → G w →
    G (f w sid q src d name).2;
  kw_meta : ∀ f w sid name src size count fs crc, h_forward_meta h = Some f → G w →
    G (f w sid name src size count fs crc);
  kw_cloud_ack : keeps_drain (h_drain_cloud_ack h);
  kw_cloud_nack : keeps_drain (h_drain_cloud_nack h);
  kw_requeue_nack : keeps_requeue (h_requeue_cloud_nack h);
  kw_observe : keeps_requeue (h_observe_cloud_nack h);
  kw_frag_ack : keeps_drain (h_drain_fragment_ack h);
  kw_requeue_ack : keeps_requeue (h_requeue_fragment_ack h);
  kw_complete : ∀ f w sid, h_transfer_complete h = Some f → G w → G (f w sid).2;
  kw_end : ∀ f w sid, h_mqtt_session_end h = Some f → G w → G (f w sid)
}.

Definition read_ok (f : ReadChunkFn W) : Prop := ∀ w off len, G w → G (f w off len).2.
Definition reads e : Prop := ∀ f, tr_read_chunk (te_transfer e) = Some f → read_ok f.
Definition inv s : Prop := G s.2 ∧ reads s.1.

Context (H : keeps_world).

Lemma inv_view e e' w w' :
  tr_read_chunk (te_transfer e') = tr_read_chunk (te_transfer e) → G w' → inv (e, w) → inv (e', w').
Proof. intros E Hw [_ Hr]. split; [ done | ]. unfold reads. cbn [fst]. by rewrite E. Qed.

Lemma inv_idle e w : tr_read_chunk (te_transfer e) = None → G w → inv (e, w).
Proof. intros E Hw. split; [ done | ]. unfold reads. cbn [fst]. by rewrite E. Qed.

Ltac upd Hi := refine (inv_view _ _ _ _ _ _ Hi); [ reflexivity | ].

Lemma send_fn_world c dst t q d :
  G c.2 → G (send_fn h c dst t q d).2.2.
Proof.
  destruct c as [c w]. cbn [snd]. intros Hw. unfold send_fn.
  match goal with |- context [h_send_packet h w dst t d ?q] =>
    pose proof (kw_send H w dst t d q Hw) as Hs; destruct (h_send_packet h w dst t d q) as [rc w'] end.
  by destruct (_ =? _).
Qed.

Lemma engine_send_inv dst t d q e w :
  inv (e, w) → let '(_, e', w') := engine_send h dst t d q e w in inv (e', w').
Proof.
  intros Hi. unfold engine_send.
  pose proof (send_fn_world (te_cong e, w) dst t q d (proj1 Hi)) as Hs.
  destruct (send_fn _ _ _ _ _ _) as [rc [c w']]. by upd Hi.
Qed.

Lemma arq_send_inv i q d e w :
  inv (e, w) → let '(_, e', w') := arq_send_fragment h i q d e w in inv (e', w').
Proof.
  intros Hi. unfold arq_send_fragment.
  pose proof (send_fragment_world (send_fn h) (fun c => G c.2) (fun c dst t q d => send_fn_world c dst t q d)
    (h_now h w) q (Some d) (aget (te_arq e) i) (te_cong e, w) (proj1 Hi)) as Hs.
  destruct (send_fragment _ _ _ _ _ _) as [[rc s] [c w']]. by upd Hi.
Qed.

Lemma arq_nack_inv i q e w : inv (e, w) → inv (arq_handle_nack h i q e w).
Proof.
  intros Hi. unfold arq_handle_nack.
  pose proof (handle_nack_world (send_fn h) (fun c => G c.2) (fun c dst t q d => send_fn_world c dst t q d)
    (h_now h w) q (aget (te_arq e) i) (te_cong e, w) (proj1 Hi)) as Hs.
  destruct (SelectiveRepeat.handle_nack _ _ _ _ _) as [s [c w']]. by upd Hi.
Qed.

Lemma arq_tick_inv i n e w :
  inv (e, w) → let '(_, e', w') := arq_tick h i n e w in inv (e', w').
Proof.
  intros Hi. unfold arq_tick.
  pose proof (tick_world (send_fn h) (fun c => G c.2) (fun c dst t q d => send_fn_world c dst t q d)
    (h_now h w) n (aget (te_arq e) i) (te_cong e, w) (proj1 Hi)) as Hs.
  destruct (SelectiveRepeat.tick _ _ _ _ _) as [[k s] [c w']]. by upd Hi.
Qed.

Lemma session_end_world sid w : G w → G (session_end h sid w).
Proof.
  intros Hw. unfold session_end. destruct (h_mqtt_session_end h) eqn:E; [ | done ].
  destruct (negb _); [ by apply (kw_end H) | done ].
Qed.

Lemma reset_inv b e w : inv (e, w) → inv (reset_sender_transfer_state h b e w).
Proof.
  intros Hi. unfold reset_sender_transfer_state. apply inv_idle; [ done | ].
  destruct (_ && _); [ apply (kw_bits H) | ]; by apply session_end_world, Hi.
Qed.

Lemma clear_exit_inv e w : inv (e, w) → inv (clear_exit_node_state h e w).
Proof. intros Hi. unfold clear_exit_node_state. upd Hi. by apply session_end_world, Hi. Qed.

(** *** Recovery and feeding *)

Lemma read_world off e w : inv (e, w) → G (read_fragment off e w).2.
Proof.
  intros Hi. unfold read_fragment. destruct (tr_read_chunk _) eqn:E; [ | apply Hi ].
  by apply (proj2 Hi _ E), Hi.
Qed.

Lemma forward_world q d e w : G w → G (forward_to_mqtt h q d e w).2.
Proof.
  intros Hw. unfold forward_to_mqtt. destruct (h_forward_to_mqtt h) eqn:E; [ | done ].
  by apply (kw_forward H).
Qed.

Lemma inv_world e w w' : inv (e, w) → G w' → inv (e, w').
Proof. intros Hi Hw. split; [ done | apply Hi ]. Qed.

Lemma drain_acks_world fuel drain sid count bm act w :
  (∀ w sid, G w → G (drain w sid).2) → G w → G (drain_acks h fuel drain sid count bm act w).2.
Proof.
  intros Hd. revert bm act w. induction fuel as [ | fuel IH ]; intros bm act w Hw; cbn [drain_acks]; [ done | ].
  pose proof (Hd w sid Hw) as Hg. destruct (drain w sid) as [[q | ] w']; [ | done ].
  destruct (_ <? _); by apply IH.
Qed.

Lemma observe_world sid q w : G w → G (observe_nack h sid q w).
Proof.
  intros Hw. unfold observe_nack. destruct (h_observe_cloud_nack h) eqn:E; [ | done ].
  by apply (kw_observe H).
Qed.

Lemma drain_nacks_world fuel drain sid count bm queue w :
  (∀ w sid, G w → G (drain w sid).2) → G w → G (drain_nacks h fuel drain sid count bm queue w).2.
Proof.
  intros Hd. revert queue w. induction fuel as [ | fuel IH ]; intros queue w Hw; cbn [drain_nacks]; [ done | ].
  pose proof (Hd w sid Hw) as Hg. destruct (drain w sid) as [[q | ] w']; [ | done ].
  destruct (_ >=? _); [ by apply IH | ]. destruct (cloud_acked _ _); [ by apply IH | ].
  by apply IH, observe_world.
Qed.

Lemma send_retx_world queue sent e w : inv (e, w) → G (send_retx h queue sent e w).2.
Proof.
  revert sent w. induction queue as [ | q queue IH ]; intros sent w Hi; cbn [send_retx]; [ apply Hi | ].
  destruct (negb _); [ apply Hi | ]. destruct (cloud_acked _ _); [ by apply IH | ].
  pose proof (read_world (u32 (q * tr_fragment_size (te_transfer e))) e w Hi) as Hr.
  destruct (read_fragment _ _ _) as [d w1].
  pose proof (forward_world q d e w1 Hr) as Hf. destruct (forward_to_mqtt _ _ _ _ _) as [ok w2].
  destruct ok; [ | done ]. by apply IH, (inv_world e w).
Qed.

Lemma send_new_world fuel wend next sent e w : inv (e, w) → G (send_new h fuel wend next sent e w).2.
Proof.
  revert next sent w. induction fuel as [ | fuel IH ]; intros next sent w Hi; cbn [send_new]; [ apply Hi | ].
  destruct (_ && _); [ | apply Hi ].
  pose proof (read_world (u32 (next * tr_fragment_size (te_transfer e))) e w Hi) as Hr.
  destruct (read_fragment _ _ _) as [d w1].
  pose proof (forward_world next d e w1 Hr) as Hf. destruct (forward_to_mqtt _ _ _ _ _) as [ok w2].
  destruct ok; [ | done ]. by apply IH, (inv_world e w).
Qed.

Lemma local_exit_inv e w : inv (e, w) → inv (tick_local_exit_arq h e w).
Proof.
  intros Hi. unfold tick_local_exit_arq.
  assert (H1 : inv (drain_cloud_queues h e w)).
  { unfold drain_cloud_queues. cbv zeta.
    assert (Ha : ∀ drain fuel sid count bm act, h_drain_cloud_ack h = Some drain →
      G (drain_acks h fuel drain sid count bm act w).2).
    { intros drain fuel sid count bm act E. apply drain_acks_world; [ | apply Hi ].
      intros w' sid'. by apply (kw_cloud_ack H). }
    assert (Hn : ∀ drain fuel sid count bm queue w, h_drain_cloud_nack h = Some drain → G w →
      G (drain_nacks h fuel drain sid count bm queue w).2).
    { intros drain fuel sid count bm queue w' E Hw. apply drain_nacks_world; [ | done ].
      intros w2 sid'. by apply (kw_cloud_nack H). }
    destruct (h_drain_cloud_ack h) as [da | ];
      [ match goal with |- context [drain_acks h ?a da ?b ?c ?d ?f w] =>
          pose proof (Ha da a b c d f eq_refl) as Hw;
          destruct (drain_acks h a da b c d f w) as [[bm act] w1] end
      | pose proof (proj1 Hi) as Hw ]; cbn [snd] in Hw;
    (destruct (h_drain_cloud_nack h) as [dn | ];
      [ match goal with |- context [drain_nacks h ?a dn ?b ?c ?d ?f ?w] =>
          pose proof (Hn dn a b c d f w eq_refl Hw) as Hw';
          destruct (drain_nacks h a dn b c d f w) as [queue w2] end
      | ]); upd Hi; done. }
  destruct (drain_cloud_queues h e w) as [e1 w1].
  assert (H2 : inv (publish_cloud_window h e1 w1)).
  { unfold publish_cloud_window.
    pose proof (send_retx_world (ca_retx_queue (te_cloud e1)) 0 e1 w1 H1) as Hs.
    destruct (send_retx _ _ _ _ _) as [sent w2]. cbv zeta.
    set (e2 := e1 <| te_cloud ::= _ |>).
    assert (Hi2 : inv (e2, w2)) by (by upd H1).
    match goal with |- context [send_new h ?a ?b ?c ?d e2 w2] =>
      pose proof (send_new_world a b c d e2 w2 Hi2) as Hn; destruct (send_new h a b c d e2 w2) end.
    by upd Hi2. }
  destruct (publish_cloud_window h e1 w1) as [e2 w2].
  destruct (_ >=? _); [ by apply reset_inv | done ].
Qed.

Lemma regenerate_world n d group enc e w :
  inv (e, w) → G (regenerate_parity h n d group enc e w).2.
Proof.
  revert d enc w. induction n as [ | n IH ]; intros d enc w Hi; cbn [regenerate_parity]; [ apply Hi | ].
  destruct (_ >=? _); [ apply Hi | ].
  match goal with |- context [read_fragment ?o e w] =>
    pose proof (read_world o e w Hi) as Hr; destruct (read_fragment o e w) as [b w1] end.
  by apply IH, (inv_world e w).
Qed.

Lemma oow_payload_world q e w : inv (e, w) → G (oow_payload h q e w).2.
Proof.
  intros Hi. unfold oow_payload. destruct (_ =? _).
  - match goal with |- context [regenerate_parity h ?n ?d ?g ?enc e w] =>
      pose proof (regenerate_world n d g enc e w Hi) as Hr;
      destruct (regenerate_parity h n d g enc e w) as [[enc' | ] w1] end; [ | done ].
    by destruct (_ =? _).
  - cbv zeta. destruct (_ >=? _); [ apply Hi | ].
    match goal with |- context [read_fragment ?o e w] =>
      pose proof (read_world o e w Hi) as Hr; destruct (read_fragment o e w) as [b w1] end.
    done.
Qed.

Lemma oow_drain_inv now budget allow queue sent e w :
  inv (e, w) →
  let '(_, e', w') := oow_drain h now budget allow queue sent e w in inv (e', w').
Proof.
  revert sent e w. induction queue as [ | [q dst] queue IH ]; intros sent e w Hi; cbn [oow_drain]; [ done | ].
  assert (Hkeep : ∀ dst sent e w, inv (e, w) →
    let '(_, e', w') := (let '(kept, e, w) := oow_drain h now budget allow queue sent e w in
                         ((q, dst) :: kept, e, w)) in inv (e', w')).
  { intros dst' sent' e' w' Hi'. pose proof (IH sent' e' w' Hi') as Hk.
    by destruct (oow_drain _ _ _ _ _ _ _ _) as [[? ?] ?]. }
  cbv zeta. destruct (_ || _); [ by apply Hkeep | ].
  pose proof (oow_payload_world q e w Hi) as Hp.
  destruct (oow_payload h q e w) as [[d | ] w1]; [ | by apply IH, (inv_world e w) ].
  assert (Hi1 : inv (e, w1)) by (by apply (inv_world e w)).
  destruct (_ =? _); [ by apply Hkeep | ].
  pose proof (engine_send_inv (oow_destination dst e) DATA d q e w1 Hi1) as Hs.
  destruct (engine_send _ _ _ _ _ _ _) as [[rc e2] w2]. destruct (_ <? _); [ done | ].
  apply IH. upd Hs. apply Hs.
Qed.

Lemma oow_phase_inv now e w : inv (e, w) → inv (oow_phase h now e w).
Proof.
  intros Hi. unfold oow_phase. destruct (oow_pacing e) as [interval budget].
  destruct (oq_queue (te_oow e)) as [ | x l ]; [ done | ]. destruct (tr_read_chunk _); [ | done ].
  match goal with |- context [oow_drain h now ?b ?a ?q ?k e w] =>
    pose proof (oow_drain_inv now b a q k e w Hi) as Hd;
    destruct (oow_drain h now b a q k e w) as [[kept e1] w1] end.
  upd Hd. apply Hd.
Qed.

Lemma redist_drain_inv pending e w :
  inv (e, w) → let '(_, e', w') := redist_drain h pending e w in inv (e', w').
Proof.
  revert e w. induction pending as [ | q pending IH ]; intros e w Hi; cbn [redist_drain]; [ done | ].
  assert (Hkeep : ∀ e w, inv (e, w) →
    let '(_, e', w') := (let '(kept, e, w) := redist_drain h pending e w in (q :: kept, e, w)) in
    inv (e', w')).
  { intros e' w' Hi'. pose proof (IH e' w' Hi') as Hk. by destruct (redist_drain _ _ _ _) as [[? ?] ?]. }
  cbv zeta. destruct (_ <? _); [ by apply Hkeep | ]. destruct (can_send_sequence _ _); [ | by apply Hkeep ].
  pose proof (read_world (seq_offset q e) e w Hi) as Hr.
  destruct (read_fragment _ _ _) as [d w1].
  pose proof (arq_send_inv (select_mesh_target_for_seq q e) q d e w1 (inv_world e w w1 Hi Hr)) as Hs.
  destruct (arq_send_fragment _ _ _ _ _ _) as [[rc e2] w2]. destruct (_ <? _); [ by apply Hkeep | by apply IH ].
Qed.

Lemma feed_new_inv fuel now max_new new_sent e w :
  inv (e, w) → inv (feed_new h fuel now max_new new_sent e w).
Proof.
  revert new_sent e w. induction fuel as [ | fuel IH ]; intros k e w Hi; cbn [feed_new]; [ done | ].
  cbv zeta. destruct (_ && _); [ | done ]. destruct (_ <? _); [ done | ].
  set (q := tr_next_fragment (te_transfer e)). set (idx := select_mesh_target_for_seq q e).
  destruct (_ =? _).
  - pose proof (arq_send_inv idx q (enc_parity_bytes (te_fec e)) e w Hi) as Hs.
    destruct (arq_send_fragment _ _ _ _ _ _) as [[rc e1] w1]. destruct (_ <? _); [ done | ].
    apply IH. upd Hs. apply Hs.
  - destruct (_ >=? _); [ apply IH; upd Hi; apply Hi | ].
    pose proof (read_world (seq_offset q e) e w Hi) as Hr.
    destruct (read_fragment _ _ _) as [d w1].
    pose proof (arq_send_inv idx q d e w1 (inv_world e w w1 Hi Hr)) as Hs.
    destruct (arq_send_fragment _ _ _ _ _ _) as [[rc e2] w2]. destruct (_ <? _); [ done | ].
    apply IH. upd Hs. apply Hs.
Qed.

Lemma weights_reads e : tr_read_chunk (te_transfer (recompute_weights e)) = tr_read_chunk (te_transfer e).
Proof. unfold recompute_weights. by destruct (fold_left _ _ _) as [[p s] t]. Qed.

Lemma feed_phase_inv now e w : inv (e, w) → inv (feed_phase h now e w).
Proof.
  intros Hi. unfold feed_phase. cbv zeta. destruct (_ <? _); [ done | ].
  set (e1 := if _ >=? _ then _ else e).
  assert (Hi1 : inv (e1, w)).
  { unfold e1. destruct (_ >=? _); [ | done ].
    refine (inv_view _ _ _ _ _ _ Hi); [ apply (weights_reads e) | apply Hi ]. }
  match goal with |- context [feed_new h ?a ?b ?c ?d e1 w] =>
    pose proof (feed_new_inv a b c d e1 w Hi1) as Hf; destruct (feed_new h a b c d e1 w) as [e2 w2] end.
  unfold check_upload_done. destruct (_ && _); [ | done ]. upd Hf. apply Hf.
Qed.

Lemma tick_mesh_inv e w : inv (e, w) → inv (tick_mesh_arq h e w).
Proof.
  intros Hi. unfold tick_mesh_arq. destruct (_ =? _); [ done | ]. cbv zeta.
  destruct (_ =? _); [ by apply reset_inv | ].
  pose proof (oow_phase_inv (h_now h w) e w Hi) as H1. destruct (oow_phase _ _ _ _) as [e1 w1].
  destruct (_ >=? _); [ upd H1; apply H1 | ]. destruct (tm_mesh_upload_done _); [ done | ].
  unfold redist_phase. pose proof (redist_drain_inv (te_redist e1) e1 w1 H1) as H2.
  destruct (redist_drain _ _ _ _) as [[kept e2] w2].
  apply feed_phase_inv. upd H2. apply H2.
Qed.

Lemma transfer_tick_inv e w : inv (e, w) → inv (transfer_tick h e w).
Proof.
  intros Hi. unfold transfer_tick. destruct (_ || _); [ done | ].
  destruct (_ >? _); [ upd Hi; apply Hi | ].
  destruct (te_local_exit e); [ by apply local_exit_inv | by apply tick_mesh_inv ].
Qed.

Lemma queue_redist_inv q e w : inv (e, w) → inv (queue_redist q e, w).
Proof. intros Hi. unfold queue_redist. destruct (_ <? _); [ upd Hi; apply Hi | done ]. Qed.

Lemma redistribute_inv first pending e w : inv (e, w) → inv (redistribute h first pending e w).
Proof.
  revert e w. induction pending as [ | q pending IH ]; intros e w Hi; cbn [redistribute]; [ done | ].
  destruct (_ =? _); [ by apply IH | ]. cbv zeta. set (target := if _ <? 0 then _ else _).
  destruct (can_send_sequence _ _); [ | by apply IH, queue_redist_inv ].
  pose proof (read_world (seq_offset q e) e w Hi) as Hr. destruct (read_fragment _ _ _) as [d w1].
  pose proof (arq_send_inv target q d e w1 (inv_world e w w1 Hi Hr)) as Hs.
  destruct (arq_send_fragment _ _ _ _ _ _) as [[rc e2] w2]. apply IH.
  destruct (_ =? _); [ done | by apply queue_redist_inv ].
Qed.

Lemma dead_exit_inv i e w : inv (e, w) → inv (redistribute_dead_exit h i e w).
Proof.
  intros Hi. unfold redistribute_dead_exit. cbv zeta.
  match goal with |- context [if _ <? 0 then (?e2, w) else _] =>
    assert (Hi2 : inv (e2, w)) by (upd Hi; apply Hi) end.
  destruct (_ <? _); [ done | by apply redistribute_inv ].
Qed.

Lemma health_inv now e w : inv (e, w) → inv (exit_node_health_tick h now e w).
Proof.
  intros Hi. unfold exit_node_health_tick. destruct (_ || _); [ done | ].
  revert Hi. generalize (e, w). induction (exit_indices e) as [ | i l IH ]; intros s Hi; [ done | ].
  cbn [fold_left]. apply IH. destruct s as [e' w']. unfold health_step.
  do 2 (destruct (negb _); [ done | ]). destruct (_ >? _); [ by apply dead_exit_inv | done ].
Qed.

Lemma exit_offline_inv addr sid e w : inv (e, w) → inv (handle_exit_offline h addr sid e w).
Proof.
  intros Hi. unfold handle_exit_offline. destruct (negb _); [ done | ]. destruct (_ && _); [ done | ].
  cbv zeta. destruct (_ <? _); [ done | by apply dead_exit_inv ].
Qed.

(** *** The handlers *)

Lemma meta_world sid name src size count fs crc w :
  G w → G (TransferHandlers.forward_meta h sid name src size count fs crc w).
Proof.
  intros Hw. unfold TransferHandlers.forward_meta. destruct (h_forward_meta h) eqn:E; [ | done ].
  by apply (kw_meta H).
Qed.

Lemma transfer_ad_inv hdr payload inet e w :
  inv (e, w) → inv (handle_transfer_ad h hdr payload inet e w).
Proof.
  intros Hi. unfold handle_transfer_ad. destruct (_ <? _); [ done | ]. cbv zeta.
  destruct (negb inet); [ done | ]. destruct (tr_active _); [ done | ].
  destruct (_ && _); [ done | ].
  destruct (_ && _);
    match goal with |- context [engine_send h ?a ?b ?c ?d e w] =>
      pose proof (engine_send_inv a b c d e w Hi) as Hs;
      destruct (engine_send h a b c d e w) as [[rc e1] w1] end; [ done | ].
  upd Hs. apply Hs.
Qed.

Lemma transfer_ack_inv hdr payload e w : inv (e, w) → inv (handle_transfer_ack hdr payload e, w).
Proof.
  intros Hi. unfold handle_transfer_ack. destruct (_ <? _); [ done | ]. destruct (negb _); [ done | ].
  cbv zeta. destruct (existsb _ _); [ done | ]. destruct (_ <? _); [ upd Hi; apply Hi | done ].
Qed.

Lemma handle_data_inv hdr payload e w : inv (e, w) → inv (handle_data h hdr payload e w).
Proof.
  intros Hi. unfold handle_data. cbv zeta. destruct (_ || _).
  - assert (H1 : inv (activate_exit h e w)).
    { unfold activate_exit. cbv zeta. destruct (_ && _); [ | done ]. upd Hi.
      unfold publish_meta. apply meta_world, Hi. }
    destruct (activate_exit h e w) as [e1 w1].
    destruct (h_forward_to_mqtt h) as [f | ] eqn:E.
    + match goal with |- context [f w1 ?a ?b ?c ?d ?g] =>
        pose proof (kw_forward H f w1 a b c d g E (proj1 H1)) as Hf;
        destruct (f w1 a b c d g) as [ok w2] end.
      destruct ok; upd H1; done.
    + upd H1. apply H1.
  - set (s := aget _ 0).
    match goal with |- context [receive_fragment ?cb ?p ?ws ?to ?n ?sq ?pl ?r ?cw] =>
      pose proof (receive_world (send_fn h) (fun c => G c.2)
        (fun c dst t q d => send_fn_world c dst t q d) p ws to n sq pl r cw (proj1 Hi)) as Hr;
      destruct (receive_fragment cb p ws to n sq pl r cw) as [[ok rcv] [c w1]] end.
    by upd Hi.
Qed.

Lemma handle_ack_inv q from e w : inv (e, w) → inv (handle_ack h q from e w, w).
Proof.
  intros Hi. unfold handle_ack. destruct (_ <? _); [ done | ]. cbv zeta.
  destruct (contains_sequence _ _); upd Hi; apply Hi.
Qed.

Lemma handle_nack_inv q from e w : inv (e, w) → inv (handle_nack h q from e w).
Proof.
  intros Hi. unfold handle_nack. cbv zeta.
  assert (Hn : ∀ i, inv (arq_handle_nack h i q (count_nack i e) w)).
  { intros i. apply arq_nack_inv. upd Hi. apply Hi. }
  destruct (_ <? _); [ destruct (_ <? _); [ done | apply Hn ] | ].
  destruct (contains_sequence _ _); [ apply Hn | ]. destruct (_ >=? _); [ done | ].
  unfold queue_out_of_window. cbv zeta. destruct (_ || _); [ done | ].
  destruct (existsb _ _); [ upd Hi; apply Hi | ]. destruct (recently_resent _ _ _); [ done | ].
  destruct (_ <? _); [ upd Hi; apply Hi | done ].
Qed.

Lemma transfer_done_inv sender payload e w : inv (e, w) → inv (handle_transfer_done h sender payload e w).
Proof.
  intros Hi. unfold handle_transfer_done. destruct (negb _); [ done | ]. destruct (_ <? _); [ done | ].
  cbv zeta. destruct (negb _); [ done | ]. destruct (_ || _); [ done | by apply reset_inv ].
Qed.

(** *** The tick *)

Lemma retx_loop_inv exits budget used e w :
  inv (e, w) → let '(_, e', w') := retx_loop h exits budget used e w in inv (e', w').
Proof.
  revert budget used e w. induction exits as [ | i exits IH ]; intros budget used e w Hi;
    cbn [retx_loop]; [ done | ].
  destruct (negb _); [ done | ]. destruct (negb _); [ by apply IH | ].
  pose proof (arq_tick_inv i budget e w Hi) as Hs.
  destruct (arq_tick _ _ _ _ _) as [[sent e1] w1]. by apply IH.
Qed.

Lemma tick_all_inv l e w : inv (e, w) → inv (tick_all h l e w).
Proof.
  revert e w. induction l as [ | i l IH ]; intros e w Hi; cbn [tick_all]; [ done | ].
  pose proof (arq_tick_inv i 8 e w Hi) as Hs. destruct (arq_tick _ _ _ _ _) as [[n e1] w1]. by apply IH.
Qed.

Lemma retx_phase_inv e w : inv (e, w) → inv (retx_phase h e w).
Proof.
  intros Hi. unfold retx_phase. destruct (_ && _).
  - match goal with |- context [retx_loop h ?a ?b ?c e w] =>
      pose proof (retx_loop_inv a b c e w Hi) as Hs; destruct (retx_loop h a b c e w) as [[u e1] w1] end.
    upd Hs. apply Hs.
  - pose proof (tick_all_inv (seqZ 0 MAX_EXIT_NODES) e w Hi) as Hs.
    destruct (tick_all _ _ _ _) as [e1 w1]. upd Hs. apply Hs.
Qed.

Lemma republish_inv now e w : inv (e, w) → inv (republish_meta h now e w).
Proof.
  intros Hi. unfold republish_meta. cbv zeta. destruct (_ && _); [ | done ]. upd Hi.
  apply meta_world, Hi.
Qed.

Lemma stall_inv now e w :
  inv (e, w) → let '(_, e', w') := stall_check h now e w in inv (e', w').
Proof.
  intros Hi. unfold stall_check. cbv zeta. destruct (_ && _); [ | done ].
  pose proof (λ b, reset_inv b e w Hi) as Hr. pose proof (clear_exit_inv e w Hi) as Hc.
  destruct (_ && _).
  { specialize (Hr true). by destruct (reset_sender_transfer_state h true e w). }
  destruct (_ && _).
  { specialize (Hr false). by destruct (reset_sender_transfer_state h false e w). }
  destruct (_ || _); [ by destruct (clear_exit_node_state h e w) | done ].
Qed.

Lemma requeue_world f sid q w : keeps_requeue f → G w → G (requeue f sid q w).
Proof. intros Hf Hw. unfold requeue. destruct f as [g | ]; [ by apply Hf | done ]. Qed.

Lemma forward_nacks_inv fuel drain now e w :
  h_drain_cloud_nack h = Some drain → inv (e, w) → inv (forward_nacks h fuel drain now e w).
Proof.
  intros E. revert e w. induction fuel as [ | fuel IH ]; intros e w Hi; cbn [forward_nacks]; [ done | ].
  cbv zeta. set (sid := er_active_session_id _).
  pose proof (kw_cloud_nack H drain w sid E (proj1 Hi)) as Hd. destruct (drain w sid) as [[q | ] w1];
    [ | by apply (inv_world e w) ]. cbn [snd] in Hd.
  pose proof (engine_send_inv (er_source_addr (te_role e)) NACK [] q e (observe_nack h sid q w1)
    (inv_world e w _ Hi (observe_world sid q w1 Hd))) as Hs.
  destruct (engine_send _ _ _ _ _ _ _) as [[rc e2] w2]. destruct (_ <? _).
  - apply (inv_world e2 w2); [ done | ]. apply requeue_world; [ apply (kw_requeue_nack H) | apply Hs ].
  - apply IH. upd Hs. apply Hs.
Qed.

Lemma forward_acks_inv fuel drain e w :
  h_drain_fragment_ack h = Some drain → inv (e, w) → inv (forward_acks h fuel drain e w).
Proof.
  intros E. revert e w. induction fuel as [ | fuel IH ]; intros e w Hi; cbn [forward_acks]; [ done | ].
  cbv zeta. set (sid := er_active_session_id _).
  pose proof (kw_frag_ack H drain w sid E (proj1 Hi)) as Hd. destruct (drain w sid) as [[q | ] w1];
    [ | by apply (inv_world e w) ]. cbn [snd] in Hd.
  pose proof (engine_send_inv (er_source_addr (te_role e)) ACK [] q e w1
    (inv_world e w _ Hi Hd)) as Hs.
  destruct (engine_send _ _ _ _ _ _ _) as [[rc e2] w2]. destruct (_ <? _); [ | by apply IH ].
  apply (inv_world e2 w2); [ done | ]. apply requeue_world; [ apply (kw_requeue_ack H) | apply Hs ].
Qed.

Lemma forward_done_inv e w : inv (e, w) → inv (forward_done h e w).
Proof.
  intros Hi. unfold forward_done. destruct (h_transfer_complete h) as [f | ] eqn:E; [ | done ]. cbv zeta.
  pose proof (kw_complete H f w (er_active_session_id (te_role e)) E (proj1 Hi)) as Hc.
  destruct (f w _) as [[ | ] w1]; [ | by apply (inv_world e w) ]. cbn [snd] in Hc.
  match goal with |- context [engine_send h ?a ?b ?c ?d e w1] =>
    pose proof (engine_send_inv a b c d e w1 (inv_world e w _ Hi Hc)) as Hs;
    destruct (engine_send h a b c d e w1) as [[rc e2] w2] end.
  by apply clear_exit_inv.
Qed.

Lemma exit_phase_inv now e w : inv (e, w) → inv (exit_phase h now e w).
Proof.
  intros Hi. unfold exit_phase. cbv zeta.
  assert (H1 : inv (match h_drain_cloud_nack h with
    | Some drain => if er_is_exit_node (te_role e)
                    then forward_nacks h (S (h_backlog h w)) drain now e w else (e, w)
    | None => (e, w) end)).
  { destruct (h_drain_cloud_nack h) eqn:E; [ | done ].
    destruct (er_is_exit_node _); [ by apply forward_nacks_inv | done ]. }
  destruct (match h_drain_cloud_nack h with Some _ => _ | None => _ end) as [e1 w1].
  assert (H2 : inv (match h_drain_fragment_ack h with
    | Some drain => if er_is_exit_node (te_role e1)
                    then forward_acks h (S (h_backlog h w1)) drain e1 w1 else (e1, w1)
    | None => (e1, w1) end)).
  { destruct (h_drain_fragment_ack h) eqn:E; [ | done ].
    destruct (er_is_exit_node _); [ by apply forward_acks_inv | done ]. }
  destruct (match h_drain_fragment_ack h with Some _ => _ | None => _ end) as [e2 w2].
  destruct (er_is_exit_node _); [ by apply forward_done_inv | done ].
Qed.

Lemma accept_fold_reads now l e :
  tr_read_chunk (te_transfer (fold_left (accept_exit now) l e)) = tr_read_chunk (te_transfer e).
Proof.
  revert e. induction l as [ | [i c] l IH ]; intros e; cbn [fold_left]; [ done | ]. by rewrite IH.
Qed.

Lemma election_inv elected now e w : inv (e, w) → inv (election_timeout_tick h elected now e w).
Proof.
  intros Hi. unfold election_timeout_tick. cbv zeta. destruct (_ || _); [ done | ].
  set (e1 := e <| te_election ::= _ |>). assert (H1 : inv (e1, w)) by (upd Hi; apply Hi).
  destruct (el_candidates _) as [ | c l ]; [ by apply reset_inv | ].
  destruct (elect elected (c :: l)) as [sorted winners].
  refine (inv_view _ _ _ _ _ _ H1); [ | apply (kw_bits H), Hi ].
  proj_upd. by rewrite accept_fold_reads.
Qed.

Lemma broadcast_inv now e w : inv (e, w) → inv (broadcast_retry_tick h now e w).
Proof.
  intros Hi. unfold broadcast_retry_tick. cbv zeta. destruct (broadcast_due _ _); [ | done ].
  match goal with |- context [engine_send h ?a ?b ?c ?d e w] =>
    pose proof (engine_send_inv a b c d e w Hi) as Hs;
    destruct (engine_send h a b c d e w) as [[rc e1] w1] end.
  upd Hs. apply Hs.
Qed.

Lemma tick_inv elected now e w : inv (e, w) → inv (tick h elected now e w).
Proof.
  intros Hi. unfold tick. pose proof (retx_phase_inv e w Hi) as H1.
  destruct (retx_phase h e w) as [e1 w1]. destruct (arq_failed e1); [ by apply reset_inv | ].
  pose proof (republish_inv now e1 w1 H1) as H2. destruct (republish_meta h now e1 w1) as [e2 w2].
  pose proof (stall_inv now e2 w2 H2) as H3. destruct (stall_check h now e2 w2) as [[[ | ] e3] w3]; [ done | ].
  pose proof (exit_phase_inv now e3 w3 H3) as H4. destruct (exit_phase h now e3 w3) as [e4 w4].
  pose proof (broadcast_inv now e4 w4 H4) as H5. destruct (broadcast_retry_tick h now e4 w4) as [e5 w5].
  pose proof (election_inv elected now e5 w5 H5) as H6.
  destruct (election_timeout_tick h elected now e5 w5) as [e6 w6].
  pose proof (health_inv now e6 w6 H6) as H7. destruct (exit_node_health_tick h now e6 w6) as [e7 w7].
  pose proof (transfer_tick_inv e7 w7 H7) as H8. destruct (transfer_tick h e7 w7) as [e8 w8].
  upd H8. apply H8.
Qed.

(** *** Starting a transfer *)

Lemma crc_file_inv fuel read size off crc w :
  read_ok read → G w → G (crc_file h fuel read size off crc w).2.
Proof.
  intros Hr. revert off crc w. induction fuel as [ | fuel IH ]; intros off crc w Hw; cbn [crc_file]; [ done | ].
  destruct (_ <? _); [ | done ]. cbv zeta.
  match goal with |- context [read w ?a ?b] =>
    pose proof (Hr w a b Hw) as Hg; destruct (read w a b) as [buf w1] end.
  destruct (_ =? _); [ done | by apply IH ].
Qed.

Lemma start_inv filename size read inet mqtt hops e w :
  read_ok read → inv (e, w) →
  let '(_, e', w') := start_file_transfer h filename size read inet mqtt hops e w in inv (e', w').
Proof.
  intros Hr Hi. unfold start_file_transfer. do 2 (destruct (_ : bool); [ done | ]). cbv zeta.
  assert (H1 : inv (prepare_transfer h filename size read (sanitize_hops_to_exit hops) e w)).
  { unfold prepare_transfer. pose proof (kw_random H w (proj1 Hi)) as Hg.
    destruct (h_random h w) as [raw w1]. cbn [snd] in Hg. cbv zeta.
    pose proof (crc_file_inv (S (Z.to_nat size)) read size 0 0 w1 Hr Hg) as Hc.
    destruct (crc_file _ _ _ _ _ _ _) as [crc w2]. split; [ done | ].
    intros f. unfold reset_telemetry. proj_upd. by intros [= <-]. }
  destruct (prepare_transfer _ _ _ _ _ _ _) as [e1 w1]. destruct (_ && _).
  - unfold start_local_exit. cbv zeta. destruct (_ >? _); [ upd H1; apply H1 | ].
    destruct (_ >? _); [ upd H1; apply H1 | ]. upd H1. apply meta_world, H1.
  - unfold start_mesh, send_broadcast_with_retry. cbv zeta.
    destruct (_ >? _); [ upd H1; apply H1 | ]. destruct (_ >? _); upd H1; apply H1.
Qed.
End world.
