(* ===== verification/MeshLink.v ===== *)
(** * The node's sending side (mesh_manager_bridge.cpp, mesh_manager.hpp)

    The parts of the mesh manager the transfer engine calls back into: the
    network state shared by all of them ([Net]), [send_raw] and [send_packet],
    the cache of forwarded packets, and the wiring of [MeshManager::init]
    ([mesh_host]), which instantiates the engine's [Host] with the real
    sending functions and the real MQTT client. The drivers, the radio
    transports and the other devices are a parameter ([Platform]). *)

From Stdlib Require Import ZArith Lia SpecFloat.
From stdpp Require Import base list numbers option sets.
From S2P Require Import Prelude.
From S2P Require Import Packet.
From S2P Require Import Fec.
From S2P Require Import SelectiveRepeat.
From S2P Require Import Receiver.
From S2P Require Import ProtocolSelector.
From S2P Require Import MqttClient.
From S2P Require Import RouteTable.
From S2P Require Import TransferState.
Open Scope Z_scope.
Open Scope flp_scope.

Definition kQueueDepth : Z := 256.
Definition kDefaultRssi : Z := -90.
Definition kLinkQualityPct : float32 := f32_of_Z 100.

(** A received frame: the used bytes of a slab and how it was heard. *)
Record RxFrame := mk_frame {
  fa_data : list Z;
  fa_rssi : Z;
  fa_source : RxTransport
}.

(** What surrounds the mesh task: drivers, radios, devices, configuration. *)
Record Platform {X : Type} := mk_platform {
  pf_now_us : X → Z;                          (* esp_timer_get_time() *)
  pf_random : X → Z * X;
  pf_alloc : X → bool;
  pf_crc32_le : Z → list Z → Z;
  pf_sta_rssi : X → option Z;
  pf_set_bits : X → EventBit → X;
  pf_espnow_send : X → Z → list Z → Z * X;    (* EspNowTransport::send *)
  pf_lora_send : X → Z → list Z → Z * X;      (* LoraTransport::send *)
  pf_lora_initialized : X → bool;
  pf_lora_sf : X → Z;
  pf_set_lora_sf : X → Z → X;
  pf_drain_pending_peers : X → X;
  pf_update_broadcast_peer : X → X;
  pf_wifi_channel : X → Z;
  pf_set_wifi_channel : X → Z → X;
  pf_pool_congested : X → bool;               (* buffer_pool_.is_congested() *)
  pf_release : X → RxFrame → X;               (* buffer_pool_.release(slab) *)
  pf_hi_spaces : X → Z;                       (* uxQueueSpacesAvailable *)
  pf_lo_spaces : X → Z;
  pf_recv_hi : X → option RxFrame * X;        (* xQueueReceive *)
  pf_recv_lo : X → option RxFrame * X;
  pf_mqtt : MqttHost X;
  pf_heap_check : X → X;                      (* heap_monitor_.periodic_check() *)
  pf_heap_serialize : X → list Z;
  pf_restart : X → X;
  pf_led : option (X → bool → X);             (* when a GPIO is configured *)
  pf_uart : option (X → list Z → X);          (* push_event(DOWNLINK_DATA) *)
  pf_max_elected : Z                          (* CONFIG_FLP_MAX_ELECTED_EXITS *)
}.
Arguments Platform : clear implicits.
Arguments mk_platform {X}.

(** The state [send_packet] and the engine's callbacks act on: the engine's
    world. *)
Record Net {X : Type} := mk_net {
  nt_routes : RouteTable;
  nt_selector : ProtocolSelector;
  nt_mqtt : option MqttClient;                (* mqtt_client_ *)
  nt_x : X
}.
Arguments Net : clear implicits.
Arguments mk_net {X}.
#[export] Instance eta_Net X : Eta (Net X) := fun n =>
  mk_net (nt_routes n) (nt_selector n) (nt_mqtt n) (nt_x n).

Definition requires_espnow_data_path (t : PacketType) : bool :=
  match t with DATA | PARITY => true | _ => false end.

(** The header [send_packet] and its siblings build. *)
Definition fresh_header (src dst : Z) (t : PacketType) (seq : Z) : PacketHeader :=
  set_ttl_hops DEFAULT_TTL 0
    (set_ver_type PROTOCOL_VERSION t (mk_header 0 src dst 0 seq)).

Section link.
Context {X : Type} (p : Platform X).
Implicit Types (n : Net X).

Definition now_ms n : Z := u32 (pf_now_us p (nt_x n) / 1000).

Definition on_x (f : X → X) n : Net X := n <| nt_x ::= f |>.

Definition send_raw (t : Transport) (data : list Z) (peer_addr : Z) n : Z * Net X :=
  if (match t with LORA => true | ESPNOW => false end) && negb (pf_lora_initialized p (nt_x n))
  then (-1, n)
  else
    let t0_us := pf_now_us p (nt_x n) in
    let '(rc, x) := match t with
                    | ESPNOW => pf_espnow_send p (nt_x n) peer_addr data
                    | LORA => pf_lora_send p (nt_x n) peer_addr data
                    end in
    let n := n <| nt_x := x |> in
    let latency := u32 ((pf_now_us p x - t0_us) / 1000) in
    let ok := rc =? TRANSPORT_SEND_OK in
    let n := if negb (rc =? TRANSPORT_SEND_BACKPRESSURE)
             then n <| nt_selector ::= report_tx_result t ok latency |> else n in
    let n := if negb (peer_addr =? BROADCAST_ADDR) && negb (rc =? TRANSPORT_SEND_BACKPRESSURE)
             then n <| nt_routes ::= report_link_tx peer_addr ok |> else n in
    (rc, n).

(** The two broadcasts of a frame. *)
Definition send_both (data : list Z) n : Net X :=
  let '(_, n) := send_raw ESPNOW data BROADCAST_ADDR n in
  let '(_, n) := send_raw LORA data BROADCAST_ADDR n in
  n.

(** The signal strength of the neighbor a frame goes to, and its hop count. *)
Definition link_of (addr : Z) n : Z * Z :=
  match get_neighbor addr (nt_routes n) with
  | Some e => (ne_rssi e, ne_hop_count e)
  | None => (kDefaultRssi, 255)
  end.

Definition send_packet (my_addr dst : Z) (t : PacketType) (payload : list Z) (seq : Z) n
    : Z * Net X :=
  if PACKET_HEADER_SIZE + Z.of_nat (length payload) >? MAX_MTU then (-1, n)
  else
    let frame := encode_header (fresh_header my_addr dst t seq) ++ payload in
    if dst =? BROADCAST_ADDR then (0, send_both frame n)
    else
      let radio_dst := next_hop dst my_addr (nt_routes n) in
      if radio_dst =? BROADCAST_ADDR then
        if dst =? EXIT_ANY_ADDR then (0, send_both frame n) else (-1, n)
      else
        let '(rssi, hops) := link_of radio_dst n in
        let transport := if requires_espnow_data_path t then ESPNOW
                         else select rssi hops (Z.of_nat (length frame)) kLinkQualityPct
                                (nt_selector n) in
        send_raw transport frame radio_dst n.

(** ** The engine's callbacks *)

(** An operation of the MQTT client, when there is one. *)
Definition on_mqtt {A} (none : A) (f : MqttClient → A * MqttClient) n : A * Net X :=
  match nt_mqtt n with
  | Some c => let '(a, c) := f c in (a, n <| nt_mqtt := Some c |>)
  | None => (none, n)
  end.

Definition forward_meta n (session_id : Z) (filename : list Z) (src_node my_addr total_size
    chunk_count fragment_size crc32 : Z) : Net X :=
  match nt_mqtt n with
  | Some c =>
      let '(c, x) := publish_transfer_meta (pf_mqtt p) (u16 session_id) filename src_node my_addr
                       total_size chunk_count fragment_size crc32 c (nt_x n) in
      n <| nt_mqtt := Some c |> <| nt_x := x |>
  | None => n
  end.

(** [MeshManager::init]'s wiring of the transfer engine. *)
Definition mesh_host (my_addr : Z) : Host (Net X) :=
  mk_host now_ms
    (fun n => let '(r, x) := pf_random p (nt_x n) in (r, n <| nt_x := x |>))
    (fun n => pf_alloc p (nt_x n)) (pf_crc32_le p) (fun n => pf_sta_rssi p (nt_x n))
    (fun n b => on_x (fun x => pf_set_bits p x b) n)
    (fun n => pf_pool_congested p (nt_x n) ||
              match nt_mqtt n with Some c => is_fragment_queue_congested c | None => false end)
    (fun n dst t payload seq => send_packet my_addr dst t payload seq n)
    (Some (fun n sid seq src data filename =>
       on_mqtt false (publish_fragment sid seq src (Some data) (Some filename)) n))
    (Some (fun n sid filename src size count fs crc =>
       forward_meta n sid filename src my_addr size count fs crc))
    (Some (fun n sid => on_mqtt None (drain_cloud_ack sid) n))
    (Some (fun n sid => on_mqtt None (drain_cloud_nack sid) n))
    (Some (fun n sid seq => (on_mqtt false (requeue_cloud_nack sid seq) n).2))
    (Some (fun n sid seq =>
       (on_mqtt tt (fun c => (tt, mark_fragment_for_republish sid seq c)) n).2))
    (Some (fun n sid => on_mqtt None (drain_fragment_ack sid) n))
    (Some (fun n sid seq => (on_mqtt false (requeue_fragment_ack sid seq) n).2))
    (Some (fun n sid => on_mqtt false (consume_transfer_complete sid) n))
    (Some (fun n sid => (on_mqtt tt (fun c => (tt, clear_transfer_session sid c)) n).2))
    (fun n => match nt_mqtt n with
              | Some c => length (mq_acks c) + length (mq_nacks c) + length (mq_fragment_acks c)
              | None => 0
              end)%nat.
End link.

(** ** The cache of forwarded packets *)

Record SeenEntry := mk_seen {
  se_src : Z;
  se_dst : Z;
  se_type : Z;
  se_seq : Z;
  se_time_ms : Z
}.
#[export] Instance SeenEntry_inhabited : Inhabited SeenEntry := populate (mk_seen 0 0 0 0 0).

Definition SEEN_CACHE_SIZE : Z := 64.

Record SeenCache := mk_cache {
  sc_entries : list SeenEntry;      (* SEEN_CACHE_SIZE of them *)
  sc_idx : Z
}.
#[export] Instance eta_SeenCache : Eta SeenCache := fun c => mk_cache (sc_entries c) (sc_idx c).

Definition cache_new : SeenCache :=
  mk_cache (replicate (Z.to_nat SEEN_CACHE_SIZE) (mk_seen 0 0 0 0 0)) 0.

Definition seen_match (now src dst type seq window_ms : Z) (s : SeenEntry) : bool :=
  (se_src s =? src) && (se_dst s =? dst) && (se_type s =? type) && (se_seq s =? seq) &&
  (u32 (now - se_time_ms s) <? window_ms).

Definition expired (now : Z) (c : SeenCache) (i : Z) : bool :=
  u32 (now - se_time_ms (aget (sc_entries c) i)) >? 10000.

Definition already_seen (now src dst type seq window_ms : Z) (c : SeenCache) : bool * SeenCache :=
  if existsb (seen_match now src dst type seq window_ms) (sc_entries c) then (true, c)
  else
    let slot := default (sc_idx c) (find_first (expired now c) (seqZ 0 SEEN_CACHE_SIZE)) in
    (false, mk_cache (aset (sc_entries c) slot (mk_seen src dst type seq now))
              (if slot =? sc_idx c then (sc_idx c + 1) mod SEEN_CACHE_SIZE else sc_idx c)).
