(* ===== verification/MeshManager.v ===== *)
(** * Mesh manager (mesh_manager.cpp, _packets.cpp, _bridge.cpp)

    The mesh task: what a node does with a received frame, how it forwards
    frames of others, discovery and route errors, commands and telemetry, and
    one turn of the main loop. The transfer engine runs on [mesh_host], so a
    frame that [process_slab] hands it ends in [send_packet]'s frames. The
    display snapshot at the end of a turn and [init]'s parsing of the
    configured peer blacklist are in [MeshDisplay]; [esp_restart] is an action of the platform,
    and what the model does after it does not happen on the device. *)

From Stdlib Require Import ZArith Lia SpecFloat String.
From stdpp Require Import base list numbers option sets.
From S2P Require Import Prelude.
From S2P Require Import CString.
From S2P Require Import Packet.
From S2P Require Import Fec.
From S2P Require Import SelectiveRepeat.
From S2P Require Import Receiver.
From S2P Require Import ProtocolSelector.
From S2P Require Import MqttClient.
From S2P Require Import RouteTable.
From S2P Require Import TransferState.
From S2P Require Import TransferArq.
From S2P Require Import TransferHandlers.
From S2P Require Import TransferEngine.
From S2P Require Import MeshLink.
Open Scope Z_scope.
Open Scope flp_scope.

(** ** Constants *)

Definition kArqDedupWindowMs : Z := 200.
Definition kControlDedupWindowMs : Z := 10000.
Definition kMaxQueueDrainPerLoop : nat := 64.
Definition kDiscoveryIntervalMs : Z := 10000.
Definition kPruneIntervalMs : Z := 5000.
Definition kNeighborStaleTimeoutMs : Z := 30000.
Definition kEarlyStaleTimeoutMs : Z := 15000.
Definition kBiasIntervalMs : Z := 10000.
Definition kTelemetryIntervalMs : Z := 30000.
Definition kChannelHopIntervalMs : Z := 1500.
Definition kMaxWifiChannels : Z := 13.
Definition kMeshCmdMaxDataLen : Z := 64.
Definition kTopicBufLen : Z := 32.
Definition RELAY_BUF_SIZE : Z := 256.
Definition kTopoBufSize : Z := 1 + MAX_NEIGHBORS * 7.
Definition MAX_TOPICS : Z := 4.

(** [RelayTopic] and [MeshCmd] *)
Definition RELAY_HEAP : Z := 1.
Definition RELAY_METRICS : Z := 2.
Definition RELAY_TOPOLOGY : Z := 3.
Definition RELAY_STATUS : Z := 4.
Definition REQUEST_TELEMETRY : Z := 1.
Definition REBOOT : Z := 3.
Definition LED_CONTROL : Z := 4.
Definition TOPIC_MSG : Z := 16.

(** The literals [0.6f] and [0.9f]; [0.3f] is [ALPHA]. *)
Definition f32_six_tenths : float32 := S754_finite false 10066330 (-24).
Definition f32_nine_tenths : float32 := S754_finite false 15099494 (-24).

Definition relay_topic_suffix (topic_id : Z) : list Z :=
  if topic_id =? RELAY_HEAP then str "heap"
  else if topic_id =? RELAY_METRICS then str "metrics"
  else if topic_id =? RELAY_TOPOLOGY then str "topology"
  else if topic_id =? RELAY_STATUS then str "status"
  else str "unknown".

(** ** State *)

Record MeshTimers := mk_mesh_timers {
  mt_discovery : Z;
  mt_prune : Z;
  mt_bias : Z;
  mt_topo_metrics : Z;
  mt_channel_hop : Z
}.
#[export] Instance eta_MeshTimers : Eta MeshTimers := fun t =>
  mk_mesh_timers (mt_discovery t) (mt_prune t) (mt_bias t) (mt_topo_metrics t) (mt_channel_hop t).

(** The command and topic indicators. *)
Record CmdState := mk_cmd_state {
  cs_last_cmd_id : Z;
  cs_last_cmd_ms : Z;
  cs_last_cloud_cmd_ms : Z;
  cs_last_config_topic_ms : Z;
  cs_last_topic_msg_ms : Z;
  cs_topic_msg : list Z;            (* display_topic_msg_buf_ *)
  cs_topics : list (list Z)         (* subscribed_topics_, the first count of them *)
}.
#[export] Instance eta_CmdState : Eta CmdState := fun c =>
  mk_cmd_state (cs_last_cmd_id c) (cs_last_cmd_ms c) (cs_last_cloud_cmd_ms c)
    (cs_last_config_topic_ms c) (cs_last_topic_msg_ms c) (cs_topic_msg c) (cs_topics c).

Record MeshManager {X : Type} := mk_mesh {
  mm_addr : Z;
  mm_engine : Engine (Net X);
  mm_has_internet : bool;
  mm_inet_seq : Z;
  mm_preferred_parent : Z;
  mm_channel : Z;                   (* current_channel_ *)
  mm_hop_idx : Z;
  mm_timers : MeshTimers;
  mm_peer_update_pending : bool;
  mm_exit_offline_pending : bool;
  mm_cmd : CmdState;
  mm_blocked : list Z;
  mm_seen : SeenCache
}.
Arguments MeshManager : clear implicits.
Arguments mk_mesh {X}.
#[export] Instance eta_MeshManager X : Eta (MeshManager X) := fun m =>
  mk_mesh (mm_addr m) (mm_engine m) (mm_has_internet m) (mm_inet_seq m) (mm_preferred_parent m)
    (mm_channel m) (mm_hop_idx m) (mm_timers m) (mm_peer_update_pending m)
    (mm_exit_offline_pending m) (mm_cmd m) (mm_blocked m) (mm_seen m).

Section mesh.
Context {X : Type} (p : Platform X).
Notation MeshManager := (MeshManager X).
Notation Net := (Net X).
Implicit Types (m : MeshManager) (n : Net) (hdr : PacketHeader).

(** An operation of the transfer engine. *)
Definition engine (f : Host Net → Engine Net → Net → Engine Net * Net) m n : MeshManager * Net :=
  let '(e, n) := f (mesh_host p (mm_addr m)) (mm_engine m) n in (m <| mm_engine := e |>, n).

(** [send_packet] from the mesh manager itself. *)
Definition send (dst : Z) (t : PacketType) (payload : list Z) (seq : Z) m n : Net :=
  (send_packet p (mm_addr m) dst t payload seq n).2.

(** ** Discovery *)

Definition compute_hops_to_internet m n : Z :=
  if mm_has_internet m then 0
  else
    let min_hops := min_control_hops_to_internet (nt_routes n) in
    if min_hops <? 254 then u8 (min_hops + 1) else 255.

Definition saturated_queue_load n : Z :=
  let hi_used := u32 (kQueueDepth - pf_hi_spaces p (nt_x n)) in
  let lo_used := u32 (kQueueDepth - pf_lo_spaces p (nt_x n)) in
  let total := u32 (hi_used + lo_used) in
  if total >? 255 then 255 else u8 total.

Definition discovery_payload m n : DiscoveryPayload :=
  let flags := if mm_has_internet m then kDiscoveryInternetFlag else 0 in
  let ch := pf_wifi_channel p (nt_x n) in
  let flags := u8 (Z.lor flags (Z.shiftl (Z.land ch kDiscoveryChMask) kDiscoveryChShift)) in
  let best := best_inet_route (nt_routes n) in
  let '(seq, origin) := if mm_has_internet m then (mm_inet_seq m, mm_addr m)
                        else (ir_seq best, ir_origin best) in
  let sf_enc := Z.land (u8 (pf_lora_sf p (nt_x n) - 5)) 7 in
  mk_disc (u8 (Z.lor flags (Z.shiftl sf_enc kDiscoverySfShift)))
    (compute_hops_to_internet m n) 0 seq origin (saturated_queue_load n).

(** A peer on another channel, while this node has no access point. *)
Definition sync_channel (disc_wifi_ch : Z) m n : MeshManager * Net :=
  if (disc_wifi_ch >? 0) && negb (mm_has_internet m) then
    let m := if mm_channel m =? 0 then m <| mm_channel := pf_wifi_channel p (nt_x n) |> else m in
    if negb (mm_channel m =? disc_wifi_ch)
    then (m <| mm_channel := disc_wifi_ch |>,
          on_x (fun x => pf_set_wifi_channel p x disc_wifi_ch) n)
    else (m, n)
  else (m, n).

Definition handle_discovery hdr (source : RxTransport) (payload : list Z) m n
    : MeshManager * Net :=
  if Z.of_nat (length payload) <? sizeof_DiscoveryPayload then (m, n)
  else
    let disc := decode_discovery payload in
    let disc_wifi_ch := Z.land (Z.shiftr (disc_flags disc) kDiscoveryChShift) kDiscoveryChMask in
    let n := if negb (Z.land (disc_flags disc) kDiscoveryInternetFlag =? 0)
             then n <| nt_routes ::= RouteTable.set_has_internet (src_addr hdr) true |> else n in
    let '(m, n) := sync_channel disc_wifi_ch m n in
    let n := n <| nt_routes ::= fun t =>
               set_queue_load (src_addr hdr) (disc_queue_load disc)
                 (update_inet_route (src_addr hdr) (disc_hops_to_internet disc)
                    (disc_inet_seq disc) (disc_inet_origin disc) t).2 |> in
    if dst_addr hdr =? BROADCAST_ADDR then
      let resp := encode_discovery (discovery_payload m n) in
      match source with
      | RX_LORA =>
          let frame := encode_header (fresh_header (mm_addr m) (src_addr hdr) DISCOVERY 0)
                       ++ resp in
          (m, (send_raw p LORA frame (src_addr hdr) n).2)
      | RX_ESPNOW => (m, send (src_addr hdr) DISCOVERY resp 0 m n)
      end
    else (m, n).

(** The hysteresis on the preferred parent. *)
Definition update_parent m n : MeshManager * Net :=
  if mm_has_internet m then (m, n)
  else
    let current := if negb (mm_preferred_parent m =? BROADCAST_ADDR) then mm_preferred_parent m
                   else next_hop EXIT_ANY_ADDR (mm_addr m) (nt_routes n) in
    let '(should_switch, new_addr, t) := check_better_route current (mm_addr m) (nt_routes n) in
    let n := n <| nt_routes := t |> in
    if should_switch then (m <| mm_preferred_parent := new_addr |>, n)
    else if (mm_preferred_parent m =? BROADCAST_ADDR) && negb (current =? BROADCAST_ADDR)
    then (m <| mm_preferred_parent := current |>, n)
    else (m, n).

Definition send_discovery m n : MeshManager * Net :=
  let m := if mm_has_internet m then m <| mm_inet_seq ::= fun s => u16 (s + 1) |> else m in
  let disc := discovery_payload m n in
  let frame := encode_header (fresh_header (mm_addr m) BROADCAST_ADDR DISCOVERY 0)
               ++ encode_discovery disc in
  let '(_, n) := send_raw p ESPNOW frame BROADCAST_ADDR n in
  let lora_tx := pf_lora_initialized p (nt_x n) &&
    ((get_espnow_neighbor_count (nt_routes n) =? 0)
     || (oldest_contact_age_ms (now_ms p n) (nt_routes n) >? 20000)
     || (disc_hops_to_internet disc >=? ROUTE_HOPS_UNKNOWN)) in
  let n := if lora_tx then (send_raw p LORA frame BROADCAST_ADDR n).2 else n in
  update_parent m n.

(** ** Route errors *)

Definition send_route_error (dead_addr inet_origin last_seq : Z) m n : Net :=
  send BROADCAST_ADDR ROUTE_ERROR (encode_route_error (mk_rerr dead_addr inet_origin last_seq))
    0 m n.

Definition handle_route_error (payload : list Z) m n : Net :=
  if Z.of_nat (length payload) <? sizeof_RouteErrorPayload then n
  else
    let rerr := decode_route_error payload in
    let '(used, t) := invalidate_route_via (rerr_dead_addr rerr) (nt_routes n) in
    let n := n <| nt_routes := t |> in
    if used then send_route_error (rerr_dead_addr rerr) (rerr_inet_origin rerr)
                   (rerr_last_known_seq rerr) m n
    else n.

(** ** Telemetry and commands *)

Definition mqtt_publish_raw (src topic_id : Z) (data : list Z) n : Net :=
  match nt_mqtt n with
  | Some c =>
      let topic := str "flp/" ++ hex4 true src ++ str "/" ++ relay_topic_suffix topic_id in
      on_x (fun x => (publish_raw (pf_mqtt p) topic data 1 c x).2) n
  | None => n
  end.

Definition relay_publish (relay_topic : Z) (data : list Z) m n : Net :=
  if mm_has_internet m && bool_decide (is_Some (nt_mqtt n))
  then mqtt_publish_raw (mm_addr m) relay_topic data n
  else send EXIT_ANY_ADDR MESH_PUB
         (relay_topic :: take (Z.to_nat (RELAY_BUF_SIZE - 1)) data) 0 m n.

Definition handle_mesh_pub (src : Z) (payload : list Z) n : Net :=
  if Z.of_nat (length payload) <? 2 then n
  else mqtt_publish_raw src (byte_at payload 0) (drop 1 payload) n.

Definition publish_all_telemetry m n : Net :=
  let n := match serialize kTopoBufSize (nt_routes n) with
           | Some topo => relay_publish RELAY_TOPOLOGY topo m n
           | None => n
           end in
  let n := match serialize_metrics 48 (nt_selector n) with
           | Some metrics => relay_publish RELAY_METRICS metrics m n
           | None => n
           end in
  let heap := pf_heap_serialize p (nt_x n) in
  if Z.of_nat (length heap) >? 0 then relay_publish RELAY_HEAP heap m n else n.

Definition subscribe_topic (topic : list Z) m : MeshManager :=
  if Z.of_nat (length (cs_topics (mm_cmd m))) >=? MAX_TOPICS then m
  else m <| mm_cmd ::= fun c => c <| cs_topics ::= fun l => l ++ [take 31 topic] |> |>.

Definition printable (c : Z) : Z := if (c >=? 32) && (c <=? 126) then c else 46.

(** [[topic_len:1][topic][payload]] *)
Definition handle_topic_msg (data : list Z) m n : MeshManager * Net :=
  let len := Z.of_nat (length data) in
  if len <? 1 then (m, n)
  else
    let topic_len := byte_at data 0 in
    if (topic_len =? 0) || (topic_len >? kTopicBufLen - 1) || (1 + topic_len >? len) then (m, n)
    else
      let raw := take (Z.to_nat topic_len) (drop 1 data) in
      let topic := until_nul raw in
      let payload := drop (Z.to_nat (1 + topic_len)) data in
      if existsb (fun t => bool_decide (t = topic)) (cs_topics (mm_cmd m)) then
        let now := now_ms p n in
        let m := if bool_decide (topic = str "config")
                 then m <| mm_cmd ::= fun c => c <| cs_last_config_topic_ms := now |> |> else m in
        let m := if bool_decide (topic = str "msg")
                 then m <| mm_cmd ::= fun c =>
                        c <| cs_topic_msg := map printable (take 16 payload) |>
                          <| cs_last_topic_msg_ms := now |> |>
                 else m in
        let n := match pf_uart p with
                 | Some push =>
                     let copy_topic := if topic_len <? 63 then topic_len else 63 in
                     on_x (fun x => push x (topic_len :: take (Z.to_nat copy_topic) raw ++
                                              take (Z.to_nat (63 - copy_topic)) payload)) n
                 | None => n
                 end in
        (m, n)
      else (m, n).

Definition handle_mesh_cmd (payload : list Z) m n : MeshManager * Net :=
  if Z.of_nat (length payload) <? 1 then (m, n)
  else
    let cmd_id := byte_at payload 0 in
    let cmd_now := now_ms p n in
    if (cmd_id =? cs_last_cmd_id (mm_cmd m))
       && (u32 (cmd_now - cs_last_cmd_ms (mm_cmd m)) <? 2000) then (m, n)
    else
      let m := m <| mm_cmd ::= fun c => c <| cs_last_cmd_id := cmd_id |>
                                          <| cs_last_cmd_ms := cmd_now |>
                                          <| cs_last_cloud_cmd_ms := cmd_now |> |> in
      if cmd_id =? REQUEST_TELEMETRY then (m, publish_all_telemetry m n)
      else if cmd_id =? REBOOT then (m, on_x (pf_restart p) n)
      else if cmd_id =? LED_CONTROL then
        match pf_led p with
        | Some set_level =>
            if Z.of_nat (length payload) >=? 2
            then (m, on_x (fun x => set_level x (negb (byte_at payload 1 =? 0))) n)
            else (m, n)
        | None => (m, n)
        end
      else if cmd_id =? TOPIC_MSG then handle_topic_msg (drop 1 payload) m n
      else (m, n).

Definition route_cmd (cmd : MeshCmdItem) m n : MeshManager * Net :=
  let len := Z.of_nat (length (cm_data cmd)) in
  if cm_target_addr cmd =? mm_addr m
  then handle_mesh_cmd (cm_cmd_id cmd :: take (Z.to_nat kMeshCmdMaxDataLen) (cm_data cmd)) m n
  else
    (m, send (cm_target_addr cmd) MESH_CMD
          (cm_cmd_id cmd :: (if (len >? 0) && (len <=? kMeshCmdMaxDataLen) then cm_data cmd
                             else [])) 0 m n).

(** [fuel]: the commands present. *)
Fixpoint drain_cmds (fuel : nat) m n : MeshManager * Net :=
  match fuel with
  | O => (m, n)
  | S fuel' =>
      let '(cmd, n) := on_mqtt None receive_cmd n in
      match cmd with
      | None => (m, n)
      | Some cmd => let '(m, n) := route_cmd cmd m n in drain_cmds fuel' m n
      end
  end.

Definition drain_cmd_queue m n : MeshManager * Net :=
  match nt_mqtt n with
  | Some c => drain_cmds (S (length (mq_cmds c))) m n
  | None => (m, n)
  end.

(** ** Forwarding *)

Definition high_priority (t : PacketType) : bool :=
  match t with
  | ACK | NACK | ROUTE_ERROR | TRANSFER_ACK | TRANSFER_AD | EXIT_OFFLINE => true
  | _ => false
  end.

(** Both queues exist after [init], so they decide. *)
Definition forward_congested n : bool :=
  u32 (pf_hi_spaces p (nt_x n) + pf_lo_spaces p (nt_x n)) <? kQueueDepth / 2.

Definition arq_type (t : PacketType) : bool :=
  match t with DATA | PARITY | ACK | NACK => true | _ => false end.

(** [data] is the whole frame; its header is rewritten in place. *)
Definition forward_packet (data : list Z) hdr m n : Net :=
  let t := hdr_type hdr in
  let congested := forward_congested n in
  if congested && negb (high_priority t) then
    if match t with DATA | PARITY => true | _ => false end
    then send (src_addr hdr) NACK [] (seq_with_congestion (seq_num hdr) true) m n
    else n
  else
    let fwd := set_ttl_hops (ttl hdr - 1) (hop_count hdr + 1) hdr in
    let body := drop (Z.to_nat PACKET_HEADER_SIZE) data in
    if match t with TRANSFER_AD | EXIT_OFFLINE => true | _ => false end
    then send_both p (encode_header fwd ++ body) n
    else
      let next := next_hop (dst_addr hdr) (mm_addr m) (nt_routes n) in
      if next =? BROADCAST_ADDR then n
      else
        let fwd := if match t with ACK | NACK => true | _ => false end && congested
                   then fwd <| seq_num ::= fun s => Z.lor s CONGESTION_FLAG |> else fwd in
        let rssi := (link_of next n).1 in
        let transport := if requires_espnow_data_path t then ESPNOW
                         else select rssi (hop_count fwd) (Z.of_nat (length data))
                                kLinkQualityPct (nt_selector n) in
        (send_raw p transport (encode_header fwd ++ body) next n).2.

(** ** A received frame *)

Definition mqtt_connected n : bool :=
  match nt_mqtt n with Some c => mq_connected c | None => false end.

Definition is_exit m n : bool := mm_has_internet m && mqtt_connected n.

(** ACK and NACK, with the congestion flag read off and stripped. *)
Definition handle_answer (nack : bool) hdr m n : MeshManager * Net :=
  let seq := seq_strip_congestion (seq_num hdr) in
  let '(m, n) := engine (fun h e n =>
      if nack then handle_nack h seq (src_addr hdr) e n
      else (handle_ack h seq (src_addr hdr) e n, n)) m n in
  (if seq_has_congestion (seq_num hdr)
   then m <| mm_engine ::= fun e => e <| te_cong ::= signal_congestion |> |> else m, n).

Definition deliver hdr (source : RxTransport) (payload : list Z) (is_exit : bool) m n
    : MeshManager * Net :=
  match hdr_type hdr with
  | DISCOVERY => handle_discovery hdr source payload m n
  | TRANSFER_AD => engine (fun h => handle_transfer_ad h hdr payload is_exit) m n
  | TRANSFER_ACK => engine (fun _ e n => (handle_transfer_ack hdr payload e, n)) m n
  | DATA | PARITY => engine (fun h => handle_data h hdr payload) m n
  | ACK => handle_answer false hdr m n
  | NACK => handle_answer true hdr m n
  | MESH_PUB => (m, handle_mesh_pub (src_addr hdr) payload n)
  | MESH_CMD => handle_mesh_cmd payload m n
  | ROUTE_ERROR => (m, handle_route_error payload m n)
  | TRANSFER_DONE => engine (fun h => handle_transfer_done h (src_addr hdr) payload) m n
  | _ => (m, n)
  end.

Definition blocked hdr m : bool :=
  (hop_count hdr =? 0) && existsb (fun bp => src_addr hdr =? bp) (mm_blocked m).

Definition forward_once (data : list Z) hdr m n : MeshManager * Net :=
  let t := hdr_type hdr in
  let window := if arq_type t then kArqDedupWindowMs else kControlDedupWindowMs in
  let '(seen, cache) := already_seen (now_ms p n) (src_addr hdr) (dst_addr hdr)
                          (u8 (type_code t)) (seq_num hdr) window (mm_seen m) in
  let m := m <| mm_seen := cache |> in
  if seen then (m, n) else (m, forward_packet data hdr m n).

Definition process_slab (f : RxFrame) m n : MeshManager * Net :=
  let data := fa_data f in
  if Z.of_nat (length data) <? PACKET_HEADER_SIZE then (m, n)
  else
    let hdr := decode_header data in
    if src_addr hdr =? mm_addr m then (m, n)
    else if blocked hdr m then (m, n)
    else if negb (version hdr =? PROTOCOL_VERSION) then (m, n)
    else
      let payload := drop (Z.to_nat PACKET_HEADER_SIZE) data in
      let '(m, n) :=
        if match hdr_type hdr with EXIT_OFFLINE => true | _ => false end
           && (Z.of_nat (length payload) >=? sizeof_ExitOfflinePayload)
        then let eop := decode_exit_offline payload in
             engine (fun h => handle_exit_offline h (eop_exit_node_addr eop)
                                (eop_session_id eop)) m n
        else (m, n) in
      if ttl hdr =? 0 then (m, n)
      else
        let n := if hop_count hdr =? 0
                 then n <| nt_routes ::= update_neighbor (now_ms p n) (src_addr hdr) (fa_rssi f)
                        (hop_count hdr)
                        (match fa_source f with RX_ESPNOW => true | RX_LORA => false end)
                        (match fa_source f with RX_LORA => true | RX_ESPNOW => false end)
                        ROUTE_HOPS_UNKNOWN |>
                 else n in
        let exit := is_exit m n in
        let for_us := (dst_addr hdr =? mm_addr m) || (dst_addr hdr =? BROADCAST_ADDR)
                      || ((dst_addr hdr =? EXIT_ANY_ADDR) && exit) in
        let '(m, n) := if for_us then deliver hdr (fa_source f) payload exit m n else (m, n) in
        let should_forward := negb (dst_addr hdr =? mm_addr m)
                              && negb (dst_addr hdr =? BROADCAST_ADDR)
                              && negb ((dst_addr hdr =? EXIT_ANY_ADDR) && exit) in
        if should_forward then forward_once data hdr m n else (m, n).

(** ** The main loop *)

(** The members' initial values and [init], once the drivers are up; [alloc]
    whether each window's memory is available, [mqtt] the client wired in
    before. *)
Definition init (addr : Z) (blocked_peers : list Z) (alloc : Z → bool) (mqtt : option MqttClient)
    (x : X) : MeshManager * Net :=
  let n := mk_net routes_new selector_new mqtt x in
  let now := now_ms p n in
  let ch := pf_wifi_channel p x in
  (mk_mesh addr (TransferState.init (pf_max_elected p) alloc addr engine_new) false 0
     BROADCAST_ADDR ch ch (mk_mesh_timers now 0 0 0 now) false false
     (mk_cmd_state 255 0 0 0 0 [] []) blocked_peers cache_new, n).

Definition set_has_internet (v : bool) m : MeshManager :=
  if Bool.eqb (mm_has_internet m) v then m
  else (if negb v then m <| mm_exit_offline_pending := true |> else m)
         <| mm_has_internet := v |>.

Definition broadcast_exit_offline m n : Net :=
  let eop := mk_eop (active_session_id (mm_engine m)) (mm_addr m) in
  send_both p (encode_header (fresh_header (mm_addr m) EXIT_ANY_ADDR EXIT_OFFLINE 0)
               ++ encode_exit_offline eop) n.

Definition start_file_transfer (filename : list Z) (size : Z) (read : ReadChunkFn Net) m n
    : bool * MeshManager * Net :=
  let hops := if mm_has_internet m then 0
              else let h := min_data_hops_to_internet (nt_routes n) in
                   if h <? 254 then u8 (h + 1) else 255 in
  let '(ok, e, n) := TransferEngine.start_file_transfer (mesh_host p (mm_addr m)) filename size
                       read (mm_has_internet m) (mqtt_connected n) hops (mm_engine m) n in
  (ok, m <| mm_engine := e |>, n).

(** At most [budget] frames of a queue; what is left of the budget. *)
Fixpoint drain_rx (recv : X → option RxFrame * X) (budget : nat) m n
    : nat * MeshManager * Net :=
  match budget with
  | O => (O, m, n)
  | S budget' =>
      let '(f, x) := recv (nt_x n) in
      let n := n <| nt_x := x |> in
      match f with
      | None => (budget, m, n)
      | Some f =>
          let '(m, n) := process_slab f m n in
          drain_rx recv budget' m (on_x (fun x => pf_release p x f) n)
      end
  end.

Definition elapsed (now since interval : Z) : bool := u32 (now - since) >? interval.

Definition discovery_phase (now : Z) m n : MeshManager * Net :=
  let interval := if tr_active (te_transfer (mm_engine m)) then kDiscoveryIntervalMs * 3
                  else kDiscoveryIntervalMs in
  if elapsed now (mt_discovery (mm_timers m)) interval then
    let '(m, n) := send_discovery m n in
    (m <| mm_timers ::= fun t => t <| mt_discovery := now |> |>, n)
  else (m, n).

Definition prune_phase (now : Z) m n : MeshManager * Net :=
  if elapsed now (mt_prune (mm_timers m)) kPruneIntervalMs then
    let '(dead, t) := detect_early_stale (now_ms p n) kEarlyStaleTimeoutMs (nt_routes n) in
    let n := fold_left (fun n '(addr, origin, seq) => send_route_error addr origin seq m n) dead
               (n <| nt_routes := t |>) in
    (m <| mm_timers ::= fun t => t <| mt_prune := now |> |>,
     n <| nt_routes ::= prune_stale (now_ms p n) kNeighborStaleTimeoutMs |>)
  else (m, n).

(** The spreading factor the measured success rate calls for. *)
Definition target_spreading_factor n : Z :=
  let lora_success := lora_success_rate (nt_selector n) in
  let count := get_count (nt_routes n) in
  if SFltb lora_success ALPHA && (count <? 2) then 10
  else if SFltb lora_success f32_six_tenths then 9
  else if SFltb f32_nine_tenths lora_success && (count >=? 3) then 7
  else 7.

Definition bias_phase (now : Z) m n : MeshManager * Net :=
  if elapsed now (mt_bias (mm_timers m)) kBiasIntervalMs then
    let n := on_x (pf_heap_check p) (n <| nt_selector ::= recalculate_bias |>) in
    let target_sf := target_spreading_factor n in
    let n := if pf_lora_initialized p (nt_x n) && negb (target_sf =? pf_lora_sf p (nt_x n))
             then on_x (fun x => pf_set_lora_sf p x target_sf) n else n in
    (m <| mm_timers ::= fun t => t <| mt_bias := now |> |>, n)
  else (m, n).

Definition telemetry_phase (now : Z) m n : MeshManager * Net :=
  if elapsed now (mt_topo_metrics (mm_timers m)) kTelemetryIntervalMs then
    (m <| mm_timers ::= fun t => t <| mt_topo_metrics := now |> |>, publish_all_telemetry m n)
  else (m, n).

Definition channel_hop_phase (now : Z) m n : MeshManager * Net :=
  if negb (mm_has_internet m) && (min_hops_to_internet (nt_routes n) >=? ROUTE_HOPS_UNKNOWN)
     && elapsed now (mt_channel_hop (mm_timers m)) kChannelHopIntervalMs then
    let ch := u8 (mm_hop_idx m mod kMaxWifiChannels + 1) in
    let n := on_x (fun x => pf_set_wifi_channel p x ch) n in
    let '(m, n) := send_discovery (m <| mm_hop_idx := ch |> <| mm_channel := ch |>) n in
    (m <| mm_timers ::= fun t => t <| mt_discovery := now |> <| mt_channel_hop := now |> |>, n)
  else (m, n).

(** One turn of [run]'s loop, up to the display snapshot ([MeshDisplay.run_turn]). *)
Definition run_once m n : MeshManager * Net :=
  let '(budget, m, n) := drain_rx (pf_recv_hi p) kMaxQueueDrainPerLoop m n in
  let '(_, m, n) := drain_rx (pf_recv_lo p) budget m n in
  let n := on_x (pf_drain_pending_peers p) n in
  let n := if mm_peer_update_pending m then on_x (pf_update_broadcast_peer p) n else n in
  let m := m <| mm_peer_update_pending := false |> in
  let n := if mm_exit_offline_pending m then broadcast_exit_offline m n else n in
  let m := m <| mm_exit_offline_pending := false |> in
  let now := now_ms p n in
  let '(m, n) := discovery_phase now m n in
  let '(m, n) := prune_phase now m n in
  let '(m, n) := bias_phase now m n in
  let '(m, n) := telemetry_phase now m n in
  let '(m, n) := channel_hop_phase now m n in
  let '(m, n) := drain_cmd_queue m n in
  engine (fun h => TransferEngine.tick h (pf_max_elected p) now) m n.
End mesh.
