(* ===== verification/MeshSafety.v ===== *)
(** * What a node puts on the air, and the state it keeps

    The whole node, the mesh manager with the transfer engine and the MQTT
    client it is wired to, under an invariant of the platform: every frame it
    hands to a radio is one it originates, with its own address, a fresh TTL
    and no hops, or the copy of a frame it heard with one hop more, one life
    less and, the congestion flag of an ACK or NACK apart, nothing else
    changed. The route table, the queues of the MQTT client and the cache
    of forwarded frames stay well-formed. *)

From Stdlib Require Import ZArith Lia SpecFloat String.
From stdpp Require Import base list numbers option sets relations.
From S2P Require Import Prelude.
From S2P Require Import CString.
From S2P Require Import Packet.
From S2P Require Import Fec.
From S2P Require Import SelectiveRepeat.
From S2P Require Import Receiver.
From S2P Require Import ProtocolSelector.
From S2P Require Import MqttClient.
From S2P Require Import MqttPipeline.
From S2P Require Import RouteTable.
From S2P Require Import TransferState.
From S2P Require Import TransferArq.
From S2P Require Import TransferHandlers.
From S2P Require Import TransferEngine.
From S2P Require Import TransferRoles.
From S2P Require Import TransferWorld.
From S2P Require Import MeshLink.
From S2P Require Import MeshManager.
Open Scope Z_scope.
Open Scope flp_scope.

(** ** Frames *)

(** A frame this node originates. *)
Definition own_frame (me : Z) (d : list Z) : Prop :=
  let hdr := decode_header d in
  PACKET_HEADER_SIZE <= Z.of_nat (length d) <= MAX_MTU ∧ Forall is_u8 (take 8 d) ∧
  src_addr hdr = me ∧ version hdr = PROTOCOL_VERSION ∧ ttl hdr = DEFAULT_TTL ∧ hop_count hdr = 0.

(** [d] is the copy of [r] that a node [me] forwards. *)
Definition relayed (me : Z) (r d : list Z) : Prop :=
  let hr := decode_header r in
  let hd := decode_header d in
  src_addr hr ≠ me ∧ dst_addr hr ≠ me ∧ dst_addr hr ≠ BROADCAST_ADDR ∧ 1 <= ttl hr ∧
  ver_type hd = ver_type hr ∧ src_addr hd = src_addr hr ∧ dst_addr hd = dst_addr hr ∧
  ttl hd = ttl hr - 1 ∧ hop_count hd = (hop_count hr + 1) mod 16 ∧
  (seq_num hd = seq_num hr ∨
   (hdr_type hr = ACK ∨ hdr_type hr = NACK) ∧ seq_num hd = Z.lor (seq_num hr) CONGESTION_FLAG) ∧
  length d = length r ∧ drop 8 d = drop 8 r.

Lemma le_value_range bs : Forall is_u8 bs → 0 <= le_value bs < 256 ^ Z.of_nat (length bs).
Proof.
  induction 1 as [ | b bs Hb _ IH ]; cbn [le_value length]; [ done | ].
  rewrite Nat2Z.inj_succ, Z.pow_succ_r by lia. unfold is_u8 in Hb.
  set (P := 256 ^ Z.of_nat (length bs)) in *. clearbody P. lia.
Qed.

Lemma le_value_take n bs : Forall is_u8 bs → 0 <= le_value (take n bs) < 256 ^ Z.of_nat n.
Proof.
  intros H. pose proof (le_value_range (take n bs) ltac:(by apply Forall_take)) as [H1 H2].
  split; [ done | ]. eapply Z.lt_le_trans; [ exact H2 | ]. apply Z.pow_le_mono_r; [ lia | ].
  rewrite length_take. lia.
Qed.

Lemma decode_header_wf bs : Forall is_u8 bs → header_wf (decode_header bs).
Proof.
  intros H. assert (Hk : ∀ k n, 0 <= le_value (take n (drop k bs)) < 256 ^ Z.of_nat n)
    by (intros; by apply le_value_take, Forall_drop).
  unfold decode_header, header_wf. cbn [unpack ver_type src_addr dst_addr ttl_hops seq_num].
  rewrite !drop_drop. unfold_ints.
  pose proof (Hk 0 1)%nat. pose proof (Hk 1 2)%nat. pose proof (Hk 3 2)%nat.
  pose proof (Hk 5 1)%nat. pose proof (Hk 6 2)%nat. rewrite drop_0 in *. cbn in *. lia.
Qed.

Lemma decode_discovery_wf bs :
  Forall is_u8 bs →
  let d := decode_discovery bs in
  is_u8 (disc_hops_to_internet d) ∧ is_u16 (disc_inet_seq d) ∧ is_u16 (disc_inet_origin d) ∧
  is_u8 (disc_queue_load d).
Proof.
  intros H. assert (Hk : ∀ k n, 0 <= le_value (take n (drop k bs)) < 256 ^ Z.of_nat n)
    by (intros; by apply le_value_take, Forall_drop).
  cbv zeta. unfold decode_discovery.
  cbn [unpack disc_hops_to_internet disc_inet_seq disc_inet_origin disc_queue_load].
  rewrite !drop_drop. unfold_ints.
  pose proof (Hk 1 1)%nat. pose proof (Hk 3 2)%nat. pose proof (Hk 5 2)%nat.
  pose proof (Hk 7 1)%nat. cbn in *. lia.
Qed.

Lemma decode_encode_any h rest :
  decode_header (encode_header h ++ rest) =
    mk_header (u8 (ver_type h)) (u16 (src_addr h)) (u16 (dst_addr h)) (u8 (ttl_hops h))
      (u16 (seq_num h)).
Proof.
  unfold decode_header, encode_header, header_fields.
  cbn [pack le_bytes app unpack take drop le_value]. rewrite take_0. cbn [le_value]. f_equal; int_lia.
Qed.

Lemma encode_header_u8 h : Forall is_u8 (encode_header h).
Proof.
  unfold encode_header, header_fields. cbn [pack].
  repeat (apply Forall_app; split); try apply le_bytes_u8. constructor.
Qed.

Lemma own_frame_fresh me dst t q payload :
  is_u16 me → Z.of_nat (length payload) <= MAX_MTU - 8 →
  own_frame me (encode_header (fresh_header me dst t q) ++ payload).
Proof.
  intros Hme Hl. unfold own_frame. cbv zeta.
  rewrite decode_encode_any, length_app, length_encode_header.
  rewrite take_app_length' by done.
  split_and!.
  - unfold PACKET_HEADER_SIZE. lia.
  - unfold MAX_MTU in *. lia.
  - apply encode_header_u8.
  - cbn [src_addr]. unfold fresh_header. cbn. int_lia.
  - unfold version. cbn [ver_type]. unfold fresh_header, set_ttl_hops, set_ver_type. red_upd.
    cbn [ver_type]. change PROTOCOL_VERSION with 1. rewrite land_63, lor_shiftl6, shiftr6 by lia. int_lia.
  - done.
  - done.
Qed.

Lemma fold_hdr_ext h h' :
  ver_type h' = ver_type h → src_addr h' = src_addr h → dst_addr h' = dst_addr h →
  ttl_hops h' = ttl_hops h → seq_num h' = seq_num h → h' = h.
Proof. destruct h, h'; cbn. congruence. Qed.

(** The copy [forward_packet] makes, the flag possibly set. *)
Lemma relayed_copy me r (flag : bool) :
  Forall is_u8 r → PACKET_HEADER_SIZE <= Z.of_nat (length r) →
  let hr := decode_header r in
  src_addr hr ≠ me → dst_addr hr ≠ me → dst_addr hr ≠ BROADCAST_ADDR → ttl hr ≠ 0 →
  (flag = true → hdr_type hr = ACK ∨ hdr_type hr = NACK) →
  let fwd := set_ttl_hops (ttl hr - 1) (hop_count hr + 1) hr in
  relayed me r (encode_header (if flag then fwd <| seq_num ::= fun s => Z.lor s CONGESTION_FLAG |>
                               else fwd) ++ drop 8 r).
Proof.
  intros Hb Hl hr Hs Hd Hbc Ht Hf fwd.
  pose proof (decode_header_wf r Hb) as (H1 & H2 & H3 & H4 & H5). fold hr in H1, H2, H3, H4, H5.
  pose proof (ttl_range hr H4) as Htr. pose proof (hop_count_range hr) as Hhr.
  assert (Hwf : header_wf (if flag then fwd <| seq_num ::= fun s => Z.lor s CONGESTION_FLAG |> else fwd)).
  { assert (is_u16 (Z.lor (seq_num hr) CONGESTION_FLAG)).
    { unfold is_u16 in *. split; [ apply Z.lor_nonneg; split; [ lia | done ] | ].
      destruct (Z.eq_dec (Z.lor (seq_num hr) CONGESTION_FLAG) 0) as [-> | Hn]; [ lia | ].
      apply (Z.log2_lt_pow2 _ 16); [ apply Z.le_neq; split; [ apply Z.lor_nonneg; split; [ lia | done ] | done ] | ].
      rewrite Z.log2_lor by (try done; lia). apply Z.max_lub_lt; [ | done ].
      destruct (Z.eq_dec (seq_num hr) 0) as [-> | ]; [ done | ]. apply Z.log2_lt_pow2; lia. }
    assert (is_u8 (u8 (Z.lor (Z.shiftl (ttl hr - 1) 4) (Z.land (hop_count hr + 1) 15)))) by int_lia.
    destruct flag; unfold fwd, set_ttl_hops; red_upd; split_and!; cbn; done. }
  unfold relayed. cbv zeta. fold hr. rewrite decode_encode_header by done.
  assert (Hdrop : length (encode_header (if flag then fwd <| seq_num ::= fun s => Z.lor s CONGESTION_FLAG |>
                               else fwd) ++ drop 8 r) = length r).
  { rewrite length_app, length_encode_header, length_drop. unfold PACKET_HEADER_SIZE in Hl. lia. }
  rewrite drop_app_length' by done.
  split_and!; try done; try lia.
  - by destruct flag.
  - by destruct flag.
  - by destruct flag.
  - transitivity (ttl fwd); [ by destruct flag | ]. unfold fwd. apply ttl_set_ttl_hops. lia.
  - transitivity (hop_count fwd); [ by destruct flag | ]. unfold fwd, hop_count, set_ttl_hops. red_upd.
    cbn [ttl_hops]. fold (hop_count hr).
    rewrite (land_15 (hop_count hr + 1)), lor_shiftl4, land_15 by lia. int_lia.
  - destruct flag; [ right; split; [ by apply Hf | done ] | by left ].
Qed.

(** ** The MQTT client's queues *)

Record mqtt_caps (c : MqttClient) : Prop := {
  mc_fragments : Z.of_nat (length (mq_fragment_queue c)) <= MQTT_FRAGMENT_QUEUE_DEPTH;
  mc_fragment_acks : Z.of_nat (length (mq_fragment_acks c)) <= MQTT_FRAGMENT_QUEUE_DEPTH;
  mc_acks : Z.of_nat (length (mq_acks c)) <= MQTT_ACK_QUEUE_DEPTH;
  mc_nacks : Z.of_nat (length (mq_nacks c)) <= MQTT_NACK_QUEUE_DEPTH;
  mc_cmds : Z.of_nat (length (mq_cmds c)) <= MQTT_CMD_QUEUE_DEPTH
}.

Lemma send_cap {A} cap (x : A) q :
  Z.of_nat (length q) <= cap → Z.of_nat (length (xQueueSend cap x q).2) <= cap.
Proof.
  intros H. unfold xQueueSend. destruct (Z.ltb_spec (Z.of_nat (length q)) cap); cbn [snd]; [ | done ].
  rewrite length_app. cbn [length]. lia.
Qed.

Lemma send_front_cap {A} cap (x : A) q :
  Z.of_nat (length q) <= cap → Z.of_nat (length (xQueueSendToFront cap x q).2) <= cap.
Proof.
  intros H. unfold xQueueSendToFront.
  destruct (Z.ltb_spec (Z.of_nat (length q)) cap); cbn [snd length]; [ lia | done ].
Qed.

(** A drain removes what it returns and nothing else. *)
Lemma drain_length sid q :
  let '(r, q') := drain_loop (length q) sid q in
  (length q' + (if r then 1 else 0) = length q)%nat.
Proof.
  destruct (drain_loop_cases sid q) as [[_ ->] | (pre & s & rest & -> & _ & ->)]; [ lia | ].
  rewrite !length_app. cbn [length]. lia.
Qed.

Ltac caps := split; mq_upd; try done; try lia.

Lemma queue_fragment_ack_caps s q c : mqtt_caps c → mqtt_caps (queue_fragment_ack s q c).2.
Proof.
  intros Hc. unfold queue_fragment_ack. destruct (bitmap_test _ _); [ done | ].
  pose proof (send_cap MQTT_FRAGMENT_QUEUE_DEPTH (s, q) _ (mc_fragment_acks c Hc)) as H.
  destruct (xQueueSend _ _ _) as [[ | ] l]; [ | done ]. destruct Hc. by caps.
Qed.

Lemma publish_fragment_caps s q src d f c : mqtt_caps c → mqtt_caps (publish_fragment s q src d f c).2.
Proof.
  intros Hc. unfold publish_fragment. destruct d as [d | ]; [ | done ]. destruct f as [f | ]; [ | done ].
  destruct (_ =? 0); [ done | ]. cbv zeta. destruct (_ && _); [ done | ].
  destruct (_ || _); [ destruct (_ && _); [ by apply queue_fragment_ack_caps | done ] | ].
  match goal with |- context [xQueueSend ?cap ?x ?l] =>
    pose proof (send_cap cap x l (mc_fragments c Hc)) as H; destruct (xQueueSend cap x l) as [[ | ] l'] end;
    [ | done ].
  destruct Hc. by caps.
Qed.

Lemma drain_caps s c :
  mqtt_caps c → mqtt_caps (drain_cloud_ack s c).2 ∧ mqtt_caps (drain_cloud_nack s c).2 ∧
  mqtt_caps (drain_fragment_ack s c).2.
Proof.
  intros []. unfold drain_cloud_ack, drain_cloud_nack, drain_fragment_ack.
  pose proof (drain_length s (mq_acks c)) as H1. pose proof (drain_length s (mq_nacks c)) as H2.
  pose proof (drain_length s (mq_fragment_acks c)) as H3.
  destruct (drain_loop _ s (mq_acks c)) as [r1 q1]. destruct (drain_loop _ s (mq_nacks c)) as [r2 q2].
  destruct (drain_loop _ s (mq_fragment_acks c)) as [r3 q3].
  split_and!; try (destruct r1; caps); try (destruct r2; caps); destruct r3; caps.
Qed.

Lemma requeue_caps s q c :
  mqtt_caps c → mqtt_caps (requeue_cloud_nack s q c).2 ∧ mqtt_caps (requeue_fragment_ack s q c).2.
Proof.
  intros Hc. unfold requeue_cloud_nack, requeue_fragment_ack. split.
  - pose proof (send_front_cap MQTT_NACK_QUEUE_DEPTH (s, q) _ (mc_nacks c Hc)) as H.
    destruct (xQueueSendToFront _ _ _) as [b l]. destruct Hc. by caps.
  - destruct (bitmap_test _ _); [ done | ].
    pose proof (send_front_cap MQTT_FRAGMENT_QUEUE_DEPTH (s, q) _ (mc_fragment_acks c Hc)) as H.
    destruct (xQueueSendToFront _ _ _) as [[ | ] l]; [ | done ]. destruct Hc. by caps.
Qed.

Lemma reset_caps c : mqtt_caps (reset_transfer_runtime_state c) ↔
  Z.of_nat (length (mq_cmds c)) <= MQTT_CMD_QUEUE_DEPTH.
Proof. split; [ by intros [] | intros H; by caps ]. Qed.

Lemma session_caps s c :
  mqtt_caps c → mqtt_caps (activate_transfer_session s c) ∧ mqtt_caps (clear_transfer_session s c).
Proof.
  intros Hc. unfold activate_transfer_session, clear_transfer_session. destruct Hc. split.
  - cbv zeta. destruct (negb _); [ by apply reset_caps | by caps ].
  - destruct (_ =? _); [ by apply reset_caps | done ].
Qed.

Lemma publish_meta_caps {X} (h : MqttHost X) a b c d e f g i m x :
  mqtt_caps m → mqtt_caps (publish_transfer_meta h a b c d e f g i m x).1.
Proof.
  intros Hm. unfold publish_transfer_meta. destruct (session_caps a m Hm) as [Ha _].
  destruct (_ >=? _); [ done | ]. cbv zeta. destruct (_ >=? _); [ done | ].
  destruct (_ && _); [ | done ]. by destruct (bh_publish _ _ _ _ _).
Qed.

Lemma receive_cmd_caps c : mqtt_caps c → mqtt_caps (receive_cmd c).2.
Proof.
  intros Hc. unfold receive_cmd. destruct (mq_cmds c) eqn:E; [ done | ].
  pose proof (mc_cmds c Hc) as H. rewrite E in H. cbn [length] in H. destruct Hc. caps.
Qed.

(** ** The node *)

Section safety.
Context {X : Type} (p : Platform X) (me : Z) (Heard : list Z → Prop) (Good : X → Prop).
Notation MeshManager := (MeshManager X).
Notation Net := (Net X).
Implicit Types (m : MeshManager) (n : Net) (x : X).

(** What this node may hand to a radio. *)
Definition allowed (d : list Z) : Prop := own_frame me d ∨ ∃ r, Heard r ∧ relayed me r d.

Definition heard_ok (f : RxFrame) : Prop :=
  Heard (fa_data f) ∧ Forall is_u8 (fa_data f) ∧ is_i8 (fa_rssi f).

(** [Good] is any property that the drivers keep, the radios for the frames
    that may be sent; a receive queue yields frames that were heard. *)
Record platform_ok : Prop := {
  po_espnow : ∀ x a d, allowed d → Good x → Good (pf_espnow_send p x a d).2;
  po_lora : ∀ x a d, allowed d → Good x → Good (pf_lora_send p x a d).2;
  po_random : ∀ x, Good x → Good (pf_random p x).2;
  po_bits : ∀ x b, Good x → Good (pf_set_bits p x b);
  po_lora_sf : ∀ x k, Good x → Good (pf_set_lora_sf p x k);
  po_peers : ∀ x, Good x → Good (pf_drain_pending_peers p x);
  po_bcast_peer : ∀ x, Good x → Good (pf_update_broadcast_peer p x);
  po_channel : ∀ x k, Good x → Good (pf_set_wifi_channel p x k);
  po_release : ∀ x f, Good x → Good (pf_release p x f);
  po_recv_hi : ∀ x, Good x →
    Good (pf_recv_hi p x).2 ∧ ∀ f, (pf_recv_hi p x).1 = Some f → heard_ok f;
  po_recv_lo : ∀ x, Good x →
    Good (pf_recv_lo p x).2 ∧ ∀ f, (pf_recv_lo p x).1 = Some f → heard_ok f;
  po_publish : ∀ x t d q, Good x → Good (bh_publish (pf_mqtt p) x t d q).2;
  po_subscribe : ∀ x t q, Good x → Good (bh_subscribe (pf_mqtt p) x t q);
  po_heap : ∀ x, Good x → Good (pf_heap_check p x);
  po_restart : ∀ x, Good x → Good (pf_restart p x);
  po_led : ∀ f x b, pf_led p = Some f → Good x → Good (f x b);
  po_uart : ∀ f x d, pf_uart p = Some f → Good x → Good (f x d)
}.

(** The engine's world. *)
Record net_ok n : Prop := {
  no_good : Good (nt_x n);
  no_routes : table_inv (nt_routes n);
  no_mqtt : ∀ c, nt_mqtt n = Some c → mqtt_caps c
}.

Definition cache_ok (c : SeenCache) : Prop :=
  Z.of_nat (length (sc_entries c)) = SEEN_CACHE_SIZE ∧ 0 <= sc_idx c < SEEN_CACHE_SIZE.

(** The node between two frames, commands or timers. *)
Record node_ok (s : MeshManager * Net) : Prop := {
  nd_world : inv net_ok (mm_engine s.1, s.2);
  nd_addr : mm_addr s.1 = me;
  nd_cache : cache_ok (mm_seen s.1);
  nd_seq : is_u16 (mm_inet_seq s.1)
}.

Context (Hp : platform_ok) (Hme : is_u16 me).

Ltac net_upd := cbn [update_field nt_routes nt_selector nt_mqtt nt_x fst snd].
Ltac mm_upd := cbn [update_field mm_addr mm_engine mm_has_internet mm_inet_seq
  mm_preferred_parent mm_channel mm_hop_idx mm_timers mm_peer_update_pending
  mm_exit_offline_pending mm_cmd mm_blocked mm_seen fst snd].

(** *** The world *)

Lemma net_x n x : Good x → net_ok n → net_ok (n <| nt_x := x |>).
Proof. intros Hx []. by split. Qed.
Lemma net_on_x f n : Good (f (nt_x n)) → net_ok n → net_ok (on_x f n).
Proof. intros Hx []. by split. Qed.
Lemma net_routes f n : (table_inv (nt_routes n) → table_inv (f (nt_routes n))) → net_ok n →
  net_ok (n <| nt_routes ::= f |>).
Proof. intros Hf []. split; net_upd; auto. Qed.
Lemma net_selector f n : net_ok n → net_ok (n <| nt_selector ::= f |>).
Proof. intros []. by split. Qed.
Lemma net_mqtt c n : mqtt_caps c → net_ok n → net_ok (n <| nt_mqtt := Some c |>).
Proof. intros Hc []. split; net_upd; try done. by intros ? [= <-]. Qed.

Lemma send_raw_ok t d peer n : allowed d → net_ok n → net_ok (send_raw p t d peer n).2.
Proof.
  intros Hd Hn. unfold send_raw. destruct (_ && _); [ done | ]. cbv zeta.
  assert (Hx : Good (match t with ESPNOW => pf_espnow_send p (nt_x n) peer d
                                | LORA => pf_lora_send p (nt_x n) peer d end).2).
  { destruct t; [ apply (po_espnow Hp) | apply (po_lora Hp) ]; try done; apply Hn. }
  destruct (match t with ESPNOW => _ | LORA => _ end) as [rc x]. cbn [snd] in *.
  pose proof (net_x n x Hx Hn) as H1. set (n1 := n <| nt_x := x |>) in *.
  set (n2 := if negb _ then n1 <| nt_selector ::= _ |> else n1).
  assert (H2 : net_ok n2) by (unfold n2; destruct (negb _); [ by apply net_selector | done ]).
  destruct (_ && _); [ | done ]. apply net_routes; [ | done ].
  intros Ht. by apply (run_route_op_inv (RTx peer (rc =? TRANSPORT_SEND_OK))).
Qed.

Lemma send_both_ok d n : allowed d → net_ok n → net_ok (send_both p d n).
Proof.
  intros Hd Hn. unfold send_both.
  pose proof (send_raw_ok ESPNOW d BROADCAST_ADDR n Hd Hn) as H1.
  destruct (send_raw p ESPNOW d BROADCAST_ADDR n) as [rc n1].
  pose proof (send_raw_ok LORA d BROADCAST_ADDR n1 Hd H1) as H2.
  by destruct (send_raw p LORA d BROADCAST_ADDR n1).
Qed.

Lemma allowed_fresh dst t q payload :
  Z.of_nat (length payload) <= MAX_MTU - 8 →
  allowed (encode_header (fresh_header me dst t q) ++ payload).
Proof. intros H. left. by apply own_frame_fresh. Qed.

Lemma send_packet_ok dst t payload q n :
  net_ok n → net_ok (send_packet p me dst t payload q n).2.
Proof.
  intros Hn. unfold send_packet. destruct (Z.gtb_spec (PACKET_HEADER_SIZE + Z.of_nat (length payload)) MAX_MTU)
    as [ | Hl ]; [ done | ]. cbv zeta.
  assert (Ha : allowed (encode_header (fresh_header me dst t q) ++ payload)).
  { apply allowed_fresh. unfold PACKET_HEADER_SIZE in Hl. lia. }
  destruct (_ =? _); [ by apply send_both_ok | ].
  destruct (_ =? _); [ destruct (_ =? _); [ by apply send_both_ok | done ] | ].
  destruct (link_of _ _) as [rssi hops]. by apply send_raw_ok.
Qed.

Lemma on_mqtt_ok {A} (none : A) f n :
  (∀ c, mqtt_caps c → mqtt_caps (f c).2) → net_ok n → net_ok (on_mqtt none f n).2.
Proof.
  intros Hf Hn. unfold on_mqtt. destruct (nt_mqtt n) as [c | ] eqn:E; [ | done ].
  pose proof (Hf c (no_mqtt n Hn c E)) as Hc. destruct (f c) as [a c']. by apply net_mqtt.
Qed.

Lemma forward_meta_ok n a b c d e f g i :
  net_ok n → net_ok (forward_meta p n a b c d e f g i).
Proof.
  intros Hn. unfold forward_meta. destruct (nt_mqtt n) as [m | ] eqn:E; [ | done ].
  pose proof (publish_meta_caps (pf_mqtt p) (u16 a) b c d e f g i m (nt_x n) (no_mqtt n Hn m E)) as Hc.
  assert (Hx : Good (publish_transfer_meta (pf_mqtt p) (u16 a) b c d e f g i m (nt_x n)).2).
  { unfold publish_transfer_meta. destruct (_ >=? _); [ apply Hn | ]. cbv zeta.
    destruct (_ >=? _); [ apply Hn | ]. destruct (_ && _); [ | apply Hn ].
    match goal with |- context [bh_publish ?h ?x ?t ?d ?q] =>
      pose proof (po_publish Hp x t d q (no_good n Hn)) as Hg; destruct (bh_publish h x t d q) as [id x'] end.
    by apply (po_subscribe Hp). }
  destruct (publish_transfer_meta _ _ _ _ _ _ _ _ _ _ _) as [m' x']. by apply net_x, net_mqtt.
Qed.

(** The transfer engine's callbacks keep the world well-formed. *)
Lemma mesh_host_keeps : keeps_world (mesh_host p me) net_ok.
Proof.
  split; cbn.
  - intros n Hn. pose proof (po_random Hp (nt_x n) (no_good n Hn)) as Hx.
    destruct (pf_random p (nt_x n)) as [r x]. by apply net_x.
  - intros n b Hn. by apply net_on_x, Hn; apply (po_bits Hp), Hn.
  - intros n dst t d q Hn. by apply send_packet_ok.
  - intros f n sid q src d name [= <-] Hn. apply on_mqtt_ok; [ | done ]. intros c. apply publish_fragment_caps.
  - intros f n sid name src size count fs crc [= <-] Hn. by apply forward_meta_ok.
  - intros f n sid [= <-] Hn. apply on_mqtt_ok; [ | done ]. intros c Hc. by apply drain_caps.
  - intros f n sid [= <-] Hn. apply on_mqtt_ok; [ | done ]. intros c Hc. by apply drain_caps.
  - intros f n sid q [= <-] Hn. apply on_mqtt_ok; [ | done ]. intros c Hc. by apply requeue_caps.
  - intros f n sid q [= <-] Hn. apply on_mqtt_ok; [ | done ]. intros c Hc. cbn [snd].
    unfold mark_fragment_for_republish. destruct (_ || _); [ done | ]. destruct Hc. caps.
  - intros f n sid [= <-] Hn. apply on_mqtt_ok; [ | done ]. intros c Hc. by apply drain_caps.
  - intros f n sid q [= <-] Hn. apply on_mqtt_ok; [ | done ]. intros c Hc. by apply requeue_caps.
  - intros f n sid [= <-] Hn. apply on_mqtt_ok; [ | done ]. intros c Hc.
    unfold consume_transfer_complete. destruct (consume_loop _ _ _). destruct Hc. caps.
  - intros f n sid [= <-] Hn. apply on_mqtt_ok; [ | done ]. intros c Hc. by apply session_caps.
Qed.

(** *** The mesh manager *)

Lemma node_net m n n' : net_ok n' → node_ok (m, n) → node_ok (m, n').
Proof. intros Hn [[_ Hr] ? ? ?]. split; try done. Qed.

Lemma node_world m n : node_ok (m, n) → net_ok n.
Proof. intros [[Hn _] ? ? ?]. apply Hn. Qed.

Lemma node_addr m n : node_ok (m, n) → mm_addr m = me.
Proof. intros []. done. Qed.

(** Fields that the invariant does not mention. *)
Lemma node_frame m m' n :
  mm_engine m' = mm_engine m → mm_addr m' = mm_addr m → mm_seen m' = mm_seen m →
  mm_inet_seq m' = mm_inet_seq m → node_ok (m, n) → node_ok (m', n).
Proof. intros E1 E2 E3 E4 []. cbn in *. split; cbn; by rewrite ?E1, ?E2, ?E3, ?E4. Qed.

Ltac frame Hn := refine (node_frame _ _ _ _ _ _ _ Hn); reflexivity.

Lemma engine_ok f m n :
  (∀ e n, inv net_ok (e, n) → inv net_ok (f (mesh_host p me) e n)) →
  node_ok (m, n) → node_ok (engine p f m n).
Proof.
  intros Hf Hn. unfold engine. pose proof Hn as [Hw Ha Hc Hs]. cbn [fst snd] in *. rewrite Ha.
  pose proof (Hf _ _ Hw) as Hi. destruct (f _ _ _) as [e n']. by split.
Qed.

Lemma send_ok dst t payload q m n : node_ok (m, n) → net_ok (send p dst t payload q m n).
Proof.
  intros Hn. unfold send. rewrite (node_addr _ _ Hn). by apply send_packet_ok, (node_world m).
Qed.

Lemma discovery_length m n : length (encode_discovery (discovery_payload p m n)) = 8%nat.
Proof. unfold encode_discovery. rewrite length_pack. done. Qed.

Lemma sync_channel_ok ch m n : node_ok (m, n) → node_ok (sync_channel p ch m n).
Proof.
  intros Hn. unfold sync_channel. destruct (_ && _); [ | done ]. cbv zeta.
  set (m1 := if mm_channel m =? 0 then _ else m).
  assert (H1 : node_ok (m1, n)) by (unfold m1; destruct (_ =? _); [ frame Hn | done ]).
  destruct (negb _); [ | done ].
  apply (node_net _ n); [ | frame H1 ].
  apply net_on_x; [ apply (po_channel Hp), (node_world _ _ H1) | apply (node_world _ _ H1) ].
Qed.

Lemma handle_discovery_ok hdr source payload m n :
  is_u16 (src_addr hdr) → Forall is_u8 payload →
  node_ok (m, n) → node_ok (handle_discovery p hdr source payload m n).
Proof.
  intros Hsrc Hb Hn. unfold handle_discovery. destruct (_ <? _); [ done | ]. cbv zeta.
  pose proof (decode_discovery_wf payload Hb) as (D1 & D2 & D3 & D4).
  set (disc := decode_discovery payload) in *.
  set (n1 := if negb _ then _ else n).
  assert (H1 : node_ok (m, n1)).
  { apply (node_net m n); [ | done ]. unfold n1. destruct (negb _); [ | by apply (node_world m) ].
    apply net_routes; [ | by apply (node_world m) ].
    by apply (run_route_op_inv (RSetInternet (src_addr hdr) true)). }
  match goal with |- context [sync_channel p ?ch m n1] =>
    pose proof (sync_channel_ok ch m n1 H1) as H2; destruct (sync_channel p ch m n1) as [m2 n2] end.
  set (n3 := n2 <| nt_routes ::= _ |>).
  assert (H3 : node_ok (m2, n3)).
  { apply (node_net m2 n2); [ | done ]. apply net_routes; [ | by apply (node_world m2) ]. intros Ht.
    apply (run_route_op_inv (RSetLoad (src_addr hdr) (disc_queue_load disc))); [ done | ].
    by apply (run_route_op_inv (RInet (src_addr hdr) (disc_hops_to_internet disc)
      (disc_inet_seq disc) (disc_inet_origin disc))). }
  destruct (dst_addr hdr =? BROADCAST_ADDR); [ | exact H3 ]. pose proof (discovery_length m2 n3) as Hl.
  destruct source.
  - apply (node_net m2 n3); [ | done ]. by apply send_ok.
  - apply (node_net m2 n3); [ | done ]. apply send_raw_ok; [ | by apply (node_world m2) ].
    rewrite (node_addr _ _ H3). apply allowed_fresh. rewrite Hl. done.
Qed.

Lemma update_parent_ok m n : node_ok (m, n) → node_ok (update_parent m n).
Proof.
  intros Hn. unfold update_parent. destruct (mm_has_internet m); [ done | ]. cbv zeta.
  set (cur := if negb _ then _ else _).
  pose proof (run_route_op_inv (RCheckBetter cur (mm_addr m)) (nt_routes n) I
    (no_routes n (node_world _ _ Hn))) as Ht. cbn [run_route_op] in Ht.
  destruct (check_better_route cur (mm_addr m) (nt_routes n)) as [[sw a] t]. cbn [snd] in Ht.
  assert (H1 : node_ok (m, n <| nt_routes := t |>)).
  { apply (node_net m n); [ | done ]. apply net_routes; [ done | by apply (node_world m) ]. }
  destruct sw; [ frame H1 | ]. destruct (_ && _); [ frame H1 | done ].
Qed.

Lemma send_discovery_ok m n : node_ok (m, n) → node_ok (send_discovery p m n).
Proof.
  intros Hn. unfold send_discovery. cbv zeta.
  set (m1 := if mm_has_internet m then _ else m).
  assert (H1 : node_ok (m1, n)).
  { unfold m1. destruct (mm_has_internet m); [ | done ]. destruct Hn. split; mm_upd; try done. int_lia. }
  set (frame := encode_header _ ++ _).
  assert (Ha : allowed frame).
  { unfold frame. rewrite (node_addr _ _ H1). apply allowed_fresh.
    rewrite discovery_length. done. }
  pose proof (send_raw_ok ESPNOW frame BROADCAST_ADDR n Ha (node_world _ _ H1)) as H2.
  destruct (send_raw p ESPNOW frame BROADCAST_ADDR n) as [rc n2]. cbn [snd] in H2.
  apply update_parent_ok, (node_net m1 n); [ | done ].
  destruct (_ && _); [ by apply send_raw_ok | done ].
Qed.

Lemma send_route_error_ok a b c m n : node_ok (m, n) → net_ok (send_route_error p a b c m n).
Proof. apply send_ok. Qed.

Lemma handle_route_error_ok payload m n : node_ok (m, n) → node_ok (m, handle_route_error p payload m n).
Proof.
  intros Hn. apply (node_net m n); [ | done ]. unfold handle_route_error.
  destruct (_ <? _); [ by apply (node_world m) | ]. cbv zeta.
  set (dead := rerr_dead_addr _).
  pose proof (run_route_op_inv (RInvalidate dead) (nt_routes n) I (no_routes n (node_world _ _ Hn))) as Ht.
  cbn [run_route_op] in Ht. destruct (invalidate_route_via dead (nt_routes n)) as [used t].
  assert (H1 : net_ok (n <| nt_routes := t |>)) by (apply net_routes; [ done | by apply (node_world m) ]).
  destruct used; [ | done ]. apply send_route_error_ok. by apply (node_net m n).
Qed.

Lemma mqtt_publish_raw_ok src id d n : net_ok n → net_ok (mqtt_publish_raw p src id d n).
Proof.
  intros Hn. unfold mqtt_publish_raw. destruct (nt_mqtt n); [ | done ]. cbv zeta.
  apply net_on_x; [ | done ]. unfold publish_raw. destruct (_ || _); [ apply Hn | ].
  apply (po_publish Hp), Hn.
Qed.

Lemma relay_publish_ok id d m n : node_ok (m, n) → net_ok (relay_publish p id d m n).
Proof.
  intros Hn. unfold relay_publish. destruct (_ && _); [ | by apply send_ok ].
  by apply mqtt_publish_raw_ok, (node_world m).
Qed.

Lemma telemetry_ok m n : node_ok (m, n) → node_ok (m, publish_all_telemetry p m n).
Proof.
  intros Hn. unfold publish_all_telemetry. cbv zeta.
  assert (Hr : ∀ id d n, node_ok (m, n) → node_ok (m, relay_publish p id d m n)).
  { intros id d n' Hn'. apply (node_net m n'); [ by apply relay_publish_ok | done ]. }
  set (n1 := match serialize _ _ with Some _ => _ | None => n end).
  assert (H1 : node_ok (m, n1)) by (unfold n1; destruct (serialize _ _); [ by apply Hr | done ]).
  set (n2 := match serialize_metrics _ _ with Some _ => _ | None => n1 end).
  assert (H2 : node_ok (m, n2)) by (unfold n2; destruct (serialize_metrics _ _); [ by apply Hr | done ]).
  destruct (_ >? _); [ by apply Hr | done ].
Qed.

Lemma on_x_node f m n : (Good (nt_x n) → Good (f (nt_x n))) → node_ok (m, n) → node_ok (m, on_x f n).
Proof.
  intros Hf Hn. pose proof (node_world _ _ Hn) as Hw. apply (node_net m n); [ | done ].
  apply net_on_x; [ apply Hf, Hw | done ].
Qed.

Lemma topic_msg_ok d m n : node_ok (m, n) → node_ok (handle_topic_msg p d m n).
Proof.
  intros Hn. unfold handle_topic_msg. destruct (_ <? _); [ done | ]. cbv zeta.
  destruct (_ || _); [ done | ]. destruct (existsb _ _); [ | done ].
  set (m1 := if bool_decide (_ = str "config") then _ else m).
  assert (H1 : node_ok (m1, n)) by (unfold m1; destruct (bool_decide (_ = str "config")); [ frame Hn | done ]).
  set (m2 := if bool_decide (_ = str "msg") then _ else m1).
  assert (H2 : node_ok (m2, n)) by (unfold m2; destruct (bool_decide (_ = str "msg")); [ frame H1 | done ]).
  destruct (pf_uart p) eqn:E; [ | done ]. apply on_x_node; [ | done ]. by apply (po_uart Hp).
Qed.

Lemma mesh_cmd_ok payload m n : node_ok (m, n) → node_ok (handle_mesh_cmd p payload m n).
Proof.
  intros Hn. unfold handle_mesh_cmd. destruct (_ <? _); [ done | ]. cbv zeta.
  destruct (_ && _); [ done | ]. set (m1 := m <| mm_cmd ::= _ |>).
  assert (H1 : node_ok (m1, n)) by frame Hn.
  destruct (_ =? _); [ by apply telemetry_ok | ].
  destruct (_ =? _); [ apply on_x_node; [ apply (po_restart Hp) | done ] | ].
  destruct (_ =? _).
  - destruct (pf_led p) eqn:E; [ | done ]. destruct (_ >=? _); [ | done ].
    apply on_x_node; [ | done ]. by apply (po_led Hp).
  - destruct (_ =? _); [ by apply topic_msg_ok | done ].
Qed.

Lemma drain_cmds_ok fuel m n : node_ok (m, n) → node_ok (drain_cmds p fuel m n).
Proof.
  revert m n. induction fuel as [ | fuel IH ]; intros m n Hn; cbn [drain_cmds]; [ done | ].
  pose proof (on_mqtt_ok None receive_cmd n receive_cmd_caps (node_world _ _ Hn)) as H1.
  destruct (on_mqtt None receive_cmd n) as [cmd n1]. cbn [snd] in H1.
  pose proof (node_net m n n1 H1 Hn) as H2. destruct cmd as [cmd | ]; [ | done ].
  assert (H3 : node_ok (route_cmd p cmd m n1)).
  { unfold route_cmd. cbv zeta. destruct (_ =? _); [ by apply mesh_cmd_ok | ].
    apply (node_net m n1); [ by apply send_ok | done ]. }
  destruct (route_cmd p cmd m n1) as [m3 n3]. by apply IH.
Qed.

(** *** Forwarding and receiving *)

Lemma already_seen_ok now a b c d e s : cache_ok s → cache_ok (already_seen now a b c d e s).2.
Proof.
  intros [Hl Hi]. unfold already_seen. destruct (existsb _ _); [ done | ]. cbv zeta.
  split; cbn [snd sc_entries sc_idx].
  - by rewrite length_aset.
  - unfold SEEN_CACHE_SIZE in *. destruct (_ =? _); lia.
Qed.

Lemma forward_packet_ok d m n :
  Heard d → Forall is_u8 d → PACKET_HEADER_SIZE <= Z.of_nat (length d) →
  let hdr := decode_header d in
  src_addr hdr ≠ me → dst_addr hdr ≠ me → dst_addr hdr ≠ BROADCAST_ADDR → ttl hdr ≠ 0 →
  node_ok (m, n) → net_ok (forward_packet p d hdr m n).
Proof.
  intros Hh Hb Hl hdr Hs Hd Hbc Ht Hn. unfold forward_packet. cbv zeta.
  destruct (_ && negb _).
  { destruct (match hdr_type hdr with DATA | PARITY => true | _ => false end);
      [ by apply send_ok | by apply (node_world m) ]. }
  change (Z.to_nat PACKET_HEADER_SIZE) with 8%nat.
  assert (Hr : ∀ flag : bool, (flag = true → hdr_type hdr = ACK ∨ hdr_type hdr = NACK) →
    allowed (encode_header (if flag
      then set_ttl_hops (ttl hdr - 1) (hop_count hdr + 1) hdr
             <| seq_num ::= fun s => Z.lor s CONGESTION_FLAG |>
      else set_ttl_hops (ttl hdr - 1) (hop_count hdr + 1) hdr) ++ drop 8 d)).
  { intros flag Hf. right. exists d. split; [ done | ]. by apply relayed_copy. }
  destruct (match hdr_type hdr with TRANSFER_AD | EXIT_OFFLINE => true | _ => false end).
  { apply send_both_ok; [ by apply (Hr false) | by apply (node_world m) ]. }
  destruct (_ =? _); [ by apply (node_world m) | ].
  apply send_raw_ok; [ | by apply (node_world m) ]. apply Hr.
  intros [Ha _]%andb_true_iff. destruct (hdr_type hdr); try done; auto.
Qed.

Lemma forward_once_ok d m n :
  Heard d → Forall is_u8 d → PACKET_HEADER_SIZE <= Z.of_nat (length d) →
  let hdr := decode_header d in
  src_addr hdr ≠ me → dst_addr hdr ≠ me → dst_addr hdr ≠ BROADCAST_ADDR → ttl hdr ≠ 0 →
  node_ok (m, n) → node_ok (forward_once p d hdr m n).
Proof.
  intros Hh Hb Hl hdr Hs Hd Hbc Ht Hn. unfold forward_once. cbv zeta.
  match goal with |- context [already_seen ?a ?b ?c ?t ?q ?w ?s] =>
    pose proof (already_seen_ok a b c t q w s (nd_cache _ Hn)) as Hc;
    destruct (already_seen a b c t q w s) as [seen cache] end. cbn [snd] in Hc.
  assert (H1 : node_ok (m <| mm_seen := cache |>, n)) by (destruct Hn; by split).
  destruct seen; [ done | ]. apply (node_net _ n); [ | done ]. by apply forward_packet_ok.
Qed.

Lemma deliver_ok hdr source payload exit m n :
  is_u16 (src_addr hdr) → Forall is_u8 payload →
  node_ok (m, n) → node_ok (deliver p hdr source payload exit m n).
Proof.
  intros Hsrc Hb Hn. unfold deliver. pose proof mesh_host_keeps as K.
  assert (Hans : ∀ nack, node_ok (handle_answer p nack hdr m n)).
  { intros nack. unfold handle_answer. cbv zeta.
    match goal with |- context [engine p ?f m n] =>
      assert (H1 : node_ok (engine p f m n)) end.
    { apply engine_ok; [ | done ]. intros e n' Hi. destruct nack.
      - by apply handle_nack_inv.
      - by apply handle_ack_inv. }
    destruct (engine p _ m n) as [m1 n1]. destruct (seq_has_congestion _); [ | done ].
    destruct H1 as [[Hw Hr] ? ? ?]. split; try done. }
  destruct (hdr_type hdr); try apply Hans; try exact Hn.
  - apply engine_ok; [ | done ]. intros e n'. by apply handle_data_inv.
  - apply engine_ok; [ | done ]. intros e n'. by apply handle_data_inv.
  - by apply handle_discovery_ok.
  - by apply handle_route_error_ok.
  - apply engine_ok; [ | done ]. intros e n'. by apply transfer_ad_inv.
  - apply engine_ok; [ | done ]. intros e n' Hi. by apply transfer_ack_inv.
  - apply engine_ok; [ | done ]. intros e n'. by apply transfer_done_inv.
  - apply (node_net m n); [ | done ]. unfold handle_mesh_pub.
    destruct (_ <? _); [ by apply (node_world m) | by apply mqtt_publish_raw_ok, (node_world m) ].
  - by apply mesh_cmd_ok.
Qed.

Lemma process_slab_ok f m n : heard_ok f → node_ok (m, n) → node_ok (process_slab p f m n).
Proof.
  intros (Hh & Hb & Hrssi) Hn. unfold process_slab. cbv zeta.
  destruct (Z.ltb_spec (Z.of_nat (length (fa_data f))) PACKET_HEADER_SIZE) as [ | Hl ]; [ done | ].
  set (hdr := decode_header (fa_data f)).
  pose proof (decode_header_wf _ Hb) as (_ & Hsrc & _). fold hdr in Hsrc.
  destruct (Z.eqb_spec (src_addr hdr) (mm_addr m)) as [ | Hs ]; [ done | ].
  rewrite (node_addr _ _ Hn) in Hs.
  destruct (blocked hdr m); [ done | ]. destruct (negb _); [ done | ].
  set (payload := drop _ (fa_data f)).
  assert (Hpb : Forall is_u8 payload) by (by apply Forall_drop).
  match goal with |- context [let '(_, _) := ?t in _] =>
    assert (H1 : node_ok t); [ | destruct t as [m1 n1] ] end.
  { destruct (_ && _); [ | done ]. apply engine_ok; [ | done ]. intros e n'.
    apply exit_offline_inv, mesh_host_keeps. }
  destruct (Z.eqb_spec (ttl hdr) 0) as [ | Ht ]; [ done | ].
  set (n2 := if hop_count hdr =? 0 then _ else n1).
  assert (H2 : node_ok (m1, n2)).
  { apply (node_net m1 n1); [ | done ]. unfold n2.
    destruct (_ =? _); [ | by apply (node_world m1) ].
    apply net_routes; [ | by apply (node_world m1) ]. intros Hti.
    apply (run_route_op_inv (RUpdate (now_ms p n1) (src_addr hdr) (fa_rssi f) (hop_count hdr) _ _
      ROUTE_HOPS_UNKNOWN)); [ | done ].
    pose proof (hop_count_range hdr). split_and!; try done; unfold now_ms, ROUTE_HOPS_UNKNOWN; int_lia. }
  set (exit := is_exit m1 n2).
  match goal with |- context [let '(_, _) := ?t in _] =>
    assert (H3 : node_ok t); [ | destruct t as [m3 n3] ] end.
  { destruct (_ || _); [ by apply deliver_ok | done ]. }
  destruct (negb _ && negb _ && negb _) eqn:Ef; [ | exact H3 ].
  apply andb_true_iff in Ef as [[E1 E2]%andb_true_iff _].
  apply negb_true_iff, Z.eqb_neq in E1, E2. rewrite (node_addr _ _ H3) in E1. by apply forward_once_ok.
Qed.

(** *** The loop *)

Lemma drain_rx_ok recv budget m n :
  (∀ x, Good x → Good (recv x).2 ∧ ∀ f, (recv x).1 = Some f → heard_ok f) →
  node_ok (m, n) →
  let '(_, m', n') := drain_rx p recv budget m n in node_ok (m', n').
Proof.
  intros Hr. revert m n. induction budget as [ | budget IH ]; intros m n Hn; cbn [drain_rx]; [ done | ].
  pose proof (Hr (nt_x n) (no_good n (node_world _ _ Hn))) as [Hg Hf].
  destruct (recv (nt_x n)) as [f x]. cbn [fst snd] in Hg, Hf.
  assert (H1 : node_ok (m, n <| nt_x := x |>)).
  { apply (node_net m n); [ | done ]. apply net_x; [ done | by apply (node_world m) ]. }
  destruct f as [f | ]; [ | done ].
  pose proof (process_slab_ok f m _ (Hf f eq_refl) H1) as H2.
  destruct (process_slab p f m _) as [m2 n2]. apply IH, on_x_node; [ | done ]. apply (po_release Hp).
Qed.

Lemma discovery_phase_ok now m n : node_ok (m, n) → node_ok (discovery_phase p now m n).
Proof.
  intros Hn. unfold discovery_phase. cbv zeta. destruct (elapsed _ _ _); [ | done ].
  pose proof (send_discovery_ok m n Hn) as H1. destruct (send_discovery p m n) as [m1 n1]. frame H1.
Qed.

Lemma prune_phase_ok now m n : node_ok (m, n) → node_ok (prune_phase p now m n).
Proof.
  intros Hn. unfold prune_phase. destruct (elapsed _ _ _); [ | done ].
  pose proof (run_route_op_inv (REarlyStale (now_ms p n) kEarlyStaleTimeoutMs) (nt_routes n) I
    (no_routes n (node_world _ _ Hn))) as Ht. cbn [run_route_op] in Ht.
  destruct (detect_early_stale _ _ _) as [dead t]. cbn [snd] in Ht.
  assert (H1 : node_ok (m, n <| nt_routes := t |>)).
  { apply (node_net m n); [ | done ]. apply net_routes; [ done | by apply (node_world m) ]. }
  revert H1. generalize (n <| nt_routes := t |>). intros n1 H1.
  assert (H2 : node_ok (m, fold_left (fun n '(addr, origin, seq) =>
    send_route_error p addr origin seq m n) dead n1)).
  { revert n1 H1. induction dead as [ | [[a o] q] dead IH ]; intros n1 H1; [ done | ].
    cbn [fold_left]. apply IH, (node_net m n1); [ by apply send_route_error_ok | done ]. }
  set (n2 := fold_left _ dead n1) in *.
  assert (H3 : node_ok (m, n2 <| nt_routes ::= prune_stale (now_ms p n2) kNeighborStaleTimeoutMs |>)).
  { apply (node_net m n2); [ | done ]. apply net_routes; [ | by apply (node_world m) ].
    by apply (run_route_op_inv (RPrune (now_ms p n2) kNeighborStaleTimeoutMs)). }
  frame H3.
Qed.

Lemma bias_phase_ok now m n : node_ok (m, n) → node_ok (bias_phase p now m n).
Proof.
  intros Hn. unfold bias_phase. destruct (elapsed _ _ _); [ | done ]. cbv zeta.
  set (n1 := on_x _ _).
  assert (H1 : node_ok (m, n1)).
  { apply on_x_node; [ apply (po_heap Hp) | ].
    apply (node_net m n); [ | done ]. by apply net_selector, (node_world m). }
  set (n2 := if _ && _ then _ else n1).
  assert (H2 : node_ok (m, n2)).
  { unfold n2. destruct (_ && _); [ | done ]. apply on_x_node; [ apply (po_lora_sf Hp) | done ]. }
  frame H2.
Qed.

Lemma telemetry_phase_ok now m n : node_ok (m, n) → node_ok (telemetry_phase p now m n).
Proof.
  intros Hn. unfold telemetry_phase. destruct (elapsed _ _ _); [ | done ].
  pose proof (telemetry_ok m n Hn) as H1. frame H1.
Qed.

Lemma channel_hop_ok now m n : node_ok (m, n) → node_ok (channel_hop_phase p now m n).
Proof.
  intros Hn. unfold channel_hop_phase. destruct (_ && _ && _); [ | done ]. cbv zeta.
  set (ch := u8 _). set (m1 := m <| mm_hop_idx := ch |> <| mm_channel := ch |>).
  assert (H1 : node_ok (m1, on_x (fun x => pf_set_wifi_channel p x ch) n)).
  { apply on_x_node; [ apply (po_channel Hp) | frame Hn ]. }
  pose proof (send_discovery_ok _ _ H1) as H2. destruct (send_discovery p m1 _) as [m2 n2]. frame H2.
Qed.

Lemma exit_offline_frame_ok m n : node_ok (m, n) → net_ok (broadcast_exit_offline p m n).
Proof.
  intros Hn. unfold broadcast_exit_offline. cbv zeta. rewrite (node_addr _ _ Hn).
  apply send_both_ok; [ by apply allowed_fresh | by apply (node_world m) ].
Qed.

Lemma run_once_ok m n : node_ok (m, n) → node_ok (run_once p m n).
Proof.
  intros Hn. unfold run_once. pose proof (drain_rx_ok (pf_recv_hi p) kMaxQueueDrainPerLoop m n (po_recv_hi Hp) Hn) as H1.
  destruct (drain_rx p (pf_recv_hi p) _ m n) as [[b1 m1] n1].
  pose proof (drain_rx_ok (pf_recv_lo p) b1 m1 n1 (po_recv_lo Hp) H1) as H2.
  destruct (drain_rx p (pf_recv_lo p) b1 m1 n1) as [[b2 m2] n2]. cbv zeta.
  set (n3 := on_x _ n2). assert (H3 : node_ok (m2, n3)) by (apply on_x_node; [ apply (po_peers Hp) | done ]).
  set (n4 := if mm_peer_update_pending m2 then _ else n3).
  assert (H4 : node_ok (m2 <| mm_peer_update_pending := false |>, n4)).
  { assert (H : node_ok (m2, n4)); [ | frame H ]. unfold n4. destruct (mm_peer_update_pending m2); [ | done ].
    apply on_x_node; [ apply (po_bcast_peer Hp) | done ]. }
  set (m4 := m2 <| mm_peer_update_pending := false |>) in *.
  set (n5 := if mm_exit_offline_pending m4 then _ else n4).
  assert (H5 : node_ok (m4 <| mm_exit_offline_pending := false |>, n5)).
  { assert (H : node_ok (m4, n5)); [ | frame H ]. apply (node_net m4 n4); [ | done ].
    unfold n5. destruct (mm_exit_offline_pending m4); [ by apply exit_offline_frame_ok | by apply (node_world m4) ]. }
  set (m5 := m4 <| mm_exit_offline_pending := false |>) in *. set (now := now_ms p n5).
  pose proof (discovery_phase_ok now m5 n5 H5) as H6. destruct (discovery_phase p now m5 n5) as [m6 n6].
  pose proof (prune_phase_ok now m6 n6 H6) as H7. destruct (prune_phase p now m6 n6) as [m7 n7].
  pose proof (bias_phase_ok now m7 n7 H7) as H8. destruct (bias_phase p now m7 n7) as [m8 n8].
  pose proof (telemetry_phase_ok now m8 n8 H8) as H9. destruct (telemetry_phase p now m8 n8) as [m9 n9].
  pose proof (channel_hop_ok now m9 n9 H9) as H10. destruct (channel_hop_phase p now m9 n9) as [m10 n10].
  assert (H11 : node_ok (drain_cmd_queue p m10 n10)).
  { unfold drain_cmd_queue. destruct (nt_mqtt n10); [ by apply drain_cmds_ok | done ]. }
  destruct (drain_cmd_queue p m10 n10) as [m11 n11].
  apply engine_ok; [ | done ]. intros e n'. apply tick_inv, mesh_host_keeps.
Qed.

(** *** Every history *)

(** A turn of the loop; the WiFi event; an application's calls; what the other
    tasks and the drivers do in between. *)
Inductive node_step : MeshManager * Net → MeshManager * Net → Prop :=
  | step_turn m n : node_step (m, n) (run_once p m n)
  | step_internet v m n : node_step (m, n) (set_has_internet v m, n)
  | step_subscribe topic m n : node_step (m, n) (subscribe_topic topic m, n)
  | step_start filename size data m n ok m' n' :
      start_file_transfer p filename size (make_buffer_reader data size) m n = (ok, m', n') →
      node_step (m, n) (m', n')
  | step_others m n c x :
      Good x → (∀ c', c = Some c' → mqtt_caps c') →
      node_step (m, n) (m, n <| nt_mqtt := c |> <| nt_x := x |>).

Lemma node_step_ok s s' : node_step s s' → node_ok s → node_ok s'.
Proof.
  intros [m n | v m n | topic m n | filename size data m n ok m' n' E | m n c x Hx Hc] Hn.
  - by apply run_once_ok.
  - unfold set_has_internet. destruct (Bool.eqb _ _); [ done | ]. destruct (negb v); frame Hn.
  - unfold subscribe_topic. destruct (_ >=? _); [ done | frame Hn ].
  - unfold start_file_transfer in E. pose proof (node_addr _ _ Hn) as Ea. rewrite Ea in E. cbv zeta in E.
    assert (Hr : read_ok net_ok (make_buffer_reader data size)).
    { intros w off len Hw. unfold make_buffer_reader. by destruct (_ >=? _). }
    match type of E with context [TransferEngine.start_file_transfer ?h ?a ?b ?c ?d ?e ?f ?g ?n] =>
      pose proof (start_inv h net_ok mesh_host_keeps a b c d e f g n Hr (nd_world _ Hn)) as H1;
      destruct (TransferEngine.start_file_transfer h a b c d e f g n) as [[ok1 e1] n1] end.
    apply (inj2 pair) in E as [E <-]. apply (inj2 pair) in E as [_ <-].
    destruct Hn. by split.
  - apply (node_net m n); [ | done ]. destruct (node_world _ _ Hn). by split.
Qed.

Lemma init_ok blocked alloc mqtt x :
  Good x → (∀ c, mqtt = Some c → mqtt_caps c) → node_ok (init p me blocked alloc mqtt x).
Proof.
  intros Hx Hc. split; cbn; try done.
  split; [ | done ]. split; cbn; [ done | apply routes_new_inv | done ].
Qed.

Lemma node_reachable blocked alloc mqtt x s :
  Good x → (∀ c, mqtt = Some c → mqtt_caps c) →
  rtc node_step (init p me blocked alloc mqtt x) s → node_ok s.
Proof.
  intros Hx Hc. pose proof (init_ok blocked alloc mqtt x Hx Hc) as H0. revert H0.
  generalize (init p me blocked alloc mqtt x). intros s0 Hs Hr.
  induction Hr as [ | s1 s2 s3 Hstep _ IH ]; [ done | ]. apply IH. by apply (node_step_ok s1).
Qed.
End safety.

(** C7: what a node sends and keeps, from boot, through every sequence of
    main-loop turns (with whatever frames were heard), WiFi events, local
    transfers and interventions of the MQTT task and the drivers. Every frame
    it hands to a radio is its own (its address, TTL 8, no hops, at most an
    MTU) or the copy of a frame it heard, addressed to someone else, from
    someone else, with a TTL one less, a hop count one more and, the
    congestion flag of ACK and NACK apart, nothing else changed. [Good] is any property of
    the drivers' state that such sends keep. The route table keeps its invariant and
    the MQTT queues their bounds. *)
Theorem node_air_discipline {X} (p : Platform X) me Heard Good blocked alloc mqtt x0 m n :
  platform_ok p me Heard Good → is_u16 me →
  Good x0 → (∀ c, mqtt = Some c → mqtt_caps c) →
  rtc (node_step p Good) (init p me blocked alloc mqtt x0) (m, n) →
  Good (nt_x n) ∧ table_inv (nt_routes n) ∧ (∀ c, nt_mqtt n = Some c → mqtt_caps c) ∧
  mm_addr m = me ∧ length (sc_entries (mm_seen m)) = Z.to_nat SEEN_CACHE_SIZE.
Proof.
  intros Hp Hme Hx Hc Hr.
  pose proof (node_reachable p me Heard Good Hp Hme blocked alloc mqtt x0 _ Hx Hc Hr) as Hn.
  destruct Hn as [[[] _] Ha [Hl _] _]. cbn in *. split_and!; try done. lia.
Qed.
