(* ===== verification/MeshDemo.v ===== *)
(** * A concrete platform for the mesh manager

    An executable [Platform]: a world that holds the clock, the frames waiting
    to be received and a log of the frames sent. The theorems that exhibit a
    behaviour run nodes on it, and the witnesses too. *)

From Stdlib Require Import ZArith Lia SpecFloat String.
From stdpp Require Import base list numbers option sets relations.
From S2P Require Import Prelude.
From S2P Require Import CString.
From S2P Require Import Packet.
From S2P Require Import Fec.
From S2P Require Import SelectiveRepeat.
From S2P Require Import Receiver.
From S2P Require Import ProtocolSelector.
From S2P Require Import MqttClient.
From S2P Require Import MqttPipeline.
From S2P Require Import RouteTable.
From S2P Require Import TransferState.
From S2P Require Import TransferRoles.
From S2P Require Import MeshLink.
From S2P Require Import MeshManager.
From S2P Require Import MeshSafety.
Open Scope Z_scope.
Open Scope flp_scope.

Record DemoAir := mk_air {
  da_now : Z;                                   (* milliseconds *)
  da_rx : list RxFrame;
  da_log : list (Transport * Z * list Z)
}.
#[export] Instance eta_DemoAir : Eta DemoAir := fun x => mk_air (da_now x) (da_rx x) (da_log x).

Definition air_send (t : Transport) (x : DemoAir) (peer : Z) (d : list Z) : Z * DemoAir :=
  (TRANSPORT_SEND_OK, x <| da_log ::= fun l => l ++ [(t, peer, d)] |>).

(** No LoRa radio, no access point, empty driver queues, a heap report. *)
Definition demo_platform : Platform DemoAir :=
  mk_platform (fun x => da_now x * 1000) (fun x => (7, x)) (fun _ => true)
    (fun crc bs => u32 (fold_left Z.add bs crc)) (fun _ => None) (fun x _ => x)
    (air_send ESPNOW) (air_send LORA) (fun _ => false) (fun _ => 7) (fun x _ => x)
    (fun x => x) (fun x => x) (fun _ => 1) (fun x _ => x) (fun _ => false) (fun x _ => x)
    (fun _ => 256) (fun _ => 256)
    (fun x => match da_rx x with
              | [] => (None, x)
              | f :: l => (Some f, x <| da_rx := l |>)
              end)
    (fun x => (None, x))
    (mk_mqtt_host (fun x _ _ _ => (0, x)) (fun x _ _ => x) (fun _ => 0) da_now (fun _ _ => 0)
       (fun x => x) None)
    (fun x => x) (fun _ => [1; 2; 3; 4]) (fun x => x) None None 1.

Definition demo_mesh (addr : Z) (now : Z) (rx : list RxFrame) :
    MeshManager DemoAir * Net DemoAir :=
  MeshManager.init demo_platform addr [] (fun _ => true) None (mk_air now rx []).

(** The frames a node sent. *)
Definition sent (s : MeshManager DemoAir * Net DemoAir) : list (list Z) :=
  (fun x => x.2) <$> da_log (nt_x s.2).

(** ** One turn of a relay *)

(** A discovery answer makes node 9 known, one hop from the internet; then a
    TRANSFER_AD of node 5 for any exit arrives. *)
Definition demo_disc : list Z :=
  encode_header (fresh_header 9 3 DISCOVERY 0) ++ encode_discovery (mk_disc 1 0 0 2 9 0).
Definition demo_ad_frame : list Z :=
  encode_header (fresh_header 5 EXIT_ANY_ADDR TRANSFER_AD 0) ++ replicate 46 1.

Definition demo_heard (d : list Z) : Prop := d = demo_disc ∨ d = demo_ad_frame.

Definition demo_good (me : Z) (x : DemoAir) : Prop :=
  Forall (fun e => allowed me demo_heard e.2) (da_log x) ∧ Forall (heard_ok demo_heard) (da_rx x).

Lemma demo_platform_ok me : platform_ok demo_platform me demo_heard (demo_good me).
Proof.
  assert (Hsend : ∀ t x a d, allowed me demo_heard d → demo_good me x →
    demo_good me (air_send t x a d).2).
  { intros t x a d Hd [Hl Hr]. split; [ | done ]. apply Forall_app. split; [ done | ].
    by apply Forall_singleton. }
  split; cbn; try done; try apply Hsend.
  intros x [Hl Hr]. destruct (da_rx x) as [ | f l ] eqn:E.
  - split; [ split; [ done | cbn; rewrite E; done ] | done ].
  - apply Forall_cons_1 in Hr as [Hf Hr]. split; [ done | ]. by intros ? [= <-].
Qed.

Definition relay_turn : MeshManager DemoAir * Net DemoAir :=
  run_once demo_platform
    (demo_mesh 3 1000 [mk_frame demo_disc (-50) RX_ESPNOW; mk_frame demo_ad_frame (-60) RX_ESPNOW]).1
    (demo_mesh 3 1000 [mk_frame demo_disc (-50) RX_ESPNOW; mk_frame demo_ad_frame (-60) RX_ESPNOW]).2.

#[local] Strategy expand [relay_turn].

Lemma node_air_discipline_witness :
  demo_good 3 (nt_x relay_turn.2) ∧
  (hop_count ∘ decode_header) <$> sent relay_turn = [1] ∧
  (ttl ∘ decode_header) <$> sent relay_turn = [7].
Proof.
  split; [ | split; vm_compute; reflexivity ].
  pose proof (node_air_discipline demo_platform 3 demo_heard (demo_good 3) [] (fun _ => true) None
    (mk_air 1000 [mk_frame demo_disc (-50) RX_ESPNOW; mk_frame demo_ad_frame (-60) RX_ESPNOW] [])
    relay_turn.1 relay_turn.2 (demo_platform_ok 3) ltac:(unfold is_u16; lia)) as H.
  apply H.
  - split; [ by apply Forall_nil_2 | ]. repeat apply Forall_cons_2; [ | | by apply Forall_nil_2 ].
    + split_and!; [ by left | | unfold is_i8; cbn; lia ]. repeat constructor; vm_compute; done.
    + split_and!; [ by right | | unfold is_i8; cbn; lia ]. repeat constructor; vm_compute; done.
  - done.
  - apply rtc_once. unfold demo_mesh in *. rewrite <- surjective_pairing.
    exact (step_turn demo_platform (demo_good 3) (demo_mesh 3 1000 _).1 (demo_mesh 3 1000 _).2).
Defined.
