(* ===== verification/MeshForward.v ===== *)
(** * Forwarding: bounded flooding, duplicate suppression, aliased numbers

    In a network of nodes that run the whole firmware on radios that carry
    what was sent and nothing else, a frame crosses eight relays at most: from
    the discipline of one node ([MeshSafety]) to all of them. The cache of
    forwarded frames suppresses what it should. Where the numbers it and the
    acknowledgements use are too narrow, distinct messages are taken for the
    same. *)

From Stdlib Require Import ZArith Lia SpecFloat String.
From stdpp Require Import base list numbers option sets relations sorting.
From S2P Require Import Prelude.
From S2P Require Import CString.
From S2P Require Import Packet.
From S2P Require Import Fec.
From S2P Require Import SelectiveRepeat.
From S2P Require Import Receiver.
From S2P Require Import ProtocolSelector.
From S2P Require Import MqttClient.
From S2P Require Import RouteTable.
From S2P Require Import TransferState.
From S2P Require Import TransferHandlers.
From S2P Require Import TransferEngine.
From S2P Require Import MeshLink.
From S2P Require Import MeshManager.
From S2P Require Import MeshSafety.
From S2P Require Import MeshDemo.
Open Scope Z_scope.
Open Scope flp_scope.

(** ** Flooding

    A network of nodes that run the whole firmware ([node_step]: turns of the
    main loop with every frame they hear, WiFi events, transfers of their
    own). [emitted] is the log of the frames that a node's radio drivers took,
    [pending] the frames in its receive queues. *)

Section network.
Context {X : Type} (p : Z → Platform X) (emitted : X → list (list Z)) (pending : X → list RxFrame).

(** A driver call that neither sends nor receives. *)
Definition quiet (x x' : X) : Prop := emitted x' = emitted x ∧ pending x' ⊆ pending x.

(** A send: every frame the driver accepts is in its log. *)
Definition logs (x : X) (d : list Z) (r : Z * X) : Prop :=
  (emitted r.2 = emitted x ++ [d] ∨ r.1 ≠ TRANSPORT_SEND_OK ∧ emitted r.2 = emitted x) ∧
  pending r.2 ⊆ pending x.

Record drivers (q : Platform X) : Prop := {
  dv_espnow : ∀ x a d, logs x d (pf_espnow_send q x a d);
  dv_lora : ∀ x a d, logs x d (pf_lora_send q x a d);
  dv_random : ∀ x, quiet x (pf_random q x).2;
  dv_bits : ∀ x b, quiet x (pf_set_bits q x b);
  dv_lora_sf : ∀ x k, quiet x (pf_set_lora_sf q x k);
  dv_peers : ∀ x, quiet x (pf_drain_pending_peers q x);
  dv_bcast_peer : ∀ x, quiet x (pf_update_broadcast_peer q x);
  dv_channel : ∀ x k, quiet x (pf_set_wifi_channel q x k);
  dv_release : ∀ x f, quiet x (pf_release q x f);
  dv_recv_hi : ∀ x, quiet x (pf_recv_hi q x).2 ∧ ∀ f, (pf_recv_hi q x).1 = Some f → f ∈ pending x;
  dv_recv_lo : ∀ x, quiet x (pf_recv_lo q x).2 ∧ ∀ f, (pf_recv_lo q x).1 = Some f → f ∈ pending x;
  dv_publish : ∀ x t d k, quiet x (bh_publish (pf_mqtt q) x t d k).2;
  dv_subscribe : ∀ x t k, quiet x (bh_subscribe (pf_mqtt q) x t k);
  dv_heap : ∀ x, quiet x (pf_heap_check q x);
  dv_restart : ∀ x, quiet x (pf_restart q x);
  dv_led : ∀ f x b, pf_led q = Some f → quiet x (f x b);
  dv_uart : ∀ f x d, pf_uart q = Some f → quiet x (f x d)
}.

(** The nodes with their addresses, and every frame sent so far. *)
Notation Node := (MeshManager X * Net X)%type.
Definition Network : Type := list (Z * Node) * list (list Z).

(** One node moves, or its radio and its MQTT task do: the queues receive
    frames that were sent, and nothing else. *)
Inductive net_step : Network → Network → Prop :=
  | net_node i me s s' ns air :
      ns !! i = Some (me, s) → node_step (p me) (fun _ => False) s s' →
      net_step (ns, air) (<[i := (me, s')]> ns, air ++ emitted (nt_x s'.2))
  | net_radio i me m n c x ns air :
      ns !! i = Some (me, (m, n)) → emitted x = emitted (nt_x n) →
      Forall (fun f => f ∈ pending (nt_x n) ∨
        fa_data f ∈ air ∧ Forall is_u8 (fa_data f) ∧ is_i8 (fa_rssi f)) (pending x) →
      (∀ c', c = Some c' → mqtt_caps c') →
      net_step (ns, air) (<[i := (me, (m, n <| nt_mqtt := c |> <| nt_x := x |>))]> ns, air).

(** A node after [init], its radios silent. *)
Definition booted (a : Z * Node) : Prop :=
  is_u16 a.1 ∧ ∃ blocked alloc mqtt x, a.2 = MeshManager.init (p a.1) a.1 blocked alloc mqtt x ∧
    emitted x = [] ∧ pending x = [] ∧ ∀ c, mqtt = Some c → mqtt_caps c.

Lemma net_step_air s s' : net_step s s' → s.2 ⊆ s'.2.
Proof. intros []; cbn; set_solver. Qed.
Lemma net_steps_air s s' : rtc net_step s s' → s.2 ⊆ s'.2.
Proof. induction 1 as [ | s1 s2 s3 H _ IH ]; [ done | ]. apply net_step_air in H. set_solver. Qed.

Lemma net_step_addresses s s' : net_step s s' → s'.1.*1 = s.1.*1.
Proof.
  assert (H : ∀ (ns : list (Z * Node)) i me s s', ns !! i = Some (me, s) → (<[i := (me, s')]> ns).*1 = ns.*1).
  { intros ns i me t t' E. rewrite list_fmap_insert. apply list_insert_id. by rewrite list_lookup_fmap, E. }
  intros []; cbn; by eapply H.
Qed.

(** [A] is every frame of the whole run. *)
Section run.
Context (A : list (list Z)).
Local Notation Heard := (fun d => d ∈ A).

Definition good (me : Z) (x : X) : Prop :=
  Forall (allowed me Heard) (emitted x) ∧ Forall (heard_ok Heard) (pending x).

Lemma quiet_good me x x' : quiet x x' → good me x → good me x'.
Proof.
  intros [E Hp] [He Hr]. split; [ by rewrite E | ]. rewrite Forall_forall in *. intros f Hf. by apply Hr, Hp.
Qed.

Lemma logs_good me x d r : logs x d r → allowed me Heard d → good me x → good me r.2.
Proof.
  intros [He Hp] Hd [Hl Hr]. split.
  - destruct He as [-> | [_ ->]]; [ | done ]. apply Forall_app. split; [ done | by apply Forall_singleton ].
  - rewrite Forall_forall in *. intros f Hf. by apply Hr, Hp.
Qed.

Lemma drivers_ok q me : drivers q → platform_ok q me Heard (good me).
Proof.
  intros []. split; intros;
    try (eapply logs_good; [ eauto | done | done ]); try (eapply quiet_good; [ eauto | done ]).
  - destruct (dv_recv_hi0 x) as [Hq Hf]. split; [ by eapply quiet_good | ].
    intros f Ef. destruct H as [_ Hr]. rewrite Forall_forall in Hr. by apply Hr, Hf.
  - destruct (dv_recv_lo0 x) as [Hq Hf]. split; [ by eapply quiet_good | ].
    intros f Ef. destruct H as [_ Hr]. rewrite Forall_forall in Hr. by apply Hr, Hf.
Qed.

Definition net_inv (s : Network) : Prop :=
  Forall (fun a => is_u16 a.1 ∧ node_ok a.1 (good a.1) a.2) s.1 ∧
  Forall (fun d => ∃ me, me ∈ s.1.*1 ∧ allowed me Heard d) s.2.

Lemma node_step_good (q : Platform X) Good s s' : node_step q (fun _ => False) s s' → node_step q Good s s'.
Proof. intros []; [ apply step_turn | apply step_internet | apply step_subscribe | by eapply step_start | done ]. Qed.

Lemma net_step_inv s s' :
  (∀ me, me ∈ s.1.*1 → drivers (p me)) → net_step s s' → s'.2 ⊆ A → net_inv s → net_inv s'.
Proof.
  intros Hp Hstep. pose proof (net_step_addresses s s' Hstep) as Eaddr. revert Eaddr.
  destruct Hstep as [i me s s' ns air Hi Hs | i me m n c x ns air Hi He Hr Hc];
    cbn [fst snd] in *; intros Eaddr HA [Hn Ha]; rewrite Forall_forall in Hn;
    (assert (Hin : (me, _) ∈ ns) by by eapply list_elem_of_lookup_2); destruct (Hn _ Hin) as [Hme Hok]; cbn [fst snd] in *.
  - assert (Hme' : me ∈ ns.*1) by (apply list_elem_of_fmap; by exists (me, s)).
    assert (Hok' : node_ok me (good me) s').
    { eapply (node_step_ok (p me) me Heard); [ by apply drivers_ok, Hp | done | by apply node_step_good | done ]. }
    split; cbn [fst snd].
    + apply Forall_insert; [ by apply Forall_forall | done ].
    + rewrite Eaddr. apply Forall_app. split; [ done | ]. destruct s' as [m' n'].
      destruct (no_good _ _ (node_world _ _ _ _ Hok')) as [Hl _].
      eapply Forall_impl; [ exact Hl | ]. intros d Hd. by exists me.
  - split; cbn [fst snd]; [ | by rewrite Eaddr ].
    apply Forall_insert; [ by apply Forall_forall | ]. split; [ done | ]. cbn [fst snd].
    pose proof (node_world _ _ _ _ Hok) as [[Hl Hpend] Hrt _].
    apply (node_net me (good me) m n); [ | done ]. split; [ | done | done ].
    split; [ cbn; by rewrite He | ]. cbn. eapply Forall_impl; [ exact Hr | ]. intros f [Hf | (Hf & Hb & Hi8)].
    + rewrite Forall_forall in Hpend. by apply Hpend.
    + split_and!; [ by apply HA | done | done ].
Qed.

Lemma net_run_inv s s' :
  (∀ me, me ∈ s.1.*1 → drivers (p me)) → rtc net_step s s' → s'.2 ⊆ A → net_inv s → net_inv s'.
Proof.
  intros Hp Hr. induction Hr as [ | s1 s2 s3 H12 H23 IH ]; [ done | ]. intros HA H1.
  apply IH; [ by rewrite (net_step_addresses _ _ H12) | done | ].
  apply (net_step_inv s1 s2); [ done | done | | done ]. apply net_steps_air in H23. set_solver.
Qed.

Lemma booted_inv ns : Forall booted ns → net_inv (ns, []).
Proof.
  intros H. split; [ | by constructor ]. eapply Forall_impl; [ exact H | ].
  intros [me s] (Hme & blocked & alloc & mqtt & x & -> & He & Hp & Hc). split; [ done | ].
  apply init_ok; [ | done ]. split; [ by rewrite He | by rewrite Hp ].
Qed.
End run.
End network.

(** [d] is what [d0] is after [k] relays. *)
Definition copy_of (k : nat) (d0 d : list Z) : Prop :=
  let h0 := decode_header d0 in
  let h := decode_header d in
  ttl h = DEFAULT_TTL - Z.of_nat k ∧ hop_count h = Z.of_nat k ∧ Z.of_nat k <= DEFAULT_TTL ∧
  ver_type h = ver_type h0 ∧ src_addr h = src_addr h0 ∧ dst_addr h = dst_addr h0 ∧ drop 8 d = drop 8 d0.

Lemma copy_of_relayed me k d0 r d : copy_of k d0 r → relayed me r d → copy_of (S k) d0 d.
Proof.
  unfold copy_of, DEFAULT_TTL.
  intros (It & Ih & Ik & Iv & Is & Id & Ip) (_ & _ & _ & Hlive & Hv & Hs & Hd & Ht & Hh & _ & _ & Hp).
  cbv zeta in *. split_and!; [ lia | rewrite Hh, Ih, Z.mod_small by lia; lia | lia | congruence .. ].
Qed.

Lemma ttl_bound (A : list (list Z)) : ∃ M, ∀ d, d ∈ A → ttl (decode_header d) <= M.
Proof.
  induction A as [ | a A [M IH] ]; [ exists 0; by intros d ?%elem_of_nil | ].
  exists (Z.max M (ttl (decode_header a))). intros d [-> | Hd]%elem_of_cons; [ lia | ]. specialize (IH d Hd). lia.
Qed.

(** Every frame goes back to one that its source sent itself: the TTL grows
    towards it. *)
Lemma origin (addrs : list Z) (A : list (list Z)) d :
  (∀ d, d ∈ A → ∃ me, me ∈ addrs ∧ allowed me (fun r => r ∈ A) d) → d ∈ A →
  ∃ k d0, d0 ∈ A ∧ src_addr (decode_header d) ∈ addrs ∧ own_frame (src_addr (decode_header d)) d0 ∧ copy_of k d0 d.
Proof.
  intros HA. destruct (ttl_bound A) as [M HM]. remember (Z.to_nat (M - ttl (decode_header d))) as n eqn:En.
  revert d En. induction n as [n IH] using lt_wf_ind. intros d -> Hd.
  destruct (HA d Hd) as (me & Hme & [Hown | (r & Hr & Hrel)]).
  - exists 0%nat, d. pose proof Hown as (_ & _ & Hs & _ & Ht & Hh). rewrite Hs.
    split; [ done | ]. split; [ done | ]. split; [ done | ]. unfold copy_of. rewrite Ht, Hh. by split_and!.
  - pose proof Hrel as (_ & _ & _ & Hlive & _ & Hsrc & _ & Ht & _). pose proof (HM r Hr).
    destruct (IH (Z.to_nat (M - ttl (decode_header r))) ltac:(lia) r eq_refl Hr) as (k & d0 & Hd0 & Ha & Hown & Hc).
    exists (S k), d0. rewrite Hsrc. split_and!; [ done | done | done | by eapply copy_of_relayed ].
Qed.


(** *** A run of three nodes *)

Definition demo_emitted (x : DemoAir) : list (list Z) := (fun e => e.2) <$> da_log x.

Lemma demo_drivers : drivers demo_emitted da_rx demo_platform.
Proof.
  assert (Hq : ∀ x, quiet demo_emitted da_rx x x) by done.
  assert (Hs : ∀ t x a d, logs demo_emitted da_rx x d (air_send t x a d)).
  { intros t x a d. split; [ left | done ]. unfold demo_emitted, air_send. cbn. by rewrite fmap_app. }
  split; cbn; try done; try apply Hs. intros x. destruct (da_rx x) as [ | f l ] eqn:E; cbn; [ done | ]. split.
  - split; [ done | ]. cbn. rewrite E. set_solver.
  - intros f' [= <-]. by left.
Qed.

Notation DemoNode := (MeshManager DemoAir * Net DemoAir)%type.

(** The radio's clock and receive queue move on. *)
Definition demo_hear (now : Z) (rx : list (list Z)) (s : DemoNode) : DemoNode :=
  (s.1, s.2 <| nt_mqtt := None |>
            <| nt_x := nt_x s.2 <| da_now := now |> <| da_rx := (fun d => mk_frame d (-50) RX_ESPNOW) <$> rx |> |>).
Definition demo_turn (s : DemoNode) : DemoNode := run_once demo_platform s.1 s.2.
Definition demo_start (s : DemoNode) : DemoNode :=
  let '(_, m, n) := start_file_transfer demo_platform (str "leaf.bin") 3 (make_buffer_reader [1; 2; 3] 3) s.1 s.2 in
  (m, n).

(** Node 9 has the internet and says so; node 5 hears it and offers a file;
    node 3 hears both. *)
Definition node9 : DemoNode :=
  demo_turn (demo_hear 20000 [] (set_has_internet true (demo_mesh 9 1000 []).1, (demo_mesh 9 1000 []).2)).
Definition beacon : list Z := nth 0 (sent node9) [].
Definition node5 : DemoNode :=
  demo_turn (demo_hear 2000 [] (demo_start (demo_turn (demo_hear 1500 [beacon] (demo_mesh 5 1000 []))))).
Definition advert : list Z := nth 1 (sent node5) [].
Definition node3 : DemoNode := demo_turn (demo_hear 1500 [beacon; advert] (demo_mesh 3 1000 [])).
Definition advert_copy : list Z := nth 1 (sent node3) [].

#[local] Strategy expand [demo_turn demo_start node9 beacon node5 advert node3 advert_copy].

Notation demo_step := (net_step (fun _ => demo_platform) demo_emitted da_rx).

Lemma step_demo_turn i me s ns air : ns !! i = Some (me, s) →
  demo_step (ns, air) (<[i := (me, demo_turn s)]> ns, air ++ sent (demo_turn s)).
Proof.
  intros Hi. apply (net_node (fun _ => demo_platform) demo_emitted da_rx i me s (demo_turn s) ns air Hi).
  destruct s as [m n]. exact (step_turn demo_platform _ m n).
Qed.

Lemma step_demo_start i me s ns air : ns !! i = Some (me, s) →
  demo_step (ns, air) (<[i := (me, demo_start s)]> ns, air ++ sent (demo_start s)).
Proof.
  intros Hi. apply (net_node (fun _ => demo_platform) demo_emitted da_rx i me s (demo_start s) ns air Hi).
  destruct s as [m n]. unfold demo_start.
  destruct (start_file_transfer _ _ _ _ _ _) as [[ok m'] n'] eqn:E. by eapply step_start.
Qed.

Lemma step_demo_hear i me now rx s ns air : ns !! i = Some (me, s) →
  Forall (fun d => d ∈ air ∧ Forall is_u8 d) rx →
  demo_step (ns, air) (<[i := (me, demo_hear now rx s)]> ns, air).
Proof.
  intros Hi Hrx. destruct s as [m n]. apply (net_radio (fun _ => demo_platform) demo_emitted da_rx i me m n None _ ns air Hi); [ done | | done ].
  cbn. apply Forall_map. eapply Forall_impl; [ exact Hrx | ]. intros d [Hd Hb]. right.
  split_and!; [ done | done | done ].
Qed.

Lemma are_bytes l : forallb (fun b => (0 <=? b) && (b <? 256)) l = true → Forall is_u8 l.
Proof.
  intros H. apply Forall_forall. intros b Hb. rewrite forallb_forall in H.
  specialize (H b ltac:(by apply list_elem_of_In)). unfold is_u8. lia.
Qed.

Definition demo_net (a b c : DemoNode) : list (Z * DemoNode) := [(9, a); (5, b); (3, c)].

Lemma demo_run : ∃ air,
  rtc demo_step (demo_net (demo_mesh 9 1000 []) (demo_mesh 5 1000 []) (demo_mesh 3 1000 []), [])
    (demo_net node9 node5 node3, air) ∧ advert ∈ air ∧ advert_copy ∈ air.
Proof.
  assert (Hb : beacon ∈ sent node9) by (apply (list_elem_of_lookup_2 _ 0); vm_compute; reflexivity).
  assert (Ha : advert ∈ sent node5) by (apply (list_elem_of_lookup_2 _ 1); vm_compute; reflexivity).
  assert (Hc : advert_copy ∈ sent node3) by (apply (list_elem_of_lookup_2 _ 1); vm_compute; reflexivity).
  assert (Hbb : Forall is_u8 beacon) by (apply are_bytes; vm_compute; reflexivity).
  assert (Hab : Forall is_u8 advert) by (apply are_bytes; vm_compute; reflexivity).
  eexists. split.
  - eapply rtc_l; [ apply (net_node _ _ _ 0 9 (demo_mesh 9 1000 [])); [ reflexivity | ];
      exact (step_internet demo_platform _ true (demo_mesh 9 1000 []).1 (demo_mesh 9 1000 []).2) | ].
    eapply rtc_l; [ apply (step_demo_hear 0 9 20000 []); [ reflexivity | by constructor ] | ].
    eapply rtc_l; [ apply (step_demo_turn 0 9); reflexivity | ].
    eapply rtc_l; [ apply (step_demo_hear 1 5 1500 [beacon] (demo_mesh 5 1000 [])); [ reflexivity | ] | ].
    { apply Forall_singleton. split; [ | exact Hbb ]. apply elem_of_app. right. exact Hb. }
    eapply rtc_l; [ apply (step_demo_turn 1 5); reflexivity | ].
    eapply rtc_l; [ apply (step_demo_start 1 5); reflexivity | ].
    eapply rtc_l; [ apply (step_demo_hear 1 5 2000 []); [ reflexivity | by constructor ] | ].
    eapply rtc_l; [ apply (step_demo_turn 1 5); reflexivity | ].
    eapply rtc_l; [ apply (step_demo_hear 2 3 1500 [beacon; advert] (demo_mesh 3 1000 [])); [ reflexivity | ] | ].
    { repeat apply Forall_cons_2; [ | | by constructor ]; (split; [ | assumption ]).
      - rewrite !elem_of_app. left. left. left. right. exact Hb.
      - rewrite !elem_of_app. right. exact Ha. }
    eapply rtc_l; [ apply (step_demo_turn 2 3); reflexivity | ]. apply rtc_refl.
  - split; rewrite !elem_of_app; [ left; right; exact Ha | right; exact Hc ].
Qed.


(** ** Duplicate suppression *)

(** A call of [already_seen], at a time that does not wrap. *)
Record SeenCall := mk_call {
  cl_time : Z;
  cl_src : Z;
  cl_dst : Z;
  cl_type : Z;
  cl_seq : Z;
  cl_window : Z
}.

Definition same_key (a b : SeenCall) : Prop :=
  cl_src a = cl_src b ∧ cl_dst a = cl_dst b ∧ cl_type a = cl_type b ∧ cl_seq a = cl_seq b.

Definition seen_call (x : SeenCall) (c : SeenCache) : bool * SeenCache :=
  already_seen (u32 (cl_time x)) (cl_src x) (cl_dst x) (cl_type x) (cl_seq x) (cl_window x) c.
Definition seen_run (l : list SeenCall) (c : SeenCache) : SeenCache :=
  fold_left (fun c x => (seen_call x c).2) l c.

Definition blank : SeenEntry := mk_seen 0 0 0 0 0.

(** When [x] is looked up, some entry has expired, or the next one to
    overwrite was never used. *)
Definition has_room (x : SeenCall) (c : SeenCache) : Prop :=
  (∃ i, 0 <= i < SEEN_CACHE_SIZE ∧ expired (u32 (cl_time x)) c i = true) ∨
  aget (sc_entries c) (sc_idx c) = blank.

Fixpoint room_along (l : list SeenCall) (c : SeenCache) : Prop :=
  match l with
  | [] => True
  | x :: l' => has_room x c ∧ room_along l' (seen_call x c).2
  end.

(** The entry that call [x] records. *)
Definition entry_of (x : SeenCall) : SeenEntry :=
  mk_seen (cl_src x) (cl_dst x) (cl_type x) (cl_seq x) (u32 (cl_time x)).

Lemma u32_diff a b : u32 (u32 a - u32 b) = u32 (a - b).
Proof. int_lia. Qed.

Lemma entry_match x y :
  seen_match (u32 (cl_time y)) (cl_src y) (cl_dst y) (cl_type y) (cl_seq y) (cl_window y)
    (entry_of x) = true ↔
  same_key x y ∧ u32 (cl_time y - cl_time x) < cl_window y.
Proof.
  unfold seen_match, entry_of, same_key. cbn [se_src se_dst se_type se_seq se_time_ms].
  rewrite u32_diff, !andb_true_iff, !Z.eqb_eq, Z.ltb_lt. naive_solver.
Qed.

(** A call keeps an entry that has not expired, when there is room. *)
Lemma seen_call_keeps x c e :
  cache_ok c → has_room x c → e ∈ sc_entries c → e ≠ blank →
  u32 (u32 (cl_time x) - se_time_ms e) <= 10000 → e ∈ sc_entries (seen_call x c).2.
Proof.
  intros [Hl Hidx] Hroom He Hne Hlive. unfold seen_call, already_seen.
  destruct (existsb _ _); [ done | ]. cbn [snd sc_entries].
  apply list_elem_of_lookup in He as [j Hj]. apply list_elem_of_lookup. exists j.
  unfold aset. rewrite list_lookup_insert_ne; [ done | ]. apply aget_of_lookup in Hj.
  destruct (find_first (expired (u32 (cl_time x)) c) (seqZ 0 SEEN_CACHE_SIZE)) as [slot | ] eqn:E;
    cbn [default]; unfold id; intros <-.
  - apply find_first_Some in E as [Hin Hs]. apply elem_of_seqZ in Hin. unfold expired in Hs.
    rewrite Z2Nat.id in Hj by lia. rewrite Hj in Hs. lia.
  - rewrite Z2Nat.id in Hj by lia. destruct Hroom as [(i & Hi & Hexp) | Hb]; [ | congruence ].
    pose proof (proj1 (find_first_None _ _) E i) as Hn.
    rewrite Hn in Hexp; [ done | ]. apply elem_of_seqZ. lia.
Qed.

Lemma seen_call_ok x c : cache_ok c → cache_ok (seen_call x c).2.
Proof. apply already_seen_ok. Qed.

Lemma seen_run_ok l c : cache_ok c → cache_ok (seen_run l c).
Proof. revert c. induction l as [ | x l IH ]; intros c Hc; [ done | ]. by apply IH, seen_call_ok. Qed.

Lemma cache_new_ok : cache_ok cache_new.
Proof. split; [ reflexivity | done ]. Qed.

(** An unknown call leaves its entry. *)
Lemma seen_call_records x c :
  cache_ok c → (seen_call x c).1 = false → entry_of x ∈ sc_entries (seen_call x c).2.
Proof.
  intros [Hl Hidx]. unfold seen_call, already_seen. destruct (existsb _ _); [ done | ]. intros _.
  cbn [snd sc_entries]. set (slot := default _ _).
  assert (Hs : 0 <= slot < SEEN_CACHE_SIZE).
  { unfold slot. destruct (find_first _ _) as [k | ] eqn:E; [ | done ].
    apply find_first_Some in E as [Hk%elem_of_seqZ _]. cbn. lia. }
  apply list_elem_of_lookup. exists (Z.to_nat slot). unfold aset.
  apply list_lookup_insert_eq. lia.
Qed.

Lemma seen_run_keeps l c e :
  cache_ok c → room_along l c → e ∈ sc_entries c → e ≠ blank →
  Forall (fun z => u32 (u32 (cl_time z) - se_time_ms e) <= 10000) l → e ∈ sc_entries (seen_run l c).
Proof.
  revert c. induction l as [ | x l IH ]; intros c Hc Hroom He Hne Hl; [ done | ].
  destruct Hroom as [Hx Hroom]. apply Forall_cons_1 in Hl as [Hlx Hl].
  apply (IH (seen_call x c).2); try done; [ by apply seen_call_ok | by apply seen_call_keeps ].
Qed.

Lemma room_along_app l1 l2 c :
  room_along (l1 ++ l2) c → room_along l1 c ∧ room_along l2 (seen_run l1 c).
Proof.
  revert c. induction l1 as [ | x l1 IH ]; intros c; cbn [app room_along]; [ done | ].
  intros [? [??]%IH]. done.
Qed.

(** Every entry in use is that of a recorded call. *)
Lemma seen_run_entries l e :
  e ∈ sc_entries (seen_run l cache_new) →
  e = blank ∨ ∃ l1 x l2, l = l1 ++ x :: l2 ∧ e = entry_of x ∧
    (seen_call x (seen_run l1 cache_new)).1 = false.
Proof.
  revert e. induction l as [ | x l IH ] using rev_ind; intros e.
  - intros [-> _]%elem_of_replicate. by left.
  - unfold seen_run. rewrite fold_left_app. cbn [fold_left]. fold (seen_run l cache_new).
    assert (Hold : e ∈ sc_entries (seen_run l cache_new) → e = blank ∨
      ∃ l1 y l2, l ++ [x] = l1 ++ y :: l2 ∧ e = entry_of y ∧
        (seen_call y (seen_run l1 cache_new)).1 = false).
    { intros [-> | (l1 & y & l2 & -> & He & Hy)]%IH; [ by left | right ].
      exists l1, y, (l2 ++ [x]). by rewrite <- app_assoc. }
    destruct (seen_call x (seen_run l cache_new)).1 eqn:E.
    + unfold seen_call, already_seen in *. destruct (existsb _ _); [ exact Hold | done ].
    + intros He. assert (Hcase : e = entry_of x ∨ e ∈ sc_entries (seen_run l cache_new)).
      { unfold seen_call, already_seen in He. destruct (existsb _ _); [ by right | ].
        cbn [snd sc_entries] in He. unfold aset in He.
        apply list_elem_of_lookup in He as [k Hk].
        apply list_lookup_insert_Some in Hk as [(_ & <- & _) | [_ Hk]]; [ by left | right ].
        apply list_elem_of_lookup. by exists k. }
      destruct Hcase as [-> | ?]; [ right | by apply Hold ]. by exists l, x, [].
Qed.

(** C18: duplicate suppression is exact while the cache has room: a lookup says
    "seen" if and only if a call with the same source, destination, type and
    sequence number was let through within the window. So no frame is
    forwarded twice within its window, and none is dropped that was not
    forwarded. Room means that the entry overwritten for a new frame is expired or
    unused; only more than 64 live entries break it. *)
Theorem dedup_exact l y :
  Forall (fun z => 0 <= cl_time y - cl_time z < 4294967296) l →
  StronglySorted (fun a b => cl_time a <= cl_time b) l →
  room_along l cache_new → cl_window y <= 10000 → cl_src y ≠ 0 →
  (seen_call y (seen_run l cache_new)).1 = true ↔
  ∃ l1 x l2, l = l1 ++ x :: l2 ∧ same_key x y ∧ cl_time y - cl_time x < cl_window y ∧
    (seen_call x (seen_run l1 cache_new)).1 = false.
Proof.
  intros Ht Hsort Hroom Hw Hkey. split.
  - unfold seen_call at 1, already_seen at 1.
    destruct (existsb _ _) eqn:E; [ intros _ | done ].
    apply existsb_exists in E as (e & He & Hm). apply list_elem_of_In in He.
    apply seen_run_entries in He as [-> | (l1 & x & l2 & -> & -> & Hx)].
    + unfold seen_match, blank in Hm. cbn [se_src] in Hm.
      replace (0 =? cl_src y) with false in Hm by lia. done.
    + exists l1, x, l2. apply entry_match in Hm as [Hk Hm].
      apply Forall_app in Ht as [_ Ht]. apply Forall_cons_1 in Ht as [Ht _].
      split_and!; try done. revert Hm. int_lia.
  - intros (l1 & x & l2 & -> & Hk & Hd & Hx).
    apply Forall_app in Ht as [_ Ht]. apply Forall_cons_1 in Ht as [Htx Ht].
    apply StronglySorted_app_1_r in Hsort. apply StronglySorted_inv in Hsort as [_ Hsort].
    assert (Hroom2 : room_along l2 (seen_call x (seen_run l1 cache_new)).2).
    { by apply room_along_app in Hroom as [_ [_ ?]]. }
    unfold seen_run. rewrite fold_left_app. cbn [fold_left]. fold (seen_run l1 cache_new).
    fold (seen_run l2 (seen_call x (seen_run l1 cache_new)).2).
    set (c := seen_run l1 cache_new) in *.
    assert (Hc : cache_ok c) by apply seen_run_ok, cache_new_ok.
    assert (He : entry_of x ∈ sc_entries (seen_run l2 (seen_call x c).2)).
    { apply seen_run_keeps; [ by apply seen_call_ok | done | by apply seen_call_records | | ].
      - unfold entry_of, blank. intros [= E _ _ _ _]. destruct Hk as [Hk _]. congruence.
      - rewrite Forall_forall in *. intros z Hz. cbn [entry_of se_time_ms]. rewrite u32_diff.
        pose proof (Ht z Hz). pose proof (Hsort z Hz). int_lia. }
    unfold seen_call at 1, already_seen at 1.
    replace (existsb _ _) with true; [ done | ]. symmetry. apply existsb_exists.
    exists (entry_of x). split; [ by apply list_elem_of_In | ]. apply entry_match. split; [ done | ].
    int_lia.
Qed.

(** A frame at 1 s, another at 2 s, the first again at 10.5 s. *)
Definition demo_calls : list SeenCall := [mk_call 1000 5 9 32 0 10000; mk_call 2000 6 9 32 0 10000].
Definition demo_again : SeenCall := mk_call 10500 5 9 32 0 10000.

Lemma dedup_exact_witness : (seen_call demo_again (seen_run demo_calls cache_new)).1 = true.
Proof.
  apply (dedup_exact demo_calls demo_again).
  - repeat constructor; cbn; lia.
  - repeat constructor; cbn; lia.
  - split; [ right; vm_compute; reflexivity | ]. split; [ right; vm_compute; reflexivity | done ].
  - cbn. lia.
  - done.
  - exists [], (mk_call 1000 5 9 32 0 10000), [mk_call 2000 6 9 32 0 10000].
    split_and!; [ reflexivity | by split_and! | cbn; lia | vm_compute; reflexivity ].
Defined.

(** ** Messages without a number of their own *)

(** The frames of a node that publishes its telemetry through the mesh. *)
Definition telemetry_frames : list (list Z) :=
  let '(m, n) := demo_mesh 5 1000 [] in sent (m, publish_all_telemetry demo_platform m n).

(** A relay that has heard of node 9, one hop from the internet, and then
    hears [frames]. *)
Definition relay_hears (frames : list (list Z)) : MeshManager DemoAir * Net DemoAir :=
  let '(m, n) := demo_mesh 3 1000 [] in
  fold_left (fun '(m, n) d => process_slab demo_platform (mk_frame d (-50) RX_ESPNOW) m n)
    (demo_disc :: frames) (m, n).

(** Telemetry behind a relay is lost. [relay_publish] sends every report
    with sequence number 0, so topology, metrics and heap share the key of the relay's cache of
    forwarded frames: of the three frames a node sends in one go, the relay
    forwards the first, the topology (relay topic 3), and drops the others (2 and 1) as
    duplicates. *)
Theorem relay_drops_telemetry :
  (fun d => byte_at d 8) <$> telemetry_frames = [3; 2; 1] ∧
  Forall (fun d => dst_addr (decode_header d) = EXIT_ANY_ADDR ∧ hdr_type (decode_header d) = MESH_PUB)
    telemetry_frames ∧
  (fun d => (src_addr (decode_header d), byte_at d 8)) <$> sent (relay_hears telemetry_frames) =
    [(5, 3)].
Proof.
  split_and!; [ vm_compute; reflexivity | | vm_compute; reflexivity ].
  apply Forall_forall. intros d Hd.
  assert (E : (fun d => bool_decide (dst_addr (decode_header d) = EXIT_ANY_ADDR ∧
    hdr_type (decode_header d) = MESH_PUB)) <$> telemetry_frames = [true; true; true])
    by (vm_compute; reflexivity).
  apply (list_elem_of_fmap_2 (fun d => bool_decide (dst_addr (decode_header d) = EXIT_ANY_ADDR ∧
    hdr_type (decode_header d) = MESH_PUB))) in Hd. rewrite E in Hd.
  apply elem_of_cons in Hd as [Hd | Hd]; [ by apply bool_decide_eq_true in Hd | ].
  apply elem_of_cons in Hd as [Hd | Hd]; [ by apply bool_decide_eq_true in Hd | ].
  apply list_elem_of_singleton in Hd. by apply bool_decide_eq_true in Hd.
Qed.

(** ** The congestion bit and long transfers *)

Lemma flag_of k : 0 <= k < 32768 → Z.lor k CONGESTION_FLAG = k + 32768.
Proof.
  intros H. unfold CONGESTION_FLAG. rewrite Z.lor_comm.
  change 32768 with (Z.shiftl 1 15) at 1. rewrite (lor_shift_add 1 k 15) by lia. lia.
Qed.

Lemma strip_flag k : 0 <= k < 32768 → seq_strip_congestion (k + 32768) = k.
Proof.
  intros H. unfold seq_strip_congestion. rewrite <- flag_of by done.
  rewrite Z.land_lor_distr_l, Z.land_lnot_diag, Z.lor_0_r.
  assert (E : Z.land k (Z.lnot CONGESTION_FLAG) = k); [ | rewrite E; int_lia ].
  rewrite <- Z.ldiff_land. apply Z.bits_inj'. intros i Hi. rewrite Z.ldiff_spec.
  unfold CONGESTION_FLAG. change 32768 with (2 ^ 15).
  destruct (Z.eq_dec i 15) as [-> | Hne].
  - rewrite (Z.bits_above_log2 k 15); [ done | lia | ].
    destruct (Z.eq_dec k 0) as [-> | ]; [ done | ]. apply Z.log2_lt_pow2; lia.
  - rewrite Z.pow2_bits_false by lia. by rewrite andb_true_r.
Qed.

Lemma has_flag k : 0 <= k < 32768 → seq_has_congestion (k + 32768) = true.
Proof.
  intros H. unfold seq_has_congestion. rewrite <- flag_of by done.
  rewrite Z.land_lor_distr_l, Z.land_diag. apply negb_true_iff, Z.eqb_neq.
  intros E. apply Z.lor_eq_0_iff in E as [_ E]. done.
Qed.

(** From fragment 32768 on, an answer names another fragment. Mesh
    transfers are accepted up to 60000 fragments, and bit 15 of an answer's
    sequence number is the congestion flag: the ACK or NACK of fragment
    [k + 32768] is, byte for byte, that of fragment [k] with the flag set,
    so the source takes it for an answer to [k] and slows down, and no answer
    for [k + 32768] reaches the engine. *)
Theorem answer_aliased {X} (p : Platform X) k nack hdr m n :
  0 <= k < 32768 → seq_num hdr = seq_with_congestion (k + 32768) false →
  (∀ src dst t, encode_header (fresh_header src dst t (seq_with_congestion (k + 32768) false)) =
                encode_header (fresh_header src dst t (seq_with_congestion k true))) ∧
  handle_answer p nack hdr m n =
    (let '(m1, n1) := engine p (fun h e n =>
         if nack then handle_nack h k (src_addr hdr) e n
         else (handle_ack h k (src_addr hdr) e n, n)) m n in
     (m1 <| mm_engine ::= fun e => e <| te_cong ::= signal_congestion |> |>, n1)) ∧
  (∃ size, TransferEngine.mesh_fragment_count (TransferEngine.data_frags_of size) = 40000 ∧
     ∀ h name hops e w, (TransferEngine.start_mesh (W := Net X) h name size hops e w).1.1 = true).
Proof.
  intros Hk Hq. cbn [seq_with_congestion] in *. split_and!.
  - intros src dst t. unfold seq_with_congestion. rewrite flag_of by done.
    by rewrite u16_small by int_lia.
  - unfold handle_answer. rewrite Hq, strip_flag, has_flag by done. reflexivity.
  - exists (35000 * DEFAULT_TRANSFER_FRAGMENT_SIZE). split; [ vm_compute; reflexivity | ].
    intros h name hops e w. unfold TransferEngine.start_mesh. cbv zeta.
    assert (E : TransferEngine.mesh_fragment_count (TransferEngine.data_frags_of
      (35000 * DEFAULT_TRANSFER_FRAGMENT_SIZE)) = 40000) by (vm_compute; reflexivity).
    rewrite E. reflexivity.
Qed.

Lemma answer_aliased_witness :
  let '(m, n) := demo_mesh 3 1000 [] in
  handle_answer demo_platform false (mk_header 66 9 3 128 32775) m n =
    (let '(m1, n1) := engine demo_platform (fun h e n => (handle_ack h 7 9 e n, n)) m n in
     (m1 <| mm_engine ::= fun e => e <| te_cong ::= signal_congestion |> |>, n1)).
Proof.
  destruct (demo_mesh 3 1000 []) as [m n].
  destruct (answer_aliased demo_platform 7 false (mk_header 66 9 3 128 32775) m n) as (_ & H & _);
    [ lia | reflexivity | exact H ].
Defined.
