(* ===== verification/MeshDrain.v ===== *)
(** * The drain loops end

    The source drains the MQTT client's queues with [while (drain(...))]; the
    model gives each loop fuel, one more than what the queues hold
    ([h_backlog]). A host whose queues shrink with every item drained
    ([BacklogLaw]) makes that fuel sufficient: the loops of the model are the
    loops of the source. The node's own wiring is such a host. *)

From Stdlib Require Import ZArith Lia.
From stdpp Require Import base list numbers option sets.
From S2P Require Import Prelude.
From S2P Require Import Packet.
From S2P Require Import SelectiveRepeat.
From S2P Require Import ProtocolSelector.
From S2P Require Import MqttClient.
From S2P Require Import RouteTable.
From S2P Require Import TransferState.
From S2P Require Import TransferArq.
From S2P Require Import TransferEngine.
From S2P Require Import TransferDemo.
From S2P Require Import MqttPipeline.
From S2P Require Import MeshLink.
From S2P Require Import MeshSafety.
Open Scope Z_scope.
Open Scope flp_scope.

(** What the loops rely on. *)
Class BacklogLaw {W} (h : Host W) : Prop := {
  bl_cloud_ack : ∀ drain w sid q w', h_drain_cloud_ack h = Some drain →
    drain w sid = (Some q, w') → (h_backlog h w' < h_backlog h w)%nat;
  bl_cloud_nack : ∀ drain w sid q w', h_drain_cloud_nack h = Some drain →
    drain w sid = (Some q, w') → (h_backlog h w' < h_backlog h w)%nat;
  bl_fragment_ack : ∀ drain w sid q w', h_drain_fragment_ack h = Some drain →
    drain w sid = (Some q, w') → (h_backlog h w' < h_backlog h w)%nat;
  bl_send : ∀ w dst t d q, (h_backlog h (h_send_packet h w dst t d q).2 <= h_backlog h w)%nat;
  bl_observe : ∀ f w sid q, h_observe_cloud_nack h = Some f →
    (h_backlog h (f w sid q) <= h_backlog h w)%nat
}.

Section drains.
Context {W : Type} (h : Host W) `{!BacklogLaw h}.
Implicit Types (e : Engine W) (w : W).

Lemma engine_send_backlog dst t d q e w :
  (h_backlog h (engine_send h dst t d q e w).2 <= h_backlog h w)%nat.
Proof.
  unfold engine_send, send_fn.
  match goal with |- context [h_send_packet h w dst t d ?q] =>
    pose proof (bl_send w dst t d q) as Hs; destruct (h_send_packet h w dst t d q) as [rc w'] end.
  by destruct (_ =? _).
Qed.

Lemma observe_backlog sid q w : (h_backlog h (observe_nack h sid q w) <= h_backlog h w)%nat.
Proof.
  unfold observe_nack. destruct (h_observe_cloud_nack h) eqn:E; [ | done ].
  by apply bl_observe.
Qed.

Lemma drain_acks_fuel drain fuel k sid count bm act w :
  h_drain_cloud_ack h = Some drain → (h_backlog h w < fuel)%nat →
  drain_acks h (fuel + k) drain sid count bm act w = drain_acks h fuel drain sid count bm act w.
Proof.
  intros E. revert bm act w. induction fuel as [ | fuel IH ]; intros bm act w Hf; [ lia | ].
  cbn [Nat.add drain_acks]. destruct (drain w sid) as [[q | ] w'] eqn:Ed; [ | done ].
  pose proof (bl_cloud_ack _ _ _ _ _ E Ed). destruct (_ <? _); apply IH; lia.
Qed.

Lemma drain_nacks_fuel drain fuel k sid count bm queue w :
  h_drain_cloud_nack h = Some drain → (h_backlog h w < fuel)%nat →
  drain_nacks h (fuel + k) drain sid count bm queue w = drain_nacks h fuel drain sid count bm queue w.
Proof.
  intros E. revert queue w. induction fuel as [ | fuel IH ]; intros queue w Hf; [ lia | ].
  cbn [Nat.add drain_nacks]. destruct (drain w sid) as [[q | ] w'] eqn:Ed; [ | done ].
  pose proof (bl_cloud_nack _ _ _ _ _ E Ed). pose proof (observe_backlog sid q w').
  destruct (_ >=? _); [ apply IH; lia | ]. destruct (cloud_acked _ _); apply IH; lia.
Qed.

Lemma forward_nacks_fuel drain fuel k now e w :
  h_drain_cloud_nack h = Some drain → (h_backlog h w < fuel)%nat →
  forward_nacks h (fuel + k) drain now e w = forward_nacks h fuel drain now e w.
Proof.
  intros E. revert e w. induction fuel as [ | fuel IH ]; intros e w Hf; [ lia | ].
  cbn [Nat.add forward_nacks]. cbv zeta. set (sid := er_active_session_id _).
  destruct (drain w sid) as [[q | ] w'] eqn:Ed; [ | done ].
  pose proof (bl_cloud_nack _ _ _ _ _ E Ed). pose proof (observe_backlog sid q w').
  match goal with |- context [engine_send h ?a ?b ?c ?d e ?w1] =>
    pose proof (engine_send_backlog a b c d e w1); destruct (engine_send h a b c d e w1) as [[rc e2] w2] end.
  cbn [snd] in *. destruct (_ <? _); [ done | ]. apply IH. lia.
Qed.

Lemma forward_acks_fuel drain fuel k e w :
  h_drain_fragment_ack h = Some drain → (h_backlog h w < fuel)%nat →
  forward_acks h (fuel + k) drain e w = forward_acks h fuel drain e w.
Proof.
  intros E. revert e w. induction fuel as [ | fuel IH ]; intros e w Hf; [ lia | ].
  cbn [Nat.add forward_acks]. cbv zeta. set (sid := er_active_session_id _).
  destruct (drain w sid) as [[q | ] w'] eqn:Ed; [ | done ].
  pose proof (bl_fragment_ack _ _ _ _ _ E Ed).
  match goal with |- context [engine_send h ?a ?b ?c ?d e ?w1] =>
    pose proof (engine_send_backlog a b c d e w1); destruct (engine_send h a b c d e w1) as [[rc e2] w2] end.
  cbn [snd] in *. destruct (_ <? _); [ done | ]. apply IH. lia.
Qed.
End drains.

(** ** The wiring of [MeshManager::init] *)

Lemma send_raw_mqtt {X} (p : Platform X) t d peer n : nt_mqtt (send_raw p t d peer n).2 = nt_mqtt n.
Proof.
  unfold send_raw. destruct (_ && _); [ done | ]. cbv zeta.
  destruct (match t with ESPNOW => _ | LORA => _ end) as [rc x]. cbn [snd].
  destruct (negb (peer =? _) && _); by destruct (negb (rc =? _)).
Qed.

Lemma send_both_mqtt {X} (p : Platform X) d n : nt_mqtt (send_both p d n) = nt_mqtt n.
Proof.
  unfold send_both. pose proof (send_raw_mqtt p ESPNOW d BROADCAST_ADDR n) as H1.
  destruct (send_raw p ESPNOW d BROADCAST_ADDR n) as [rc n1].
  pose proof (send_raw_mqtt p LORA d BROADCAST_ADDR n1) as H2.
  destruct (send_raw p LORA d BROADCAST_ADDR n1) as [rc2 n2]. cbn in *. congruence.
Qed.

Lemma send_packet_mqtt {X} (p : Platform X) me dst t d q n :
  nt_mqtt (send_packet p me dst t d q n).2 = nt_mqtt n.
Proof.
  unfold send_packet. destruct (_ >? _); [ done | ]. cbv zeta.
  destruct (_ =? _); [ apply send_both_mqtt | ].
  destruct (_ =? _); [ destruct (_ =? _); [ apply send_both_mqtt | done ] | ].
  destruct (link_of _ _). apply send_raw_mqtt.
Qed.

(** The queues of the MQTT client shrink with each item drained. *)
#[export] Instance mesh_host_backlog {X} (p : Platform X) me : BacklogLaw (mesh_host p me).
Proof.
  assert (Hd : ∀ (drain : Z → MqttClient → option Z * MqttClient) n sid q n',
    (∀ c q c', drain sid c = (Some q, c') →
       (length (mq_acks c') + length (mq_nacks c') + length (mq_fragment_acks c') <
        length (mq_acks c) + length (mq_nacks c) + length (mq_fragment_acks c))%nat) →
    on_mqtt None (drain sid) n = (Some q, n') →
    (h_backlog (mesh_host p me) n' < h_backlog (mesh_host p me) n)%nat).
  { intros drain n sid q n' Hc. unfold on_mqtt. cbn [mesh_host h_backlog].
    destruct (nt_mqtt n) as [c | ]; [ | done ]. destruct (drain sid c) as [r c'] eqn:E.
    intros Hr. apply (inj2 pair) in Hr as [-> <-]. cbn. by apply (Hc c q). }
  split.
  - intros drain n sid q n' [= <-]. apply (Hd drain_cloud_ack). intros c r c'. unfold drain_cloud_ack.
    pose proof (drain_length sid (mq_acks c)) as Hl. destruct (drain_loop _ _ _) as [r1 l].
    intros Hr. apply (inj2 pair) in Hr as [-> <-]. mq_upd. lia.
  - intros drain n sid q n' [= <-]. apply (Hd drain_cloud_nack). intros c r c'. unfold drain_cloud_nack.
    pose proof (drain_length sid (mq_nacks c)) as Hl. destruct (drain_loop _ _ _) as [r1 l].
    intros Hr. apply (inj2 pair) in Hr as [-> <-]. mq_upd. lia.
  - intros drain n sid q n' [= <-]. apply (Hd drain_fragment_ack). intros c r c'. unfold drain_fragment_ack.
    pose proof (drain_length sid (mq_fragment_acks c)) as Hl. destruct (drain_loop _ _ _) as [r1 l].
    intros Hr. apply (inj2 pair) in Hr as [-> <-]. mq_upd; lia.
  - intros n dst t d q. cbn [mesh_host h_backlog h_send_packet]. by rewrite send_packet_mqtt.
  - intros f n sid q [= <-]. cbn [mesh_host h_backlog]. unfold on_mqtt, mark_fragment_for_republish.
    destruct (nt_mqtt n) as [c | ] eqn:E; cbn; [ | by rewrite E ]. by destruct (_ || _).
Qed.

#[export] Instance demo_host_backlog : BacklogLaw demo_host.
Proof.
  split; cbn.
  - intros drain w sid q w' [= <-]. unfold demo_pop. destruct (dw_acks w) eqn:E; [ done | ].
    intros [= <- <-]. cbn. lia.
  - intros drain w sid q w' [= <-]. unfold demo_pop. destruct (dw_nacks w) eqn:E; [ done | ].
    intros [= <- <-]. cbn. lia.
  - done.
  - done.
  - done.
Qed.

(** C38: the loops that drain the MQTT client's queues end, and the model's
    fuel is never what ends them: with any more of it, the results of the
    four loops of a node (the NACKs and fragment acknowledgements an exit forwards to the
    source, the ACKs and NACKs of the cloud in a local-exit transfer) are the
    same. An item taken is gone, a requeued item ends its loop, and sending never refills a queue. *)
Theorem drain_loops_end {X} (p : Platform X) me k now sid count bm act queue e n :
  let h := mesh_host p me in
  let fuel := S (h_backlog h n) in
  (∀ drain, h_drain_cloud_nack h = Some drain →
     forward_nacks h (fuel + k) drain now e n = forward_nacks h fuel drain now e n ∧
     drain_nacks h (fuel + k) drain sid count bm queue n = drain_nacks h fuel drain sid count bm queue n) ∧
  (∀ drain, h_drain_fragment_ack h = Some drain →
     forward_acks h (fuel + k) drain e n = forward_acks h fuel drain e n) ∧
  (∀ drain, h_drain_cloud_ack h = Some drain →
     drain_acks h (fuel + k) drain sid count bm act n = drain_acks h fuel drain sid count bm act n).
Proof.
  cbv zeta. split_and!.
  - intros drain E. split; [ apply forward_nacks_fuel | apply drain_nacks_fuel ]; (apply _ || done || lia).
  - intros drain E. apply forward_acks_fuel; (apply _ || done || lia).
  - intros drain E. apply drain_acks_fuel; (apply _ || done || lia).
Qed.
