(* ===== verification/EspNow.v ===== *)
(** * ESP-NOW transport (components/espnow/espnow_transport.{hpp,cpp})

    The peer table, the two pools of transmit slots and the ring that tells
    [on_send] which pool a slot came from. [send] runs on the mesh task and
    [on_send] on the WiFi task; both are modelled as their atomic steps, whose
    interleavings the theorems quantify over, and [send] also as the function
    the mesh task sees when no completion intervenes. The ESP-NOW driver is
    the record [EspNowHost]; reception is in [Reception]. *)

From Stdlib Require Import ZArith Lia.
From stdpp Require Import base list numbers option sets relations.
From S2P Require Import Prelude.
From S2P Require Import Packet.
Open Scope Z_scope.
Open Scope flp_scope.

Definition ESPNOW_MAX_PEERS : Z := 20.
Definition ESPNOW_PENDING_PEER_QUEUE_DEPTH : Z := 8.
Definition ESPNOW_BCAST_MAC : list Z := [255; 255; 255; 255; 255; 255].
Definition TX_CTRL_DEPTH : Z := 8.
Definition TX_DATA_DEPTH : Z := 20.
Definition TX_SLOT_DEPTH : Z := TX_CTRL_DEPTH + TX_DATA_DEPTH.

Inductive EspErr := ESP_OK | ESP_ERR_ESPNOW_NO_MEM | ESP_ERR_ESPNOW_EXIST | ESP_FAIL.

(** The driver, acting on a world [W]. *)
Record EspNowHost {W : Type} := mk_espnow_host {
  eh_max_len : Z;                                  (* ESP_NOW_MAX_DATA_LEN_V2 *)
  eh_now_ms : W → Z;
  eh_send : W → list Z → list Z → EspErr * W;      (* esp_now_send(mac, data) *)
  eh_add_peer : W → list Z → EspErr * W;
  eh_del_peer : W → list Z → W;
  eh_is_peer : W → list Z → bool
}.
Arguments EspNowHost : clear implicits.
Arguments mk_espnow_host {W}.

Record PeerInfo := mk_peer { pi_mac : list Z; pi_addr : Z; pi_rssi : Z; pi_active : bool }.
#[export] Instance PeerInfo_inhabited : Inhabited PeerInfo := populate (mk_peer [] 0 0 false).
#[export] Instance eta_PeerInfo : Eta PeerInfo := fun p =>
  mk_peer (pi_mac p) (pi_addr p) (pi_rssi p) (pi_active p).

(** The diagnostic counters. *)
Record TxDiag := mk_diag {
  td_submit : Z; td_complete : Z; td_fail_status : Z; td_full : Z; td_error : Z;
  td_last_full : Z; td_last_ms : Z
}.
#[export] Instance eta_TxDiag : Eta TxDiag := fun d =>
  mk_diag (td_submit d) (td_complete d) (td_fail_status d) (td_full d) (td_error d)
    (td_last_full d) (td_last_ms d).

Record EspNowTransport := mk_espnow {
  en_peers : list PeerInfo;
  en_peer_count : Z;
  en_pending : option (list (list Z * Z));  (* pending_peer_queue_: MAC and RSSI *)
  en_ctrl : option Z;                       (* tx_ctrl_slots_ *)
  en_data : option Z;                       (* tx_data_slots_ *)
  en_class : list bool;                     (* tx_slot_class_, true for control *)
  en_write : Z;
  en_read : Z;
  en_node_addr : Z;
  en_initialized : bool;
  en_diag : TxDiag
}.
#[export] Instance eta_EspNowTransport : Eta EspNowTransport := fun t =>
  mk_espnow (en_peers t) (en_peer_count t) (en_pending t) (en_ctrl t) (en_data t) (en_class t)
    (en_write t) (en_read t) (en_node_addr t) (en_initialized t) (en_diag t).

Definition espnow_new : EspNowTransport :=
  mk_espnow (replicate (Z.to_nat ESPNOW_MAX_PEERS) (mk_peer [0; 0; 0; 0; 0; 0] 0 0 false)) 0 None
    None None (replicate (Z.to_nat TX_SLOT_DEPTH) false) 0 0 0 false (mk_diag 0 0 0 0 0 0 0).

Definition get_tx_slots_available (t : EspNowTransport) : Z :=
  u8 (u8 (default TX_CTRL_DEPTH (en_ctrl t)) + u8 (default TX_DATA_DEPTH (en_data t))).

(** ** Peers *)

Definition addr_from_mac (mac : list Z) : Z := u16 (Z.lor (Z.shiftl (aget mac 4) 8) (aget mac 5)).

Definition is_peer (addr : Z) (q : PeerInfo) : bool := pi_active q && (pi_addr q =? addr).

Definition find_mac (addr : Z) (t : EspNowTransport) : option (list Z) :=
  pi_mac <$> find_first (is_peer addr) (en_peers t).

Definition get_peer_rssi (addr : Z) (t : EspNowTransport) : Z :=
  match find_first (is_peer addr) (en_peers t) with Some q => pi_rssi q | None => -127 end.

Section espnow.
Context {W : Type} (h : EspNowHost W).
Implicit Types (t : EspNowTransport) (w : W).

(** A known address only updates its RSSI; the registration's error is
    logged and forgotten. *)
Definition add_peer_if_new (mac : list Z) (rssi : Z) t w : EspNowTransport * W :=
  let addr := addr_from_mac mac in
  if existsb (is_peer addr) (en_peers t)
  then (t <| en_peers ::= update_first (is_peer addr) (fun q => q <| pi_rssi := rssi |>) |>, w)
  else if existsb (fun q => negb (pi_active q)) (en_peers t)
  then
    let t := t <| en_peers ::= update_first (fun q => negb (pi_active q))
                                 (fun _ => mk_peer mac addr rssi true) |>
               <| en_peer_count ::= fun n => u8 (n + 1) |> in
    let '(_, w) := eh_add_peer h w mac in
    (t, w)
  else (t, w).

Definition drain_pending_peers t w : EspNowTransport * W :=
  match en_pending t with
  | None => (t, w)
  | Some q =>
      fold_left (fun '(t, w) '(mac, rssi) => add_peer_if_new mac rssi t w) q
        (t <| en_pending := Some [] |>, w)
  end.

Definition update_broadcast_peer t w : EspNowTransport * W :=
  if en_initialized t then (t, (eh_add_peer h (eh_del_peer h w ESPNOW_BCAST_MAC) ESPNOW_BCAST_MAC).2)
  else (t, w).

(** The allocations and the driver's start as the caller observes them. *)
Definition init (mac : list Z) (queue_ok ctrl_ok data_ok : bool) (started : W → EspErr * W) t w
    : EspNowTransport * W :=
  if en_initialized t then (t, w)
  else if negb queue_ok then (t <| en_pending := None |>, w)
  else
    let t := t <| en_pending := Some [] |> in
    if negb ctrl_ok || negb data_ok then (t <| en_ctrl := None |> <| en_data := None |>, w)
    else
      let t := t <| en_ctrl := Some TX_CTRL_DEPTH |> <| en_data := Some TX_DATA_DEPTH |>
                 <| en_write := 0 |> <| en_read := 0 |>
                 <| en_node_addr := addr_from_mac mac |> in
      let '(err, w) := started w in
      match err with
      | ESP_OK => (t <| en_initialized := true |>, (eh_add_peer h w ESPNOW_BCAST_MAC).2)
      | _ => (t <| en_ctrl := None |> <| en_data := None |> <| en_pending := None |>, w)
      end.

Definition deinit t : EspNowTransport :=
  if en_initialized t
  then t <| en_pending := None |> <| en_ctrl := None |> <| en_data := None |>
         <| en_initialized := false |>
  else t.

(** ** Sending *)

Definition maybe_log_tx_diag t w : EspNowTransport :=
  let now := eh_now_ms h w in
  let d := en_diag t in
  if negb (td_last_ms d =? 0) && (u32 (now - td_last_ms d) <? 1000) then t
  else t <| en_diag := mk_diag 0 0 0 0 0 (td_last_full d) now |>.

Definition count_full (peer : Z) t : EspNowTransport :=
  t <| en_diag ::= fun d => d <| td_full := u32 (td_full d + 1) |> <| td_last_full := peer |> |>.
Definition count_error t : EspNowTransport :=
  t <| en_diag ::= fun d => d <| td_error := u32 (td_error d + 1) |> |>.
Definition count_submit t : EspNowTransport :=
  t <| en_diag ::= fun d => d <| td_submit := u32 (td_submit d + 1) |> |>.

(** Control frames, by the type in the low six bits of the first byte. *)
Definition is_ctrl_frame (data : list Z) : bool :=
  match data with
  | [] => false
  | b :: _ =>
      match type_of_code (Z.land b 63) with
      | ACK | NACK | TRANSFER_ACK | DISCOVERY | ROUTE_ERROR | ROUTE_REPLY | TRANSFER_DONE => true
      | _ => false
      end
  end.

Definition depth (ctrl : bool) : Z := if ctrl then TX_CTRL_DEPTH else TX_DATA_DEPTH.
Definition slots (ctrl : bool) t : option Z := if ctrl then en_ctrl t else en_data t.
Definition set_slots (ctrl : bool) (n : Z) t : EspNowTransport :=
  if ctrl then t <| en_ctrl := Some n |> else t <| en_data := Some n |>.

(** [xSemaphoreGive]: nothing above the depth, nothing without a semaphore. *)
Definition give (ctrl : bool) t : EspNowTransport :=
  match slots ctrl t with
  | Some n => if n <? depth ctrl then set_slots ctrl (n + 1) t else t
  | None => t
  end.

Definition record_class (ctrl : bool) t : EspNowTransport :=
  t <| en_class ::= fun l => aset l (en_write t) ctrl |>.
Definition advance_write t : EspNowTransport :=
  t <| en_write := u8 ((en_write t + 1) mod TX_SLOT_DEPTH) |>.
Definition rewind_write t : EspNowTransport :=
  t <| en_write := u8 ((en_write t + TX_SLOT_DEPTH - 1) mod TX_SLOT_DEPTH) |>.

Definition send_error (err : EspErr) : Z :=
  match err with
  | ESP_ERR_ESPNOW_NO_MEM => TRANSPORT_SEND_BACKPRESSURE
  | _ => TRANSPORT_SEND_FAILED
  end.

(** The call of the driver once a slot is held: [None] when the frame is on
    its way, else the value [send] returns after it gave the slot back. *)
Definition submit (peer : Z) (data : list Z) t w : option Z * EspNowTransport * W :=
  let go mac t w :=
    let '(err, w) := eh_send h w mac data in
    match err with
    | ESP_OK => (None, maybe_log_tx_diag (count_submit t) w, w)
    | _ => (Some (send_error err), count_error t, w)
    end in
  if peer =? BROADCAST_ADDR then
    let '(t, w) := if eh_is_peer h w ESPNOW_BCAST_MAC then (t, w) else update_broadcast_peer t w in
    go ESPNOW_BCAST_MAC t w
  else
    match find_mac peer t with
    | None => (Some TRANSPORT_SEND_FAILED, count_error t, w)
    | Some mac => go mac t w
    end.

(** Where the mesh task stands inside [send]. *)
Inductive SendPc :=
  | SStart (peer : Z) (data : list Z)
  | SWait (peer : Z) (data : list Z) (ctrl : bool)     (* xSemaphoreTake *)
  | SRecord (peer : Z) (data : list Z) (ctrl : bool)   (* tx_slot_class_[write] = is_ctrl *)
  | SAdvance (peer : Z) (data : list Z) (ctrl : bool)
  | SSubmit (peer : Z) (data : list Z) (ctrl : bool)
  | SRewind (ctrl : bool) (rc : Z)
  | SGive (ctrl : bool) (rc : Z)
  | SRet (rc : Z).

(** One step of [send]; [timeout] ends the wait for a slot. *)
Definition send_step (timeout : bool) (pc : SendPc) t w : SendPc * EspNowTransport * W :=
  match pc with
  | SStart peer data =>
      (if Z.of_nat (length data) >? eh_max_len h then SRet TRANSPORT_SEND_FAILED
       else SWait peer data (is_ctrl_frame data), t, w)
  | SWait peer data ctrl =>
      match slots ctrl t with
      | None => (SRecord peer data ctrl, t, w)
      | Some n =>
          if n >? 0 then (SRecord peer data ctrl, set_slots ctrl (n - 1) t, w)
          else if timeout
          then (SRet TRANSPORT_SEND_BACKPRESSURE, maybe_log_tx_diag (count_full peer t) w, w)
          else (pc, t, w)
      end
  | SRecord peer data ctrl => (SAdvance peer data ctrl, record_class ctrl t, w)
  | SAdvance peer data ctrl => (SSubmit peer data ctrl, advance_write t, w)
  | SSubmit peer data ctrl =>
      let '(r, t, w) := submit peer data t w in
      (match r with None => SRet TRANSPORT_SEND_OK | Some rc => SRewind ctrl rc end, t, w)
  | SRewind ctrl rc => (SGive ctrl rc, rewind_write t, w)
  | SGive ctrl rc => (SRet rc, maybe_log_tx_diag (give ctrl t) w, w)
  | SRet rc => (SRet rc, t, w)
  end.

(** [send] when no completion intervenes: a pool that is empty stays empty
    until the wait times out. *)
Definition send (peer : Z) (data : list Z) t w : Z * EspNowTransport * W :=
  if Z.of_nat (length data) >? eh_max_len h then (TRANSPORT_SEND_FAILED, t, w)
  else
    let ctrl := is_ctrl_frame data in
    if match slots ctrl t with Some n => n <=? 0 | None => false end
    then (TRANSPORT_SEND_BACKPRESSURE, maybe_log_tx_diag (count_full peer t) w, w)
    else
      let t := match slots ctrl t with Some n => set_slots ctrl (n - 1) t | None => t end in
      let '(r, t, w) := submit peer data (advance_write (record_class ctrl t)) w in
      match r with
      | None => (TRANSPORT_SEND_OK, t, w)
      | Some rc => (rc, maybe_log_tx_diag (give ctrl (rewind_write t)) w, w)
      end.

(** ** Completion *)

(** Where the WiFi task stands inside [on_send]. *)
Inductive WifiPc :=
  | WIdle
  | WLoad (ok : bool)               (* is_ctrl = tx_slot_class_[tx_ring_read_] *)
  | WAdvance (ctrl ok : bool)       (* tx_ring_read_ = ... *)
  | WGive (ctrl ok : bool).         (* xSemaphoreGiveFromISR, and the counters *)
#[export] Instance WifiPc_dec : EqDecision WifiPc.
Proof. solve_decision. Defined.

Definition on_send_step (pc : WifiPc) t : WifiPc * EspNowTransport :=
  match pc with
  | WIdle => (WIdle, t)
  | WLoad ok => (WAdvance (aget (en_class t) (en_read t)) ok, t)
  | WAdvance ctrl ok => (WGive ctrl ok, t <| en_read := u8 ((en_read t + 1) mod TX_SLOT_DEPTH) |>)
  | WGive ctrl ok =>
      (WIdle,
       give ctrl t <| en_diag ::= fun d =>
         (if ok then d else d <| td_fail_status := u32 (td_fail_status d + 1) |>)
           <| td_complete := u32 (td_complete d + 1) |> |>)
  end.

Definition on_send (ok : bool) t : EspNowTransport :=
  let '(pc, t) := on_send_step (WLoad ok) t in
  let '(pc, t) := on_send_step pc t in
  (on_send_step pc t).2.
End espnow.
