(* ===== verification/EspNowSlots.v ===== *)
(** * ESP-NOW transmit slots under interleaving

    The mesh task inside [send] and the WiFi task inside [on_send], moving in
    any order: the slots of the two pools are conserved and every completion
    returns its slot to the pool it was taken from. *)

From Stdlib Require Import ZArith Lia.
From stdpp Require Import base list numbers option sets relations.
From S2P Require Import Prelude.
From S2P Require Import Packet.
From S2P Require Import EspNow.
Open Scope Z_scope.
Open Scope flp_scope.

(** Both tasks, the transport, the driver's world and the frames the driver
    has accepted and not completed, oldest first, by class. *)
Record Tx {W : Type} := mk_tx {
  tx_pc : SendPc;
  tx_wifi : WifiPc;
  tx_t : EspNowTransport;
  tx_w : W;
  tx_flight : list bool
}.
Arguments Tx : clear implicits.
Arguments mk_tx {W}.

Section slots.
Context {W : Type} (h : EspNowHost W).
Implicit Types (t : EspNowTransport) (w : W) (fl : list bool).

Definition accepted (pc : SendPc) (rc : SendPc) : list bool :=
  match pc, rc with SSubmit _ _ ctrl, SRet _ => [ctrl] | _, _ => [] end.

(** The driver completes the frames it accepted one by one, in order, and
    calls [on_send] once for each. Between two calls of [send] the mesh task
    may register peers; the world changes at any time. *)
Inductive tx_step : Tx W → Tx W → Prop :=
  | tx_call peer data rc wpc t w fl :
      tx_step (mk_tx (SRet rc) wpc t w fl) (mk_tx (SStart peer data) wpc t w fl)
  | tx_mesh timeout pc wpc t w fl pc' t' w' :
      send_step h timeout pc t w = (pc', t', w') →
      tx_step (mk_tx pc wpc t w fl) (mk_tx pc' wpc t' w' (fl ++ accepted pc pc'))
  | tx_complete ok pc t w c fl :
      tx_step (mk_tx pc WIdle t w (c :: fl)) (mk_tx pc (WLoad ok) t w (c :: fl))
  | tx_on_send pc wpc t w fl wpc' t' :
      on_send_step wpc t = (wpc', t') →
      tx_step (mk_tx pc wpc t w fl)
        (mk_tx pc wpc' t' w (match wpc with WGive _ _ => tail fl | _ => fl end))
  | tx_peers rc wpc t w fl :
      tx_step (mk_tx (SRet rc) wpc t w fl)
        (let '(t', w') := drain_pending_peers h t w in mk_tx (SRet rc) wpc t' w' fl)
  | tx_world pc wpc t w w' fl : tx_step (mk_tx pc wpc t w fl) (mk_tx pc wpc t w' fl).

(** ** What the slots depend on *)

Definition slot_view t := (en_ctrl t, en_data t, en_class t, en_write t, en_read t).

Ltac en_upd := cbn [update_field en_peers en_peer_count en_pending en_ctrl en_data en_class
  en_write en_read en_node_addr en_initialized en_diag fst snd].

Lemma diag_view t w : slot_view (maybe_log_tx_diag h t w) = slot_view t.
Proof. unfold maybe_log_tx_diag. by destruct (_ && _). Qed.

Lemma add_peer_view mac rssi t w : slot_view (add_peer_if_new h mac rssi t w).1 = slot_view t.
Proof.
  unfold add_peer_if_new. destruct (existsb _ _); [ done | ]. destruct (existsb _ _); [ | done ].
  cbv zeta. by destruct (eh_add_peer h w mac).
Qed.

Lemma drain_view t w : slot_view (drain_pending_peers h t w).1 = slot_view t.
Proof.
  unfold drain_pending_peers. destruct (en_pending t) as [q | ]; [ | done ].
  assert (H : ∀ t0 w0, slot_view (fold_left (fun '(t, w) '(mac, rssi) => add_peer_if_new h mac rssi t w)
                                    q (t0, w0)).1 = slot_view t0); [ | by rewrite H ].
  induction q as [ | [mac rssi] q IH ]; intros t0 w0; cbn [fold_left]; [ done | ].
  pose proof (add_peer_view mac rssi t0 w0) as Ha.
  destruct (add_peer_if_new h mac rssi t0 w0) as [t1 w1]. by rewrite IH.
Qed.

Lemma update_bcast_view t w : slot_view (update_broadcast_peer h t w).1 = slot_view t.
Proof. unfold update_broadcast_peer. by destruct (en_initialized t). Qed.

Lemma submit_view peer data t w : slot_view (submit h peer data t w).1.2 = slot_view t.
Proof.
  assert (Hgo : ∀ mac t w,
    slot_view (let '(err, w) := eh_send h w mac data in
      match err with
      | ESP_OK => (None : option Z, maybe_log_tx_diag h (count_submit t) w, w)
      | _ => (Some (send_error err), count_error t, w)
      end).1.2 = slot_view t).
  { intros mac t0 w0. destruct (eh_send h w0 mac data) as [[ ] w1]; cbn; [ | done.. ].
    by rewrite diag_view. }
  unfold submit. cbv zeta. destruct (peer =? _).
  - destruct (eh_is_peer h w _); [ apply Hgo | ].
    pose proof (update_bcast_view t w) as Hv. destruct (update_broadcast_peer h t w) as [t1 w1].
    cbn in Hv. by rewrite Hgo.
  - destruct (find_mac peer t); [ apply Hgo | done ].
Qed.

(** ** The invariant *)

Definition held (pc : SendPc) : option bool :=
  match pc with
  | SRecord _ _ c | SAdvance _ _ c | SSubmit _ _ c | SRewind c _ | SGive c _ => Some c
  | _ => None
  end.

(** One entry of the ring beyond those of the accepted frames; the head's
    entry already passed by the reader. *)
Definition ext (pc : SendPc) : Z := match pc with SSubmit _ _ _ | SRewind _ _ => 1 | _ => 0 end.
Definition passed (wpc : WifiPc) : Z := match wpc with WGive _ _ => 1 | _ => 0 end.

Definition entry t (i : Z) : bool := aget (en_class t) (i mod TX_SLOT_DEPTH).

Record tx_inv (s : Tx W) : Prop := {
  ti_len : Z.of_nat (length (en_class (tx_t s))) = TX_SLOT_DEPTH;
  ti_read : 0 <= en_read (tx_t s) < TX_SLOT_DEPTH;
  ti_write : en_write (tx_t s) =
    (en_read (tx_t s) - passed (tx_wifi s) + Z.of_nat (length (tx_flight s)) + ext (tx_pc s))
      mod TX_SLOT_DEPTH;
  ti_class : ∀ k c, tx_flight s !! k = Some c →
    entry (tx_t s) (en_read (tx_t s) - passed (tx_wifi s) + Z.of_nat k) = c;
  ti_pc : match tx_pc s with
          | SAdvance _ _ c => entry (tx_t s) (en_write (tx_t s)) = c
          | SSubmit _ _ c => entry (tx_t s) (en_write (tx_t s) - 1) = c
          | _ => True
          end;
  ti_wifi : match tx_wifi s with
            | WIdle => True
            | WLoad _ => tx_flight s ≠ []
            | WAdvance c _ | WGive c _ => ∃ fl, tx_flight s = c :: fl
            end;
  ti_slots : ∀ b, ∃ n, slots b (tx_t s) = Some n ∧ 0 <= n ∧
    n + count_if (Bool.eqb b) (tx_flight s) + Z.b2z (bool_decide (held (tx_pc s) = Some b)) = depth b
}.

Lemma count_classes fl :
  count_if (Bool.eqb true) fl + count_if (Bool.eqb false) fl = Z.of_nat (length fl).
Proof.
  induction fl as [ | [ ] fl IH ]; [ done | .. ]; rewrite !count_if_cons; cbn [Bool.eqb Z.b2z length]; lia.
Qed.

(** At most 28 frames hold a slot, the one being sent included. *)
Lemma flight_bound s :
  tx_inv s → Z.of_nat (length (tx_flight s)) + (if held (tx_pc s) then 1 else 0) <= TX_SLOT_DEPTH.
Proof.
  intros Hs. pose proof (count_classes (tx_flight s)).
  destruct (ti_slots s Hs true) as (n & _ & Hn & Et), (ti_slots s Hs false) as (k & _ & Hk & Ef).
  unfold depth, TX_SLOT_DEPTH, TX_CTRL_DEPTH, TX_DATA_DEPTH in *.
  destruct (held (tx_pc s)) as [[ ] | ]; repeat case_bool_decide; simplify_eq; cbn [Z.b2z] in *; lia.
Qed.

Lemma slots_view b t t' : slot_view t = slot_view t' → slots b t = slots b t'.
Proof. unfold slot_view. intros [= H1 H2 _ _ _]. by destruct b; cbn. Qed.

Lemma tx_inv_view pc pc' wpc t t' w w' fl :
  slot_view t = slot_view t' → held pc = held pc' → ext pc = ext pc' →
  match pc' with SAdvance _ _ _ | SSubmit _ _ _ => False | _ => True end →
  tx_inv (mk_tx pc wpc t w fl) → tx_inv (mk_tx pc' wpc t' w' fl).
Proof.
  intros Hv Hh He Hp [H1 H2 H3 H4 _ H6 H7]. pose proof Hv as [= E1 E2 E3 E4 E5].
  assert (Hent : ∀ i, entry t' i = entry t i) by (intros i; unfold entry; by rewrite E3).
  cbn in *. split; cbn; rewrite <- ?E3, <- ?E4, <- ?E5, <- ?He, <- ?Hh; try done.
  - intros k c. rewrite Hent. apply H4.
  - by destruct pc'.
  - intros b. rewrite <- (slots_view b _ _ Hv). apply H7.
Qed.

(** ** Every step keeps it *)

Lemma slots_set b b' n t : slots b (set_slots b' n t) = if Bool.eqb b b' then Some n else slots b t.
Proof. by destruct b, b'. Qed.

Lemma give_room b t n :
  slots b t = Some n → n < depth b → give b t = set_slots b (n + 1) t.
Proof. intros E Hn. unfold give. rewrite E. by rewrite (proj2 (Z.ltb_lt _ _) Hn). Qed.

Lemma entry_record t c i :
  Z.of_nat (length (en_class t)) = TX_SLOT_DEPTH → 0 <= en_write t < TX_SLOT_DEPTH →
  entry (record_class c t) i = if (i mod TX_SLOT_DEPTH =? en_write t) then c else entry t i.
Proof.
  intros Hl Hw. unfold entry, record_class. en_upd.
  assert (0 <= i mod TX_SLOT_DEPTH) by (apply Z.mod_pos_bound; done).
  destruct (Z.eqb_spec (i mod TX_SLOT_DEPTH) (en_write t)) as [-> | Hne].
  - apply aget_aset_eq. lia.
  - apply aget_aset_ne; lia.
Qed.

Lemma mod_small_u8 z : u8 (z mod TX_SLOT_DEPTH) = z mod TX_SLOT_DEPTH.
Proof. unfold TX_SLOT_DEPTH, TX_CTRL_DEPTH, TX_DATA_DEPTH. int_lia. Qed.

Lemma entry_mod t i : entry t (i mod TX_SLOT_DEPTH) = entry t i.
Proof. unfold entry. by rewrite Zmod_mod. Qed.

Lemma write_range s : tx_inv s → 0 <= en_write (tx_t s) < TX_SLOT_DEPTH.
Proof. intros Hs. rewrite (ti_write _ Hs). by apply Z.mod_pos_bound. Qed.

Ltac tx_goal := split; cbn [tx_pc tx_wifi tx_t tx_w tx_flight held ext passed app].

Lemma take_inv peer data c n wpc t w fl :
  slots c t = Some n → 0 < n →
  tx_inv (mk_tx (SWait peer data c) wpc t w fl) →
  tx_inv (mk_tx (SRecord peer data c) wpc (set_slots c (n - 1) t) w fl).
Proof.
  intros En Hn [H1 H2 H3 H4 H5 H6 H7]. cbn in *.
  tx_goal; try (by destruct c).
  intros b. destruct (H7 b) as (m & Em & Hm & Hs). rewrite slots_set.
  destruct (Bool.eqb_spec b c) as [-> | Hne].
  - exists (n - 1). assert (m = n) as -> by congruence.
    rewrite bool_decide_true by done. rewrite bool_decide_false in Hs by done. cbn in *.
    split; [ done | ]. lia.
  - exists m. split; [ done | ]. split; [ done | ].
    rewrite bool_decide_false by congruence. by rewrite bool_decide_false in Hs by done.
Qed.

Lemma record_inv peer data c wpc t w fl :
  tx_inv (mk_tx (SRecord peer data c) wpc t w fl) →
  tx_inv (mk_tx (SAdvance peer data c) wpc (record_class c t) w fl).
Proof.
  intros Hs. pose proof (flight_bound _ Hs) as Hb. pose proof (write_range _ Hs) as Hw.
  destruct Hs as [H1 H2 H3 H4 H5 H6 H7]. cbn in *.
  tx_goal; try done.
  - unfold record_class. en_upd. by rewrite length_aset.
  - intros k d Hk. rewrite entry_record by done.
    change (en_read (record_class c t)) with (en_read t).
    destruct (Z.eqb_spec ((en_read t - passed wpc + Z.of_nat k) mod TX_SLOT_DEPTH) (en_write t)) as [Hc | ];
      [ | by apply H4 ].
    exfalso. apply lookup_lt_Some in Hk. rewrite H3 in Hc.
    unfold TX_SLOT_DEPTH, TX_CTRL_DEPTH, TX_DATA_DEPTH in *. lia.
  - change (en_write (record_class c t)) with (en_write t).
    rewrite entry_record by done. by rewrite Z.mod_small, Z.eqb_refl by done.
Qed.

Lemma advance_inv peer data c wpc t w fl :
  tx_inv (mk_tx (SAdvance peer data c) wpc t w fl) →
  tx_inv (mk_tx (SSubmit peer data c) wpc (advance_write t) w fl).
Proof.
  intros [H1 H2 H3 H4 H5 H6 H7]. cbn in *.
  tx_goal; try done; unfold advance_write; en_upd; rewrite mod_small_u8.
  - rewrite H3. unfold TX_SLOT_DEPTH, TX_CTRL_DEPTH, TX_DATA_DEPTH in *. lia.
  - rewrite <- H5. unfold entry. en_upd. f_equal.
    rewrite Zminus_mod_idemp_l. f_equal. lia.
Qed.

Lemma rewind_inv c rc wpc t w fl :
  tx_inv (mk_tx (SRewind c rc) wpc t w fl) → tx_inv (mk_tx (SGive c rc) wpc (rewind_write t) w fl).
Proof.
  intros [H1 H2 H3 H4 H5 H6 H7]. cbn in *. tx_goal; try done.
  unfold rewind_write. en_upd. rewrite mod_small_u8, H3.
  unfold TX_SLOT_DEPTH, TX_CTRL_DEPTH, TX_DATA_DEPTH in *. lia.
Qed.

Lemma give_inv c rc wpc t w fl :
  tx_inv (mk_tx (SGive c rc) wpc t w fl) → tx_inv (mk_tx (SRet rc) wpc (give c t) w fl).
Proof.
  intros [H1 H2 H3 H4 H5 H6 H7]. cbn in *.
  destruct (H7 c) as (n & En & Hn & Hs). rewrite bool_decide_true in Hs by done.
  pose proof (count_if_range (Bool.eqb c) fl). cbn [Z.b2z] in Hs.
  rewrite (give_room c t n) by (done || lia).
  tx_goal; try (by destruct c).
  intros b. destruct (H7 b) as (m & Em & Hm & Hs'). rewrite slots_set.
  destruct (Bool.eqb_spec b c) as [-> | Hne].
  - exists (n + 1). rewrite bool_decide_false by done. cbn [Z.b2z]. split; [ done | ]. lia.
  - exists m. split; [ done | ]. split; [ done | ].
    rewrite bool_decide_false by done. by rewrite bool_decide_false in Hs' by congruence.
Qed.

Lemma submit_inv peer data c wpc t w fl r t' w' :
  submit h peer data t w = (r, t', w') →
  tx_inv (mk_tx (SSubmit peer data c) wpc t w fl) →
  tx_inv (match r with
          | None => mk_tx (SRet TRANSPORT_SEND_OK) wpc t' w' (fl ++ [c])
          | Some rc => mk_tx (SRewind c rc) wpc t' w' fl
          end).
Proof.
  intros E Hs. pose proof (submit_view peer data t w) as Hv. rewrite E in Hv. cbn in Hv.
  destruct r as [rc | ]; [ by eapply tx_inv_view, Hs | ].
  apply (tx_inv_view (SRet 0) _ wpc t _ w _ _ (eq_sym Hv)); [ done.. | ].
  destruct Hs as [H1 H2 H3 H4 H5 H6 H7]. cbn in *. tx_goal; try done.
  - rewrite length_app. cbn [length]. rewrite H3. f_equal. lia.
  - intros k d Hk. apply lookup_app_Some in Hk as [Hk | [Hk Hd]]; [ by apply H4 | ].
    apply list_lookup_singleton_Some in Hd as [Hk0 <-].
    rewrite <- H5, H3, <- (entry_mod _ (_ - 1)), Zminus_mod_idemp_l, entry_mod. f_equal. lia.
  - destruct wpc; try done; [ by destruct fl | | ]; destruct H6 as [fl' ->]; by eexists.
  - intros b. destruct (H7 b) as (m & Em & Hm & Hs). exists m. split; [ done | ]. split; [ done | ].
    rewrite count_if_app, count_if_cons, count_if_nil. rewrite bool_decide_false by done.
    destruct (Bool.eqb_spec b c) as [-> | Hne].
    + rewrite bool_decide_true in Hs by done. cbn in *. lia.
    + rewrite bool_decide_false in Hs by congruence. cbn in *. lia.
Qed.

Lemma wifi_inv pc wpc t w fl wpc' t' :
  wpc ≠ WIdle → on_send_step wpc t = (wpc', t') →
  tx_inv (mk_tx pc wpc t w fl) →
  tx_inv (mk_tx pc wpc' t' w (match wpc with WGive _ _ => tail fl | _ => fl end)).
Proof.
  intros Hne E Hs. pose proof (flight_bound _ Hs) as Hb.
  destruct Hs as [H1 H2 H3 H4 H5 H6 H7]. cbn in *.
  destruct wpc as [ | ok | c ok | c ok ]; [ done | .. ]; cbn in E; injection E as <- <-.
  - tx_goal; try done. destruct fl as [ | c fl ]; [ done | ]. exists fl. f_equal.
    rewrite <- (H4 0%nat c) by done. unfold entry, passed. rewrite Z.mod_small by lia. f_equal. lia.
  - rewrite mod_small_u8. destruct H6 as [fl' ->].
    tx_goal; en_upd; try done.
    + by apply Z.mod_pos_bound.
    + rewrite H3. cbn [passed].
      unfold TX_SLOT_DEPTH, TX_CTRL_DEPTH, TX_DATA_DEPTH in *. lia.
    + intros k d Hk. rewrite <- (H4 k d Hk). unfold entry. en_upd. cbn [passed]. f_equal.
      unfold TX_SLOT_DEPTH, TX_CTRL_DEPTH, TX_DATA_DEPTH in *. lia.
    + by eexists.
  - destruct H6 as [fl' ->]. cbn [tail].
    destruct (H7 c) as (n & En & Hn & Hc). rewrite count_if_cons, eqb_reflx in Hc. cbn [Z.b2z] in Hc.
    pose proof (count_if_range (Bool.eqb c) fl').
    assert (0 <= Z.b2z (bool_decide (held pc = Some c))) by (case_bool_decide; cbn; lia).
    rewrite (give_room c t n) by (done || lia).
    match goal with |- tx_inv (mk_tx _ _ ?t2 _ _) => set (t' := t2) end.
    assert (Hv : en_class t' = en_class t ∧ en_write t' = en_write t ∧ en_read t' = en_read t)
      by (subst t'; by destruct c, ok).
    destruct Hv as (Ec & Ew & Er).
    assert (Hent : ∀ i, entry t' i = entry t i) by (intros i; unfold entry; by rewrite Ec).
    tx_goal; rewrite ?Ec, ?Ew, ?Er; try done.
    + rewrite H3. cbn [passed length]. f_equal. lia.
    + intros k d Hk. rewrite <- (H4 (S k) d Hk), Hent. unfold passed. f_equal. lia.
    + destruct pc; try done; by rewrite Hent.
    + intros b. replace (slots b t') with (if Bool.eqb b c then Some (n + 1) else slots b t)
        by (subst t'; by destruct b, c, ok).
      destruct (H7 b) as (m & Em & Hm & Hs'). rewrite count_if_cons in Hs'.
      destruct (Bool.eqb_spec b c) as [-> | ]; [ exists (n + 1) | exists m ];
        (split; [ done | ]); cbn [Z.b2z] in *; lia.
Qed.

Lemma tx_step_inv s s' : tx_step s s' → tx_inv s → tx_inv s'.
Proof.
  intros [peer data rc wpc t w fl | timeout pc wpc t w fl pc' t' w' E | ok pc t w c fl
    | pc wpc t w fl wpc' t' E | rc wpc t w fl | pc wpc t w w' fl] Hs.
  - by apply (tx_inv_view (SRet rc) _ _ t _ w).
  - destruct pc as [peer data | peer data c | peer data c | peer data c | peer data c | c rc | c rc | rc];
      cbn [accepted]; rewrite ?app_nil_r; cbn in E.
    + injection E as <- <- <-. destruct (_ >? _); by apply (tx_inv_view (SStart peer data) _ _ t _ w).
    + destruct (slots c t) as [n | ] eqn:En.
      * destruct (Z.gtb_spec n 0) as [Hn | Hn].
        { injection E as <- <- <-. apply take_inv; [ done | lia | done ]. }
        destruct timeout; injection E as <- <- <-; [ | by apply (tx_inv_view (SWait peer data c) _ _ t _ w) ].
        apply (tx_inv_view (SWait peer data c) _ _ t _ w); try done. by rewrite diag_view.
      * destruct (ti_slots _ Hs c) as (n & En' & _). cbn in En'. congruence.
    + injection E as <- <- <-. by apply record_inv.
    + injection E as <- <- <-. by apply advance_inv.
    + destruct (submit h peer data t w) as [[r t1] w1] eqn:Es. injection E as <- <- <-.
      pose proof (submit_inv peer data c wpc t w fl r t1 w1 Es Hs) as H.
      destruct r; cbn; [ by rewrite app_nil_r | done ].
    + injection E as <- <- <-. by apply rewind_inv.
    + injection E as <- <- <-.
      apply (tx_inv_view (SRet rc) _ _ (give c t) _ w); try done; [ by rewrite diag_view | by apply give_inv ].
    + injection E as <- <- <-. by apply (tx_inv_view (SRet rc) _ _ t _ w).
  - destruct Hs as [H1 H2 H3 H4 H5 H6 H7]. cbn in *. by tx_goal.
  - destruct (decide (wpc = WIdle)) as [-> | Hne]; [ by injection E as <- <- | ].
    by apply (wifi_inv pc wpc t w fl).
  - pose proof (drain_view t w) as Hv. destruct (drain_pending_peers h t w) as [t' w'].
    by apply (tx_inv_view (SRet rc) _ _ t _ w).
  - destruct Hs as [H1 H2 H3 H4 H5 H6 H7]. cbn in *. by tx_goal.
Qed.

Lemma tx_init_inv mac started w0 t0 w1 :
  init h mac true true true started espnow_new w0 = (t0, w1) → en_initialized t0 = true →
  tx_inv (mk_tx (SRet 0) WIdle t0 w1 []).
Proof.
  unfold init. cbn [negb orb en_initialized espnow_new]. cbv zeta.
  destruct (started w0) as [[ ] w]; intros E Hi; apply (inj2 pair) in E as [<- _]; try done.
  tx_goal; en_upd; try done.
  intros [ ]; eexists; (split; [ by cbn | ]); split; done.
Qed.

(** *** Uninterrupted, the steps are the function *)

Fixpoint send_steps (n : nat) (pc : SendPc) t w : SendPc * EspNowTransport * W :=
  match n with
  | O => (pc, t, w)
  | S n' => let '(pc, t, w) := send_step h true pc t w in send_steps n' pc t w
  end.

Lemma send_alone peer data t w :
  let '(rc, t', w') := send h peer data t w in
  send_steps 7 (SStart peer data) t w = (SRet rc, t', w').
Proof.
  unfold send. cbn [send_steps send_step]. destruct (_ >? eh_max_len h); [ done | ]. cbv zeta.
  set (c := is_ctrl_frame data). cbn [send_step].
  assert (Hrun : ∀ t0, let '(r, t1, w1) := submit h peer data (advance_write (record_class c t0)) w in
     send_steps 5 (SRecord peer data c) t0 w =
     match r with
     | None => (SRet TRANSPORT_SEND_OK, t1, w1)
     | Some rc => (SRet rc, maybe_log_tx_diag h (give c (rewind_write t1)) w1, w1)
     end).
  { intros t0. cbn [send_steps send_step].
    destruct (submit h peer data _ w) as [[[rc | ] t1] w1]; reflexivity. }
  destruct (slots c t) as [n | ] eqn:En.
  - destruct (Z.leb_spec n 0) as [Hn | Hn].
    + replace (n >? 0) with false by lia. done.
    + replace (n >? 0) with true by lia. specialize (Hrun (set_slots c (n - 1) t)).
      destruct (submit h peer data _ w) as [[[rc | ] t1] w1]; exact Hrun.
  - specialize (Hrun t).
    destruct (submit h peer data _ w) as [[[rc | ] t1] w1]; exact Hrun.
Qed.
End slots.

(** C9: the transmit slots through every interleaving of [send] on the mesh
    task and [on_send] on the WiFi task, the driver completing the frames it
    accepted one by one. The free slots of a pool, the frames of that class
    under way and the slot [send] holds add up to the pool's depth; a
    completion gives its slot back to the pool of the frame it completes,
    although the driver does not tell which frame that was; and [send] finds
    a pool empty exactly when all the frames it can hold are under way, so
    data frames never cost a control frame its slot. *)
Theorem tx_slots_conserved {W} (h : EspNowHost W) mac started w0 t0 w1 s :
  init h mac true true true started espnow_new w0 = (t0, w1) → en_initialized t0 = true →
  rtc (tx_step h) (mk_tx (SRet 0) WIdle t0 w1 []) s →
  (∀ b, ∃ n, slots b (tx_t s) = Some n ∧ 0 <= n ∧
     n + count_if (Bool.eqb b) (tx_flight s) + Z.b2z (bool_decide (held (tx_pc s) = Some b)) = depth b) ∧
  (∀ c ok, tx_wifi s = WGive c ok → ∃ fl, tx_flight s = c :: fl) ∧
  (∀ peer data c, tx_pc s = SWait peer data c →
     (send_step h true (tx_pc s) (tx_t s) (tx_w s)).1.1 = SRet TRANSPORT_SEND_BACKPRESSURE ↔
     count_if (Bool.eqb c) (tx_flight s) = depth c).
Proof.
  intros E Hi Hr. pose proof (tx_init_inv h mac started w0 t0 w1 E Hi) as H0. clear E Hi.
  assert (Hs : tx_inv s) by (induction Hr as [ | ????? IH ]; [ done | by eapply IH, tx_step_inv ]).
  destruct (id Hs) as [_ _ _ _ _ H6 H7].
  split; [ done | ]. split; [ intros c ok E; by rewrite E in H6 | ].
  intros peer data c E. rewrite E. destruct (H7 c) as (n & En & Hn & Hc).
  rewrite E in Hc. rewrite bool_decide_false in Hc by done. cbn [Z.b2z] in Hc.
  cbn [send_step]. rewrite En. destruct (Z.gtb_spec n 0); cbn [fst]; split; intros H'; (done || lia).
Qed.

(** An acknowledgement (first byte 66) is sent while nothing else is under
    way; the WiFi task is about to give its slot back. *)
Definition demo_espnow : EspNowHost (list (list Z)) :=
  mk_espnow_host 1470 (fun _ => 5000) (fun w _ d => (ESP_OK, d :: w)) (fun w _ => (ESP_OK, w))
    (fun w _ => w) (fun _ _ => true).

Definition demo_booted : EspNowTransport * list (list Z) :=
  init demo_espnow [2; 0; 0; 0; 18; 52] true true true (fun w => (ESP_OK, w)) espnow_new [].

Lemma tx_slots_conserved_witness :
  ∃ s, rtc (tx_step demo_espnow) (mk_tx (SRet 0) WIdle demo_booted.1 demo_booted.2 []) s ∧
    tx_w s = [[66]] ∧ tx_flight s = [true] ∧ tx_wifi s = WGive true true ∧ slots true (tx_t s) = Some 7 ∧
    ∀ b, ∃ n, slots b (tx_t s) = Some n ∧ 0 <= n ∧
      n + count_if (Bool.eqb b) (tx_flight s) + Z.b2z (bool_decide (held (tx_pc s) = Some b)) = depth b.
Proof.
  eassert (Hr : rtc (tx_step demo_espnow) (mk_tx (SRet 0) WIdle demo_booted.1 demo_booted.2 []) _).
  { eapply rtc_l; [ exact (tx_call demo_espnow BROADCAST_ADDR [66] 0 _ _ _ _) | ].
    do 5 (eapply rtc_l; [ eapply (tx_mesh demo_espnow true); vm_compute; reflexivity | ]).
    cbn [accepted app]. eapply rtc_l; [ apply (tx_complete demo_espnow true) | ].
    do 2 (eapply rtc_l; [ eapply (tx_on_send demo_espnow); vm_compute; reflexivity | ]).
    apply rtc_refl. }
  eexists. split; [ exact Hr | ]. do 4 (split; [ reflexivity | ]).
  refine (proj1 (tx_slots_conserved demo_espnow [2; 0; 0; 0; 18; 52] (fun w => (ESP_OK, w)) []
           demo_booted.1 demo_booted.2 _ _ _ Hr)); reflexivity.
Defined.
