(* ===== verification/Reception.v ===== *)
(** * Reception (espnow_transport.cpp [on_recv], lora_transport.cpp
    [rx_task_func], mesh_manager.cpp [run])

    What a radio hears is copied into a slab of the pool and the slab's
    pointer put into one of the mesh manager's two queues; the mesh task takes
    it out, processes it and releases it. The theorem relates this to a
    specification without slabs: two bounded queues of frames. Each receiver's
    call, and each release, is one step here: the pool's functions are those
    of [BufferPool] without interference. The tasks' interleaving inside them,
    and the double allocation it can end in, are [BufferPool]'s
    ([concurrent_acquires_distinct], [aba_double_acquire]). *)

From Stdlib Require Import ZArith Lia.
From stdpp Require Import base list numbers option sets.
From S2P Require Import Prelude.
From S2P Require Import Packet.
From S2P Require Import BufferPool.
From S2P Require Import MqttClient.
From S2P Require Import MeshLink.
From S2P Require Import EspNow.
Open Scope Z_scope.
Open Scope flp_scope.

(** The pool and the slabs waiting in the two queues. *)
Record RxPath := mk_rx {
  rx_pool : BufferPool;
  rx_hi : list Z;
  rx_lo : list Z
}.
#[export] Instance eta_RxPath : Eta RxPath := fun r => mk_rx (rx_pool r) (rx_hi r) (rx_lo r).

Definition rx_high_pri (b : Z) : bool :=
  match type_of_code (Z.land b 63) with
  | ACK | NACK | DISCOVERY | ROUTE_ERROR | TRANSFER_ACK | ROUTE_REPLY => true
  | _ => false
  end.

Definition queue_slab (hi : bool) (i : Z) (r : RxPath) : bool * RxPath :=
  let '(ok, q) := xQueueSend kQueueDepth i (if hi then rx_hi r else rx_lo r) in
  (ok, if hi then r <| rx_hi := q |> else r <| rx_lo := q |>).

(** Both queues are wired in [MeshManager::init]; an empty slab goes to
    [packet_queue_], which is the high-priority queue. *)
Definition dispatch_slab (i : Z) (r : RxPath) : RxPath :=
  let s := slab (rx_pool r) i in
  if bs_len s >=? 1 then
    let '(ok, r') := queue_slab (rx_high_pri (aget (bs_data s) 0)) i r in
    if ok then r' else r <| rx_pool ::= release (Some i) |>
  else (queue_slab true i r).2.

Definition fill_slab (i : Z) (data : list Z) (source : RxTransport) (rssi : Z) (p : BufferPool)
    : BufferPool :=
  upd_slab i (fun s => s <| bs_len := Z.of_nat (length data) |> <| bs_data ::= fun d => memcpy d 0 data |>
                         <| bs_source := source |> <| bs_rssi := rssi |>) p.

(** The common part of the two receivers, from [acquire] on. *)
Definition store_frame (data : list Z) (source : RxTransport) (rssi : Z) (r : RxPath) : RxPath :=
  let '(s, p) := acquire (rx_pool r) in
  let r := r <| rx_pool := p |> in
  match s with
  | None => r
  | Some i => dispatch_slab i (r <| rx_pool ::= fill_slab i data source rssi |>)
  end.

Definition on_recv (mac : list Z) (rx_rssi : option Z) (data : list Z) (t : EspNowTransport) (r : RxPath)
    : EspNowTransport * RxPath :=
  let len := Z.of_nat (length data) in
  if (len <=? 0) || (len >? MAX_MTU) then (t, r)
  else
    let rssi := default (-90) rx_rssi in
    let t := t <| en_pending ::= fmap (fun q =>
                    (xQueueSend ESPNOW_PENDING_PEER_QUEUE_DEPTH (mac, rssi) q).2) |> in
    (t, store_frame data RX_ESPNOW rssi r).

(** A frame the SX1280 received without a CRC error: its bytes and the first
    byte of the packet status. *)
Definition lora_receive (data : list Z) (rssi_sync : Z) (r : RxPath) : RxPath :=
  let rssi := Z.quot (- rssi_sync) 2 in
  store_frame data RX_LORA (i8 (if rssi <? -128 then -128 else rssi)) r.

Definition receive (hi : bool) (r : RxPath) : option Z * RxPath :=
  match if hi then rx_hi r else rx_lo r with
  | [] => (None, r)
  | i :: q => (Some i, if hi then r <| rx_hi := q |> else r <| rx_lo := q |>)
  end.

(** The frame [process_slab] sees. *)
Definition frame_of (p : BufferPool) (i : Z) : RxFrame :=
  let s := slab p i in
  mk_frame (take (Z.to_nat (bs_len s)) (bs_data s)) (bs_rssi s) (bs_source s).

(** ** Histories *)

Inductive RxEvent :=
  | EvEspnow (mac : list Z) (rx_rssi : option Z) (data : list Z)
  | EvLora (data : list Z) (rssi_sync : Z)
  | EvTake (hi : bool)                        (* xQueueReceive, when the task is free *)
  | EvDone.                                   (* process_slab returned: release *)

(** The transport, the path and the slab the mesh task is processing. *)
Definition rx_event (ev : RxEvent) (s : EspNowTransport * RxPath * option Z)
    : EspNowTransport * RxPath * option Z :=
  let '(t, r, hand) := s in
  match ev with
  | EvEspnow mac rssi data => let '(t, r) := on_recv mac rssi data t r in (t, r, hand)
  | EvLora data rssi => (t, lora_receive data rssi r, hand)
  | EvTake hi =>
      match hand with
      | Some _ => s
      | None => let '(i, r) := receive hi r in (t, r, i)
      end
  | EvDone =>
      match hand with
      | Some i => (t, r <| rx_pool ::= release (Some i) |>, None)
      | None => s
      end
  end.

Definition rx_events (evs : list RxEvent) s := fold_left (fun s ev => rx_event ev s) evs s.

(** ** The specification *)

Record RxSpec := mk_spec {
  xs_hi : list RxFrame;
  xs_lo : list RxFrame;
  xs_hand : option RxFrame;
  xs_leaked : nat
}.
#[export] Instance eta_RxSpec : Eta RxSpec := fun s =>
  mk_spec (xs_hi s) (xs_lo s) (xs_hand s) (xs_leaked s).

Definition spec_used (s : RxSpec) : nat :=
  length (xs_hi s) + length (xs_lo s) + length (option_list (xs_hand s)) + xs_leaked s.

(** A frame is queued by its class; with no slab left or a full queue it is
    dropped. Only an empty frame is never dropped by a full queue: its slab is
    leaked. *)
Definition spec_arrive (f : RxFrame) (s : RxSpec) : RxSpec :=
  let room q := Z.of_nat (length q) <? kQueueDepth in
  if Z.of_nat (spec_used s) >=? POOL_SIZE then s
  else
    match fa_data f with
    | [] => if room (xs_hi s) then s <| xs_hi ::= fun q => q ++ [f] |> else s <| xs_leaked ::= S |>
    | b :: _ =>
        if rx_high_pri b
        then if room (xs_hi s) then s <| xs_hi ::= fun q => q ++ [f] |> else s
        else if room (xs_lo s) then s <| xs_lo ::= fun q => q ++ [f] |> else s
    end.

Definition spec_event (ev : RxEvent) (s : RxSpec) : RxSpec :=
  match ev with
  | EvEspnow _ rssi data =>
      let len := Z.of_nat (length data) in
      if (len <=? 0) || (len >? MAX_MTU) then s
      else spec_arrive (mk_frame data (default (-90) rssi) RX_ESPNOW) s
  | EvLora data rssi => spec_arrive (mk_frame data (Z.quot (- rssi) 2) RX_LORA) s
  | EvTake hi =>
      match xs_hand s, if hi then xs_hi s else xs_lo s with
      | None, f :: q => (if hi then s <| xs_hi := q |> else s <| xs_lo := q |>) <| xs_hand := Some f |>
      | _, _ => s
      end
  | EvDone => s <| xs_hand := None |>
  end.

Definition spec_events (evs : list RxEvent) s := fold_left (fun s ev => spec_event ev s) evs s.

(** What the radios deliver: at most a LoRa packet, a byte of status. *)
Definition rx_event_ok (ev : RxEvent) : Prop :=
  match ev with
  | EvLora data rssi => (length data <= 255)%nat ∧ is_u8 rssi
  | _ => True
  end.

(** ** Slabs and their owners *)

(** [u] are the slabs in use, each with one reference; the others are free. *)
Definition pool_use (u : list Z) (p : BufferPool) : Prop :=
  ∃ fl l, pool_state fl l p ∧
    (∀ i, 0 <= i < POOL_SIZE → Z.of_nat (length (bs_data (aget l i))) = MAX_MTU) ∧
    NoDup u ∧ (∀ i, i ∈ u → 0 <= i < POOL_SIZE) ∧
    (∀ i, 0 <= i < POOL_SIZE → bs_refcount (aget l i) = if decide (i ∈ u) then 1 else 0).

Lemma pool_use_perm u u' p : u ≡ₚ u' → pool_use u p → pool_use u' p.
Proof.
  intros Hp (fl & l & H1 & H2 & H3 & H4 & H5). exists fl, l. split_and!; try done.
  - by rewrite <- Hp.
  - intros i. rewrite <- Hp. apply H4.
  - intros i Hi. rewrite H5 by done. apply decide_ext. by rewrite Hp.
Qed.

Lemma pool_use_count u p :
  pool_use u p → bp_free_count p = POOL_SIZE - Z.of_nat (length u).
Proof.
  intros (fl & l & Hst & _ & Hnd & Hr & Hc). rewrite (ps_count _ _ _ Hst).
  assert (Hp : fl ++ u ≡ₚ seqZ 0 POOL_SIZE).
  { apply NoDup_Permutation.
    - apply NoDup_app. split; [ apply (ps_nodup _ _ _ Hst) | ]. split; [ | done ].
      intros i Hi Hu. pose proof (Hr i Hu). apply (ps_free _ _ _ Hst) in Hi; [ | done ].
      rewrite Hc, decide_True in Hi by done. done.
    - apply NoDup_seqZ.
    - intros i. rewrite elem_of_app, elem_of_seqZ. split.
      + intros [Hi | Hi]; [ pose proof (chain_range _ _ _ i (ps_chain _ _ _ Hst) Hi) | specialize (Hr i Hi) ]; lia.
      + intros Hi. destruct (decide (i ∈ u)) as [ | Hu ]; [ by right | left ].
        apply (ps_free _ _ _ Hst); [ lia | ]. rewrite Hc by lia. by rewrite decide_False. }
  apply Permutation_length in Hp. rewrite length_app, length_seqZ in Hp.
  pose proof POOL_SIZE_eq. lia.
Qed.

Lemma slab_aget p l i : bp_slabs p = Some l → slab p i = aget l i.
Proof. intros E. unfold slab. by rewrite E. Qed.

Lemma aget_aset_if {A} `{!Inhabited A} (l : list A) i j x :
  0 <= i < Z.of_nat (length l) → 0 <= j → aget (aset l i x) j = if decide (j = i) then x else aget l j.
Proof.
  intros Hi Hj. destruct (decide (j = i)) as [-> | ]; [ by apply aget_aset_eq | apply aget_aset_ne; lia ].
Qed.

Lemma acquire_use u p :
  pool_use u p →
  if Z.of_nat (length u) >=? POOL_SIZE
  then (acquire p).1 = None ∧ pool_use u (acquire p).2 ∧ ∀ j, slab (acquire p).2 j = slab p j
  else ∃ i, (acquire p).1 = Some i ∧ pool_use (i :: u) (acquire p).2 ∧
         ∀ j, 0 <= j → j ≠ i → slab (acquire p).2 j = slab p j.
Proof.
  intros Hu. pose proof (pool_use_count u p Hu) as Hcount. destruct Hu as (fl & l & Hst & Hd & Hnd & Hr & Hc).
  rewrite (ps_count _ _ _ Hst) in Hcount. pose proof (acquire_state fl l p Hst) as Ha. destruct fl as [ | t fl ].
  - rewrite Ha. cbn in Hcount. replace (_ >=? POOL_SIZE) with true by lia. split; [ done | ]. split; [ | done ].
    exists [], l. split_and!; try done.
    pose proof (counters_state _ _ _ (u32 (bp_exhaustion p + 1)) (bp_overflow p) Hst). by destruct p.
  - cbn [length] in Hcount. replace (_ >=? POOL_SIZE) with false by lia. destruct Ha as [E Hst'].
    assert (Hlen : Z.of_nat (length l) = POOL_SIZE) by apply (ps_len _ _ _ Hst).
    assert (Ht : 0 <= t < POOL_SIZE) by (apply (chain_range _ _ _ t (ps_chain _ _ _ Hst)); left).
    assert (Htu : t ∉ u).
    { intros Hin. assert (H0 : t ∈ t :: fl) by left. apply (ps_free _ _ _ Hst) in H0; [ | done ].
      rewrite Hc, decide_True in H0 by done. done. }
    exists t. split; [ done | ]. split.
    + exists fl. eexists. split_and!; [ exact Hst' | .. ].
      * intros i Hi. rewrite aget_aset_if by lia. destruct (decide (i = t)) as [-> | ]; by apply Hd.
      * by constructor.
      * intros i [-> | Hi]%elem_of_cons; [ done | by apply Hr ].
      * intros i Hi. rewrite aget_aset_if by lia. destruct (decide (i = t)) as [-> | Hne].
        { by rewrite decide_True by left. }
        rewrite Hc by done. apply decide_ext. set_solver.
    + intros j Hj Hne. rewrite (slab_aget _ _ _ (ps_slabs _ _ _ Hst')), (slab_aget _ _ _ (ps_slabs _ _ _ Hst)).
      rewrite aget_aset_if by lia. by rewrite decide_False.
Qed.

Lemma release_use i u p :
  pool_use (i :: u) p →
  pool_use u (release (Some i) p) ∧ ∀ j, 0 <= j → j ≠ i → slab (release (Some i) p) j = slab p j.
Proof.
  intros (fl & l & Hst & Hd & Hnd & Hr & Hc).
  assert (Hi : 0 <= i < POOL_SIZE) by (apply Hr; left). apply NoDup_cons in Hnd as [Hni Hnd].
  assert (Hlen : Z.of_nat (length l) = POOL_SIZE) by apply (ps_len _ _ _ Hst).
  destruct (release_state fl l p i Hst Hi) as (_ & _ & Hst').
  rewrite Hc, decide_True in Hst' by (done || left). specialize (Hst' eq_refl). split.
  - eexists _, _. split_and!; [ exact Hst' | .. ].
    + intros j Hj. rewrite aget_aset_if by lia. destruct (decide (j = i)) as [-> | ]; by apply Hd.
    + done.
    + intros j Hj. apply Hr. by right.
    + intros j Hj. rewrite aget_aset_if by lia. destruct (decide (j = i)) as [-> | Hne].
      { by rewrite decide_False. }
      rewrite Hc by done. apply decide_ext. set_solver.
  - intros j Hj Hne. rewrite (slab_aget _ _ _ (ps_slabs _ _ _ Hst')), (slab_aget _ _ _ (ps_slabs _ _ _ Hst)).
    rewrite aget_aset_if by lia. by rewrite decide_False.
Qed.

Lemma fill_use i u data source rssi p :
  pool_use (i :: u) p → Z.of_nat (length data) <= MAX_MTU →
  let p' := fill_slab i data source rssi p in
  pool_use (i :: u) p' ∧ frame_of p' i = mk_frame data rssi source ∧
  bs_len (slab p' i) = Z.of_nat (length data) ∧
  (∀ b d, data = b :: d → aget (bs_data (slab p' i)) 0 = b) ∧
  ∀ j, 0 <= j → j ≠ i → slab p' j = slab p j.
Proof.
  intros (fl & l & Hst & Hd & Hnd & Hr & Hc) Hlen p'.
  assert (Hi : 0 <= i < POOL_SIZE) by (apply Hr; left).
  assert (Hl : Z.of_nat (length l) = POOL_SIZE) by apply (ps_len _ _ _ Hst).
  pose proof (ps_slabs _ _ _ Hst) as Es. pose proof (Hd i Hi) as Hdi.
  set (s' := aget l i <| bs_len := Z.of_nat (length data) |> <| bs_data ::= fun d => memcpy d 0 data |>
                      <| bs_source := source |> <| bs_rssi := rssi |>).
  assert (Ep : p' = p <| bp_slabs := Some (aset l i s') |>) by (by apply upd_slab_set).
  assert (Hget : ∀ j, 0 <= j → slab p' j = if decide (j = i) then s' else slab p j).
  { intros j Hj. rewrite Ep, !(slab_aget _ _ _ Es). unfold slab. cbn. apply aget_aset_if; lia. }
  assert (Hi' : slab p' i = s') by (rewrite Hget by lia; by rewrite decide_True).
  split_and!.
  - exists fl, (aset l i s'). split_and!; try done.
    + destruct Hst as [_ Hlen' Hch Hndf Hfree Hcount Hrefs]. rewrite Ep.
      split; cbn [bp_slabs bp_top bp_free_count update_field]; try done.
      * by rewrite length_aset.
      * eapply chain_ext; [ | exact Hch ]. intros j Hj. pose proof (chain_range _ _ _ j Hch Hj).
        rewrite aget_aset_if by lia. by destruct (decide (j = i)) as [-> | ].
      * intros j Hj. rewrite aget_aset_if by lia. destruct (decide (j = i)) as [-> | ]; by apply Hfree.
      * intros j Hj. rewrite aget_aset_if by lia. destruct (decide (j = i)) as [-> | ]; by apply Hrefs.
    + intros j Hj. rewrite aget_aset_if by lia. destruct (decide (j = i)) as [-> | ]; [ | by apply Hd ].
      subst s'. cbn [update_field bs_data]. rewrite length_memcpy by (cbn; lia). by apply Hd.
    + intros j Hj. rewrite aget_aset_if by lia. destruct (decide (j = i)) as [-> | ]; by apply Hc.
  - unfold frame_of. rewrite Hi'. subst s'. cbn [update_field bs_data bs_len bs_rssi bs_source].
    rewrite Nat2Z.id, take_memcpy_0 by lia. done.
  - by rewrite Hi'.
  - intros b d ->. rewrite Hi'. subst s'. done.
  - intros j Hj Hne. rewrite Hget by done. by rewrite decide_False.
Qed.

(** ** The refinement *)

Definition in_use (lost : list Z) (r : RxPath) (hand : option Z) : list Z :=
  rx_hi r ++ rx_lo r ++ option_list hand ++ lost.

Record rx_rel (lost : list Z) (r : RxPath) (hand : option Z) (s : RxSpec) : Prop := {
  rr_pool : pool_use (in_use lost r hand) (rx_pool r);
  rr_hi : frame_of (rx_pool r) <$> rx_hi r = xs_hi s;
  rr_lo : frame_of (rx_pool r) <$> rx_lo r = xs_lo s;
  rr_hand : frame_of (rx_pool r) <$> hand = xs_hand s;
  rr_lost : length lost = xs_leaked s
}.

Lemma used_count lost r hand s :
  rx_rel lost r hand s → length (in_use lost r hand) = spec_used s.
Proof.
  intros [_ H1 H2 H3 H4]. unfold in_use, spec_used. rewrite <- H1, <- H2, <- H3, <- H4.
  rewrite !length_app, !length_fmap. destruct hand; cbn; lia.
Qed.

Lemma pool_use_range u p i : pool_use u p → i ∈ u → 0 <= i < POOL_SIZE.
Proof. intros (fl & l & _ & _ & _ & Hr & _). apply Hr. Qed.

Lemma pool_use_nodup u p : pool_use u p → NoDup u.
Proof. by intros (fl & l & _ & _ & H & _). Qed.

Lemma frame_same p p' i (q u : list Z) :
  pool_use (i :: u) p' → (∀ j, 0 <= j → j ≠ i → slab p' j = slab p j) → (∀ j, j ∈ q → j ∈ u) →
  frame_of p' <$> q = frame_of p <$> q.
Proof.
  intros Hu Hs Hq. pose proof (pool_use_nodup _ _ Hu) as [Hn _]%NoDup_cons.
  apply list_fmap_ext. intros k j Hj%list_elem_of_lookup_2. unfold frame_of.
  rewrite Hs; [ done | | ].
  - pose proof (pool_use_range _ _ j Hu ltac:(right; by apply Hq)). lia.
  - intros ->. by apply Hn, Hq.
Qed.

(** A slab [i] with a frame [f] that no queue, no task owns yet, or any
    more. *)
Record loose (i : Z) (f : RxFrame) (lost : list Z) (r : RxPath) (hand : option Z) (s : RxSpec) : Prop := {
  lo_pool : pool_use (i :: in_use lost r hand) (rx_pool r);
  lo_frame : frame_of (rx_pool r) i = f;
  lo_hi : frame_of (rx_pool r) <$> rx_hi r = xs_hi s;
  lo_lo : frame_of (rx_pool r) <$> rx_lo r = xs_lo s;
  lo_hand : frame_of (rx_pool r) <$> hand = xs_hand s;
  lo_lost : length lost = xs_leaked s
}.

Ltac rx_upd := cbn [update_field rx_pool rx_hi rx_lo xs_hi xs_lo xs_hand xs_leaked].

Lemma store_loose i data source rssi lost r hand s p :
  rx_rel lost r hand s → Z.of_nat (length data) <= MAX_MTU →
  pool_use (i :: in_use lost r hand) p → (∀ j, 0 <= j → j ≠ i → slab p j = slab (rx_pool r) j) →
  loose i (mk_frame data rssi source) lost (r <| rx_pool := fill_slab i data source rssi p |>) hand s.
Proof.
  intros [_ H1 H2 H3 H4] Hlen Hp Hs.
  destruct (fill_use i _ data source rssi p Hp Hlen) as (Hp' & Hfi & _ & _ & Hs').
  assert (Hsame : ∀ j, 0 <= j → j ≠ i → slab (fill_slab i data source rssi p) j = slab (rx_pool r) j).
  { intros j Hj Hne. by rewrite Hs', Hs. }
  split; rx_upd; try done.
  - rewrite (frame_same (rx_pool r) _ i _ _ Hp' Hsame); [ done | unfold in_use; set_solver ].
  - rewrite (frame_same (rx_pool r) _ i _ _ Hp' Hsame); [ done | unfold in_use; set_solver ].
  - rewrite <- H3. destruct hand as [j | ]; [ | done ].
    pose proof (frame_same (rx_pool r) _ i [j] _ Hp' Hsame) as Hj. cbn in *.
    unfold in_use in Hj. specialize (Hj ltac:(set_solver)). congruence.
Qed.

Lemma loose_drop i f lost r hand s :
  loose i f lost r hand s → rx_rel lost (r <| rx_pool ::= release (Some i) |>) hand s.
Proof.
  intros [Hp _ H1 H2 H3 H4]. destruct (release_use i _ _ Hp) as [Hrel Hsr].
  pose proof (pool_use_nodup _ _ Hp) as [Hni _]%NoDup_cons.
  assert (Hf : ∀ j, j ∈ in_use lost r hand →
    frame_of (release (Some i) (rx_pool r)) j = frame_of (rx_pool r) j).
  { intros j Hj. unfold frame_of. rewrite Hsr; [ done | | by intros -> ].
    pose proof (pool_use_range _ _ j Hrel Hj). lia. }
  unfold in_use in Hf. split; rx_upd; try done.
  - rewrite <- H1. apply list_fmap_ext. intros k j Hj%list_elem_of_lookup_2. apply Hf. set_solver.
  - rewrite <- H2. apply list_fmap_ext. intros k j Hj%list_elem_of_lookup_2. apply Hf. set_solver.
  - rewrite <- H3. destruct hand as [j | ]; [ | done ]. cbn. f_equal. apply Hf. set_solver.
Qed.

Lemma loose_hi i f lost r hand s :
  loose i f lost r hand s →
  rx_rel lost (r <| rx_hi := rx_hi r ++ [i] |>) hand (s <| xs_hi ::= fun q => q ++ [f] |>).
Proof.
  intros [Hp Hf H1 H2 H3 H4]. split; rx_upd; try done.
  - eapply pool_use_perm, Hp. unfold in_use. rx_upd. solve_Permutation.
  - by rewrite fmap_app, H1, <- Hf.
Qed.

Lemma loose_lo i f lost r hand s :
  loose i f lost r hand s →
  rx_rel lost (r <| rx_lo := rx_lo r ++ [i] |>) hand (s <| xs_lo ::= fun q => q ++ [f] |>).
Proof.
  intros [Hp Hf H1 H2 H3 H4]. split; rx_upd; try done.
  - eapply pool_use_perm, Hp. unfold in_use. rx_upd. solve_Permutation.
  - by rewrite fmap_app, H2, <- Hf.
Qed.

Lemma loose_leak i f lost r hand s :
  loose i f lost r hand s → rx_rel (i :: lost) r hand (s <| xs_leaked ::= S |>).
Proof.
  intros [Hp Hf H1 H2 H3 H4]. split; rx_upd; try done; [ | cbn; by rewrite H4 ].
  eapply pool_use_perm, Hp. unfold in_use. solve_Permutation.
Qed.

(** [dispatch_slab] reads the class of the frame in the slab. *)
Lemma dispatch_rel i f lost r hand s :
  loose i f lost r hand s →
  Z.of_nat (length (fa_data f)) = bs_len (slab (rx_pool r) i) →
  (∀ b d, fa_data f = b :: d → aget (bs_data (slab (rx_pool r) i)) 0 = b) →
  Z.of_nat (spec_used s) < POOL_SIZE →
  ∃ lost', rx_rel lost' (dispatch_slab i r) hand (spec_arrive f s).
Proof.
  intros Hl Hlen Hb Hroom. unfold dispatch_slab, spec_arrive. cbv zeta. rewrite <- Hlen.
  replace (_ >=? POOL_SIZE) with false by lia.
  assert (Lhi : length (xs_hi s) = length (rx_hi r)) by (by rewrite <- (lo_hi _ _ _ _ _ _ Hl), length_fmap).
  assert (Llo : length (xs_lo s) = length (rx_lo r)) by (by rewrite <- (lo_lo _ _ _ _ _ _ Hl), length_fmap).
  unfold queue_slab, xQueueSend. rewrite Lhi, Llo. destruct (fa_data f) as [ | b d ].
  - change (Z.of_nat (length []) >=? 1) with false. cbv iota. destruct (_ <? kQueueDepth); [ exists lost; by apply loose_hi | ].
    exists (i :: lost). eapply loose_leak in Hl. by destruct r.
  - replace (Z.of_nat (length (b :: d)) >=? 1) with true
      by (symmetry; apply Z.geb_le; cbn [length]; lia).
    rewrite (Hb b d eq_refl).
    exists lost. destruct (rx_high_pri b), (_ <? kQueueDepth);
      (by apply loose_hi) || (by apply loose_lo) || by eapply loose_drop.
Qed.

Lemma store_rel data source rssi lost r hand s :
  rx_rel lost r hand s → Z.of_nat (length data) <= MAX_MTU →
  ∃ lost', rx_rel lost' (store_frame data source rssi r) hand (spec_arrive (mk_frame data rssi source) s).
Proof.
  intros Hrel Hlen. pose proof (used_count _ _ _ _ Hrel) as Hn. pose proof (rr_pool _ _ _ _ Hrel) as Hu.
  unfold store_frame. pose proof (acquire_use _ _ Hu) as Ha.
  destruct (acquire (rx_pool r)) as [a p]. cbn [fst snd] in Ha. rewrite Hn in Ha.
  destruct (Z.of_nat (spec_used s) >=? POOL_SIZE) eqn:Efull.
  - destruct Ha as (-> & Hp & Hs). exists lost. unfold spec_arrive. rewrite Efull.
    assert (Hf : ∀ i, frame_of p i = frame_of (rx_pool r) i) by (intros i; unfold frame_of; by rewrite Hs).
    destruct Hrel as [_ H1 H2 H3 H4]. split; rx_upd; try done.
    + rewrite <- H1. by apply list_fmap_ext.
    + rewrite <- H2. by apply list_fmap_ext.
    + rewrite <- H3. destruct hand; [ cbn; by rewrite Hf | done ].
  - destruct Ha as (i & -> & Hp & Hs).
    pose proof (store_loose i data source rssi lost r hand s p Hrel Hlen Hp Hs) as Hl.
    destruct (fill_use i _ data source rssi p Hp Hlen) as (_ & _ & Hleni & Hbyte & _).
    apply (dispatch_rel i _ lost _ hand s Hl); [ by rx_upd | by rx_upd | lia ].
Qed.

Lemma rx_event_rel ev t lost r hand s :
  rx_event_ok ev → rx_rel lost r hand s →
  ∃ lost', let '(_, r', hand') := rx_event ev (t, r, hand) in rx_rel lost' r' hand' (spec_event ev s).
Proof.
  intros Hok Hrel. destruct ev as [mac rssi data | data rssi | hi | ]; cbn [rx_event spec_event].
  - unfold on_recv. destruct (_ || _) eqn:Eb; [ by exists lost | ].
    eapply store_rel; [ done | lia ].
  - destruct Hok as [Hlen Hr]. unfold lora_receive. cbv zeta.
    assert (Hq : -128 < Z.quot (- rssi) 2 <= 0) by (unfold is_u8 in Hr; lia).
    replace (_ <? -128) with false by lia. rewrite i8_small by int_lia.
    eapply store_rel; [ done | ]. unfold MAX_MTU. lia.
  - destruct Hrel as [Hp H1 H2 H3 H4]. destruct hand as [i | ].
    { exists lost. cbn in H3. rewrite <- H3. by split. }
    cbn in H3. rewrite <- H3. unfold receive. exists lost. destruct hi; rewrite <- ?H1, <- ?H2.
    + destruct (rx_hi r) as [ | i q ] eqn:Eq; cbn [fmap list_fmap].
      { split; rewrite ?Eq; done. }
      split; rx_upd; try done. unfold in_use in *. rx_upd. rewrite Eq in Hp. eapply pool_use_perm, Hp.
      cbn [option_list app]. solve_Permutation.
    + destruct (rx_lo r) as [ | i q ] eqn:Eq; cbn [fmap list_fmap].
      { split; rewrite ?Eq; done. }
      split; rx_upd; try done. unfold in_use in *. rx_upd. rewrite Eq in Hp. eapply pool_use_perm, Hp.
      cbn [option_list app]. solve_Permutation.
  - exists lost. destruct hand as [i | ].
    + apply (loose_drop i (frame_of (rx_pool r) i)). destruct Hrel as [Hp H1 H2 H3 H4]. split; rx_upd; try done.
      eapply pool_use_perm, Hp. unfold in_use. cbn [option_list]. solve_Permutation.
    + destruct Hrel as [Hp H1 H2 H3 H4]. by split.
Qed.

Lemma rx_events_rel evs t lost r hand s :
  Forall rx_event_ok evs → rx_rel lost r hand s →
  ∃ lost', let '(_, r', hand') := rx_events evs (t, r, hand) in rx_rel lost' r' hand' (spec_events evs s).
Proof.
  unfold rx_events, spec_events. revert t lost r hand s.
  induction evs as [ | ev evs IH ]; intros t lost r hand s; [ by exists lost | ].
  intros [Hok Hoks]%Forall_cons Hrel. cbn [fold_left].
  destruct (rx_event_rel ev t lost r hand s Hok Hrel) as [lost1 H1].
  destruct (rx_event ev (t, r, hand)) as [[t1 r1] hand1]. by apply (IH t1 lost1).
Qed.

Lemma boot_rel garbage p :
  (∀ i, Z.of_nat (length (garbage i)) = MAX_MTU) →
  rx_rel [] (mk_rx (BufferPool.init garbage p) [] []) None (mk_spec [] [] None 0).
Proof.
  intros Hg. destruct (init_state garbage p) as [l Hst]. split; cbn; try done.
  exists (seqZ 0 POOL_SIZE), l. split_and!; try done.
  - pose proof (ps_slabs _ _ _ Hst) as Es. cbn in Es. injection Es as <-. intros i Hi.
    unfold aget. erewrite list_lookup_total_correct; [ | by rewrite list_lookup_fmap, (lookup_seqZ_lt _ _ (Z.to_nat i)) by lia ].
    apply Hg.
  - constructor.
  - by intros i ?%elem_of_nil.
  - intros i Hi. rewrite decide_False by apply not_elem_of_nil. apply (ps_free _ _ _ Hst); [ done | ].
    apply elem_of_seqZ. lia.
Qed.

(** C8: reception is two bounded queues of frames. Through every sequence of
    frames heard on either radio, of takes and of releases, the slabs behind
    the queues hold exactly the frames of the specification, each as it was
    heard, in order within its class; a frame is dropped only when all 353
    slabs are in use or its queue of 256 is full; and every slab not behind
    one of those frames is free again, but for one leaked per empty LoRa
    packet that met a full queue. *)
Theorem reception_refines garbage p t evs :
  (∀ i, Z.of_nat (length (garbage i)) = MAX_MTU) → Forall rx_event_ok evs →
  let '(_, r, hand) := rx_events evs (t, mk_rx (BufferPool.init garbage p) [] [], None) in
  let s := spec_events evs (mk_spec [] [] None 0) in
  frame_of (rx_pool r) <$> rx_hi r = xs_hi s ∧ frame_of (rx_pool r) <$> rx_lo r = xs_lo s ∧
  frame_of (rx_pool r) <$> hand = xs_hand s ∧
  bp_free_count (rx_pool r) = POOL_SIZE - Z.of_nat (spec_used s).
Proof.
  intros Hg Hok.
  destruct (rx_events_rel evs t [] _ None _ Hok (boot_rel garbage p Hg)) as [lost Hrel].
  destruct (rx_events evs _) as [[t' r] hand]. cbv zeta. pose proof Hrel as [Hp H1 H2 H3 H4].
  split_and!; try done. by rewrite (pool_use_count _ _ Hp), (used_count _ _ _ _ Hrel).
Qed.

(** An acknowledgement, a data frame and an empty LoRa packet; the first is
    taken and released. *)
Definition demo_rx : list RxEvent :=
  [EvEspnow [2; 0; 0; 0; 0; 9] (Some (-50)) [1; 2; 3]; EvLora [66; 7] 81; EvLora [] 90; EvTake true; EvDone].

Lemma reception_refines_witness :
  let r := (rx_events demo_rx
              (espnow_new, mk_rx (BufferPool.init (fun _ => replicate 1470 0) pool_new) [] [], None)).1.2 in
  frame_of (rx_pool r) <$> rx_hi r = [mk_frame [] (-45) RX_LORA] ∧
  frame_of (rx_pool r) <$> rx_lo r = [mk_frame [1; 2; 3] (-50) RX_ESPNOW] ∧
  bp_free_count (rx_pool r) = POOL_SIZE - 2.
Proof.
  pose proof (reception_refines (fun _ => replicate 1470 0) pool_new espnow_new demo_rx) as H.
  specialize (H ltac:(intros i; vm_compute; reflexivity)).
  specialize (H ltac:(by repeat constructor; cbn; lia)).
  destruct (rx_events demo_rx _) as [[t r] hand]. cbv zeta in H. cbn [fst snd].
  destruct H as (H1 & H2 & _ & H4). split; [ exact H1 | ]. split; [ exact H2 | exact H4 ].
Defined.
