(* ===== verification/Uart.v ===== *)
(** * UART ingestion (components/uart_api/uart_ingest.{hpp,cpp})

    An external device sends files over a serial line; the node spools them
    in PSRAM or on the SD card and hands them to the mesh manager. The frame
    parser, the commands, the polling and the events are modelled over one
    store that holds the object's members, the heap blocks, the files and the
    line, because the reader given to the transfer engine reads them later,
    while the object goes on changing ([this] is captured). Whether an
    allocation, a file operation or a transfer succeeds is up to the host. *)

From Stdlib Require Import ZArith Lia String.
From stdpp Require Import base list numbers option sets gmap.
From S2P Require Import Prelude.
From S2P Require Import Packet.
From S2P Require Import CString.
From S2P Require Import MqttClient.
Open Scope Z_scope.
Open Scope flp_scope.

Definition UART_CMD_FILE_BEGIN : Z := 1.
Definition UART_CMD_FILE_DATA : Z := 2.
Definition UART_CMD_FILE_END : Z := 3.
Definition UART_CMD_STATUS : Z := 4.
Definition UART_CMD_ABORT : Z := 5.
Definition UART_RESP_ACK : Z := 128.
Definition UART_RESP_NACK : Z := 129.
Definition UART_RESP_STATUS_RESP : Z := 130.
Definition UART_EVT_TRANSFER_PROGRESS : Z := 192.
Definition UART_EVT_TRANSFER_COMPLETE : Z := 193.
Definition UART_EVT_MESH_STATE : Z := 195.
Definition UART_ERR_ALLOC_FAIL : Z := 1.
Definition UART_SYNC1 : Z := 170.
Definition UART_SYNC2 : Z := 85.
Definition FLP_INGEST_MAX_SIZE_BYTES : Z := 3 * 1024 * 1024.
Definition EVENT_QUEUE_DEPTH : Z := 16.
Definition MESH_POLL_INTERVAL_MS : Z := 10000.
Definition PROGRESS_REPORT_STEP : Z := 5.
Definition PAYLOAD_BUF_SIZE : Z := 1024 + 4.

Inductive UartResult := OK | ERR_ALLOC | ERR_OVERFLOW | ERR_NO_TRANSFER | ERR_BUSY.
#[export] Instance UartResult_dec : EqDecision UartResult.
Proof. solve_decision. Defined.

Definition result_code (r : UartResult) : Z :=
  match r with OK => 0 | ERR_ALLOC => 1 | ERR_OVERFLOW => 2 | ERR_NO_TRANSFER => 3 | ERR_BUSY => 4 end.

Inductive ParseState := SYNC1 | SYNC2 | CMD | LEN_LO | LEN_HI | PAYLOAD.

Record UartEvent := mk_event { ue_type : Z; ue_payload : list Z }.

(** The answer to [STATUS]. *)
Record StatusResp := mk_status {
  sr_has_internet : bool; sr_neighbor_count : Z; sr_hops_to_gateway : Z; sr_transfer_active : bool;
  sr_transfer_progress : Z; sr_is_exit_node : bool; sr_node_addr : Z; sr_free_heap : Z;
  sr_mqtt_connected : bool
}.

(** The parser's members. *)
Record Parser := mk_parser {
  ps_state : ParseState;
  ps_cmd : Z;
  ps_frame_len : Z;
  ps_idx : Z;
  ps_buf : list Z
}.
#[export] Instance eta_Parser : Eta Parser := fun s =>
  mk_parser (ps_state s) (ps_cmd s) (ps_frame_len s) (ps_idx s) (ps_buf s).

(** The members of the ingest and of the polling; a null pointer or a closed
    file is [None], a block is named by a number, a file by its path. *)
Record Ingest := mk_ingest {
  in_buf : option Z;
  in_file : option (list Z);
  in_size : Z;
  in_received : Z;
  in_filename : list Z;
  in_path : list Z;
  in_active : bool;
  in_to_sd : bool;
  in_started : bool;                          (* transfer_started_ *)
  in_start_ms : Z;
  in_last_pct : Z;
  in_last_poll_ms : Z;
  in_last_hops : Z;
  in_last_neighbors : Z;
  in_events : option (list UartEvent)
}.
#[export] Instance eta_Ingest : Eta Ingest := fun s =>
  mk_ingest (in_buf s) (in_file s) (in_size s) (in_received s) (in_filename s) (in_path s)
    (in_active s) (in_to_sd s) (in_started s) (in_start_ms s) (in_last_pct s) (in_last_poll_ms s)
    (in_last_hops s) (in_last_neighbors s) (in_events s).

(** The store; [M] is the mesh manager and whatever else surrounds the task. *)
Record Store {M : Type} := mk_store {
  us_ingest : Ingest;
  us_blocks : gmap Z (list Z);                (* allocated PSRAM blocks *)
  us_files : gmap (list Z) (list Z);          (* the card's files *)
  us_line : list Z;                           (* bytes written to the UART *)
  us_m : M
}.
Arguments Store : clear implicits.
Arguments mk_store {M}.
#[export] Instance eta_Store M : Eta (Store M) := fun s =>
  mk_store (us_ingest s) (us_blocks s) (us_files s) (us_line s) (us_m s).

(** The source of a transfer: [make_buffer_reader] captures the pointer and
    the size, the SD reader the object. *)
Inductive Reader :=
  | BufferReader (block size : Z)
  | SpoolReader.

Record UartHost {M : Type} := mk_uart_host {
  uh_now_us : M → Z;
  uh_alloc : M → Z → bool;                    (* a block of this size is free *)
  uh_sd_enabled : bool;                       (* CONFIG_FLP_SD_ENABLED *)
  uh_sd_init : M → bool;
  uh_fopen : M → bool;
  uh_fwrite : M → Z → Z;                      (* how many bytes were written *)
  uh_start : M → list Z → Z → Reader → bool * M;      (* start_file_transfer *)
  uh_clear_done : M → M;                      (* FLP_EVT_TRANSFER_COMPLETE *)
  uh_transfer_active : M → bool;
  uh_progress : M → Z;
  uh_hops : M → Z;
  uh_neighbors : M → Z;
  uh_status : M → StatusResp
}.
Arguments UartHost : clear implicits.
Arguments mk_uart_host {M}.

Definition parser_new : Parser := mk_parser SYNC1 0 0 0 (replicate (Z.to_nat PAYLOAD_BUF_SIZE) 0).
Definition ingest_new : Ingest :=
  mk_ingest None None 0 0 [] [] false false false 0 0 0 255 0 (Some []).

(** [/sdcard/.flp_ingest_%08lx.bin] *)
Definition spool_path (now_us : Z) : list Z :=
  str "/sdcard/.flp_ingest_" ++ hex4 false (u32 now_us / 65536) ++ hex4 false (u32 now_us mod 65536)
  ++ str ".bin".

Section uart.
Context {M : Type} (h : UartHost M).
Implicit Types (s : Store M).

Definition now_ms s : Z := u32 (uh_now_us h (us_m s) / 1000).

(** ** The storage *)

(** [heap_caps_malloc]: a block not in use. Its content is indeterminate in the
    source, zero here; the theorems only read bytes that were written. *)
Definition fresh_block s : Z := fresh (dom (us_blocks s)).
Definition malloc (size : Z) s : option Z * Store M :=
  if uh_alloc h (us_m s) size
  then let b := fresh_block s in
       (Some b, s <| us_blocks ::= fun m => <[b := replicate (Z.to_nat size) 0]> m |>)
  else (None, s).
Definition free_block (b : Z) s : Store M := s <| us_blocks ::= fun m => delete b m |>.

(** What the engine gets when it calls a reader in the current store. *)
Definition read_with (r : Reader) s (offset len : Z) : list Z :=
  match r with
  | BufferReader b size =>
      if offset >=? size then []
      else take (Z.to_nat (Z.min len (size - offset)))
             (drop (Z.to_nat offset) (default [] (us_blocks s !! b)))
  | SpoolReader =>
      match us_files s !! in_path (us_ingest s) with
      | Some content => take (Z.to_nat len) (drop (Z.to_nat offset) content)
      | None => []
      end
  end.

Notation upd_in f s := (s <| us_ingest ::= f |>).

(** ** Frames to the device *)

Definition frame_bytes (cmd : Z) (payload : list Z) : list Z :=
  [UART_SYNC1; UART_SYNC2; cmd; Z.land (Z.of_nat (length payload)) 255;
   Z.land (Z.shiftr (Z.of_nat (length payload)) 8) 255] ++ payload.

Definition send_frame (cmd : Z) (payload : list Z) s : Store M :=
  s <| us_line ::= fun l => l ++ frame_bytes cmd payload |>.
Definition send_ack (cmd : Z) s : Store M := send_frame UART_RESP_ACK [cmd] s.
Definition send_nack (cmd error : Z) s : Store M := send_frame UART_RESP_NACK [cmd; error] s.
Definition answer (cmd : Z) (rs : UartResult * Store M) : Store M :=
  match rs.1 with OK => send_ack cmd rs.2 | r => send_nack cmd (result_code r) rs.2 end.

(** ** The commands *)

Definition remove_spool s : Store M :=
  s <| us_files ::= fun m => delete (in_path (us_ingest s)) m |>.

(** An unfinished ingest is dropped. *)
Definition drop_ingest s : Store M :=
  let s := match in_buf (us_ingest s) with
           | Some b => upd_in (fun i => i <| in_buf := None |>) (free_block b s)
           | None => s
           end in
  let s := upd_in (fun i => i <| in_file := None |>) s in
  let s := if uh_sd_enabled h && in_to_sd (us_ingest s) && negb (bool_decide (in_path (us_ingest s) = []))
           then remove_spool s else s in
  upd_in (fun i => i <| in_to_sd := false |> <| in_path := [] |> <| in_active := false |>) s.

(** Opening the spool file, when PSRAM has no room. *)
Definition begin_on_sd (file_size : Z) s : UartResult * Store M :=
  if negb (uh_sd_enabled h) || negb (uh_sd_init h (us_m s)) then (ERR_ALLOC, s)
  else
    let path := spool_path (uh_now_us h (us_m s)) in
    let s := upd_in (fun i => i <| in_path := path |>) s in
    if uh_fopen h (us_m s)
    then (OK, upd_in (fun i => i <| in_file := Some path |> <| in_size := file_size |>
                                 <| in_received := 0 |> <| in_active := true |> <| in_to_sd := true |>)
                (s <| us_files ::= fun m => <[path := []]> m |>))
    else (ERR_ALLOC, upd_in (fun i => i <| in_file := None |>) s).

Definition file_begin (file_size : Z) (filename : list Z) s : UartResult * Store M :=
  if in_started (us_ingest s) then (ERR_BUSY, s)
  else
    let s := if in_active (us_ingest s) then drop_ingest s else s in
    if (file_size =? 0) || (file_size >? FLP_INGEST_MAX_SIZE_BYTES) then (ERR_ALLOC, s)
    else
      let s := upd_in (fun i => i <| in_filename := buffered 64 filename |>
                                  <| in_to_sd := false |> <| in_path := [] |>) s in
      let '(b, s) := malloc file_size s in
      let s := upd_in (fun i => i <| in_buf := b |>) s in
      match b with
      | Some _ =>
          (OK, upd_in (fun i => i <| in_size := file_size |> <| in_received := 0 |>
                                  <| in_active := true |>) s)
      | None => begin_on_sd file_size s
      end.

Definition file_data (data : list Z) s : UartResult * Store M :=
  let i := us_ingest s in
  let len := Z.of_nat (length data) in
  if negb (in_active i) then (ERR_NO_TRANSFER, s)
  else if in_started i then (ERR_BUSY, s)
  else if u32 (in_received i + len) >? in_size i then (ERR_OVERFLOW, s)
  else if in_to_sd i then
    match in_file i with
    | None => (ERR_NO_TRANSFER, s)
    | Some path =>
        let wrote := uh_fwrite h (us_m s) len in
        let s := s <| us_files ::= fun m =>
                       <[path := default [] (m !! path) ++ take (Z.to_nat wrote) data]> m |> in
        if wrote =? len then (OK, upd_in (fun i => i <| in_received := u32 (in_received i + len) |>) s)
        else (ERR_ALLOC, s)
    end
  else
    match in_buf i with
    | None => (ERR_NO_TRANSFER, s)
    | Some b =>
        (OK, upd_in (fun i => i <| in_received := u32 (in_received i + len) |>)
               (s <| us_blocks ::= fun m =>
                      <[b := memcpy (default [] (m !! b)) (Z.to_nat (in_received i)) data]> m |>))
    end.

(** The mesh manager is wired in before the task starts. *)
Definition file_end s : UartResult * Store M :=
  let i := us_ingest s in
  if negb (in_active i) then (ERR_NO_TRANSFER, s)
  else if in_started i then (ERR_BUSY, s)
  else
    let s := s <| us_m ::= uh_clear_done h |> in
    let start r s :=
      let '(started, m) := uh_start h (us_m s) (in_filename i) (in_received i) r in
      let s := s <| us_m := m |> in
      if started
      then (OK, upd_in (fun i => i <| in_started := true |> <| in_start_ms := now_ms s |>
                                   <| in_last_pct := 0 |>) s)
      else (ERR_NO_TRANSFER, s) in
    if in_to_sd i then
      match in_file i with
      | Some _ =>
          if uh_sd_enabled h then start SpoolReader (upd_in (fun i => i <| in_file := None |>) s)
          else (ERR_NO_TRANSFER, s)
      | None => (ERR_NO_TRANSFER, s)
      end
    else
      match in_buf i with
      | Some b => start (BufferReader b (in_received i)) s
      | None => (ERR_NO_TRANSFER, s)
      end.

Definition abort_transfer s : UartResult * Store M :=
  let i := us_ingest s in
  if negb (in_active i) then (ERR_NO_TRANSFER, s)
  else
    let s := match in_buf i with
             | Some b => if in_started i then s
                         else upd_in (fun i => i <| in_buf := None |>) (free_block b s)
             | None => s
             end in
    let s := upd_in (fun i => i <| in_file := None |>) s in
    let s := if uh_sd_enabled h && in_to_sd i && negb (in_started i) && negb (bool_decide (in_path i = []))
             then upd_in (fun i => i <| in_path := [] |>) (remove_spool s) else s in
    (OK, upd_in (fun i => i <| in_active := false |> <| in_started := false |>
                            <| in_received := 0 |> <| in_size := 0 |>) s).

(** The bytes of [STATUS_RESP]. *)
Definition status_bytes (r : StatusResp) : list Z :=
  [Z.b2z (sr_has_internet r); sr_neighbor_count r; sr_hops_to_gateway r; Z.b2z (sr_transfer_active r);
   sr_transfer_progress r; Z.b2z (sr_is_exit_node r);
   Z.land (sr_node_addr r) 255; Z.land (Z.shiftr (sr_node_addr r) 8) 255;
   Z.land (sr_free_heap r) 255; Z.land (Z.shiftr (sr_free_heap r) 8) 255;
   Z.land (Z.shiftr (sr_free_heap r) 16) 255; Z.land (Z.shiftr (sr_free_heap r) 24) 255;
   Z.b2z (sr_mqtt_connected r)].

(** A complete frame. *)
Definition handle_frame (cmd : Z) (payload : list Z) s : Store M :=
  if cmd =? UART_CMD_FILE_BEGIN then
    if Z.of_nat (length payload) <? 5 then send_nack UART_CMD_FILE_BEGIN UART_ERR_ALLOC_FAIL s
    else
      let fsize := Z.lor (Z.lor (Z.lor (aget payload 0) (Z.shiftl (aget payload 1) 8))
                            (Z.shiftl (aget payload 2) 16)) (Z.shiftl (aget payload 3) 24) in
      answer cmd (file_begin fsize (buffered 64 (drop 4 payload)) s)
  else if cmd =? UART_CMD_FILE_DATA then answer cmd (file_data payload s)
  else if cmd =? UART_CMD_FILE_END then answer cmd (file_end s)
  else if cmd =? UART_CMD_STATUS then
    send_frame UART_RESP_STATUS_RESP (status_bytes (uh_status h (us_m s))) s
  else if cmd =? UART_CMD_ABORT then answer cmd (abort_transfer s)
  else send_nack cmd 255 s.

(** ** The parser *)

Definition reset_parser (p : Parser) : Parser :=
  p <| ps_state := SYNC1 |> <| ps_cmd := 0 |> <| ps_frame_len := 0 |> <| ps_idx := 0 |>.

(** One byte; a completed frame, if any. *)
Definition parse_byte (byte : Z) (p : Parser) : Parser * option (Z * list Z) :=
  match ps_state p with
  | SYNC1 => (if byte =? UART_SYNC1 then p <| ps_state := SYNC2 |> else p, None)
  | SYNC2 => (p <| ps_state := if byte =? UART_SYNC2 then CMD else SYNC1 |>, None)
  | CMD => (p <| ps_cmd := byte |> <| ps_state := LEN_LO |>, None)
  | LEN_LO => (p <| ps_frame_len := byte |> <| ps_state := LEN_HI |>, None)
  | LEN_HI =>
      let len := u16 (Z.lor (ps_frame_len p) (Z.shiftl byte 8)) in
      let p := p <| ps_frame_len := len |> in
      if len =? 0 then (reset_parser p, Some (ps_cmd p, []))
      else if len >? PAYLOAD_BUF_SIZE then (reset_parser p, None)
      else (p <| ps_idx := 0 |> <| ps_state := PAYLOAD |>, None)
  | PAYLOAD =>
      let p := p <| ps_buf ::= fun b => aset b (ps_idx p) byte |> <| ps_idx := u16 (ps_idx p + 1) |> in
      if ps_idx p >=? ps_frame_len p
      then (reset_parser p, Some (ps_cmd p, take (Z.to_nat (ps_frame_len p)) (ps_buf p)))
      else (p, None)
  end.

Definition uart_byte (byte : Z) (p : Parser) s : Parser * Store M :=
  let '(p, f) := parse_byte byte p in
  (p, match f with Some (cmd, payload) => handle_frame cmd payload s | None => s end).

(** ** Polling *)

Definition le32 (z : Z) : list Z :=
  [Z.land z 255; Z.land (Z.shiftr z 8) 255; Z.land (Z.shiftr z 16) 255; Z.land (Z.shiftr z 24) 255].

(** The end of a transfer, reported as a success whatever it was. *)
Definition finish_transfer s : Store M :=
  let s := send_frame UART_EVT_TRANSFER_COMPLETE
             (1 :: le32 (u32 (now_ms s - in_start_ms (us_ingest s)))) s in
  let s := match in_buf (us_ingest s) with
           | Some b => upd_in (fun i => i <| in_buf := None |>) (free_block b s)
           | None => s
           end in
  let s := upd_in (fun i => i <| in_file := None |>) s in
  let s := if uh_sd_enabled h && in_to_sd (us_ingest s) && negb (bool_decide (in_path (us_ingest s) = []))
           then upd_in (fun i => i <| in_path := [] |>) (remove_spool s) else s in
  upd_in (fun i => i <| in_active := false |> <| in_started := false |> <| in_received := 0 |>
                     <| in_size := 0 |> <| in_to_sd := false |>) s.

Definition poll_transfer_progress s : Store M :=
  if negb (in_started (us_ingest s)) then s
  else if uh_transfer_active h (us_m s) then
    let pct := uh_progress h (us_m s) in
    if pct >=? in_last_pct (us_ingest s) + PROGRESS_REPORT_STEP
    then send_frame UART_EVT_TRANSFER_PROGRESS [pct] (upd_in (fun i => i <| in_last_pct := pct |>) s)
    else s
  else finish_transfer s.

Definition poll_mesh_state s : Store M :=
  let now := now_ms s in
  if u32 (now - in_last_poll_ms (us_ingest s)) <? MESH_POLL_INTERVAL_MS then s
  else
    let s := upd_in (fun i => i <| in_last_poll_ms := now |>) s in
    let hops := uh_hops h (us_m s) in
    let nbrs := uh_neighbors h (us_m s) in
    if negb (hops =? in_last_hops (us_ingest s)) || negb (nbrs =? in_last_neighbors (us_ingest s))
    then upd_in (fun i => i <| in_last_hops := hops |> <| in_last_neighbors := nbrs |>)
           (send_frame UART_EVT_MESH_STATE [if hops <? 255 then 1 else 0; hops; nbrs] s)
    else s.

Definition push_event (evt : UartEvent) s : Store M :=
  upd_in (fun i => i <| in_events ::= fmap (fun q => (xQueueSend EVENT_QUEUE_DEPTH evt q).2) |>) s.

(** At most [n] queued events are sent. *)
Fixpoint drain_events (n : nat) s : Store M :=
  match n, in_events (us_ingest s) with
  | S n', Some (evt :: q) =>
      drain_events n' (send_frame (ue_type evt) (ue_payload evt)
                         (upd_in (fun i => i <| in_events := Some q |>) s))
  | _, _ => s
  end.
Definition drain_event_queue s : Store M := drain_events 4 s.

(** One turn of [run]: a byte or the timeout, then the polls. *)
Definition uart_turn (byte : option Z) (p : Parser) s : Parser * Store M :=
  let '(p, s) := match byte with Some b => uart_byte b p s | None => (p, s) end in
  (p, drain_event_queue (poll_mesh_state (poll_transfer_progress s))).
End uart.
