(* ===== verification/UartFrames.v ===== *)
(** * The UART frame parser reads back what [send_frame] writes

    And a stray first synchronisation byte makes it lose a frame. *)

From Stdlib Require Import ZArith Lia.
From stdpp Require Import base list numbers option sets.
From S2P Require Import Prelude.
From S2P Require Import Uart.
Open Scope Z_scope.
Open Scope flp_scope.

(** The parser over a stretch of the line: the frames it completes. *)
Fixpoint parse_bytes (bs : list Z) (p : Parser) : Parser * list (Z * list Z) :=
  match bs with
  | [] => (p, [])
  | b :: bs' =>
      let '(p, f) := parse_byte b p in
      let '(p, fs) := parse_bytes bs' p in
      (p, option_list f ++ fs)
  end.

Definition idle (p : Parser) : Prop :=
  ps_state p = SYNC1 ∧ Z.of_nat (length (ps_buf p)) = PAYLOAD_BUF_SIZE.

Definition frame_ok (f : Z * list Z) : Prop := Z.of_nat (length f.2) <= PAYLOAD_BUF_SIZE.

Ltac ps_upd := cbn [update_field ps_state ps_cmd ps_frame_len ps_idx ps_buf fst snd].

Lemma parse_bytes_app bs bs' p :
  parse_bytes (bs ++ bs') p =
  (let '(p1, fs) := parse_bytes bs p in
   let '(p2, fs') := parse_bytes bs' p1 in (p2, fs ++ fs')).
Proof.
  revert p. induction bs as [ | b bs IH ]; intros p; cbn [app parse_bytes].
  - by destruct (parse_bytes bs' p).
  - destruct (parse_byte b p) as [p1 f]. rewrite IH. destruct (parse_bytes bs p1) as [p2 fs].
    destruct (parse_bytes bs' p2) as [p3 fs']. by rewrite app_assoc.
Qed.

Lemma parse_quiet b bs p p' : parse_byte b p = (p', None) → parse_bytes (b :: bs) p = parse_bytes bs p'.
Proof. intros E. cbn [parse_bytes]. rewrite E. by destruct (parse_bytes bs p'). Qed.

Lemma parse_noise bs p : ps_state p = SYNC1 → UART_SYNC1 ∉ bs → parse_bytes bs p = (p, []).
Proof.
  intros Hp. induction bs as [ | b bs IH ]; intros Hb; [ done | ]. cbn [parse_bytes].
  unfold parse_byte. rewrite Hp. apply not_elem_of_cons in Hb as [Hne Hb].
  rewrite (proj2 (Z.eqb_neq b UART_SYNC1)) by done. by rewrite IH.
Qed.

Lemma take_S_aset (l : list Z) (k : nat) x :
  (k < length l)%nat → take (S k) (aset l (Z.of_nat k) x) = take k l ++ [x].
Proof.
  intros Hk. unfold aset. rewrite Nat2Z.id.
  rewrite (take_S_r _ _ x) by (by apply list_lookup_insert_eq). by rewrite take_insert_ge by lia.
Qed.

(** The rest of a payload, [k] bytes of which are in the buffer. *)
Lemma parse_payload rest (k : nat) p :
  ps_state p = PAYLOAD → rest ≠ [] → ps_idx p = Z.of_nat k →
  ps_frame_len p = Z.of_nat (k + length rest) →
  Z.of_nat (k + length rest) <= PAYLOAD_BUF_SIZE → Z.of_nat (length (ps_buf p)) = PAYLOAD_BUF_SIZE →
  ∃ p', parse_bytes rest p = (p', [(ps_cmd p, take k (ps_buf p) ++ rest)]) ∧ idle p'.
Proof.
  unfold PAYLOAD_BUF_SIZE. revert k p. induction rest as [ | b rest IH ]; [ done | ].
  intros k p Hp _ Hi Hl Hle Hb. cbn [length] in *. cbn [parse_bytes]. unfold parse_byte. rewrite Hp. ps_upd.
  rewrite Hi, Hl, (u16_small (Z.of_nat k + 1)) by int_lia.
  destruct rest as [ | b' rest ].
  - rewrite (proj2 (Z.geb_le _ _)) by (cbn [length]; lia). eexists. split.
    + cbn [parse_bytes]. rewrite Nat2Z.id. cbn [length].
      replace (k + 1)%nat with (S k) by lia. by rewrite take_S_aset by lia.
    + split; [ done | ]. unfold reset_parser; ps_upd. by rewrite length_aset.
  - replace (Z.of_nat k + 1 >=? Z.of_nat (k + S (length (b' :: rest)))) with false
      by (symmetry; rewrite Z.geb_leb; apply Z.leb_gt; cbn [length]; lia).
    match goal with |- context [parse_bytes (b' :: rest) ?q] =>
      destruct (IH (S k) q) as (p' & E & Hp') end; try done; ps_upd; try lia.
    + by rewrite length_aset.
    + exists p'. split; [ | done ]. rewrite E. ps_upd. cbn [option_list app].
      rewrite take_S_aset by lia. by rewrite <- app_assoc.
Qed.

Lemma len_bytes n :
  0 <= n < 65536 → u16 (Z.lor (Z.land n 255) (Z.shiftl (Z.land (Z.shiftr n 8) 255) 8)) = n.
Proof.
  intros Hn. change 255 with (Z.ones 8). rewrite !Z.land_ones, Z.lor_comm, Z.shiftr_div_pow2 by lia.
  rewrite lor_shift_add by lia. int_lia.
Qed.

Lemma parse_frame cmd payload p :
  idle p → frame_ok (cmd, payload) →
  ∃ p', parse_bytes (frame_bytes cmd payload) p = (p', [(cmd, payload)]) ∧ idle p'.
Proof.
  intros [Hs Hb] Hok. unfold frame_ok in Hok. cbn [snd] in Hok. unfold frame_bytes.
  set (n := Z.of_nat (length payload)) in *. set (lo := Z.land n 255). set (hi := Z.land (Z.shiftr n 8) 255).
  assert (Hn : u16 (Z.lor lo (Z.shiftl hi 8)) = n) by (apply len_bytes; unfold PAYLOAD_BUF_SIZE in *; lia).
  cbn [app]. erewrite parse_quiet by (unfold parse_byte; rewrite Hs; reflexivity).
  do 3 (erewrite parse_quiet by reflexivity).
  destruct payload as [ | b payload ].
  { cbn [parse_bytes]. unfold parse_byte at 1. ps_upd. rewrite Hn. by eexists. }
  erewrite parse_quiet.
  2: { unfold parse_byte. ps_upd. rewrite Hn.
       replace (n =? 0) with false by (symmetry; apply Z.eqb_neq; subst n; cbn [length]; lia).
       replace (n >? PAYLOAD_BUF_SIZE) with false by lia. reflexivity. }
  match goal with |- context [parse_bytes (b :: payload) ?q] =>
    destruct (parse_payload (b :: payload) 0 q) as (p' & E & Hp') end; try done; ps_upd; try done.
  exists p'. by rewrite E.
Qed.

(** What stands on the line between two frames: anything without a first
    synchronisation byte. *)
Definition on_line (fs : list (list Z * (Z * list Z))) : list Z :=
  concat (map (fun '(noise, (cmd, payload)) => noise ++ frame_bytes cmd payload) fs).

Lemma parse_frames fs p :
  idle p → Forall (fun x => UART_SYNC1 ∉ x.1 ∧ frame_ok x.2) fs →
  ∃ p', parse_bytes (on_line fs) p = (p', map snd fs) ∧ idle p'.
Proof.
  revert p. induction fs as [ | [noise [cmd payload]] fs IH ]; intros p Hp; [ by exists p | ].
  intros [[Hn Hok] Hfs]%Forall_cons. cbn [fst snd] in Hn, Hok.
  destruct (parse_frame cmd payload p Hp Hok) as (p1 & E1 & Hp1).
  destruct (IH p1 Hp1 Hfs) as (p2 & E2 & Hp2). exists p2. split; [ | done ].
  unfold on_line in *. cbn [map concat]. rewrite !parse_bytes_app, parse_noise by (done || apply Hp).
  rewrite E1, E2. done.
Qed.

(** C30: the framing of the serial line round-trips. From an idle parser, as
    at the start and after every frame, frames written as
    [send_frame] writes them, of any command byte and up to 1028 payload
    bytes, are read back by the node's parser byte for byte, one after the
    other, through any bytes between them that contain no first
    synchronisation byte; and the parser is then ready for the next frame.
    But a stray first synchronisation byte before a frame loses the frame, if
    no further such byte is in it. *)
Theorem uart_frames_roundtrip fs p cmd payload :
  idle p → Forall (fun x => UART_SYNC1 ∉ x.1 ∧ frame_ok x.2) fs →
  (∃ p', parse_bytes (on_line fs) p = (p', map snd fs) ∧ idle p') ∧
  (UART_SYNC1 ∉ drop 1 (frame_bytes cmd payload) →
   parse_bytes (UART_SYNC1 :: frame_bytes cmd payload) p = (p, [])).
Proof.
  intros Hp Hfs. split; [ by apply parse_frames | ]. intros Hn. destruct (id Hp) as [Hs _].
  change (frame_bytes cmd payload) with (UART_SYNC1 :: drop 1 (frame_bytes cmd payload)).
  erewrite parse_quiet by (unfold parse_byte; rewrite Hs; reflexivity).
  erewrite parse_quiet by reflexivity. rewrite parse_noise by done.
  f_equal. destruct p. cbn in Hs. by rewrite Hs.
Qed.

Lemma uart_frames_roundtrip_witness :
  let fs := [([1; 2], (UART_CMD_STATUS, [])); ([85], (UART_CMD_FILE_DATA, [170; 85; 9]))] in
  (∃ p', parse_bytes (on_line fs) parser_new = (p', map snd fs) ∧ idle p') ∧
  parse_bytes (UART_SYNC1 :: frame_bytes UART_CMD_STATUS []) parser_new = (parser_new, []).
Proof.
  cbv zeta.
  assert (Hi : idle parser_new) by (split; vm_compute; reflexivity).
  assert (Hf : Forall (fun x => UART_SYNC1 ∉ x.1 ∧ frame_ok x.2)
            [([1; 2], (UART_CMD_STATUS, [])); ([85], (UART_CMD_FILE_DATA, [170; 85; 9]))]).
  { apply Forall_cons; split; [ | apply Forall_cons; split; [ | apply Forall_nil; exact I ] ];
      (split; [ apply (bool_decide_unpack _); vm_compute; exact I | vm_compute; discriminate ]). }
  destruct (uart_frames_roundtrip _ parser_new UART_CMD_STATUS [] Hi Hf) as [H1 H2].
  split; [ exact H1 | apply H2 ]. apply (bool_decide_unpack _). vm_compute. exact I.
Defined.
