(* ===== verification/UartIngest.v ===== *)
(** * A file over the serial line

    From [FILE_BEGIN] to the end of the transfer, in PSRAM or on the card;
    and what [ABORT] does to a transfer that already runs. *)

From Stdlib Require Import ZArith Lia String.
From stdpp Require Import base list numbers option sets gmap relations.
From S2P Require Import Prelude.
From S2P Require Import CString.
From S2P Require Import Uart.
Open Scope Z_scope.
Open Scope flp_scope.

Ltac us_upd := cbn [update_field us_ingest us_blocks us_files us_line us_m in_buf in_file in_size
  in_received in_filename in_path in_active in_to_sd in_started in_start_ms in_last_pct
  in_last_poll_ms in_last_hops in_last_neighbors in_events fst snd].

Section ingest.
Context {M : Type} (h : UartHost M).
Implicit Types (s : Store M) (data : list Z).

(** The frames, one after the other. *)
Definition handle_frames (fs : list (Z * list Z)) s : Store M :=
  fold_left (fun s '(cmd, payload) => handle_frame h cmd payload s) fs s.

Lemma handle_frames_cons cmd payload fs s :
  handle_frames ((cmd, payload) :: fs) s = handle_frames fs (handle_frame h cmd payload s).
Proof. done. Qed.
Lemma handle_frames_app fs fs' s : handle_frames (fs ++ fs') s = handle_frames fs' (handle_frames fs s).
Proof. apply fold_left_app. Qed.

Definition begin_payload (size : Z) (name : list Z) : list Z := le32 size ++ name.

(** The frames of a file. *)
Definition file_frames (size : Z) (name : list Z) (chunks : list (list Z)) : list (Z * list Z) :=
  (UART_CMD_FILE_BEGIN, begin_payload size name) ::
  map (fun c => (UART_CMD_FILE_DATA, c)) chunks ++ [(UART_CMD_FILE_END, [])].

(** Where the bytes received so far are. *)
Definition spooled data s : Prop :=
  let i := us_ingest s in
  if in_to_sd i
  then uh_sd_enabled h = true ∧ us_files s !! in_path i = Some data
  else ∃ b c, in_buf i = Some b ∧ us_blocks s !! b = Some c ∧ (length data <= length c)%nat ∧
         take (length data) c = data.

Record receiving (name : list Z) (size : Z) data s : Prop := {
  rv_active : in_active (us_ingest s) = true;
  rv_started : in_started (us_ingest s) = false;
  rv_name : in_filename (us_ingest s) = name;
  rv_size : in_size (us_ingest s) = size;
  rv_received : in_received (us_ingest s) = Z.of_nat (length data);
  rv_file : in_to_sd (us_ingest s) = true → in_file (us_ingest s) = Some (in_path (us_ingest s));
  rv_room : in_to_sd (us_ingest s) = false → ∀ b c, in_buf (us_ingest s) = Some b →
    us_blocks s !! b = Some c → Z.of_nat (length c) = size;
  rv_spooled : spooled data s
}.

(** A transfer that reads [data] through [r]. *)
Definition sending (r : Reader) data s : Prop :=
  in_started (us_ingest s) = true ∧
  match r with
  | BufferReader b size => size = Z.of_nat (length data) ∧ in_to_sd (us_ingest s) = false ∧ in_buf (us_ingest s) = Some b
  | SpoolReader => in_to_sd (us_ingest s) = true
  end ∧ spooled data s.

Lemma sending_reads r data s offset len :
  sending r data s → 0 <= offset → 0 <= len →
  read_with r s offset len = take (Z.to_nat len) (drop (Z.to_nat offset) data).
Proof.
  intros (_ & Hr & Hsp) Ho Hl. unfold spooled in Hsp. destruct r as [b size | ]; cbn [read_with].
  - destruct Hr as (-> & Esd & Eb). rewrite Esd in Hsp.
    destruct Hsp as (b' & c & Eb' & Ec & Hle & Ht). assert (b' = b) as -> by congruence.
    rewrite Ec. cbn [default from_option id]. destruct (Z.geb_spec offset (Z.of_nat (length data))).
    + by rewrite drop_ge, take_nil by lia.
    + set (n := length data) in *. rewrite <- Ht, !take_drop_commute, take_take. do 2 f_equal. lia.
  - rewrite Hr in Hsp. destruct Hsp as [_ E]. by rewrite E.
Qed.

(** *** The commands *)

Lemma line_spooled data s cmd payload : spooled data s → spooled data (send_frame cmd payload s).
Proof. done. Qed.

Lemma begin_receiving size name s :
  0 <= size → in_started (us_ingest s) = false → (file_begin h size name s).1 = OK →
  receiving (buffered 64 name) size [] (file_begin h size name s).2.
Proof.
  intros Hsize Hst. unfold file_begin. rewrite Hst. set (s1 := if in_active _ then _ else _).
  assert (E1 : in_started (us_ingest s1) = false).
  { subst s1. destruct (in_active _); [ | done ]. unfold drop_ingest. cbv zeta.
    destruct (in_buf (us_ingest s)); us_upd; destruct (_ && _ && _); done. }
  clearbody s1. destruct (_ || _) eqn:Esz; [ done | ]. unfold malloc. us_upd.
  destruct (uh_alloc h (us_m s1) size).
  - intros _. split; us_upd; try done.
    + intros _ b c [= <-]. rewrite lookup_insert_eq. intros [= <-]. rewrite length_replicate. lia.
    + unfold spooled. us_upd. eexists _, _. split; [ done | ].
      rewrite lookup_insert_eq. split; [ done | ]. split; [ cbn; lia | done ].
  - unfold begin_on_sd. us_upd. destruct (uh_sd_enabled h) eqn:Esd; [ | done ].
    destruct (uh_sd_init h _); [ | done ]. cbn [negb orb]. destruct (uh_fopen h _); [ | done ].
    intros _. split; us_upd; try done. unfold spooled. us_upd. split; [ done | ]. apply lookup_insert_eq.
Qed.

(** The card takes what it is given. *)
Definition writes_all : Prop := ∀ m len, uh_fwrite h m len = len.

Lemma data_receiving name size data chunk s :
  writes_all → receiving name size data s →
  Z.of_nat (length data + length chunk) <= size → size <= FLP_INGEST_MAX_SIZE_BYTES →
  (file_data h chunk s).1 = OK ∧ receiving name size (data ++ chunk) (file_data h chunk s).2.
Proof.
  intros Hw [H1 H2 H3 H4 H5 H6 H7 H8] Hle Hmax. unfold file_data. rewrite H1, H2, H4, H5. cbn [negb].
  unfold FLP_INGEST_MAX_SIZE_BYTES in Hmax. rewrite u32_small by int_lia.
  replace (_ >? size) with false by lia. unfold spooled in H8. destruct (in_to_sd (us_ingest s)) eqn:Esd.
  - destruct H8 as [Hen Ef]. rewrite (H6 eq_refl), Hw. cbv zeta. rewrite Z.eqb_refl, Nat2Z.id, firstn_all.
    split; [ done | ]. split; us_upd; try done.
    + rewrite length_app, H5, u32_small by int_lia. lia.
    + intros _. by rewrite (H6 eq_refl).
    + intros E. congruence.
    + unfold spooled. us_upd. rewrite Esd. split; [ done | ]. by rewrite lookup_insert_eq, Ef.
  - destruct H8 as (b & c & Eb & Ec & Hc & Ht). rewrite Eb. split; [ done | ].
    pose proof (H7 eq_refl b c Eb Ec) as Hlen.
    split; us_upd; try done.
    + rewrite length_app, H5, u32_small by int_lia. lia.
    + intros E. congruence.
    + intros _ b' c' Eb'. assert (b' = b) as -> by congruence. rewrite lookup_insert_eq, Ec. intros [= <-].
      cbn. by rewrite Nat2Z.id, length_memcpy by lia.
    + unfold spooled. us_upd. rewrite Esd. eexists b, _. split; [ done | ]. rewrite lookup_insert_eq, Ec.
      cbn [default from_option id]. split; [ done | ]. rewrite Nat2Z.id, length_memcpy, length_app by lia.
      split; [ lia | ]. unfold memcpy. rewrite Ht, app_assoc. apply take_app_length'. by rewrite length_app.
Qed.

Definition reader_of s : Reader :=
  if in_to_sd (us_ingest s) then SpoolReader
  else BufferReader (default 0 (in_buf (us_ingest s))) (in_received (us_ingest s)).

Lemma end_sending name size data s m :
  receiving name size data s →
  uh_start h (uh_clear_done h (us_m s)) name (Z.of_nat (length data)) (reader_of s) = (true, m) →
  (file_end h s).1 = OK ∧ sending (reader_of s) data (file_end h s).2 ∧ us_m (file_end h s).2 = m.
Proof.
  intros [H1 H2 H3 H4 H5 H6 H7 H8] Es. unfold file_end. rewrite H1, H2, H3, H5. cbn [negb]. cbv zeta.
  unfold reader_of in *. rewrite H5 in *. unfold spooled in H8. destruct (in_to_sd (us_ingest s)) eqn:Esd.
  - destruct H8 as [Hen Ef]. rewrite (H6 eq_refl), Hen. us_upd. rewrite Es. split; [ done | ].
    split; [ | done ]. split; [ done | ]. split; [ done | ]. unfold spooled. us_upd. by rewrite Esd.
  - destruct H8 as (b & c & Eb & Ec & Hc & Ht). rewrite Eb in *. us_upd. cbn [default from_option id] in Es.
    rewrite Es. split; [ done | ]. split; [ | done ]. split; [ done | ]. split; [ done | ].
    unfold spooled. us_upd. rewrite Esd. by exists b, c.
Qed.

(** *** While the transfer runs *)

(** Whatever arrives but an abort, the polls of a running transfer, the other
    tasks. *)
Inductive during : Store M → Store M → Prop :=
  | du_frame cmd payload s : cmd ≠ UART_CMD_ABORT → during s (handle_frame h cmd payload s)
  | du_progress s : uh_transfer_active h (us_m s) = true → during s (poll_transfer_progress h s)
  | du_mesh s : during s (poll_mesh_state h s)
  | du_events n s : during s (drain_events n s)
  | du_push evt s : during s (push_event evt s)
  | du_world m s : during s (s <| us_m := m |>).

(** What [sending] depends on. *)
Definition core s := (in_started (us_ingest s), in_to_sd (us_ingest s), in_buf (us_ingest s),
  in_path (us_ingest s), us_blocks s, us_files s).

Lemma sending_core r data s s' : core s' = core s → sending r data s → sending r data s'.
Proof.
  unfold core, sending, spooled. intros [= E1 E2 E3 E4 E5 E6]. by rewrite E1, E2, E3, E4, E5, E6.
Qed.

Lemma busy_answer cmd s r : core (answer cmd (r, s)) = core s.
Proof. by destruct r. Qed.

Lemma drain_core n s : core (drain_events n s) = core s.
Proof.
  revert s. induction n as [ | n IH ]; intros s; [ done | ]. cbn [drain_events].
  destruct (in_events (us_ingest s)) as [[ | evt q ] | ]; [ done | | done ]. by rewrite IH.
Qed.

Lemma during_sending r data s s' : during s s' → sending r data s → sending r data s'.
Proof.
  intros Hd Hs. pose proof (proj1 Hs) as Hst. eapply sending_core, Hs.
  destruct Hd as [cmd payload s Hc | s Ha | s | n s | evt s | m s].
  - unfold handle_frame, file_begin, file_data, file_end. rewrite Hst.
    replace (cmd =? UART_CMD_ABORT) with false by (symmetry; by apply Z.eqb_neq).
    destruct (cmd =? UART_CMD_FILE_BEGIN); [ destruct (_ <? 5); [ done | apply busy_answer ] | ].
    destruct (cmd =? UART_CMD_FILE_DATA); [ destruct (negb _); apply busy_answer | ].
    destruct (cmd =? UART_CMD_FILE_END); [ destruct (negb _); apply busy_answer | ].
    by destruct (cmd =? UART_CMD_STATUS).
  - unfold poll_transfer_progress. rewrite Hst, Ha. cbn [negb]. by destruct (_ >=? _).
  - unfold poll_mesh_state. cbv zeta. destruct (_ <? _); [ done | ]. by destruct (_ || _).
  - apply drain_core.
  - done.
  - done.
Qed.
End ingest.

(** *** The whole file *)

Lemma le32_read z :
  0 <= z < 2 ^ 32 →
  Z.lor (Z.lor (Z.lor (Z.land z 255) (Z.shiftl (Z.land (Z.shiftr z 8) 255) 8))
           (Z.shiftl (Z.land (Z.shiftr z 16) 255) 16)) (Z.shiftl (Z.land (Z.shiftr z 24) 255) 24) = z.
Proof.
  intros Hz. change 255 with (Z.ones 8). rewrite !Z.land_ones, !Z.shiftr_div_pow2 by lia.
  rewrite (Z.lor_comm (z mod _)), lor_shift_add by lia.
  rewrite (Z.lor_comm (_ + _)), lor_shift_add by lia.
  rewrite (Z.lor_comm (_ + _)), lor_shift_add by lia. lia.
Qed.

(** The answers on the line. *)
Definition acks (cmds : list Z) : list Z := concat (map (fun c => frame_bytes UART_RESP_ACK [c]) cmds).

Section file.
Context {M : Type} (h : UartHost M).
Implicit Types (s : Store M).

Lemma answer_ok cmd s : answer cmd (OK, s) = send_ack cmd s.
Proof. done. Qed.

Lemma handle_begin size name s :
  0 <= size < 2 ^ 32 → name ≠ [] → buffered 64 name = name → (file_begin h size name s).1 = OK →
  handle_frame h UART_CMD_FILE_BEGIN (begin_payload size name) s =
  send_ack UART_CMD_FILE_BEGIN (file_begin h size name s).2.
Proof.
  intros Hs Hne Hn Hok. unfold handle_frame. cbn [Z.eqb UART_CMD_FILE_BEGIN Pos.eqb].
  change (1 =? 1) with true. cbv iota. unfold begin_payload at 1. rewrite length_app.
  replace (_ <? 5) with false by (symmetry; apply Z.ltb_ge; destruct name; [ done | cbn; lia ]).
  unfold begin_payload. change (drop 4 (le32 size ++ name)) with name. rewrite Hn.
  change (aget (le32 size ++ name) 0) with (Z.land size 255).
  change (aget (le32 size ++ name) 1) with (Z.land (Z.shiftr size 8) 255).
  change (aget (le32 size ++ name) 2) with (Z.land (Z.shiftr size 16) 255).
  change (aget (le32 size ++ name) 3) with (Z.land (Z.shiftr size 24) 255).
  rewrite le32_read by done. destruct (file_begin h size name s) as [r s']. cbn in Hok. by subst r.
Qed.

Lemma receiving_ack name size data cmd s :
  receiving h name size data s → receiving h name size data (send_ack cmd s).
Proof. intros []. by split. Qed.

Definition data_view s := (us_line s, us_m s, in_to_sd (us_ingest s), in_buf (us_ingest s)).

Lemma data_frame c s : data_view (file_data h c s).2 = data_view s.
Proof.
  unfold file_data. destruct (negb _); [ done | ]. destruct (in_started _); [ done | ].
  destruct (_ >? _); [ done | ]. destruct (in_to_sd _).
  - destruct (in_file _); [ | done ]. cbv zeta. by destruct (_ =? _).
  - by destruct (in_buf _).
Qed.

Lemma begin_frame size name s :
  (us_line (file_begin h size name s).2, us_m (file_begin h size name s).2) = (us_line s, us_m s).
Proof.
  unfold file_begin. destruct (in_started _); [ done | ]. set (s1 := if in_active _ then _ else _).
  assert (E1 : (us_line s1, us_m s1) = (us_line s, us_m s)).
  { subst s1. destruct (in_active _); [ | done ]. unfold drop_ingest. cbv zeta.
    destruct (in_buf (us_ingest s)); us_upd; by destruct (_ && _ && _). }
  clearbody s1. injection E1 as F1 F2. rewrite <- F1, <- F2. destruct (_ || _); [ done | ]. unfold malloc. us_upd.
  destruct (uh_alloc h (us_m s1) size); [ done | ].
  unfold begin_on_sd. us_upd. destruct (_ || _); [ done | ]. cbv zeta. by destruct (uh_fopen h _).
Qed.

Lemma handle_chunks chunks name size data s :
  writes_all h → receiving h name size data s →
  Z.of_nat (length (data ++ concat chunks)) <= size → size <= FLP_INGEST_MAX_SIZE_BYTES →
  let s' := handle_frames h (map (fun c => (UART_CMD_FILE_DATA, c)) chunks) s in
  receiving h name size (data ++ concat chunks) s' ∧
  us_line s' = us_line s ++ acks (replicate (length chunks) UART_CMD_FILE_DATA) ∧ us_m s' = us_m s ∧
  in_to_sd (us_ingest s') = in_to_sd (us_ingest s) ∧ in_buf (us_ingest s') = in_buf (us_ingest s).
Proof.
  intros Hw. revert data s. induction chunks as [ | c chunks IH ]; intros data s Hr Hle Hmax.
  { cbn. by rewrite !app_nil_r. }
  cbn [concat] in *. rewrite app_assoc in Hle |- *.
  destruct (data_receiving h name size data c s Hw Hr) as [Hok Hr']; [ | done | ].
  { rewrite !length_app in *. lia. }
  cbn [map]. rewrite handle_frames_cons.
  assert (E : handle_frame h UART_CMD_FILE_DATA c s = send_ack UART_CMD_FILE_DATA (file_data h c s).2).
  { unfold handle_frame. cbn. destruct (file_data h c s) as [r s']. cbn in Hok. by subst r. }
  rewrite E. pose proof (data_frame c s) as Hf.
  destruct (IH (data ++ c) (send_ack UART_CMD_FILE_DATA (file_data h c s).2)) as (H1 & H2 & H3 & H4 & H5);
    [ by apply receiving_ack | done | done | ].
  unfold data_view in Hf. injection Hf as F1 F2 F3 F4. split; [ done | ]. rewrite H2, H3, H4, H5. us_upd.
  cbn [send_ack send_frame update_field us_line us_m us_ingest]. rewrite F1, F2, F3, F4.
  split; [ | done ]. unfold acks. cbn [length replicate map concat]. by rewrite <- app_assoc.
Qed.

Lemma end_frame s : us_line (file_end h s).2 = us_line s.
Proof.
  unfold file_end. destruct (negb _); [ done | ]. destruct (in_started _); [ done | ]. cbv zeta.
  destruct (in_to_sd _).
  - destruct (in_file _); [ | done ]. destruct (uh_sd_enabled h); [ | done ]. us_upd.
    by destruct (uh_start h _ _ _ _) as [[ ] m].
  - destruct (in_buf _); [ | done ]. us_upd. by destruct (uh_start h _ _ _ _) as [[ ] m].
Qed.

Lemma during_star r data s s' : rtc (during h) s s' → sending h r data s → sending h r data s'.
Proof. induction 1 as [ | ????? IH ]; [ done | ]. intros Hs. by eapply IH, during_sending. Qed.
End file.

(** C22: a file sent over the serial line is the file the mesh transfers. When
    the node has room for it, in PSRAM or on the card, every frame of the
    file is acknowledged, the transfer starts with the file's name and size,
    and whenever the transfer engine asks its reader for a piece, however
    long after, it gets that piece of the concatenated chunks: no frame but
    an abort, no poll of the running transfer, no event disturbs it. *)
Theorem ingest_delivers_file {M} (h : UartHost M) name chunks s :
  let file := concat chunks in
  let size := Z.of_nat (length file) in
  name ≠ [] → buffered 64 name = name → writes_all h → size <= FLP_INGEST_MAX_SIZE_BYTES →
  in_started (us_ingest s) = false → (file_begin h size name s).1 = OK →
  (∀ m r, (uh_start h m name size r).1 = true) →
  let s' := handle_frames h (file_frames size name chunks) s in
  us_line s' = us_line s ++ acks (UART_CMD_FILE_BEGIN :: replicate (length chunks) UART_CMD_FILE_DATA
                                    ++ [UART_CMD_FILE_END]) ∧
  ∃ r, us_m s' = (uh_start h (uh_clear_done h (us_m s)) name size r).2 ∧
    ∀ s2, rtc (during h) s' s2 → ∀ offset len, 0 <= offset → 0 <= len →
      read_with r s2 offset len = take (Z.to_nat len) (drop (Z.to_nat offset) file).
Proof.
  intros file size Hne Hn Hw Hmax Hst Hok Hstart. cbv zeta. unfold FLP_INGEST_MAX_SIZE_BYTES in *.
  unfold file_frames. rewrite handle_frames_cons, handle_frames_app.
  rewrite handle_begin by (done || lia).
  assert (Hr0 : receiving h name size [] (send_ack UART_CMD_FILE_BEGIN (file_begin h size name s).2)).
  { apply receiving_ack. rewrite <- Hn at 1. apply begin_receiving; (done || lia). }
  destruct (handle_chunks h chunks name size [] _ Hw Hr0) as (Hr & Hl & Em & _ & _); [ apply Z.le_refl | done | ].
  cbn [app] in Hr. pose proof (begin_frame h size name s) as Eb. injection Eb as Eb1 Eb2.
  set (s1 := handle_frames h (map _ chunks) _) in *. rewrite handle_frames_cons. change (handle_frames h [] ?x) with x.
  destruct (uh_start h (uh_clear_done h (us_m s1)) name size (reader_of s1)) as [ok m] eqn:Es.
  assert (ok = true) as -> by (pose proof (Hstart (uh_clear_done h (us_m s1)) (reader_of s1)); by rewrite Es in * ).
  destruct (end_sending h name size (concat chunks) s1 m Hr Es) as (Hend & Hsend & Em').
  assert (E : handle_frame h UART_CMD_FILE_END [] s1 = send_ack UART_CMD_FILE_END (file_end h s1).2).
  { unfold handle_frame. cbn. destruct (file_end h s1) as [r s']. cbn in Hend. by subst r. }
  rewrite E. split.
  - cbn [send_ack send_frame update_field us_line]. rewrite end_frame, Hl.
    cbn [send_ack send_frame update_field us_line]. rewrite Eb1, <- !app_assoc. do 2 f_equal.
    unfold acks. cbn [map concat]. rewrite map_app, concat_app. cbn [map concat]. by rewrite app_nil_r.
  - exists (reader_of s1). split.
    + cbn [send_ack send_frame update_field us_m]. rewrite Em'.
      replace (us_m s1) with (us_m s) in Es by (rewrite Em; by cbn [send_ack send_frame update_field us_m]).
      by rewrite Es.
    + intros s2 Hd offset len Ho Hlen. eapply sending_reads; [ | done | done ].
      eapply during_star; [ exact Hd | ]. eapply sending_core, Hsend. done.
Qed.

(** A node whose PSRAM is full and whose card works; its world is the log of
    started transfers. *)
Definition demo_uart (psram : bool) : UartHost (list (list Z * Z * Reader)) :=
  mk_uart_host (fun _ => 4096) (fun _ _ => psram) true (fun _ => true) (fun _ => true)
    (fun _ len => len) (fun m name size r => (true, (name, size, r) :: m)) (fun m => m)
    (fun m => negb (bool_decide (m = []))) (fun _ => 0) (fun _ => 1) (fun _ => 2)
    (fun _ => mk_status true 2 1 false 0 false 4660 100000 true).

Definition demo_store : Store (list (list Z * Z * Reader)) := mk_store ingest_new ∅ ∅ [] [].

Lemma ingest_delivers_file_witness :
  let h := demo_uart false in
  let s' := handle_frames h (file_frames 3 (str "a") [[7; 8]; [9]]) demo_store in
  us_line s' = acks [1; 2; 2; 3] ∧
  ∃ r, us_m s' = [(str "a", 3, r)] ∧ read_with r s' 1 5 = [8; 9].
Proof.
  cbv zeta.
  destruct (ingest_delivers_file (demo_uart false) (str "a") [[7; 8]; [9]] demo_store) as [H1 (r & H2 & H3)];
    [ discriminate | reflexivity | intros m len; reflexivity | vm_compute; discriminate | reflexivity
    | vm_compute; reflexivity | intros m r; reflexivity | ].
  split; [ exact H1 | ]. exists r. split; [ exact H2 | ].
  exact (H3 _ (rtc_refl _ _) 1 5 ltac:(lia) ltac:(lia)).
Defined.
