(* ===== verification/UartAbort.v ===== *)
(** * Aborting a transfer that already runs

    [abort_transfer] leaves the source of a running transfer to
    [poll_transfer_progress], which no longer looks at it. *)

From Stdlib Require Import ZArith Lia String.
From stdpp Require Import base list numbers option sets gmap relations.
From S2P Require Import Prelude.
From S2P Require Import CString.
From S2P Require Import Uart.
From S2P Require Import UartIngest.
Open Scope Z_scope.
Open Scope flp_scope.

Section abort.
Context {M : Type} (h : UartHost M).
Implicit Types (s : Store M).

(** Everything that can happen to the store. *)
Inductive uart_step : Store M → Store M → Prop :=
  | ut_frame cmd payload s : uart_step s (handle_frame h cmd payload s)
  | ut_progress s : uart_step s (poll_transfer_progress h s)
  | ut_mesh s : uart_step s (poll_mesh_state h s)
  | ut_events n s : uart_step s (drain_events n s)
  | ut_push evt s : uart_step s (push_event evt s)
  | ut_world m s : uart_step s (s <| us_m := m |>).

(** A block the object no longer points to. *)
Definition lost (b : Z) (c : list Z) s : Prop :=
  us_blocks s !! b = Some c ∧ in_buf (us_ingest s) ≠ Some b.

Lemma lost_ext b c s s' :
  us_blocks s' = us_blocks s → in_buf (us_ingest s') = in_buf (us_ingest s) → lost b c s → lost b c s'.
Proof. unfold lost. by intros -> ->. Qed.

(** Freeing what the object points to, and forgetting it. *)
Lemma lost_free b c s s' :
  lost b c s →
  (us_blocks s' = us_blocks s ∨ ∃ b', in_buf (us_ingest s) = Some b' ∧ us_blocks s' = delete b' (us_blocks s)) →
  in_buf (us_ingest s') = None ∨ in_buf (us_ingest s') = in_buf (us_ingest s) → lost b c s'.
Proof.
  intros [Hb Hne] Hd Hi. split.
  - destruct Hd as [-> | (b' & E & ->)]; [ done | ]. rewrite lookup_delete_ne; [ done | congruence ].
  - destruct Hi as [-> | ->]; done.
Qed.

Lemma drop_lost b c s : lost b c s → lost b c (drop_ingest h s).
Proof.
  intros Hl. apply (lost_free b c s); [ done | .. ]; unfold drop_ingest; cbv zeta;
    destruct (in_buf (us_ingest s)) as [b' | ] eqn:E; us_upd; destruct (_ && _ && _); us_upd; eauto.
Qed.

Lemma begin_lost size name b c s : lost b c s → lost b c (file_begin h size name s).2.
Proof.
  intros Hl. unfold file_begin. destruct (in_started _); [ done | ]. set (s1 := if in_active _ then _ else _).
  assert (H1 : lost b c s1) by (subst s1; destruct (in_active _); [ by apply drop_lost | done ]).
  clearbody s1. clear Hl s. destruct (_ || _); [ done | ]. destruct H1 as [Hb Hne]. unfold malloc. us_upd.
  destruct (uh_alloc h (us_m s1) size).
  - us_upd. unfold fresh_block. us_upd. set (f := fresh (dom (us_blocks s1))).
    assert (Hf : f ≠ b).
    { intros Ef. apply (is_fresh (dom (us_blocks s1))). fold f. rewrite Ef. apply elem_of_dom. by exists c. }
    split; us_upd; [ by rewrite lookup_insert_ne | congruence ].
  - unfold begin_on_sd. us_upd. destruct (_ || _); [ by split | ]. cbv zeta.
    by destruct (uh_fopen h _); split.
Qed.

Lemma end_view s :
  (us_blocks (file_end h s).2, in_buf (us_ingest (file_end h s).2)) = (us_blocks s, in_buf (us_ingest s)).
Proof.
  unfold file_end. destruct (negb _); [ done | ]. destruct (in_started _); [ done | ]. cbv zeta.
  destruct (in_to_sd _).
  - destruct (in_file _); [ | done ]. destruct (uh_sd_enabled h); [ | done ]. us_upd.
    by destruct (uh_start h _ _ _ _) as [[ ] m].
  - destruct (in_buf (us_ingest s)) as [b | ] eqn:E; us_upd; [ | by rewrite E ].
    destruct (uh_start h _ _ _ _) as [[ ] m]; us_upd; by rewrite E.
Qed.

Lemma frame_lost cmd payload b c s : lost b c s → lost b c (handle_frame h cmd payload s).
Proof.
  intros Hl.
  assert (Ha : ∀ cmd rs, lost b c rs.2 → lost b c (answer cmd rs : Store M)) by by intros ? [[ ] ?].
  unfold handle_frame.
  destruct (cmd =? UART_CMD_FILE_BEGIN); [ destruct (_ <? 5); [ done | apply Ha, begin_lost, Hl ] | ].
  destruct (cmd =? UART_CMD_FILE_DATA).
  { apply Ha. unfold file_data. destruct (negb _); [ done | ]. destruct (in_started _); [ done | ].
    destruct (_ >? _); [ done | ]. destruct (in_to_sd _).
    - destruct (in_file _); [ | done ]. cbv zeta. by destruct (_ =? _).
    - destruct (in_buf (us_ingest s)) as [b' | ] eqn:E; [ | done ]. destruct Hl as [Hb Hne].
      split; us_upd; [ | congruence ]. rewrite lookup_insert_ne; [ done | congruence ]. }
  destruct (cmd =? UART_CMD_FILE_END).
  { apply Ha. pose proof (end_view s) as E. injection E as E1 E2. by eapply lost_ext. }
  destruct (cmd =? UART_CMD_STATUS); [ done | ]. destruct (cmd =? UART_CMD_ABORT); [ | done ].
  apply Ha. apply (lost_free b c s); [ done | .. ]; unfold abort_transfer;
    (destruct (negb _); [ by auto | ]); cbv zeta;
    destruct (in_buf (us_ingest s)) as [b' | ] eqn:E; destruct (in_started (us_ingest s));
    us_upd; destruct (_ && _ && _ && _); us_upd; eauto.
Qed.

Lemma step_lost b c s s' : uart_step s s' → lost b c s → lost b c s'.
Proof.
  intros [cmd payload t | t | t | n t | evt t | m t] Hl.
  - by apply frame_lost.
  - unfold poll_transfer_progress. destruct (negb _); [ done | ].
    destruct (uh_transfer_active h _); [ by destruct (_ >=? _) | ].
    apply (lost_free b c t); [ done | .. ]; unfold finish_transfer; cbv zeta; us_upd;
      destruct (in_buf (us_ingest (send_frame _ _ t))) as [b' | ] eqn:E; us_upd;
      destruct (_ && _ && _); us_upd; eauto.
  - unfold poll_mesh_state. cbv zeta. destruct (_ <? _); [ done | ]. by destruct (_ || _).
  - pose proof (drain_core n t) as E. unfold core in E. injection E as _ _ E1 _ E2 _. by eapply lost_ext.
  - done.
  - done.
Qed.

Lemma steps_lost b c s s' : rtc uart_step s s' → lost b c s → lost b c s'.
Proof. induction 1 as [ | ????? IH ]; [ done | ]. intros Hl. by eapply IH, step_lost. Qed.
End abort.

(** An abort while the transfer runs loses the source. The transfer goes
    on, but the object forgets that it started, so the poll that should clean
    up afterwards does nothing. In PSRAM: the block stays allocated, and from
    the next accepted [FILE_BEGIN] on, whatever happens, it is never freed. On the card: the
    reader opens the path of the moment, so with the next accepted
    [FILE_BEGIN] the running transfer reads an empty source instead of its
    file. *)
Theorem abort_loses_running_source {M} (h : UartHost M) s size name s2 :
  in_active (us_ingest s) = true → in_started (us_ingest s) = true → us_files s !! [] = None →
  let s1 := (abort_transfer h s).2 in
  file_begin h size name s1 = (OK, s2) →
  poll_transfer_progress h s1 = s1 ∧ us_m s1 = us_m s ∧
  (∀ b content s3, in_buf (us_ingest s) = Some b → us_blocks s !! b = Some content →
     rtc (uart_step h) s2 s3 → us_blocks s3 !! b = Some content ∧ in_buf (us_ingest s3) ≠ Some b) ∧
  ∀ offset len, read_with SpoolReader s2 offset len = [].
Proof.
  intros Ha Hst Hnil s1 E.
  assert (E1 : s1 = s <| us_ingest ::= fun i => i <| in_file := None |> <| in_active := false |>
                   <| in_started := false |> <| in_received := 0 |> <| in_size := 0 |> |>).
  { subst s1. unfold abort_transfer. rewrite Ha, Hst, andb_false_r. cbn [negb andb].
    by destruct (in_buf (us_ingest s)). }
  clearbody s1. subst s1. split; [ done | ]. split; [ done | ].
  unfold file_begin in E. us_upd. cbn [update_field us_ingest in_started in_active] in E.
  destruct (_ || _); [ done | ]. unfold malloc in E.
  cbn [update_field us_ingest us_blocks us_m] in E. destruct (uh_alloc h (us_m s) size).
  - injection E as <-. split.
    + intros b content s3 Eb Hb Hr. eapply (steps_lost h b content); [ exact Hr | ].
      assert (Hf : fresh (dom (us_blocks s)) ≠ b).
      { intros Ef. apply (is_fresh (dom (us_blocks s))). rewrite Ef. apply elem_of_dom. by exists content. }
      split; us_upd; [ by rewrite lookup_insert_ne | ]. intros [= Ef]. by apply Hf.
    + intros offset len. unfold read_with. us_upd. by rewrite Hnil.
  - unfold begin_on_sd in E. cbn [update_field us_ingest us_blocks us_m] in E. destruct (_ || _); [ done | ].
    destruct (uh_fopen h (us_m s)); [ | done ]. injection E as <-. split.
    + intros b content s3 Eb Hb Hr. by eapply (steps_lost h b content); [ exact Hr | ].
    + intros offset len. unfold read_with. us_upd. rewrite lookup_insert_eq. by rewrite drop_nil, take_nil.
Qed.

Lemma abort_loses_running_source_witness :
  let h := demo_uart false in
  let s := handle_frames h (file_frames 2 (str "a") [[7; 8]]) demo_store in
  let s2 := (file_begin h 5 (str "b") (abort_transfer h s).2).2 in
  uh_transfer_active h (us_m s2) = true ∧ read_with SpoolReader s 0 2 = [7; 8] ∧
  read_with SpoolReader s2 0 2 = [].
Proof.
  cbv zeta. split; [ reflexivity | ]. split; [ vm_compute; reflexivity | ].
  set (s := handle_frames (demo_uart false) (file_frames 2 (str "a") [[7; 8]]) demo_store).
  refine (proj2 (proj2 (proj2 (abort_loses_running_source (demo_uart false) s 5 (str "b") _ _ _ _ _))) 0 2);
    vm_compute; reflexivity.
Defined.
