(* ===== verification/SdCard.v ===== *)
(** * The SD card and its read cache (components/sdcard/sdcard.{hpp,cpp})

    A file on the card is read through [SdReadCache]: a window of up to
    512 KB of PSRAM that slides over the file, and sixteen 4 KB pages for the
    small reads that miss it (retransmissions). The card and the allocator
    are a parameter: which seek, read or allocation fails is indexed by a
    counter of the operations made so far, so a failure can come anywhere. *)

From Stdlib Require Import ZArith Lia String.
From stdpp Require Import base list numbers option.
From S2P Require Import Prelude.
Open Scope Z_scope.
Open Scope flp_scope.

Definition SD_MAX_FILE_SIZE : Z := 10 * 1024 * 1024.
Definition MAX_CACHE_SIZE : Z := 512 * 1024.
Definition RANDOM_PAGE_SIZE : Z := 4 * 1024.
Definition RANDOM_PAGE_COUNT : Z := 16.
Definition kMinCacheSize : Z := 32 * 1024.

(** The [esp_err_t] values in use; [ESP_ERR n] is a code of the drivers. *)
Inductive SdErr :=
  | ESP_OK
  | ESP_ERR_NOT_SUPPORTED
  | ESP_ERR_INVALID_STATE
  | ESP_ERR_NOT_FOUND
  | ESP_ERR_INVALID_SIZE
  | ESP_ERR_NO_MEM
  | ESP_ERR (code : Z).
#[export] Instance SdErr_dec : EqDecision SdErr.
Proof. solve_decision. Defined.

(** The card's files, and what operation number [n] does: a seek succeeds or
    fails, a read of [want] bytes delivers at most [cd_fread n want], an
    allocation gives a block or not. *)
Record Card := mk_card {
  cd_file : string → option (list Z);
  cd_seek : nat → bool;
  cd_fread : nat → Z → Z;
  cd_malloc : nat → Z → option (list Z)
}.

(** [FILE]: a file open for reading and its position. *)
Record FILE := mk_file { f_data : list Z; f_pos : Z }.

Record RandomPageSlot := mk_slot {
  page_index : Z;
  valid_len : Z;
  stamp : Z;
  valid : bool
}.
#[export] Instance eta_RandomPageSlot : Eta RandomPageSlot := fun s =>
  mk_slot (page_index s) (valid_len s) (stamp s) (valid s).
#[export] Instance RandomPageSlot_inhabited : Inhabited RandomPageSlot :=
  populate (mk_slot 0 0 0 false).

(** The members, and the counter of the card and heap operations. *)
Record SdReadCache := mk_cache {
  file_ : option FILE;
  cache_buf_ : option (list Z);
  random_cache_buf_ : option (list Z);
  file_size_ : Z;
  cache_capacity_ : Z;
  cache_start_ : Z;
  cache_len_ : Z;
  random_slots_ : list RandomPageSlot;
  random_clock_ : Z;
  random_hits_ : Z;
  random_misses_ : Z;
  hits_ : Z;
  misses_ : Z;
  sd_io : nat
}.
#[export] Instance eta_SdReadCache : Eta SdReadCache := fun s =>
  mk_cache (file_ s) (cache_buf_ s) (random_cache_buf_ s) (file_size_ s) (cache_capacity_ s)
    (cache_start_ s) (cache_len_ s) (random_slots_ s) (random_clock_ s) (random_hits_ s)
    (random_misses_ s) (hits_ s) (misses_ s) (sd_io s).

Definition no_pages : list RandomPageSlot := replicate (Z.to_nat RANDOM_PAGE_COUNT) inhabitant.
Definition sd_cache_new (io : nat) : SdReadCache :=
  mk_cache None None None 0 0 0 0 no_pages 0 0 0 0 0 io.
Definition fully_cached (s : SdReadCache) : bool := file_size_ s <=? cache_capacity_ s.

Section sdcard.
Context (h : Card).

(** ** Standard I/O

    [long] has 32 bits: a negative position is refused. *)

Definition fseek (io : nat) (f : FILE) (pos : Z) : bool * FILE :=
  if (0 <=? i32 pos) && cd_seek h io then (true, mk_file (f_data f) (i32 pos)) else (false, f).

Definition fread (io : nat) (f : FILE) (want : Z) : list Z * FILE :=
  let n := Z.min want (cd_fread h io want) in
  let bs := take (Z.to_nat n) (drop (Z.to_nat (f_pos f)) (f_data f)) in
  (bs, mk_file (f_data f) (f_pos f + Z.of_nat (length bs))).

(** [fseek(f, 0, SEEK_END); ftell(f); fseek(f, 0, SEEK_SET)]: the size, the
    stream and the counter. A file whose size is not a [long] has none. *)
Definition measure (io : nat) (data : list Z) : Z * FILE * nat :=
  let f := mk_file data (if cd_seek h io then Z.of_nat (length data) else 0) in
  let fsize := if f_pos f <? 2147483648 then f_pos f else -1 in
  (fsize, (fseek (S io) f 0).2, S (S io)).

(** ** The helpers outside the cache *)

(** [enabled] is CONFIG_FLP_SD_ENABLED, [bus] and [mount] what the drivers
    answer; the result is the error and [s_mounted]. *)
Definition sdcard_init (enabled : bool) (bus mount : SdErr) (s_mounted : bool) : SdErr * bool :=
  if negb enabled then (ESP_ERR_NOT_SUPPORTED, s_mounted)
  else if s_mounted then (ESP_OK, s_mounted)
  else if negb (bool_decide (bus = ESP_OK)) then (bus, s_mounted)
  else if negb (bool_decide (mount = ESP_OK)) then (mount, s_mounted)
  else (ESP_OK, true).

Definition sdcard_open (s_mounted : bool) (path : string) (io : nat) : option (FILE * Z) * nat :=
  if negb s_mounted then (None, io)
  else
    match cd_file h path with
    | None => (None, io)
    | Some data =>
        let '(fsize, f, io) := measure io data in
        if fsize <=? 0 then (None, io)
        else if SD_MAX_FILE_SIZE <? fsize then (None, io)
        else (Some (f, fsize), io)
    end.

(** The caller's buffer afterwards, the bytes read and the counter. *)
Definition sdcard_read_chunk (s_mounted : bool) (path : string) (buf : list Z) (offset len : Z)
    (io : nat) : list Z * Z * nat :=
  if negb s_mounted then (buf, 0, io)
  else
    match cd_file h path with
    | None => (buf, 0, io)
    | Some data =>
        let '(ok, f) := fseek io (mk_file data 0) offset in
        if negb ok then (buf, 0, S io)
        else
          let '(bs, _) := fread (S io) f len in
          (memcpy buf 0 bs, Z.of_nat (length bs), S (S io))
    end.

(** ** The window *)

(** The halving loop of [open]: 512 KB needs five tries, six is enough. *)
Fixpoint alloc_window (fuel : nat) (chosen : Z) (io : nat) : option (list Z * Z) * nat :=
  match fuel with
  | O => (None, io)
  | S fuel =>
      if kMinCacheSize <=? chosen then
        match cd_malloc h io chosen with
        | Some buf => (Some (buf, chosen), S io)
        | None => alloc_window fuel (chosen / 2) (S io)
        end
      else (None, io)
  end.

Definition refill (s : SdReadCache) (offset : Z) : SdReadCache * bool :=
  match file_ s with
  | None => (s, false)
  | Some f =>
      if cache_capacity_ s =? 0 then (s, false)
      else
        let aligned := offset / cache_capacity_ s * cache_capacity_ s in
        if file_size_ s <=? aligned then (s, false)
        else
          let '(ok, f) := fseek (sd_io s) f aligned in
          let s := s <| file_ := Some f |> <| sd_io ::= S |> in
          if negb ok then (s, false)
          else
            let want := cache_capacity_ s in
            let want := if file_size_ s <? u32 (aligned + want) then file_size_ s - aligned else want in
            let '(bs, f) := fread (sd_io s) f want in
            (s <| file_ := Some f |> <| sd_io ::= S |>
               <| cache_buf_ ::= fmap (fun b => memcpy b 0 bs) |>
               <| cache_start_ := aligned |>
               <| cache_len_ := Z.of_nat (length bs) |>,
             0 <? Z.of_nat (length bs))
  end.

Definition open (s_mounted : bool) (path : string) (s : SdReadCache) : SdReadCache * SdErr :=
  if negb s_mounted then (s, ESP_ERR_INVALID_STATE)
  else
    match cd_file h path with
    | None => (s, ESP_ERR_NOT_FOUND)
    | Some data =>
        let '(fsize, f, io) := measure (sd_io s) data in
        if fsize <=? 0 then (s <| sd_io := io |>, ESP_ERR_INVALID_SIZE)
        else
          let alloc_size := if MAX_CACHE_SIZE <? fsize then MAX_CACHE_SIZE else fsize in
          match alloc_window 6 alloc_size io with
          | (None, io) => (s <| sd_io := io |>, ESP_ERR_NO_MEM)
          | (Some (buf, chosen_size), io) =>
              let random_buf := cd_malloc h io (RANDOM_PAGE_SIZE * RANDOM_PAGE_COUNT) in
              let s := mk_cache (Some f) (Some buf) random_buf fsize chosen_size 0 0
                         no_pages 0 0 0 0 0 (S io) in
              let '(s, _) := refill s 0 in
              (s, ESP_OK)
          end
    end.

(** ** The pages *)

Fixpoint find_page (i : Z) (slots : list RandomPageSlot) (page : Z) : Z :=
  match slots with
  | [] => -1
  | sl :: slots =>
      if valid sl && (page_index sl =? page) then i else find_page (i + 1) slots page
  end.
Definition find_random_page (s : SdReadCache) (page : Z) : Z := find_page 0 (random_slots_ s) page.

Fixpoint choose_slot (i oldest_slot oldest_stamp : Z) (slots : list RandomPageSlot) : Z :=
  match slots with
  | [] => oldest_slot
  | sl :: slots =>
      if negb (valid sl) then i
      else if (oldest_slot <? 0) || (stamp sl <? oldest_stamp)
      then choose_slot (i + 1) i (stamp sl) slots
      else choose_slot (i + 1) oldest_slot oldest_stamp slots
  end.
Definition choose_random_slot (s : SdReadCache) : Z := choose_slot 0 (-1) 0 (random_slots_ s).

Definition load_random_page (s : SdReadCache) (page slot : Z) : SdReadCache * bool :=
  match file_ s, random_cache_buf_ s with
  | Some f, Some rb =>
      if (slot <? 0) || (RANDOM_PAGE_COUNT <=? slot) then (s, false)
      else
        let page_start := u32 (page * RANDOM_PAGE_SIZE) in
        if file_size_ s <=? page_start then (s, false)
        else
          let '(ok, f) := fseek (sd_io s) f page_start in
          let s := s <| file_ := Some f |> <| sd_io ::= S |> in
          if negb ok then (s, false)
          else
            let want := RANDOM_PAGE_SIZE in
            let want := if file_size_ s <? u32 (page_start + want) then file_size_ s - page_start
                        else want in
            let '(bs, f) := fread (sd_io s) f want in
            let s := s <| file_ := Some f |> <| sd_io ::= S |>
                       <| random_cache_buf_ :=
                            Some (memcpy rb (Z.to_nat (slot * RANDOM_PAGE_SIZE)) bs) |> in
            if Z.of_nat (length bs) =? 0 then (s, false)
            else
              let clock := u32 (random_clock_ s + 1) in
              (s <| random_clock_ := clock |>
                 <| random_slots_ ::= fun l =>
                      aset l slot (mk_slot page (Z.of_nat (length bs)) clock true) |>,
               true)
  | _, _ => (s, false)
  end.

(** The slot of a page, found or loaded. *)
Definition page_slot (s : SdReadCache) (page : Z) : SdReadCache * option Z :=
  let slot := find_random_page s page in
  if slot <? 0 then
    let s := s <| random_misses_ ::= fun n => u32 (n + 1) |> in
    let slot := choose_random_slot s in
    if slot <? 0 then (s, None)
    else
      let '(s, ok) := load_random_page s page slot in
      (s, if ok then Some slot else None)
  else
    let clock := u32 (random_clock_ s + 1) in
    (s <| random_hits_ ::= fun n => u32 (n + 1) |> <| random_clock_ := clock |>
       <| random_slots_ ::= fun l => aset l slot (aget l slot <| stamp := clock |>) |>, Some slot).

(** The loop of [read_via_random_pages]; every turn that does not leave it
    copies at least one byte, so [len] turns are enough. *)
Fixpoint random_pages (fuel : nat) (s : SdReadCache) (buf : list Z) (offset len copied : Z)
    : SdReadCache * list Z * Z :=
  match fuel with
  | O => (s, buf, copied)
  | S fuel =>
      if len <=? copied then (s, buf, copied)
      else
        let cur := u32 (offset + copied) in
        let page := cur / RANDOM_PAGE_SIZE in
        let page_off := cur mod RANDOM_PAGE_SIZE in
        let need := len - copied in
        let chunk := RANDOM_PAGE_SIZE - page_off in
        let chunk := if need <? chunk then need else chunk in
        match random_cache_buf_ s, file_ s with
        | None, Some f =>
            let '(ok, f) := fseek (sd_io s) f cur in
            let s := s <| file_ := Some f |> <| sd_io ::= S |> in
            if negb ok then (s, buf, copied)
            else
              let '(bs, f) := fread (sd_io s) f chunk in
              let s := s <| file_ := Some f |> <| sd_io ::= S |> in
              let got := Z.of_nat (length bs) in
              let buf := memcpy buf (Z.to_nat copied) bs in
              if got <? chunk then (s, buf, copied + got)
              else random_pages fuel s buf offset len (copied + got)
        | None, None => (s, buf, copied)
        | Some _, _ =>
            match page_slot s page with
            | (s, None) => (s, buf, copied)
            | (s, Some slot) =>
                let sl := aget (random_slots_ s) slot in
                let avail := if page_off <? valid_len sl then valid_len sl - page_off else 0 in
                if avail =? 0 then (s, buf, copied)
                else
                  let n := if avail <? chunk then avail else chunk in
                  let src := take (Z.to_nat n)
                               (drop (Z.to_nat (slot * RANDOM_PAGE_SIZE + page_off))
                                  (default [] (random_cache_buf_ s))) in
                  let buf := memcpy buf (Z.to_nat copied) src in
                  if n <? chunk then (s, buf, copied + n)
                  else random_pages fuel s buf offset len (copied + n)
            end
        end
  end.

Definition read_via_random_pages (s : SdReadCache) (buf : list Z) (offset len : Z)
    : SdReadCache * list Z * Z :=
  match file_ s with
  | None => (s, buf, 0)
  | Some _ => if len =? 0 then (s, buf, 0) else random_pages (Z.to_nat len) s buf offset len 0
  end.

(** ** Reading *)

(** [offset] to [offset + len] lies in the window. *)
Definition in_window (s : SdReadCache) (offset len : Z) : bool :=
  (cache_start_ s <=? offset) && (u32 (offset + len) <=? cache_start_ s + cache_len_ s).

(** [memcpy(buf + at, cache_buf_ + (offset - cache_start_), len)] *)
Definition copy_window (s : SdReadCache) (buf : list Z) (at_ offset len : Z) : list Z :=
  memcpy buf (Z.to_nat at_)
    (take (Z.to_nat len) (drop (Z.to_nat (offset - cache_start_ s)) (default [] (cache_buf_ s)))).

(** The part of [read] after the pages: refill and retry, over two windows if
    need be. *)
Definition read_refill (s : SdReadCache) (buf : list Z) (offset len : Z)
    : SdReadCache * list Z * Z :=
  match refill s offset with
  | (s, false) => (s, buf, 0)
  | (s, true) =>
      if in_window s offset len then (s, copy_window s buf 0 offset len, len)
      else if (offset <? cache_start_ s) || (cache_start_ s + cache_len_ s <=? offset)
      then (s, buf, 0)
      else
        let first := cache_start_ s + cache_len_ s - offset in
        let first := if len <? first then len else first in
        let buf := copy_window s buf 0 offset first in
        match refill s (offset + first) with
        | (s, false) => (s, buf, first)
        | (s, true) =>
            if in_window s (offset + first) (len - first)
            then (s, copy_window s buf first (offset + first) (len - first), len)
            else (s, buf, first)
        end
  end.

Definition read (s : SdReadCache) (buf : list Z) (offset len : Z) : SdReadCache * list Z * Z :=
  match cache_buf_ s, file_ s with
  | Some _, Some _ =>
      if file_size_ s <=? offset then (s, buf, 0)
      else
        let len := if file_size_ s <? u32 (offset + len) then file_size_ s - offset else len in
        if in_window s offset len
        then (s <| hits_ ::= fun n => u32 (n + 1) |>, copy_window s buf 0 offset len, len)
        else
          let s := s <| misses_ ::= fun n => u32 (n + 1) |> in
          if (0 <? cache_len_ s) && (len <=? RANDOM_PAGE_SIZE) then
            let '(s, buf, got) := read_via_random_pages s buf offset len in
            if 0 <? got then (s, buf, got) else read_refill s buf offset len
          else read_refill s buf offset len
  | _, _ => (s, buf, 0)
  end.

End sdcard.
