(* ===== verification/SdCache.v ===== *)
(** * The read cache against the file (components/sdcard/sdcard.cpp)

    Whatever the card and the allocator do, a read delivers a prefix of the
    bytes asked for, taken from the file and from nowhere else, through the
    window, the pages and their evictions; with a card that answers, it
    delivers all of them. *)

From Stdlib Require Import ZArith Lia String.
From stdpp Require Import base list numbers option.
From S2P Require Import Prelude.
From S2P Require Import SdCard.
Open Scope Z_scope.
Open Scope flp_scope.

(** The members of a cache given by updates. *)
Ltac members :=
  cbn [update_field file_ cache_buf_ random_cache_buf_ file_size_ cache_capacity_ cache_start_ cache_len_
       random_slots_ random_clock_ random_hits_ random_misses_ hits_ misses_ sd_io
       page_index valid_len stamp valid fst snd].

(** ** Buffers that hold a part of the file *)

(** [n] bytes of [buf] from [off] are those of [data] from [pos]. *)
Definition agree (buf : list Z) (off : Z) (data : list Z) (pos n : Z) : Prop :=
  ∀ i, 0 <= i < n → buf !! Z.to_nat (off + i) = data !! Z.to_nat (pos + i).

(** [buf'] is [buf] with [got] bytes of the file from [offset] written at its
    beginning. *)
Definition wrote (data buf : list Z) (offset : Z) (buf' : list Z) (got : Z) : Prop :=
  length buf' = length buf ∧ agree buf' 0 data offset got ∧
  ∀ i, (Z.to_nat got <= i)%nat → buf' !! i = buf !! i.

Lemma wrote_0 data buf offset : wrote data buf offset buf 0.
Proof. split_and!; [ done | intros i Hi; lia | done ]. Qed.

Lemma memcpy_agree data buf off src pos :
  0 <= off → off + Z.of_nat (length src) <= Z.of_nat (length buf) →
  agree src 0 data pos (Z.of_nat (length src)) →
  agree (memcpy buf (Z.to_nat off) src) off data pos (Z.of_nat (length src)).
Proof.
  intros Ho Hl Hs i Hi. rewrite lookup_memcpy_in by lia.
  rewrite <- (Hs i Hi). f_equal. lia.
Qed.

Lemma memcpy_agree_out data buf off src o pos n :
  0 <= off → 0 <= o → off + Z.of_nat (length src) <= Z.of_nat (length buf) →
  (o + n <= off ∨ off + Z.of_nat (length src) <= o) →
  agree buf o data pos n → agree (memcpy buf (Z.to_nat off) src) o data pos n.
Proof. intros ???? Hb i Hi. rewrite lookup_memcpy_out by lia. by apply Hb. Qed.

Lemma agree_sub data buf off pos n k m :
  agree buf off data pos n → 0 <= off → 0 <= k → 0 <= m → k + m <= n →
  off + n <= Z.of_nat (length buf) →
  let src := take (Z.to_nat m) (drop (Z.to_nat (off + k)) buf) in
  Z.of_nat (length src) = m ∧ agree src 0 data (pos + k) m.
Proof.
  intros Hb ?????. cbv zeta. split.
  - rewrite length_take, length_drop. lia.
  - intros i Hi. rewrite lookup_take_lt by lia. rewrite lookup_drop.
    replace (Z.to_nat (off + k) + Z.to_nat (0 + i))%nat with (Z.to_nat (off + (k + i))) by lia.
    rewrite (Hb (k + i)) by lia. f_equal. lia.
Qed.

Lemma wrote_more data buf offset b c src :
  0 <= c → wrote data buf offset b c →
  agree src 0 data (offset + c) (Z.of_nat (length src)) →
  c + Z.of_nat (length src) <= Z.of_nat (length buf) →
  wrote data buf offset (memcpy b (Z.to_nat c) src) (c + Z.of_nat (length src)).
Proof.
  intros Hc (Hlen & Ha & Hu) Hs Hle. split_and!.
  - rewrite length_memcpy; lia.
  - intros i Hi. destruct (decide (i < c)).
    + rewrite lookup_memcpy_out by lia. apply Ha. lia.
    + pose proof (memcpy_agree data b c src (offset + c) Hc ltac:(lia) Hs (i - c) ltac:(lia)) as E.
      replace (c + (i - c)) with (0 + i) in E by lia. rewrite E. f_equal. lia.
  - intros i Hi. rewrite lookup_memcpy_out by lia. apply Hu. lia.
Qed.

(** What a caller sees of [wrote]. *)
Lemma wrote_memcpy data buf offset buf' got :
  wrote data buf offset buf' got → 0 <= offset → 0 <= got →
  got <= Z.max 0 (Z.of_nat (length data) - offset) → got <= Z.of_nat (length buf) →
  buf' = memcpy buf 0 (take (Z.to_nat got) (drop (Z.to_nat offset) data)).
Proof.
  intros (Hlen & Ha & Hu) ????.
  assert (length (take (Z.to_nat got) (drop (Z.to_nat offset) data)) = Z.to_nat got) as Hsrc
    by (rewrite length_take, length_drop; lia).
  apply list_eq. intros i. destruct (decide (i < Z.to_nat got)%nat).
  - rewrite lookup_memcpy_in by lia. rewrite lookup_take_lt by lia. rewrite lookup_drop.
    replace i with (Z.to_nat (0 + Z.of_nat i)) at 1 by lia. rewrite Ha by lia. f_equal. lia.
  - rewrite lookup_memcpy_out by lia. apply Hu. lia.
Qed.

(** ** The card *)

(** A card that answers: no seek fails and a read is short only at the end
    of the file. *)
Definition reliable (h : Card) : Prop :=
  (∀ n, cd_seek h n = true) ∧ (∀ n want, want <= cd_fread h n want).

(** A block has the size asked for. *)
Definition sized (h : Card) : Prop :=
  ∀ n size b, cd_malloc h n size = Some b → Z.of_nat (length b) = size.

Section card.
Context (h : Card) (data : list Z).
Let size : Z := Z.of_nat (length data).

Lemma fseek_ok io pos p : 0 <= pos < 2147483648 →
  ∃ p', (fseek h io (mk_file data p) pos).2 = mk_file data p' ∧
    ((fseek h io (mk_file data p) pos).1 = true → p' = pos) ∧
    (reliable h → (fseek h io (mk_file data p) pos).1 = true).
Proof.
  intros Hp. unfold fseek. assert (i32 pos = pos) as -> by (unfold i32; lia).
  destruct (Z.leb_spec 0 pos); [ | lia ]. cbn [andb f_data].
  destruct (cd_seek h io) eqn:E; cbn [fst snd]; eexists; split_and!; try done.
  intros [Hs _]. congruence.
Qed.

Lemma fread_ok io pos want : 0 <= pos → 0 <= want → pos + want <= size →
  let r := fread h io (mk_file data pos) want in
  (∃ p', r.2 = mk_file data p') ∧ Z.of_nat (length r.1) <= want ∧
  agree r.1 0 data pos (Z.of_nat (length r.1)) ∧
  (reliable h → Z.of_nat (length r.1) = want).
Proof.
  intros Hp Hw Hs. cbv zeta. unfold fread. cbn [f_pos f_data fst snd].
  set (n := Z.min want _). split_and!.
  - eauto.
  - rewrite length_take. lia.
  - intros i Hi. rewrite length_take in Hi. rewrite lookup_take_lt by lia.
    rewrite lookup_drop. f_equal. lia.
  - intros [_ Hr]. specialize (Hr io want). subst size.
    rewrite length_take, length_drop. lia.
Qed.

(** ** The invariant *)

Definition page_ok (rb : list Z) (k : Z) (sl : RandomPageSlot) : Prop :=
  valid sl = true →
  0 <= page_index sl ∧ 0 < valid_len sl <= RANDOM_PAGE_SIZE ∧
  page_index sl * RANDOM_PAGE_SIZE + valid_len sl <= size ∧
  agree rb (k * RANDOM_PAGE_SIZE) data (page_index sl * RANDOM_PAGE_SIZE) (valid_len sl) ∧
  (reliable h → valid_len sl = Z.min RANDOM_PAGE_SIZE (size - page_index sl * RANDOM_PAGE_SIZE)).

Record inv (s : SdReadCache) : Prop := mk_inv {
  inv_file : ∃ pos, file_ s = Some (mk_file data pos);
  inv_size : file_size_ s = size ∧ 0 < size < 2147483648;
  inv_cap : kMinCacheSize <= cache_capacity_ s <= MAX_CACHE_SIZE;
  inv_win : 0 <= cache_start_ s ∧ 0 <= cache_len_ s <= cache_capacity_ s ∧
            cache_start_ s + cache_len_ s <= size;
  inv_buf : ∃ b, cache_buf_ s = Some b ∧ Z.of_nat (length b) = cache_capacity_ s ∧
            agree b 0 data (cache_start_ s) (cache_len_ s);
  inv_slots : length (random_slots_ s) = 16%nat;
  inv_pages : ∀ rb, random_cache_buf_ s = Some rb →
    Z.of_nat (length rb) = 65536 ∧ ∀ k, 0 <= k < 16 → page_ok rb k (aget (random_slots_ s) k)
}.

(** Moving the stream and the counters keeps it. *)
Lemma inv_moved s p g io : inv s → inv (s <| file_ := Some (mk_file data p) |> <| sd_io ::= g |>
  <| misses_ := io |>).
Proof. intros []. constructor; members; eauto. Qed.

(** ** The window *)

Lemma refill_ok s offset : inv s → 0 <= offset <= size →
  let r := refill h s offset in
  inv r.1 ∧ cache_capacity_ r.1 = cache_capacity_ s ∧
  (reliable h → offset < size →
   r.2 = true ∧ cache_start_ r.1 = offset / cache_capacity_ s * cache_capacity_ s ∧
   cache_len_ r.1 = Z.min (cache_capacity_ s) (size - cache_start_ r.1)).
Proof.
  intros Hi Ho. cbv zeta. pose proof Hi as [(pos & Hf) [Hsz ?] Hcap Hwin (b & Hb & Hbl & _) Hsl Hpg].
  unfold refill. rewrite Hf, Hsz. unfold kMinCacheSize, MAX_CACHE_SIZE in Hcap.
  destruct (Z.eqb_spec (cache_capacity_ s) 0); [ lia | ].
  set (cap := cache_capacity_ s) in *. set (al := offset / cap * cap).
  assert (0 <= al <= offset ∧ offset < al + cap) as Hal.
  { subst al. pose proof (Z.div_mod offset cap ltac:(lia)).
    pose proof (Z.mod_pos_bound offset cap ltac:(lia)).
    pose proof (Z.div_pos offset cap ltac:(lia) ltac:(lia)). nia. }
  destruct (Z.leb_spec size al).
  { split_and!; [ done | done | intros; lia ]. }
  destruct (fseek_ok (sd_io s) al pos ltac:(lia)) as (p' & E2 & E1 & E3).
  destruct (fseek _ _ _ _) as [ok f]. cbn [fst snd] in *. subst f.
  destruct ok; cbn [negb].
  2:{ members. split_and!; [ | done | intros Hr; by specialize (E3 Hr) ].
      by apply (inv_moved s p' S (misses_ s)). }
  rewrite (E1 eq_refl). members. rewrite Hsz. fold cap.
  set (want := if _ <? _ then _ else _).
  assert (want = Z.min cap (size - al)) as Hw.
  { subst want. rewrite u32_small by (unfold is_u32; lia).
    destruct (Z.ltb_spec size (al + cap)); lia. }
  match goal with |- context [fread h ?io _ _] =>
    destruct (fread_ok io al want ltac:(lia) ltac:(lia) ltac:(lia)) as ((p2 & F2) & Fl & Fa & Fr) end.
  destruct (fread _ _ _ _) as [bs f]. cbn [fst snd] in *. subst f.
  members. split_and!; [ | done | ].
  - constructor; members; eauto; [ fold cap; lia | ].
    rewrite Hb. eexists; split_and!; [ done | rewrite length_memcpy; lia | ].
    apply (memcpy_agree data b 0 bs al); [ lia | lia | done ].
  - intros Hr Hos. rewrite (Fr Hr). split_and!; lia.
Qed.
(** ** The pages *)

Lemma find_page_ok page slots : ∀ i, find_page i slots page = -1 ∨
  (i <= find_page i slots page < i + Z.of_nat (length slots) ∧
   valid (aget slots (find_page i slots page - i)) = true ∧
   page_index (aget slots (find_page i slots page - i)) = page).
Proof.
  induction slots as [|sl slots IH]; intros i; cbn [find_page length]; [ by left | ].
  destruct (_ && _) eqn:E.
  - right. apply andb_true_iff in E as [Ev Ep]. split; [ lia | ].
    rewrite Z.sub_diag. split; [ done | ]. apply Z.eqb_eq in Ep. done.
  - destruct (IH (i + 1)) as [-> | (Hr & Hv & Hp)]; [ by left | right ].
    set (r := find_page (i + 1) slots page) in *. split; [ lia | ].
    unfold aget in *. replace (Z.to_nat (r - i)) with (S (Z.to_nat (r - (i + 1)))) by lia. done.
Qed.

Lemma choose_slot_ok slots : ∀ i o st, -1 <= o < i → 0 <= o ∨ slots ≠ [] →
  0 <= choose_slot i o st slots < i + Z.of_nat (length slots).
Proof.
  induction slots as [|sl slots IH]; intros i o st Ho Hne; cbn [choose_slot length].
  - destruct Hne; [ lia | done ].
  - destruct (valid sl); cbn [negb]; [ | lia ].
    destruct (Z.ltb_spec o 0), (Z.ltb_spec (stamp sl) st); cbn [orb].
    all: match goal with |- context [choose_slot _ ?o' ?st' _] =>
           specialize (IH (i + 1) o' st' ltac:(lia) ltac:(lia)) end; lia.
Qed.

(** A slot that has just been filled. *)
Lemma inv_loaded s rb page slot p bs g clock : inv s → random_cache_buf_ s = Some rb →
  0 <= page → 0 <= slot < 16 → 0 < Z.of_nat (length bs) <= RANDOM_PAGE_SIZE →
  page * RANDOM_PAGE_SIZE + Z.of_nat (length bs) <= size →
  agree bs 0 data (page * RANDOM_PAGE_SIZE) (Z.of_nat (length bs)) →
  (reliable h → Z.of_nat (length bs) = Z.min RANDOM_PAGE_SIZE (size - page * RANDOM_PAGE_SIZE)) →
  inv (s <| file_ := Some (mk_file data p) |> <| sd_io ::= g |>
         <| random_cache_buf_ := Some (memcpy rb (Z.to_nat (slot * RANDOM_PAGE_SIZE)) bs) |>
         <| random_clock_ := clock |>
         <| random_slots_ ::= fun l =>
              aset l slot (mk_slot page (Z.of_nat (length bs)) clock true) |>).
Proof.
  intros [? ? ? ? ? Hsl Hpg] Hrb Hp Hs Hl Hle Hb Hr.
  destruct (Hpg rb Hrb) as [Hlen Hpages]. assert (RANDOM_PAGE_SIZE = 4096) as HP by done.
  constructor; members; eauto; [ by rewrite length_aset | ].
  intros rb' [= <-]. split; [ rewrite length_memcpy; lia | ].
  intros k Hk. destruct (decide (k = slot)) as [-> | Hne].
  - rewrite aget_aset_eq by lia. intros _. cbn [page_index valid_len].
    split_and!; try done; try lia. apply memcpy_agree; [ lia.. | done ].
  - rewrite aget_aset_ne by lia. intros Hv. destruct (Hpages k Hk Hv) as (? & ? & ? & Ha & ?).
    split_and!; try done; try lia. apply memcpy_agree_out; [ lia | lia | lia | nia | done ].
Qed.

(** A slot whose stamp alone changes. *)
Lemma inv_stamp s slot clock hits : inv s → 0 <= slot < 16 →
  inv (s <| random_hits_ ::= hits |> <| random_clock_ := clock |>
         <| random_slots_ ::= fun l => aset l slot (aget l slot <| stamp := clock |>) |>).
Proof.
  intros [? ? ? ? ? Hsl Hpg] Hs. constructor; members; eauto.
  - by rewrite length_aset.
  - intros rb Hrb. destruct (Hpg rb Hrb) as [Hlen Hk]. split; [ done | ].
    intros k Hk16. specialize (Hk k Hk16). destruct (decide (k = slot)) as [-> | ].
    + rewrite aget_aset_eq by lia. exact Hk.
    + by rewrite aget_aset_ne by lia.
Qed.

Lemma load_random_page_ok s rb page slot : inv s → random_cache_buf_ s = Some rb →
  0 <= page → page * RANDOM_PAGE_SIZE < size → 0 <= slot < 16 →
  let r := load_random_page h s page slot in
  inv r.1 ∧ cache_capacity_ r.1 = cache_capacity_ s ∧ is_Some (random_cache_buf_ r.1) ∧
  (r.2 = true → valid (aget (random_slots_ r.1) slot) = true ∧
                page_index (aget (random_slots_ r.1) slot) = page) ∧
  (reliable h → r.2 = true).
Proof.
  intros Hi Hrb Hp0 Hps Hs. cbv zeta.
  pose proof Hi as [(pos & Hf) [Hsz ?] _ _ _ Hsl Hpg]. destruct (Hpg rb Hrb) as [Hlen Hpages].
  unfold load_random_page. rewrite Hf, Hrb, Hsz.
  unfold RANDOM_PAGE_COUNT. destruct (Z.ltb_spec slot 0), (Z.leb_spec 16 slot); try lia. cbn [orb].
  set (start := page * RANDOM_PAGE_SIZE) in *.
  assert (0 <= start) by (subst start; unfold RANDOM_PAGE_SIZE; lia).
  rewrite (u32_small start) by (unfold is_u32; lia).
  destruct (Z.leb_spec size start); [ lia | ].
  destruct (fseek_ok (sd_io s) start pos ltac:(lia)) as (p' & E2 & E1 & E3).
  destruct (fseek _ _ _ _) as [ok f]. cbn [fst snd] in *. subst f.
  destruct ok; cbn [negb].
  2:{ members. split_and!; [ by apply (inv_moved s p' S (misses_ s)) | done | rewrite Hrb; eauto | done
      | intros Hr; by specialize (E3 Hr) ]. }
  rewrite (E1 eq_refl). members. rewrite Hsz. set (want := if _ <? _ then _ else _).
  assert (want = Z.min RANDOM_PAGE_SIZE (size - start)) as Hw.
  { subst want. rewrite u32_small by (unfold is_u32, RANDOM_PAGE_SIZE; lia).
    destruct (Z.ltb_spec size (start + RANDOM_PAGE_SIZE)); lia. }
  assert (0 < want <= RANDOM_PAGE_SIZE) by (unfold RANDOM_PAGE_SIZE in *; lia).
  destruct (fread_ok (S (sd_io s)) start want ltac:(lia) ltac:(lia) ltac:(lia))
    as ((p2 & F2) & Fl & Fa & Fr).
  destruct (fread _ _ _ _) as [bs f]. cbn [fst snd] in *. subst f.
  destruct (Z.eqb_spec (Z.of_nat (length bs)) 0) as [E0|E0]; members.
  { destruct bs; [ | done ].
    split_and!; [ | done | eauto | done | intros Hr; specialize (Fr Hr); cbn in Fr; lia ].
    rewrite memcpy_nil, <- Hrb. by apply (inv_moved s p2 (fun n => S (S n)) (misses_ s)). }
  split_and!; [ | done | eauto | intros _; rewrite aget_aset_eq by lia; done | done ].
  apply (inv_loaded s rb page slot p2 bs (fun n => S (S n)) (u32 (random_clock_ s + 1)));
    try done; [ lia.. | ].
  intros Hr. by rewrite (Fr Hr).
Qed.

Lemma page_slot_ok s page : inv s → is_Some (random_cache_buf_ s) →
  0 <= page → page * RANDOM_PAGE_SIZE < size →
  let r := page_slot h s page in
  inv r.1 ∧ cache_capacity_ r.1 = cache_capacity_ s ∧ is_Some (random_cache_buf_ r.1) ∧
  (∀ k, r.2 = Some k → 0 <= k < 16 ∧ valid (aget (random_slots_ r.1) k) = true ∧
                       page_index (aget (random_slots_ r.1) k) = page) ∧
  (reliable h → r.2 ≠ None).
Proof.
  intros Hi [rb Hrb] Hp Hps. cbv zeta. pose proof (inv_slots s Hi) as Hsl.
  unfold page_slot, find_random_page.
  destruct (find_page_ok page (random_slots_ s) 0) as [-> | (Hr & Hv & Hpi)].
  - cbn [Z.ltb Z.compare]. set (s' := s <| random_misses_ ::= _ |>).
    assert (inv s') as Hi' by (subst s'; destruct Hi; constructor; members; eauto).
    pose proof (choose_slot_ok (random_slots_ s) 0 (-1) 0 ltac:(lia)) as Hc.
    change (choose_slot 0 (-1) 0 (random_slots_ s)) with (choose_random_slot s') in Hc.
    destruct (Z.ltb_spec (choose_random_slot s') 0) as [Hn|].
    { rewrite Hsl in Hc. destruct Hc; [ right; by destruct (random_slots_ s) | lia ]. }
    destruct (load_random_page_ok s' rb page (choose_random_slot s') Hi' Hrb Hp Hps)
      as (H1 & H2 & H3 & H4 & H5).
    { rewrite Hsl in Hc. destruct Hc; [ right; by destruct (random_slots_ s) | lia ]. }
    destruct (load_random_page h s' page _) as [s2 ok]. cbn [fst snd] in *.
    split_and!; try done.
    + destruct ok; [ | done ]. intros k [= <-]. destruct Hc as [_ Hc].
      { right; by destruct (random_slots_ s). }
      split; [ lia | by apply H4 ].
    + intros Hrel. by rewrite (H5 Hrel).
  - set (k := find_page 0 (random_slots_ s) page) in *.
    rewrite Z.sub_0_r in Hv, Hpi. destruct (Z.ltb_spec k 0); [ lia | ].
    cbn [fst snd]. split_and!; [ apply inv_stamp; [ done | lia ] | done | by exists rb | | done ].
    intros k' [= <-]. members. rewrite aget_aset_eq by lia. split; [ lia | done ].
Qed.

Lemma page_split x : 0 <= x →
  0 <= x / RANDOM_PAGE_SIZE ∧ 0 <= x mod RANDOM_PAGE_SIZE < RANDOM_PAGE_SIZE ∧
  x = x / RANDOM_PAGE_SIZE * RANDOM_PAGE_SIZE + x mod RANDOM_PAGE_SIZE.
Proof.
  intros Hx. pose proof (Z.div_mod x RANDOM_PAGE_SIZE ltac:(done)).
  pose proof (Z.mod_pos_bound x RANDOM_PAGE_SIZE ltac:(done)).
  pose proof (Z.div_pos x RANDOM_PAGE_SIZE Hx ltac:(done)). lia.
Qed.

(** A piece [src] of [n <= chunk] bytes of the file from [pos] on. *)
Definition piece (chunk pos n : Z) (src : list Z) : Prop :=
  Z.of_nat (length src) = n ∧ n <= chunk ∧ agree src 0 data pos n ∧ (reliable h → n = chunk).

(** The piece of a page in the random cache. *)
Lemma cached_piece s page po chunk :
  inv s → is_Some (random_cache_buf_ s) → 0 <= page → page * RANDOM_PAGE_SIZE < size →
  0 <= po → 0 < chunk → chunk <= RANDOM_PAGE_SIZE - po → page * RANDOM_PAGE_SIZE + po + chunk <= size →
  let '(s1, slot) := page_slot h s page in
  inv s1 ∧ cache_capacity_ s1 = cache_capacity_ s ∧
  match slot with
  | None => ¬ reliable h
  | Some k =>
      let vl := valid_len (aget (random_slots_ s1) k) in
      let avail := if po <? vl then vl - po else 0 in
      let n := if avail <? chunk then avail else chunk in
      if avail =? 0 then ¬ reliable h
      else piece chunk (page * RANDOM_PAGE_SIZE + po) n
             (take (Z.to_nat n) (drop (Z.to_nat (k * RANDOM_PAGE_SIZE + po)) (default [] (random_cache_buf_ s1))))
  end.
Proof.
  intros Hi Hrb Hp Hps Hpo Hc0 Hc Hend'.
  destruct (page_slot_ok s page Hi Hrb Hp Hps) as (H1 & H2 & [rb' Hrb'] & H4 & H5).
  destruct (page_slot h s page) as [s1 [k | ]]; cbn [fst snd] in *.
  2: { split_and!; try done. intros Hr. by specialize (H5 Hr). }
  split_and!; [ done | done | ].
  destruct (H4 k eq_refl) as (Hk & Hv & Hpi). destruct (inv_pages s1 H1 rb' Hrb') as [Hlen Hpg].
  destruct (Hpg k Hk Hv) as (_ & Hvl & Hend & Ha & Hex). rewrite Hpi in *. cbv zeta. rewrite Hrb'.
  set (vl := valid_len (aget (random_slots_ s1) k)) in *. cbn [default].
  set (avail := if po <? vl then _ else _).
  assert (Hav : avail = Z.max 0 (vl - po)) by (subst avail; destruct (Z.ltb_spec po vl); lia).
  assert (Hrel : reliable h → chunk <= avail) by (intros Hr; specialize (Hex Hr); lia).
  destruct (Z.eqb_spec avail 0); [ intros Hr; specialize (Hrel Hr); lia | ].
  set (m := if avail <? chunk then avail else chunk).
  assert (Hm' : m = Z.min avail chunk) by (subst m; destruct (Z.ltb_spec avail chunk); lia).
  destruct (agree_sub data rb' (k * RANDOM_PAGE_SIZE) (page * RANDOM_PAGE_SIZE) vl po m Ha)
    as [Hl1 Ha1]; try lia; [ unfold RANDOM_PAGE_SIZE in *; lia.. | ].
  unfold piece. split_and!; [ exact Hl1 | lia | exact Ha1 | ]. intros Hr. specialize (Hrel Hr). lia.
Qed.

(** What the loop promises of a request of which [copied] bytes are done. *)
Definition pages_post (s : SdReadCache) (buf0 : list Z) (offset len copied : Z) (fuel : nat)
    (r : SdReadCache * list Z * Z) : Prop :=
  let '(s', buf', got) := r in
  inv s' ∧ cache_capacity_ s' = cache_capacity_ s ∧ copied <= got <= len ∧
  wrote data buf0 offset buf' got ∧
  (reliable h → len <= copied + Z.of_nat fuel → got = len).

(** A turn that found a piece: the loop ends on a short one and goes on else. *)
Lemma pages_step fuel s s2 buf0 buf offset len copied chunk n src :
  (∀ buf copied, 0 <= copied <= len → wrote data buf0 offset buf copied →
     pages_post s2 buf0 offset len copied fuel (random_pages h fuel s2 buf offset len copied)) →
  inv s2 → cache_capacity_ s2 = cache_capacity_ s → 0 <= copied → len <= Z.of_nat (length buf0) →
  0 < chunk <= len - copied → wrote data buf0 offset buf copied → piece chunk (offset + copied) n src →
  pages_post s buf0 offset len copied (S fuel)
    (if n <? chunk then (s2, memcpy buf (Z.to_nat copied) src, copied + n)
     else random_pages h fuel s2 (memcpy buf (Z.to_nat copied) src) offset len (copied + n)).
Proof.
  intros IH Hi2 Hc2 Hc Hb Hch Hw (<- & Hn & Ha & Hr).
  pose proof (wrote_more data buf0 offset buf copied src ltac:(lia) Hw Ha ltac:(lia)) as Hw'.
  destruct (Z.ltb_spec (Z.of_nat (length src)) chunk).
  - cbn [pages_post]. split_and!; try done; lia.
  - specialize (IH _ (copied + Z.of_nat (length src)) ltac:(lia) Hw').
    destruct (random_pages _ _ _ _ _ _ _) as [[s' buf'] got]. destruct IH as (? & ? & ? & ? & Hex).
    cbn [pages_post]. split_and!; try done; lia.
Qed.

Lemma random_pages_ok fuel : ∀ s buf0 buf offset len copied, inv s →
  0 <= offset → 0 <= copied <= len → offset + len <= size → len <= Z.of_nat (length buf0) →
  wrote data buf0 offset buf copied →
  pages_post s buf0 offset len copied fuel (random_pages h fuel s buf offset len copied).
Proof.
  induction fuel as [ | fuel IH ]; intros s buf0 buf offset len copied Hi Ho Hc Hl Hb Hw.
  { cbn. split_and!; try done; lia. }
  cbn [random_pages]. pose proof (inv_size s Hi) as [Hsz ?].
  destruct (Z.leb_spec len copied). { cbn [pages_post]. split_and!; try done; lia. }
  rewrite (u32_small (offset + copied)) by (unfold is_u32; lia).
  destruct (page_split (offset + copied) ltac:(lia)) as (Hq & Hm & Heq).
  set (page := (offset + copied) / RANDOM_PAGE_SIZE) in *.
  set (po := (offset + copied) mod RANDOM_PAGE_SIZE) in *. set (chunk := if _ <? _ then _ else _).
  assert (Hch : chunk = Z.min (len - copied) (RANDOM_PAGE_SIZE - po)).
  { subst chunk. destruct (Z.ltb_spec (len - copied) (RANDOM_PAGE_SIZE - po)); lia. }
  assert (Hstop : ∀ s2, inv s2 → cache_capacity_ s2 = cache_capacity_ s → ¬ reliable h →
    pages_post s buf0 offset len copied (S fuel) (s2, buf, copied)) by (intros; split_and!; try done; lia).
  pose proof (inv_file s Hi) as (pos & Hf).
  destruct (random_cache_buf_ s) as [ rb | ] eqn:Hrb.
  - pose proof (cached_piece s page po chunk Hi ltac:(eauto) Hq ltac:(lia) ltac:(lia) ltac:(lia)
      ltac:(lia) ltac:(lia)) as Hp.
    destruct (page_slot h s page) as [s1 [k | ]]; destruct Hp as (H1 & H2 & Hp); [ | by apply Hstop ].
    cbv zeta in Hp. destruct (_ =? 0); [ by apply Hstop | ]. rewrite <- Heq in Hp.
    apply (pages_step fuel s s1); try done; try lia. intros. by apply IH.
  - rewrite Hf. destruct (fseek_ok (sd_io s) (offset + copied) pos ltac:(lia)) as (p' & E2 & E1 & E3).
    destruct (fseek _ _ _ _) as [ok f]. cbn [fst snd] in *. subst f.
    destruct ok; cbn [negb].
    2: { members. apply Hstop; [ by apply (inv_moved s p' S (misses_ s)) | done | ].
         intros Hr. by specialize (E3 Hr). }
    rewrite (E1 eq_refl). members.
    destruct (fread_ok (S (sd_io s)) (offset + copied) chunk ltac:(lia) ltac:(lia) ltac:(lia))
      as ((p2 & F2) & Fl & Fa & Fr).
    destruct (fread _ _ _ _) as [bs f]. cbn [fst snd] in *. subst f.
    pose proof (inv_moved s p2 (fun n => S (S n)) (misses_ s) Hi) as Hi2.
    apply (pages_step fuel s _ buf0 buf offset len copied chunk); try done; try lia.
    intros. by apply IH.
Qed.

(** The answer to a read of [len] bytes at [offset]. *)
Definition answer (s : SdReadCache) (buf : list Z) (offset len : Z) (r : SdReadCache * list Z * Z)
    : Prop :=
  let '(s', buf', got) := r in
  inv s' ∧ cache_capacity_ s' = cache_capacity_ s ∧ 0 <= got <= len ∧
  wrote data buf offset buf' got ∧
  (reliable h → len <= cache_capacity_ s → got = len).

Lemma window_copy s buf b c offset len : inv s → wrote data buf offset b c → 0 <= c → 0 <= len →
  in_window s (offset + c) len = true → offset + c + len < 4294967296 → 0 <= offset →
  c + len <= Z.of_nat (length buf) →
  wrote data buf offset (copy_window s b c (offset + c) len) (c + len).
Proof.
  intros Hi Hw ?? Hin ???. unfold in_window in Hin. apply andb_true_iff in Hin as [Hin1 Hin2].
  rewrite u32_small in Hin2 by (unfold is_u32; lia). apply Z.leb_le in Hin1, Hin2.
  pose proof (inv_win s Hi) as Hwin. destruct (inv_buf s Hi) as (wb & Hwb & Hlen & Ha).
  unfold copy_window. rewrite Hwb. change (default [] (Some wb)) with wb.
  destruct (agree_sub data wb 0 (cache_start_ s) (cache_len_ s) (offset + c - cache_start_ s) len Ha)
    as [Hl1 Ha1]; try lia.
  rewrite Z.add_0_l in *. revert Hl1 Ha1. cbv zeta.
  generalize (take (Z.to_nat len) (drop (Z.to_nat (offset + c - cache_start_ s)) wb)).
  intros src <- Ha1.
  replace (cache_start_ s + (offset + c - cache_start_ s)) with (offset + c) in Ha1 by lia.
  by apply wrote_more.
Qed.

Lemma in_window_iff s o l : 0 <= o → 0 <= l → o + l < 4294967296 →
  in_window s o l = true ↔ cache_start_ s <= o ∧ o + l <= cache_start_ s + cache_len_ s.
Proof.
  intros. unfold in_window. rewrite u32_small by (unfold is_u32; lia). lia.
Qed.

(** A refill that the card answers puts [offset] in the window. *)
Lemma refill_reliable s offset : inv s → 0 <= offset < size → reliable h →
  let cap := cache_capacity_ s in
  let r := refill h s offset in
  r.2 = true ∧ cache_start_ r.1 <= offset < cache_start_ r.1 + cap ∧
  cache_len_ r.1 = Z.min cap (size - cache_start_ r.1) ∧
  cache_start_ r.1 mod cap = 0 ∧ (offset mod cap = 0 → cache_start_ r.1 = offset).
Proof.
  intros Hi Ho Hr. cbv zeta. pose proof (inv_cap s Hi) as Hcap. unfold kMinCacheSize in Hcap.
  destruct (refill_ok s offset Hi ltac:(lia)) as (_ & _ & Hx).
  destruct (Hx Hr ltac:(lia)) as (? & Hst & Hle). set (cap := cache_capacity_ s) in *.
  pose proof (Z.div_mod offset cap ltac:(lia)). pose proof (Z.mod_pos_bound offset cap ltac:(lia)).
  rewrite Hle, Hst. rewrite Z.mod_mul by lia. split_and!; try done; lia.
Qed.

Lemma read_refill_ok s buf offset len : inv s → 0 <= offset < size → 0 <= len →
  offset + len <= size → len <= Z.of_nat (length buf) →
  answer s buf offset len (read_refill h s buf offset len).
Proof.
  intros Hi Ho ???. unfold answer, read_refill. pose proof (inv_size s Hi) as [_ ?].
  destruct (refill_ok s offset Hi ltac:(lia)) as (Hi1 & Hc1 & _).
  pose proof (refill_reliable s offset Hi Ho) as Hr1.
  destruct (refill h s offset) as [s1 [|]]; cbn [fst snd] in *.
  2:{ split_and!; try done; try lia; apply wrote_0. }
  set (cap := cache_capacity_ s) in *. cbv zeta in Hr1.
  pose proof (window_copy s1 buf buf 0 offset) as Hcopy1. rewrite Z.add_0_r in Hcopy1.
  destruct (in_window s1 offset len) eqn:Ein.
  { split_and!; try done; try lia. apply Hcopy1; try done; try lia. apply wrote_0. }
  assert (¬ (cache_start_ s1 <= offset ∧ offset + len <= cache_start_ s1 + cache_len_ s1)) as Hout.
  { rewrite <- in_window_iff by lia. by rewrite Ein. }
  destruct (Z.ltb_spec offset (cache_start_ s1)), (Z.leb_spec (cache_start_ s1 + cache_len_ s1) offset);
    cbn [orb].
  1-3: split_and!; try done; try lia; apply wrote_0.
  set (first := cache_start_ s1 + cache_len_ s1 - offset) in *.
  destruct (Z.ltb_spec len first); [ lia | ].
  assert (wrote data buf offset (copy_window s1 buf 0 offset first) first) as Hw1.
  { apply (Hcopy1 first); try lia; [ done | apply wrote_0 | apply in_window_iff; lia ]. }
  pose proof (inv_win s1 Hi1) as Hwin1.
  destruct (refill_ok s1 (offset + first) Hi1 ltac:(lia)) as (Hi2 & Hc2 & _).
  assert (reliable h → _) as Hr2 by exact (refill_reliable s1 (offset + first) Hi1 ltac:(lia)).
  destruct (refill h s1 (offset + first)) as [s2 [|]]; cbn [fst snd] in *.
  2:{ split_and!; try done; [ congruence | clear Hr1 Hr2; lia.. | ].
      intros Hr. by destruct (Hr2 Hr). }
  rewrite Hc1 in *. cbv zeta in Hr2. destruct (in_window s2 _ _) eqn:Ein2.
  - clear Hr1 Hr2. split_and!; try done.
    replace len with (first + (len - first)) at 2 by lia. apply window_copy; try done; lia.
  - split_and!; try done; [ clear Hr1 Hr2; lia.. | ]. intros Hr Hlc. exfalso.
    destruct (Hr1 Hr) as (_ & ? & Hl1 & Hm1 & _). destruct (Hr2 Hr) as (_ & ? & Hl2 & _ & Hs2).
    clear Hr1 Hr2. assert (offset + first = cache_start_ s1 + 1 * cap) as E by lia.
    rewrite E, Z.mod_add, Hm1 in Hs2 by lia. specialize (Hs2 eq_refl).
    apply not_true_iff_false in Ein2. apply Ein2, in_window_iff; lia.
Qed.

(** ** Reading *)

(** What is left of the file at [offset]. *)
Definition rest (offset : Z) : Z := Z.max 0 (size - offset).

Lemma read_ok s buf offset len : inv s → 0 <= offset → 0 <= len → offset + len < 4294967296 →
  len <= Z.of_nat (length buf) →
  answer s buf offset (Z.min len (rest offset)) (read h s buf offset len).
Proof.
  intros Hi Ho Hl0 Ho32 Hlb. unfold answer, read, rest. pose proof (inv_size s Hi) as [Hsz ?].
  destruct (inv_buf s Hi) as (wb & -> & _). destruct (inv_file s Hi) as (p & Hf). rewrite Hf, Hsz.
  destruct (Z.leb_spec size offset).
  { split_and!; try done; try lia. apply wrote_0. }
  rewrite u32_small by (unfold is_u32; lia).
  set (n := if _ <? _ then _ else _).
  assert (n = Z.min len (Z.max 0 (size - offset))) as <-
    by (subst n; destruct (Z.ltb_spec size (offset + len)); lia).
  assert (0 <= n ∧ n <= Z.of_nat (length buf) ∧ offset + n <= size) as (? & ? & ?)
    by (subst n; destruct (Z.ltb_spec size (offset + len)); lia).
  clearbody n. destruct (in_window s offset n) eqn:Ein.
  { pose proof (window_copy s buf buf 0 offset n Hi (wrote_0 _ _ _)) as Hw.
    rewrite Z.add_0_r, Z.add_0_l in Hw.
    split_and!; [ destruct Hi; constructor; members; eauto | done | lia | lia | apply Hw; try done; lia
    | done ]. }
  set (s1 := s <| misses_ ::= _ |>).
  assert (inv s1) as Hi1 by (subst s1; destruct Hi; constructor; members; eauto).
  change (cache_capacity_ s) with (cache_capacity_ s1). change (cache_len_ s) with (cache_len_ s1).
  clearbody s1. destruct (_ && _).
  2:{ apply read_refill_ok; [ done | lia.. ]. }
  unfold read_via_random_pages. destruct (inv_file s1 Hi1) as (p1 & ->).
  destruct (Z.eqb_spec n 0). { apply read_refill_ok; [ done | lia.. ]. }
  pose proof (random_pages_ok (Z.to_nat n) s1 buf buf offset n 0 Hi1 Ho ltac:(lia) ltac:(lia)
    ltac:(lia) (wrote_0 _ _ _)) as HR.
  destruct (random_pages h (Z.to_nat n) s1 buf offset n 0) as [[s2 buf2] got].
  destruct HR as (Hi2 & Hc2 & Hg & Hw2 & Hex). destruct (Z.ltb_spec 0 got).
  - split_and!; try done; try lia.
  - assert (got = 0) as -> by lia.
    assert (buf2 = buf) as ->.
    { destruct Hw2 as (_ & _ & Hu). apply list_eq. intros i. apply Hu. lia. }
    rewrite <- Hc2. apply read_refill_ok; [ done | lia.. ].
Qed.

(** A window that holds the whole file serves every read. *)
Lemma read_resident s buf offset len : inv s → cache_start_ s = 0 → cache_len_ s = size →
  0 <= offset → 0 <= len → offset + len < 4294967296 →
  let s' := (read h s buf offset len).1.1 in
  sd_io s' = sd_io s ∧ cache_start_ s' = 0 ∧ cache_len_ s' = size.
Proof.
  intros Hi H0 Hn Ho Hl0 Ho32. cbv zeta. unfold read. pose proof (inv_size s Hi) as [Hsz ?].
  destruct (inv_buf s Hi) as (wb & -> & _). destruct (inv_file s Hi) as (p & ->). rewrite Hsz.
  destruct (Z.leb_spec size offset); [ done | ]. rewrite u32_small by (unfold is_u32; lia).
  set (n := if _ <? _ then _ else _).
  assert (in_window s offset n = true) as ->; [ | done ].
  subst n. destruct (Z.ltb_spec size (offset + len)); apply in_window_iff; lia.
Qed.

End card.

(** ** Opening *)

Lemma measure_ok h io data : let '(fsize, f, io') := measure h io data in
  (∃ p, f = mk_file data p) ∧
  (0 < fsize → fsize = Z.of_nat (length data) ∧ fsize < 2147483648) ∧
  (reliable h → Z.of_nat (length data) < 2147483648 → fsize = Z.of_nat (length data)).
Proof.
  unfold measure. cbn [f_pos]. split_and!.
  - unfold fseek. cbn [f_data]. destruct (_ && _); eauto.
  - destruct (cd_seek h io); [ | change (0 <? 2147483648) with true; lia ].
    destruct (Z.ltb_spec (Z.of_nat (length data)) 2147483648); lia.
  - intros [-> _] Hlt. by destruct (Z.ltb_spec (Z.of_nat (length data)) 2147483648); [ | lia ].
Qed.

Lemma alloc_window_ok h : sized h → ∀ fuel chosen io buf n io',
  alloc_window h fuel chosen io = (Some (buf, n), io') →
  Z.of_nat (length buf) = n ∧ kMinCacheSize <= n <= chosen.
Proof.
  intros Hz. induction fuel as [|fuel IH]; intros chosen io buf n io' E; cbn [alloc_window] in E;
    [ done | ].
  destruct (Z.leb_spec kMinCacheSize chosen); [ | done ].
  destruct (cd_malloc h io chosen) eqn:Em.
  - injection E as <- <- <-. split; [ by eapply Hz | lia ].
  - destruct (IH _ _ _ _ _ E). split; [ done | ]. unfold kMinCacheSize in *. lia.
Qed.

Lemma no_pages_ok h data rb k : page_ok h data rb k (aget no_pages k).
Proof.
  intros Hv. unfold no_pages, aget in Hv. rewrite list_lookup_total_alt in Hv.
  destruct (replicate _ _ !! Z.to_nat k) eqn:E; [ | done ].
  apply lookup_replicate in E as [-> _]. done.
Qed.

Lemma refill_capacity h s offset : cache_capacity_ (refill h s offset).1 = cache_capacity_ s.
Proof.
  unfold refill. destruct (file_ s); [ | done ]. destruct (_ =? 0); [ done | ].
  destruct (_ <=? _); [ done | ]. destruct (fseek _ _ _ _) as [[|] ?]; [ | done ].
  cbn [negb]. by destruct (fread _ _ _ _).
Qed.

Lemma open_ok h m path s0 s data : sized h → cd_file h path = Some data →
  open h m path s0 = (s, ESP_OK) →
  inv h data s ∧
  (reliable h → cache_start_ s = 0 ∧ cache_len_ s = Z.min (cache_capacity_ s) (Z.of_nat (length data))).
Proof.
  intros Hz Hd E. unfold open in E. rewrite Hd in E. destruct m; [ | done ]. cbn [negb] in E.
  pose proof (measure_ok h (sd_io s0) data) as HM.
  destruct (measure h (sd_io s0) data) as [[fsize f] io]. destruct HM as ((p & ->) & Hsz & _).
  destruct (Z.leb_spec fsize 0); [ done | ]. destruct (Hsz ltac:(lia)) as [-> Hlt].
  set (want := if MAX_CACHE_SIZE <? _ then _ else _) in E.
  assert (want <= MAX_CACHE_SIZE) as Hw
    by (subst want; destruct (Z.ltb_spec MAX_CACHE_SIZE (Z.of_nat (length data))); lia).
  destruct (alloc_window h 6 want io) as [[[buf n]|] io'] eqn:Ea; [ | done ].
  destruct (alloc_window_ok h Hz _ _ _ _ _ _ Ea) as [Hbl Hn].
  set (s1 := mk_cache _ _ _ _ _ _ _ _ _ _ _ _ _ _) in E.
  assert (inv h data s1) as Hi1.
  { subst s1. constructor; cbn [file_ cache_buf_ random_cache_buf_ file_size_ cache_capacity_
      cache_start_ cache_len_ random_slots_]; eauto; try lia.
    - exists buf. split_and!; [ done | done | intros i ?; lia ].
    - intros rb Hrb. apply Hz in Hrb. split; [ exact Hrb | ]. intros k _. apply no_pages_ok. }
  destruct (refill_ok h data s1 0 Hi1 ltac:(lia)) as (Hi & Hc & Hr).
  destruct (refill h s1 0) as [s2 ok]. cbn [fst snd] in *. injection E as <-. split; [ done | ].
  intros Hrel. destruct (Hr Hrel ltac:(lia)) as (_ & Hst & Hle).
  rewrite Zdiv_0_l, Z.mul_0_l in Hst. rewrite Hle, <- Hc, Hst. lia.
Qed.

(** ** The properties *)

(** A client that reads: buffer, offset and length of each request. *)
Fixpoint reads (h : Card) (s : SdReadCache) (reqs : list (list Z * Z * Z))
    : SdReadCache * list (list Z * Z) :=
  match reqs with
  | [] => (s, [])
  | (buf, offset, len) :: reqs =>
      let '(s, buf, got) := read h s buf offset len in
      let '(s, outs) := reads h s reqs in
      (s, (buf, got) :: outs)
  end.

Definition request_ok : list Z * Z * Z → Prop := fun '(buf, offset, len) =>
  0 <= offset ∧ 0 <= len <= Z.of_nat (length buf) ∧ offset + len < 4294967296.

(** [got] bytes of the file, no more than asked for, at the beginning of the
    buffer; all of them when [all]. *)
Definition answers (data : list Z) (all : Z → Prop) : list Z * Z * Z → list Z * Z → Prop :=
  fun '(buf, offset, len) '(buf', got) =>
  0 <= got <= Z.min len (rest data offset) ∧
  buf' = memcpy buf 0 (take (Z.to_nat got) (drop (Z.to_nat offset) data)) ∧
  (all len → got = Z.min len (rest data offset)).

Lemma reads_ok h data cap reqs : ∀ s, inv h data s → cache_capacity_ s = cap →
  Forall request_ok reqs →
  Forall2 (answers data (fun len => reliable h ∧ len <= cap)) reqs (reads h s reqs).2.
Proof.
  induction reqs as [|[[buf offset] len] reqs IH]; intros s Hi Hc Hok; cbn [reads]; [ constructor | ].
  apply Forall_cons_1 in Hok as [(? & ? & ?) Hok].
  pose proof (read_ok h data s buf offset len Hi ltac:(lia) ltac:(lia) ltac:(lia) ltac:(lia)) as HR.
  destruct (read h s buf offset len) as [[s1 buf1] got]. destruct HR as (Hi1 & Hc1 & Hg & Hw & Hex).
  specialize (IH s1 Hi1 ltac:(congruence) Hok).
  destruct (reads h s1 reqs) as [s2 outs]. constructor; [ | exact IH ].
  unfold answers. split_and!; [ lia | lia | | ].
  - apply wrote_memcpy; [ done | lia | lia | unfold rest in *; lia | lia ].
  - intros [Hr Hle]. apply Hex; [ done | lia ].
Qed.

Lemma reads_resident h data reqs : ∀ s, inv h data s → Forall request_ok reqs →
  cache_start_ s = 0 → cache_len_ s = Z.of_nat (length data) → sd_io (reads h s reqs).1 = sd_io s.
Proof.
  induction reqs as [|[[buf offset] len] reqs IH]; intros s Hi Hok H0 Hn; cbn [reads]; [ done | ].
  apply Forall_cons_1 in Hok as [(? & ? & ?) Hok].
  pose proof (read_ok h data s buf offset len Hi ltac:(lia) ltac:(lia) ltac:(lia) ltac:(lia)) as HR.
  pose proof (read_resident h data s buf offset len Hi H0 Hn ltac:(lia) ltac:(lia) ltac:(lia)) as HI.
  destruct (read h s buf offset len) as [[s1 buf1] got]. destruct HR as (Hi1 & _).
  cbn [fst] in HI. destruct HI as (HI1 & HI2 & HI3). rewrite <- HI1, <- (IH s1 Hi1 Hok HI2 HI3).
  by destruct (reads h s1 reqs).
Qed.

(** C24: once [open] has succeeded, every read delivers bytes of the file and
    no others: a prefix of what was asked for, clamped to the end of the file,
    written at the beginning of the caller's buffer and nowhere else, whatever
    seeks, reads and allocations fail in between, through the window, the
    sixteen pages and the reads that span two windows. With a card that answers,
    a read no longer than the window delivers all of it, and a file that fits
    in the cache is never read from the card again. *)
Theorem sd_cache_serves_file h mounted path data s0 s reqs :
  sized h → cd_file h path = Some data → open h mounted path s0 = (s, ESP_OK) →
  Forall request_ok reqs →
  Forall2 (answers data (fun len => reliable h ∧ len <= cache_capacity_ s)) reqs (reads h s reqs).2 ∧
  (reliable h → fully_cached s = true → sd_io (reads h s reqs).1 = sd_io s).
Proof.
  intros Hz Hd Eo Hok. destruct (open_ok h mounted path s0 s data Hz Hd Eo) as [Hi Hf]. split.
  - by apply reads_ok.
  - intros Hr Hfc. destruct (Hf Hr) as [H0 Hn]. apply Z.leb_le in Hfc.
    destruct (inv_size h data s Hi) as [Hsz _]. apply reads_resident with data; try done. lia.
Qed.

(** A card with one file of 70000 bytes and a heap short of memory: nothing
    above 40 KB is granted. *)
Definition demo_card : Card :=
  mk_card (fun _ => Some (replicate (Z.to_nat 70000) 7)) (fun _ => true) (fun _ want => want)
    (fun _ n => if (0 <=? n) && (n <=? 40000) then Some (replicate (Z.to_nat n) 0) else None).

Lemma sd_cache_serves_file_witness :
  let s := (open demo_card true "/sdcard/a" (sd_cache_new 0)).1 in
  let reqs := [(replicate 100 0, 50000, 100); (replicate 20 0, 69990, 20)] in
  cache_capacity_ s = 35000 ∧
  Forall2 (answers (replicate (Z.to_nat 70000) 7)
             (fun len => reliable demo_card ∧ len <= cache_capacity_ s)) reqs
    (reads demo_card s reqs).2.
Proof.
  cbv zeta. split; [ lazy; reflexivity | ].
  refine (proj1 (sd_cache_serves_file demo_card true "/sdcard/a" _ (sd_cache_new 0) _ _ _ _ _ _)).
  - intros n m b Hb. unfold demo_card, cd_malloc in Hb.
    destruct (Z.leb_spec 0 m), (m <=? 40000); try done.
    injection Hb as <-. rewrite length_replicate. lia.
  - reflexivity.
  - rewrite (surjective_pairing (open _ _ _ _)) at 1. f_equal.
  - repeat constructor; cbn; lia.
Defined.

(** With a card that answers, [open] refuses every file shorter than
    32 KB with [ESP_ERR_NO_MEM], however much memory is free: the loop that
    looks for a smaller window starts below its own minimum. The object keeps
    the file it had. From 32 KB on, [open] succeeds when the heap grants the
    window asked for, which is then the file or its first 512 KB, read. *)
Theorem small_files_refused h path data s0 :
  reliable h → sized h → cd_file h path = Some data → 0 < Z.of_nat (length data) < 2147483648 →
  let want := Z.min (Z.of_nat (length data)) MAX_CACHE_SIZE in
  let '(s, e) := open h true path s0 in
  (Z.of_nat (length data) < kMinCacheSize →
   e = ESP_ERR_NO_MEM ∧ s = s0 <| sd_io ::= fun n => S (S n) |>) ∧
  (kMinCacheSize <= Z.of_nat (length data) → (∀ n, is_Some (cd_malloc h n want)) →
   e = ESP_OK ∧ cache_capacity_ s = want ∧ cache_len_ s = want).
Proof.
  intros Hr Hz Hd Hl. cbv zeta. pose proof (fun s => open_ok h true path s0 s data Hz Hd) as Hok.
  unfold open in *. rewrite Hd in *. cbn [negb] in *.
  pose proof (measure_ok h (sd_io s0) data) as HM.
  assert ((measure h (sd_io s0) data).2 = S (S (sd_io s0))) as Hio by done.
  destruct (measure h (sd_io s0) data) as [[fsize f] io]. destruct HM as ((p & ->) & _ & Hm).
  cbn [snd] in Hio. subst io. rewrite (Hm Hr ltac:(lia)) in *. clear Hm.
  destruct (Z.leb_spec (Z.of_nat (length data)) 0); [ lia | ].
  set (want := if MAX_CACHE_SIZE <? _ then _ else _) in *.
  assert (want = Z.min (Z.of_nat (length data)) MAX_CACHE_SIZE) as Hw
    by (subst want; destruct (Z.ltb_spec MAX_CACHE_SIZE (Z.of_nat (length data))); lia).
  rewrite <- Hw. clearbody want. unfold kMinCacheSize, MAX_CACHE_SIZE in *. cbn [alloc_window] in *.
  unfold kMinCacheSize in *.
  destruct (Z.leb_spec (32 * 1024) want); [ | split; [ done | lia ] ].
  destruct (cd_malloc h (S (S (sd_io s0))) want) as [buf|] eqn:Em.
  2:{ clear Hok. match goal with |- let '(_, _) := ?r in _ => destruct r as [s e] end.
      split; [ lia | intros _ Hg; destruct (Hg (S (S (sd_io s0)))); congruence ]. }
  match goal with |- context [refill h ?s 0] => pose proof (refill_capacity h s 0) as Hc end.
  destruct (refill h _ 0) as [s ok]. cbn [fst cache_capacity_] in Hc.
  split; [ lia | ]. intros _ _. destruct (Hok s eq_refl) as [_ Hn]. destruct (Hn Hr) as [_ ->].
  split_and!; [ done | lia | lia ].
Qed.

Lemma small_files_refused_witness :
  let h := mk_card (fun _ => Some (replicate 8 7)) (fun _ => true) (fun _ want => want)
             (fun _ n => if 0 <=? n then Some (replicate (Z.to_nat n) 0) else None) in
  (open h true "/sdcard/a" (sd_cache_new 0)).2 = ESP_ERR_NO_MEM.
Proof.
  cbv zeta.
  pose proof (small_files_refused
    (mk_card (fun _ => Some (replicate 8 7)) (fun _ => true) (fun _ want => want)
       (fun _ n => if 0 <=? n then Some (replicate (Z.to_nat n) 0) else None))
    "/sdcard/a" (replicate 8 7) (sd_cache_new 0)) as T.
  destruct (open _ _ _ _) as [s e]. cbv zeta in T. cbn [snd].
  destruct T as [T _]; [ split; [ done | cbn; lia ] | | done | done | by apply T ].
  intros n m b Hb. cbn [cd_malloc] in Hb. destruct (Z.leb_spec 0 m); [ | done ].
  injection Hb as <-. rewrite length_replicate. lia.
Defined.
