(* ===== verification/Lora.v ===== *)
(** * The LoRa transport (components/lora/lora_transport.{hpp,cpp})

    The driver of the SX1280 radio: commands over SPI, and a receive task that
    runs beside the mesh task. An operation is a program: a tree whose nodes
    are the calls it makes outside (an SPI transaction, a pin, a semaphore,
    the buffer pool) and whose branches are the answers. A program can be run
    from beginning to end ([run]), and two programs can be interleaved call
    by call ([LoraTasks]). Configuring a pin's direction has no answer and is
    left out, like logging and delays. *)

From Stdlib Require Import ZArith Lia SpecFloat.
From stdpp Require Import base list numbers option.
From S2P Require Import Prelude.
From S2P Require Import Packet.
From S2P Require Import BufferPool.
From S2P Require Import MqttClient.
From S2P Require Import MeshLink.
From S2P Require Import Reception.
Open Scope Z_scope.
Open Scope flp_scope.

(** ** The SX1280's commands *)

Definition LORA_MAX_PACKET : Z := 255.
Definition CMD_SET_SLEEP : Z := 132.
Definition CMD_SET_STANDBY : Z := 128.
Definition CMD_SET_TX : Z := 131.
Definition CMD_SET_RX : Z := 130.
Definition CMD_SET_RF_FREQUENCY : Z := 134.
Definition CMD_SET_PACKET_TYPE : Z := 138.
Definition CMD_SET_MOD_PARAMS : Z := 139.
Definition CMD_SET_PACKET_PARAMS : Z := 140.
Definition CMD_SET_TX_PARAMS : Z := 142.
Definition CMD_SET_BUFFER_BASE : Z := 143.
Definition CMD_SET_DIO_IRQ_PARAMS : Z := 141.
Definition CMD_GET_IRQ_STATUS : Z := 21.
Definition CMD_CLR_IRQ_STATUS : Z := 151.
Definition CMD_GET_RX_BUFFER_STATUS : Z := 23.
Definition CMD_GET_PACKET_STATUS : Z := 29.
Definition CMD_WRITE_BUFFER : Z := 26.
Definition CMD_READ_BUFFER : Z := 27.
Definition CMD_READ_REGISTER : Z := 25.
Definition STDBY_RC : Z := 0.
Definition PACKET_TYPE_LORA : Z := 1.
Definition LORA_SF5 : Z := 80.
Definition LORA_SF6 : Z := 96.
Definition LORA_SF7 : Z := 112.
Definition LORA_SF8 : Z := 128.
Definition LORA_SF9 : Z := 144.
Definition LORA_SF10 : Z := 160.
Definition LORA_SF11 : Z := 176.
Definition LORA_SF12 : Z := 192.
Definition LORA_BW_200 : Z := 52.
Definition LORA_BW_400 : Z := 38.
Definition LORA_BW_800 : Z := 24.
Definition LORA_BW_1600 : Z := 10.
Definition LORA_CR_4_5 : Z := 1.
Definition LORA_PREAMBLE_12 : Z := 32.
Definition LORA_HEADER_EXPLICIT : Z := 0.
Definition LORA_CRC_ON : Z := 32.
Definition LORA_IQ_STD : Z := 64.
Definition IRQ_TX_DONE : Z := 1.
Definition IRQ_RX_DONE : Z := 2.
Definition IRQ_CRC_ERROR : Z := 64.
Definition TX_RAMP_20_US : Z := 224.
Definition BUSY_POLL_MAX_ITER : nat := 1000.
Definition ESP_ERR_TIMEOUT : Z := 263.

(** ** Calls and programs *)

(** What init creates and cleanup_partial_init gives back. *)
Inductive Resource := Semaphores | SpiBus | SpiDevice | RxTask.

Inductive Op :=
  | OBusy                                 (* the level of the BUSY pin *)
  | OSpi (tx : list Z)                    (* a transaction under spi_mutex_ *)
  | OJunk (n : nat)                       (* the content of an uninitialised array *)
  | OPin (pin : Z) (level : bool)
  | ODio1                                 (* a notification, or DIO1 high after 20 ms *)
  | OTakeRadio                            (* radio_op_mutex_, 200 ms *)
  | OGiveRadio
  | OTakeDone (wait : bool)               (* tx_done_sem_, 5 s or not at all *)
  | OGiveDone
  | OAcquire                              (* buffer_pool_->acquire() *)
  | ODispatch (i len : Z) (data : option (list Z)) (rssi : Z)
  | OCreate (r : Resource)
  | ODrop (r : Resource).

(** A transaction answers the bytes received, or nothing when [spi_mutex_]
    was not obtained within 200 ms. *)
Definition answer (o : Op) : Type :=
  match o with
  | OBusy | ODio1 | OTakeRadio | OTakeDone _ | OCreate _ => bool
  | OSpi _ => option (list Z)
  | OJunk _ => list Z
  | OAcquire => option Z
  | _ => unit
  end.

Inductive Prog (A : Type) : Type :=
  | Ret (a : A)
  | Vis (o : Op) (k : answer o → Prog A).
Arguments Ret {A} a.
Arguments Vis {A} o k.

Fixpoint and_then {A B} (p : Prog A) (f : A → Prog B) : Prog B :=
  match p with
  | Ret a => f a
  | Vis o k => Vis o (fun r => and_then (k r) f)
  end.
Notation "x ← p ; q" := (and_then p (fun x => q))
  (at level 20, p at level 100, q at level 200, only parsing) : flp_scope.
Notation "p ;; q" := (and_then p (fun _ => q))
  (at level 100, q at level 200, right associativity) : flp_scope.

Definition call (o : Op) : Prog (answer o) := Vis o Ret.

(** From beginning to end, with a handler of the calls. *)
Fixpoint run {S A} (h : ∀ o, S → answer o * S) (p : Prog A) (s : S) : A * S :=
  match p with
  | Ret a => (a, s)
  | Vis o k => let '(r, s) := h o s in run h (k r) s
  end.

(** ** SPI helpers *)

(** At most a thousand polls; a pin that stays high is only logged. *)
Fixpoint poll_busy (n : nat) : Prog () :=
  match n with
  | O => Ret ()
  | S n => level ← call OBusy; if level then poll_busy n else Ret ()
  end.
Definition wait_busy : Prog () := poll_busy BUSY_POLL_MAX_ITER.

Definition write_command (cmd : Z) (params : list Z) : Prog () :=
  wait_busy;; _ ← call (OSpi (cmd :: params)); Ret ().

(** The bytes after [skip], or the caller's array as it was. *)
Definition read_spi (tx : list Z) (skip len : nat) : Prog (option (list Z)) :=
  wait_busy;; rx ← call (OSpi tx); Ret ((fun bs => take len (drop skip bs)) <$> rx).

Definition read_command (cmd : Z) (len : nat) : Prog (option (list Z)) :=
  read_spi (cmd :: replicate (S len) 0) 2 len.

Definition write_buffer (offset : Z) (data : list Z) : Prog () :=
  wait_busy;; _ ← call (OSpi (CMD_WRITE_BUFFER :: offset :: data)); Ret ().

Definition read_buffer (offset : Z) (len : nat) : Prog (option (list Z)) :=
  read_spi (CMD_READ_BUFFER :: offset :: replicate (S len) 0) 3 len.

Definition read_register (addr : Z) (len : nat) : Prog (option (list Z)) :=
  read_spi (CMD_READ_REGISTER :: u8 (Z.shiftr addr 8) :: u8 addr :: replicate (S len) 0) 4 len.

(** An array on the stack that a read may have failed to fill. *)
Definition filled (r : option (list Z)) (len : nat) : Prog (list Z) :=
  match r with Some bs => Ret bs | None => call (OJunk len) end.

(** ** The transport's members *)

Record LoraTransport := mk_lora {
  lt_rst : Z;
  lt_rx_en : option Z;
  lt_tx_en : option Z;
  lt_initialized : bool;
  lt_sf : Z
}.
#[export] Instance eta_LoraTransport : Eta LoraTransport := fun t =>
  mk_lora (lt_rst t) (lt_rx_en t) (lt_tx_en t) (lt_initialized t) (lt_sf t).
Definition lora_new : LoraTransport := mk_lora (-1) None None false 7.

Section chip.
Context (t : LoraTransport).

Definition set_pin (pin : option Z) (level : bool) : Prog () :=
  match pin with Some p => call (OPin p level) | None => Ret () end.
Definition set_rf_switch_idle : Prog () := set_pin (lt_rx_en t) false;; set_pin (lt_tx_en t) false.
Definition set_rf_switch_rx : Prog () := set_pin (lt_tx_en t) false;; set_pin (lt_rx_en t) true.
Definition set_rf_switch_tx : Prog () := set_pin (lt_rx_en t) false;; set_pin (lt_tx_en t) true.

Definition reset_chip : Prog () :=
  call (OPin (lt_rst t) false);; call (OPin (lt_rst t) true);; wait_busy.

Definition f64_of_Z (z : Z) : spec_float := binary_normalize 53 1024 z 0 false.
(** [(uint32_t) x] of a non-negative double in range: the integral part. *)
Definition f64_to_u32 (x : spec_float) : Z :=
  match x with
  | S754_finite false m e => u32 (if 0 <=? e then Z.shiftl (Zpos m) e else Z.shiftr (Zpos m) (- e))
  | _ => 0
  end.
Definition rf_freq (freq_hz : Z) : Z :=
  f64_to_u32 (SFmul 53 1024 (SFdiv 53 1024 (f64_of_Z freq_hz) (f64_of_Z 52000000)) (f64_of_Z (2 ^ 18))).
Definition set_frequency (freq_hz : Z) : Prog () :=
  let f := rf_freq freq_hz in
  write_command CMD_SET_RF_FREQUENCY [u8 (Z.shiftr f 16); u8 (Z.shiftr f 8); u8 f].

Definition set_tx_power (dbm : Z) : Prog () :=
  let dbm := if dbm <? -18 then -18 else dbm in
  let dbm := if 13 <? dbm then 13 else dbm in
  write_command CMD_SET_TX_PARAMS [u8 (dbm + 18); TX_RAMP_20_US].

Definition set_modulation_params (sf bw cr : Z) : Prog () := write_command CMD_SET_MOD_PARAMS [sf; bw; cr].
Definition set_packet_params (payload_len : Z) : Prog () :=
  write_command CMD_SET_PACKET_PARAMS
    [LORA_PREAMBLE_12; LORA_HEADER_EXPLICIT; payload_len; LORA_CRC_ON; LORA_IQ_STD].

(** An interrupt mask, for the chip and for DIO1. *)
Definition irq_params (mask : Z) : list Z :=
  [u8 (Z.shiftr mask 8); u8 mask; u8 (Z.shiftr mask 8); u8 mask; 0; 0; 0; 0].

Definition enter_rx_continuous : Prog () :=
  set_rf_switch_rx;;
  set_packet_params LORA_MAX_PACKET;;
  write_command CMD_SET_DIO_IRQ_PARAMS (irq_params (Z.lor (Z.lor IRQ_TX_DONE IRQ_RX_DONE) IRQ_CRC_ERROR));;
  write_command CMD_CLR_IRQ_STATUS [255; 255];;
  write_command CMD_SET_RX [0; 255; 255].

(** ** Sending and configuring

    Both mutexes exist once [init] has succeeded. *)

Definition send_raw (data : list Z) : Prog Z :=
  if negb (lt_initialized t) then Ret (-1)
  else if LORA_MAX_PACKET <? Z.of_nat (length data) then Ret (-1)
  else
    ok ← call OTakeRadio;
    if negb ok then Ret ESP_ERR_TIMEOUT
    else
      write_command CMD_SET_STANDBY [STDBY_RC];;
      set_packet_params (u8 (Z.of_nat (length data)));;
      write_buffer 0 data;;
      write_command CMD_CLR_IRQ_STATUS [255; 255];;
      write_command CMD_SET_DIO_IRQ_PARAMS (irq_params IRQ_TX_DONE);;
      _ ← call (OTakeDone false);
      set_rf_switch_tx;;
      write_command CMD_SET_TX [2; 19; 136];;
      call OGiveRadio;;
      got ← call (OTakeDone true);
      if negb got then
        write_command CMD_SET_STANDBY [STDBY_RC];; enter_rx_continuous;; Ret (-1)
      else enter_rx_continuous;; Ret 0.

Definition sf_code (sf : Z) : Z :=
  if sf <=? 5 then LORA_SF5 else if sf <=? 6 then LORA_SF6 else if sf <=? 7 then LORA_SF7
  else if sf <=? 8 then LORA_SF8 else if sf <=? 9 then LORA_SF9 else if sf <=? 10 then LORA_SF10
  else if sf <=? 11 then LORA_SF11 else LORA_SF12.
Definition bw_code (bw_hz : Z) : Z :=
  if bw_hz <=? 200000 then LORA_BW_200 else if bw_hz <=? 400000 then LORA_BW_400
  else if bw_hz <=? 800000 then LORA_BW_800 else LORA_BW_1600.

Definition configure (freq_hz sf bw_hz : Z) : Prog () :=
  if negb (lt_initialized t) then Ret ()
  else
    write_command CMD_SET_STANDBY [STDBY_RC];;
    set_frequency freq_hz;;
    set_modulation_params (sf_code sf) (bw_code bw_hz) LORA_CR_4_5;;
    enter_rx_continuous.

Definition clamp_sf (sf : Z) : Z := if sf <? 7 then 7 else if 10 <? sf then 10 else sf.

End chip.

Definition set_spreading_factor (t : LoraTransport) (sf : Z) : Prog LoraTransport :=
  if negb (lt_initialized t) then Ret t
  else
    let sf := clamp_sf sf in
    if sf =? lt_sf t then Ret t
    else let t := t <| lt_sf := sf |> in configure t 2450000000 sf 800000;; Ret t.

(** ** Start and stop *)

(** The board's pins (CONFIG_FLP_LORA_...). *)
Record LoraConfig := mk_config {
  cf_mosi : Z; cf_miso : Z; cf_sck : Z; cf_cs : Z; cf_rst : Z; cf_dio0 : Z; cf_busy : Z
}.
Definition kLooksLikeLilyGoT3S3Sx1280 (c : LoraConfig) : bool :=
  (cf_mosi c =? 6) && (cf_miso c =? 3) && (cf_sck c =? 5) && (cf_cs c =? 7) && (cf_rst c =? 8) &&
  (cf_dio0 c =? 9) && (cf_busy c =? 36).

(** [task] and [device]: what has been created so far. *)
Definition cleanup_partial_init (task device : bool) : Prog () :=
  (if task then call (ODrop RxTask) else Ret ());;
  (if device then call (ODrop SpiDevice) else Ret ());;
  call (ODrop SpiBus);;
  call (ODrop Semaphores).

Definition init (c : LoraConfig) (t : LoraTransport) : Prog LoraTransport :=
  if lt_initialized t then Ret t
  else
    sems ← call (OCreate Semaphores);
    if negb sems then cleanup_partial_init false false;; Ret t
    else
      let t := t <| lt_rst := cf_rst c |> in
      let t := if kLooksLikeLilyGoT3S3Sx1280 c
               then t <| lt_rx_en := Some 21 |> <| lt_tx_en := Some 10 |> else t in
      call (OPin (lt_rst t) true);;
      (match lt_rx_en t, lt_tx_en t with None, None => Ret () | _, _ => set_rf_switch_idle t end);;
      bus ← call (OCreate SpiBus);
      if negb bus then cleanup_partial_init false false;; Ret t
      else
        dev ← call (OCreate SpiDevice);
        if negb dev then cleanup_partial_init false false;; Ret t
        else
          reset_chip t;;
          write_command CMD_SET_STANDBY [STDBY_RC];;
          r ← read_register 339 2;
          fw ← filled r 2;
          if (aget fw 0 =? 0) || (aget fw 0 =? 255) then cleanup_partial_init false true;; Ret t
          else
            write_command CMD_SET_PACKET_TYPE [PACKET_TYPE_LORA];;
            set_frequency 2450000000;;
            set_modulation_params LORA_SF7 LORA_BW_800 LORA_CR_4_5;;
            set_tx_power 13;;
            write_command CMD_SET_BUFFER_BASE [0; 0];;
            _ ← call (OCreate RxTask);
            enter_rx_continuous t;;
            Ret (t <| lt_initialized := true |>).

Definition deinit (t : LoraTransport) : Prog LoraTransport :=
  if negb (lt_initialized t) then Ret t
  else
    write_command CMD_SET_SLEEP [0];;
    set_rf_switch_idle t;;
    call (ODrop RxTask);;
    cleanup_partial_init false true;;
    Ret (t <| lt_initialized := false |>).

(** ** The receive task *)

(** The RSSI from the first byte of the packet status. *)
Definition packet_rssi (status0 : Z) : Z :=
  let rssi := Z.quot (- status0) 2 in i8 (if rssi <? -128 then -128 else rssi).

(** A received packet, once the interrupt flags are read and cleared. *)
Definition rx_done : Prog () :=
  r ← read_command CMD_GET_RX_BUFFER_STATUS 2;
  rx_status ← filled r 2;
  let pkt_len := aget rx_status 0 in
  let rx_start := aget rx_status 1 in
  slab ← call OAcquire;
  match slab with
  | None => call OGiveRadio
  | Some i =>
      data ← (if (0 <? pkt_len) && (pkt_len <=? LORA_MAX_PACKET)
              then read_buffer rx_start (Z.to_nat pkt_len) else Ret None);
      r ← read_command CMD_GET_PACKET_STATUS 5;
      pkt_status ← filled r 5;
      call OGiveRadio;;
      call (ODispatch i pkt_len data (packet_rssi (aget pkt_status 0)))
  end.

(** One turn of the task's loop. *)
Definition rx_turn : Prog () :=
  ready ← call ODio1;
  if negb ready then Ret ()
  else
    ok ← call OTakeRadio;
    if negb ok then Ret ()
    else
      r ← read_command CMD_GET_IRQ_STATUS 2;
      irq_raw ← filled r 2;
      let irq := Z.lor (Z.shiftl (aget irq_raw 0) 8) (aget irq_raw 1) in
      write_command CMD_CLR_IRQ_STATUS [aget irq_raw 0; aget irq_raw 1];;
      if negb (Z.land irq IRQ_TX_DONE =? 0) then call OGiveRadio;; call OGiveDone
      else if negb (Z.land irq IRQ_RX_DONE =? 0) then
        if negb (Z.land irq IRQ_CRC_ERROR =? 0) then call OGiveRadio
        else rx_done
      else call OGiveRadio.

(** [ODispatch] on the node's pool and queues: the slab is completed and
    queued. A read that failed leaves the slab's bytes as they were. *)
Definition store_slab (i len : Z) (data : option (list Z)) (rssi : Z) (r : RxPath) : RxPath :=
  dispatch_slab i
    (r <| rx_pool ::= upd_slab i (fun s =>
        s <| bs_len := len |>
          <| bs_data ::= fun d => match data with Some bs => memcpy d 0 bs | None => d end |>
          <| bs_source := RX_LORA |> <| bs_rssi := rssi |>) |>).
