(* ===== verification/LoraTasks.v ===== *)
(** * The two users of the radio (components/lora/lora_transport.cpp)

    The mesh task sends and configures, the receive task answers interrupts;
    their calls interleave. The mutex makes a transmission atomic on the SPI
    bus. [configure] does not take it, and can fall in the middle of a
    reception. *)

From Stdlib Require Import ZArith Lia.
From stdpp Require Import base list numbers option.
From S2P Require Import Prelude.
From S2P Require Import Lora.
Open Scope Z_scope.
Open Scope flp_scope.

(** ** Programs under a monitor

    [follows m p Q]: whatever the answers, every call of [p] is allowed by the
    monitor's state, and [p] ends in a state and with a result in [Q]. *)

Section monitor.
Context {M : Type} (ok : M → ∀ o, answer o → Prop) (next : M → ∀ o, answer o → M).

Fixpoint follows {A} (m : M) (p : Prog A) (Q : M → A → Prop) : Prop :=
  match p with
  | Ret a => Q m a
  | Vis o k => ∀ r, ok m o r ∧ follows (next m o r) (k r) Q
  end.

Lemma follows_bind {A B} (p : Prog A) (f : A → Prog B) Q : ∀ m,
  follows m p (fun m a => follows m (f a) Q) → follows m (and_then p f) Q.
Proof.
  induction p as [a|o k IH]; intros m; cbn [follows and_then]; [ done | ].
  intros H r. destruct (H r) as [Hok Hk]. split; [ done | by apply IH ].
Qed.

Lemma follows_mono {A} (p : Prog A) (Q R : M → A → Prop) : (∀ m a, Q m a → R m a) → ∀ m,
  follows m p Q → follows m p R.
Proof.
  intros HQ. induction p as [a|o k IH]; intros m; cbn [follows]; [ apply HQ | ].
  intros H r. destruct (H r). split; [ done | by apply IH ].
Qed.

Lemma follows_then {A B} (p : Prog A) (f : A → Prog B) (R : M → A → Prop) Q m :
  follows m p R → (∀ m a, R m a → follows m (f a) Q) → follows m (and_then p f) Q.
Proof. intros Hp Hf. apply follows_bind. by eapply follows_mono. Qed.

Lemma follows_call (o : Op) Q m : (∀ r, ok m o r ∧ Q (next m o r) r) → follows m (call o) Q.
Proof. done. Qed.

(** Programs made of calls that leave the monitor where it is. *)
Lemma follows_busy Q m : (∀ b, ok m OBusy b ∧ next m OBusy b = m) → Q m () → follows m wait_busy Q.
Proof.
  intros Hb HQ. unfold wait_busy. generalize BUSY_POLL_MAX_ITER as n.
  induction n as [|n IH]; cbn [poll_busy]; [ done | ].
  cbn [follows and_then call]. intros b. destruct (Hb b) as [? ->].
  split; [ done | by destruct b ].
Qed.
End monitor.

(** ** The two tasks *)

Inductive Task := TMesh | TRx.
#[export] Instance Task_dec : EqDecision Task.
Proof. solve_decision. Defined.

(** What the mesh task asks of the transport. *)
Inductive LoraCall :=
  | CallSend (data : list Z)
  | CallSf (sf : Z)
  | CallConfigure (freq_hz sf bw_hz : Z).

Fixpoint mesh_calls (t : LoraTransport) (cs : list LoraCall) : Prog () :=
  match cs with
  | [] => Ret ()
  | CallSend data :: cs => send_raw t data;; mesh_calls t cs
  | CallSf sf :: cs => t ← set_spreading_factor t sf; mesh_calls t cs
  | CallConfigure f sf bw :: cs => configure t f sf bw;; mesh_calls t cs
  end.

(** A call and its answer. *)
Record Event := mk_ev { ev_task : Task; ev_op : Op; ev_ans : answer ev_op }.

Record Sys := mk_sys {
  sy_owner : option Task;               (* of radio_op_mutex_ *)
  sy_mesh : Prog ();
  sy_rx : Prog ()
}.

(** A mutex is obtained when it is free, and given back by its owner. The
    other answers are not restricted. *)
Definition allowed (owner : option Task) (o : Op) : answer o → Prop :=
  match o with
  | OTakeRadio => fun b => b = true → owner = None
  | _ => fun _ => True
  end.
Definition owner_after (task : Task) (owner : option Task) (o : Op) : answer o → option Task :=
  match o with
  | OTakeRadio => fun b => if (b : bool) then Some task else owner
  | OGiveRadio => fun _ => if decide (owner = Some task) then None else owner
  | _ => fun _ => owner
  end.

(** One call of one task; the receive task starts its next turn. *)
Inductive sys_step : Sys → list Event → Sys → Prop :=
  | step_mesh owner o k rx r : allowed owner o r →
      sys_step (mk_sys owner (Vis o k) rx) [mk_ev TMesh o r]
               (mk_sys (owner_after TMesh owner o r) (k r) rx)
  | step_rx owner mesh o k r : allowed owner o r →
      sys_step (mk_sys owner mesh (Vis o k)) [mk_ev TRx o r]
               (mk_sys (owner_after TRx owner o r) mesh (k r))
  | step_turn owner mesh : sys_step (mk_sys owner mesh (Ret ())) [] (mk_sys owner mesh rx_turn).

Inductive sys_steps : Sys → list Event → Sys → Prop :=
  | steps_nil s : sys_steps s [] s
  | steps_cons s1 tr1 s2 tr2 s3 :
      sys_step s1 tr1 s2 → sys_steps s2 tr2 s3 → sys_steps s1 (tr1 ++ tr2) s3.

Definition lora_start (t : LoraTransport) (cs : list LoraCall) : Sys :=
  mk_sys None (mesh_calls t cs) (Ret ()).

(** ** Transmissions on the bus *)

(** The transactions of [send_raw] before it gives the mutex back. *)
Definition transmission (data : list Z) : list (list Z) :=
  [ [CMD_SET_STANDBY; STDBY_RC];
    [CMD_SET_PACKET_PARAMS; LORA_PREAMBLE_12; LORA_HEADER_EXPLICIT; u8 (Z.of_nat (length data));
     LORA_CRC_ON; LORA_IQ_STD];
    CMD_WRITE_BUFFER :: 0 :: data;
    [CMD_CLR_IRQ_STATUS; 255; 255];
    CMD_SET_DIO_IRQ_PARAMS :: irq_params IRQ_TX_DONE;
    [CMD_SET_TX; 2; 19; 136] ].

(** A stretch of the history during which the mesh task holds the mutex: the
    transactions of both tasks, and whether one failed for lack of the bus. *)
Record Section_ := mk_section { se_spi : list (list Z); se_timeout : bool }.

Definition note_spi (o : Op) : answer o → Section_ → Section_ :=
  match o with
  | OSpi tx => fun r se =>
      if r then mk_section (se_spi se ++ [tx]) (se_timeout se) else mk_section (se_spi se) true
  | _ => fun _ se => se
  end.

(** The section open after a call. *)
Definition open_after (task : Task) (cur : option Section_) (o : Op) : answer o → option Section_ :=
  match task, o with
  | TMesh, OTakeRadio => fun b => if (b : bool) then Some (mk_section [] false) else cur
  | TMesh, OGiveRadio => fun _ => None
  | _, o => fun r => note_spi o r <$> cur
  end.

(** The sections closed in a history. *)
Fixpoint sections (cur : option Section_) (tr : list Event) : list Section_ :=
  match tr with
  | [] => []
  | mk_ev task o r :: tr =>
      match task, o, cur with
      | TMesh, OGiveRadio, Some se => se :: sections None tr
      | _, _, _ => sections (open_after task cur o r) tr
      end
  end.

(** The section of a send of one of [datas]: all its transactions and no
    others, or fewer when the bus was not obtained. *)
Definition sends_one (datas : list (list Z)) (se : Section_) : Prop :=
  ∃ data, data ∈ datas ∧ sublist (se_spi se) (transmission data) ∧
    (se_timeout se = false → se_spi se = transmission data).

(** ** The mesh task *)

Section mesh.
Context (datas : list (list Z)).

Definition mesh_ok (m : option Section_) (o : Op) : answer o → Prop :=
  match o, m with OGiveRadio, Some se => fun _ => sends_one datas se | _, _ => fun _ => True end.
Notation mesh_follows := (follows mesh_ok (open_after TMesh)).

(** The transactions so far are [l], if none failed. *)
Definition grown (l : list (list Z)) (m : option Section_) : Prop :=
  ∃ se, m = Some se ∧ sublist (se_spi se) l ∧ (se_timeout se = false → se_spi se = l).

Lemma grown_spi l se tx r : sublist (se_spi se) l → (se_timeout se = false → se_spi se = l) →
  grown (l ++ [tx]) (Some (note_spi (OSpi tx) r se)).
Proof.
  intros Hs He. exists (note_spi (OSpi tx) r se). split; [ done | ]. destruct r; cbn [note_spi se_spi se_timeout].
  - split; [ by apply sublist_app | intros H; by rewrite (He H) ].
  - split; [ by apply sublist_inserts_r | done ].
Qed.

Lemma mesh_spi_ok m tx r : mesh_ok m (OSpi tx) r.
Proof. done. Qed.

Lemma mesh_busy m : mesh_follows m wait_busy (fun m' _ => m' = m).
Proof. apply follows_busy; [ intros b; split; [ done | by destruct m ] | done ]. Qed.

Lemma mesh_spi m tx (f : () → Prog ()) l : f = (fun _ => _ ← call (OSpi tx); Ret ()) →
  grown l m → mesh_follows m (and_then wait_busy f) (fun m' _ => grown (l ++ [tx]) m').
Proof.
  intros -> (se & -> & Hs & He). eapply follows_then; [ apply mesh_busy | ]. intros m' [] ->. apply follows_bind, follows_call. intros r. split; [ done | ].
  cbn [follows]. by apply grown_spi.
Qed.

Lemma mesh_write m cmd params l : grown l m →
  mesh_follows m (write_command cmd params) (fun m' _ => grown (l ++ [cmd :: params]) m').
Proof. by apply mesh_spi. Qed.

Lemma mesh_write_buffer m offset data l : grown l m →
  mesh_follows m (write_buffer offset data) (fun m' _ => grown (l ++ [CMD_WRITE_BUFFER :: offset :: data]) m').
Proof. by apply mesh_spi. Qed.

(** Outside a section anything but the mutex leaves it so. *)
Lemma mesh_out_write cmd params : mesh_follows None (write_command cmd params) (fun m _ => m = None).
Proof.
  eapply follows_then; [ apply mesh_busy | ]. intros m [] ->.
  apply follows_bind, follows_call. by intros r.
Qed.

Lemma mesh_set_pin m pin level : mesh_follows m (set_pin pin level) (fun m' _ => m' = m).
Proof. destruct pin; [ | done ]. apply follows_call. intros r. split; [ done | by destruct m ]. Qed.

Lemma mesh_rf_rx t : mesh_follows None (set_rf_switch_rx t) (fun m _ => m = None).
Proof. eapply follows_then; [ apply mesh_set_pin | ]. intros m [] ->. apply mesh_set_pin. Qed.

Lemma mesh_rf_tx t m : mesh_follows m (set_rf_switch_tx t) (fun m' _ => m' = m).
Proof. eapply follows_then; [ apply mesh_set_pin | ]. intros ? [] ->. apply mesh_set_pin. Qed.

Ltac out := first [ apply mesh_out_write | apply mesh_rf_rx ].
Ltac out_then := eapply follows_then; [ out | intros ? [] -> ].

Lemma mesh_enter_rx t : mesh_follows None (enter_rx_continuous t) (fun m _ => m = None).
Proof. unfold enter_rx_continuous, set_packet_params. do 4 out_then. out. Qed.

Lemma mesh_configure t freq sf bw : mesh_follows None (configure t freq sf bw) (fun m _ => m = None).
Proof.
  unfold configure. destruct (negb _); [ done | ].
  unfold set_frequency, set_modulation_params. do 3 out_then. apply mesh_enter_rx.
Qed.

Lemma mesh_set_sf t sf : mesh_follows None (set_spreading_factor t sf) (fun m _ => m = None).
Proof.
  unfold set_spreading_factor. destruct (negb _); [ done | ]. cbv zeta. destruct (_ =? _); [ done | ].
  eapply follows_then; [ apply mesh_configure | ]. by intros ? [] ->.
Qed.

Lemma mesh_send t data : data ∈ datas → mesh_follows None (send_raw t data) (fun m _ => m = None).
Proof.
  intros Hd. unfold send_raw. destruct (negb _); [ done | ]. destruct (_ <? _); [ done | ].
  apply follows_bind, follows_call. intros [|]; (split; [ done | ]); cbn [negb]; [ | done ].
  assert (grown [] (open_after TMesh None OTakeRadio true)) as H0 by (eexists; by split_and!).
  unfold set_packet_params.
  eapply follows_then; [ by apply mesh_write | intros m1 [] H1 ].
  eapply follows_then; [ by apply mesh_write | intros m2 [] H2 ].
  eapply follows_then; [ by apply mesh_write_buffer | intros m3 [] H3 ].
  eapply follows_then; [ by apply mesh_write | intros m4 [] H4 ].
  eapply follows_then; [ by apply mesh_write | intros m5 [] H5 ].
  apply follows_bind, follows_call. intros d. split; [ done | ].
  replace (open_after TMesh m5 (OTakeDone false) d) with m5 by by destruct m5.
  eapply follows_then; [ apply mesh_rf_tx | intros ? [] -> ].
  eapply follows_then; [ by apply mesh_write | intros m6 [] H6 ].
  apply follows_bind, follows_call. intros []. destruct H6 as (se & -> & Hs & He).
  split; [ by exists data | ]. cbn [open_after].
  apply follows_bind, follows_call. intros got. split; [ done | ]. cbn [open_after note_spi fmap option_fmap option_map].
  destruct got; cbn [negb].
  - eapply follows_then; [ apply mesh_enter_rx | ]. by intros ? [] ->.
  - out_then. eapply follows_then; [ apply mesh_enter_rx | ]. by intros ? [] ->.
Qed.

Lemma mesh_calls_follow cs : (∀ data, CallSend data ∈ cs → data ∈ datas) → ∀ t,
  mesh_follows None (mesh_calls t cs) (fun _ _ => True).
Proof.
  induction cs as [|c cs IH]; intros Hd t; [ done | ].
  assert (∀ t, mesh_follows None (mesh_calls t cs) (fun _ _ => True)) as IH'.
  { apply IH. intros data Hc. apply Hd. by right. }
  destruct c as [data|sf|f sf bw]; cbn [mesh_calls].
  - eapply follows_then; [ apply mesh_send, Hd; by left | ]. by intros ? ? ->.
  - eapply follows_then; [ apply mesh_set_sf | ]. by intros ? ? ->.
  - eapply follows_then; [ apply mesh_configure | ]. by intros ? ? ->.
Qed.

End mesh.

(** ** The receive task

    The monitor's state says whether the task holds the mutex. *)

Definition rx_ok (held : bool) (o : Op) : answer o → Prop :=
  match o with OSpi _ => fun _ => held = true | _ => fun _ => True end.
Definition rx_next (held : bool) (o : Op) : answer o → bool :=
  match o with
  | OTakeRadio => fun b => if (b : bool) then true else held
  | OGiveRadio => fun _ => false
  | _ => fun _ => held
  end.
Notation rx_follows := (follows rx_ok rx_next).

Lemma rx_busy : rx_follows true wait_busy (fun held _ => held = true).
Proof. by apply follows_busy. Qed.

Lemma rx_write cmd params : rx_follows true (write_command cmd params) (fun held _ => held = true).
Proof. eapply follows_then; [ apply rx_busy | ]. intros ? [] ->. by apply follows_bind, follows_call. Qed.

Lemma rx_read tx skip len : rx_follows true (read_spi tx skip len) (fun held _ => held = true).
Proof. eapply follows_then; [ apply rx_busy | ]. intros ? [] ->. by apply follows_bind, follows_call. Qed.

Lemma rx_filled held r len : rx_follows held (filled r len) (fun held' _ => held' = held).
Proof. by destruct r; [ | apply follows_call ]. Qed.

Lemma rx_give : rx_follows true (call OGiveRadio) (fun held _ => held = false).
Proof. by apply follows_call. Qed.

Lemma rx_done_follows : rx_follows true rx_done (fun held _ => held = false).
Proof.
  unfold rx_done. eapply follows_then; [ apply rx_read | intros ? r -> ].
  eapply follows_then; [ apply rx_filled | intros ? st -> ].
  apply follows_bind, follows_call. intros [i|]; (split; [ done | ]); cbn [rx_next]; [ | apply rx_give ].
  eapply (follows_then _ _ _ _ (fun held _ => held = true)).
  { destruct (_ && _); [ apply rx_read | done ]. }
  intros ? d ->. eapply follows_then; [ apply rx_read | intros ? r2 -> ].
  eapply follows_then; [ apply rx_filled | intros ? st2 -> ].
  eapply follows_then; [ apply rx_give | intros ? ? -> ]. by apply follows_call.
Qed.

Lemma rx_turn_follows : rx_follows false rx_turn (fun held _ => held = false).
Proof.
  unfold rx_turn. apply follows_bind, follows_call. intros [|]; (split; [ done | ]); cbn [negb]; [ | done ].
  apply follows_bind, follows_call. intros [|]; (split; [ done | ]); cbn [negb rx_next]; [ | done ].
  eapply follows_then; [ apply rx_read | intros ? r -> ].
  eapply follows_then; [ apply rx_filled | intros ? irq -> ]. cbv zeta.
  eapply follows_then; [ apply rx_write | intros ? [] -> ].
  destruct (negb _).
  { eapply follows_then; [ apply rx_give | intros ? ? -> ]. by apply follows_call. }
  destruct (negb _); [ | apply rx_give ].
  destruct (negb _); [ apply rx_give | apply rx_done_follows ].
Qed.

(** ** Together *)

Record sys_inv (datas : list (list Z)) (cur : option Section_) (held : bool) (s : Sys) : Prop := {
  si_mesh : follows (mesh_ok datas) (open_after TMesh) cur (sy_mesh s) (fun _ _ => True);
  si_rx : rx_follows held (sy_rx s) (fun held _ => held = false);
  si_held : held = true → sy_owner s = Some TRx;
  si_cur : is_Some cur → sy_owner s = Some TMesh
}.

Lemma mesh_step_inv datas cur held owner o k rx r : sys_inv datas cur held (mk_sys owner (Vis o k) rx) →
  allowed owner o r →
  sys_inv datas (open_after TMesh cur o r) held (mk_sys (owner_after TMesh owner o r) (k r) rx) ∧
  (∀ se, o = OGiveRadio → cur = Some se → sends_one datas se).
Proof.
  intros [Hm Hr Hh Hc] Ha. cbn in Hm, Hr, Hh, Hc. destruct (Hm r) as [Hok Hk]. split.
  - constructor; cbn [sy_mesh sy_rx sy_owner]; [ done | done | | ].
    + intros H. specialize (Hh H). subst owner. destruct o; try done. destruct r; [ | done ].
      by specialize (Ha eq_refl).
    + destruct o; cbn; rewrite ?fmap_is_Some; try done. by destruct r.
  - intros se -> ->. done.
Qed.

Lemma rx_step_inv datas cur held owner mesh o k r : sys_inv datas cur held (mk_sys owner mesh (Vis o k)) →
  allowed owner o r →
  open_after TRx cur o r = cur ∧
  sys_inv datas cur (rx_next held o r) (mk_sys (owner_after TRx owner o r) mesh (k r)).
Proof.
  intros [Hm Hr Hh Hc] Ha. cbn in Hm, Hr, Hh, Hc. destruct (Hr r) as [Hok Hk].
  assert (held = true → cur = None) as Hex.
  { intros H. destruct cur; [ | done ]. specialize (Hc ltac:(eauto)). rewrite (Hh H) in Hc. done. }
  split.
  - destruct o; cbn; try by destruct cur. by rewrite Hex.
  - constructor; cbn [sy_mesh sy_rx sy_owner]; [ done | done | | ].
    + destruct o; try done. by destruct r.
    + intros H. specialize (Hc H). subst owner. destruct o; try done. destruct r; [ | done ].
      by specialize (Ha eq_refl).
Qed.

Lemma steps_sections datas s tr s' : sys_steps s tr s' → ∀ cur held, sys_inv datas cur held s →
  Forall (sends_one datas) (sections cur tr).
Proof.
  induction 1 as [s|s1 tr1 s2 tr2 s3 Hstep _ IH]; intros cur held Hi; [ constructor | ].
  destruct Hstep as [owner o k rx r Ha|owner mesh o k r Ha|owner mesh]; cbn [app].
  - destruct (mesh_step_inv _ _ _ _ _ _ _ _ Hi Ha) as [Hi' Hg]. specialize (IH _ _ Hi').
    destruct o; try exact IH. destruct cur as [se|]; [ | exact IH ].
    constructor; [ by apply Hg | exact IH ].
  - destruct (rx_step_inv _ _ _ _ _ _ _ _ Hi Ha) as [E Hi']. specialize (IH _ _ Hi').
    rewrite <- E in IH at 1. destruct o; exact IH.
  - apply (IH cur false). destruct Hi as [Hm Hr Hh Hc]. cbn in *. subst held.
    constructor; try done. apply rx_turn_follows.
Qed.

(** C10: the radio mutex makes every transmission atomic: whatever the mesh
    task asks of the transport, whatever the radio, the bus and the
    semaphores answer and however the two tasks interleave, the SPI
    transactions of both tasks between the moment [send_raw] obtains the
    mutex and the moment it gives it back are exactly the six of the
    transmission of one of the payloads to send, in order, less those the bus
    itself refused: no transaction of the receive task falls in between. *)
Theorem transmission_atomic t cs tr s :
  sys_steps (lora_start t cs) tr s →
  Forall (sends_one (omap (fun c => match c with CallSend data => Some data | _ => None end) cs))
    (sections None tr).
Proof.
  intros H. eapply (steps_sections _ _ _ _ H None false). constructor; cbn; [ | done | done | by intros [] ].
  apply mesh_calls_follow. intros data Hc. apply list_elem_of_omap. by exists (CallSend data).
Qed.

(** ** A schedule, executed *)

Definition pick (ans : ∀ o, answer o) (owner : option Task) (o : Op) : answer o :=
  match o with
  | OTakeRadio => bool_decide (owner = None)
  | o => ans o
  end.

Definition exec_step (ans : ∀ o, answer o) (task : Task) (s : Sys) : list Event * Sys :=
  match task, s with
  | TMesh, mk_sys owner (Vis o k) rx =>
      let r := pick ans owner o in
      ([mk_ev TMesh o r], mk_sys (owner_after TMesh owner o r) (k r) rx)
  | TRx, mk_sys owner mesh (Vis o k) =>
      let r := pick ans owner o in
      ([mk_ev TRx o r], mk_sys (owner_after TRx owner o r) mesh (k r))
  | TRx, mk_sys owner mesh (Ret ()) => ([], mk_sys owner mesh rx_turn)
  | _, _ => ([], s)
  end.

Fixpoint exec (ans : ∀ o, answer o) (sched : list Task) (s : Sys) : list Event * Sys :=
  match sched with
  | [] => ([], s)
  | task :: sched =>
      let '(tr1, s) := exec_step ans task s in
      let '(tr2, s) := exec ans sched s in
      (tr1 ++ tr2, s)
  end.

Lemma pick_allowed ans owner o : allowed owner o (pick ans owner o).
Proof. destruct o; try done. cbn. by destruct owner. Qed.

Lemma exec_step_ok ans task s :
  sys_step s (exec_step ans task s).1 (exec_step ans task s).2 ∨ exec_step ans task s = ([], s).
Proof.
  destruct s as [owner [[]|o k] rx], task; cbn.
  1: by right.
  1, 3: destruct rx as [[]|o' k']; cbn; left; constructor; apply pick_allowed.
  left. constructor. apply pick_allowed.
Qed.

Lemma exec_ok ans sched : ∀ s, sys_steps s (exec ans sched s).1 (exec ans sched s).2.
Proof.
  induction sched as [|task sched IH]; intros s; cbn [exec]; [ constructor | ].
  destruct (exec_step_ok ans task s) as [Hs|E].
  - destruct (exec_step ans task s) as [tr1 s1]. specialize (IH s1).
    destruct (exec ans sched s1) as [tr2 s2]. by econstructor.
  - rewrite E. specialize (IH s). by destruct (exec ans sched s).
Qed.

(** ** A reception interrupted *)

(** The transactions of a history. *)
Definition transactions (tr : list Event) : list (Task * list Z) :=
  omap (fun ev => match ev_op ev with OSpi tx => Some (ev_task ev, tx) | _ => None end) tr.

(** A started LilyGo board, and a radio that reports a packet of 10 bytes. *)
Definition lora_demo : LoraTransport := mk_lora 8 (Some 21) (Some 10) true 7.
Definition demo_answer (o : Op) : answer o :=
  match o with
  | OSpi tx =>
      Some (if aget tx 0 =? CMD_GET_IRQ_STATUS then [0; 0; 0; IRQ_RX_DONE]
            else if aget tx 0 =? CMD_GET_RX_BUFFER_STATUS then [0; 0; 10; 0]
            else tx)
  | OBusy => false
  | OJunk n => replicate n 0
  | ODio1 | OTakeRadio | OTakeDone _ | OCreate _ => true
  | OAcquire => Some 0
  | OPin _ _ | OGiveRadio | OGiveDone | ODispatch _ _ _ _ | ODrop _ => ()
  end.

(** Changing the spreading factor does not take the radio mutex, so it can
    fall in the middle of a reception, which does: the receive task has asked
    where the packet lies in the radio's buffer, the mesh task puts the radio
    into standby, reconfigures it and starts receiving into the same buffer,
    and then the receive task reads the packet. *)
Theorem configure_interrupts_reception :
  ∃ tr s, sys_steps (lora_start lora_demo [CallSf 9]) tr s ∧
  transactions tr =
    [ (TRx, [CMD_GET_IRQ_STATUS; 0; 0; 0]);
      (TRx, [CMD_CLR_IRQ_STATUS; 0; IRQ_RX_DONE]);
      (TRx, [CMD_GET_RX_BUFFER_STATUS; 0; 0; 0]);
      (TMesh, [CMD_SET_STANDBY; STDBY_RC]);
      (TMesh, [CMD_SET_RF_FREQUENCY; 188; 118; 39]);
      (TMesh, [CMD_SET_MOD_PARAMS; LORA_SF9; LORA_BW_800; LORA_CR_4_5]);
      (TMesh, [CMD_SET_PACKET_PARAMS; LORA_PREAMBLE_12; LORA_HEADER_EXPLICIT; LORA_MAX_PACKET;
               LORA_CRC_ON; LORA_IQ_STD]);
      (TMesh, CMD_SET_DIO_IRQ_PARAMS :: irq_params 67);
      (TMesh, [CMD_CLR_IRQ_STATUS; 255; 255]);
      (TMesh, [CMD_SET_RX; 0; 255; 255]);
      (TRx, CMD_READ_BUFFER :: replicate 12 0);
      (TRx, CMD_GET_PACKET_STATUS :: replicate 6 0) ].
Proof.
  pose (sched := replicate 9 TRx ++ replicate 16 TMesh ++ replicate 6 TRx).
  exists (exec demo_answer sched (lora_start lora_demo [CallSf 9])).1,
         (exec demo_answer sched (lora_start lora_demo [CallSf 9])).2.
  split; [ apply exec_ok | vm_compute; reflexivity ].
Qed.

(** A transmission with the receive task waiting for its turn. *)
Lemma transmission_atomic_witness :
  let tr := (exec demo_answer (replicate 3 TMesh ++ replicate 9 TRx ++ replicate 22 TMesh ++ replicate 9 TRx)
               (lora_start lora_demo [CallSend [66; 7]; CallSf 8])).1 in
  se_spi <$> sections None tr = [transmission [66; 7]] ∧
  Forall (sends_one [[66; 7]]) (sections None tr).
Proof.
  cbv zeta. split; [ vm_compute; reflexivity | ].
  exact (transmission_atomic lora_demo [CallSend [66; 7]; CallSf 8] _ _ (exec_ok _ _ _)).
Defined.
