(* ===== verification/LoraRx.v ===== *)
(** * The receive task on the node (components/lora/lora_transport.cpp
    [rx_task_func])

    One turn of the task, run against a radio that behaves as documented, does
    to the node's pool and queues what [Reception.lora_receive] says. *)

From Stdlib Require Import ZArith Lia.
From stdpp Require Import base list numbers option.
From S2P Require Import Prelude.
From S2P Require Import Packet.
From S2P Require Import BufferPool.
From S2P Require Import Reception.
From S2P Require Import Lora.
Open Scope Z_scope.
Open Scope flp_scope.

(** The radio and what surrounds it. *)
Record Chip {X : Type} := mk_chip {
  ch_busy : X → bool * X;
  ch_spi : X → list Z → option (list Z) * X;
  ch_dio1 : X → bool * X;
  ch_pin : X → Z → bool → X;
  ch_done : X → bool → bool * X;
  ch_junk : X → nat → list Z;
  ch_create : X → Resource → bool * X;
  ch_drop : X → Resource → X
}.
Arguments Chip : clear implicits.
Arguments mk_chip {X}.

(** The node as the receive task sees it; [ln_free] is the radio mutex. *)
Record LoraNode {X : Type} := mk_node {
  ln_chip : X;
  ln_free : bool;
  ln_done : bool;
  ln_rx : RxPath
}.
Arguments LoraNode : clear implicits.
Arguments mk_node {X}.
#[export] Instance eta_LoraNode X : Eta (LoraNode X) := fun s =>
  mk_node (ln_chip s) (ln_free s) (ln_done s) (ln_rx s).

Section node.
Context {X : Type} (c : Chip X).
Implicit Types (s : LoraNode X) (x : X).

(** The answers of the node. *)
Definition node_call (o : Op) s : answer o * LoraNode X :=
  match o with
  | OBusy => let '(b, x) := ch_busy c (ln_chip s) in (b, s <| ln_chip := x |>)
  | OSpi tx => let '(r, x) := ch_spi c (ln_chip s) tx in (r, s <| ln_chip := x |>)
  | OJunk n => (ch_junk c (ln_chip s) n, s)
  | OPin pin level => ((), s <| ln_chip := ch_pin c (ln_chip s) pin level |>)
  | ODio1 => let '(b, x) := ch_dio1 c (ln_chip s) in (b, s <| ln_chip := x |>)
  | OTakeRadio => (ln_free s, s <| ln_free := false |>)
  | OGiveRadio => ((), s <| ln_free := true |>)
  | OTakeDone wait =>
      if ln_done s then (true, s <| ln_done := false |>)
      else let '(b, x) := ch_done c (ln_chip s) wait in (b, s <| ln_chip := x |>)
  | OGiveDone => ((), s <| ln_done := true |>)
  | OAcquire => let '(i, p) := acquire (rx_pool (ln_rx s)) in (i, s <| ln_rx ::= fun r => r <| rx_pool := p |> |>)
  | ODispatch i len data rssi => ((), s <| ln_rx ::= store_slab i len data rssi |>)
  | OCreate r => let '(b, x) := ch_create c (ln_chip s) r in (b, s <| ln_chip := x |>)
  | ODrop r => ((), s <| ln_chip := ch_drop c (ln_chip s) r |>)
  end.

Definition on_node {A} (p : Prog A) s : A * LoraNode X := run node_call p s.

Lemma on_node_then {A B} (p : Prog A) (f : A → Prog B) : ∀ s,
  on_node (and_then p f) s = on_node (f (on_node p s).1) (on_node p s).2.
Proof.
  unfold on_node. induction p as [a|o k IH]; intros s; cbn [run and_then]; [ done | ].
  destruct (node_call o s) as [r s1]. apply IH.
Qed.

Lemma on_node_call {B} o (f : answer o → Prog B) s :
  on_node (and_then (call o) f) s = on_node (f (node_call o s).1) (node_call o s).2.
Proof. unfold on_node. cbn [and_then call run]. by destruct (node_call o s). Qed.

(** ** A radio that has received a packet

    [P f] holds of the radio while its pending interrupt flags are [f] and the
    packet [data], with status byte [st0], is in its buffer at [start]. As the
    data sheet has it, DIO1 is high while a flag is pending, GetIrqStatus
    answers the flags and leaves them, ClrIrqStatus clears those of its mask,
    and the reads answer the packet. Nothing else is heard during the turn. *)
Record received (data : list Z) (start st0 : Z) (P : Z → X → Prop) : Prop := {
  rc_busy : ∀ f x, P f x → P f (ch_busy c x).2;
  rc_irq : ∀ f x, P f x → ∃ a b rest x',
    ch_spi c x [CMD_GET_IRQ_STATUS; 0; 0; 0] = (Some (a :: b :: Z.shiftr f 8 :: Z.land f 255 :: rest), x') ∧ P f x';
  rc_dio1 : ∀ f x, P f x → ∃ x', ch_dio1 c x = (negb (f =? 0), x') ∧ P f x';
  rc_clear : ∀ f x h l, P f x →
    P (Z.ldiff f (Z.lor (Z.shiftl h 8) l)) (ch_spi c x [CMD_CLR_IRQ_STATUS; h; l]).2;
  rc_where : ∀ f x, P f x → ∃ a b rest x',
    ch_spi c x [CMD_GET_RX_BUFFER_STATUS; 0; 0; 0] =
      (Some (a :: b :: Z.of_nat (length data) :: start :: rest), x') ∧ P f x';
  rc_data : ∀ f x, P f x → ∃ a b d rest x',
    ch_spi c x (CMD_READ_BUFFER :: start :: replicate (S (length data)) 0) =
      (Some (a :: b :: d :: data ++ rest), x') ∧ P f x';
  rc_status : ∀ f x, P f x → ∃ a b rest x',
    ch_spi c x (CMD_GET_PACKET_STATUS :: replicate 6 0) = (Some (a :: b :: st0 :: rest), x') ∧ P f x'
}.

Context (data : list Z) (start st0 : Z) (P : Z → X → Prop).
Hypothesis (HP : received data start st0 P).

(** The node is as it was, but for the radio, which still holds the packet and
    the flags [f]. *)
Definition same (f : Z) s s' : Prop := ∃ x, P f x ∧ s' = s <| ln_chip := x |>.

Lemma upd_slab_ext i f g p : (∀ sl, f sl = g sl) → upd_slab i f p = upd_slab i g p.
Proof.
  intros H. unfold upd_slab. red_upd. f_equal. destruct (bp_slabs p); [ | done ]. cbn. by rewrite H.
Qed.

Lemma irq_bytes z : Z.lor (Z.shiftl (Z.shiftr z 8) 8) (Z.land z 255) = z.
Proof.
  change 255 with (Z.ones 8). rewrite <- Z.ldiff_ones_r by lia. apply Z.lor_ldiff_and.
Qed.

Lemma same_trans f s1 s2 s3 : same f s1 s2 → same f s2 s3 → same f s1 s3.
Proof. intros (x & _ & ->) (y & Hy & ->). by exists y. Qed.
Lemma same_P f s s' : same f s s' → P f (ln_chip s').
Proof. by intros (x & Hx & ->). Qed.

Lemma on_node_busy f s : P f (ln_chip s) → same f s (on_node wait_busy s).2.
Proof.
  unfold wait_busy. revert s. generalize BUSY_POLL_MAX_ITER as n.
  induction n as [|n IH]; intros s Hs; cbn [poll_busy].
  - exists (ln_chip s). by destruct s.
  - rewrite on_node_call. cbn [node_call].
    pose proof (rc_busy _ _ _ _ HP _ _ Hs) as Hb. destruct (ch_busy c (ln_chip s)) as [b x]. cbn [fst snd] in *.
    assert (same f s (s <| ln_chip := x |>)) as Hx by by exists x.
    destruct b; [ | exact Hx ]. eapply same_trans; [ exact Hx | by apply IH ].
Qed.

(** A transaction, and what it answers. *)
Lemma on_node_spi {A} f f' s tx (k : option (list Z) → A) (Q : option (list Z) → Prop) : P f (ln_chip s) →
  (∀ x, P f x → Q (ch_spi c x tx).1 ∧ P f' (ch_spi c x tx).2) →
  let r := on_node (wait_busy;; rx ← call (OSpi tx); Ret (k rx)) s in
  same f' s r.2 ∧ ∃ o, Q o ∧ r.1 = k o.
Proof.
  intros Hs Hq. cbv zeta. rewrite on_node_then. pose proof (on_node_busy f s Hs) as Hb.
  destruct (on_node wait_busy s) as [[] s1]. cbn [fst snd] in *. specialize (Hq _ (same_P _ _ _ Hb)).
  rewrite on_node_call. cbn [node_call].
  destruct (ch_spi c (ln_chip s1) tx) as [o x]. cbn [fst snd] in *. destruct Hq as [Ho Hx]. split.
  - destruct Hb as (y & _ & ->). by exists x.
  - by exists o.
Qed.

Lemma on_node_write f f' s cmd params :
  P f (ln_chip s) → (∀ x, P f x → P f' (ch_spi c x (cmd :: params)).2) →
  same f' s (on_node (write_command cmd params) s).2.
Proof.
  intros Hs Hx. destruct (on_node_spi f f' s (cmd :: params) (fun _ => ()) (fun _ => True) Hs) as [H _]; [ | exact H ].
  intros x Px. split; [ done | by apply Hx ].
Qed.

(** A read whose answer is known, into an array. *)
Lemma on_node_read f s tx skip len (Q : list Z → Prop) : P f (ln_chip s) →
  (∀ x, P f x → ∃ r x', ch_spi c x tx = (Some r, x') ∧ P f x' ∧ Q (take len (drop skip r))) →
  let r := on_node (read_spi tx skip len) s in ∃ x bs, P f x ∧ r = (Some bs, s <| ln_chip := x |>) ∧ Q bs.
Proof.
  intros Hs Hx. cbv zeta.
  destruct (on_node_spi f f s tx (fun rx => (fun bs => take len (drop skip bs)) <$> rx)
              (fun o => ∃ r, o = Some r ∧ Q (take len (drop skip r))) Hs) as ((y & Hy & H) & o & (r & -> & Hq) & E).
  - intros x Px. destruct (Hx x Px) as (r & x' & -> & Px' & Hq). cbn. eauto.
  - exists y, (take len (drop skip r)). split_and!; [ done | | done ].
    etransitivity; [ apply surjective_pairing | ]. by f_equal.
Qed.

(** ** The turn *)

Lemma rx_done_ok f s : P f (ln_chip s) → Z.of_nat (length data) <= LORA_MAX_PACKET →
  ∃ x, P f x ∧ on_node rx_done s =
    ((), s <| ln_chip := x |> <| ln_free := true |> <| ln_rx ::= lora_receive data st0 |>).
Proof.
  intros Hs Hlen. unfold rx_done, read_command. rewrite on_node_then.
  destruct (on_node_read f s (CMD_GET_RX_BUFFER_STATUS :: replicate 3 0) 2 2
              (eq [Z.of_nat (length data); start]) Hs) as (x1 & ? & Hx1 & -> & <-).
  { intros x Px. destruct (rc_where _ _ _ _ HP f x Px) as (a & b & rest & x' & E & Px').
    eexists _, x'. split; [ exact E | done ]. }
  cbn [fst snd filled and_then]. rewrite on_node_call. cbn [node_call].
  unfold lora_receive, store_frame. change (ln_rx (s <| ln_chip := x1 |>)) with (ln_rx s).
  destruct (acquire (rx_pool (ln_rx s))) as [[i|] p] eqn:Ea; cbn [fst snd].
  2:{ exists x1. split; [ done | ]. unfold on_node. cbn. red_upd. cbn. by rewrite Ea. }
  set (s1 := s <| ln_chip := x1 |> <| ln_rx ::= _ |>).
  assert (P f (ln_chip s1)) as Hs1 by exact Hx1.
  change (aget [Z.of_nat (length data); start] 0) with (Z.of_nat (length data)).
  change (aget [Z.of_nat (length data); start] 1) with start.
  assert (∃ x2 d, P f x2 ∧ on_node
      (if (0 <? Z.of_nat (length data)) && (Z.of_nat (length data) <=? LORA_MAX_PACKET)
       then read_buffer start (Z.to_nat (Z.of_nat (length data))) else Ret None) s1 =
      (d, s1 <| ln_chip := x2 |>) ∧
      ∀ buf, match d with Some bs => memcpy buf 0 bs | None => buf end = memcpy buf 0 data)
    as (x2 & d & Hx2 & E2 & Hd).
  { destruct (Z.ltb_spec 0 (Z.of_nat (length data))); cbn [andb].
    - destruct (Z.leb_spec (Z.of_nat (length data)) LORA_MAX_PACKET); [ | lia ].
      rewrite Nat2Z.id. unfold read_buffer.
      destruct (on_node_read f s1 (CMD_READ_BUFFER :: start :: replicate (S (length data)) 0) 3 (length data)
                  (eq data) Hs1) as (x2 & ? & Hx2 & -> & <-); [ | by exists x2, (Some data) ].
      intros x Px. destruct (rc_data _ _ _ _ HP f x Px) as (a & b & d & rest & x' & E & Px').
      eexists _, x'. split_and!; [ exact E | done | symmetry; apply take_app_length ].
    - exists x1, None. split_and!; [ done | done | ]. intros buf.
      destruct data; [ by rewrite memcpy_nil | cbn in *; lia ]. }
  rewrite on_node_then, E2. cbn [fst snd]. rewrite on_node_then. clear E2.
  set (s2 := s1 <| ln_chip := x2 |>). assert (P f (ln_chip s2)) as Hs2 by exact Hx2.
  destruct (on_node_read f s2 (CMD_GET_PACKET_STATUS :: replicate 6 0) 2 5
              (fun l => aget l 0 = st0) Hs2) as (x3 & l & Hx3 & -> & Hl).
  { intros x Px. destruct (rc_status _ _ _ _ HP f x Px) as (a & b & rest & x' & E & Px').
    eexists _, x'. split_and!; [ exact E | done | done ]. }
  cbn [fst snd filled and_then]. rewrite Hl. exists x3. split; [ done | ]. unfold on_node. cbn. subst s1 s2. red_upd. cbn.
  rewrite Ea. unfold store_slab, fill_slab, packet_rssi. red_upd. cbn.
  do 4 f_equal. apply upd_slab_ext. intros sl. f_equal. exact (Hd (bs_data sl)).
Qed.

(** C11: one turn of the receive task, when the radio has raised its interrupt
    and the mutex is free, reads the flags, clears them at the radio (none is
    pending afterwards) and gives the mutex back; a finished transmission wakes
    the sender; a packet without a CRC error goes into a slab and a queue of
    the node exactly as [lora_receive] says, whatever its length; anything else
    changes nothing. *)
Theorem rx_turn_delivers irq s : P irq (ln_chip s) → irq ≠ 0 → ln_free s = true →
  Z.of_nat (length data) <= LORA_MAX_PACKET →
  let s' := (on_node rx_turn s).2 in
  P 0 (ln_chip s') ∧ ln_free s' = true ∧
  ln_done s' = (ln_done s || Z.testbit irq 0) ∧
  ln_rx s' = (if negb (Z.testbit irq 0) && Z.testbit irq 1 && negb (Z.testbit irq 6)
              then lora_receive data st0 (ln_rx s) else ln_rx s).
Proof.
  intros Hs Hirq Hfree Hlen. cbv zeta. unfold rx_turn. rewrite on_node_call. cbn [node_call].
  destruct (rc_dio1 _ _ _ _ HP _ _ Hs) as (x0 & -> & Hx0). rewrite (proj2 (Z.eqb_neq irq 0) Hirq). cbn [fst snd negb].
  rewrite on_node_call. cbn [node_call]. change (ln_free (s <| ln_chip := x0 |>)) with (ln_free s).
  rewrite Hfree. cbn [fst snd negb]. unfold read_command. rewrite on_node_then.
  set (s1 := s <| ln_chip := x0 |> <| ln_free := false |>). assert (P irq (ln_chip s1)) as Hs1 by exact Hx0.
  destruct (on_node_read irq s1 (CMD_GET_IRQ_STATUS :: replicate 3 0) 2 2
              (eq [Z.shiftr irq 8; Z.land irq 255]) Hs1) as (x2 & ? & Hx2 & -> & <-).
  { intros x Px. destruct (rc_irq _ _ _ _ HP irq x Px) as (a & b & rest & x' & E & Px').
    eexists _, x'. split; [ exact E | done ]. }
  cbn [fst snd filled and_then].
  change (aget [Z.shiftr irq 8; Z.land irq 255] 0) with (Z.shiftr irq 8).
  change (aget [Z.shiftr irq 8; Z.land irq 255] 1) with (Z.land irq 255).
  rewrite irq_bytes. rewrite on_node_then. set (s2 := s1 <| ln_chip := x2 |>).
  assert (P irq (ln_chip s2)) as Hs2 by exact Hx2.
  destruct (on_node_write irq 0 s2 CMD_CLR_IRQ_STATUS [Z.shiftr irq 8; Z.land irq 255] Hs2) as (x3 & Hx3 & ->).
  { intros x Px. pose proof (rc_clear _ _ _ _ HP irq x (Z.shiftr irq 8) (Z.land irq 255) Px) as H.
    by rewrite irq_bytes, Z.ldiff_diag in H. }
  set (s3 := s2 <| ln_chip := x3 |>). assert (P 0 (ln_chip s3)) as Hs3 by exact Hx3.
  change IRQ_TX_DONE with (2 ^ 0). change IRQ_RX_DONE with (2 ^ 1). change IRQ_CRC_ERROR with (2 ^ 6).
  rewrite !flag_testbit by lia.
  destruct (Z.testbit irq 0); cbn [negb andb]; [ by rewrite orb_true_r | rewrite orb_false_r ].
  destruct (Z.testbit irq 1); cbn [andb]; [ | done ].
  destruct (Z.testbit irq 6); cbn [negb]; [ done | ].
  by destruct (rx_done_ok 0 s3 Hs3 Hlen) as (x4 & Hx4 & ->).
Qed.

End node.

(** A radio that is its pending flags, with an acknowledgement of three bytes
    at offset 4 of its buffer, heard at -40 dBm. *)
Definition demo_chip : Chip Z :=
  mk_chip (fun f => (false, f))
    (fun f tx =>
       if aget tx 0 =? CMD_CLR_IRQ_STATUS then (Some [0; 0; 0], Z.ldiff f (Z.lor (Z.shiftl (aget tx 1) 8) (aget tx 2)))
       else
         (Some (if aget tx 0 =? CMD_GET_IRQ_STATUS then [0; 0; Z.shiftr f 8; Z.land f 255; 0]
                else if aget tx 0 =? CMD_GET_RX_BUFFER_STATUS then [0; 0; 3; 4; 0]
                else if aget tx 0 =? CMD_READ_BUFFER then [0; 0; 0; 66; 8; 9]
                else [0; 0; 80; 0; 0; 0; 0]), f))
    (fun f => (negb (f =? 0), f)) (fun f _ _ => f) (fun f _ => (false, f)) (fun _ n => replicate n 170)
    (fun f _ => (true, f)) (fun f _ => f).

Definition demo_node : LoraNode Z :=
  mk_node IRQ_RX_DONE true false (mk_rx (BufferPool.init (fun _ => replicate 1470 0) pool_new) [] []).

Lemma rx_turn_delivers_witness :
  let s' := (on_node demo_chip rx_turn demo_node).2 in
  ln_chip s' = 0 ∧ ln_free s' = true ∧ ln_done s' = false ∧
  ln_rx s' = lora_receive [66; 8; 9] 80 (ln_rx demo_node) ∧
  length (rx_hi (lora_receive [66; 8; 9] 80 (ln_rx demo_node))) = 1%nat.
Proof.
  cbv zeta.
  destruct (rx_turn_delivers demo_chip [66; 8; 9] 4 80 (fun f x => x = f)) with IRQ_RX_DONE demo_node
    as (H0 & H1 & H2 & H3); [ | done | done | done | done | ].
  - constructor; intros f x; try intros h l; intros ->; try done; cbn.
    all: first [ by exists 0, 0, [0], f | by exists 0, 0, 0, [], f | by exists 0, 0, [0; 0; 0; 0], f | by exists f ].
  - split_and!; [ exact H0 | exact H1 | exact H2 | exact H3 | vm_compute; reflexivity ].
Defined.
