(* ===== verification/Display.v ===== *)
(** * The OLED display (components/display/oled_display.cpp)

    The three screens and what each [update] writes on them. LVGL, the panel
    driver and the GPIO driver are a trace of calls: an operation returns the
    calls it makes, in the code's order. A widget is named by the member that
    points to it; the separator lines, which no member keeps, by a number. *)

From Stdlib Require Import ZArith Lia Ascii String.
From stdpp Require Import base list numbers option sets.
From S2P Require Import Prelude.
From S2P Require Import CString.
Open Scope Z_scope.
Open Scope flp_scope.

Definition OLED_WIDTH : Z := 128.
Definition OLED_HEIGHT : Z := 64.
Definition LVGL_TICK_MS : Z := 5.
Definition LVGL_PALETTE_SIZE : Z := 8.
Definition SPLASH_DURATION_US : Z := 2500000.
Definition TRANSFER_HOLD_US : Z := 3000000.
Definition FLP_VERSION : list Z := str "1.0.2".

(** ** Data *)

(** A null [const char *] is [None]. *)
Record NodeStatus := mk_node_status {
  ns_node_addr : Z;
  ns_wifi_connected : bool;
  ns_espnow_peers : Z;
  ns_neighbor_count : Z;
  ns_control_hops : Z;              (* control_hops_to_internet *)
  ns_data_hops : Z;                 (* data_hops_to_internet *)
  ns_transfer_active : bool;
  ns_filename : option (list Z);
  ns_transfer_pct : Z;
  ns_free_heap_kb : Z;
  ns_uptime_s : Z;
  ns_cloud_cmd_received : bool;
  ns_config_cmd_received : bool;
  ns_topic_msg_received : bool;
  ns_topic_msg : option (list Z)
}.
(** [NodeStatus status = {};] *)
Definition node_status_zero : NodeStatus :=
  mk_node_status 0 false 0 0 0 0 false None 0 0 0 false false false None.

Inductive Widget :=
  | scr_splash | splash_addr_label | splash_title_label | splash_version_label
  | scr_status | status_title_label | status_wifi_label | status_mesh_label
  | status_transfer_label | status_cmd_label | status_heap_label | status_uptime_label
  | scr_transfer | xfer_title_label | xfer_filename_label | xfer_pct_label | xfer_bar
  | xfer_mesh_label | xfer_heap_label
  | hline (k : nat).
#[export] Instance Widget_eq_dec : EqDecision Widget.
Proof. solve_decision. Defined.

Inductive Font := unscii_8 | unscii_16.
Inductive Color := black | white.
Inductive Part := MAIN | INDICATOR.
Inductive Align := ALIGN_CENTER | ALIGN_RIGHT.
Inductive LongMode := LONG_CLIP | LONG_SCROLL_CIRCULAR.
Inductive Slide := MOVE_TOP | MOVE_LEFT | MOVE_RIGHT.

Inductive StyleProp :=
  | text_font (f : Font) | text_color (c : Color) | text_align (a : Align)
  | bg_color (c : Color) | bg_opa_cover | pad_all (n : Z) | border_width (n : Z)
  | border_color (c : Color) | radius (n : Z) | opa_transp | line_color (c : Color)
  | line_width (n : Z).

Inductive LvCall :=
  | LvScreenCreate (w : Widget)                       (* lv_obj_create(nullptr) *)
  | LvLabelCreate (w parent : Widget)
  | LvBarCreate (w parent : Widget)
  | LvLineCreate (w parent : Widget) (points : list (Z * Z))
  | LvStyle (w : Widget) (p : StyleProp) (part : Part) (* lv_obj_set_style_* *)
  | LvRemoveScrollable (w : Widget)
  | LvPos (w : Widget) (x y : Z)
  | LvWidth (w : Widget) (n : Z)
  | LvSize (w : Widget) (x y : Z)
  | LvAlignCenter (w : Widget) (dx dy : Z)            (* lv_obj_align *)
  | LvLongMode (w : Widget) (m : LongMode)
  | LvText (w : Widget) (text : list Z)               (* lv_label_set_text[_static] *)
  | LvBarRange (w : Widget) (lo hi : Z)
  | LvBarValue (w : Widget) (v : Z) (anim : bool)
  | LvFadeIn (w : Widget) (duration_ms : Z)           (* the lv_anim_* calls *)
  | LvLoad (w : Widget)
  | LvLoadAnim (w : Widget) (dir : Slide) (time_ms : Z)
  | LvClean                                           (* lv_obj_clean(lv_screen_active()) *)
  | LvTimerHandler.

Inductive DisplayState := SPLASH | STATUS | TRANSFER.

Record OledDisplay := mk_oled {
  od_initialized : bool;
  od_state : DisplayState;
  od_splash_start_us : Z;
  od_splash_anim_started : bool;
  od_transfer_was_active : bool;
  od_show_complete : bool;
  od_transfer_done_us : Z;
  od_has_display : bool;            (* display_ is not null *)
  od_buf : list Z                   (* oled_buf_ *)
}.
#[export] Instance eta_OledDisplay : Eta OledDisplay := fun o =>
  mk_oled (od_initialized o) (od_state o) (od_splash_start_us o) (od_splash_anim_started o)
    (od_transfer_was_active o) (od_show_complete o) (od_transfer_done_us o) (od_has_display o)
    (od_buf o).

Definition OLED_BUF_SIZE : Z := OLED_WIDTH * OLED_HEIGHT / 8.
Definition oled_new : OledDisplay :=
  mk_oled false SPLASH 0 false false false 0 false (replicate (Z.to_nat OLED_BUF_SIZE) 0).

(** ** Building the screens *)

Definition strip_defaults (w : Widget) : list LvCall :=
  [ LvStyle w (bg_color black) MAIN; LvStyle w bg_opa_cover MAIN; LvStyle w (pad_all 0) MAIN;
    LvStyle w (border_width 0) MAIN; LvStyle w (radius 0) MAIN; LvRemoveScrollable w ].

Definition label8 (w parent : Widget) (x y : Z) : list LvCall :=
  [ LvLabelCreate w parent; LvStyle w (text_font unscii_8) MAIN;
    LvStyle w (text_color white) MAIN; LvPos w x y ].

Definition label8_center (w parent : Widget) (y : Z) : list LvCall :=
  label8 w parent 0 y ++ [ LvWidth w OLED_WIDTH; LvStyle w (text_align ALIGN_CENTER) MAIN ].

Definition add_hline (k : nat) (parent : Widget) (y : Z) : list LvCall :=
  [ LvLineCreate (hline k) parent [(0, 0); (127, 0)]; LvStyle (hline k) (line_color white) MAIN;
    LvStyle (hline k) (line_width 1) MAIN; LvPos (hline k) 0 y ].

(** The inverted title bar of the two information screens. *)
Definition title_bar (w parent : Widget) : list LvCall :=
  [ LvLabelCreate w parent; LvStyle w (text_font unscii_8) MAIN;
    LvStyle w (text_color black) MAIN; LvStyle w (bg_color white) MAIN;
    LvStyle w bg_opa_cover MAIN; LvLongMode w LONG_CLIP; LvWidth w OLED_WIDTH; LvPos w 0 0 ].

Definition create_splash_screen : list LvCall :=
  LvScreenCreate scr_splash :: strip_defaults scr_splash ++
  [ LvLabelCreate splash_addr_label scr_splash;
    LvStyle splash_addr_label (text_font unscii_16) MAIN;
    LvStyle splash_addr_label (text_color white) MAIN; LvWidth splash_addr_label OLED_WIDTH;
    LvStyle splash_addr_label (text_align ALIGN_CENTER) MAIN;
    LvAlignCenter splash_addr_label 0 (-8); LvStyle splash_addr_label opa_transp MAIN ] ++
  add_hline 0 scr_splash 42 ++
  label8_center splash_title_label scr_splash 46 ++
  [ LvText splash_title_label (str "Forest Link") ] ++
  label8_center splash_version_label scr_splash 56.

Definition create_status_screen : list LvCall :=
  LvScreenCreate scr_status :: strip_defaults scr_status ++
  title_bar status_title_label scr_status ++
  label8 status_wifi_label scr_status 1 11 ++
  add_hline 1 scr_status 20 ++
  label8 status_mesh_label scr_status 1 22 ++
  label8 status_transfer_label scr_status 1 32 ++
  label8 status_cmd_label scr_status 1 42 ++
  add_hline 2 scr_status 51 ++
  label8 status_heap_label scr_status 1 54 ++
  label8 status_uptime_label scr_status 0 54 ++
  [ LvWidth status_uptime_label (OLED_WIDTH - 2);
    LvStyle status_uptime_label (text_align ALIGN_RIGHT) MAIN ].

Definition create_transfer_screen : list LvCall :=
  LvScreenCreate scr_transfer :: strip_defaults scr_transfer ++
  title_bar xfer_title_label scr_transfer ++
  label8 xfer_filename_label scr_transfer 1 12 ++
  [ LvLongMode xfer_filename_label LONG_SCROLL_CIRCULAR;
    LvWidth xfer_filename_label (OLED_WIDTH - 2) ] ++
  add_hline 3 scr_transfer 21 ++
  [ LvLabelCreate xfer_pct_label scr_transfer;
    LvStyle xfer_pct_label (text_font unscii_16) MAIN;
    LvStyle xfer_pct_label (text_color white) MAIN; LvWidth xfer_pct_label OLED_WIDTH;
    LvStyle xfer_pct_label (text_align ALIGN_CENTER) MAIN; LvPos xfer_pct_label 0 24;
    LvBarCreate xfer_bar scr_transfer; LvSize xfer_bar (OLED_WIDTH - 6) 6; LvPos xfer_bar 3 43;
    LvBarRange xfer_bar 0 100;
    LvStyle xfer_bar (bg_color black) MAIN; LvStyle xfer_bar bg_opa_cover MAIN;
    LvStyle xfer_bar (border_color white) MAIN; LvStyle xfer_bar (border_width 1) MAIN;
    LvStyle xfer_bar (radius 0) MAIN; LvStyle xfer_bar (bg_color white) INDICATOR;
    LvStyle xfer_bar bg_opa_cover INDICATOR; LvStyle xfer_bar (radius 0) INDICATOR ] ++
  add_hline 4 scr_transfer 51 ++
  label8 xfer_mesh_label scr_transfer 1 54 ++
  label8 xfer_heap_label scr_transfer 0 54 ++
  [ LvWidth xfer_heap_label (OLED_WIDTH - 2);
    LvStyle xfer_heap_label (text_align ALIGN_RIGHT) MAIN ].

(** ** Texts *)

(** [snprintf] into [cap] bytes, the last of them the terminator. *)
Definition snprintf (cap : Z) (text : list Z) : list Z := take (Z.to_nat (cap - 1)) text.

(** [%3u] and [%02lu]: the number padded on the left to a minimal width. *)
Definition pad (width : nat) (c : Z) (text : list Z) : list Z :=
  replicate (width - length text) c ++ text.

Definition format_hops (cap hops : Z) : list Z :=
  if hops =? 255 then snprintf cap (str "--")
  else if hops >? 99 then snprintf cap (str "99")
  else snprintf cap (dec hops).

(** [relay]: [CONFIG_FLP_WIFI_DISABLED]. *)
Definition title_text (relay : bool) (s : NodeStatus) : list Z :=
  if relay then snprintf 17 (str "FLP-" ++ hex4 true (ns_node_addr s) ++ str "  RELAY")
  else snprintf 17 (str "FLP-" ++ hex4 true (ns_node_addr s) ++ str " GATEWAY").

Definition mesh_text (s : NodeStatus) : list Z :=
  let ctrl_hops := format_hops 3 (ns_control_hops s) in
  let data_hops := format_hops 3 (ns_data_hops s) in
  snprintf 17 (str "N" ++ dec (ns_neighbor_count s) ++ str " C" ++ ctrl_hops
               ++ str " D" ++ data_hops).

Definition heap_text (s : NodeStatus) : list Z :=
  snprintf 17 (dec (ns_free_heap_kb s) ++ str "kB").

Definition show_splash (s : NodeStatus) : list LvCall :=
  [ LvText splash_addr_label (snprintf 24 (hex4 true (ns_node_addr s)));
    LvText splash_version_label (snprintf 24 (str "Protocol v" ++ FLP_VERSION)) ].

Definition transfer_text (s : NodeStatus) : list Z :=
  match ns_transfer_active s, ns_filename s with
  | true, Some name =>
      snprintf 17 (take 8 name ++ str " " ++ pad 3 32 (dec (ns_transfer_pct s)) ++ str "%")
  | _, _ => snprintf 17 (str "Xfer: idle")
  end.

Definition cmd_text (s : NodeStatus) : list Z :=
  match ns_topic_msg_received s, ns_topic_msg s with
  | true, Some (c :: msg) => c :: msg
  | _, _ =>
      if ns_config_cmd_received s then str ">> CFG CMD"
      else if ns_cloud_cmd_received s then str ">> Cloud CMD"
      else []
  end.

Definition uptime_text (s : NodeStatus) : list Z :=
  let h := ns_uptime_s s / 3600 in
  let m := ns_uptime_s s mod 3600 / 60 in
  let sec := ns_uptime_s s mod 60 in
  snprintf 17 (pad 2 48 (dec h) ++ str ":" ++ pad 2 48 (dec m) ++ str ":" ++ pad 2 48 (dec sec)).

Definition show_status (relay : bool) (s : NodeStatus) : list LvCall :=
  [ LvText status_title_label (title_text relay s);
    LvText status_wifi_label
      (snprintf 17 ((if ns_wifi_connected s then str "W:OK" else str "W:--")
                    ++ str " Lo P:" ++ dec (ns_espnow_peers s)));
    LvText status_mesh_label (mesh_text s);
    LvText status_transfer_label (transfer_text s);
    LvText status_cmd_label (cmd_text s);
    LvText status_heap_label (heap_text s);
    LvText status_uptime_label (uptime_text s) ].

Definition show_transfer (relay : bool) (s : NodeStatus) (o : OledDisplay) : list LvCall :=
  [ LvText xfer_title_label (title_text relay s);
    LvText xfer_filename_label (default (str "unknown") (ns_filename s)) ] ++
  (if od_show_complete o
   then [ LvText xfer_pct_label (str "DONE"); LvBarValue xfer_bar 100 false ]
   else [ LvText xfer_pct_label (snprintf 17 (dec (ns_transfer_pct s) ++ str "%"));
          LvBarValue xfer_bar (ns_transfer_pct s) true ]) ++
  [ LvText xfer_mesh_label (mesh_text s); LvText xfer_heap_label (heap_text s) ].

Definition clear (o : OledDisplay) : list LvCall :=
  if od_has_display o then [ LvClean ] else [].

(** ** [update] *)

Definition update_splash (s : NodeStatus) (now : Z) (o : OledDisplay) : list LvCall * OledDisplay :=
  let fade := if od_splash_anim_started o then [] else [ LvFadeIn splash_addr_label 800 ] in
  let o := o <| od_splash_anim_started := true |> in
  if now - od_splash_start_us o >=? SPLASH_DURATION_US
  then (show_splash s ++ fade ++ [ LvLoadAnim scr_status MOVE_TOP 300 ],
        o <| od_state := STATUS |>)
  else (show_splash s ++ fade, o).

Definition update_status (relay : bool) (s : NodeStatus) (o : OledDisplay)
    : list LvCall * OledDisplay :=
  if ns_transfer_active s
  then (show_status relay s ++ [ LvLoadAnim scr_transfer MOVE_LEFT 200 ],
        o <| od_state := TRANSFER |>)
  else (show_status relay s, o).

Definition update_transfer (relay : bool) (s : NodeStatus) (now : Z) (o : OledDisplay)
    : list LvCall * OledDisplay :=
  let '(load, o) :=
    if ns_transfer_active s then ([], o <| od_transfer_was_active := true |>)
    else
      let o := if od_transfer_was_active o
               then o <| od_transfer_done_us := now |> <| od_transfer_was_active := false |>
                      <| od_show_complete := true |>
               else o in
      if now - od_transfer_done_us o >=? TRANSFER_HOLD_US
      then ([ LvLoadAnim scr_status MOVE_RIGHT 200 ],
            o <| od_state := STATUS |> <| od_show_complete := false |>)
      else ([], o) in
  (load ++ show_transfer relay s o, o).

Definition update (relay : bool) (s : NodeStatus) (now : Z) (o : OledDisplay)
    : list LvCall * OledDisplay :=
  if negb (od_initialized o) then ([], o)
  else
    let '(calls, o) :=
      match od_state o with
      | SPLASH => update_splash s now o
      | STATUS => update_status relay s o
      | TRANSFER => update_transfer relay s now o
      end in
    (calls ++ [ LvTimerHandler ], o).

(** ** [init] *)

Inductive DriverOp :=
  | GpioOutput (pin : Z) (open_drain pull_up : bool)
  | GpioLevel (pin level : Z)
  | GpioReset (pin : Z)
  | RomDelayUs (us : Z)
  | TaskDelayMs (ms : Z)
  | I2cNewMasterBus (sda scl glitch_ignore : Z)
  | NewPanelIo (addr hz : Z)
  | NewPanelSsd1306 (rst height : Z)
  | PanelReset
  | PanelDispOnOff (on : bool)
  | PanelInit
  | PanelMirror (x y : bool)
  | PanelDrawBitmap (x_start y_start x_end y_end : Z) (bits : list Z)
  | LvglInit
  | LvDisplayCreate (w h : Z)
  | LvColorFormatI1
  | CallocDrawBuf (spiram : bool) (size : Z)
  | LvPalette (index : Z) (c : Color)
  | LvSetBuffersFull (size : Z)
  | LvSetFlushCb
  | RegisterFlushReady
  | TimerCreate
  | TimerStartPeriodic (us : Z)
  | Ui (c : LvCall).

Definition I2C_HW_ADDR : Z := 60.
Definition I2C_FREQ_HZ : Z := 400 * 1000.
Definition DRAW_BUF_SIZE : Z := OLED_WIDTH * OLED_HEIGHT / 8 + LVGL_PALETTE_SIZE.

Definition hardware_reset (rst : Z) : list DriverOp :=
  if rst >=? 0 then
    [ GpioOutput rst false false; GpioLevel rst 1; TaskDelayMs 1; GpioLevel rst 0; TaskDelayMs 10;
      GpioLevel rst 1; TaskDelayMs 10 ]
  else [].

(** One clock pulse of the recovery loop. *)
Definition clock_out (scl : Z) : list DriverOp :=
  [ GpioLevel scl 1; RomDelayUs 5; GpioLevel scl 0; RomDelayUs 5 ].

Definition bus_recovery (sda scl : Z) : list DriverOp :=
  [ GpioOutput scl true true; GpioOutput sda true true; GpioLevel sda 1 ] ++
  concat (replicate 9 (clock_out scl)) ++
  [ GpioLevel sda 0; RomDelayUs 5; GpioLevel scl 1; RomDelayUs 5; GpioLevel sda 1; RomDelayUs 5;
    GpioReset scl; GpioReset sda ].

(** The rest of [init]: each call beside whether [ESP_ERROR_CHECK] or
    [assert] stops the program when it fails. [alloc] is whether the SPIRAM
    allocation succeeds. *)
Definition panel_setup (sda scl rst : Z) : list (DriverOp * bool) :=
  [ (I2cNewMasterBus sda scl 7, true); (NewPanelIo I2C_HW_ADDR I2C_FREQ_HZ, true);
    (NewPanelSsd1306 rst OLED_HEIGHT, true); (PanelReset, true); (PanelDispOnOff false, true);
    (TaskDelayMs 20, false); (PanelInit, true); (PanelDispOnOff true, true);
    (PanelMirror true true, true);
    (PanelDrawBitmap 0 0 OLED_WIDTH OLED_HEIGHT (replicate (Z.to_nat OLED_BUF_SIZE) 0), true) ].

Definition lvgl_setup (ok : DriverOp → bool) : list (DriverOp * bool) :=
  [ (LvglInit, false); (LvDisplayCreate OLED_WIDTH OLED_HEIGHT, false); (LvColorFormatI1, false) ] ++
  (if ok (CallocDrawBuf true DRAW_BUF_SIZE) then [ (CallocDrawBuf true DRAW_BUF_SIZE, false) ]
   else [ (CallocDrawBuf true DRAW_BUF_SIZE, false); (CallocDrawBuf false DRAW_BUF_SIZE, true) ]) ++
  [ (LvPalette 0 black, false); (LvPalette 1 white, false);
    (LvSetBuffersFull DRAW_BUF_SIZE, false); (LvSetFlushCb, false); (RegisterFlushReady, false);
    (TimerCreate, true); (TimerStartPeriodic (LVGL_TICK_MS * 1000), true) ].

Definition build_screens : list LvCall :=
  create_splash_screen ++ create_status_screen ++ create_transfer_screen ++ [ LvLoad scr_splash ].

(** [None]: the program was stopped. *)
Definition init (ok : DriverOp → bool) (sda scl rst now : Z) (o : OledDisplay)
    : list DriverOp * option OledDisplay :=
  let '(done, alive) :=
    run_checked ok (map (fun op => (op, false)) (hardware_reset rst ++ bus_recovery sda scl)
                    ++ panel_setup sda scl rst ++ lvgl_setup ok
                    ++ map (fun c => (Ui c, false)) build_screens) in
  (done,
   if alive then
     Some (o <| od_buf := replicate (Z.to_nat OLED_BUF_SIZE) 0 |> <| od_has_display := true |>
             <| od_splash_start_us := now |> <| od_state := SPLASH |> <| od_initialized := true |>)
   else None).

(** ** The panel's memory *)

(** A rectangle of pixels, both corners included. *)
Record LvArea := mk_area { ar_x1 : Z; ar_y1 : Z; ar_x2 : Z; ar_y2 : Z }.

(** The pixel of LVGL's bitmap: rows of [hor_res / 8] bytes, the leftmost pixel
    in the highest bit, after the palette. *)
Definition lv_pixel (hor_res : Z) (px_map : list Z) (x y : Z) : bool :=
  negb (Z.land (aget px_map (LVGL_PALETTE_SIZE + (Z.shiftr hor_res 3 * y + Z.shiftr x 3)))
          (Z.shiftl 1 (7 - x mod 8)) =? 0).

(** Set or clear one bit of the panel's buffer. *)
Definition put_pixel (hor_res : Z) (on : bool) (x y : Z) (buf : list Z) : list Z :=
  let i := hor_res * Z.shiftr y 3 + x in
  let mask := Z.shiftl 1 (y mod 8) in
  aset buf i (if on then u8 (Z.lor (aget buf i) mask) else u8 (Z.land (aget buf i) (Z.lnot mask))).

Fixpoint flush_row (n : nat) (hor_res : Z) (px_map : list Z) (x y : Z) (buf : list Z) : list Z :=
  match n with
  | O => buf
  | S n' => flush_row n' hor_res px_map (x + 1) y
              (put_pixel hor_res (lv_pixel hor_res px_map x y) x y buf)
  end.

Fixpoint flush_rows (n : nat) (width : nat) (hor_res : Z) (px_map : list Z) (x1 y : Z)
    (buf : list Z) : list Z :=
  match n with
  | O => buf
  | S n' => flush_rows n' width hor_res px_map x1 (y + 1)
              (flush_row width hor_res px_map x1 y buf)
  end.

(** [lvgl_flush_cb] with the display's user data set; [hor_res] is what
    [lv_display_get_physical_horizontal_resolution] returns. *)
Definition lvgl_flush_cb (hor_res : Z) (area : LvArea) (px_map : list Z) (o : OledDisplay)
    : list DriverOp * OledDisplay :=
  let buf := flush_rows (Z.to_nat (ar_y2 area - ar_y1 area + 1))
               (Z.to_nat (ar_x2 area - ar_x1 area + 1)) hor_res px_map (ar_x1 area) (ar_y1 area)
               (od_buf o) in
  ([ PanelDrawBitmap (ar_x1 area) (ar_y1 area) (ar_x2 area + 1) (ar_y2 area + 1) buf ],
   o <| od_buf := buf |>).

(** One turn of [display_task]: [snapshot] is what the mesh task's mutex let
    through within 5 ms, or nothing. *)
Definition snapshot_display_state (snapshot : option NodeStatus) (out : NodeStatus) : NodeStatus :=
  default out snapshot.
Definition display_turn (relay : bool) (snapshot : option NodeStatus) (now : Z) (o : OledDisplay)
    : list LvCall * OledDisplay :=
  update relay (snapshot_display_state snapshot node_status_zero) now o.
