(* ===== verification/DisplayFlush.v ===== *)
(** * The panel's picture

    [lvgl_flush_cb] turns LVGL's row-major bitmap into the panel's columns of
    eight pixels, exactly: inside the flushed area every pixel of the panel's
    buffer is the bitmap's, outside it nothing changes. *)

From Stdlib Require Import ZArith Lia Ascii String.
From stdpp Require Import base list numbers option sets.
From S2P Require Import Prelude.
From S2P Require Import CString.
From S2P Require Import Display.
Open Scope Z_scope.
Open Scope flp_scope.

Definition on_screen (x y : Z) : Prop := 0 <= x < OLED_WIDTH ∧ 0 <= y < OLED_HEIGHT.

(** The pixel at [(x, y)] of a panel: byte [x] of page [y / 8], bit [y mod 8]. *)
Definition panel_pixel (buf : list Z) (x y : Z) : bool :=
  Z.testbit (aget buf (OLED_WIDTH * (y / 8) + x)) (y mod 8).

(** The pixel at [(x, y)] of a bitmap of [OLED_WIDTH / 8] bytes a row. *)
Definition bitmap_pixel (px_map : list Z) (x y : Z) : bool :=
  Z.testbit (aget px_map (LVGL_PALETTE_SIZE + (OLED_WIDTH / 8 * y + x / 8))) (7 - x mod 8).

Definition panel_ok (buf : list Z) : Prop := Z.of_nat (length buf) = OLED_BUF_SIZE ∧ Forall is_u8 buf.

Lemma lv_pixel_exact px_map x y : lv_pixel OLED_WIDTH px_map x y = bitmap_pixel px_map x y.
Proof.
  unfold lv_pixel, bitmap_pixel. rewrite !Z.shiftr_div_pow2 by lia.
  rewrite Z.shiftl_mul_pow2, Z.mul_1_l by lia. change (2 ^ 3) with 8.
  apply flag_testbit. lia.
Qed.

Lemma pixel_index x y :
  on_screen x y → OLED_WIDTH * Z.shiftr y 3 + x = OLED_WIDTH * (y / 8) + x ∧
  0 <= OLED_WIDTH * (y / 8) + x < OLED_BUF_SIZE.
Proof.
  intros [Hx Hy]. rewrite Z.shiftr_div_pow2 by lia. change (2 ^ 3) with 8. split; [ done | ].
  change OLED_BUF_SIZE with 1024. unfold OLED_WIDTH, OLED_HEIGHT in *. lia.
Qed.

(** Distinct pixels of a byte are distinct bits, and distinct bytes distinct pixels. *)
Lemma same_pixel x y x' y' :
  on_screen x y → on_screen x' y' →
  OLED_WIDTH * (y / 8) + x = OLED_WIDTH * (y' / 8) + x' → y mod 8 = y' mod 8 → x = x' ∧ y = y'.
Proof. unfold on_screen, OLED_WIDTH, OLED_HEIGHT. intros [] [] ??. lia. Qed.

Lemma put_pixel_ok on x y buf :
  panel_ok buf → on_screen x y →
  panel_ok (put_pixel OLED_WIDTH on x y buf) ∧
  ∀ x' y', on_screen x' y' → panel_pixel (put_pixel OLED_WIDTH on x y buf) x' y' =
    if decide (x' = x ∧ y' = y) then on else panel_pixel buf x' y'.
Proof.
  intros [Hlen Hb] Hs. destruct (pixel_index x y Hs) as [Ei Hi]. unfold put_pixel. cbv zeta. rewrite Ei.
  set (i := OLED_WIDTH * (y / 8) + x) in *.
  assert (Hm : Z.shiftl 1 (y mod 8) = 2 ^ (y mod 8)) by (rewrite Z.shiftl_mul_pow2; lia).
  rewrite Hm. set (b := if on then _ else _). split.
  { split; [ by rewrite length_aset | ]. apply Forall_insert; [ done | ].
    subst b. destruct on; apply u8_range. }
  intros x' y' Hs'. unfold panel_pixel.
  destruct (Z.eq_dec (OLED_WIDTH * (y' / 8) + x') i) as [E | E].
  - rewrite E, aget_aset_eq by lia.
    assert (Hbit : Z.testbit b (y' mod 8) =
      if y' mod 8 =? y mod 8 then on else Z.testbit (aget buf i) (y' mod 8)).
    { subst b. destruct on; rewrite testbit_u8 by lia.
      - rewrite Z.lor_spec, Z.pow2_bits_eqb by lia. rewrite (Z.eqb_sym (y mod 8)).
        destruct (_ =? _); by rewrite ?orb_true_r, ?orb_false_r.
      - rewrite Z.land_spec, Z.lnot_spec, Z.pow2_bits_eqb by lia. rewrite (Z.eqb_sym (y mod 8)).
        destruct (_ =? _); by rewrite ?andb_true_r, ?andb_false_r. }
    rewrite Hbit. destruct (Z.eqb_spec (y' mod 8) (y mod 8)) as [Em | Em].
    + destruct (same_pixel x' y' x y Hs' Hs E Em) as [-> ->]. by rewrite decide_True.
    + rewrite decide_False; [ done | ]. intros [_ ->]. done.
  - rewrite decide_False by (intros [-> ->]; done).
    destruct (pixel_index x' y' Hs') as [_ Hi']. rewrite aget_aset_ne; [ done | lia | lia | ].
    intros E'. by apply E.
Qed.

Section flush.
Context (px_map : list Z).

(** [buf'] is [buf] with the pixels that satisfy [P] taken from the bitmap. *)
Definition redrawn (P : Z → Z → Prop) (buf buf' : list Z) : Prop :=
  panel_ok buf' ∧
  ∀ x y, on_screen x y →
    (P x y → panel_pixel buf' x y = bitmap_pixel px_map x y) ∧
    (¬ P x y → panel_pixel buf' x y = panel_pixel buf x y).

Lemma redrawn_none P buf : panel_ok buf → (∀ x y, ¬ P x y) → redrawn P buf buf.
Proof. intros Hb HP. split; [ done | ]. intros x y _. split; [ by intros ?%HP | done ]. Qed.

Lemma redrawn_trans P Q R `{!∀ x y, Decision (Q x y)} buf1 buf2 buf3 :
  redrawn P buf1 buf2 → redrawn Q buf2 buf3 → (∀ x y, R x y ↔ P x y ∨ Q x y) →
  redrawn R buf1 buf3.
Proof.
  intros [_ H1] [Hb H2] HR. split; [ done | ]. intros x y Hs.
  destruct (H1 x y Hs) as [P1 N1], (H2 x y Hs) as [P2 N2]. split.
  - intros Hr. destruct (decide (Q x y)) as [Hq | Hq]; [ by apply P2 | ].
    rewrite (N2 Hq). apply HR in Hr as [? | ?]; [ by apply P1 | done ].
  - intros Hr. rewrite N2, N1; [ done | | ]; intros ?; apply Hr, HR; tauto.
Qed.

Lemma flush_row_spec n x y buf :
  panel_ok buf → 0 <= x → x + Z.of_nat n <= OLED_WIDTH → 0 <= y < OLED_HEIGHT →
  redrawn (fun x' y' => x <= x' < x + Z.of_nat n ∧ y' = y) buf
    (flush_row n OLED_WIDTH px_map x y buf).
Proof.
  revert x buf. induction n as [ | n IH ]; intros x buf Hb Hx Hw Hy; cbn [flush_row].
  { apply redrawn_none; [ done | lia ]. }
  assert (Hs : on_screen x y) by (split; lia).
  destruct (put_pixel_ok (lv_pixel OLED_WIDTH px_map x y) x y buf Hb Hs) as [Hb1 Hp].
  apply (redrawn_trans (fun x' y' => x' = x ∧ y' = y)
    (fun x' y' => x + 1 <= x' < x + 1 + Z.of_nat n ∧ y' = y) _ _
    (put_pixel OLED_WIDTH (lv_pixel OLED_WIDTH px_map x y) x y buf)).
  - split; [ done | ]. intros x' y' Hs'. rewrite (Hp x' y' Hs').
    split; intros E; [ | by rewrite decide_False ].
    rewrite decide_True by done. destruct E as [-> ->]. apply lv_pixel_exact.
  - apply IH; [ done | lia.. ].
  - lia.
Qed.

Lemma flush_rows_spec n width x1 y buf :
  panel_ok buf → 0 <= x1 → x1 + Z.of_nat width <= OLED_WIDTH →
  0 <= y → y + Z.of_nat n <= OLED_HEIGHT →
  redrawn (fun x' y' => x1 <= x' < x1 + Z.of_nat width ∧ y <= y' < y + Z.of_nat n) buf
    (flush_rows n width OLED_WIDTH px_map x1 y buf).
Proof.
  revert y buf. induction n as [ | n IH ]; intros y buf Hb Hx Hw Hy Hh; cbn [flush_rows].
  { apply redrawn_none; [ done | lia ]. }
  pose proof (flush_row_spec width x1 y buf Hb Hx Hw ltac:(lia)) as H1.
  apply (redrawn_trans _ (fun x' y' => x1 <= x' < x1 + Z.of_nat width ∧ y + 1 <= y' < y + 1 + Z.of_nat n)
    _ _ _ _ H1).
  - apply IH; [ apply H1 | lia.. ].
  - lia.
Qed.
End flush.

(** The area lies on the screen. *)
Definition area_ok (a : LvArea) : Prop :=
  0 <= ar_x1 a <= ar_x2 a ∧ ar_x2 a < OLED_WIDTH ∧ 0 <= ar_y1 a <= ar_y2 a ∧ ar_y2 a < OLED_HEIGHT.
Definition in_area (a : LvArea) (x y : Z) : Prop :=
  ar_x1 a <= x <= ar_x2 a ∧ ar_y1 a <= y <= ar_y2 a.

(** C28: the flush callback is an exact change of pixel layout. For any area of
    the 128x64 screen, every pixel of the area in the panel's buffer becomes
    the bitmap's pixel, whatever was there, and every other pixel keeps its
    value; the buffer keeps its 1024 bytes, each a byte; and the panel is
    told the area with its exclusive corner. *)
Theorem flush_exact area px_map o :
  area_ok area → panel_ok (od_buf o) →
  let '(calls, o') := lvgl_flush_cb OLED_WIDTH area px_map o in
  calls = [ PanelDrawBitmap (ar_x1 area) (ar_y1 area) (ar_x2 area + 1) (ar_y2 area + 1) (od_buf o') ] ∧
  o' = o <| od_buf := od_buf o' |> ∧ panel_ok (od_buf o') ∧
  ∀ x y, on_screen x y →
    (in_area area x y → panel_pixel (od_buf o') x y = bitmap_pixel px_map x y) ∧
    (¬ in_area area x y → panel_pixel (od_buf o') x y = panel_pixel (od_buf o) x y).
Proof.
  intros (Hx1 & Hx2 & Hy1 & Hy2) Hb. unfold lvgl_flush_cb. cbv zeta.
  destruct (flush_rows_spec px_map (Z.to_nat (ar_y2 area - ar_y1 area + 1))
    (Z.to_nat (ar_x2 area - ar_x1 area + 1)) (ar_x1 area) (ar_y1 area) (od_buf o) Hb
    ltac:(lia) ltac:(lia) ltac:(lia) ltac:(lia)) as [Hok Hp].
  split_and!; [ done | done | done | ]. intros x y Hs. cbn [od_buf update_field].
  destruct (Hp x y Hs) as [Hin Hout]. unfold in_area. split; intros H; [ apply Hin | apply Hout ]; lia.
Qed.

(** A white pixel at (9, 10) on a black screen. *)
Definition one_pixel_map : list Z := <[Z.to_nat (8 + (16 * 10 + 1)) := 64]> (replicate 1032 0).
Definition full_area : LvArea := mk_area 0 0 127 63.

Lemma flush_exact_witness :
  area_ok full_area ∧ panel_ok (od_buf oled_new) ∧
  bitmap_pixel one_pixel_map 9 10 = true ∧ bitmap_pixel one_pixel_map 10 9 = false ∧
  panel_pixel (od_buf (lvgl_flush_cb OLED_WIDTH full_area one_pixel_map oled_new).2) 9 10 = true ∧
  panel_pixel (od_buf (lvgl_flush_cb OLED_WIDTH full_area one_pixel_map oled_new).2) 10 9 = false.
Proof.
  assert (Ha : area_ok full_area)
    by (unfold area_ok, full_area, OLED_WIDTH, OLED_HEIGHT; cbn; lia).
  assert (Hb : panel_ok (od_buf oled_new)) by (split; [ done | by apply Forall_replicate ]).
  assert (H1 : bitmap_pixel one_pixel_map 9 10 = true) by (vm_compute; reflexivity).
  assert (H2 : bitmap_pixel one_pixel_map 10 9 = false) by (vm_compute; reflexivity).
  pose proof (flush_exact full_area one_pixel_map oled_new Ha Hb) as H.
  destruct (lvgl_flush_cb OLED_WIDTH full_area one_pixel_map oled_new) as [calls o'].
  destruct H as (_ & _ & _ & Hp).
  assert (Hs : on_screen 9 10 ∧ on_screen 10 9) by (unfold on_screen, OLED_WIDTH, OLED_HEIGHT; lia).
  split_and!; [ exact Ha | exact Hb | exact H1 | exact H2 | | ]; cbn [snd].
  - rewrite <- H1. apply (proj1 (Hp 9 10 (proj1 Hs))); unfold in_area, full_area; cbn; lia.
  - rewrite <- H2. apply (proj1 (Hp 10 9 (proj2 Hs))); unfold in_area, full_area; cbn; lia.
Defined.

(** ** Freeing the I2C bus *)

Inductive BusEvent := Clock | Start | Stop.

(** What the levels a master drives on two open-drain lines mean on the bus:
    a rising clock, or a data edge while the clock is high. *)
Fixpoint bus_events (scl sda : Z) (ops : list DriverOp) (scl_level sda_level : Z) : list BusEvent :=
  match ops with
  | GpioLevel pin level :: ops' =>
      if pin =? scl then
        (if (scl_level =? 0) && (level =? 1) then [ Clock ] else [])
        ++ bus_events scl sda ops' level sda_level
      else if pin =? sda then
        (if scl_level =? 0 then []
         else if (sda_level =? 0) && (level =? 1) then [ Stop ]
         else if (sda_level =? 1) && (level =? 0) then [ Start ] else [])
        ++ bus_events scl sda ops' scl_level level
      else bus_events scl sda ops' scl_level sda_level
  | _ :: ops' => bus_events scl sda ops' scl_level sda_level
  | [] => []
  end.

Lemma clock_events sda scl ops l d :
  bus_events scl sda (clock_out scl ++ ops) l d
  = (if l =? 0 then [ Clock ] else []) ++ bus_events scl sda ops 0 d.
Proof. cbn [clock_out app bus_events]. rewrite !Z.eqb_refl. by destruct (l =? 0). Qed.

Lemma clocks_events n sda scl ops d :
  bus_events scl sda (concat (replicate n (clock_out scl)) ++ ops) 0 d
  = replicate n Clock ++ bus_events scl sda ops 0 d.
Proof.
  induction n as [ | n IH ]; [ done | ]. cbn [replicate concat app].
  by rewrite <- app_assoc, clock_events, IH.
Qed.

(** The recovery clocks a stuck slave at least nine times, never starts a
    transfer, and ends in a STOP, from released lines and from lines that the
    pins drive low when they become outputs. *)
Lemma recovery_ends_in_stop sda scl :
  scl ≠ sda →
  bus_events scl sda (bus_recovery sda scl) 1 1 = replicate 9 Clock ++ [ Stop ] ∧
  bus_events scl sda (bus_recovery sda scl) 0 0 = replicate 10 Clock ++ [ Stop ].
Proof.
  intros Hne. unfold bus_recovery.
  assert (Hsda : ∀ ops l d, bus_events scl sda (GpioLevel sda 1 :: ops) l d =
    (if l =? 0 then [] else if d =? 0 then [ Stop ] else []) ++ bus_events scl sda ops l 1).
  { intros ops l d. cbn [bus_events]. replace (sda =? scl) with false by lia.
    rewrite Z.eqb_refl. by destruct (l =? 0), (d =? 0), (d =? 1). }
  assert (Hstop : ∀ d, bus_events scl sda
    [ GpioLevel sda 0; RomDelayUs 5; GpioLevel scl 1; RomDelayUs 5; GpioLevel sda 1; RomDelayUs 5;
      GpioReset scl; GpioReset sda ] 0 d = [ Clock; Stop ]).
  { intros d. cbn [bus_events]. replace (sda =? scl) with false by lia. by rewrite !Z.eqb_refl. }
  assert (Hout : ∀ pin od pu ops l d,
    bus_events scl sda (GpioOutput pin od pu :: ops) l d = bus_events scl sda ops l d) by done.
  cbn [app]. change (replicate 9 (clock_out scl)) with (clock_out scl :: replicate 8 (clock_out scl)).
  cbn [concat]. by rewrite <- !app_assoc, !Hout, !Hsda, !clock_events, !clocks_events, !Hstop.
Qed.
