(* ===== verification/DisplayScreen.v ===== *)
(** * What the display shows

    Every LVGL call of the display addresses a live widget of the right kind,
    on the screen its state shows; the texts fit their lines; and how the
    transfer screen announces the end of a transfer. *)

From Stdlib Require Import ZArith Lia Ascii String.
From stdpp Require Import base list numbers option sets.
From S2P Require Import Prelude.
From S2P Require Import CString.
From S2P Require Import Display.
Open Scope Z_scope.
Open Scope flp_scope.

Ltac od_upd := cbn [update_field od_initialized od_state od_splash_start_us od_splash_anim_started
  od_transfer_was_active od_show_complete od_transfer_done_us od_has_display od_buf fst snd].

(** ** The widget tree *)

Inductive Kind := KScreen | KLabel | KBar | KLine.
#[export] Instance Kind_eq_dec : EqDecision Kind.
Proof. solve_decision. Defined.

(** The widgets that exist, with their kinds and the screens they are on. *)
Definition WidgetTree : Type := list (Widget * (Kind * Widget)).

Fixpoint widget_info (t : WidgetTree) (w : Widget) : option (Kind * Widget) :=
  match t with
  | [] => None
  | (w', info) :: t' => if bool_decide (w' = w) then Some info else widget_info t' w
  end.

Definition has_kind (t : WidgetTree) (w : Widget) (k : Kind) : bool :=
  match widget_info t w with Some (k', _) => bool_decide (k' = k) | None => false end.
Definition exists_in (t : WidgetTree) (w : Widget) : bool := bool_decide (is_Some (widget_info t w)).
Definition fresh_in (t : WidgetTree) (w parent : Widget) : bool :=
  negb (exists_in t w) && has_kind t parent KScreen.

(** LVGL requires of a call that its widgets exist and are of its kind. *)
Definition call_ok (t : WidgetTree) (c : LvCall) : bool :=
  match c with
  | LvScreenCreate w => negb (exists_in t w)
  | LvLabelCreate w parent | LvBarCreate w parent | LvLineCreate w parent _ => fresh_in t w parent
  | LvStyle w _ _ | LvRemoveScrollable w | LvPos w _ _ | LvWidth w _ | LvSize w _ _
  | LvAlignCenter w _ _ | LvFadeIn w _ => exists_in t w
  | LvLongMode w _ | LvText w _ => has_kind t w KLabel
  | LvBarRange w _ _ | LvBarValue w _ _ => has_kind t w KBar
  | LvLoad w | LvLoadAnim w _ _ => has_kind t w KScreen
  | LvClean | LvTimerHandler => true
  end.

Definition call_exec (c : LvCall) (t : WidgetTree) : WidgetTree :=
  match c with
  | LvScreenCreate w => (w, (KScreen, w)) :: t
  | LvLabelCreate w parent => (w, (KLabel, parent)) :: t
  | LvBarCreate w parent => (w, (KBar, parent)) :: t
  | LvLineCreate w parent _ => (w, (KLine, parent)) :: t
  | _ => t
  end.

Definition creates (c : LvCall) : bool :=
  match c with
  | LvScreenCreate _ | LvLabelCreate _ _ | LvBarCreate _ _ | LvLineCreate _ _ _ => true
  | _ => false
  end.

Fixpoint calls_ok (t : WidgetTree) (cs : list LvCall) : bool :=
  match cs with [] => true | c :: cs' => call_ok t c && calls_ok (call_exec c t) cs' end.
Definition calls_exec (cs : list LvCall) (t : WidgetTree) : WidgetTree :=
  fold_left (fun t c => call_exec c t) cs t.

(** The tree that [init] builds. *)
Definition ui_tree : WidgetTree := Eval vm_compute in calls_exec build_screens [].

Definition ui_calls (ops : list DriverOp) : list LvCall :=
  omap (fun op => match op with Ui c => Some c | _ => None end) ops.

(** Turns of the display task, each the snapshot it got and its time. *)
Fixpoint display_run (relay : bool) (turns : list (option NodeStatus * Z)) (o : OledDisplay)
    : list (list LvCall) * OledDisplay :=
  match turns with
  | [] => ([], o)
  | (snapshot, now) :: turns' =>
      let '(cs, o) := display_turn relay snapshot now o in
      let '(rest, o) := display_run relay turns' o in (cs :: rest, o)
  end.

Definition state_screen (st : DisplayState) : Widget :=
  match st with SPLASH => scr_splash | STATUS => scr_status | TRANSFER => scr_transfer end.

(** The call writes on [screen], or on no widget's content at all. *)
Definition writes_on (screen : Widget) (c : LvCall) : bool :=
  match c with
  | LvText w _ | LvBarValue w _ _ =>
      match widget_info ui_tree w with Some (_, s) => bool_decide (s = screen) | None => false end
  | _ => true
  end.

(** What an update may call on [screen]. *)
Definition update_call (screen : Widget) (c : LvCall) : bool :=
  call_ok ui_tree c && writes_on screen c && negb (creates c).

Lemma update_calls_built screen cs : forallb (update_call screen) cs = true → calls_ok ui_tree cs = true.
Proof.
  induction cs as [ | c cs IH ]; [ done | ]. cbn [calls_ok forallb].
  intros [[[Hok _]%andb_prop Hc%negb_true_iff]%andb_prop Hcs]%andb_prop. rewrite Hok.
  replace (call_exec c ui_tree) with ui_tree; [ by apply IH | ]. by destruct c.
Qed.

Lemma update_calls_exec screen cs :
  forallb (update_call screen) cs = true → calls_exec cs ui_tree = ui_tree.
Proof.
  unfold calls_exec. induction cs as [ | c cs IH ]; [ done | ]. cbn [fold_left forallb].
  intros [[_ Hc%negb_true_iff]%andb_prop Hcs]%andb_prop.
  replace (call_exec c ui_tree) with ui_tree; [ by apply IH | ]. by destruct c.
Qed.

(** What a completed [init] did, and how it leaves the display. *)
Lemma init_built ok sda scl rst now o ops o' :
  init ok sda scl rst now o = (ops, Some o') →
  ui_calls ops = build_screens ∧ od_initialized o' = true ∧ od_state o' = SPLASH ∧
  od_splash_start_us o' = now ∧ od_buf o' = replicate (Z.to_nat OLED_BUF_SIZE) 0.
Proof.
  unfold init. destruct (run_checked _ _) as [done alive] eqn:E. destruct alive; [ | done ].
  pose proof (run_checked_alive ok _ ltac:(by rewrite E)) as Hd. rewrite E in Hd. cbn [fst] in Hd.
  intros [= <- <-]. split; [ | done ]. rewrite Hd. clear.
  assert (Hui : ∀ l, ui_calls (map fst (map (fun c => (Ui c, false)) l)) = l)
    by (induction l as [ | c l IH ]; [ done | cbn; by f_equal ]).
  unfold ui_calls in *. rewrite !map_app, !omap_app, Hui, map_map.
  unfold hardware_reset, lvgl_setup. by destruct (rst >=? 0), (ok _).
Qed.

Lemma splash_calls_ok s now o cs o' :
  update_splash s now o = (cs, o') →
  forallb (update_call scr_splash) cs = true.
Proof. unfold update_splash. cbv zeta. by repeat case_match; intros [= <- <-]. Qed.

Lemma status_calls_ok relay s o cs o' :
  update_status relay s o = (cs, o') →
  forallb (update_call scr_status) cs = true.
Proof. unfold update_status. by case_match; intros [= <- <-]. Qed.

Lemma transfer_calls_ok relay s now o cs o' :
  update_transfer relay s now o = (cs, o') →
  forallb (update_call scr_transfer) cs = true.
Proof.
  unfold update_transfer. destruct (if ns_transfer_active s then _ else _) as [load o1] eqn:E.
  assert (Hload : load = [] ∨ load = [ LvLoadAnim scr_status MOVE_RIGHT 200 ]).
  { revert E. cbv zeta. repeat case_match; intros [= <- <-]; auto. }
  clear E. intros [= <- <-]. unfold show_transfer.
  destruct Hload as [-> | ->]; by destruct (od_show_complete o1).
Qed.

Lemma update_calls_ok relay s now o :
  forallb (update_call (state_screen (od_state o))) (update relay s now o).1 = true ∧
  od_initialized (update relay s now o).2 = od_initialized o.
Proof.
  unfold update. destruct (od_initialized o) eqn:Ei; [ | done ]. cbn [negb].
  assert (Hkeep : od_initialized (match od_state o with
      | SPLASH => update_splash s now o | STATUS => update_status relay s o
      | TRANSFER => update_transfer relay s now o end).2 = true).
  { unfold update_splash, update_status, update_transfer. cbv zeta.
    repeat case_match; simplify_eq; od_upd; done. }
  destruct (od_state o) eqn:Es;
    match goal with |- context [let '(_, _) := ?u in _] => destruct u as [cs o1] eqn:E end;
    cbn [fst snd state_screen] in *; rewrite forallb_app;
    [ apply splash_calls_ok in E | apply status_calls_ok in E | apply transfer_calls_ok in E ];
    by rewrite E.
Qed.

(** C29: the display is well typed. [init], when no driver call stops it, builds
    each widget once, on an existing screen; and every later turn of the
    display task, with any snapshots at any times, makes only calls whose
    widgets exist and are of the kind the call needs, creates nothing, and
    writes its texts and its bar on the screen of the state it is in. So no
    update touches a widget that was not built or that another screen shows. *)
Theorem display_calls_typed ok sda scl rst now o ops o' relay turns snapshot t :
  init ok sda scl rst now o = (ops, Some o') →
  let o1 := (display_run relay turns o').2 in
  let cs := (display_turn relay snapshot t o1).1 in
  calls_ok [] (ui_calls ops) = true ∧ calls_exec (ui_calls ops) [] = ui_tree ∧
  calls_ok ui_tree cs = true ∧ calls_exec cs ui_tree = ui_tree ∧
  Forall (fun c => writes_on (state_screen (od_state o1)) c = true) cs.
Proof.
  intros Hi. apply init_built in Hi as (-> & _). cbv zeta.
  split; [ vm_compute; reflexivity | ]. split; [ vm_compute; reflexivity | ].
  unfold display_turn. set (o1 := (display_run relay turns o').2).
  destruct (update_calls_ok relay (snapshot_display_state snapshot node_status_zero) t o1) as [Hc _].
  split; [ by apply (update_calls_built (state_screen (od_state o1))) | ].
  split; [ by apply (update_calls_exec (state_screen (od_state o1))) | ].
  apply Forall_forall. intros c Hin. rewrite forallb_forall in Hc.
  apply list_elem_of_In, Hc in Hin. by apply andb_prop in Hin as [[_ ?]%andb_prop _].
Qed.

Definition demo_status (active : bool) (pct : Z) : NodeStatus :=
  mk_node_status 32320 false 2 3 1 1 active (Some (str "demo.txt")) pct 2000 1214 false false false None.

Definition all_ok : DriverOp → bool := fun _ => true.
Definition demo_display : OledDisplay := default oled_new (init all_ok 4 5 (-1) 0 oled_new).2.

Lemma display_calls_typed_witness :
  init all_ok 4 5 (-1) 0 oled_new = ((init all_ok 4 5 (-1) 0 oled_new).1, Some demo_display) ∧
  calls_ok [] (ui_calls (init all_ok 4 5 (-1) 0 oled_new).1) = true.
Proof.
  assert (E : init all_ok 4 5 (-1) 0 oled_new = ((init all_ok 4 5 (-1) 0 oled_new).1, Some demo_display))
    by reflexivity.
  split; [ exact E | ].
  apply (display_calls_typed all_ok 4 5 (-1) 0 oled_new _ demo_display false
    [(Some (demo_status true 10), 3000000)] None 3500000 E).
Defined.

(** ** The texts *)

(** The ranges of the C fields. *)
Record status_wf (s : NodeStatus) : Prop := {
  sw_addr : is_u16 (ns_node_addr s);
  sw_peers : is_u8 (ns_espnow_peers s);
  sw_neighbors : is_u8 (ns_neighbor_count s);
  sw_control : is_u8 (ns_control_hops s);
  sw_data : is_u8 (ns_data_hops s);
  sw_pct : is_u8 (ns_transfer_pct s);
  sw_heap : is_u32 (ns_free_heap_kb s);
  sw_uptime : is_u32 (ns_uptime_s s)
}.

(** The texts without the buffers they are printed into. *)
Definition hops_spec (hops : Z) : list Z :=
  if hops =? 255 then str "--" else dec (Z.min hops 99).
Definition title_spec (relay : bool) (s : NodeStatus) : list Z :=
  str "FLP-" ++ hex4 true (ns_node_addr s) ++ (if relay then str "  RELAY" else str " GATEWAY").
Definition wifi_spec (s : NodeStatus) : list Z :=
  (if ns_wifi_connected s then str "W:OK" else str "W:--") ++ str " Lo P:" ++ dec (ns_espnow_peers s).
Definition mesh_spec (s : NodeStatus) : list Z :=
  str "N" ++ dec (ns_neighbor_count s) ++ str " C" ++ hops_spec (ns_control_hops s)
  ++ str " D" ++ hops_spec (ns_data_hops s).
Definition transfer_spec (s : NodeStatus) : list Z :=
  match ns_transfer_active s, ns_filename s with
  | true, Some name => take 8 name ++ str " " ++ pad 3 32 (dec (ns_transfer_pct s)) ++ str "%"
  | _, _ => str "Xfer: idle"
  end.
Definition heap_spec (s : NodeStatus) : list Z := dec (ns_free_heap_kb s) ++ str "kB".
Definition pct_spec (s : NodeStatus) : list Z := dec (ns_transfer_pct s) ++ str "%".
Definition uptime_spec (s : NodeStatus) : list Z :=
  let t := ns_uptime_s s in
  pad 2 48 (dec (t / 3600)) ++ str ":" ++ pad 2 48 (dec (t / 60 mod 60)) ++ str ":"
  ++ pad 2 48 (dec (t mod 60)).

(** The lengths of the literals, and arithmetic. *)
Ltac text_len :=
  repeat match goal with
         | |- context [length (str ?s)] =>
             let n := eval vm_compute in (length (str s)) in change (length (str s)) with n
         end; lia.

Lemma snprintf_fits cap text : Z.of_nat (length text) < cap → snprintf cap text = text.
Proof. intros. unfold snprintf. apply take_ge. lia. Qed.

Lemma length_pad width c text : length (pad width c text) = Nat.max width (length text).
Proof. unfold pad. rewrite length_app, length_replicate. lia. Qed.

Lemma dec_u8 z : is_u8 z → (length (dec z) <= 3)%nat.
Proof. intros. apply length_dec_bound; [ unfold is_u8 in *; change (10 ^ Z.of_nat 3) with 1000; lia | lia ]. Qed.

Lemma format_hops_spec hops : is_u8 hops → format_hops 3 hops = hops_spec hops ∧ (length (hops_spec hops) <= 2)%nat.
Proof.
  intros Hh. unfold format_hops, hops_spec. destruct (Z.eqb_spec hops 255) as [-> | Hne].
  { split; [ reflexivity | cbn; lia ]. }
  assert (Hl : (length (dec (Z.min hops 99)) <= 2)%nat).
  { apply length_dec_bound; [ unfold is_u8 in *; change (10 ^ Z.of_nat 2) with 100; lia | lia ]. }
  split; [ | done ]. destruct (Z.gtb_spec hops 99).
  - rewrite Z.min_r by lia. reflexivity.
  - rewrite Z.min_l in * by lia. apply snprintf_fits. lia.
Qed.

Lemma length_take8 (name : list Z) : (length (take 8 name) <= 8)%nat.
Proof. rewrite length_take. lia. Qed.

Lemma screen_lengths relay s :
  status_wf s →
  Forall (fun t => (length t <= 16)%nat)
    [ title_spec relay s; wifi_spec s; mesh_spec s; transfer_spec s; heap_spec s; uptime_spec s;
      pct_spec s ].
Proof.
  intros [Ha Hp Hn Hc Hd Hpct Hh Hu].
  apply dec_u8 in Hp, Hn, Hpct as Hpct'.
  destruct (format_hops_spec _ Hc) as [_ Lc], (format_hops_spec _ Hd) as [_ Ld].
  assert (Lh : (length (dec (ns_free_heap_kb s)) <= 10)%nat)
    by (apply length_dec_bound; [ unfold is_u32 in *; change (10 ^ Z.of_nat 10) with 10000000000; lia | lia ]).
  assert (Lhour : (length (dec (ns_uptime_s s / 3600)) <= 7)%nat)
    by (apply length_dec_bound; [ unfold is_u32 in *; change (10 ^ Z.of_nat 7) with 10000000; lia | lia ]).
  assert (Lsec : ∀ z, (length (dec (z mod 60)) <= 2)%nat)
    by (intros; apply length_dec_bound; [ change (10 ^ Z.of_nat 2) with 100; lia | lia ]).
  pose proof (Lsec (ns_uptime_s s)) as Ls. pose proof (Lsec (ns_uptime_s s / 60)) as Lm. clear Lsec.
  unfold title_spec, wifi_spec, mesh_spec, transfer_spec, heap_spec, uptime_spec, pct_spec.
  rewrite !Forall_cons. split_and!; [ .. | by apply Forall_nil ]; cbv zeta.
  - rewrite !length_app, length_hex4. destruct relay; text_len.
  - rewrite !length_app. destruct (ns_wifi_connected s); text_len.
  - rewrite !length_app. text_len.
  - destruct (ns_transfer_active s), (ns_filename s) as [name | ]; try text_len.
    rewrite !length_app, length_pad. pose proof (length_take8 name). text_len.
  - rewrite !length_app. text_len.
  - rewrite !length_app, !length_pad. text_len.
  - rewrite !length_app. text_len.
Qed.

(** No line of the status and transfer screens is ever cut. For every
    status the node can report, each text is what its format says (hop counts
    as two characters, [--] when unknown and at most 99; the time of day
    since boot), fits the 17-byte buffer it is printed into and the 16
    characters of the line; only the file name in the summary is shortened,
    to eight characters. *)
Theorem display_texts_fit relay s :
  status_wf s →
  (title_text relay s = title_spec relay s ∧ mesh_text s = mesh_spec s ∧
   transfer_text s = transfer_spec s ∧ heap_text s = heap_spec s ∧ uptime_text s = uptime_spec s ∧
   show_status relay s =
     [ LvText status_title_label (title_spec relay s); LvText status_wifi_label (wifi_spec s);
       LvText status_mesh_label (mesh_spec s); LvText status_transfer_label (transfer_spec s);
       LvText status_cmd_label (cmd_text s); LvText status_heap_label (heap_spec s);
       LvText status_uptime_label (uptime_spec s) ]) ∧
  (∀ o, od_show_complete o = false →
     LvText xfer_pct_label (pct_spec s) ∈ show_transfer relay s o) ∧
  Forall (fun t => (length t <= 16)%nat)
    [ title_spec relay s; wifi_spec s; mesh_spec s; transfer_spec s; heap_spec s; uptime_spec s;
      pct_spec s ].
Proof.
  intros Hwf. pose proof (screen_lengths relay s Hwf) as Lt.
  destruct (format_hops_spec _ (sw_control s Hwf)) as [Ec _], (format_hops_spec _ (sw_data s Hwf)) as [Ed _].
  assert (Emin : ns_uptime_s s mod 3600 / 60 = ns_uptime_s s / 60 mod 60) by lia.
  assert (Hfit : ∀ t, (length t <= 16)%nat → snprintf 17 t = t) by (intros; apply snprintf_fits; lia).
  pose proof Lt as Lall. rewrite !Forall_cons in Lall. destruct Lall as (L1 & L2 & L3 & L4 & L5 & L6 & L7 & _).
  assert (E1 : title_text relay s = title_spec relay s).
  { unfold title_text, title_spec in *. destruct relay; by apply Hfit. }
  assert (E3 : mesh_text s = mesh_spec s) by (unfold mesh_text; rewrite Ec, Ed; by apply Hfit).
  assert (E4 : transfer_text s = transfer_spec s).
  { unfold transfer_text, transfer_spec in *.
    destruct (ns_transfer_active s), (ns_filename s) as [name | ]; by apply Hfit. }
  assert (E5 : heap_text s = heap_spec s) by by apply Hfit.
  assert (E6 : uptime_text s = uptime_spec s)
    by (unfold uptime_text; cbv zeta; rewrite Emin; by apply Hfit).
  split_and!; try done.
  - unfold show_status. rewrite E1, E3, E4, E5, E6. do 2 f_equal. f_equal. by apply Hfit.
  - intros o Ho. unfold show_transfer. rewrite Ho, Hfit by done. set_solver.
Qed.

Lemma display_texts_fit_witness :
  status_wf (demo_status true 47) ∧ title_text false (demo_status true 47) = str "FLP-7E40 GATEWAY" ∧
  transfer_text (demo_status true 47) = str "demo.txt  47%" ∧
  uptime_text (demo_status true 47) = str "00:20:14".
Proof.
  assert (Hwf : status_wf (demo_status true 47)) by (split; cbn; int_lia).
  destruct (display_texts_fit false (demo_status true 47) Hwf) as ((E1 & _ & E3 & _ & E5 & _) & _).
  split; [ exact Hwf | ]. rewrite E1, E3, E5. vm_compute. done.
Defined.

(** ** The end of a transfer *)

Lemma display_turn_transfer relay snapshot now o :
  od_initialized o = true → od_state o = TRANSFER →
  display_turn relay snapshot now o =
    let s := snapshot_display_state snapshot node_status_zero in
    ((update_transfer relay s now o).1 ++ [ LvTimerHandler ], (update_transfer relay s now o).2).
Proof. intros Hi Hs. unfold display_turn, update. rewrite Hi, Hs. by destruct (update_transfer _ _ _ _). Qed.

(** What a turn writes as the transfer's progress. *)
Definition is_progress (c : LvCall) : bool :=
  match c with
  | LvText w _ | LvBarValue w _ _ => bool_decide (w = xfer_pct_label) || bool_decide (w = xfer_bar)
  | _ => false
  end.
Definition progress_shown (cs : list LvCall) : list LvCall := List.filter is_progress cs.
Definition shows_done : list LvCall := [ LvText xfer_pct_label (str "DONE"); LvBarValue xfer_bar 100 false ].

Lemma progress_done relay s o :
  od_show_complete o = true → progress_shown (show_transfer relay s o ++ [ LvTimerHandler ]) = shows_done.
Proof. intros Ho. unfold show_transfer. rewrite Ho. reflexivity. Qed.

(** The transfer screen with its DONE mark up, [t0] the time it went up. *)
Record done_up (t0 : Z) (o : OledDisplay) : Prop := {
  du_init : od_initialized o = true;
  du_state : od_state o = TRANSFER;
  du_complete : od_show_complete o = true;
  du_since : od_transfer_was_active o = false → od_transfer_done_us o = t0
}.

(** The first inactive turn of a running transfer puts the mark up. *)
Lemma mark_goes_up relay snapshot now o :
  od_initialized o = true → od_state o = TRANSFER → od_transfer_was_active o = true →
  ns_transfer_active (snapshot_display_state snapshot node_status_zero) = false →
  let '(cs, o') := display_turn relay snapshot now o in
  done_up now o' ∧ od_transfer_was_active o' = false ∧ progress_shown cs = shows_done.
Proof.
  intros Hi Hs Hw Ha. rewrite (display_turn_transfer relay snapshot now o Hi Hs). cbv zeta.
  unfold update_transfer. rewrite Ha, Hw. od_upd. cbv zeta. od_upd.
  replace (now - now >=? TRANSFER_HOLD_US) with false by (rewrite Z.sub_diag; done).
  cbn [app fst snd]. split; [ by split; od_upd | ]. split; [ done | ]. by apply progress_done.
Qed.

(** The mark stays for [TRANSFER_HOLD_US], then the status screen returns. *)
Lemma mark_held relay snapshot now t0 o :
  done_up t0 o → od_transfer_was_active o = false →
  ns_transfer_active (snapshot_display_state snapshot node_status_zero) = false →
  let '(cs, o') := display_turn relay snapshot now o in
  if now - t0 >=? TRANSFER_HOLD_US
  then od_state o' = STATUS ∧ od_show_complete o' = false ∧ LvLoadAnim scr_status MOVE_RIGHT 200 ∈ cs
  else done_up t0 o' ∧ od_transfer_was_active o' = false ∧ progress_shown cs = shows_done.
Proof.
  intros [Hi Hs Hc Ht] Hw Ha. specialize (Ht Hw).
  rewrite (display_turn_transfer relay snapshot now o Hi Hs). cbv zeta. unfold update_transfer.
  rewrite Ha, Hw. cbv zeta. rewrite Ht. destruct (now - t0 >=? TRANSFER_HOLD_US).
  - od_upd. split; [ done | ]. split; [ done | ]. set_solver.
  - cbn [app fst snd]. split; [ by split | ]. split; [ done | ]. by apply progress_done.
Qed.

Lemma active_turn_done relay s now t0 o :
  done_up t0 o → ns_transfer_active s = true →
  let '(cs, o') := display_turn relay (Some s) now o in
  done_up t0 o' ∧ progress_shown cs = shows_done.
Proof.
  intros [Hi Hs Hc Ht] Ha. rewrite (display_turn_transfer relay (Some s) now o Hi Hs). cbv zeta.
  change (snapshot_display_state (Some s) node_status_zero) with s.
  unfold update_transfer. rewrite Ha. cbn [app fst snd].
  split; [ by split | ]. by apply progress_done.
Qed.

(** The DONE mark of one transfer covers the whole of the next. When a
    transfer under display is seen inactive once, because it ended or because
    one snapshot was missed (the task then displays an all-zero status), and
    is active again on the following turns, each of those turns writes DONE
    and a full bar, whatever the percentage and however long the transfer
    lasts: the branch that sees it active does not clear [show_complete_],
    which only the return to the status screen does. *)
Theorem done_mark_sticks relay missed t0 o turns :
  od_initialized o = true → od_state o = TRANSFER → od_transfer_was_active o = true →
  ns_transfer_active (snapshot_display_state missed node_status_zero) = false →
  Forall (fun '(snapshot, _) => ∃ s, snapshot = Some s ∧ ns_transfer_active s = true) turns →
  let '(shown, o') := display_run relay ((missed, t0) :: turns) o in
  Forall (fun cs => progress_shown cs = shows_done) shown ∧
  length shown = S (length turns) ∧ od_state o' = TRANSFER.
Proof.
  intros Hi Hs Hw Ha Hturns. cbn [display_run].
  pose proof (mark_goes_up relay missed t0 o Hi Hs Hw Ha) as H.
  destruct (display_turn relay missed t0 o) as [cs o1]. destruct H as (Hup & _ & Hcs).
  assert (Hrest : let '(rest, o2) := display_run relay turns o1 in
    Forall (fun cs => progress_shown cs = shows_done) rest ∧ length rest = length turns ∧ done_up t0 o2).
  { clear Hcs. revert o1 Hup. induction Hturns as [ | [snapshot t] turns (s & -> & Hact) _ IH ];
      intros o1 Hup; cbn [display_run]; [ by split_and! | ].
    pose proof (active_turn_done relay s t t0 o1 Hup Hact) as H.
    destruct (display_turn relay (Some s) t o1) as [cs' o2]. destruct H as [Hup2 Hcs'].
    specialize (IH o2 Hup2). destruct (display_run relay turns o2) as [rest o3].
    destruct IH as (IH1 & IH2 & IH3). cbn [length]. auto. }
  destruct (display_run relay turns o1) as [rest o2]. destruct Hrest as (H1 & H2 & H3).
  cbn [length]. split; [ by constructor | ]. split; [ lia | apply H3 ].
Qed.

(** A transfer at 30%; one missed snapshot; the transfer goes on to 31 and 80%. *)
Definition watching : OledDisplay :=
  (display_run false [ (Some (demo_status false 0), 3000000); (Some (demo_status true 20), 3500000);
                       (Some (demo_status true 30), 4000000) ] demo_display).2.

Lemma done_mark_sticks_witness :
  progress_shown (display_turn false (Some (demo_status true 30)) 4000000 watching).1
    = [ LvText xfer_pct_label (str "30%"); LvBarValue xfer_bar 30 true ] ∧
  let '(shown, o') := display_run false [ (None, 4500000); (Some (demo_status true 31), 5000000);
                                          (Some (demo_status true 80), 60000000) ] watching in
  Forall (fun cs => progress_shown cs = shows_done) shown ∧ length shown = 3%nat ∧
  od_state o' = TRANSFER.
Proof.
  split; [ vm_compute; reflexivity | ].
  apply (done_mark_sticks false None 4500000 watching
    [ (Some (demo_status true 31), 5000000); (Some (demo_status true 80), 60000000) ]);
    [ vm_compute; reflexivity | vm_compute; reflexivity | vm_compute; reflexivity | reflexivity | ].
  repeat constructor; eexists; done.
Defined.
