(* ===== verification/MeshDisplay.v ===== *)
(** * Mesh manager: the display snapshot and the configured peers
    (components/mesh/mesh_manager.cpp, mesh_manager.hpp)

    What [run] copies into the snapshot for the display task, and [init]'s
    parsing of the comma-separated list of blocked peers. *)

From Stdlib Require Import ZArith Lia String.
From stdpp Require Import base list numbers option sets relations.
From S2P Require Import Prelude.
From S2P Require Import CString.
From S2P Require Import Packet.
From S2P Require Import Display.
From S2P Require Import DisplayScreen.
From S2P Require Import MqttClient.
From S2P Require Import RouteTable.
From S2P Require Import TransferState.
From S2P Require Import TransferHandlers.
From S2P Require Import TransferWorld.
From S2P Require Import MeshLink.
From S2P Require Import MeshManager.
From S2P Require Import MeshSafety.
From S2P Require Import MeshDemo.
Open Scope Z_scope.
Open Scope flp_scope.

(** ** The blocked peers *)

Definition is_delim (c : Z) : bool := (c =? 44) || (c =? 32).

(** The tokens that [strtok_r(buf, ", ")] returns: the runs between delimiters. *)
Fixpoint tokens (s token : list Z) : list (list Z) :=
  let flush := match token with [] => [] | _ => [token] end in
  match s with
  | [] => flush
  | c :: s' => if is_delim c then flush ++ tokens s' [] else tokens s' (token ++ [c])
  end.

Definition hex_value (c : Z) : option Z :=
  if (48 <=? c) && (c <=? 57) then Some (c - 48)
  else if (65 <=? c) && (c <=? 70) then Some (c - 55)
  else if (97 <=? c) && (c <=? 102) then Some (c - 87)
  else None.

Definition ULONG_MAX : Z := 4294967295.

(** The longest run of hexadecimal digits, saturating at [ULONG_MAX]. *)
Fixpoint hex_run (s : list Z) (acc : Z) : Z :=
  match s with
  | c :: s' =>
      match hex_value c with
      | Some d => hex_run s' (Z.min ULONG_MAX (acc * 16 + d))
      | None => acc
      end
  | [] => acc
  end.

(** The prefix [0x] is skipped when a digit follows it. *)
Definition skip_0x (s : list Z) : list Z :=
  match s with
  | 48 :: x :: c :: s' =>
      if ((x =? 120) || (x =? 88)) && bool_decide (is_Some (hex_value c)) then c :: s' else s
  | _ => s
  end.

(** [strtoul(s, nullptr, 16)] with a 32-bit [unsigned long]. *)
Definition strtoul16 (s : list Z) : Z :=
  let s := skip_spaces s in
  match s with
  | 45 :: s' =>
      let v := hex_run (skip_0x s') 0 in
      if v =? ULONG_MAX then ULONG_MAX else u32 (- v)
  | 43 :: s' => hex_run (skip_0x s') 0
  | _ => hex_run (skip_0x s) 0
  end.

(** [CONFIG_FLP_BLOCKED_PEER] into [blocked_peers_]. *)
Definition parse_blocked_peers (raw : list Z) : list Z :=
  let buf := take 127 raw in
  omap (fun tok => let val := strtoul16 tok in
                   if (val >? 0) && (val <=? 65535) then Some (u16 val) else None)
    (tokens buf []).

(** ** The snapshot *)

Section snapshot.
Context {X : Type} (p : Platform X).
Notation MeshManager := (MeshManager X).
Notation Net := (Net X).
Implicit Types (m : MeshManager) (n : Net).

Definition hops_of (m : MeshManager) (min_h : Z) : Z :=
  if mm_has_internet m then 0 else if min_h <? 254 then u8 (min_h + 1) else 255.
Definition get_control_hops_to_internet m n : Z :=
  hops_of m (min_control_hops_to_internet (nt_routes n)).
Definition get_data_hops_to_internet m n : Z :=
  hops_of m (min_data_hops_to_internet (nt_routes n)).
Definition get_hops_to_internet m n : Z := get_data_hops_to_internet m n.
Definition get_neighbor_count n : Z := u8 (get_count (nt_routes n)).

(** The indicator of an event at [at_ms] shows for [hold] ms. *)
Definition recent (hold at_ms : Z) n : bool := (at_ms >? 0) && (u32 (now_ms p n - at_ms) <? hold).
Definition has_recent_cloud_cmd m n : bool := recent 3000 (cs_last_cloud_cmd_ms (mm_cmd m)) n.
Definition has_recent_config_cmd m n : bool := recent 3000 (cs_last_config_topic_ms (mm_cmd m)) n.
Definition has_recent_topic_msg m n : bool := recent 4000 (cs_last_topic_msg_ms (mm_cmd m)) n.

Definition is_transfer_active m : bool := tr_active (te_transfer (mm_engine m)).
Definition current_filename m : list Z := tr_filename (te_transfer (mm_engine m)).
Definition is_mqtt_connected n : bool :=
  match nt_mqtt n with Some c => mq_connected c | None => false end.

(** [peers] is [espnow_.get_peer_count()], [free_heap] is
    [esp_get_free_heap_size()]. *)
Definition display_snapshot (peers free_heap : Z) m n : NodeStatus :=
  mk_node_status (mm_addr m) (mm_has_internet m) peers (get_neighbor_count n)
    (get_control_hops_to_internet m n) (get_data_hops_to_internet m n)
    (is_transfer_active m) (Some (take 32 (current_filename m)))
    (get_progress_pct (mm_engine m)) (free_heap / 1024) (u32 (pf_now_us p (nt_x n) / 1000000))
    (has_recent_cloud_cmd m n) (has_recent_config_cmd m n) (has_recent_topic_msg m n)
    (Some (cs_topic_msg (mm_cmd m))).

(** One turn of [run]: the mesh, then the snapshot when the mutex is free;
    [display_snapshot_] is the state carried between turns. *)
Definition run_turn (peers free_heap : Z) (mutex_free : bool) (snap : NodeStatus) m n
    : NodeStatus * MeshManager * Net :=
  let '(m, n) := run_once p m n in
  ((if mutex_free then display_snapshot peers free_heap m n else snap), m, n).
End snapshot.

(** ** Printing and parsing the blocked peers *)

Fixpoint print_peers (l : list Z) : list Z :=
  match l with
  | [] => []
  | [a] => hex4 true a
  | a :: l' => hex4 true a ++ str ", " ++ print_peers l'
  end.

Lemma hex_digit_value d : 0 <= d < 16 → hex_value (hex_digit true d) = Some d.
Proof.
  intros Hd. unfold hex_digit, hex_value. destruct (Z.ltb_spec d 10).
  - replace (_ && _) with true by lia. f_equal. lia.
  - replace ((48 <=? _) && _) with false by lia. replace (_ && _) with true by lia. f_equal. lia.
Qed.

Lemma hex_digit_plain d : 0 <= d < 16 →
  let c := hex_digit true d in is_delim c = false ∧ is_space c = false ∧ 48 <= c <= 70.
Proof.
  intros Hd. unfold hex_digit, is_delim, is_space. cbv zeta. destruct (Z.ltb_spec d 10); lia.
Qed.

Lemma strtoul_plain c l :
  is_space c = false → c ≠ 45 → c ≠ 43 → strtoul16 (c :: l) = hex_run (skip_0x (c :: l)) 0.
Proof.
  intros Hsp H1 H2. unfold strtoul16. cbn [skip_spaces]. rewrite Hsp. cbv zeta.
  destruct c as [ | q | q ]; [ done | | done ].
  repeat (destruct q as [q | q | ]; try done).
Qed.

Lemma strtoul_hex4 z : is_u16 z → strtoul16 (hex4 true z) = z.
Proof.
  intros Hz. unfold hex4. cbn [map].
  set (d3 := z / 16 ^ 3 mod 16). set (d2 := z / 16 ^ 2 mod 16).
  set (d1 := z / 16 ^ 1 mod 16). set (d0 := z / 16 ^ 0 mod 16).
  assert (H3 : 0 <= d3 < 16) by (subst d3; lia). assert (H2 : 0 <= d2 < 16) by (subst d2; lia).
  assert (H1 : 0 <= d1 < 16) by (subst d1; lia). assert (H0 : 0 <= d0 < 16) by (subst d0; lia).
  assert (Hsum : ((d3 * 16 + d2) * 16 + d1) * 16 + d0 = z).
  { subst d3 d2 d1 d0. unfold is_u16 in Hz. rewrite Z.pow_0_r, Z.div_1_r, Z.pow_1_r.
    change (16 ^ 3) with (16 * 16 * 16). change (16 ^ 2) with (16 * 16).
    rewrite <- !Z.div_div by lia. lia. }
  clearbody d3 d2 d1 d0.
  destruct (hex_digit_plain d3 H3) as (_ & Hsp & Hr3), (hex_digit_plain d2 H2) as (_ & _ & Hr2).
  assert (Hrun : hex_run (map (hex_digit true) [d3; d2; d1; d0]) 0 = z).
  { cbn [map hex_run]. rewrite !hex_digit_value by done. unfold ULONG_MAX, is_u16 in *. lia. }
  cbn [map] in Hrun.
  assert (Hx : ∀ l, skip_0x (hex_digit true d3 :: hex_digit true d2 :: l)
                    = hex_digit true d3 :: hex_digit true d2 :: l).
  { intros l. unfold skip_0x. replace ((hex_digit true d2 =? 120) || _) with false by lia.
    cbn [andb]. repeat case_match; done. }
  by rewrite strtoul_plain, Hx by (done || lia).
Qed.

Lemma tokens_run tok rest acc :
  Forall (fun c => is_delim c = false) tok → tokens (tok ++ rest) acc = tokens rest (acc ++ tok).
Proof.
  intros H. revert acc. induction H as [ | c tok Hc _ IH ]; intros acc; [ by rewrite app_nil_r | ].
  cbn [app tokens]. rewrite Hc, IH. by rewrite <- app_assoc.
Qed.

Lemma hex4_plain z : Forall (fun c => is_delim c = false) (hex4 true z).
Proof.
  unfold hex4. cbn [map]. repeat constructor; (apply hex_digit_plain; lia).
Qed.

Lemma tokens_print l : tokens (print_peers l) [] = map (hex4 true) l.
Proof.
  induction l as [ | a [ | b l ] IH ]; [ done | | ].
  - cbn [print_peers map]. rewrite <- (app_nil_r (hex4 true a)) at 1.
    rewrite tokens_run by apply hex4_plain. done.
  - change (print_peers (a :: b :: l)) with (hex4 true a ++ 44 :: 32 :: print_peers (b :: l)).
    rewrite tokens_run by apply hex4_plain. cbn [map tokens]. rewrite IH. done.
Qed.

Lemma length_print_peers l : Z.of_nat (length (print_peers l)) = Z.max 0 (6 * Z.of_nat (length l) - 2).
Proof.
  induction l as [ | a [ | b l ] IH ]; [ done | done | ].
  change (print_peers (a :: b :: l)) with (hex4 true a ++ str ", " ++ print_peers (b :: l)).
  rewrite !length_app, length_hex4. cbn [length] in *.
  change (length (str ", ")) with 2%nat. lia.
Qed.

(** The blacklist in the build configuration is read back exactly. A list
    of non-zero 16-bit addresses, printed in the documented form (four hex
    digits each, separated by a comma and a space), is what [init] blocks,
    in order, as long as it fits the 127 characters the parser copies: up to
    21 addresses. *)
Theorem blocked_peers_roundtrip l :
  Forall (fun a => 0 < a <= 65535) l → (length l <= 21)%nat →
  parse_blocked_peers (print_peers l) = l.
Proof.
  intros Hl Hlen. unfold parse_blocked_peers. cbv zeta.
  rewrite take_ge by (pose proof (length_print_peers l); lia). rewrite tokens_print.
  clear Hlen. induction Hl as [ | a l Ha _ IH ]; [ done | ]. cbn [map omap list_omap].
  rewrite strtoul_hex4 by (unfold is_u16; lia). replace (_ && _) with true by lia.
  rewrite IH, u16_small by (unfold is_u16; lia). done.
Qed.

Lemma blocked_peers_roundtrip_witness :
  print_peers [41394; 50132] = str "A1B2, C3D4" ∧
  parse_blocked_peers (str "A1B2, C3D4") = [41394; 50132].
Proof.
  split; [ vm_compute; reflexivity | ].
  apply (blocked_peers_roundtrip [41394; 50132]); [ repeat constructor; lia | cbn; lia ].
Defined.

(** The 22nd address of a longer list is cut to its first digit, and blocks
    another node. *)
Lemma blocked_peers_cut :
  parse_blocked_peers (print_peers (replicate 21 41394 ++ [50132])) = replicate 21 41394 ++ [12].
Proof. vm_compute. reflexivity. Qed.

(** ** What the display is told *)

Lemma min_hops_range ok t : table_inv t → is_u8 (min_hops ok t).
Proof.
  intros [_ _ Hwf _]. unfold min_hops.
  assert (H : ∀ l best, Forall neighbor_wf l → is_u8 best →
    is_u8 (fold_left (λ best n, if ok n then if ne_hops_inet n <? best then ne_hops_inet n else best
                                else best) l best)).
  { induction l as [ | x l IH ]; intros best Hl Hb; cbn [fold_left]; [ done | ].
    apply Forall_cons_1 in Hl as [Hx Hl]. apply IH; [ done | ].
    destruct (ok x); [ | done ]. destruct (ne_hops_inet x <? best); [ apply Hx | done ]. }
  apply H; [ done | ]. unfold is_u8, ROUTE_HOPS_UNKNOWN. lia.
Qed.

Section displayed.
Context {X : Type} (p : Platform X).
Implicit Types (m : MeshManager X) (n : Net X).

Lemma hops_of_range m h : is_u8 (hops_of m h).
Proof.
  unfold hops_of. destruct (mm_has_internet m); [ done | ].
  destruct (h <? 254); [ apply u8_range | done ].
Qed.

Lemma snapshot_wf peers free_heap m n :
  is_u16 (mm_addr m) → is_u8 peers → is_u32 free_heap → status_wf (display_snapshot p peers free_heap m n).
Proof.
  intros Ha Hp Hh. split; cbn; try done.
  - apply u8_range.
  - apply hops_of_range.
  - apply hops_of_range.
  - apply progress_u8.
  - unfold is_u32 in *. lia.
  - apply u32_range.
Qed.

(** The hop count shown is one more than the best neighbour's, [--] without one. *)
Lemma shown_hops m min_h :
  is_u8 min_h → mm_has_internet m = false →
  hops_spec (hops_of m min_h) = if min_h <? 254 then dec (Z.min (min_h + 1) 99) else str "--".
Proof.
  intros Hh Hi. unfold hops_of, hops_spec. rewrite Hi. destruct (Z.ltb_spec min_h 254); [ | done ].
  rewrite u8_small by (unfold is_u8 in *; lia). by replace (_ =? 255) with false by lia.
Qed.
End displayed.

(** What a running node displays, from boot through any turns, events and
    transfers: the status its mesh task copies for the display fits the C
    fields it is stored in, whatever the drivers' peer count and heap size,
    so its lines are printed whole; the neighbour count is the route table's,
    at most 16; the hop counts are zero on a node with internet, and else one
    more than the best usable neighbour's, shown as [--] when there is none. *)
Theorem node_display_faithful {X} (p : Platform X) me Heard Good blocked alloc mqtt x0 m n
    peers free_heap :
  platform_ok p me Heard Good → is_u16 me →
  Good x0 → (∀ c, mqtt = Some c → mqtt_caps c) →
  rtc (node_step p Good) (init p me blocked alloc mqtt x0) (m, n) →
  is_u8 peers → is_u32 free_heap →
  let s := display_snapshot p peers free_heap m n in
  status_wf s ∧ ns_node_addr s = me ∧ ns_neighbor_count s = get_count (nt_routes n) ∧
  ns_neighbor_count s <= 16 ∧
  hops_spec (ns_data_hops s) =
    (if mm_has_internet m then str "0"
     else if min_data_hops_to_internet (nt_routes n) <? 254
          then dec (Z.min (min_data_hops_to_internet (nt_routes n) + 1) 99) else str "--").
Proof.
  intros Hp Hme Hx Hc Hr Hpe Hh. cbv zeta.
  pose proof (node_reachable p me Heard Good Hp Hme blocked alloc mqtt x0 _ Hx Hc Hr) as Hn.
  destruct Hn as [[[_ Ht _] _] Ha _ _]. cbn in Ht, Ha.
  pose proof (ti_len _ Ht) as Hlen. change MAX_NEIGHBORS with 16 in Hlen.
  assert (Ecount : get_neighbor_count n = get_count (nt_routes n))
    by (unfold get_neighbor_count; apply u8_small; unfold is_u8, get_count; lia).
  split; [ apply snapshot_wf; by rewrite ?Ha | ]. cbn [display_snapshot ns_node_addr ns_neighbor_count ns_data_hops].
  split_and!; [ done | done | rewrite Ecount; unfold get_count; lia | ].
  unfold get_data_hops_to_internet. destruct (mm_has_internet m) eqn:Ei.
  - unfold hops_of. by rewrite Ei.
  - apply shown_hops; [ by apply min_hops_range | done ].
Qed.

(** The node of the relay's demonstration and how it came about. *)
Definition relay_start : DemoAir :=
  mk_air 1000 [mk_frame demo_disc (-50) RX_ESPNOW; mk_frame demo_ad_frame (-60) RX_ESPNOW] [].

Lemma relay_start_good : demo_good 3 relay_start.
Proof.
  split; [ by apply Forall_nil_2 | ]. repeat apply Forall_cons_2; [ | | by apply Forall_nil_2 ].
  - split_and!; [ by left | | unfold is_i8; cbn; lia ]. repeat constructor; vm_compute; done.
  - split_and!; [ by right | | unfold is_i8; cbn; lia ]. repeat constructor; vm_compute; done.
Qed.

Lemma relay_turn_reached :
  rtc (node_step demo_platform (demo_good 3))
    (init demo_platform 3 [] (fun _ => true) None relay_start) (relay_turn.1, relay_turn.2).
Proof.
  apply rtc_once. unfold relay_start. rewrite <- surjective_pairing.
  exact (step_turn demo_platform (demo_good 3) (demo_mesh 3 1000 _).1 (demo_mesh 3 1000 _).2).
Qed.

(** It has heard its neighbour. *)
Lemma node_display_faithful_witness :
  let s := display_snapshot demo_platform 2 200000 relay_turn.1 relay_turn.2 in
  status_wf s ∧ ns_neighbor_count s = get_count (nt_routes relay_turn.2) ∧
  title_text true s = str "FLP-0003  RELAY".
Proof.
  pose proof (node_display_faithful demo_platform 3 demo_heard (demo_good 3) [] (fun _ => true) None
    relay_start relay_turn.1 relay_turn.2 2 200000 (demo_platform_ok 3) ltac:(unfold is_u16; lia)
    relay_start_good ltac:(done) relay_turn_reached ltac:(unfold is_u8; lia) ltac:(unfold is_u32; lia)) as H.
  destruct H as (H1 & H2 & H3 & _).
  split; [ exact H1 | ]. split; [ exact H3 | ]. unfold title_text. by rewrite H2.
Defined.
