(* ===== verification/NodeQuery.v ===== *)
(** * What a node tells about itself
    (uart_api/uart_ingest.cpp, diagnostics/heap_monitor.cpp)

    The answer to the STATUS command of the serial line, read from the mesh
    manager, and the heap report that goes out with the telemetry. *)

From Stdlib Require Import ZArith Lia.
From stdpp Require Import base list numbers option sets gmap relations.
From S2P Require Import Prelude.
From S2P Require Import Packet.
From S2P Require Import MqttClient.
From S2P Require Import RouteTable.
From S2P Require Import TransferState.
From S2P Require Import MeshLink.
From S2P Require Import MeshManager.
From S2P Require Import MeshSafety.
From S2P Require Import MeshDemo.
From S2P Require Import Uart.
From S2P Require Import UartFrames.
From S2P Require Import MeshDisplay.
Open Scope Z_scope.
Open Scope flp_scope.

(** ** The heap report *)

(** What [heap_caps_get_*] return, as [size_t]. *)
Record HeapStats := mk_heap {
  hs_free_internal : Z;
  hs_free_psram : Z;
  hs_min_free_internal : Z;
  hs_min_free_psram : Z;
  hs_largest_free_psram_block : Z
}.

Definition heap_vals (s : HeapStats) : list Z :=
  [u32 (hs_free_internal s); u32 (hs_free_psram s); u32 (hs_min_free_internal s);
   u32 (hs_min_free_psram s); u32 (hs_largest_free_psram_block s)].

(** [HeapMonitor::serialize] into [max_len] bytes. *)
Definition heap_serialize (max_len : Z) (s : HeapStats) : list Z :=
  if max_len <? 20 then [] else concat (map (le_bytes 4) (heap_vals s)).

Definition heap_of_bytes (bs : list Z) : option HeapStats :=
  if bool_decide (length bs = 20%nat) then
    let word k := le_value (take 4 (drop (4 * k) bs)) in
    Some (mk_heap (word 0%nat) (word 1%nat) (word 2%nat) (word 3%nat) (word 4%nat))
  else None.

(** ** The answer to STATUS *)

Section query.
Context {X : Type} (p : Platform X).

(** [query_status] with [mgr_] set; [free_heap] is
    [heap_caps_get_free_size(MALLOC_CAP_INTERNAL)]. *)
Definition query_status (free_heap : Z) (m : MeshManager X) (n : Net X) : StatusResp :=
  mk_status (mm_has_internet m) (get_neighbor_count n) (get_hops_to_internet m n)
    (is_transfer_active m) (get_progress_pct (mm_engine m)) (er_is_exit_node (te_role (mm_engine m)))
    (mm_addr m) (u32 free_heap) (is_mqtt_connected n).
End query.

(** How a device reads the 13 bytes. *)
Definition status_of_bytes (bs : list Z) : option StatusResp :=
  match bs with
  | [inet; nb; hops; active; pct; exit; a0; a1; h0; h1; h2; h3; mqtt] =>
      Some (mk_status (negb (inet =? 0)) nb hops (negb (active =? 0)) pct (negb (exit =? 0))
              (le_value [a0; a1]) (le_value [h0; h1; h2; h3]) (negb (mqtt =? 0)))
  | _ => None
  end.

(** ** Round trips *)

Lemma le_value4 z : is_u32 z → le_value (le_bytes 4 z) = z.
Proof. intros. apply le_value_bytes. exact H. Qed.

(** The heap report is read back exactly. *)
Lemma heap_roundtrip s :
  heap_of_bytes (heap_serialize 20 s) =
  Some (mk_heap (u32 (hs_free_internal s)) (u32 (hs_free_psram s)) (u32 (hs_min_free_internal s))
          (u32 (hs_min_free_psram s)) (u32 (hs_largest_free_psram_block s))).
Proof.
  unfold heap_serialize, heap_vals. change (20 <? 20) with false. cbn [map concat].
  set (a := u32 (hs_free_internal s)). set (b := u32 (hs_free_psram s)).
  set (c := u32 (hs_min_free_internal s)). set (d := u32 (hs_min_free_psram s)).
  set (e := u32 (hs_largest_free_psram_block s)).
  transitivity (Some (mk_heap (le_value (le_bytes 4 a)) (le_value (le_bytes 4 b)) (le_value (le_bytes 4 c))
                        (le_value (le_bytes 4 d)) (le_value (le_bytes 4 e)))); [ reflexivity | ].
  rewrite !le_value4 by apply u32_range. done.
Qed.

Record status_ok (r : StatusResp) : Prop := {
  so_neighbors : is_u8 (sr_neighbor_count r);
  so_hops : is_u8 (sr_hops_to_gateway r);
  so_progress : is_u8 (sr_transfer_progress r);
  so_addr : is_u16 (sr_node_addr r);
  so_heap : is_u32 (sr_free_heap r)
}.

Lemma byte_at z k : 0 <= k → Z.land (Z.shiftr z k) 255 = z / 2 ^ k mod 256.
Proof. intros. change 255 with (Z.ones 8). by rewrite Z.land_ones, Z.shiftr_div_pow2 by lia. Qed.

Lemma status_roundtrip r : status_ok r → status_of_bytes (status_bytes r) = Some r.
Proof.
  intros [Hn Hh Hp Ha Hf]. destruct r as [inet nb hops active pct exit addr heap mqtt].
  cbn [sr_neighbor_count sr_hops_to_gateway sr_transfer_progress sr_node_addr sr_free_heap] in *.
  unfold status_bytes, status_of_bytes. cbn [sr_has_internet sr_neighbor_count sr_hops_to_gateway
    sr_transfer_active sr_transfer_progress sr_is_exit_node sr_node_addr sr_free_heap sr_mqtt_connected].
  assert (Hb : ∀ b, negb (Z.b2z b =? 0) = b) by (by intros []). rewrite !Hb.
  rewrite <- (Z.shiftr_0_r addr) at 1. rewrite <- (Z.shiftr_0_r heap) at 1. rewrite !byte_at by lia.
  cbn [le_value]. do 2 f_equal; unfold is_u16, is_u32 in *; int_lia.
Qed.

Lemma query_status_ok {X} free_heap (m : MeshManager X) (n : Net X) :
  is_u16 (mm_addr m) → status_ok (query_status free_heap m n).
Proof.
  intros Ha. split; cbn; [ apply u8_range | apply hops_of_range | apply progress_u8 | done | apply u32_range ].
Qed.

(** A STATUS command is answered with the node's state. In every state a
    node can reach, the 13-byte answer that goes on the serial line is
    recovered by a device that runs the same parser, in whatever idle state,
    and its fields read back as what the mesh manager reports at that moment:
    the node's own address, at most sixteen neighbours, zero hops exactly on
    a node with internet. The command changes nothing else. *)
Theorem status_reply_faithful {X} (p : Platform X) me Heard Good blocked alloc mqtt x0 m n
    (h : UartHost (MeshManager X * Net X)) free_heap payload s q :
  platform_ok p me Heard Good → is_u16 me →
  Good x0 → (∀ c, mqtt = Some c → mqtt_caps c) →
  rtc (node_step p Good) (init p me blocked alloc mqtt x0) (m, n) →
  us_m s = (m, n) → uh_status h (m, n) = query_status free_heap m n → idle q →
  let r := query_status free_heap m n in
  let bs := frame_bytes UART_RESP_STATUS_RESP (status_bytes r) in
  handle_frame h UART_CMD_STATUS payload s = s <| us_line ::= fun l => l ++ bs |> ∧
  (∃ q', parse_bytes bs q = (q', [(UART_RESP_STATUS_RESP, status_bytes r)]) ∧ idle q') ∧
  status_of_bytes (status_bytes r) = Some r ∧
  sr_node_addr r = me ∧ sr_neighbor_count r <= 16 ∧
  (sr_hops_to_gateway r = 0 ↔ mm_has_internet m = true).
Proof.
  intros Hp Hme Hx Hc Hr Hs Hh Hq r bs.
  pose proof (node_reachable p me Heard Good Hp Hme blocked alloc mqtt x0 _ Hx Hc Hr) as Hn.
  destruct Hn as [[[_ Ht _] _] Ha _ _]. cbn in Ht, Ha.
  pose proof (ti_len _ Ht) as Hlen. change MAX_NEIGHBORS with 16 in Hlen.
  split_and!.
  - unfold handle_frame. cbn [Z.eqb Pos.eqb UART_CMD_STATUS UART_CMD_FILE_BEGIN UART_CMD_FILE_DATA UART_CMD_FILE_END].
    rewrite Hs, Hh. done.
  - by apply parse_frame.
  - apply status_roundtrip, query_status_ok. by rewrite Ha.
  - exact Ha.
  - cbn. unfold get_neighbor_count. rewrite u8_small; unfold is_u8, get_count; lia.
  - cbn. unfold get_hops_to_internet, get_data_hops_to_internet, hops_of.
    destruct (mm_has_internet m); [ done | ].
    split; [ | done ]. intros H0. exfalso. revert H0.
    set (k := min_data_hops_to_internet (nt_routes n)).
    assert (Hk : is_u8 k) by (by apply min_hops_range).
    destruct (Z.ltb_spec k 254); [ | lia ]. rewrite u8_small by (unfold is_u8 in *; lia). unfold is_u8 in Hk. lia.
Qed.

(** The demonstration's relay, asked for its status. *)
Definition query_host : UartHost (MeshManager DemoAir * Net DemoAir) :=
  mk_uart_host (fun _ => 0) (fun _ _ => true) false (fun _ => false) (fun _ => false) (fun _ _ => 0)
    (fun s _ _ _ => (false, s)) (fun s => s) (fun _ => false) (fun _ => 0) (fun _ => 0) (fun _ => 0)
    (fun '(m, n) => query_status 123456 m n).
Definition query_store : Store (MeshManager DemoAir * Net DemoAir) :=
  mk_store ingest_new ∅ ∅ [] (relay_turn.1, relay_turn.2).

Lemma status_reply_faithful_witness :
  let r := query_status 123456 relay_turn.1 relay_turn.2 in
  us_line (handle_frame query_host UART_CMD_STATUS [] query_store) =
    frame_bytes UART_RESP_STATUS_RESP (status_bytes r) ∧
  status_of_bytes (status_bytes r) = Some r ∧ sr_node_addr r = 3.
Proof.
  pose proof (status_reply_faithful demo_platform 3 demo_heard (demo_good 3) [] (fun _ => true) None
    relay_start relay_turn.1 relay_turn.2 query_host 123456 [] query_store parser_new (demo_platform_ok 3)
    ltac:(unfold is_u16; lia) relay_start_good ltac:(done) relay_turn_reached eq_refl eq_refl
    ltac:(split; reflexivity)) as (H1 & _ & H2 & H3 & _).
  cbv zeta. rewrite H1. split; [ reflexivity | ]. split; [ exact H2 | exact H3 ].
Defined.
