(* ===== verification/CloudTelemetry.v ===== *)
(** * The cloud server's telemetry (cloud-admin/internal/telemetry, topology, metrics, mqtt)

    The other messages of the nodes: their neighbour tables, transport
    counters and heap figures, from the topic a node publishes them under
    ([wire]) through the channels of the MQTT client to the topology
    [Aggregator], the rows handed to the database, and the graph that
    [ToJSON] draws. The database is outside: a row handed to it is an output,
    in a list per transaction. The loops of [ToJSON] over the map of nodes
    run in an order Go leaves open: an argument for each of the two. Times are
    milliseconds. *)

From Stdlib Require Import ZArith Lia String.
From stdpp Require Import base list numbers option sets gmap sorting.
From S2P Require Import Prelude.
From S2P Require Import CString.
From S2P Require Import Packet.
From S2P Require Import ProtocolSelector.
From S2P Require Import MqttClient.
From S2P Require Import RouteTable.
From S2P Require Import MeshLink.
From S2P Require Import MeshManager.
From S2P Require Import MeshSafety.
From S2P Require Import MeshDemo.
From S2P Require Import MeshDisplay.
From S2P Require Import NodeQuery.
Open Scope Z_scope.
Open Scope flp_scope.

Notation GoString := (list Z).

(** ** The MQTT client's side *)

(** [strings.Split(s, "/")] *)
Fixpoint split_slash (s : GoString) : list GoString :=
  match s with
  | [] => [[]]
  | c :: s' =>
      match split_slash s' with
      | [] => [[c]]
      | part :: parts => if c =? 47 then [] :: part :: parts else (c :: part) :: parts
      end
  end.

Inductive MetricKind := MetricKindNode | MetricKindHeap.
#[export] Instance MetricKind_dec : EqDecision MetricKind.
Proof. solve_decision. Defined.

Record TopoMsg := mk_TopoMsg { tm_NodeID : GoString; tm_Payload : list Z }.
Record MetricMsg := mk_MetricMsg { mx_NodeID : GoString; mx_Kind : MetricKind; mx_Payload : list Z }.

Definition topoCh_cap : nat := 32.
Definition metricCh_cap : nat := 64.

(** A send on a channel of capacity [cap] that gives up when it is full. *)
Definition try_send {A} (cap : nat) (x : A) (ch : list A) : list A :=
  if (length ch <? cap)%nat then ch ++ [x] else ch.

(** ** The aggregator *)

Record NodeState := mk_NodeState {
  ns_LastSeen : Z;
  ns_Neighbors : list GoNeighbor;
  ns_Heap : option HeapStats
}.
#[export] Instance eta_NodeState : Eta NodeState := fun s =>
  mk_NodeState (ns_LastSeen s) (ns_Neighbors s) (ns_Heap s).

Definition Update (now : Z) (nodeID : GoString) (payload : list Z) (nodes : gmap GoString NodeState)
    : gmap GoString NodeState :=
  match go_parse payload with
  | None => nodes
  | Some neighbors =>
      let existingHeap := nodes !! nodeID ≫= ns_Heap in
      <[nodeID := mk_NodeState now neighbors existingHeap]> nodes
  end.

Definition word (k : nat) (payload : list Z) : Z := le_value (take 4 (drop (4 * k) payload)).

Definition UpdateHeap (now : Z) (nodeID : GoString) (payload : list Z) (nodes : gmap GoString NodeState)
    : gmap GoString NodeState :=
  if Z.of_nat (length payload) <? 20 then nodes
  else
    let heap := mk_heap (word 0 payload) (word 1 payload) (word 2 payload) (word 3 payload)
                  (word 4 payload) in
    match nodes !! nodeID with
    | Some state => <[nodeID := state <| ns_Heap := Some heap |>]> nodes
    | None => <[nodeID := mk_NodeState now [] (Some heap)]> nodes
    end.

(** The keys, in the order the loop meets them. *)
Definition NodeIDs (order : list (GoString * NodeState)) : list GoString := map fst order.

(** ** The store *)

Record NodeRow := mk_NodeRow {
  nr_timestamp : Z; nr_node_id : GoString; nr_transport : GoString;
  nr_tx : Z; nr_rx : Z; nr_fail : Z; nr_retransmit : Z; nr_latency_ms : Z; nr_duty_cycle_ms : Z
}.

Record HeapRow := mk_HeapRow {
  hr_timestamp : Z; hr_node_id : GoString;
  hr_free_internal : Z; hr_free_psram : Z; hr_min_internal : Z; hr_min_psram : Z; hr_largest_block : Z
}.

(** A transaction of two rows, an insertion of one. *)
Inductive TeleOut :=
  | OutNodeRows (rows : list NodeRow)
  | OutHeapRow (row : HeapRow).

Definition transports : list GoString := [str "ESP-NOW"; str "LoRa"].

Definition node_row (now : Z) (nodeID payload transport : list Z) (i : nat) : NodeRow :=
  let field k := word (6 * i + k) payload in
  let txVal := field 0%nat in
  let fail := field 1%nat in
  let latency := field 2%nat in
  let retx := field 3%nat in
  let rx := field 4%nat in
  let duty := field 5%nat in
  mk_NodeRow now nodeID transport txVal rx fail retx latency duty.

Definition RecordNode (now : Z) (nodeID : GoString) (payload : list Z) : list TeleOut :=
  if Z.of_nat (length payload) <? 48 then []
  else [OutNodeRows (imap (fun i transport => node_row now nodeID payload transport i) transports)].

Definition RecordHeap (now : Z) (nodeID : GoString) (payload : list Z) : list TeleOut :=
  if Z.of_nat (length payload) <? 20 then []
  else [OutHeapRow (mk_HeapRow now nodeID (word 0 payload) (word 1 payload) (word 2 payload)
                      (word 3 payload) (word 4 payload))].

(** ** The goroutines *)

Record TeleServer := mk_TeleServer {
  ts_topoCh : list TopoMsg;
  ts_metricCh : list MetricMsg;
  ts_nodes : gmap GoString NodeState
}.
#[export] Instance eta_TeleServer : Eta TeleServer := fun s =>
  mk_TeleServer (ts_topoCh s) (ts_metricCh s) (ts_nodes s).

Definition tele_new : TeleServer := mk_TeleServer [] [] ∅.

(** [onMessage] without its file branch. *)
Definition onMessage_telemetry (topic payload : list Z) (sv : TeleServer) : TeleServer :=
  match split_slash topic with
  | _ :: nodeID :: kind :: _ =>
      if bool_decide (kind = str "topology") then
        sv <| ts_topoCh ::= try_send topoCh_cap (mk_TopoMsg nodeID payload) |>
      else if bool_decide (kind = str "metrics") then
        sv <| ts_metricCh ::= try_send metricCh_cap (mk_MetricMsg nodeID MetricKindNode payload) |>
      else if bool_decide (kind = str "heap") then
        sv <| ts_metricCh ::= try_send metricCh_cap (mk_MetricMsg nodeID MetricKindHeap payload) |>
      else sv
  | _ => sv
  end.

(** [telemetry.Run] takes from either channel that holds something. *)
Definition run_topo (now : Z) (sv : TeleServer) : TeleServer :=
  match ts_topoCh sv with
  | [] => sv
  | msg :: rest => sv <| ts_topoCh := rest |> <| ts_nodes ::= Update now (tm_NodeID msg) (tm_Payload msg) |>
  end.

Definition run_metric (now : Z) (sv : TeleServer) : TeleServer * list TeleOut :=
  match ts_metricCh sv with
  | [] => (sv, [])
  | msg :: rest =>
      let sv := sv <| ts_metricCh := rest |> in
      match mx_Kind msg with
      | MetricKindNode => (sv, RecordNode now (mx_NodeID msg) (mx_Payload msg))
      | MetricKindHeap =>
          (sv <| ts_nodes ::= UpdateHeap now (mx_NodeID msg) (mx_Payload msg) |>,
           RecordHeap now (mx_NodeID msg) (mx_Payload msg))
      end
  end.

Inductive TeleEvent :=
  | TeMessage (topic payload : list Z)
  | TeTopo (now : Z)
  | TeMetric (now : Z).

Definition tele_step (sv : TeleServer) (ev : TeleEvent) : TeleServer * list TeleOut :=
  match ev with
  | TeMessage topic payload => (onMessage_telemetry topic payload sv, [])
  | TeTopo now => (run_topo now sv, [])
  | TeMetric now => run_metric now sv
  end.

Fixpoint tele_run (evs : list TeleEvent) (sv : TeleServer) : TeleServer * list TeleOut :=
  match evs with
  | [] => (sv, [])
  | ev :: evs' =>
      let '(sv, out) := tele_step sv ev in
      let '(sv, out') := tele_run evs' sv in (sv, out ++ out')
  end.

(** ** The graph *)

(** [a > b] of Go strings. *)
Fixpoint str_gt (a b : GoString) : bool :=
  match a, b with
  | x :: a', y :: b' => if x =? y then str_gt a' b' else x >? y
  | _ :: _, [] => true
  | [], _ => false
  end.

Definition edge_key (a b : GoString) : GoString * GoString := if str_gt a b then (b, a) else (a, b).

(** [fmt.Sprintf("%04X", addr)], the [Addr] of a neighbour. *)
Definition nb_Addr (n : GoNeighbor) : GoString := hex4 true (go_addr n).

Inductive VStatus := Online | Offline | Inferred.
Record VNode := mk_VNode { vn_id : GoString; vn_status : VStatus; vn_hops : Z; vn_heap : option HeapStats }.
Record VEdge := mk_VEdge { ve_source : GoString; ve_target : GoString; ve_rssi : Z; ve_transport : GoString }.

Definition minHops (l : list GoNeighbor) : Z :=
  fold_left (fun m n => if go_hops_inet n <? m then go_hops_inet n else m) l 255.

Definition nodeEntry (now : Z) (nid : GoString) (info : NodeState) : VNode :=
  mk_VNode nid (if now - ns_LastSeen info >=? 60000 then Offline else Online)
    (minHops (ns_Neighbors info)) (ns_Heap info).

Definition link_edge (nid : GoString) (n : GoNeighbor) : VEdge :=
  mk_VEdge nid (nb_Addr n) (go_rssi n)
    (if go_espnow n then str "ESP-NOW" else if go_lora n then str "LoRa" else str "unknown").

Definition add_edge (nid : GoString) (acc : gset (GoString * GoString) * list VEdge) (n : GoNeighbor)
    : gset (GoString * GoString) * list VEdge :=
  let '(seenEdges, edges) := acc in
  let edgeKey := edge_key nid (nb_Addr n) in
  if bool_decide (edgeKey ∈ seenEdges) then (seenEdges, edges)
  else ({[edgeKey]} ∪ seenEdges, edges ++ [link_edge nid n]).

Definition add_inferred (acc : gset GoString * list VNode) (n : GoNeighbor) : gset GoString * list VNode :=
  let '(seenNodes, nodes) := acc in
  if bool_decide (nb_Addr n ∈ seenNodes) then (seenNodes, nodes)
  else ({[nb_Addr n]} ∪ seenNodes, nodes ++ [mk_VNode (nb_Addr n) Inferred (go_hops_inet n) None]).

(** [order1] and [order2] are the nodes as the two loops meet them. *)
Definition ToJSON (now : Z) (order1 order2 : list (GoString * NodeState)) : list VNode * list VEdge :=
  let nodes := map (fun p => nodeEntry now p.1 p.2) order1 in
  let seenNodes : gset GoString := list_to_set (map fst order1) in
  let '(_, edges) :=
    fold_left (fun acc p => fold_left (add_edge p.1) (ns_Neighbors p.2) acc) order1 (∅, []) in
  let '(_, nodes) :=
    fold_left (fun acc p => fold_left add_inferred (ns_Neighbors p.2) acc) order2 (seenNodes, nodes) in
  (nodes, edges).

(** ** What the nodes report *)

Inductive NodeReport :=
  | RTable (addr : Z) (t : RouteTable)
  | RMetrics (addr : Z) (s : ProtocolSelector)
  | RHeap (addr : Z) (h : HeapStats).

Definition report_topic (addr relay_id : Z) : list Z :=
  str "flp/" ++ hex4 true addr ++ str "/" ++ relay_topic_suffix relay_id.

(** Topic and payload of a report ([wire_published], [wire_relayed]). *)
Definition wire (r : NodeReport) : list Z * list Z :=
  match r with
  | RTable addr t => (report_topic addr RELAY_TOPOLOGY, default [] (serialize kTopoBufSize t))
  | RMetrics addr s => (report_topic addr RELAY_METRICS, default [] (serialize_metrics 48 s))
  | RHeap addr h => (report_topic addr RELAY_HEAP, heap_serialize 20 h)
  end.

Definition metrics_vals (m : TransportMetrics) : list Z :=
  [tm_tx_count m; tm_tx_fail_count m; tm_total_latency_ms m; tm_retransmit_count m; tm_rx_count m;
   tm_duty_cycle_ms m].

Definition report_ok (r : NodeReport) : Prop :=
  match r with
  | RTable addr t => is_u16 addr ∧ table_inv t
  | RMetrics addr s =>
      is_u16 addr ∧ Forall is_u32 (metrics_vals (ps_espnow s) ++ metrics_vals (ps_lora s))
  | RHeap addr _ => is_u16 addr
  end.

Definition report_tables (rs : list NodeReport) : list (Z * RouteTable) :=
  omap (fun r => match r with RTable a t => Some (a, t) | _ => None end) rs.
Definition is_metric (r : NodeReport) : bool := match r with RTable _ _ => false | _ => true end.
Definition report_metrics (rs : list NodeReport) : list NodeReport := List.filter is_metric rs.
Definition report_heaps (rs : list NodeReport) : list (Z * HeapStats) :=
  omap (fun r => match r with RHeap a h => Some (a, h) | _ => None end) rs.

(** The last value a node reported. *)
Definition last_of {A} (addr : Z) (l : list (Z * A)) : option A :=
  snd <$> last (List.filter (fun p => p.1 =? addr) l).

(** The counters a report carries, as rows with the time 0. *)
Definition metric_row (addr : Z) (transport : GoString) (m : TransportMetrics) : NodeRow :=
  mk_NodeRow 0 (hex4 true addr) transport (tm_tx_count m) (tm_rx_count m) (tm_tx_fail_count m)
    (tm_retransmit_count m) (tm_total_latency_ms m) (tm_duty_cycle_ms m).

Definition u32_heap (h : HeapStats) : HeapStats :=
  mk_heap (u32 (hs_free_internal h)) (u32 (hs_free_psram h)) (u32 (hs_min_free_internal h))
    (u32 (hs_min_free_psram h)) (u32 (hs_largest_free_psram_block h)).

Definition report_rows (r : NodeReport) : list TeleOut :=
  match r with
  | RTable _ _ => []
  | RMetrics addr s =>
      [OutNodeRows [metric_row addr (str "ESP-NOW") (ps_espnow s);
                    metric_row addr (str "LoRa") (ps_lora s)]]
  | RHeap addr h =>
      let h := u32_heap h in
      [OutHeapRow (mk_HeapRow 0 (hex4 true addr) (hs_free_internal h) (hs_free_psram h)
         (hs_min_free_internal h) (hs_min_free_psram h) (hs_largest_free_psram_block h))]
  end.

Definition untimed (o : TeleOut) : TeleOut :=
  match o with
  | OutNodeRows rows =>
      OutNodeRows (map (fun r => mk_NodeRow 0 (nr_node_id r) (nr_transport r) (nr_tx r) (nr_rx r)
        (nr_fail r) (nr_retransmit r) (nr_latency_ms r) (nr_duty_cycle_ms r)) rows)
  | OutHeapRow r =>
      OutHeapRow (mk_HeapRow 0 (hr_node_id r) (hr_free_internal r) (hr_free_psram r)
        (hr_min_internal r) (hr_min_psram r) (hr_largest_block r))
  end.

(** Reports arriving, and the goroutine taking them. *)
Inductive ReportEvent :=
  | ReArrive (r : NodeReport)
  | ReTopo (now : Z)
  | ReMetric (now : Z).

Definition raw_event (ev : ReportEvent) : TeleEvent :=
  match ev with
  | ReArrive r => TeMessage (wire r).1 (wire r).2
  | ReTopo now => TeTopo now
  | ReMetric now => TeMetric now
  end.

Definition reports (evs : list ReportEvent) : list NodeReport :=
  omap (fun ev => match ev with ReArrive r => Some r | _ => None end) evs.

(** No message meets a full channel. *)
Fixpoint room_along (evs : list ReportEvent) (sv : TeleServer) : bool :=
  match evs with
  | [] => true
  | ev :: evs' =>
      (match ev with
       | ReArrive (RTable _ _) => (length (ts_topoCh sv) <? topoCh_cap)%nat
       | ReArrive _ => (length (ts_metricCh sv) <? metricCh_cap)%nat
       | _ => true
       end) && room_along evs' (tele_step sv (raw_event ev)).1
  end.

Definition node_neighbors (nodes : gmap GoString NodeState) (nid : GoString) : list GoNeighbor :=
  from_option ns_Neighbors [] (nodes !! nid).
Definition node_heap (nodes : gmap GoString NodeState) (nid : GoString) : option HeapStats :=
  nodes !! nid ≫= ns_Heap.

(** ** Messages *)

Lemma split_slash_app a b :
  Forall (fun c => c ≠ 47) a → split_slash (a ++ 47 :: b) = a :: split_slash b.
Proof.
  induction 1 as [ | c a Hc _ IH ]; cbn [app split_slash].
  - destruct (split_slash b) eqn:E; [ | done ]. destruct b; cbn in E; [ done | ].
    repeat case_match; done.
  - rewrite IH. by replace (c =? 47) with false by lia.
Qed.

Lemma hex4_no_slash z : Forall (fun c => c ≠ 47) (hex4 true z).
Proof. unfold hex4, hex_digit. cbn [map]. repeat constructor; case_match; lia. Qed.

Lemma hex4_inj a b : is_u16 a → is_u16 b → hex4 true a = hex4 true b → a = b.
Proof. intros Ha Hb E. by rewrite <- (strtoul_hex4 a), <- (strtoul_hex4 b), E. Qed.

Lemma split_report addr id :
  id ∈ [RELAY_HEAP; RELAY_METRICS; RELAY_TOPOLOGY] →
  split_slash (report_topic addr id) = [str "flp"; hex4 true addr; relay_topic_suffix id].
Proof.
  intros Hid. unfold report_topic. change (str "flp/") with (str "flp" ++ [47]). rewrite <- app_assoc.
  cbn [app]. rewrite split_slash_app by (repeat constructor; done). f_equal.
  change (str "/") with [47]. cbn [app]. rewrite split_slash_app by apply hex4_no_slash. f_equal.
  rewrite !elem_of_cons, elem_of_nil in Hid. destruct Hid as [-> | [-> | [-> | []]]]; reflexivity.
Qed.

Lemma word_concat l k z rest :
  Forall is_u32 l → l !! k = Some z → word k (concat (map (le_bytes 4) l) ++ rest) = z.
Proof.
  intros Hl. revert k. induction Hl as [ | v l Hv Hl IH ]; intros k Hk; [ done | ].
  destruct k as [ | k ]; cbn [lookup list_lookup] in Hk.
  - injection Hk as ->. unfold word. cbn [map concat]. rewrite <- app_assoc, Nat.mul_0_r, drop_0.
    rewrite take_app_le, take_ge by (by rewrite length_le_bytes).
    by apply le_value_bytes.
  - rewrite <- (IH k Hk). unfold word. cbn [map concat]. rewrite <- app_assoc.
    replace (4 * S k)%nat with (length (le_bytes 4 v) + 4 * k)%nat by (rewrite length_le_bytes; lia).
    by rewrite drop_app_add.
Qed.

(** ** The server follows the reports *)

Definition topo_msg (p : Z * RouteTable) : TopoMsg :=
  mk_TopoMsg (hex4 true p.1) (default [] (serialize kTopoBufSize p.2)).
Definition metric_msg (r : NodeReport) : MetricMsg :=
  match r with
  | RHeap addr h => mk_MetricMsg (hex4 true addr) MetricKindHeap (heap_serialize 20 h)
  | RMetrics addr s => mk_MetricMsg (hex4 true addr) MetricKindNode (default [] (serialize_metrics 48 s))
  | RTable addr _ => mk_MetricMsg (hex4 true addr) MetricKindNode []
  end.

Definition table_view (t : option RouteTable) : list GoNeighbor :=
  from_option (fun t => go_view <$> rt_neighbors t) [] t.

Definition nodes_follow (done : list (Z * RouteTable)) (heaps : list (Z * HeapStats))
    (nodes : gmap GoString NodeState) : Prop :=
  (∀ addr, is_u16 addr → node_neighbors nodes (hex4 true addr) = table_view (last_of addr done)) ∧
  (∀ addr, is_u16 addr → node_heap nodes (hex4 true addr) = u32_heap <$> last_of addr heaps) ∧
  (∀ nid, is_Some (nodes !! nid) ↔
     ∃ addr, nid = hex4 true addr ∧ (addr ∈ map fst done ∨ addr ∈ map fst heaps)).

Lemma last_of_snoc {A} addr l (p : Z * A) :
  last_of addr (l ++ [p]) = if p.1 =? addr then Some p.2 else last_of addr l.
Proof.
  unfold last_of. rewrite List.filter_app. cbn [List.filter]. destruct (p.1 =? addr).
  - by rewrite last_snoc.
  - by rewrite app_nil_r.
Qed.

Lemma serialize_parsed t :
  table_inv t → go_parse (default [] (serialize kTopoBufSize t)) = Some (go_view <$> rt_neighbors t).
Proof.
  intros Ht. pose proof (serialize_roundtrip kTopoBufSize t Ht) as H. pose proof (ti_len t Ht) as Hl.
  destruct (serialize _ _); [ exact (proj1 H) | ]. unfold kTopoBufSize, get_count, MAX_NEIGHBORS in *. lia.
Qed.

Lemma Update_follows now done heaps nodes p :
  is_u16 p.1 → table_inv p.2 → Forall (fun q => is_u16 q.1) done →
  nodes_follow done heaps nodes →
  nodes_follow (done ++ [p]) heaps (Update now (tm_NodeID (topo_msg p)) (tm_Payload (topo_msg p)) nodes).
Proof.
  intros Hp Ht Hd (Hn & Hh & Hk). unfold Update. cbn [topo_msg tm_NodeID tm_Payload].
  rewrite serialize_parsed by done. split_and!.
  - intros addr Ha. rewrite last_of_snoc. unfold node_neighbors. destruct (p.1 =? addr) eqn:E.
    + apply Z.eqb_eq in E as ->. by rewrite lookup_insert_eq.
    + apply Z.eqb_neq in E. rewrite lookup_insert_ne by (intros C; by apply hex4_inj in C). by apply Hn.
  - intros addr Ha. rewrite <- Hh by done. unfold node_heap. destruct (decide (p.1 = addr)) as [-> | E].
    + by rewrite lookup_insert_eq.
    + rewrite lookup_insert_ne by (intros C; by apply hex4_inj in C). done.
  - intros nid. rewrite lookup_insert_is_Some, map_app. setoid_rewrite elem_of_app. cbn [map].
    setoid_rewrite list_elem_of_singleton. rewrite Hk. destruct (decide (hex4 true p.1 = nid)); naive_solver.
Qed.

Lemma heap_words h : let b := heap_serialize 20 h in
  length b = 20%nat ∧ mk_heap (word 0 b) (word 1 b) (word 2 b) (word 3 b) (word 4 b) = u32_heap h.
Proof.
  cbv zeta. unfold heap_serialize. change (20 <? 20) with false. split; [ done | ].
  assert (Hw : ∀ k z, heap_vals h !! k = Some z → word k (concat (map (le_bytes 4) (heap_vals h))) = z).
  { intros k z Hk. rewrite <- (app_nil_r (concat _)). apply word_concat; [ | done ].
    unfold heap_vals. repeat constructor; apply u32_range. }
  unfold u32_heap. f_equal; by apply Hw.
Qed.

Lemma UpdateHeap_follows now done heaps nodes addr h :
  is_u16 addr → nodes_follow done heaps nodes →
  nodes_follow done (heaps ++ [(addr, h)]) (UpdateHeap now (hex4 true addr) (heap_serialize 20 h) nodes).
Proof.
  intros Ha (Hn & Hh & Hk). destruct (heap_words h) as [Hl Hw]. unfold UpdateHeap.
  rewrite Hl, Hw. change (Z.of_nat 20 <? 20) with false. cbv iota.
  set (st := match nodes !! hex4 true addr with
             | Some state => state <| ns_Heap := Some (u32_heap h) |>
             | None => mk_NodeState now [] (Some (u32_heap h)) end).
  assert (Hst : ns_Heap st = Some (u32_heap h) ∧ ns_Neighbors st = node_neighbors nodes (hex4 true addr)).
  { unfold st, node_neighbors. by destruct (nodes !! _). }
  assert (E : match nodes !! hex4 true addr with
    | Some state => <[hex4 true addr := state <| ns_Heap := Some (u32_heap h) |>]> nodes
    | None => <[hex4 true addr := mk_NodeState now [] (Some (u32_heap h))]> nodes end
    = <[hex4 true addr := st]> nodes) by (unfold st; by destruct (nodes !! _)).
  rewrite E. clear E. clearbody st. destruct Hst as [Hst1 Hst2]. split_and!.
  - intros a Hu. rewrite <- Hn by done. unfold node_neighbors at 1. destruct (decide (addr = a)) as [-> | Hne].
    + by rewrite lookup_insert_eq.
    + rewrite lookup_insert_ne by (intros C; by apply hex4_inj in C). done.
  - intros a Hu. rewrite last_of_snoc. cbn [fst snd]. unfold node_heap. destruct (addr =? a) eqn:E.
    + apply Z.eqb_eq in E as ->. by rewrite lookup_insert_eq.
    + apply Z.eqb_neq in E. rewrite lookup_insert_ne by (intros C; by apply hex4_inj in C). by apply Hh.
  - intros nid. rewrite lookup_insert_is_Some, map_app. setoid_rewrite elem_of_app. cbn [map fst].
    setoid_rewrite list_elem_of_singleton. rewrite Hk. destruct (decide (hex4 true addr = nid)); naive_solver.
Qed.

Lemma RecordNode_rows now addr s :
  report_ok (RMetrics addr s) →
  map untimed (RecordNode now (hex4 true addr) (default [] (serialize_metrics 48 s))) =
  report_rows (RMetrics addr s).
Proof.
  intros [_ Hs]. unfold serialize_metrics. change (48 <? 48) with false. cbv iota. cbn [default from_option]. unfold id.
  set (l := metrics_vals (ps_espnow s) ++ metrics_vals (ps_lora s)) in *.
  assert (E : metrics_bytes (ps_espnow s) ++ metrics_bytes (ps_lora s) = concat (map (le_bytes 4) l) ++ [])
    by (rewrite app_nil_r; reflexivity).
  unfold RecordNode. change (Z.of_nat (length (metrics_bytes (ps_espnow s) ++ metrics_bytes (ps_lora s))) <? 48)
    with false. cbv iota. rewrite E.
  assert (Hw : ∀ k z, l !! k = Some z → word k (concat (map (le_bytes 4) l) ++ []) = z)
    by (intros; by apply word_concat).
  unfold report_rows, metric_row, transports, node_row. cbn [imap map untimed nr_node_id nr_transport nr_tx
    nr_rx nr_fail nr_retransmit nr_latency_ms nr_duty_cycle_ms compose Nat.mul Nat.add].
  rewrite (Hw 0%nat _ eq_refl), (Hw 1%nat _ eq_refl), (Hw 2%nat _ eq_refl), (Hw 3%nat _ eq_refl),
    (Hw 4%nat _ eq_refl), (Hw 5%nat _ eq_refl), (Hw 6%nat _ eq_refl), (Hw 7%nat _ eq_refl),
    (Hw 8%nat _ eq_refl), (Hw 9%nat _ eq_refl), (Hw 10%nat _ eq_refl), (Hw 11%nat _ eq_refl).
  done.
Qed.

Lemma RecordHeap_rows now addr h :
  map untimed (RecordHeap now (hex4 true addr) (heap_serialize 20 h)) = report_rows (RHeap addr h).
Proof.
  destruct (heap_words h) as [Hl Hw]. unfold RecordHeap. rewrite Hl. change (Z.of_nat 20 <? 20) with false.
  cbv iota. cbn [map untimed hr_node_id hr_free_internal hr_free_psram hr_min_internal hr_min_psram
    hr_largest_block report_rows]. rewrite <- Hw. done.
Qed.

(** Reports seen so far against the server's state and the rows so far. *)
Definition tracks (rs : list NodeReport) (sv : TeleServer) (out : list TeleOut) : Prop :=
  ∃ done pend mdone mpend,
    report_tables rs = done ++ pend ∧ report_metrics rs = mdone ++ mpend ∧
    ts_topoCh sv = topo_msg <$> pend ∧ ts_metricCh sv = metric_msg <$> mpend ∧
    nodes_follow done (report_heaps mdone) (ts_nodes sv) ∧
    map untimed out = concat (map report_rows mdone).

Lemma tables_ok rs :
  Forall report_ok rs → Forall (fun p => is_u16 p.1 ∧ table_inv p.2) (report_tables rs).
Proof.
  induction 1 as [ | r rs Hr _ IH ]; [ constructor | ]. destruct r; cbn; [ | exact IH | exact IH ].
  by constructor.
Qed.

Lemma metrics_ok rs :
  Forall report_ok rs → Forall (fun r => is_metric r = true ∧ report_ok r) (report_metrics rs).
Proof.
  induction 1 as [ | r rs Hr _ IH ]; [ constructor | ]. destruct r; cbn; [ exact IH | | ]; by constructor.
Qed.

Lemma arrive_step r rs sv out :
  tracks rs sv out →
  (if is_metric r then (length (ts_metricCh sv) <? metricCh_cap)%nat
   else (length (ts_topoCh sv) <? topoCh_cap)%nat) = true →
  tracks (rs ++ [r]) (onMessage_telemetry (wire r).1 (wire r).2 sv) out.
Proof.
  intros (done & pend & mdone & mpend & Hd & Hm & Ht & Hmc & Hf & Ho) Hroom.
  unfold onMessage_telemetry, report_metrics in *.
  destruct r as [a t | a s | a h]; cbn [wire fst snd is_metric] in *;
    (rewrite split_report by (rewrite !elem_of_cons; auto));
    [ rewrite bool_decide_true by done
    | rewrite bool_decide_false, bool_decide_true by done
    | rewrite !bool_decide_false, bool_decide_true by done ];
    unfold tracks, report_tables, report_metrics, try_send in *; rewrite List.filter_app, omap_app;
    cbn [List.filter is_metric omap list_omap]; rewrite ?app_nil_r, ?Hd, ?Hm, <- ?app_assoc;
    cbn -[Nat.ltb topoCh_cap metricCh_cap]; rewrite Hroom.
  - exists done, (pend ++ [(a, t)]), mdone, mpend. rewrite fmap_app, Ht, Hmc. done.
  - exists done, pend, mdone, (mpend ++ [RMetrics a s]). rewrite fmap_app, Ht, Hmc. done.
  - exists done, pend, mdone, (mpend ++ [RHeap a h]). rewrite fmap_app, Ht, Hmc. done.
Qed.

Lemma topo_step now rs sv out :
  Forall report_ok rs → tracks rs sv out → tracks rs (run_topo now sv) out.
Proof.
  intros Hok (done & pend & mdone & mpend & Hd & Hm & Ht & Hmc & Hf & Ho). unfold run_topo.
  destruct pend as [ | q pend ]; rewrite Ht; cbn [fmap list_fmap].
  { exists done, [], mdone, mpend. done. }
  pose proof (tables_ok rs Hok) as Hts. rewrite Hd, Forall_app, Forall_cons in Hts.
  destruct Hts as (Hdone & [Hq Hqt] & _).
  exists (done ++ [q]), pend, mdone, mpend. rewrite <- app_assoc. split_and!; try done.
  change (ts_nodes (_ <| ts_nodes ::= ?f |>)) with (f (ts_nodes sv)). cbn [ts_nodes].
  apply Update_follows; [ done | done | | exact Hf ].
  eapply Forall_impl; [ exact Hdone | ]. by intros ? [? _].
Qed.

Lemma report_heaps_app a b : report_heaps (a ++ b) = report_heaps a ++ report_heaps b.
Proof. apply omap_app. Qed.

Lemma metric_step now rs sv out :
  Forall report_ok rs → tracks rs sv out →
  let '(sv', out') := run_metric now sv in tracks rs sv' (out ++ out').
Proof.
  intros Hok (done & pend & mdone & mpend & Hd & Hm & Ht & Hmc & Hf & Ho). unfold run_metric.
  destruct mpend as [ | r mpend ]; rewrite Hmc; cbn [fmap list_fmap].
  { rewrite app_nil_r. exists done, pend, mdone, []. done. }
  pose proof (metrics_ok rs Hok) as Hms. rewrite Hm, Forall_app, Forall_cons in Hms.
  destruct Hms as (_ & [Hr Hrok] & _). cbv zeta.
  destruct r as [a t | a s | a h]; cbn [metric_msg mx_Kind mx_NodeID mx_Payload]; [ done | | ];
    exists done, pend; [ exists (mdone ++ [RMetrics a s]) | exists (mdone ++ [RHeap a h]) ]; exists mpend;
    rewrite <- app_assoc, report_heaps_app, !map_app, concat_app, Ho; (split_and!; try done).
  - cbn [report_heaps omap list_omap]. rewrite app_nil_r. exact Hf.
  - rewrite RecordNode_rows by done. cbn [map concat]. by rewrite app_nil_r.
  - apply UpdateHeap_follows; [ exact Hrok | exact Hf ].
  - rewrite RecordHeap_rows. cbn [map concat]. by rewrite app_nil_r.
Qed.

Lemma tracks_run evs rs sv out :
  Forall report_ok (rs ++ reports evs) → room_along evs sv = true → tracks rs sv out →
  let '(sv', out') := tele_run (map raw_event evs) sv in tracks (rs ++ reports evs) sv' (out ++ out').
Proof.
  revert rs sv out. induction evs as [ | ev evs IH ]; intros rs sv out Hok Hroom Htr.
  { cbn. by rewrite !app_nil_r. }
  cbn [room_along map tele_run] in *. apply andb_true_iff in Hroom as [Hr Hroom].
  assert (Hstep : tracks (rs ++ reports [ev]) (tele_step sv (raw_event ev)).1
                    (out ++ (tele_step sv (raw_event ev)).2)).
  { destruct ev as [r | now | now]; cbn [raw_event tele_step reports omap list_omap fst snd];
      rewrite ?app_nil_r.
    - apply arrive_step; [ done | ]. by destruct r.
    - apply topo_step; [ by apply Forall_app in Hok as [? _] | done ].
    - pose proof (metric_step now rs sv out) as H. destruct (run_metric now sv).
      apply H; [ by apply Forall_app in Hok as [? _] | done ]. }
  destruct (tele_step sv (raw_event ev)) as [sv1 out1]. cbn [fst snd] in *.
  assert (Hre : reports (ev :: evs) = reports [ev] ++ reports evs) by apply (omap_app _ [ev] evs).
  rewrite Hre, (app_assoc rs) in Hok. rewrite Hre, (app_assoc rs). specialize (IH _ sv1 (out ++ out1) Hok Hroom Hstep).
  destruct (tele_run (map raw_event evs) sv1) as [sv2 out2]. by rewrite (app_assoc out).
Qed.

(** C25: The server's picture is what the nodes reported. When reports of
    nodes (neighbour tables, transport counters, heap figures, in the bytes
    and under the topics they publish) arrive in any order, interleaved in
    any way with the telemetry goroutine, and no channel is full when one
    arrives: then of the reports, taken in order, all but those still in the
    two channels are accounted for. For every node address the aggregator
    holds exactly the neighbours of the last table and the heap figures of
    the last heap report taken from that node, it knows no other node, and
    the rows handed to the database are exactly the counters reported, in
    order, each in its column. *)
Theorem telemetry_tracks evs :
  Forall report_ok (reports evs) → room_along evs tele_new = true →
  let '(sv, out) := tele_run (map raw_event evs) tele_new in
  let tables := report_tables (reports evs) in
  let metrics := report_metrics (reports evs) in
  let taken := take (length tables - length (ts_topoCh sv)) tables in
  let recorded := take (length metrics - length (ts_metricCh sv)) metrics in
  (∀ addr, is_u16 addr →
     node_neighbors (ts_nodes sv) (hex4 true addr) = table_view (last_of addr taken) ∧
     node_heap (ts_nodes sv) (hex4 true addr) = u32_heap <$> last_of addr (report_heaps recorded)) ∧
  (∀ nid, is_Some (ts_nodes sv !! nid) ↔
     ∃ addr, nid = hex4 true addr ∧ (addr ∈ map fst taken ∨ addr ∈ map fst (report_heaps recorded))) ∧
  map untimed out = concat (map report_rows recorded).
Proof.
  intros Hok Hroom. pose proof (tracks_run evs [] tele_new [] Hok Hroom) as H.
  destruct (tele_run _ _) as [sv out]. cbn [app] in H.
  destruct H as (done & pend & mdone & mpend & Hd & Hm & Ht & Hmc & (Hn & Hh & Hk) & Ho).
  { exists [], [], [], []. split_and!; try done.
    split_and!; [ done | done | intros nid; split ].
    - intros [? E]. done.
    - intros (addr & _ & [C | C]); by apply elem_of_nil in C. }
  cbv zeta. rewrite Ht, Hmc, Hd, Hm, !length_fmap, !length_app, !Nat.add_sub, !take_app_length.
  split; [ intros addr Ha; by split; [ apply Hn | apply Hh ] | by split ].
Qed.

Definition demo_reports : list ReportEvent :=
  [ReArrive (RTable 255 demo_table); ReArrive (RHeap 255 (mk_heap 1000 (2 ^ 32) 3 4 5)); ReMetric 10;
   ReArrive (RTable 10 routes_new); ReArrive (RMetrics 10 (mk_selector (mk_metrics 1 2 3 4 5 6) metrics_new 0));
   ReTopo 20; ReTopo 30; ReArrive (RTable 255 routes_new); ReMetric 40].

Lemma telemetry_tracks_witness :
  Forall report_ok (reports demo_reports) ∧
  (let '(sv, out) := tele_run (map raw_event demo_reports) tele_new in
   node_neighbors (ts_nodes sv) (str "00FF") = go_view <$> rt_neighbors demo_table ∧
   node_heap (ts_nodes sv) (str "00FF") = Some (mk_heap 1000 0 3 4 5) ∧ length (ts_topoCh sv) = 1%nat).
Proof.
  assert (Hn : table_inv routes_new) by (split; [ done | constructor | constructor | done ]).
  assert (Hok : Forall report_ok (reports demo_reports)).
  { change (Forall report_ok [RTable 255 demo_table; RHeap 255 (mk_heap 1000 (2 ^ 32) 3 4 5);
      RTable 10 routes_new; RMetrics 10 (mk_selector (mk_metrics 1 2 3 4 5 6) metrics_new 0);
      RTable 255 routes_new]).
    rewrite !Forall_cons. pose proof demo_table_inv. split_and!; cbn -[demo_table routes_new];
      try done; try int_lia; try (split; [ int_lia | done ]).
    split; [ int_lia | ]. change (Forall is_u32 [1; 2; 3; 4; 5; 6; 0; 0; 0; 0; 0; 0]).
    rewrite !Forall_cons, Forall_nil. split_and!; int_lia || done. }
  split; [ exact Hok | ].
  pose proof (telemetry_tracks demo_reports Hok ltac:(vm_compute; reflexivity)) as H.
  destruct (tele_run _ _) as [sv out] eqn:E. cbv zeta in H. destruct H as [H _].
  assert (El : (fun r => (length (ts_topoCh r.1), length (ts_metricCh r.1)))
    (tele_run (map raw_event demo_reports) tele_new) = (1%nat, 0%nat)) by (vm_compute; reflexivity).
  rewrite E in El. cbn [fst] in El. injection El as E1 E2. rewrite E1, E2 in H.
  clear E. destruct (H 255 ltac:(int_lia)) as [H1 H2]. split_and!; [ | | exact E1 ].
  - refine (eq_trans _ (eq_trans H1 _)); vm_compute; reflexivity.
  - refine (eq_trans _ (eq_trans H2 _)); vm_compute; reflexivity.
Defined.

(** ** How the reports come to the broker *)

Section published.
Context {X : Type} (p : Platform X).

Definition publish_wire (c : MqttClient) (n : Net X) (w : list Z * list Z) : Net X :=
  on_x (fun x => (publish_raw (pf_mqtt p) w.1 w.2 1 c x).2) n.

(** An exit publishes its reports as [wire] says. *)
Lemma wire_published m n c h :
  mm_has_internet m = true → nt_mqtt n = Some c → table_inv (nt_routes n) →
  (∀ x, pf_heap_serialize p x = heap_serialize 20 h) →
  publish_all_telemetry p m n =
  fold_left (publish_wire c)
    [wire (RTable (mm_addr m) (nt_routes n)); wire (RMetrics (mm_addr m) (nt_selector n));
     wire (RHeap (mm_addr m) h)] n.
Proof.
  intros Hi Hc Ht Hh. unfold publish_all_telemetry. rewrite Hh.
  assert (Hpub : ∀ id d n', nt_mqtt n' = Some c →
    relay_publish p id d m n' = publish_wire c n' (report_topic (mm_addr m) id, d)).
  { intros id d n' Hn'. unfold relay_publish, mqtt_publish_raw. by rewrite Hi, Hn', bool_decide_true by done. }
  pose proof (serialize_parsed _ Ht) as Hs. cbn [wire fold_left].
  destruct (serialize _ _) as [b | ] eqn:E; [ | discriminate ].
  rewrite (Hpub RELAY_TOPOLOGY) by done. cbv zeta.
  destruct (serialize_metrics 48 _) as [b' | ] eqn:E'; [ | discriminate ].
  change (nt_selector (publish_wire _ n _)) with (nt_selector n) in E'.
  rewrite (Hpub RELAY_METRICS) by done. change (Z.of_nat (length (heap_serialize 20 h)) >? 0) with true.
  cbv iota. rewrite (Hpub RELAY_HEAP) by done. done.
Qed.

(** And it publishes for a node behind it exactly what that node sent. *)
Lemma wire_relayed addr id data n c :
  nt_mqtt n = Some c → data ≠ [] →
  handle_mesh_pub p addr (id :: data) n = publish_wire c n (report_topic addr id, data).
Proof.
  intros Hc Hd. unfold handle_mesh_pub, mqtt_publish_raw. rewrite Hc. destruct data; [ done | ].
  cbn [length]. destruct (_ <? 2) eqn:E; [ apply Z.ltb_lt in E; lia | done ].
Qed.
End published.

(** ** The graph is well formed and complete *)

Lemma str_gt_irrefl a : str_gt a a = false.
Proof. induction a as [ | x a IH ]; [ done | ]. cbn. by rewrite Z.eqb_refl. Qed.

Lemma str_gt_asym a b : str_gt a b = true → str_gt b a = false.
Proof.
  revert b. induction a as [ | x a IH ]; intros [ | y b ]; cbn; try done.
  rewrite (Z.eqb_sym y). destruct (x =? y); [ by apply IH | lia ].
Qed.

Lemma str_gt_total a b : a ≠ b → str_gt a b = false → str_gt b a = true.
Proof.
  revert b. induction a as [ | x a IH ]; intros [ | y b ]; cbn; try done.
  rewrite (Z.eqb_sym y). intros Hne. destruct (x =? y) eqn:E; [ | lia ].
  apply Z.eqb_eq in E as ->. apply IH. congruence.
Qed.

Lemma edge_key_sym a b : edge_key a b = edge_key b a.
Proof.
  unfold edge_key. destruct (decide (a = b)) as [-> | Hne]; [ done | ].
  destruct (str_gt a b) eqn:E; [ by rewrite str_gt_asym | by rewrite str_gt_total ].
Qed.

Lemma edge_key_eq a b c d : edge_key a b = edge_key c d ↔ (a = c ∧ b = d) ∨ (a = d ∧ b = c).
Proof.
  split.
  - unfold edge_key. repeat case_match; naive_solver.
  - intros [[-> ->] | [-> ->]]; [ done | apply edge_key_sym ].
Qed.

Definition link := (GoString * GoNeighbor)%type.
Definition links (order : list (GoString * NodeState)) : list link :=
  order ≫= (fun p => (fun n => (p.1, n)) <$> ns_Neighbors p.2).
Definition ekey (e : VEdge) : GoString * GoString := edge_key (ve_source e) (ve_target e).

Lemma fold_links {A} (f : A → link → A) order acc :
  fold_left (fun acc p => fold_left (fun acc n => f acc (p.1, n)) (ns_Neighbors p.2) acc) order acc =
  fold_left f (links order) acc.
Proof.
  revert acc. induction order as [ | p order IH ]; intros acc; [ done | ].
  cbn [fold_left]. rewrite IH. unfold links at 2. cbn [mbind list_bind]. rewrite fold_left_app.
  f_equal. generalize (ns_Neighbors p.2) as l. intros l. clear IH. revert acc.
  induction l as [ | n l IHl ]; intros acc; [ done | ]. apply IHl.
Qed.

Lemma elem_of_links order nid n :
  (nid, n) ∈ links order ↔ ∃ info, (nid, info) ∈ order ∧ n ∈ ns_Neighbors info.
Proof.
  unfold links. rewrite list_elem_of_bind. split.
  - intros ([nid' info] & Hin & Ho). apply list_elem_of_fmap in Hin as (n' & [= -> ->] & Hn). eauto.
  - intros (info & Ho & Hn). exists (nid, info). split; [ | done ]. apply list_elem_of_fmap. eauto.
Qed.

(** Edges after some of the links. *)
Definition edges_ok (ls : list link) (acc : gset (GoString * GoString) * list VEdge) : Prop :=
  acc.1 = list_to_set (ekey <$> acc.2) ∧ NoDup (ekey <$> acc.2) ∧
  (∀ l, l ∈ ls → edge_key l.1 (nb_Addr l.2) ∈ ekey <$> acc.2) ∧
  (∀ e, e ∈ acc.2 → ∃ l, l ∈ ls ∧ e = link_edge l.1 l.2).

Lemma add_edge_ok ls l acc :
  edges_ok ls acc → edges_ok (ls ++ [l]) (add_edge l.1 acc l.2).
Proof.
  destruct acc as [seen es], l as [nid n]. intros (Hs & Hnd & Hl & He). cbn [fst snd] in *.
  unfold add_edge. case_bool_decide as Hin; cbn [fst snd] in *.
  - split_and!; try done.
    + intros l [Hls | ->%list_elem_of_singleton]%elem_of_app; [ by apply Hl | ].
      rewrite Hs in Hin. by apply elem_of_list_to_set in Hin.
    + intros e Hes. destruct (He e Hes) as (l & ? & ?). exists l. rewrite elem_of_app. auto.
  - split_and!; cbn [fst snd]; rewrite ?fmap_app; cbn [fmap list_fmap].
    + rewrite list_to_set_app_L, <- Hs. cbn. set_solver.
    + apply NoDup_app. split_and!; [ done | | by apply NoDup_singleton ].
      intros k Hk ->%list_elem_of_singleton. apply Hin. rewrite Hs. by apply elem_of_list_to_set.
    + intros l [Hls | ->%list_elem_of_singleton]%elem_of_app; apply elem_of_app; [ left; by apply Hl | right ].
      by apply list_elem_of_singleton.
    + intros e [Hes | ->%list_elem_of_singleton]%elem_of_app.
      * destruct (He e Hes) as (l & ? & ?). exists l. rewrite elem_of_app. auto.
      * exists (nid, n). rewrite elem_of_app, list_elem_of_singleton. auto.
Qed.

(** Vertices: [base] and the neighbours inferred from some of the links. *)
Definition nodes_ok (base : list VNode) (ls : list link) (acc : gset GoString * list VNode) : Prop :=
  acc.1 = list_to_set (vn_id <$> acc.2) ∧ NoDup (vn_id <$> acc.2) ∧
  (∀ l, l ∈ ls → nb_Addr l.2 ∈ vn_id <$> acc.2) ∧
  (∀ v, v ∈ acc.2 ↔ v ∈ base ∨ v ∈ acc.2 ∧ vn_id v ∉ vn_id <$> base ∧
     ∃ l, l ∈ ls ∧ v = mk_VNode (nb_Addr l.2) Inferred (go_hops_inet l.2) None).

Lemma add_inferred_ok base ls l acc :
  nodes_ok base ls acc → nodes_ok base (ls ++ [l]) (add_inferred acc l.2).
Proof.
  destruct acc as [seen vs], l as [nid n]. intros (Hs & Hnd & Hl & Hv). cbn [fst snd] in *.
  assert (Hbase : ∀ k, k ∈ vn_id <$> base → k ∈ vn_id <$> vs).
  { intros k (v & -> & Hb)%list_elem_of_fmap. apply list_elem_of_fmap. exists v. split; [ done | ].
    apply Hv. by left. }
  unfold add_inferred. case_bool_decide as Hin; cbn [fst snd] in *.
  - split_and!; try done; cbn [fst snd].
    + intros l [Hls | ->%list_elem_of_singleton]%elem_of_app; [ by apply Hl | ].
      rewrite Hs in Hin. by apply elem_of_list_to_set in Hin.
    + intros v. rewrite Hv at 1. setoid_rewrite elem_of_app. naive_solver.
  - assert (Hnew : nb_Addr n ∉ vn_id <$> vs)
      by (intros C; apply Hin; rewrite Hs; by apply elem_of_list_to_set).
    split_and!; cbn [fst snd]; rewrite ?fmap_app; cbn [fmap list_fmap vn_id].
    + rewrite list_to_set_app_L, <- Hs. cbn. set_solver.
    + apply NoDup_app. split_and!; [ done | | by apply NoDup_singleton ].
      intros k Hk ->%list_elem_of_singleton. done.
    + intros l [Hls | ->%list_elem_of_singleton]%elem_of_app; apply elem_of_app; [ left; by apply Hl | right ].
      by apply list_elem_of_singleton.
    + intros v. rewrite elem_of_app, list_elem_of_singleton. split.
      * intros [Hin' | ->].
        -- destruct (proj1 (Hv v) Hin') as [Hb | (_ & Hnb & l & Hl' & ->)]; [ by left | right ].
           split_and!; [ by left | done | ]. exists l. rewrite elem_of_app. auto.
        -- right. split_and!; [ by right | by intros C%Hbase | ].
           exists (nid, n). rewrite elem_of_app, list_elem_of_singleton. auto.
      * intros [Hb | [H _]]; [ left; apply Hv; by left | exact H ].
Qed.

Lemma fold_snoc {A B} (P : list B → A → Prop) (f : A → B → A) l done acc :
  (∀ ls x a, P ls a → P (ls ++ [x]) (f a x)) → P done acc → P (done ++ l) (fold_left f l acc).
Proof.
  intros Hf. revert done acc. induction l as [ | x l IH ]; intros done acc H; [ by rewrite app_nil_r | ].
  cbn [fold_left]. replace (done ++ x :: l) with ((done ++ [x]) ++ l) by (by rewrite <- app_assoc).
  apply IH. by apply Hf.
Qed.

Lemma elem_of_order (nodes : gmap GoString NodeState) order nid info :
  order ≡ₚ map_to_list nodes → (nid, info) ∈ order ↔ nodes !! nid = Some info.
Proof. intros ->. apply elem_of_map_to_list. Qed.

Lemma elem_of_links_map (nodes : gmap GoString NodeState) order nid n :
  order ≡ₚ map_to_list nodes →
  (nid, n) ∈ links order ↔ ∃ info, nodes !! nid = Some info ∧ n ∈ ns_Neighbors info.
Proof. intros Ho. rewrite elem_of_links. by setoid_rewrite (elem_of_order nodes order _ _ Ho). Qed.

Lemma base_entries (now : Z) (nodes : gmap GoString NodeState) (order : list (GoString * NodeState)) :
  order ≡ₚ map_to_list nodes →
  let base := map (fun p => nodeEntry now p.1 p.2) order in
  vn_id <$> base = map fst order ∧ NoDup (vn_id <$> base) ∧
  (∀ v, v ∈ base ↔ ∃ info, nodes !! vn_id v = Some info ∧ v = nodeEntry now (vn_id v) info).
Proof.
  intros Ho base. assert (Hids : vn_id <$> base = map fst order).
  { unfold base. clear. induction order; cbn; [ done | by f_equal ]. }
  split_and!; [ done | | ].
  - rewrite Hids. change (NoDup (order.*1)). rewrite Ho. apply NoDup_fst_map_to_list.
  - intros v. unfold base. change (map ?f order) with (f <$> order). rewrite list_elem_of_fmap. split.
    + intros ([nid info] & -> & Hin). exists info. split; [ | done ]. by apply (elem_of_order nodes order).
    + intros (info & E & Hv). exists (vn_id v, info). split; [ done | ]. by apply (elem_of_order nodes order).
Qed.

Lemma edges_all order : edges_ok (links order) (fold_left (fun acc l => add_edge l.1 acc l.2) (links order) (∅, [])).
Proof.
  apply (fold_snoc edges_ok _ (links order) []); [ intros; by apply add_edge_ok | ].
  split_and!; cbn; [ done | constructor | by intros ? ?%elem_of_nil | by intros ? ?%elem_of_nil ].
Qed.

Lemma nodes_all base order :
  NoDup (vn_id <$> base) →
  nodes_ok base (links order)
    (fold_left (fun acc l => add_inferred acc l.2) (links order) (list_to_set (vn_id <$> base), base)).
Proof.
  intros Hnd. apply (fold_snoc (nodes_ok base) _ (links order) []); [ intros; by apply add_inferred_ok | ].
  split_and!; cbn; [ done | done | by intros ? ?%elem_of_nil | ].
  intros v. split; [ by left | ]. by intros [? | [? _]].
Qed.

(** C26: The topology graph is exact. Whatever orders Go's two loops over
    the map take, the graph has each vertex once: every node that reports,
    with its own entry, and every neighbour of one that does not report,
    inferred; nothing else. Any two nodes are joined by at most one edge, in
    whichever direction they are reported, every reported link has an edge
    between its two nodes, which are both vertices, and every edge is a
    reported link with the signal and the transport of that report. *)
Theorem graph_exact now nodes order1 order2 :
  order1 ≡ₚ map_to_list nodes → order2 ≡ₚ map_to_list nodes →
  let '(vs, es) := ToJSON now order1 order2 in
  let linked nid n := ∃ info, nodes !! nid = Some info ∧ n ∈ ns_Neighbors info in
  NoDup (vn_id <$> vs) ∧
  (∀ nid info, nodes !! nid = Some info → nodeEntry now nid info ∈ vs) ∧
  (∀ v, v ∈ vs →
     (∃ info, nodes !! vn_id v = Some info ∧ v = nodeEntry now (vn_id v) info) ∨
     nodes !! vn_id v = None ∧
       ∃ nid n, linked nid n ∧ v = mk_VNode (nb_Addr n) Inferred (go_hops_inet n) None) ∧
  NoDup ((fun e => edge_key (ve_source e) (ve_target e)) <$> es) ∧
  (∀ nid n, linked nid n → nid ∈ vn_id <$> vs ∧ nb_Addr n ∈ vn_id <$> vs ∧
     ∃ e, e ∈ es ∧ (ve_source e = nid ∧ ve_target e = nb_Addr n ∨
                    ve_source e = nb_Addr n ∧ ve_target e = nid)) ∧
  (∀ e, e ∈ es → ∃ nid n, linked nid n ∧ e = link_edge nid n).
Proof.
  intros H1 H2. pose proof (base_entries now nodes order1 H1) as (Hids & Hnd & Hb).
  unfold ToJSON. set (base := map _ order1) in *.
  rewrite (fold_links (fun acc l => add_edge l.1 acc l.2)), (fold_links (fun acc l => add_inferred acc l.2)).
  rewrite <- Hids. pose proof (edges_all order1) as He. pose proof (nodes_all base order2 Hnd) as Hn.
  destruct (fold_left _ (links order1) _) as [se es]. destruct (fold_left _ (links order2) _) as [sn vs].
  destruct He as (_ & Hek & Hel & Hes), Hn as (_ & Hvk & Hvl & Hvs). cbn [fst snd] in *. cbv zeta.
  assert (Hnone : ∀ k, k ∉ vn_id <$> base → nodes !! k = None).
  { intros k Hk. apply eq_None_not_Some. intros [info E]. apply Hk. apply list_elem_of_fmap.
    exists (nodeEntry now k info). split; [ done | ]. apply Hb. eauto. }
  split_and!; try done.
  - intros nid info E. apply Hvs. left. apply Hb. eauto.
  - intros v [H | (_ & Hk & [nid n] & H & ->)]%Hvs; [ left; by apply Hb | right ].
    split; [ by apply Hnone | ]. apply (elem_of_links_map nodes) in H; [ eauto | done ].
  - intros nid n H. pose proof H as (info & E & _). split_and!.
    + apply list_elem_of_fmap. exists (nodeEntry now nid info). split; [ done | ].
      apply Hvs. left. apply Hb. eauto.
    + by apply (Hvl (nid, n)), (elem_of_links_map nodes).
    + apply (elem_of_links_map nodes _ _ _ H1) in H. apply Hel in H.
      apply list_elem_of_fmap in H as (e & He & Hin). exists e. split; [ done | ].
      unfold ekey in He. symmetry in He. apply edge_key_eq in He. naive_solver.
  - intros e H. apply Hes in H as ([nid n] & H & ->). apply (elem_of_links_map nodes) in H; [ eauto | done ].
Qed.

Lemma graph_exact_witness :
  let nodes := ts_nodes (tele_run (map raw_event demo_reports) tele_new).1 in
  reverse (map_to_list nodes) ≡ₚ map_to_list nodes ∧
  (let '(vs, es) := ToJSON 70000 (map_to_list nodes) (reverse (map_to_list nodes)) in
   NoDup (vn_id <$> vs) ∧ length vs = 4%nat ∧ length es = 2%nat).
Proof.
  intros nodes. assert (Hr : reverse (map_to_list nodes) ≡ₚ map_to_list nodes) by apply reverse_Permutation.
  split; [ exact Hr | ].
  pose proof (graph_exact 70000 nodes _ _ (reflexivity (map_to_list nodes)) Hr) as H.
  destruct (ToJSON _ _ _) as [vs es] eqn:E. destruct H as [H _]. split; [ exact H | ].
  apply (f_equal (fun r => (length r.1, length r.2))) in E. cbn [fst snd] in E.
  assert (E' : (length vs, length es) = (4%nat, 2%nat)) by (rewrite <- E; vm_compute; reflexivity).
  exact (conj (f_equal fst E') (f_equal snd E')).
Defined.

(** ** The hops of the graph *)

Lemma minHops_view l h :
  0 <= h <= 255 → Forall neighbor_wf l →
  fold_left (fun m n => if go_hops_inet n <? m then go_hops_inet n else m) (go_view <$> l) h =
  fold_left (fun best n => if control_route n then if ne_hops_inet n <? best then ne_hops_inet n else best
                           else best) l h.
Proof.
  intros Hh Hl. revert h Hh. induction Hl as [ | n l [] _ IH ]; intros h Hh; [ done | ].
  cbn [fmap list_fmap fold_left]. change (go_hops_inet (go_view n)) with (ne_hops_inet n).
  unfold control_route, ROUTE_HOPS_UNKNOWN, is_u8 in *.
  destruct (ne_hops_inet n <? 255) eqn:E; [ rewrite orb_true_r | ].
  - apply IH. destruct (_ <? h); lia.
  - replace (ne_hops_inet n <? h) with false by lia. rewrite orb_false_r.
    destruct (ne_has_internet n); by apply IH.
Qed.

(** The graph gives a node that reports the hops of its best
    neighbour, not its own: for a relay with a route one less than the hop
    count it announces to the mesh, and for a node with internet, which
    announces none, whatever its neighbours announce. A node known
    only through a neighbour's report is given its own hop count, so the
    same node's number changes when its first report arrives. *)
Theorem graph_hops_of_best_neighbor {X} (m : MeshManager X) (n : Net X) now nid lastSeen heap :
  table_inv (nt_routes n) →
  let h := vn_hops (nodeEntry now nid
                      (mk_NodeState lastSeen (go_view <$> rt_neighbors (nt_routes n)) heap)) in
  h = min_control_hops_to_internet (nt_routes n) ∧
  (mm_has_internet m = true → compute_hops_to_internet m n = 0) ∧
  (mm_has_internet m = false → h < 254 → compute_hops_to_internet m n = h + 1).
Proof.
  intros Ht h. assert (Eh : h = min_control_hops_to_internet (nt_routes n)).
  { apply minHops_view; [ lia | apply Ht ]. }
  unfold compute_hops_to_internet. rewrite <- Eh. split_and!; [ done | by intros -> | ].
  intros -> Hlt. replace (h <? 254) with true by lia. apply u8_small.
  assert (0 <= h); [ | int_lia ]. rewrite Eh. apply MeshDisplay.min_hops_range. done.
Qed.

Lemma reached_table m n :
  rtc (node_step demo_platform (demo_good 3)) (init demo_platform 3 [] (fun _ => true) None relay_start) (m, n) →
  table_inv (nt_routes n).
Proof.
  intros Hr. pose proof (node_reachable demo_platform 3 demo_heard (demo_good 3) (demo_platform_ok 3)
    ltac:(unfold is_u16; lia) [] (fun _ => true) None relay_start _ relay_start_good ltac:(done) Hr) as Hn.
  destruct Hn as [[[_ Ht _] _] _ _ _]. exact Ht.
Qed.

Lemma relay_turn_table : table_inv (nt_routes relay_turn.2).
Proof. exact (reached_table _ _ relay_turn_reached). Qed.

(** A relay beside an exit is drawn with the hops of the exit. *)
Lemma graph_hops_of_best_neighbor_witness :
  mm_has_internet relay_turn.1 = false ∧
  vn_hops (nodeEntry 0 (str "0003")
    (mk_NodeState 0 (go_view <$> rt_neighbors (nt_routes relay_turn.2)) None)) = 0 ∧
  compute_hops_to_internet relay_turn.1 relay_turn.2 = 1.
Proof.
  pose proof (graph_hops_of_best_neighbor relay_turn.1 relay_turn.2 0 (str "0003") 0 None relay_turn_table) as H.
  cbv zeta in H. destruct H as (_ & _ & H).
  assert (Hi : mm_has_internet relay_turn.1 = false) by (vm_compute; reflexivity).
  assert (Eh : vn_hops (nodeEntry 0 (str "0003")
    (mk_NodeState 0 (go_view <$> rt_neighbors (nt_routes relay_turn.2)) None)) = 0)
    by (vm_compute; reflexivity).
  split_and!; [ exact Hi | exact Eh | ]. rewrite (H Hi); rewrite Eh; lia.
Defined.
