(* ===== verification/FlpClient.v ===== *)
(** * The in-process demo client (main/flp_client.cpp)

    A task that loads a demo payload, from the card or made up, and sends it
    again and again: streamed from the card's read cache, or through the
    serial API's own functions. Its waits sleep and look again; what the
    other tasks do during the [k]-th sleep is a function [env k] of the store
    they share, and a wait that does not end within its fuel is [None]. *)

From Stdlib Require Import ZArith Lia String.
From stdpp Require Import base list numbers option sets gmap relations.
From S2P Require Import Prelude.
From S2P Require Import CString.
From S2P Require Import SdCard.
From S2P Require Import Uart.
Open Scope Z_scope.
Open Scope flp_scope.

Definition DEMO_FILENAME : string := "demo-large.jpg".
Definition CHUNK_SIZE : Z := 1024.
Definition kFallbackPayloadSize : Z := 8192.
Definition DELAY_MS : Z := 500.

Record FlpClient := mk_client {
  fc_wired : bool;                            (* api_ and mgr_ are set *)
  fc_wifi_events : bool;                      (* wifi_events_ is not null *)
  fc_payload_buf : option (list Z);           (* payload_buf_ *)
  fc_payload_size : Z;
  fc_filename : string;
  fc_use_sd_stream : bool;
  fc_sd_cache : SdReadCache
}.
#[export] Instance eta_FlpClient : Eta FlpClient := fun c =>
  mk_client (fc_wired c) (fc_wifi_events c) (fc_payload_buf c) (fc_payload_size c) (fc_filename c)
    (fc_use_sd_stream c) (fc_sd_cache c).

Definition client_new : FlpClient := mk_client false false None 0 EmptyString false (sd_cache_new 0).

(** What the client uses besides the serial API: the mesh manager's start
    with a reader over [sd_cache_], and what it reports of the node. *)
Record ClientHost {M : Type} := mk_client_host {
  ch_uart : UartHost M;
  ch_start_stream : M → list Z → Z → bool * M;
  ch_is_mqtt_connected : M → bool;
  ch_has_internet : M → bool;
  ch_mqtt_bit : M → bool                      (* MQTT_CONNECTED_BIT of the event group *)
}.
Arguments ClientHost : clear implicits.
Arguments mk_client_host {M}.

(** ** Loading the payload *)

Definition fallback_payload : list Z :=
  map (fun i => 65 + i mod 26) (seqZ 0 kFallbackPayloadSize).

(** What the SD drivers answer: [CONFIG_FLP_SD_ENABLED], the bus, the mount,
    and whether the card is mounted already. *)
Record SdSetup := mk_sd_setup {
  sd_enabled : bool;
  sd_bus : SdErr;
  sd_mount : SdErr;
  sd_mounted : bool
}.

Definition load_demo_payload (card : Card) (sd : SdSetup) (c : FlpClient) : FlpClient :=
  let c := c <| fc_use_sd_stream := false |> <| fc_payload_size := 0 |> <| fc_payload_buf := None |> in
  let c :=
    if sd_enabled sd then
      let '(sd_err, mounted) := sdcard_init true (sd_bus sd) (sd_mount sd) (sd_mounted sd) in
      if bool_decide (sd_err = ESP_OK) then
        let '(cache, cache_err) := open card mounted ("/sdcard/" ++ fc_filename c) (fc_sd_cache c) in
        let c := c <| fc_sd_cache := cache |> in
        if bool_decide (cache_err = ESP_OK) then
          let c := c <| fc_payload_size := file_size_ cache |> in
          if fc_payload_size c >? 0 then c <| fc_use_sd_stream := true |> else c
        else c
      else c
    else c in
  if (bool_decide (fc_payload_buf c = None) && negb (fc_use_sd_stream c)) || (fc_payload_size c =? 0)
  then c <| fc_payload_buf := Some fallback_payload |> <| fc_payload_size := kFallbackPayloadSize |>
  else c.

Definition client_init (card : Card) (sd : SdSetup) (wifi_events : bool) (c : FlpClient) : FlpClient :=
  load_demo_payload card sd
    (c <| fc_wired := true |> <| fc_wifi_events := wifi_events |> <| fc_filename := DEMO_FILENAME |>).

(** [sd_cache_.read] as the transfer engine's reader calls it. *)
Definition stream_read (card : Card) (buf : list Z) (offset len : Z) (c : FlpClient)
    : FlpClient * list Z * Z :=
  let '(cache, buf, got) := read card (fc_sd_cache c) buf offset len in
  (c <| fc_sd_cache := cache |>, buf, got).

(** ** A transfer *)

Inductive Outcome :=
  | NoPayload
  | StreamRefused
  | BeginFailed (r : UartResult)
  | DataFailed (offset : Z) (r : UartResult)
  | EndFailed (r : UartResult)
  | Done.

Definition is_ok (r : UartResult) : bool := match r with OK => true | _ => false end.

Section client.
Context {M : Type} (h : ClientHost M) (env : nat → Store M → Store M).
Notation u := (ch_uart h).
Implicit Types (s : Store M) (c : FlpClient).

Definition is_busy s : bool := in_active (us_ingest s).
Definition is_transfer_active s : bool := uh_transfer_active u (us_m s).

(** [while (busy) vTaskDelay(...)] *)
Fixpoint wait_while (fuel : nat) (busy : Store M → bool) (k : nat) s : option (nat * Store M) :=
  match fuel with
  | O => None
  | S fuel' => if busy s then wait_while fuel' busy (S k) (env k s) else Some (k, s)
  end.

(** The FILE_DATA loop: the first failure aborts the ingest. *)
Fixpoint send_chunks (fuel : nat) (payload : list Z) (size offset : Z) s : option Outcome * Store M :=
  match fuel with
  | O => (None, s)
  | S fuel' =>
      if offset <? size then
        let remaining := size - offset in
        let chunk_len := u16 (if remaining <? CHUNK_SIZE then remaining else CHUNK_SIZE) in
        let '(r, s) := file_data u (take (Z.to_nat chunk_len) (drop (Z.to_nat offset) payload)) s in
        if is_ok r then send_chunks fuel' payload size (offset + chunk_len) s
        else (Some (DataFailed offset r), (abort_transfer u s).2)
      else (None, s)
  end.

(** Up to the start of the transfer; [None] when it has started. *)
Definition submit c s : option Outcome * Store M :=
  if fc_use_sd_stream c then
    let '(started, m) := ch_start_stream h (us_m s) (str (fc_filename c)) (fc_payload_size c) in
    let s := s <| us_m := m |> in
    if started then (None, s) else (Some StreamRefused, s)
  else
    let payload := default [] (fc_payload_buf c) in
    let '(r, s) := file_begin u (u32 (fc_payload_size c)) (str (fc_filename c)) s in
    if negb (is_ok r) then (Some (BeginFailed r), s)
    else
      match send_chunks (S (Z.to_nat (fc_payload_size c))) payload (fc_payload_size c) 0 s with
      | (Some out, s) => (Some out, s)
      | (None, s) =>
          let '(r, s) := file_end u s in
          if is_ok r then (None, s) else (Some (EndFailed r), s)
      end.

Definition do_transfer (fuel : nat) (k : nat) c s : option (Outcome * nat * Store M) :=
  if negb (fc_wired c) || (fc_payload_size c =? 0)
     || (bool_decide (fc_payload_buf c = None) && negb (fc_use_sd_stream c))
  then Some (NoPayload, k, s)
  else
    '(k, s) ← wait_while fuel is_busy k s;
    match submit c s with
    | (Some out, s) => Some (out, k, s)
    | (None, s) =>
        '(k, s) ← wait_while fuel is_transfer_active k s;
        Some (Done, S k, env k s)             (* the last delay, of 100 ms *)
    end.

(** ** The task *)

(** [relay]: [CONFIG_FLP_WIFI_DISABLED]. *)
Definition wait_ready (relay : bool) (fuel : nat) (k : nat) c s : option (nat * Store M) :=
  if relay then wait_while fuel (fun s => uh_hops u (us_m s) >=? 255) k s
  else if fc_wifi_events c then wait_while fuel (fun s => negb (ch_mqtt_bit h (us_m s))) k s
  else Some (k, s).

Definition skips (relay : bool) s : bool :=
  if relay then uh_hops u (us_m s) >=? 255
  else negb (ch_is_mqtt_connected h (us_m s)) || ch_has_internet h (us_m s).

(** One turn of [run]'s loop, the delay at its end included. *)
Definition client_turn (relay : bool) (fuel : nat) (k : nat) c s : option (nat * Store M) :=
  if skips relay s then Some (S k, env k s)
  else
    '(_, k, s) ← do_transfer fuel k c s;
    Some (S k, env k s).

Fixpoint client_turns (n : nat) (relay : bool) (fuel : nat) (k : nat) c s : option (nat * Store M) :=
  match n with
  | O => Some (k, s)
  | S n' => '(k, s) ← client_turn relay fuel k c s; client_turns n' relay fuel k c s
  end.

Definition client_run (turns : nat) (relay : bool) (fuel : nat) c s : option (nat * Store M) :=
  '(k, s) ← wait_ready relay fuel 0 c s; client_turns turns relay fuel k c s.
End client.
