(* ===== verification/FlpClientRun.v ===== *)
(** * What the demo client sends, and when it hangs

    The payload is always loaded; a transfer through the serial API's
    functions hands the mesh exactly the payload; and a start the mesh
    refuses leaves the ingest marked busy, for which the next transfer waits
    for ever. *)

From Stdlib Require Import ZArith Lia String.
From stdpp Require Import base list numbers option sets gmap relations.
From S2P Require Import Prelude.
From S2P Require Import CString.
From S2P Require Import SdCard.
From S2P Require Import SdCache.
From S2P Require Import Uart.
From S2P Require Import UartIngest.
From S2P Require Import FlpClient.
Open Scope Z_scope.
Open Scope flp_scope.

Ltac fc_upd := cbn [update_field fc_wired fc_wifi_events fc_payload_buf fc_payload_size fc_filename
  fc_use_sd_stream fc_sd_cache].

(** ** The payload *)

Lemma length_fallback : Z.of_nat (length fallback_payload) = kFallbackPayloadSize.
Proof. unfold fallback_payload. by rewrite length_map, length_seqZ. Qed.

(** The made-up payload, ready to send. *)
Definition fallback_ready (c : FlpClient) : Prop :=
  fc_use_sd_stream c = false ∧ fc_payload_buf c = Some fallback_payload ∧
  fc_payload_size c = kFallbackPayloadSize.

(** The card's file, open in the cache. *)
Definition stream_ready (card : Card) (path : string) (c : FlpClient) : Prop :=
  fc_use_sd_stream c = true ∧
  ∃ mounted s0, open card mounted path s0 = (fc_sd_cache c, ESP_OK) ∧
    fc_payload_size c = file_size_ (fc_sd_cache c) ∧ 0 < fc_payload_size c.

Lemma load_ready card sd c :
  let path := ("/sdcard/" ++ fc_filename c)%string in
  let c' := load_demo_payload card sd c in
  (fallback_ready c' ∨ stream_ready card path c') ∧
  fc_wired c' = fc_wired c ∧ fc_filename c' = fc_filename c.
Proof.
  cbv zeta. unfold load_demo_payload. cbv zeta. fc_upd.
  destruct (sd_enabled sd); fc_upd; [ | split; [ left; done | done ] ].
  destruct (sdcard_init _ _ _ _) as [sd_err mounted].
  destruct (bool_decide (sd_err = ESP_OK)); fc_upd; [ | split; [ left; done | done ] ].
  destruct (open card mounted _ _) as [cache err] eqn:Eo.
  destruct (bool_decide (err = ESP_OK)) eqn:Ee; fc_upd; [ | split; [ left; done | done ] ].
  apply bool_decide_eq_true in Ee as ->.
  destruct (Z.gtb_spec (file_size_ cache) 0); fc_upd; [ | split; [ left; done | done ] ].
  replace (file_size_ cache =? 0) with false by lia. cbn [negb andb orb]. rewrite andb_false_r.
  cbn [orb]. fc_upd. split; [ right; split; [ done | ] | done ].
  exists mounted, (fc_sd_cache c). fc_upd. split; [ done | ]. split; [ done | lia ].
Qed.

(** ** Chunks *)

Section client.
Context {M : Type} (h : ClientHost M).
Notation u := (ch_uart h).
Implicit Types (s : Store M) (c : FlpClient).

Lemma send_chunks_receiving fuel payload name off s :
  writes_all u → Z.of_nat (length payload) <= FLP_INGEST_MAX_SIZE_BYTES →
  0 <= off <= Z.of_nat (length payload) → Z.of_nat (length payload) - off < Z.of_nat fuel →
  receiving u name (Z.of_nat (length payload)) (take (Z.to_nat off) payload) s →
  ∃ s', send_chunks h fuel payload (Z.of_nat (length payload)) off s = (None, s') ∧
    receiving u name (Z.of_nat (length payload)) payload s' ∧ us_m s' = us_m s.
Proof.
  intros Hw Hmax. revert off s. induction fuel as [ | fuel IH ]; intros off s Hoff Hfuel Hr; [ lia | ].
  cbn [send_chunks]. destruct (Z.ltb_spec off (Z.of_nat (length payload))) as [Hlt | Hge].
  2: { exists s. split; [ done | ]. split; [ | done ].
       by rewrite take_ge in Hr by lia. }
  cbv zeta. set (n := u16 _).
  assert (Hn : n = Z.min (Z.of_nat (length payload) - off) CHUNK_SIZE).
  { subst n. unfold CHUNK_SIZE. destruct (Z.ltb_spec (Z.of_nat (length payload) - off) 1024);
      apply u16_small || (rewrite u16_small; [ lia | ]); unfold is_u16; lia. }
  assert (Hn0 : 0 < n <= Z.of_nat (length payload) - off) by (unfold CHUNK_SIZE in Hn; lia).
  set (chunk := take (Z.to_nat n) _).
  assert (Hl : Z.of_nat (length chunk) = n)
    by (subst chunk; rewrite length_take, length_drop; lia).
  assert (Happ : take (Z.to_nat off) payload ++ chunk = take (Z.to_nat (off + n)) payload).
  { subst chunk. rewrite Z2Nat.inj_add by lia. by rewrite <- take_take_drop. }
  destruct (data_receiving u name _ _ chunk s Hw Hr) as [Hok Hr'];
    [ rewrite length_take; lia | done | ].
  pose proof (data_frame u chunk s) as Hf. unfold data_view in Hf. injection Hf as _ Em _ _.
  destruct (file_data u chunk s) as [r s1]. cbn [fst snd] in *. subst r. cbn [is_ok].
  rewrite Happ in Hr'. destruct (IH (off + n) s1) as (s' & E & Hr2 & Em'); [ lia | lia | done | ].
  exists s'. split; [ done | ]. split; [ done | congruence ].
Qed.

(** The serial session of a payload, up to FILE_END. *)
Lemma submit_receiving c payload s :
  fc_use_sd_stream c = false → fc_payload_buf c = Some payload →
  fc_payload_size c = Z.of_nat (length payload) →
  buffered 64 (str (fc_filename c)) = str (fc_filename c) → writes_all u →
  Z.of_nat (length payload) <= FLP_INGEST_MAX_SIZE_BYTES → in_started (us_ingest s) = false →
  (file_begin u (Z.of_nat (length payload)) (str (fc_filename c)) s).1 = OK →
  ∃ s1, receiving u (str (fc_filename c)) (Z.of_nat (length payload)) payload s1 ∧ us_m s1 = us_m s ∧
    submit h c s = let '(r, s2) := file_end u s1 in
                   if is_ok r then (None, s2) else (Some (EndFailed r), s2).
Proof.
  intros Hsd Hbuf Hsize Hname Hw Hmax Hst Hok. unfold FLP_INGEST_MAX_SIZE_BYTES in *.
  pose proof (begin_receiving u (Z.of_nat (length payload)) (str (fc_filename c)) s ltac:(lia) Hst Hok) as Hr.
  pose proof (begin_frame u (Z.of_nat (length payload)) (str (fc_filename c)) s) as Em.
  injection Em as _ Em. rewrite Hname in Hr.
  unfold submit. rewrite Hsd, Hbuf, Hsize, u32_small by (unfold is_u32; lia).
  destruct (file_begin u _ _ s) as [r s1]. cbn [fst snd] in *. subst r. cbn [is_ok negb default from_option].
  rewrite Nat2Z.id.
  destruct (send_chunks_receiving (S (length payload)) payload (str (fc_filename c)) 0 s1)
    as (s2 & E & Hr2 & Em2); [ done | done | lia | lia | done | ].
  exists s2. split; [ done | ]. split; [ congruence | ]. unfold id. by rewrite E.
Qed.
End client.

(** ** The claims *)

(** The client is never without a payload, and what it announces is what
    it can send. Whatever the SD drivers, the card and the heap do, loading
    ends with the 8192-byte pattern, each byte ['A' + i mod 26], or with the
    card's own file open in the cache: then the size announced is the file's,
    and every read the transfer engine makes through the client, of any
    piece and in any order, delivers bytes of that file, all of them when the
    card answers and the piece is no longer than the cache. *)
Theorem client_payload_ready card sd c data reqs :
  let c' := load_demo_payload card sd c in
  sized card → cd_file card ("/sdcard/" ++ fc_filename c)%string = Some data →
  Forall request_ok reqs →
  (fallback_ready c' ∧ ∀ i, 0 <= i < kFallbackPayloadSize → fallback_payload !! Z.to_nat i = Some (65 + i mod 26)) ∨
  (fc_use_sd_stream c' = true ∧ fc_payload_size c' = Z.of_nat (length data) ∧
   Forall2 (SdCache.answers data (fun len => reliable card ∧ len <= cache_capacity_ (fc_sd_cache c'))) reqs
     (reads card (fc_sd_cache c') reqs).2).
Proof.
  cbv zeta. intros Hz Hd Hreqs.
  destruct (load_ready card sd c) as [[Hf | (Hsd & mounted & s0 & Eo & Esz & Hpos)] _].
  - left. split; [ done | ]. intros i Hi. unfold fallback_payload.
    rewrite lookup_map, lookup_seqZ_lt by lia. cbn. do 2 f_equal. lia.
  - right. destruct (open_ok card mounted _ s0 _ data Hz Hd Eo) as [Hinv _]. split; [ done | ].
    split; [ rewrite Esz; apply (inv_size _ _ _ Hinv) | ]. by apply reads_ok.
Qed.

(** The demo client delivers its payload. With the API free, room for the
    file and a mesh that accepts it, submitting a payload through FILE_BEGIN,
    1024-byte FILE_DATA calls and FILE_END starts one transfer under the
    client's file name and the payload's size, and whenever the transfer
    engine reads a piece through the reader it was given, however long after,
    it gets that piece of the payload. *)
Theorem client_delivers_payload {M} (h : ClientHost M) c payload s :
  let u := ch_uart h in
  let name := str (fc_filename c) in
  let size := Z.of_nat (length payload) in
  fc_use_sd_stream c = false → fc_payload_buf c = Some payload → fc_payload_size c = size →
  buffered 64 name = name → writes_all u → size <= FLP_INGEST_MAX_SIZE_BYTES →
  in_started (us_ingest s) = false → (file_begin u size name s).1 = OK →
  (∀ m r, (uh_start u m name size r).1 = true) →
  ∃ s' r, submit h c s = (None, s') ∧
    us_m s' = (uh_start u (uh_clear_done u (us_m s)) name size r).2 ∧
    ∀ s2, rtc (during u) s' s2 → ∀ offset len, 0 <= offset → 0 <= len →
      read_with r s2 offset len = take (Z.to_nat len) (drop (Z.to_nat offset) payload).
Proof.
  cbv zeta. intros Hsd Hbuf Hsize Hname Hw Hmax Hst Hok Hstart.
  destruct (submit_receiving h c payload s Hsd Hbuf Hsize Hname Hw Hmax Hst Hok) as (s1 & Hr & Em & E).
  destruct (uh_start (ch_uart h) (uh_clear_done (ch_uart h) (us_m s1)) (str (fc_filename c))
              (Z.of_nat (length payload)) (reader_of s1)) as [ok m] eqn:Es.
  assert (ok = true) as ->.
  { pose proof (Hstart (uh_clear_done (ch_uart h) (us_m s1)) (reader_of s1)) as H. by rewrite Es in H. }
  destruct (end_sending (ch_uart h) _ _ payload s1 m Hr Es) as (Hend & Hsend & Em').
  destruct (file_end (ch_uart h) s1) as [res s2]. cbn [fst snd] in *. subst res.
  exists s2, (reader_of s1). split; [ done | ]. split; [ by rewrite <- Em, Es | ].
  intros s3 Hd offset len Ho Hlen.
  eapply sending_reads; [ by eapply during_star | done | done ].
Qed.

(** What goes on beside a waiting client when nobody talks on the serial
    line: the UART task's turns without a byte, events, the mesh. *)
Inductive background {M} (u : UartHost M) : Store M → Store M → Prop :=
  | bg_turn p s : background u s (uart_turn u None p s).2
  | bg_event evt s : background u s (push_event evt s)
  | bg_world m s : background u s (s <| us_m := m |>).

Definition stale {M} (s : Store M) : Prop :=
  in_active (us_ingest s) = true ∧ in_started (us_ingest s) = false.

Lemma background_stale {M} (u : UartHost M) s s' : background u s s' → stale s → stale s'.
Proof.
  assert (Hev : ∀ n (s : Store M), stale s → stale (drain_events n s)).
  { induction n as [ | n IH ]; intros s0 Hs; [ done | ]. cbn [drain_events].
    destruct (in_events (us_ingest s0)) as [[ | evt q ] | ]; [ done | | done ]. apply IH, Hs. }
  intros [p s0 | evt s0 | m s0] Hs; [ | apply Hs | apply Hs ].
  unfold uart_turn, poll_transfer_progress. cbn [snd]. rewrite (proj2 Hs). cbn [negb].
  apply Hev. unfold poll_mesh_state. cbv zeta. destruct (_ <? _); [ done | ].
  destruct (_ || _); apply Hs.
Qed.

Lemma wait_stale {M} (env : nat → Store M → Store M) (u : UartHost M) fuel k s :
  (∀ k s, rtc (background u) s (env k s)) → stale s → wait_while env fuel is_busy k s = None.
Proof.
  intros Henv. revert k s. induction fuel as [ | fuel IH ]; intros k s Hs; [ done | ].
  cbn [wait_while]. unfold is_busy. rewrite (proj1 Hs). apply IH.
  pose proof (Henv k s) as Hr. induction Hr as [ | s1 s2 s3 H12 _ IHr ]; [ done | ].
  by apply IHr, (background_stale u s1).
Qed.

(** One refused start hangs the demo client. When the mesh refuses the
    transfer at FILE_END (the node serves as an exit, or another transfer
    runs), [do_transfer] returns, but the ingest stays marked active: the
    branch that reports the failure of [file_end], unlike that of
    [file_data], does not abort it. The next [do_transfer] waits for
    [is_busy] to become false, and no number of sleeps ends the wait, whatever
    the mesh does and however often the UART task polls, unless somebody
    sends a command on the serial line. *)
Theorem refused_start_hangs_client {M} (h : ClientHost M) env c payload s k fuel :
  let u := ch_uart h in
  let name := str (fc_filename c) in
  let size := Z.of_nat (length payload) in
  fc_wired c = true → fc_use_sd_stream c = false → fc_payload_buf c = Some payload →
  fc_payload_size c = size → 0 < size <= FLP_INGEST_MAX_SIZE_BYTES →
  buffered 64 name = name → writes_all u →
  in_started (us_ingest s) = false → in_active (us_ingest s) = false →
  (file_begin u size name s).1 = OK → (∀ m r, (uh_start u m name size r).1 = false) →
  ∃ s', do_transfer h env (S fuel) k c s = Some (EndFailed ERR_NO_TRANSFER, k, s') ∧
    ∀ env' fuel' k', (∀ k s, rtc (background u) s (env' k s)) →
      do_transfer h env' fuel' k' c s' = None.
Proof.
  cbv zeta. intros Hwired Hsd Hbuf Hsize Hrange Hname Hw Hst Ha Hok Hstart.
  destruct (submit_receiving h c payload s Hsd Hbuf Hsize Hname Hw ltac:(lia) Hst Hok) as (s1 & Hr & _ & E).
  assert (Hend : ∃ s2, file_end (ch_uart h) s1 = (ERR_NO_TRANSFER, s2) ∧ stale s2).
  { destruct Hr as [H1 H2 H3 _ H5 H6 _ H8]. unfold file_end. rewrite H1, H2, H3, H5. cbn [negb]. cbv zeta.
    unfold spooled in H8. destruct (in_to_sd (us_ingest s1)) eqn:Esd.
    - destruct H8 as [Hen _]. rewrite (H6 eq_refl), Hen. us_upd.
      match goal with |- context [uh_start ?u ?m ?n ?z ?r] => pose proof (Hstart m r) as Hs;
        destruct (uh_start u m n z r) as [ok m'] end. cbn in Hs. subst ok.
      eexists. split; [ done | ]. by split.
    - destruct H8 as (b & ct & Eb & _). rewrite Eb. us_upd.
      match goal with |- context [uh_start ?u ?m ?n ?z ?r] => pose proof (Hstart m r) as Hs;
        destruct (uh_start u m n z r) as [ok m'] end. cbn in Hs. subst ok.
      eexists. split; [ done | ]. by split. }
  destruct Hend as (s2 & Eend & Hstale). rewrite Eend in E. cbn [is_ok] in E.
  assert (Hgo : ∀ env fuel k s, do_transfer h env fuel k c s =
    ('(k, s) ← wait_while env fuel is_busy k s;
     match submit h c s with
     | (Some out, s) => Some (out, k, s)
     | (None, s) => '(k, s) ← wait_while env fuel (is_transfer_active h) k s; Some (Done, S k, env k s)
     end)).
  { intros. unfold do_transfer. rewrite Hwired, Hsize, Hbuf, Hsd.
    by replace (Z.of_nat (length payload) =? 0) with false by lia. }
  exists s2. split.
  - rewrite Hgo. cbn [wait_while]. unfold is_busy. rewrite Ha. cbn. by rewrite E.
  - intros env' fuel' k' Henv. by rewrite Hgo, (wait_stale env' (ch_uart h) fuel' k' s2 Henv Hstale).
Qed.

(** ** Witnesses *)

Definition demo_client : FlpClient :=
  client_init demo_card (mk_sd_setup false ESP_OK ESP_OK false) false client_new.

(** A mesh that accepts, or refuses, every transfer. *)
Definition demo_client_host (accepts : bool) : ClientHost (list (list Z * Z * Reader)) :=
  let u := demo_uart true in
  mk_client_host
    (mk_uart_host (uh_now_us u) (uh_alloc u) (uh_sd_enabled u) (uh_sd_init u) (uh_fopen u)
       (uh_fwrite u)
       (fun m name size r => if accepts then uh_start u m name size r else (false, m))
       (uh_clear_done u) (uh_transfer_active u) (uh_progress u) (uh_hops u) (uh_neighbors u)
       (uh_status u))
    (fun m _ _ => (false, m)) (fun _ => true) (fun _ => false) (fun _ => true).

Lemma client_payload_ready_witness :
  fallback_ready demo_client ∧ fallback_payload !! 27%nat = Some 66.
Proof.
  destruct (client_payload_ready demo_card (mk_sd_setup false ESP_OK ESP_OK false)
    (client_new <| fc_wired := true |> <| fc_wifi_events := false |> <| fc_filename := DEMO_FILENAME |>)
    (replicate (Z.to_nat 70000) 7) []) as [[H1 H2] | [H _]].
  - intros n m b Hb. unfold demo_card, cd_malloc in Hb.
    destruct (Z.leb_spec 0 m), (m <=? 40000); try done.
    injection Hb as <-. rewrite length_replicate. lia.
  - reflexivity.
  - constructor.
  - split; [ exact H1 | ]. exact (H2 27 ltac:(unfold kFallbackPayloadSize; lia)).
  - discriminate H.
Defined.

Lemma client_delivers_payload_witness :
  ∃ s' r, submit (demo_client_host true) demo_client demo_store = (None, s') ∧
    us_m s' = [(str "demo-large.jpg", 8192, r)] ∧ read_with r s' 26 3 = [65; 66; 67].
Proof.
  destruct (client_delivers_payload (demo_client_host true) demo_client fallback_payload demo_store)
    as (s' & r & H1 & H2 & H3);
    [ reflexivity | reflexivity | by rewrite length_fallback | reflexivity | intros m len; reflexivity
    | by rewrite length_fallback | reflexivity | by rewrite length_fallback | intros m r; reflexivity | ].
  exists s', r. split; [ exact H1 | ]. split; [ by rewrite H2, length_fallback | ].
  exact (H3 _ (rtc_refl _ _) 26 3 ltac:(lia) ltac:(lia)).
Defined.

(** Every sleep is one idle turn of the UART task. *)
Definition idle_env (k : nat) (s : Store (list (list Z * Z * Reader))) : Store (list (list Z * Z * Reader)) :=
  (uart_turn (demo_uart true) None parser_new s).2.

Lemma refused_start_hangs_client_witness :
  ∃ s', do_transfer (demo_client_host false) idle_env 1 0 demo_client demo_store
          = Some (EndFailed ERR_NO_TRANSFER, 0%nat, s') ∧
    do_transfer (demo_client_host false) (fun _ s => s) 1000 0 demo_client s' = None.
Proof.
  destruct (refused_start_hangs_client (demo_client_host false) idle_env demo_client fallback_payload
    demo_store 0 0) as (s' & H1 & H2);
    [ reflexivity | reflexivity | reflexivity | by rewrite length_fallback
    | by rewrite length_fallback | reflexivity | intros m len; reflexivity | reflexivity | reflexivity
    | by rewrite length_fallback | intros m r; reflexivity | ].
  exists s'. split; [ exact H1 | ]. apply H2. intros k s. apply rtc_refl.
Defined.
