(* ===== verification/NodeMain.v ===== *)
(** * Start-up and the WiFi events (main/main.cpp)

    [app_main] is a trace of calls in the code's order, which depends on the
    build configuration; the WiFi event handler acts on the mesh manager. *)

From Stdlib Require Import ZArith Lia String.
From stdpp Require Import base list numbers option sets relations.
From S2P Require Import Prelude.
From S2P Require Import CString.
From S2P Require Import Packet.
From S2P Require Import TransferState.
From S2P Require Import MeshLink.
From S2P Require Import MeshManager.
From S2P Require Import MeshDemo.
Open Scope Z_scope.
Open Scope flp_scope.

(** ** The PSRAM check *)

Definition canary_words : list Z := [3735928559; 3405691582; 305419896; 2596069104].

(** [readback] is what a word of PSRAM holds after a store, by index and value
    stored; [None] when the 16 bytes cannot be allocated. *)
Definition verify_psram_integrity (readback : option (nat → Z → Z)) : bool :=
  match readback with
  | Some rd => forallb (fun '(i, v) => rd i v =? v) (imap pair canary_words)
  | None => false
  end.

(** ** The WiFi handler *)

Inductive WifiEvent := STA_START | STA_DISCONNECTED | GOT_IP | OtherEvent.

Record WifiState {X : Type} := mk_wifi {
  ws_connected_bit : bool;                    (* WIFI_CONNECTED_BIT *)
  ws_connects : nat;                          (* calls of esp_wifi_connect *)
  ws_mesh : MeshManager X
}.
Arguments WifiState : clear implicits.
Arguments mk_wifi {X}.
#[export] Instance eta_WifiState X : Eta (WifiState X) := fun w =>
  mk_wifi (ws_connected_bit w) (ws_connects w) (ws_mesh w).

Definition request_espnow_peer_update {X} (m : MeshManager X) : MeshManager X :=
  m <| mm_peer_update_pending := true |>.

Definition wifi_event_handler {X} (ev : WifiEvent) (w : WifiState X) : WifiState X :=
  match ev with
  | STA_START => w <| ws_connects ::= S |>
  | STA_DISCONNECTED =>
      w <| ws_connects ::= S |> <| ws_connected_bit := false |>
        <| ws_mesh ::= set_has_internet false |>
  | GOT_IP =>
      w <| ws_connected_bit := true |>
        <| ws_mesh ::= fun m => request_espnow_peer_update (set_has_internet true m) |>
  | OtherEvent => w
  end.

(** ** Start-up *)

Inductive Task := mesh_task | mqtt_task | uart_ingest_task | flp_client_task | display_task.

Inductive BootOp :=
  | LogSetVprintf
  | NvsFlashInit
  | NvsFlashErase
  | OledInit
  | NetifInit
  | EventLoopCreate
  | EventGroupCreate
  | CreateWifiSta
  | WifiInit
  | WifiLogLevel
  | WifiSetModeSta
  | RegisterWifiHandler
  | RegisterIpHandler
  | WifiSetConfig (ssid password : list Z)
  | WifiStart
  | WifiSetChannel (ch : Z)
  | VerifyPsram
  | TaskDelay (ms : Z)
  | Restart
  | MeshSetLoraPriority
  | MeshInit
  | MeshSubscribe (topic : list Z)
  | SdcardInit
  | LedConfig (pin : Z)
  | LedLow (pin : Z)
  | MqttSetAddr
  | MqttSetEventGroup
  | MqttInit
  | MeshSetMqtt
  | UartInit
  | MeshSetUart
  | ClientInit
  | AllocDisplayTask
  | CreateTask (t : Task) (core : option Z).

(** The build configuration. *)
Record BuildConfig := mk_config {
  cf_wifi_disabled : bool;
  cf_spiram : bool;
  cf_oled : bool;
  cf_sd : bool;
  cf_led : option Z;                          (* CONFIG_FLP_LED_GPIO when >= 0 *)
  cf_demo_auto : bool;
  cf_channel : Z;
  cf_ssid : list Z;
  cf_password : list Z
}.

(** [strncpy] into [cap] bytes whose last is then cleared. *)
Definition credential (cap : Z) (text : list Z) : list Z := take (Z.to_nat (cap - 1)) text.

(** Calls under [ESP_ERROR_CHECK]. [OledInit], [MeshInit] and [UartInit] count
    as checked: they stop the program themselves when something fails them. *)
Definition checked (ops : list BootOp) : list (BootOp * bool) := map (fun op => (op, true)) ops.
Definition unchecked (ops : list BootOp) : list (BootOp * bool) := map (fun op => (op, false)) ops.
Definition when (b : bool) (ops : list (BootOp * bool)) : list (BootOp * bool) := if b then ops else [].

(** The drivers' answers: [stale_nvs] is ESP_ERR_NVS_NO_FREE_PAGES or
    ESP_ERR_NVS_NEW_VERSION_FOUND from the first [nvs_flash_init]. *)
Definition nvs_ops (stale_nvs : bool) : list (BootOp * bool) :=
  if stale_nvs then unchecked [NvsFlashInit] ++ checked [NvsFlashErase; NvsFlashInit]
  else checked [NvsFlashInit].

Definition relay_wifi_ops (cf : BuildConfig) : list (BootOp * bool) :=
  checked [NetifInit; EventLoopCreate; WifiInit] ++ unchecked [WifiLogLevel] ++
  checked [WifiSetModeSta; WifiStart; WifiSetChannel (cf_channel cf)].

Definition station_wifi_ops (cf : BuildConfig) : list (BootOp * bool) :=
  unchecked [EventGroupCreate] ++ checked [NetifInit; EventLoopCreate] ++
  unchecked [CreateWifiSta] ++ checked [WifiInit] ++ unchecked [WifiLogLevel] ++
  checked [RegisterWifiHandler; RegisterIpHandler; WifiSetModeSta;
           WifiSetConfig (credential 32 (cf_ssid cf)) (credential 64 (cf_password cf)); WifiStart].

(** A failed check restarts the chip: nothing follows it. *)
Definition psram_ops (cf : BuildConfig) : list BootOp := if cf_spiram cf then [VerifyPsram] else [].

Definition component_ops (cf : BuildConfig) : list (BootOp * bool) :=
  unchecked [MeshSetLoraPriority] ++ checked [MeshInit] ++
  unchecked [MeshSubscribe (str "config"); MeshSubscribe (str "alert"); MeshSubscribe (str "msg")] ++
  when (cf_sd cf) (unchecked [SdcardInit]) ++
  match cf_led cf with
  | Some pin => checked [LedConfig pin] ++ unchecked [LedLow pin]
  | None => []
  end ++
  when (negb (cf_wifi_disabled cf)) (unchecked [MqttSetAddr; MqttSetEventGroup; MqttInit; MeshSetMqtt]) ++
  checked [UartInit] ++ unchecked [MeshSetUart; ClientInit].

(** [alloc] is whether the display task's control block and stack are there. *)
Definition task_ops (cf : BuildConfig) (alloc : bool) : list (BootOp * bool) :=
  unchecked [CreateTask mesh_task (Some 1)] ++
  when (negb (cf_wifi_disabled cf)) (unchecked [CreateTask mqtt_task (Some 0)]) ++
  unchecked [CreateTask uart_ingest_task None] ++
  when (cf_demo_auto cf) (unchecked [CreateTask flp_client_task None]) ++
  when (cf_oled cf) (unchecked [AllocDisplayTask] ++
                     when alloc (unchecked [CreateTask display_task None])).

Inductive BootResult := Running | Aborted | Restarted.

Record BootEnv := mk_boot_env {
  be_ok : BootOp → bool;                      (* a guarded call succeeds *)
  be_stale_nvs : bool;
  be_psram : option (nat → Z → Z);
  be_alloc_display : bool
}.

Definition app_main (cf : BuildConfig) (b : BootEnv) : list BootOp * BootResult :=
  let '(first, alive) :=
    run_checked (be_ok b)
      (unchecked [LogSetVprintf] ++ nvs_ops (be_stale_nvs b) ++ when (cf_oled cf) (checked [OledInit]) ++
       (if cf_wifi_disabled cf then relay_wifi_ops cf else station_wifi_ops cf)) in
  if negb alive then (first, Aborted)
  else if cf_spiram cf && negb (verify_psram_integrity (be_psram b))
  then (first ++ psram_ops cf ++ [TaskDelay 100; Restart], Restarted)
  else
    let '(rest, alive) := run_checked (be_ok b) (component_ops cf ++ task_ops cf (be_alloc_display b)) in
    (first ++ psram_ops cf ++ rest, if alive then Running else Aborted).

(** ** What the start-up promises *)

#[export] Instance Task_eq : EqDecision Task.
Proof. solve_decision. Defined.
#[export] Instance BootOp_eq : EqDecision BootOp.
Proof. solve_decision. Defined.

(** What has to be there before a task may run. *)
Definition needs (cf : BuildConfig) (t : Task) : list BootOp :=
  match t with
  | mesh_task =>
      [NvsFlashInit; WifiInit; WifiStart; MeshInit; UartInit; MeshSetUart] ++
      (if cf_wifi_disabled cf then [] else [MqttInit; MeshSetMqtt])
  | mqtt_task => [WifiStart; MqttSetAddr; MqttSetEventGroup; MqttInit]
  | uart_ingest_task => [UartInit; MeshInit]
  | flp_client_task =>
      [ClientInit; UartInit; MeshInit] ++ (if cf_wifi_disabled cf then [] else [EventGroupCreate])
  | display_task => [OledInit; MeshInit; AllocDisplayTask]
  end.

(** What a call needs from the calls before it: the radio stack is up when the
    mesh attaches to it, the screen is set up before the radio starts, the
    MQTT client has the node's address, and a task what it uses. *)
Definition requires (cf : BuildConfig) (op : BootOp) : list BootOp :=
  match op with
  | NvsFlashErase => [NvsFlashInit]
  | WifiInit => [NvsFlashInit; NetifInit; EventLoopCreate] ++ (if cf_oled cf then [OledInit] else [])
  | WifiStart => [WifiInit; WifiSetModeSta]
  | MeshInit => [WifiStart; MeshSetLoraPriority] ++ (if cf_spiram cf then [VerifyPsram] else [])
  | MeshSubscribe _ => [MeshInit]
  | MqttSetAddr => [MeshInit]
  | MqttSetEventGroup => [EventGroupCreate]
  | MqttInit => [MqttSetAddr; MqttSetEventGroup]
  | MeshSetMqtt => [MqttInit]
  | UartInit => [MeshInit]
  | MeshSetUart => [UartInit]
  | ClientInit => [UartInit]
  | CreateTask t _ => needs cf t
  | _ => []
  end.

(** Each call of a trace finds what it requires among the calls [seen] before. *)
Fixpoint ordered (cf : BuildConfig) (seen ops : list BootOp) : bool :=
  match ops with
  | [] => true
  | op :: ops' =>
      forallb (fun r => bool_decide (r ∈ seen)) (requires cf op) && ordered cf (op :: seen) ops'
  end.

Lemma ordered_app cf seen ops ops' :
  ordered cf seen (ops ++ ops') = ordered cf seen ops && ordered cf (reverse ops ++ seen) ops'.
Proof.
  revert seen. induction ops as [ | op ops IH ]; intros seen; [ done | ].
  cbn [ordered app]. rewrite IH, reverse_cons, <- (assoc_L (++)). cbn [app]. by rewrite andb_assoc.
Qed.

Lemma ordered_prefix cf seen ops ops' :
  ops `prefix_of` ops' → ordered cf seen ops' = true → ordered cf seen ops = true.
Proof. intros [k ->]. rewrite ordered_app. by intros [? _]%andb_prop. Qed.

Lemma ordered_before cf pre op post seen :
  ordered cf seen (pre ++ op :: post) = true → Forall (.∈ pre ++ seen) (requires cf op).
Proof.
  rewrite ordered_app. intros [_ H]%andb_prop. cbn [ordered] in H. apply andb_prop in H as [H _].
  rewrite forallb_forall in H. apply Forall_forall. intros r Hr.
  specialize (H r (proj1 (list_elem_of_In _ _) Hr)). apply bool_decide_eq_true in H. set_solver.
Qed.

Definition radio_ops (cf : BuildConfig) (stale_nvs : bool) : list (BootOp * bool) :=
  unchecked [LogSetVprintf] ++ nvs_ops stale_nvs ++ when (cf_oled cf) (checked [OledInit]) ++
  (if cf_wifi_disabled cf then relay_wifi_ops cf else station_wifi_ops cf).

(** The calls of a start-up nothing interrupts. *)
Definition full_boot (cf : BuildConfig) (stale_nvs alloc : bool) : list BootOp :=
  map fst (radio_ops cf stale_nvs) ++ psram_ops cf ++ map fst (component_ops cf ++ task_ops cf alloc).

Lemma full_boot_ordered cf stale alloc : ordered cf [] (full_boot cf stale alloc) = true.
Proof.
  destruct cf as [wd sp ol sd [pin | ] da ch ss pw], wd, sp, ol, sd, da, stale, alloc; vm_compute; done.
Qed.

Lemma restart_ordered cf stale :
  ordered cf [] (map fst (radio_ops cf stale) ++ psram_ops cf ++ [TaskDelay 100; Restart]) = true.
Proof.
  destruct cf as [wd sp ol sd led da ch ss pw], wd, sp, ol, stale; vm_compute; done.
Qed.

Lemma run_checked_stopped {A} (ok : A → bool) ops :
  (run_checked ok ops).2 = false → ∃ op, last (run_checked ok ops).1 = Some op ∧ ok op = false.
Proof.
  induction ops as [ | [op c] ops IH ]; intros H; [ done | ]. cbn [run_checked] in *.
  destruct (c && negb (ok op)) eqn:Hc.
  - exists op. apply andb_prop in Hc as [_ ?%negb_true_iff]. done.
  - destruct (run_checked ok ops) as [d a]. cbn [fst snd] in *.
    destruct (IH H) as (q & Hl & ?). exists q. by rewrite last_cons, Hl.
Qed.

(** The three ways [app_main] ends. *)
Lemma app_main_cases cf b :
  let radio := run_checked (be_ok b) (radio_ops cf (be_stale_nvs b)) in
  let rest := run_checked (be_ok b) (component_ops cf ++ task_ops cf (be_alloc_display b)) in
  let bad_ram := cf_spiram cf && negb (verify_psram_integrity (be_psram b)) in
  app_main cf b =
  if radio.2 then
    if bad_ram then (radio.1 ++ psram_ops cf ++ [TaskDelay 100; Restart], Restarted)
    else (radio.1 ++ psram_ops cf ++ rest.1, if rest.2 then Running else Aborted)
  else (radio.1, Aborted).
Proof.
  cbv zeta. unfold app_main, radio_ops. destruct (run_checked _ (unchecked [LogSetVprintf] ++ _)) as [f []]; [ | done ].
  cbn [fst snd negb]. destruct (cf_spiram cf && _); [ done | ]. by destruct (run_checked _ _).
Qed.

Lemma app_main_ordered cf b : ordered cf [] (app_main cf b).1 = true.
Proof.
  rewrite app_main_cases. cbv zeta.
  pose proof (run_checked_prefix (be_ok b) (radio_ops cf (be_stale_nvs b))) as Hp.
  pose proof (run_checked_alive (be_ok b) (radio_ops cf (be_stale_nvs b))) as Ha.
  destruct (run_checked _ (radio_ops _ _)) as [first []]; cbn [fst snd] in *.
  - rewrite (Ha eq_refl). case_match; [ apply restart_ordered | ].
    eapply ordered_prefix, (full_boot_ordered cf (be_stale_nvs b) (be_alloc_display b)).
    apply prefix_app, prefix_app, run_checked_prefix.
  - eapply ordered_prefix, (full_boot_ordered cf (be_stale_nvs b) (be_alloc_display b)).
    etrans; [ exact Hp | ]. by apply prefix_app_r.
Qed.

(** C27: Every call of a start-up comes after the calls it relies on, whatever
    the build configuration and wherever the start-up stops: the screen is set
    up before the radio, the mesh attaches to a started radio and checked
    PSRAM, and a task is created only once all it uses is initialised. A
    start-up that gets through makes exactly the configured calls; bad PSRAM
    never lets one through; a stopped one ends in the call that failed, or in
    the restart with no task created. *)
Theorem boot_order cf b ops r :
  app_main cf b = (ops, r) →
  (∀ pre op post, ops = pre ++ op :: post → Forall (.∈ pre) (requires cf op)) ∧
  match r with
  | Running => ops = full_boot cf (be_stale_nvs b) (be_alloc_display b) ∧
               (cf_spiram cf = true → verify_psram_integrity (be_psram b) = true)
  | Aborted => ∃ op, last ops = Some op ∧ be_ok b op = false
  | Restarted => last ops = Some Restart ∧ ∀ t core, CreateTask t core ∉ ops
  end.
Proof.
  intros H. split.
  { intros pre op post ->. pose proof (app_main_ordered cf b) as Ho. rewrite H in Ho.
    rewrite <- (app_nil_r pre). by eapply ordered_before. }
  rewrite app_main_cases in H. cbv zeta in H.
  destruct (run_checked _ (radio_ops _ _)).2 eqn:Hr; [ apply run_checked_alive in Hr | ].
  - rewrite Hr in H. case_match eqn:Hm; simplify_eq.
    + split; [ by rewrite !last_app | ]. intros t core.
      destruct cf as [[] [] [] ? ? ? ? ? ?], (be_stale_nvs b); set_solver.
    + destruct (run_checked _ (_ ++ task_ops _ _)).2 eqn:Hc.
      * apply run_checked_alive in Hc. rewrite Hc. split; [ done | ]. intros Hs. rewrite Hs in Hm.
        by apply negb_false_iff in Hm.
      * apply run_checked_stopped in Hc as (op & Hl & ?). exists op. by rewrite !last_app, Hl.
  - simplify_eq. by apply run_checked_stopped.
Qed.

Definition station_config : BuildConfig :=
  mk_config false true true false None false 1 (str "net") (str "secret").
Definition good_boot : BootEnv := mk_boot_env (fun _ => true) false (Some (fun _ v => v)) true.

Lemma boot_order_witness :
  (app_main station_config good_boot).2 = Running ∧
  Forall (.∈ (app_main station_config good_boot).1) (needs station_config mqtt_task) ∧
  last (app_main station_config (mk_boot_env (fun op => bool_decide (op ≠ WifiStart)) false None true)).1
    = Some WifiStart.
Proof.
  pose proof (boot_order station_config good_boot _ _ (surjective_pairing _)) as [_ Hgood].
  set (bad := mk_boot_env (fun op => bool_decide (op ≠ WifiStart)) false None true).
  pose proof (boot_order station_config bad _ _ (surjective_pairing _)) as [_ Hbad].
  assert (Hr : (app_main station_config good_boot).2 = Running) by (vm_compute; done).
  assert (Ha : (app_main station_config bad).2 = Aborted) by (vm_compute; done).
  rewrite Hr in Hgood. rewrite Ha in Hbad.
  split; [ done | split ].
  - destruct Hgood as [-> _]. apply (bool_decide_unpack _). vm_compute. done.
  - destruct Hbad as (op & -> & Hop). by apply bool_decide_eq_false, dec_stable in Hop as ->.
Defined.

(** ** The WiFi link *)

#[export] Instance WifiEvent_eq : EqDecision WifiEvent.
Proof. solve_decision. Defined.

Section wifi.
Context {X : Type}.
Implicit Types (w : WifiState X) (evs : list WifiEvent).

Definition wifi_run evs w : WifiState X := foldl (fun w ev => wifi_event_handler ev w) w evs.

(** The link as the events tell it: up after an address, down after a loss. *)
Definition link_after (up : bool) evs : bool :=
  foldl (fun up ev => match ev with GOT_IP => true | STA_DISCONNECTED => false | _ => up end) up evs.

(** Did the link go from up to down on the way? *)
Fixpoint link_lost (up : bool) evs : bool :=
  match evs with
  | [] => false
  | ev :: evs => (up && bool_decide (ev = STA_DISCONNECTED)) || link_lost (link_after up [ev]) evs
  end.

Definition reconnects (ev : WifiEvent) : Prop := ev = STA_START ∨ ev = STA_DISCONNECTED.
#[export] Instance reconnects_dec ev : Decision (reconnects ev).
Proof. apply _. Defined.

Definition mesh_flags (m : MeshManager X) : bool * bool * bool :=
  (mm_has_internet m, mm_exit_offline_pending m, mm_peer_update_pending m).

Lemma wifi_step ev w :
  let w' := wifi_event_handler ev w in
  let m := ws_mesh w in
  mesh_flags (ws_mesh w') =
    (link_after (mm_has_internet m) [ev],
     mm_exit_offline_pending m || (mm_has_internet m && bool_decide (ev = STA_DISCONNECTED)),
     mm_peer_update_pending m || bool_decide (ev = GOT_IP)) ∧
  ws_connected_bit w' = link_after (ws_connected_bit w) [ev] ∧
  ws_connects w' = (ws_connects w + (if decide (reconnects ev) then 1 else 0))%nat.
Proof.
  destruct w as [bit k m]. destruct m as [? ? up ? ? ? ? ? pu eo ? ? ?].
  destruct ev, up, eo, pu; cbn; rewrite ?Nat.add_0_r, ?Nat.add_1_r; done.
Qed.

(** Whatever the WiFi driver reports, the node's view of its link is the
    last report: the event bit and [has_internet] agree with it, every start
    and every loss asks for a connection exactly once, every address makes the
    mesh refresh its broadcast peer, and a link that was ever lost leaves the
    EXIT_OFFLINE announcement pending. *)
Theorem wifi_handler_tracks evs w :
  ws_connected_bit w = mm_has_internet (ws_mesh w) →
  let w' := wifi_run evs w in
  let m := ws_mesh w in
  let up := mm_has_internet m in
  ws_connected_bit w' = link_after up evs ∧
  mesh_flags (ws_mesh w') =
    (link_after up evs, mm_exit_offline_pending m || link_lost up evs,
     mm_peer_update_pending m || bool_decide (GOT_IP ∈ evs)) ∧
  ws_connects w' = (ws_connects w + length (filter reconnects evs))%nat.
Proof.
  cbv zeta. revert w. induction evs as [ | ev evs IH ]; intros w Hw.
  { cbn. unfold mesh_flags. by rewrite !orb_false_r, Nat.add_0_r. }
  destruct (wifi_step ev w) as (Hf & Hb & Hc). change (wifi_run (ev :: evs) w) with (wifi_run evs (wifi_event_handler ev w)).
  rewrite Hw in Hb. unfold mesh_flags in Hf. injection Hf as Hup Heo Hpu.
  destruct (IH (wifi_event_handler ev w)) as (-> & -> & ->); [ by rewrite Hb, Hup | ].
  rewrite Hup, Heo, Hpu, Hc, filter_cons. split_and!; [ done | | case_decide; cbn [length]; lia ].
  f_equal; [ f_equal; cbn [link_lost]; by rewrite orb_assoc | ].
  rewrite <- orb_assoc. f_equal. rewrite <- bool_decide_or. apply bool_decide_ext.
  rewrite elem_of_cons. naive_solver.
Qed.
End wifi.

(** A node that comes online, loses the link and regains it. *)
Definition flap : list WifiEvent := [STA_START; GOT_IP; STA_DISCONNECTED; GOT_IP].
Definition flapped : WifiState DemoAir := wifi_run flap (mk_wifi false 0 (demo_mesh 3 1000 []).1).

Lemma wifi_handler_tracks_witness :
  mesh_flags (ws_mesh flapped) = (true, true, true) ∧ ws_connects flapped = 2%nat.
Proof.
  destruct (wifi_handler_tracks flap (mk_wifi false 0 (demo_mesh 3 1000 []).1) eq_refl) as (_ & H & Hc).
  unfold flapped. rewrite H, Hc. vm_compute. done.
Defined.

(** Its next loop turn tells the mesh it is offline, while it is not: the
    pending announcement is not checked against the link again. *)
Lemma flap_announces_offline :
  let turn := run_once demo_platform (ws_mesh flapped) (demo_mesh 3 1000 []).2 in
  EXIT_OFFLINE ∈ ((fun f => hdr_type (decode_header f)) <$> sent turn) ∧ mm_has_internet turn.1 = true.
Proof. split; [ apply (bool_decide_unpack _) | ]; vm_compute; done. Qed.

(** ** Credentials *)

(** A 32-byte SSID, or a 64-digit key, loses its last byte. *)
Lemma credential_cut cap text :
  0 < cap → (credential cap text = text ↔ Z.of_nat (length text) < cap).
Proof.
  intros Hc. unfold credential. split; intros H.
  - apply (f_equal length) in H. rewrite length_take in H. lia.
  - apply take_ge. lia.
Qed.
